(* ===== verification/_CoqProject ===== *)
-Q . S2P
Prelude.v
Qt.v
StdAlgo.v
Conn.v
Heuristics.v
Filter.v
FilterEval.v
FilterParse.v
FilterPrint.v
Resolver.v
Attribution.v
BirthCache.v
TopK.v
DeepQueue.v
DeepWorker.v
HintTable.v
IdleManager.v
HintManager.v
AgentConfig.v
DbusTypes.v
Service.v
Agent.v
UdpAgg.v
Aggregator.v
AggregatorProofs.v
AggregatorRun.v
Dns.v
ProcParse.v
SockDump.v
SockDiag.v
Cgroup.v
IfaceAgg.v
Lru.v
Netns.v
NetnsProofs.v
Conntrack.v
Netlink.v
ProcDetails.v
Factory.v
DbusClient.v
Handoff.v
Export.v
Units.v
TuiFormat.v
TuiScreen.v
TuiState.v
TuiControl.v
TuiFrame.v
TuiPrefs.v
TuiProofs.v
TuiGroups.v
TuiRun.v
TuiTheorems.v
TuiSamples.v
GroupProxy.v
GroupProxyProofs.v
GroupProxyRun.v
BsdResolver.v
BsdCapture.v
CheckTool.v
GuiModel.v
Escalator.v
Platform.v
GuiSettings.v
WindowText.v
Window.v
Tray.v
GuiTheme.v
SettingsDialog.v
Delegates.v
AgentProbe.v
TuiStart.v
GuiStart.v
Metrics.v
Snapshot.v
WindowActions.v
Cadence.v
