(* ===== verification/Prelude.v ===== *)
(** * qiftop: a verification library for the core of the network monitor

    qiftop shows the traffic of a host per interface and per connection.  A
    privileged agent ([src/agent/]) reads the kernel's conntrack table
    ([src/backend/linux/]), decides which local process and container owns
    each flow, and publishes snapshots over DBus ([src/dbus/]); unprivileged
    frontends keep a table of flows with smoothed rates ([src/aggregate/]),
    filter it with a small expression language and resolve host names
    ([src/util/], [src/dns/]).  There is a graphical one ([src/ui/],
    [src/config/]), one for the terminal ([src/tui/]), a check for monitoring
    systems ([src/tools/]) and two exporters ([examples/]); on the BSDs
    [src/backend/bsd/] captures packets instead.

** The parts, how they interact, and where they are modelled

    Shared vocabulary:
    - [Prelude] (this file): automation ([blia], [split_ifs], the hint
      database [qif]), machine integers, list and string lemmas, decimal text,
      binary64 arithmetic.
    - [Qt], [StdAlgo]: what the sources take from Qt and libstdc++.  An
      operation whose result is not determined by the source (hash iteration
      order, the order of equally loud elements after a sort or in a heap,
      Unicode case folding, regular expressions, number parsing, address text)
      is a class of operations together with a class of its documented laws;
      each class has an executable instance.
    - [Conn]: [backend/Connection.h] and the records of
      [backend/ProcessResolver.h]; the flow key [Connection::key].
    - [Heuristics]: [util/ConnectionHeuristics.h], [linux/ConntrackOrient.h].

    Attribution (which process, which container):
    - [ProcParse]: [linux/ProcSnapshot.h], [linux/SockDiagParse.h].
    - [SockDump]: [linux/SockDiagDump.{h,cpp}], the kernel's socket dump at byte
      level.
    - [SockDiag]: [linux/SockDiagResolver.cpp], flow to inode to pid with its
      two timed caches.
    - [Netns], [NetnsProofs]: [linux/NetnsScanner.{h,cpp}], the worker that
      enters the network namespaces of containers, and the resolver object in
      front of it; the two run on different threads and meet in posted events
      and one locked table, so a run interleaves their steps.
    - [ProcDetails]: [linux/ProcDetails.cpp], the details of one process
      read on demand.
    - [Factory]: [backend/ProcessResolverFactory.cpp], which resolvers are
      composed, in which order, from configuration and platform.
    - [Cgroup]: [linux/CgroupParse.h], [linux/CgroupClassifier.cpp].
    - [BirthCache]: [backend/BirthCache.h], [backend/BpfBirthResolver.h].
    - [Resolver], [Attribution]: the resolver interface, the composite
      resolver and the batch pass [attributeFlows] of
      [backend/Attribution.cpp].  A resolver is a record of operations over a
      state; the concrete resolvers above are values of that record, and the
      pass is verified against the record alone.
    - [TopK]: [linux/FlowTopK.h], the bounded collector of a conntrack dump.
    - [DeepQueue], [DeepWorker]: [backend/DeepAttributionQueue.h] and
      [backend/ResolverDeepWorker.cpp], the second, slower attempt at flows
      that stayed without an owner.

    The kernel's tables:
    - [Lru]: the [LruCache] of [linux/ConntrackMonitor.cpp], refined to a list of pairs.
    - [Conntrack]: [linux/ConntrackMonitor.cpp], the poll over both address
      families with its interface caches; the monitor object and its thread.
    - [Netlink]: [linux/NetlinkWorker.cpp], [linux/NetlinkMonitor.cpp], link statistics and addresses.
    - [BsdResolver], [BsdCapture]: [backend/bsd/]: the socket tables of
      FreeBSD and NetBSD, interface statistics, and the packet parser with its
      flow table and worker.
    - [Platform]: [backend/PlatformInfo.cpp], [util/Autostart.cpp]: local
      addresses, user names and groups, the test whether writing settings would
      escalate, and the autostart entry.

    The agent:
    - [HintTable], [IdleManager], [HintManager]: expiring per-client requests
      for cadence and eagerness ([agent/IdleManager.cpp],
      [agent/AttributionHintManager.cpp]).
    - [AgentConfig]: [agent/Config.cpp].
    - [DbusTypes]: [dbus/Types.cpp], the wire records.
    - [Service]: [agent/ConnectionsService.cpp].  It owns the queue, the
      worker and the managers, so a handler is one function whose output lists
      every signal it emits.
    - [Agent]: [agent/Application.cpp], [agent/InterfacesService.cpp]; the
      event loop [agent_step] over all of the above.
    - [AgentProbe]: the start of [agent/main.cpp], and how the frontends look
      for the agent.
    - [Cadence]: the frontends' heartbeat against the agent's event loop and
      idle schedule.

    The frontends:
    - [UdpAgg], [Aggregator], [AggregatorProofs], [AggregatorRun]:
      [aggregate/ConnectionAggregator.{h,cpp}], grouping of UDP flows, rates,
      retention and the change signals a view replays.
    - [IfaceAgg]: [aggregate/InterfaceAggregator.cpp].
    - [Filter], [FilterEval], [FilterParse], [FilterPrint]:
      [util/ConnectionFilter.{h,cpp}].
    - [Dns]: [dns/QtDnsResolver.cpp].
    - [DbusClient]: [backend/dbus/DBus{Connection,Network}Monitor.cpp], the client side of the bus.
    - [GroupProxy], [GroupProxyProofs], [GroupProxyRun]:
      [ui/ConnectionGroupProxy.cpp], the tree of groups over the flow table.
    - [Export]: [util/Exporter.cpp], CSV and JSON.
    - [Units]: [util/Units.h], [aggregate/BandwidthScale.h].
    - [Handoff]: [util/HandoffServer.cpp], [util/HandoffClient.cpp], the
      authenticated line protocol between two instances.

    The graphical frontend ([src/ui/], [src/config/], [src/main.cpp]):
    - [GuiModel]: [ConnectionModel], [NetworkModel], the two filter proxies and
      the gauge of a row.
    - [GuiSettings]: [config/Settings.{h,cpp}], the preferences.
    - [WindowText], [Window], [WindowActions]: [MainWindow.cpp].  The first
      holds its texts, menus and headers, the second the window as a state
      machine over preferences, visibility, pausing, the tray and the
      privileged copy, the third what its menus start: relaunching, exporting,
      copying, the About box and the kept layout.
    - [Tray], [GuiTheme], [SettingsDialog], [Delegates]: the files of those
      names; painting is the document or the rectangles a delegate computes.
    - [Escalator]: [util/PrivilegeEscalator.cpp].
    - [GuiStart]: [main.cpp], the order of the start and the copy that takes
      over from another window.

    Tools:
    - [CheckTool]: [tools/check-qiftop/main.cpp].
    - [Metrics], [Snapshot]: [examples/prometheus-exporter/main.cpp],
      [examples/snapshot-export/main.cpp].

    The terminal frontend ([src/tui/]):
    - [TuiFormat]: [TuiFormat.h], [TuiTheme.h], [Expansion.h]: columns, cells,
      detail rows, sort orders, group keys, themes, word wrap.
    - [TuiScreen]: [Screen.{h,cpp}]: the key decoder with the input loop of
      [main.cpp], and rendering as the list of text and gauge operations a
      frame issues.
    - [TuiState], [TuiControl], [TuiFrame]: [TuiApp.{h,cpp}]: the controller's
      state, every key handler, and the frame it builds from the aggregators'
      rows.
    - [TuiPrefs]: loading and saving of preferences and the command line.
    - [TuiProofs], [TuiGroups], [TuiRun], [TuiTheorems], [TuiSamples]: the
      theorems about them and their instances.
    - [TuiStart]: [main.cpp], the program around the controller: signals,
      timers, input and the pipeline into it.

** How code becomes definitions

    Pure functions are functions.  An object is a record of its members; a
    method is a function from the record (and the environment's answers) to
    the new record and what it emits.  The objects run on one thread each, or
    take one mutex for a whole operation, so a run is a sequence of whole
    operations: a step function per class, and inductive [_reachable] or
    folded [run] predicates for whole lives.  [std::optional] and failing
    reads are [option]; parse errors are values.  Unsigned 64-bit arithmetic
    wraps where the source's does.  Doubles are IEEE binary64 ([SpecFloat]),
    not reals.  [QHash] is [gmap], with its iteration order a parameter where
    the result depends on it.  Strings are lists of UTF-16 code units.

    Fuel, and why it is enough.  The parser's nesting is bounded by the
    source's own limit of 64, and recursion follows what is left of it; its
    loops take the length of the remaining input, and
    [parser_loops_complete] shows they never stop for lack of it.  The walk
    over a netlink buffer takes one more than its length (every record
    consumes at least its header), the walk over a cgroup path one more than
    its length.  The key loop takes the length of the input buffer (every key
    consumes a byte), the cursor's walk one more than the number of rows, and
    the search for an export name one more than the number of files, which
    [export_name_fresh] shows to be enough.  The worker's loop is driven by ticks; [worker_quiesces] gives
    the number of ticks after which it is idle.

** What the theorems show

    - The agent: in every reachable state the published rows, their wire
      records and the key index agree, the worker follows the effective
      eagerness, and hints and cadence stay within bounds; configured off it
      never attributes, whatever clients ask for; snapshots are capped to the
      loudest flows; late results only add information; the sensitive process
      details reach only callers the policy admits; a client that keeps its
      heartbeat is served at its pace whatever the others do, and without
      calls the agent pauses.
    - Attribution: with stable answers the memoised pass equals asking afresh
      for every flow, enriches once per process, and gives a row only what was
      answered under the start time of the pid it resolved to; the socket
      resolver names a process exactly when one unambiguous socket matches and
      its start time is still the recorded one; buffer parsing never reads out of bounds; nested
      container scopes are recovered in order.
    - Network namespaces: a pid answered for a flow was seen holding the
      matching socket in a namespace other than the host's; a tuple two
      containers share is answered for neither when one scan sees both.
    - Bounded structures: the deep queue keeps the loudest requests and never
      exceeds its cap; the worker reaches quiescence; the LRU cache implements
      its specification; a conntrack poll with caches equals one without.
    - The client: what a frontend shows is what the agent published, and a
      client that reconnects asserts its requests again.
    - Hand-off: no command is written to a peer that has not authenticated
      (refinement of an abstract session), and every command sent is delivered
      in order.
    - The group tree: index maps, rows and signals agree in every reachable
      state, and the incremental tree equals one rebuilt from scratch.
    - The BSD worker: no read leaves a packet whatever its bytes, and table and
      snapshots stay well-typed and bounded; the owner of a flow is the process
      the socket table names.
    - The graphical frontend: everything the window shows and told its models
      agrees with the preferences after any events; hidden it sends the agent
      nothing; paused no table changes; the models announce exactly the changes
      they make, and the filters show exactly the rows that pass; preferences
      survive a restart, the dialog stores what it shows, the layout comes
      back; texts from outside bring no markup into cells, tool tips and boxes.
    - Privileges: every helper is started from a fixed directory with a scrubbed
      environment; the copy that is started finds the window's socket and the
      file with the nonce, which itself is never passed on; the test against
      writing into a foreign home is exact and ends.
    - Tools: the check prints one line whose state is its exit code; exported
      metrics are the flow table grouped, and their labels read back; a
      snapshot's cells read back and its exit code tells whether it was written.
    - Export: a CSV file reads back as the exported cells, and no cell starts
      a spreadsheet formula.
    - The flow table: index and rows agree in every reachable state, an update
      leaves exactly the rows it should, a view that replays the signals
      stays in step with the table; UDP totals never decrease while they fit
      64 bits.
    - The filter: print/parse round trip, soundness of every parse result,
      agreement of the depth-capped evaluator with the denoted formula.
    - The terminal: after any keys, data, timers and redraws the controller is
      well-formed; the frame draws the row under the cursor; rendering stays
      on the screen; the decoder yields the keys pressed; preferences survive
      a restart; re-sorting rows never moves a group; a paused frame does not
      depend on new data; an export is the flat view and never overwrites a
      file.
    - Wire records: round trips and compatibility between field sets of
      different age.
    - Behaviour that departs from the comments or the evident intent is stated
      as theorems too: [orChain_truncated], [regex_numeric_constant],
      [dns_negative_never_expires], [docker_in_docker_lost],
      [procWalk_flood_uncapped], [eagerness_change_drops_overrides],
      [bpfEnrichPid_unguarded], [tuple_last_writer], [monitor_lifecycle],
      [greeting_with_backlog_rejected], [removed_group_misdirects],
      [function_keys_undecodable], [help_never_fits],
      [unattributed_group_detail], [settings_regroup_keeps_folds],
      [fragment_becomes_flow], [suckMib_stuck], [stride_overread],
      [legacy_resurrects], [comm_marker_misread], [handoff_lost],
      [pkexec_program_misread], [large_group_refused], [exec_path_cut],
      [nan_threshold_never_alarms], [inbound_peer_is_local],
      [filter_line_overwritten], [denial_banner_lost], [tray_reset_spikes],
      [dialog_rewrites_colors], [reason_never_painted],
      [takeover_pause_stale], [metric_marker_misread], [duplicate_series],
      [short_ttl_lapses].

** Parameters and assumptions

    The conntrack and netlink sockets, the file system and /proc, the bus, the
    host-name service and the clocks are outside: what they answer is an
    argument of the step that reads it, and may change between steps.  The text
    Qt prints for a double, the C library's [log10], [floor] and [pow], and the
    text of a rate that is not a number are parameters.  Native
    integers in netlink buffers are little-endian.  Log lines and warnings are
    left out.

** Not modelled

    The construction of widgets and menus, painting itself, curses itself, the
    eBPF loader and program, log lines, the benchmarks and the demo.  They are
    I/O, platform calls or presentation; the decisions they delegate to are in
    the components above. *)

From stdpp Require Export base decidable option list numbers strings gmap fin_maps sorting.
From Stdlib Require Export ZArith Lia.
From Stdlib Require Import Ascii DecimalN.
From Stdlib Require Export SpecFloat.

Declare Scope qif_scope.
Delimit Scope qif_scope with qif.

(* ------------------------------------------------------------------ *)
(** ** Development-wide automation *)

Create HintDb qif.

(** Turn the boolean tests of the code into propositions and let [lia] finish. *)
Ltac blia :=
  repeat match goal with
  | H : _ && _ = true |- _ => apply andb_true_iff in H; destruct H
  | H : _ || _ = false |- _ => apply orb_false_iff in H; destruct H
  | H : negb _ = true |- _ => apply negb_true_iff in H
  | H : negb _ = false |- _ => apply negb_false_iff in H
  | H : (_ =? _)%Z = true |- _ => apply Z.eqb_eq in H
  | H : (_ =? _)%Z = false |- _ => apply Z.eqb_neq in H
  | H : (_ <? _)%Z = true |- _ => apply Z.ltb_lt in H
  | H : (_ <? _)%Z = false |- _ => apply Z.ltb_ge in H
  | H : (_ <=? _)%Z = true |- _ => apply Z.leb_le in H
  | H : (_ <=? _)%Z = false |- _ => apply Z.leb_gt in H
  end; try lia.

(** Case analysis on the tests a definition branches on. *)
Ltac split_ifs :=
  repeat match goal with
  | |- context [if ?b then _ else _] =>
      let E := fresh "E" in destruct b eqn:E
  | H : context [if ?b then _ else _] |- _ =>
      let E := fresh "E" in destruct b eqn:E
  end.

(* ------------------------------------------------------------------ *)
(** ** Machine integers

    [quint8]..[quint64] are [Z] kept in range; unsigned arithmetic of the
    source wraps modulo the width, written out by [u64] and friends. *)

Definition two64 : Z := 18446744073709551616.
Definition u64 (z : Z) : Z := (z mod two64)%Z.
Definition in_u64 (z : Z) : Prop := (0 <= z < two64)%Z.
Definition u64_max : Z := (two64 - 1)%Z.
Definition in_u16 (z : Z) : Prop := (0 <= z < 65536)%Z.
Definition in_u32 (z : Z) : Prop := (0 <= z < 4294967296)%Z.
Definition int32_max : Z := 2147483647.

Lemma u64_small z : in_u64 z -> u64 z = z.
Proof. unfold in_u64, u64. intros. by apply Z.mod_small. Qed.

Lemma u64_range z : in_u64 (u64 z).
Proof. unfold in_u64, u64. apply Z.mod_pos_bound. unfold two64; lia. Qed.

Lemma u64_add_r a b : u64 (a + u64 b) = u64 (a + b).
Proof. unfold u64. by rewrite Z.add_mod_idemp_r. Qed.

Lemma u64_add_l a b : u64 (u64 a + b) = u64 (a + b).
Proof. unfold u64. by rewrite Z.add_mod_idemp_l. Qed.

#[export] Hint Resolve u64_range : qif.

(* ------------------------------------------------------------------ *)
(** ** Lists *)

Lemma filter_all {A} (P : A -> Prop) `{forall x, Decision (P x)} (l : list A) : Forall P l -> filter P l = l.
Proof. induction 1 as [|x l Hx _ IH]; [done|]. by rewrite filter_cons_True, IH. Qed.

Lemma length_omap_le {A B} (f : A -> option B) (l : list A) : length (omap f l) <= length l.
Proof. induction l as [|x l IH]; [done|]. cbn [omap list_omap]. destruct (f x); simpl in *; lia. Qed.

(* ------------------------------------------------------------------ *)
(** ** IEEE-754 binary64, the C++ [double]

    Rates and smoothed values are doubles: the executable specification of
    binary64 (round to nearest even) from the standard library is used, so
    NaN, infinities and rounding behave as in the source. *)

Abbreviation double := spec_float.
Definition dprec : Z := 53.
Definition demax : Z := 1024.
Definition dzero : double := S754_zero false.
Definition dofZ (z : Z) : double := binary_normalize dprec demax z 0 false.
Definition dadd : double -> double -> double := SFadd dprec demax.
Definition dsub : double -> double -> double := SFsub dprec demax.
Definition dmul : double -> double -> double := SFmul dprec demax.
Definition ddiv : double -> double -> double := SFdiv dprec demax.
Definition dlt : double -> double -> bool := SFltb.
Definition dle : double -> double -> bool := SFleb.
Definition deq : double -> double -> bool := SFeqb.
Definition disnan (d : double) : bool := negb (deq d d).
(** [qAbs]: [t >= 0 ? t : -t]. *)
Definition dabs (d : double) : double := if dle dzero d then d else SFopp d.
(** [std::max(a, b)]: [a < b ? b : a]. *)
Definition dmax (a b : double) : double := if dlt a b then b else a.

#[global] Instance spec_float_eq_dec : EqDecision double.
Proof. solve_decision. Defined.

(* ------------------------------------------------------------------ *)
(** ** [QString]: a sequence of UTF-16 code units *)

Abbreviation QChar := Z (only parsing).
Abbreviation QString := (list Z) (only parsing).

Definition qs (s : string) : QString :=
  List.map (fun a => Z.of_N (N_of_ascii a)) (String.list_ascii_of_string s).

Arguments qs _%_string_scope.

Definition isEmpty {A} (l : list A) : bool := match l with [] => true | _ => false end.

Lemma isEmpty_true {A} (l : list A) : isEmpty l = true <-> l = [].
Proof. destruct l; naive_solver. Qed.

Lemma isEmpty_false {A} (l : list A) : isEmpty l = false <-> l <> [].
Proof. destruct l; naive_solver. Qed.

Definition qeqb (a b : QString) : bool := bool_decide (a = b).

Lemma qeqb_eq a b : qeqb a b = true <-> a = b.
Proof. apply bool_decide_eq_true. Qed.

Lemma qeqb_neq a b : qeqb a b = false <-> a <> b.
Proof. apply bool_decide_eq_false. Qed.

(** [prefixb p s]: [s.startsWith(p)]. *)
Fixpoint prefixb (p s : QString) : bool :=
  match p, s with
  | [], _ => true
  | c :: p', d :: s' => (c =? d)%Z && prefixb p' s'
  | _, _ => false
  end.

(** [infixb n h]: [h.contains(n)]. *)
Fixpoint infixb (n h : QString) : bool :=
  prefixb n h || match h with [] => false | _ :: h' => infixb n h' end.

Lemma prefixb_spec p s : prefixb p s = true <-> exists t, s = p ++ t.
Proof.
  revert s; induction p as [|c p IH]; intros [|x s]; simpl; split; try done; eauto.
  - intros [t Ht]; done.
  - rewrite andb_true_iff, Z.eqb_eq, IH. naive_solver.
  - intros [t Ht]. simplify_eq. rewrite Z.eqb_refl. simpl. apply IH; eauto.
Qed.

Lemma infixb_spec n h : infixb n h = true <-> exists a b, h = a ++ n ++ b.
Proof.
  induction h as [|c h IH]; simpl; rewrite orb_true_iff, prefixb_spec; split.
  - intros [[t Ht]|]; [exists [], t; done|done].
  - intros (a & b & Hab). symmetry in Hab. apply app_nil in Hab as [-> Hab].
    left. exists b. by rewrite Hab.
  - intros [[t Ht]|H]; [exists [], t; done|].
    apply IH in H as (a & b & ->). exists (c :: a), b. done.
  - intros ([|x a] & b & Hab); simpl in *; simplify_eq; [left; eauto|].
    right. apply IH. eauto.
Qed.

(** [s.split(sep)] keeping empty parts: never the empty list. *)
Fixpoint qsplit (sep : QChar) (s : QString) : list QString :=
  match s with
  | [] => [[]]
  | c :: r =>
      if (c =? sep)%Z then [] :: qsplit sep r
      else match qsplit sep r with
           | [] => [[c]]
           | p :: ps => (c :: p) :: ps
           end
  end.

(** [parts.join(sep)]. *)
Fixpoint qjoin (sep : QString) (l : list QString) : QString :=
  match l with
  | [] => []
  | [p] => p
  | p :: ps => p ++ sep ++ qjoin sep ps
  end.

Lemma qsplit_nonempty sep s : qsplit sep s <> [].
Proof. destruct s as [|c r]; simpl; [done|]. split_ifs; [done|]. by destruct (qsplit sep r). Qed.

Lemma qsplit_single sep s : sep ∉ s -> qsplit sep s = [s].
Proof.
  induction s as [|c r IH]; simpl; [done|]. intros [Hc Hr]%not_elem_of_cons.
  rewrite IH by done. destruct (Z.eqb_spec c sep); [congruence|done].
Qed.

Lemma qsplit_app sep s t :
  sep ∉ s -> qsplit sep (s ++ sep :: t) = s :: qsplit sep t.
Proof.
  induction s as [|c r IH]; simpl.
  - intros _. by rewrite Z.eqb_refl.
  - intros [Hc Hr]%not_elem_of_cons. rewrite IH by done.
    destruct (Z.eqb_spec c sep); [congruence|done].
Qed.

Lemma qsplit_join sep l :
  l <> [] -> Forall (fun p => sep ∉ p) l -> qsplit sep (qjoin [sep] l) = l.
Proof.
  intros Hne Hl. induction Hl as [|p l Hp Hl IH]; [done|].
  destruct l as [|p' l]; simpl; [by apply qsplit_single|].
  rewrite qsplit_app by done. f_equal. by apply IH.
Qed.

Lemma qjoin_split sep s : qjoin [sep] (qsplit sep s) = s.
Proof.
  induction s as [|c s IH]; simpl; [done|].
  pose proof (qsplit_nonempty sep s). destruct (Z.eqb_spec c sep) as [->|].
  - destruct (qsplit sep s); [done|]. simpl in *. by rewrite IH.
  - destruct (qsplit sep s) as [|p [|]]; [done|..]; simpl in *; by rewrite IH.
Qed.

(* ------------------------------------------------------------------ *)
(** ** Decimal text: [QString::number] *)

Fixpoint uint_digits (d : Decimal.uint) : QString :=
  match d with
  | Decimal.Nil => []
  | Decimal.D0 r => 48%Z :: uint_digits r
  | Decimal.D1 r => 49%Z :: uint_digits r
  | Decimal.D2 r => 50%Z :: uint_digits r
  | Decimal.D3 r => 51%Z :: uint_digits r
  | Decimal.D4 r => 52%Z :: uint_digits r
  | Decimal.D5 r => 53%Z :: uint_digits r
  | Decimal.D6 r => 54%Z :: uint_digits r
  | Decimal.D7 r => 55%Z :: uint_digits r
  | Decimal.D8 r => 56%Z :: uint_digits r
  | Decimal.D9 r => 57%Z :: uint_digits r
  end.

Definition isDigit (c : QChar) : bool := (48 <=? c)%Z && (c <=? 57)%Z.

Definition number (z : Z) : QString :=
  if (z <? 0)%Z then 45%Z :: uint_digits (N.to_uint (Z.to_N (- z)))
  else uint_digits (N.to_uint (Z.to_N z)).

Lemma uint_digits_inj a b : uint_digits a = uint_digits b -> a = b.
Proof.
  revert b; induction a; intros []; simpl; intros H; simplify_eq; f_equal; auto.
Qed.

Lemma uint_digits_digits d : Forall (fun c => isDigit c = true) (uint_digits d).
Proof. induction d; simpl; auto. Qed.

Lemma number_digits z : (0 <= z)%Z -> Forall (fun c => isDigit c = true) (number z).
Proof. intros Hz. unfold number. split_ifs; blia. apply uint_digits_digits. Qed.

Lemma number_inj a b : (0 <= a)%Z -> (0 <= b)%Z -> number a = number b -> a = b.
Proof.
  intros Ha Hb. unfold number. split_ifs; blia. intros H%uint_digits_inj.
  apply (f_equal N.of_uint) in H.
  rewrite !DecimalN.Unsigned.of_to in H. apply Z2N.inj; lia.
Qed.

(** A character that is not a digit does not occur in a printed number. *)
Lemma number_no_char c z : (0 <= z)%Z -> isDigit c = false -> c ∉ number z.
Proof.
  intros Hz Hc Hin. pose proof (number_digits z Hz) as HF.
  rewrite Forall_forall in HF. specialize (HF _ Hin). congruence.
Qed.

(* ------------------------------------------------------------------ *)
(** ** [QString::arg]: replace the lowest-numbered place marker *)

Inductive piece :=
| PLit (c : QChar)
| PMark (n : Z) (raw : QString).

Definition digitValue (c : QChar) : Z := (c - 48)%Z.

Fixpoint arg_pieces (s : QString) : list piece :=
  match s with
  | [] => []
  | c :: r =>
      if (c =? 37)%Z then
        match r with
        | x1 :: r1 =>
            if isDigit x1 then
              match r1 with
              | x2 :: r2 =>
                  if isDigit x2
                  then PMark (10 * digitValue x1 + digitValue x2) [c; x1; x2] :: arg_pieces r2
                  else PMark (digitValue x1) [c; x1] :: arg_pieces r1
              | [] => [PMark (digitValue x1) [c; x1]]
              end
            else PLit c :: arg_pieces r
        | [] => [PLit c]
        end
      else PLit c :: arg_pieces r
  end.

Definition min_marker (ps : list piece) : option Z :=
  foldr (fun p acc =>
           match p, acc with
           | PMark n _, Some m => Some (Z.min n m)
           | PMark n _, None => Some n
           | PLit _, _ => acc
           end) None ps.

Definition render_piece (m : Z) (x : QString) (p : piece) : QString :=
  match p with
  | PLit c => [c]
  | PMark n raw => if (n =? m)%Z then x else raw
  end.

Definition qarg (s x : QString) : QString :=
  let ps := arg_pieces s in
  match min_marker ps with
  | None => s
  | Some m => List.flat_map (render_piece m x) ps
  end.

Definition noPct (s : QString) : Prop := 37%Z ∉ s.

Lemma arg_pieces_prefix a t :
  noPct a -> arg_pieces (a ++ t) = List.map PLit a ++ arg_pieces t.
Proof.
  unfold noPct. induction a as [|c a IH]; simpl; [done|].
  intros [Hc Ha]%not_elem_of_cons. rewrite IH by done.
  destruct (Z.eqb_spec c 37); [congruence|done].
Qed.

Lemma qarg_prefix a t x :
  noPct a -> qarg (a ++ t) x = a ++ qarg t x.
Proof.
  intros Ha. unfold qarg. rewrite arg_pieces_prefix by done.
  assert (min_marker (List.map PLit a ++ arg_pieces t) = min_marker (arg_pieces t)) as ->.
  { unfold min_marker. rewrite foldr_app. clear Ha. induction a; simpl; done. }
  destruct (min_marker (arg_pieces t)) as [m|]; [|done].
  rewrite List.flat_map_app. f_equal. clear. induction a; simpl; [done|]. by f_equal.
Qed.

Lemma noPct_app a b : noPct a -> noPct b -> noPct (a ++ b).
Proof. unfold noPct. set_solver. Qed.

Lemma noPct_number z : (0 <= z)%Z -> noPct (number z).
Proof. intros. by apply number_no_char. Qed.

Lemma noPct_cons c s : (c =? 37)%Z = false -> noPct s -> noPct (c :: s).
Proof. unfold noPct. intros ?%Z.eqb_neq ?. set_solver. Qed.

Lemma qarg_cons c t x : (c =? 37)%Z = false -> qarg (c :: t) x = c :: qarg t x.
Proof. intros Hc. apply (qarg_prefix [c] t). apply noPct_cons; [done|]. unfold noPct. set_solver. Qed.

Lemma qarg_nonempty (s x : QString) :
  match s with c :: _ => negb (c =? 37)%Z | [] => false end = true -> qarg s x <> [].
Proof. destruct s as [|c s]; [done|]. intros Hc%negb_true_iff. by rewrite qarg_cons. Qed.

#[export] Hint Resolve noPct_app noPct_number noPct_cons : qif.

(* ------------------------------------------------------------------ *)
(** ** Finite maps *)

Lemma map_sub_empty {K V} `{Countable K} (m : gmap K V) : m ⊆ ∅ -> m = ∅.
Proof.
  intros Hsub. apply map_empty. intros k. destruct (m !! k) eqn:E; [|done].
  pose proof (lookup_weaken _ _ _ _ E Hsub) as He. by rewrite lookup_empty in He.
Qed.

Lemma map_sub_nonempty {K V} `{Countable K} (m m' : gmap K V) : m ⊆ m' -> m <> ∅ -> m' <> ∅.
Proof. intros Hsub Hne ->. by apply Hne, map_sub_empty. Qed.

Lemma Forall2_compose {A} (R : A -> A -> Prop) (a b c : list A) :
  (forall x y z, R x y -> R y z -> R x z) -> Forall2 R a b -> Forall2 R b c -> Forall2 R a c.
Proof. intros HR Hab. revert c. induction Hab; intros ?; inversion 1; subst; constructor; eauto. Qed.

Lemma foldl_insert_other {K V} `{Countable K} (l : list (K * V)) (m : gmap K V) k :
  k ∉ map fst l -> foldl (fun m '(k, v) => <[k := v]> m) m l !! k = m !! k.
Proof.
  revert m. induction l as [|[k' v'] l IH]; intros m Hk; [done|]. cbn [map fst] in Hk.
  apply not_elem_of_cons in Hk as [Hne Hk]. cbn [foldl]. rewrite IH by done. by apply lookup_insert_ne.
Qed.

Lemma foldl_insert_lookup {K V} `{Countable K} (l : list (K * V)) (m : gmap K V) k v :
  NoDup (map fst l) -> (k, v) ∈ l -> foldl (fun m '(k, v) => <[k := v]> m) m l !! k = Some v.
Proof.
  revert m. induction l as [|[k' v'] l IH]; intros m Hd Hin; [by apply elem_of_nil in Hin|]. cbn [map fst] in Hd.
  apply NoDup_cons in Hd as [Hk Hd]. cbn [foldl]. apply elem_of_cons in Hin as [[= -> ->]|Hin]; [|by apply IH].
  rewrite foldl_insert_other by done. by rewrite lookup_insert_eq.
Qed.
