(* ===== verification/Qt.v ===== *)
(** * Qt and libstdc++ as the sources use them

    Qt is not part of the repository.  Value containers ([QList], [QHash],
    [QSet], [std::optional]) are the corresponding mathematical objects; what
    the sources take from Qt beyond that is a parameter, stated as a class of
    operations with the documented behaviour the theorems rely on as a second
    class.  Each class has an executable instance, used by the witnesses. *)

From S2P Require Import Prelude.
From stdpp Require Import countable.
From Stdlib Require Import DecimalN.

(* ------------------------------------------------------------------ *)
(** ** Unicode tables: [QChar::isSpace], [QString::toLower], case folding *)

Class QtUnicode := {
  isSpace : QChar -> bool;
  toLower : QString -> QString;
  (** simple case folding, the equivalence of [Qt::CaseInsensitive] *)
  foldCase : QString -> QString;
}.

Definition isAscii (c : QChar) : Prop := (0 <= c < 128)%Z.
Definition ascii_isSpace (c : QChar) : bool := ((9 <=? c)%Z && (c <=? 13)%Z) || (c =? 32)%Z.
Definition ascii_lower (c : QChar) : QChar := if (65 <=? c)%Z && (c <=? 90)%Z then (c + 32)%Z else c.

Class QtUnicodeLaws `{QtUnicode} : Prop := {
  isSpace_ascii : forall c, isAscii c -> isSpace c = ascii_isSpace c;
  toLower_ascii : forall s, Forall isAscii s -> toLower s = List.map ascii_lower s;
  foldCase_ascii : forall s, Forall isAscii s -> foldCase s = List.map ascii_lower s;
}.

(** The restriction of the tables to ASCII: other units are left alone. *)
#[global] Instance asciiUnicode : QtUnicode := {|
  isSpace := ascii_isSpace;
  toLower := List.map ascii_lower;
  foldCase := List.map ascii_lower;
|}.

#[global] Instance asciiUnicode_laws : @QtUnicodeLaws asciiUnicode.
Proof. by split. Qed.

Section Text.
Context `{QtUnicode}.

Fixpoint dropSpaces (s : QString) : QString :=
  match s with
  | c :: r => if isSpace c then dropSpaces r else s
  | [] => []
  end.

Definition trimmed (s : QString) : QString := reverse (dropSpaces (reverse (dropSpaces s))).

(** [a.compare(b, Qt::CaseInsensitive) == 0] *)
Definition equalsCI (a b : QString) : bool := qeqb (foldCase a) (foldCase b).
(** [h.contains(n, Qt::CaseInsensitive)] *)
Definition containsCI (h n : QString) : bool := infixb (foldCase n) (foldCase h).
(** [s.endsWith(suf, Qt::CaseInsensitive)] *)
Definition endsWithCI (s suf : QString) : bool :=
  prefixb (reverse (foldCase suf)) (reverse (foldCase s)).
End Text.

(** [s.chop(n)] *)
Definition chop (n : nat) (s : QString) : QString := take (length s - n) s.
(** [s.left(n)] *)
Definition qleft (n : nat) (s : QString) : QString := take n s.

(* ------------------------------------------------------------------ *)
(** ** Decimal input: the digits of [toInt] and friends *)

Fixpoint uint_of_digits (s : QString) : option Decimal.uint :=
  match s with
  | [] => Some Decimal.Nil
  | c :: r =>
      match uint_of_digits r with
      | None => None
      | Some d =>
          match (c - 48)%Z with
          | 0%Z => Some (Decimal.D0 d) | 1%Z => Some (Decimal.D1 d)
          | 2%Z => Some (Decimal.D2 d) | 3%Z => Some (Decimal.D3 d)
          | 4%Z => Some (Decimal.D4 d) | 5%Z => Some (Decimal.D5 d)
          | 6%Z => Some (Decimal.D6 d) | 7%Z => Some (Decimal.D7 d)
          | 8%Z => Some (Decimal.D8 d) | 9%Z => Some (Decimal.D9 d)
          | _ => None
          end
      end
  end.

Definition parseDec (s : QString) : option Z :=
  match s with
  | [] => None
  | _ => (fun d => Z.of_N (N.of_uint d)) <$> uint_of_digits s
  end.

Lemma uint_of_digits_uint d : uint_of_digits (uint_digits d) = Some d.
Proof. induction d; simpl; try rewrite IHd; done. Qed.

Lemma uint_digits_nonempty n : uint_digits (N.to_uint n) <> [].
Proof.
  destruct n as [|p]; [done|]. simpl. pose proof (DecimalPos.Unsigned.to_uint_nonnil p).
  by destruct (Pos.to_uint p).
Qed.

Lemma parseDec_number z : (0 <= z)%Z -> parseDec (number z) = Some z.
Proof.
  intros Hz. unfold number. split_ifs; blia. unfold parseDec.
  pose proof (uint_digits_nonempty (Z.to_N z)).
  destruct (uint_digits (N.to_uint (Z.to_N z))) eqn:Ed; [done|]. rewrite <- Ed.
  rewrite uint_of_digits_uint. simpl. rewrite DecimalN.Unsigned.of_to. f_equal. lia.
Qed.

(* ------------------------------------------------------------------ *)
(** ** [QHostAddress] *)

Inductive QHostAddress :=
| AddrNull
| AddrAny
| AddrV4 (a : Z)
| AddrV6 (a : Z) (scope : QString).

#[global] Instance QHostAddress_eq_dec : EqDecision QHostAddress.
Proof. solve_decision. Defined.

#[global] Instance QHostAddress_countable : Countable QHostAddress.
Proof.
  refine (inj_countable'
    (fun a => match a with
              | AddrNull => inl None
              | AddrAny => inl (Some (inl tt))
              | AddrV4 a => inl (Some (inr a))
              | AddrV6 a s => inr (a, s)
              end)
    (fun x => match x with
              | inl None => AddrNull
              | inl (Some (inl _)) => AddrAny
              | inl (Some (inr a)) => AddrV4 a
              | inr (a, s) => AddrV6 a s
              end) _).
  by intros [].
Defined.

Definition addrIsNull (a : QHostAddress) : bool := match a with AddrNull => true | _ => false end.
Definition addrIsIPv6 (a : QHostAddress) : bool := match a with AddrV6 _ _ => true | _ => false end.
Definition LocalHost : QHostAddress := AddrV4 2130706433.
Definition LocalHostIPv6 : QHostAddress := AddrV6 1 [].

(** An IPv4 address, or an IPv6 address without a scope id: what the kernel
    interfaces of the backends deliver. *)
Definition plainIP (a : QHostAddress) : bool :=
  match a with
  | AddrV4 a => (0 <=? a)%Z
  | AddrV6 a [] => (0 <=? a)%Z
  | _ => false
  end.

(** [QHostAddress::toString] and the constructor from text. *)
Class QtAddrText := {
  addrToString : QHostAddress -> QString;
  addrOfString : QString -> QHostAddress;
}.

Class QtAddrTextLaws `{QtAddrText} : Prop := {
  addr_roundtrip : forall a, plainIP a = true -> addrOfString (addrToString a) = a;
  addr_noPct : forall a, plainIP a = true -> noPct (addrToString a);
  addr_noPipe : forall a, plainIP a = true -> 124%Z ∉ addrToString a;
}.

Lemma addrToString_inj `{QtAddrTextLaws} a b :
  plainIP a = true -> plainIP b = true -> addrToString a = addrToString b -> a = b.
Proof. intros Ha Hb Hab. rewrite <- (addr_roundtrip a), <- (addr_roundtrip b); congruence. Qed.

(** A simple textual form with the documented properties: IPv4 in decimal,
    IPv6 in decimal after a colon, the scope id after a percent sign. *)
#[global] Instance decimalAddrText : QtAddrText := {|
  addrToString a :=
    match a with
    | AddrNull => []
    | AddrAny => number 0
    | AddrV4 a => number a
    | AddrV6 a [] => 58%Z :: number a
    | AddrV6 a s => (58%Z :: number a) ++ 37%Z :: s
    end;
  addrOfString s :=
    match s with
    | [] => AddrNull
    | c :: r =>
        if (c =? 58)%Z then
          match parseDec r with Some z => AddrV6 z [] | None => AddrNull end
        else match parseDec s with Some z => AddrV4 z | None => AddrNull end
    end;
|}.

#[global] Instance decimalAddrText_laws : @QtAddrTextLaws decimalAddrText.
Proof.
  split; intros [| |a|a [|x s]]; simpl; try done; intros Ha; blia.
  - pose proof (parseDec_number a Ha) as Hp.
    destruct (number a) as [|c r] eqn:E; [done|].
    destruct (Z.eqb_spec c 58) as [->|]; [|by rewrite Hp].
    exfalso. apply (number_no_char 58 a); [done|done|]. rewrite E. set_solver.
  - by rewrite parseDec_number.
  - by apply noPct_number.
  - intros [?|Hin]%elem_of_cons; [done|]. by eapply noPct_number.
  - by apply number_no_char.
  - intros [?|Hin]%elem_of_cons; [done|]. by apply (number_no_char 124 a).
Qed.

(* ------------------------------------------------------------------ *)
(** ** [QHash] iteration: some enumeration of the entries *)

Class QHashOrder :=
  hash_iter : forall {K V : Type} `{Countable K}, gmap K V -> list (K * V).

Class QHashOrderLaws `{QHashOrder} : Prop :=
  hash_iter_perm : forall {K V : Type} `{Countable K} (m : gmap K V),
    hash_iter m ≡ₚ map_to_list m.

#[global] Instance listHashOrder : QHashOrder := fun K V _ _ m => map_to_list m.
#[global] Instance listHashOrder_laws : @QHashOrderLaws listHashOrder.
Proof. by intros K V ?? m. Qed.

Section Hash.
Context `{QHashOrderLaws}.

Lemma elem_of_hash_iter {K V} `{Countable K} (m : gmap K V) k v :
  (k, v) ∈ hash_iter m <-> m !! k = Some v.
Proof. rewrite hash_iter_perm. apply elem_of_map_to_list. Qed.

Lemma hash_iter_NoDup {K V} `{Countable K} (m : gmap K V) :
  NoDup ((hash_iter m).*1).
Proof. rewrite hash_iter_perm. apply NoDup_fst_map_to_list. Qed.

Lemma length_hash_iter {K V} `{Countable K} (m : gmap K V) :
  length (hash_iter m) = size m.
Proof. rewrite hash_iter_perm. apply length_map_to_list. Qed.
End Hash.
