(* ===== verification/StdAlgo.v ===== *)
(** * The standard algorithms the sources call

    [std::partial_sort], [std::push_heap] and [std::pop_heap] leave the order
    of equivalent elements (and of the unsorted tail) unspecified.  They are
    parameters with the contract of the C++ standard; the instances at the
    end are insertion sorts. *)

From S2P Require Import Prelude.

(** A comparator of the sources: a strict weak order. *)
Record swo {A} (lt : A -> A -> bool) : Prop := {
  swo_irrefl : forall x, lt x x = false;
  swo_trans : forall x y z, lt x y = true -> lt y z = true -> lt x z = true;
  swo_cotrans : forall x y z, lt x y = true -> lt x z = true \/ lt z y = true;
}.

(** Comparing an integer measure, larger first. *)
Lemma swo_measure_gt {A} (f : A -> Z) : swo (fun a b => (f b <? f a)%Z).
Proof.
  split; intros *; rewrite ?Z.ltb_lt, ?Z.ltb_irrefl; try done; try lia.
Qed.

Lemma swo_ge_trans {A} (lt : A -> A -> bool) (Hlt : swo lt) x y z :
  lt y x = false -> lt z y = false -> lt z x = false.
Proof.
  intros Hyx Hzy. destruct (lt z x) eqn:E; [|done].
  destruct (swo_cotrans _ Hlt z x y E); congruence.
Qed.

#[export] Hint Resolve swo_measure_gt : qif.

(* ------------------------------------------------------------------ *)
(** ** [std::partial_sort(first, first + n, last, lt)] *)

Class StdSort :=
  partial_sort : forall {A : Type}, (A -> A -> bool) -> nat -> list A -> list A.

Class StdSortLaws `{StdSort} : Prop := {
  partial_sort_perm : forall {A} (lt : A -> A -> bool) n (l : list A),
    swo lt -> partial_sort lt n l ≡ₚ l;
  partial_sort_sorted : forall {A} (lt : A -> A -> bool) n (l : list A) i j x y,
    swo lt -> i < n -> i < j ->
    partial_sort lt n l !! i = Some x -> partial_sort lt n l !! j = Some y ->
    lt y x = false;
}.

Section PartialSort.
Context `{StdSortLaws}.

Lemma partial_sort_length {A} (lt : A -> A -> bool) n (l : list A) :
  swo lt -> length (partial_sort lt n l) = length l.
Proof. intros. by rewrite partial_sort_perm. Qed.

(** No element of the tail precedes an element of the sorted prefix. *)
Lemma partial_sort_top {A} (lt : A -> A -> bool) n (l : list A) x y :
  swo lt ->
  x ∈ take n (partial_sort lt n l) -> y ∈ drop n (partial_sort lt n l) ->
  lt y x = false.
Proof.
  intros Hlt Hx Hy.
  apply list_elem_of_lookup in Hx as [i Hi], Hy as [j Hj].
  apply lookup_take_Some in Hi as [Hi Hin]. rewrite lookup_drop in Hj.
  eapply (partial_sort_sorted lt n l i (n + j)); eauto; lia.
Qed.
End PartialSort.

(* ------------------------------------------------------------------ *)
(** ** [std::push_heap] and [std::pop_heap] *)

Definition is_heap {A} (cmp : A -> A -> bool) (l : list A) : Prop :=
  forall i x y, 0 < i -> l !! ((i - 1) / 2) = Some x -> l !! i = Some y -> cmp x y = false.

Class StdHeap := {
  push_heap : forall {A : Type}, (A -> A -> bool) -> list A -> list A;
  pop_heap : forall {A : Type}, (A -> A -> bool) -> list A -> list A;
}.

Class StdHeapLaws `{StdHeap} : Prop := {
  push_heap_perm : forall {A} (cmp : A -> A -> bool) l x,
    swo cmp -> is_heap cmp l -> push_heap cmp (l ++ [x]) ≡ₚ l ++ [x];
  push_heap_heap : forall {A} (cmp : A -> A -> bool) l x,
    swo cmp -> is_heap cmp l -> is_heap cmp (push_heap cmp (l ++ [x]));
  pop_heap_spec : forall {A} (cmp : A -> A -> bool) x r,
    swo cmp -> is_heap cmp (x :: r) ->
    exists h, pop_heap cmp (x :: r) = h ++ [x] /\ h ≡ₚ r /\ is_heap cmp h;
}.

(** The front of a heap is not below any element. *)
Lemma heap_front {A} (cmp : A -> A -> bool) x r :
  swo cmp -> is_heap cmp (x :: r) -> forall y, y ∈ x :: r -> cmp x y = false.
Proof.
  intros Hc Hh y [i Hi]%list_elem_of_lookup. revert y Hi.
  induction i as [i IH] using lt_wf_ind; intros y Hi.
  destruct (decide (i = 0)) as [->|Hne]; simpl in Hi.
  - simplify_eq. by apply swo_irrefl.
  - assert ((i - 1) / 2 < i) as Hlt by (apply Nat.Div0.div_lt_upper_bound; lia).
    assert (is_Some ((x :: r) !! ((i - 1) / 2))) as [z Hz].
    { apply lookup_lt_is_Some. apply lookup_lt_Some in Hi. lia. }
    pose proof (Hh i z y ltac:(lia) Hz Hi) as Hzy.
    pose proof (IH _ Hlt z Hz) as Hxz.
    destruct (cmp x y) eqn:E; [|done].
    destruct (swo_cotrans _ Hc x y z E); congruence.
Qed.

Lemma is_heap_nil {A} (cmp : A -> A -> bool) : is_heap cmp [].
Proof. intros i x y _ Hx. by rewrite lookup_nil in Hx. Qed.

(* ------------------------------------------------------------------ *)
(** ** Insertion sort, an instance of both contracts *)

Section InsertionSort.
Context {A : Type} (lt : A -> A -> bool).

Fixpoint ins (x : A) (l : list A) : list A :=
  match l with
  | [] => [x]
  | y :: r => if lt y x then y :: ins x r else x :: l
  end.

Definition isort (l : list A) : list A := foldr ins [] l.

Lemma ins_perm x l : ins x l ≡ₚ x :: l.
Proof.
  induction l as [|y r IH]; simpl; [done|]. destruct (lt y x); [|done].
  rewrite IH. apply Permutation_swap.
Qed.

Lemma isort_perm l : isort l ≡ₚ l.
Proof. induction l as [|x l IH]; simpl; [done|]. by rewrite ins_perm, IH. Qed.

Context (Hlt : swo lt).

Lemma ins_sorted x l :
  StronglySorted (fun a b => lt b a = false) l ->
  StronglySorted (fun a b => lt b a = false) (ins x l).
Proof.
  induction 1 as [|y r Hr IH Hy]; simpl; [by repeat constructor|].
  destruct (lt y x) eqn:E.
  - constructor; [done|]. rewrite ins_perm. constructor; [|done].
    destruct (lt x y) eqn:E'; [|done].
    pose proof (swo_trans _ Hlt _ _ _ E E'). by rewrite swo_irrefl in *.
  - constructor; [by constructor|]. constructor; [done|].
    eapply Forall_impl; [exact Hy|]. intros z Hz. simpl in Hz.
    destruct (lt z x) eqn:E'; [|done].
    destruct (swo_cotrans _ Hlt z x y E'); congruence.
Qed.

Lemma isort_sorted l : StronglySorted (fun a b => lt b a = false) (isort l).
Proof. induction l; simpl; [constructor|by apply ins_sorted]. Qed.

Lemma isort_lookup l i j x y :
  i < j -> isort l !! i = Some x -> isort l !! j = Some y -> lt y x = false.
Proof.
  intros Hij Hx Hy. pose proof (isort_sorted l) as Hs. revert i j Hij Hx Hy.
  induction Hs as [|z r Hs IH Hz]; intros i j Hij Hx Hy; [done|].
  destruct j as [|j]; [lia|]. simpl in Hy. destruct i as [|i]; simpl in Hx.
  - simplify_eq. rewrite Forall_forall in Hz. apply Hz.
    by eapply list_elem_of_lookup_2.
  - eapply (IH i j); eauto; lia.
Qed.
End InsertionSort.

#[global] Instance isortSort : StdSort := fun A lt _ l => isort lt l.
#[global] Instance isortSort_laws : @StdSortLaws isortSort.
Proof.
  split; intros; [apply isort_perm|]. by eapply isort_lookup.
Qed.

#[global] Instance isortHeap : StdHeap := {|
  push_heap A cmp l := isort (fun a b => cmp b a) l;
  pop_heap A cmp l :=
    match l with x :: r => isort (fun a b => cmp b a) r ++ [x] | [] => [] end;
|}.

Lemma swo_flip {A} (lt : A -> A -> bool) : swo lt -> swo (fun a b => lt b a).
Proof.
  intros [Hi Ht Hc]. split; eauto. intros x y z Hyx.
  destruct (Hc _ _ z Hyx); auto.
Qed.

Lemma isort_heap {A} (cmp : A -> A -> bool) l :
  swo cmp -> is_heap cmp (isort (fun a b => cmp b a) l).
Proof.
  intros Hc i x y Hi Hx Hy.
  eapply (isort_lookup _ (swo_flip _ Hc) l ((i - 1) / 2) i); eauto.
  apply Nat.Div0.div_lt_upper_bound; lia.
Qed.

#[global] Instance isortHeap_laws : @StdHeapLaws isortHeap.
Proof.
  split; simpl; intros.
  - apply isort_perm.
  - by apply isort_heap.
  - eexists. split; [done|]. split; [apply isort_perm|]. by apply isort_heap.
Qed.

(* ------------------------------------------------------------------ *)
(** ** [std::sort(first, last, lt)]

    The standard requires a strict weak order on the elements of the range
    only; without one the behaviour is undefined. *)

Record swo_on {A} (lt : A -> A -> bool) (P : A -> Prop) : Prop := {
  swo_on_irrefl : forall x, P x -> lt x x = false;
  swo_on_trans : forall x y z, P x -> P y -> P z -> lt x y = true -> lt y z = true -> lt x z = true;
  swo_on_cotrans : forall x y z, P x -> P y -> P z -> lt x y = true -> lt x z = true \/ lt z y = true;
}.

Lemma swo_swo_on {A} (lt : A -> A -> bool) P : swo lt -> swo_on lt P.
Proof. intros [Hi Ht Hc]. split; eauto. Qed.

Lemma swo_on_impl {A} (lt : A -> A -> bool) (P Q : A -> Prop) :
  (forall x, Q x -> P x) -> swo_on lt P -> swo_on lt Q.
Proof. intros HPQ [Hi Ht Hc]. split; eauto. Qed.

Class StdFullSort := std_sort : forall {A : Type}, (A -> A -> bool) -> list A -> list A.

Class StdFullSortLaws `{StdFullSort} : Prop := {
  std_sort_perm : forall {A} (lt : A -> A -> bool) (l : list A),
    swo_on lt (fun x => x ∈ l) -> std_sort lt l ≡ₚ l;
  std_sort_sorted : forall {A} (lt : A -> A -> bool) (l : list A) i j x y,
    swo_on lt (fun x => x ∈ l) -> i < j ->
    std_sort lt l !! i = Some x -> std_sort lt l !! j = Some y -> lt y x = false;
}.

(** Insertion sort meets the contract. *)
Lemma ins_sorted_on {A} (lt : A -> A -> bool) (P : A -> Prop) x l :
  swo_on lt P -> P x -> Forall P l ->
  StronglySorted (fun a b => lt b a = false) l -> StronglySorted (fun a b => lt b a = false) (ins lt x l).
Proof.
  intros Hlt Hx Hl Hs. induction Hs as [|y r Hr IH Hy]; simpl; [by repeat constructor|].
  apply Forall_cons in Hl as [Hpy Hpr]. destruct (lt y x) eqn:E.
  - constructor; [by apply IH|]. rewrite ins_perm. constructor; [|done].
    destruct (lt x y) eqn:E'; [|done].
    pose proof (swo_on_trans _ _ Hlt y x y Hpy Hx Hpy E E') as Hyy. by rewrite (swo_on_irrefl _ _ Hlt y Hpy) in Hyy.
  - constructor; [by constructor|]. constructor; [done|].
    rewrite Forall_forall in *. intros z Hz. specialize (Hy z Hz). cbn in Hy.
    destruct (lt z x) eqn:E'; [|done].
    destruct (swo_on_cotrans _ _ Hlt z x y (Hpr z Hz) Hx Hpy E'); congruence.
Qed.

Lemma isort_sorted_on {A} (lt : A -> A -> bool) (P : A -> Prop) l :
  swo_on lt P -> Forall P l -> StronglySorted (fun a b => lt b a = false) (isort lt l).
Proof.
  intros Hlt Hl. induction Hl as [|x l Hx Hl IH]; simpl; [constructor|].
  apply (ins_sorted_on lt P); [done..| |done]. by rewrite isort_perm.
Qed.

Lemma StronglySorted_lookup_lt {A} (R : A -> A -> Prop) l i j x y :
  StronglySorted R l -> i < j -> l !! i = Some x -> l !! j = Some y -> R x y.
Proof.
  intros Hs. revert i j. induction Hs as [|z r Hs IH Hz]; intros i j Hij Hx Hy; [done|].
  destruct j as [|j]; [lia|]. simpl in Hy. destruct i as [|i]; simpl in Hx.
  - simplify_eq. rewrite Forall_forall in Hz. apply Hz. by eapply list_elem_of_lookup_2.
  - eapply (IH i j); eauto; lia.
Qed.

#[global] Instance isortFull : StdFullSort := fun A lt l => isort lt l.
#[global] Instance isortFull_laws : @StdFullSortLaws isortFull.
Proof.
  split; intros; [apply isort_perm|].
  eapply (StronglySorted_lookup_lt (fun a b => lt b a = false)); [|done..].
  apply (isort_sorted_on lt (fun x => x ∈ l)); [done|]. by apply Forall_forall.
Qed.

(* ------------------------------------------------------------------ *)
(** ** [std::stable_sort]

    Under a strict weak order on the range the result is unique: the sorted
    sequence in which equivalent elements keep their order, which is what
    insertion from the right computes. *)

Class StdStableSort := stable_sort : forall {A : Type}, (A -> A -> bool) -> list A -> list A.

Class StdStableSortLaws `{StdStableSort} : Prop :=
  stable_sort_isort : forall {A} (lt : A -> A -> bool) (l : list A),
    swo_on lt (fun x => x ∈ l) -> stable_sort lt l = isort lt l.

#[global] Instance isortStable : StdStableSort := fun A lt l => isort lt l.
#[global] Instance isortStable_laws : @StdStableSortLaws isortStable.
Proof. done. Qed.

(** Insertion keeps the relative order of elements a class of which is
    equivalent: the equivalent elements appear as they did. *)
Lemma ins_filter {A} (lt : A -> A -> bool) (P : A -> Prop) `{forall x, Decision (P x)} x l :
  (P x -> forall y, y ∈ l -> P y -> lt y x = false) -> filter P (ins lt x l) = filter P (x :: l).
Proof.
  intros Hx. induction l as [|y l IH]; [done|]. cbn [ins].
  destruct (lt y x) eqn:E; [|done]. destruct (decide (P x)) as [Hp|Hp].
  - rewrite (filter_cons_False P y) by (intros Hy; pose proof (Hx Hp y (list_elem_of_here y l) Hy); congruence).
    rewrite IH by (intros _ z Hz; apply Hx; [done|by constructor]).
    rewrite !(filter_cons_True P x) by done.
    by rewrite (filter_cons_False P y) by (intros Hy; pose proof (Hx Hp y (list_elem_of_here y l) Hy); congruence).
  - rewrite (filter_cons_False P x) by done. rewrite filter_cons_False in IH by done.
    rewrite !filter_cons, IH; [done|]. intros Hp'; done.
Qed.

Lemma isort_stable {A} (lt : A -> A -> bool) (P : A -> Prop) `{forall x, Decision (P x)} l :
  (forall x y, x ∈ l -> y ∈ l -> P x -> P y -> lt x y = false) -> filter P (isort lt l) = filter P l.
Proof.
  induction l as [|x l IH]; intros Hp; [done|]. cbn [isort foldr]. fold (isort lt l).
  rewrite ins_filter by (intros Hx y Hy; rewrite isort_perm in Hy; intros Hpy; apply Hp; [by constructor|by constructor|done..]).
  rewrite !filter_cons. rewrite IH by (intros a b Ha Hb; apply Hp; by constructor). done.
Qed.

(* ------------------------------------------------------------------ *)
(** ** Comparing doubles that are not NaN

    Sign, exponent and mantissa in lexicographic order. *)

Definition drank (d : double) : Z * Z * Z :=
  match d with
  | S754_zero _ | S754_nan => (0, 0, 0)
  | S754_infinity s => (if s then -2 else 2, 0, 0)
  | S754_finite s m e => if s then (-1, - e, - Zpos m) else (1, e, Zpos m)
  end%Z.

Definition lex3 (a b : Z * Z * Z) : bool :=
  let '(a1, a2, a3) := a in
  let '(b1, b2, b3) := b in
  (a1 <? b1)%Z || ((a1 =? b1)%Z && ((a2 <? b2)%Z || ((a2 =? b2)%Z && (a3 <? b3)%Z))).

Lemma swo_lex3 : swo lex3.
Proof.
  split; [intros [[? ?] ?]|intros [[? ?] ?] [[? ?] ?] [[? ?] ?]|intros [[? ?] ?] [[? ?] ?] [[? ?] ?]]; unfold lex3;
    rewrite ?orb_true_iff, ?andb_true_iff, ?orb_true_iff, ?andb_true_iff, ?Z.ltb_lt, ?Z.eqb_eq; try lia.
Qed.

Lemma dlt_rank a b : disnan a = false -> disnan b = false -> dlt a b = lex3 (drank a) (drank b).
Proof.
  unfold disnan, dlt, deq, SFltb, SFeqb. rewrite !negb_false_iff.
  destruct a as [sa|sa| |sa ma ea], b as [sb|sb| |sb mb eb]; cbn; try done;
    try (by destruct sa); try (by destruct sb); try (by destruct sa, sb).
  intros _ _. change (Pos.compare_cont Eq ma mb) with (Pos.compare ma mb).
  destruct sa, sb; cbn; try done.
  - destruct (Z.compare_spec ea eb); cbn.
    + subst. rewrite Z.ltb_irrefl, Z.eqb_refl. cbn. destruct (Pos.compare_spec ma mb); cbn; blia.
    + blia.
    + blia.
  - destruct (Z.compare_spec ea eb); cbn.
    + subst. rewrite Z.ltb_irrefl, Z.eqb_refl. cbn. destruct (Pos.compare_spec ma mb); cbn; blia.
    + blia.
    + blia.
Qed.

Lemma swo_on_dlt {A} (f : A -> double) (P : A -> Prop) :
  (forall x, P x -> disnan (f x) = false) -> swo_on (fun a b => dlt (f a) (f b)) P.
Proof.
  intros Hn. destruct swo_lex3 as [Hi Ht Hc]. split.
  - intros x Hx. rewrite dlt_rank by auto. apply Hi.
  - intros x y z Hx Hy Hz. rewrite !dlt_rank by auto. apply Ht.
  - intros x y z Hx Hy Hz. rewrite !dlt_rank by auto. apply Hc.
Qed.

Lemma disnan_spec d : disnan d = false <-> d <> S754_nan.
Proof.
  unfold disnan, deq, SFeqb. rewrite negb_false_iff.
  destruct d as [s|s| |s m e]; cbn; try (by split); [destruct s; by split|].
  destruct s; rewrite Z.compare_refl, Pos.compare_cont_refl; by split.
Qed.

(** Rounding a non-negative mantissa gives a number, so an integer converted
    to a double is one. *)
Lemma shr_nonneg mrs e n : (0 <= shr_m mrs)%Z -> (0 <= shr_m (fst (shr mrs e n)))%Z.
Proof.
  assert (H1 : forall r, (0 <= shr_m r)%Z -> (0 <= shr_m (shr_1 r))%Z)
    by (intros [m r s]; cbn; destruct m as [|[]|]; cbn; lia).
  intros H0. destruct n as [|p|]; cbn; [done| |done].
  revert mrs H0. induction p as [p IH|p IH|]; intros mrs H0; cbn; eauto.
Qed.

Lemma shr_fexp_nonneg m e l : (0 <= m)%Z -> (0 <= shr_m (fst (shr_fexp dprec demax m e l)))%Z.
Proof. intros Hm. unfold shr_fexp. apply shr_nonneg. destruct l as [|[]]; cbn; done. Qed.

Lemma round_aux_number sx m e l : (0 <= m)%Z -> disnan (binary_round_aux dprec demax sx m e l) = false.
Proof.
  intros Hm. apply disnan_spec. unfold binary_round_aux.
  pose proof (shr_fexp_nonneg m e l Hm) as H1. destruct (shr_fexp _ _ m e l) as [r1 e1]. cbn [fst] in H1.
  assert (H2 : (0 <= round_nearest_even (shr_m r1) (loc_of_shr_record r1))%Z)
    by (unfold round_nearest_even; repeat case_match; lia).
  pose proof (shr_fexp_nonneg _ e1 loc_Exact H2) as H3. destruct (shr_fexp _ _ _ e1 _) as [r2 e2]. cbn [fst] in H3.
  destruct (shr_m r2); [done|by case_match|lia].
Qed.

Lemma dofZ_number z : disnan (dofZ z) = false.
Proof.
  unfold dofZ, binary_normalize, binary_round.
  destruct z; [done|destruct (shl_align _ _ _); by apply round_aux_number..].
Qed.
#[export] Hint Resolve dofZ_number : qif.
