(* ===== verification/Conn.v ===== *)
(** * The flow record: [src/backend/Connection.h], [src/backend/ProcessResolver.h]

    The enumerations, [ProcessInfo], [ContainerInfo], [Endpoint], [Connection]
    and the canonical flow key [Connection::key()]. *)

From S2P Require Import Prelude Qt.
From stdpp Require Import countable.

(* ------------------------------------------------------------------ *)
(** ** Enumerations *)

Inductive L4Proto := ProtoUnknown | Tcp | Udp | Icmp | IcmpV6.
Inductive Direction := DirUnknown | Outbound | Inbound.
Inductive TcpState :=
| TcpNone | SynSent | SynRecv | Established | FinWait | CloseWait
| LastAck | TimeWait | TcpClose | SynSent2.
Inductive AttributionReason := Resolved | NoLocalSocket | Orphaned | Forwarded.

#[global] Instance L4Proto_eq_dec : EqDecision L4Proto. Proof. solve_decision. Defined.
#[global] Instance Direction_eq_dec : EqDecision Direction. Proof. solve_decision. Defined.
#[global] Instance TcpState_eq_dec : EqDecision TcpState. Proof. solve_decision. Defined.
#[global] Instance AttributionReason_eq_dec : EqDecision AttributionReason.
Proof. solve_decision. Defined.

(** The underlying [quint8] of each enumerator. *)
Definition protoInt (p : L4Proto) : Z :=
  match p with ProtoUnknown => 0 | Tcp => 1 | Udp => 2 | Icmp => 3 | IcmpV6 => 4 end.
Definition directionInt (d : Direction) : Z :=
  match d with DirUnknown => 0 | Outbound => 1 | Inbound => 2 end.
Definition tcpStateInt (s : TcpState) : Z :=
  match s with
  | TcpNone => 0 | SynSent => 1 | SynRecv => 2 | Established => 3 | FinWait => 4
  | CloseWait => 5 | LastAck => 6 | TimeWait => 7 | TcpClose => 8 | SynSent2 => 9
  end.
Definition reasonInt (r : AttributionReason) : Z :=
  match r with Resolved => 0 | NoLocalSocket => 1 | Orphaned => 2 | Forwarded => 3 end.

(** [static_cast] back from an in-range value. *)
Definition protoOfInt (z : Z) : L4Proto :=
  match z with 1%Z => Tcp | 2%Z => Udp | 3%Z => Icmp | 4%Z => IcmpV6 | _ => ProtoUnknown end.
Definition directionOfInt (z : Z) : Direction :=
  match z with 1%Z => Outbound | 2%Z => Inbound | _ => DirUnknown end.
Definition tcpStateOfInt (z : Z) : TcpState :=
  match z with
  | 1%Z => SynSent | 2%Z => SynRecv | 3%Z => Established | 4%Z => FinWait | 5%Z => CloseWait
  | 6%Z => LastAck | 7%Z => TimeWait | 8%Z => TcpClose | 9%Z => SynSent2 | _ => TcpNone
  end.
Definition reasonOfInt (z : Z) : AttributionReason :=
  match z with 1%Z => NoLocalSocket | 2%Z => Orphaned | 3%Z => Forwarded | _ => Resolved end.

Lemma protoOfInt_Int p : protoOfInt (protoInt p) = p. Proof. by destruct p. Qed.
Lemma directionOfInt_Int d : directionOfInt (directionInt d) = d. Proof. by destruct d. Qed.
Lemma tcpStateOfInt_Int s : tcpStateOfInt (tcpStateInt s) = s. Proof. by destruct s. Qed.
Lemma reasonOfInt_Int r : reasonOfInt (reasonInt r) = r. Proof. by destruct r. Qed.

#[global] Instance L4Proto_countable : Countable L4Proto :=
  inj_countable' protoInt protoOfInt protoOfInt_Int.
#[global] Instance Direction_countable : Countable Direction :=
  inj_countable' directionInt directionOfInt directionOfInt_Int.

Definition kIcmp : Z := 1.
Definition kTcp : Z := 6.
Definition kUdp : Z := 17.
Definition kIcmpV6 : Z := 58.

Definition toIanaProto (p : L4Proto) : Z :=
  match p with
  | Tcp => kTcp | Udp => kUdp | Icmp => kIcmp | IcmpV6 => kIcmpV6 | ProtoUnknown => 0
  end.

Definition fromIanaProto (n : Z) : L4Proto :=
  if (n =? kTcp)%Z then Tcp
  else if (n =? kUdp)%Z then Udp
  else if (n =? kIcmp)%Z then Icmp
  else if (n =? kIcmpV6)%Z then IcmpV6
  else ProtoUnknown.

Lemma fromIana_toIana p : fromIanaProto (toIanaProto p) = p.
Proof. by destruct p. Qed.

Definition tcpStateToString (s : TcpState) : QString :=
  match s with
  | TcpNone => qs "" | SynSent => qs "SYN_SENT" | SynRecv => qs "SYN_RECV"
  | Established => qs "ESTABLISHED" | FinWait => qs "FIN_WAIT"
  | CloseWait => qs "CLOSE_WAIT" | LastAck => qs "LAST_ACK"
  | TimeWait => qs "TIME_WAIT" | TcpClose => qs "CLOSE" | SynSent2 => qs "SYN_SENT2"
  end.

Definition attributionReasonToString (r : AttributionReason) : QString :=
  match r with
  | Resolved => qs "resolved" | NoLocalSocket => qs "nosocket"
  | Orphaned => qs "orphaned" | Forwarded => qs "forwarded"
  end.

Definition l4ProtoToString (p : L4Proto) : QString :=
  match p with
  | Tcp => qs "TCP" | Udp => qs "UDP" | Icmp => qs "ICMP" | IcmpV6 => qs "ICMPv6"
  | ProtoUnknown => qs "?"
  end.

(* ------------------------------------------------------------------ *)
(** ** Attribution records *)

Record ProcessInfo := mkProcessInfo {
  pi_pid : Z;
  pi_comm : QString;
  pi_cmdline : QString;
  pi_exe : QString;
  pi_uid : Z;
}.

Definition noProcess : ProcessInfo := mkProcessInfo 0 [] [] [] 0.
Definition processValid (p : ProcessInfo) : bool := (0 <? pi_pid p)%Z.

Record ContainerInfo := mkContainerInfo {
  ci_runtime : QString;
  ci_id : QString;
  ci_name : QString;
}.

Definition noContainer : ContainerInfo := mkContainerInfo [] [] [].
Definition containerValid (c : ContainerInfo) : bool :=
  negb (isEmpty (ci_runtime c)) && negb (isEmpty (ci_id c)).

#[global] Instance ProcessInfo_eq_dec : EqDecision ProcessInfo. Proof. solve_decision. Defined.
#[global] Instance ContainerInfo_eq_dec : EqDecision ContainerInfo. Proof. solve_decision. Defined.

Record Endpoint := mkEndpoint {
  ep_address : QHostAddress;
  ep_port : Z;
}.

#[global] Instance Endpoint_eq_dec : EqDecision Endpoint. Proof. solve_decision. Defined.

Definition isIPv6 (e : Endpoint) : bool := addrIsIPv6 (ep_address e).

(* ------------------------------------------------------------------ *)
(** ** The flow descriptor *)

Record Connection := mkConnection {
  c_local : Endpoint;
  c_remote : Endpoint;
  c_proto : L4Proto;
  c_rxBytes : Z;
  c_txBytes : Z;
  c_rxPackets : Z;
  c_txPackets : Z;
  c_iface : QString;
  c_ifIndex : Z;
  c_direction : Direction;
  c_tcpState : TcpState;
  c_reason : AttributionReason;
  c_process : ProcessInfo;
  c_container : ContainerInfo;
  c_containerChain : list ContainerInfo;
}.

#[global] Instance Connection_eq_dec : EqDecision Connection. Proof. solve_decision. Defined.

(** [Connection c;] with its member initialisers. *)
Definition emptyConnection : Connection :=
  mkConnection (mkEndpoint AddrNull 0) (mkEndpoint AddrNull 0) ProtoUnknown
    0 0 0 0 [] 0 DirUnknown TcpNone Resolved noProcess noContainer [].

(** Field assignments [c.f = v] of the sources. *)
Definition set_endpoints (l r : Endpoint) (c : Connection) : Connection :=
  mkConnection l r (c_proto c) (c_rxBytes c) (c_txBytes c) (c_rxPackets c) (c_txPackets c)
    (c_iface c) (c_ifIndex c) (c_direction c) (c_tcpState c) (c_reason c)
    (c_process c) (c_container c) (c_containerChain c).
Definition set_counters (rx tx rxp txp : Z) (c : Connection) : Connection :=
  mkConnection (c_local c) (c_remote c) (c_proto c) rx tx rxp txp
    (c_iface c) (c_ifIndex c) (c_direction c) (c_tcpState c) (c_reason c)
    (c_process c) (c_container c) (c_containerChain c).
Definition set_proto (p : L4Proto) (c : Connection) : Connection :=
  mkConnection (c_local c) (c_remote c) p (c_rxBytes c) (c_txBytes c)
    (c_rxPackets c) (c_txPackets c)
    (c_iface c) (c_ifIndex c) (c_direction c) (c_tcpState c) (c_reason c)
    (c_process c) (c_container c) (c_containerChain c).
Definition set_direction (d : Direction) (c : Connection) : Connection :=
  mkConnection (c_local c) (c_remote c) (c_proto c) (c_rxBytes c) (c_txBytes c)
    (c_rxPackets c) (c_txPackets c) (c_iface c) (c_ifIndex c) d (c_tcpState c) (c_reason c)
    (c_process c) (c_container c) (c_containerChain c).
Definition set_reason (r : AttributionReason) (c : Connection) : Connection :=
  mkConnection (c_local c) (c_remote c) (c_proto c) (c_rxBytes c) (c_txBytes c)
    (c_rxPackets c) (c_txPackets c) (c_iface c) (c_ifIndex c) (c_direction c) (c_tcpState c) r
    (c_process c) (c_container c) (c_containerChain c).
Definition set_process (p : ProcessInfo) (c : Connection) : Connection :=
  mkConnection (c_local c) (c_remote c) (c_proto c) (c_rxBytes c) (c_txBytes c)
    (c_rxPackets c) (c_txPackets c) (c_iface c) (c_ifIndex c) (c_direction c) (c_tcpState c)
    (c_reason c) p (c_container c) (c_containerChain c).
Definition set_container (ci : ContainerInfo) (c : Connection) : Connection :=
  mkConnection (c_local c) (c_remote c) (c_proto c) (c_rxBytes c) (c_txBytes c)
    (c_rxPackets c) (c_txPackets c) (c_iface c) (c_ifIndex c) (c_direction c) (c_tcpState c)
    (c_reason c) (c_process c) ci (c_containerChain c).
Definition set_chain (ch : list ContainerInfo) (c : Connection) : Connection :=
  mkConnection (c_local c) (c_remote c) (c_proto c) (c_rxBytes c) (c_txBytes c)
    (c_rxPackets c) (c_txPackets c) (c_iface c) (c_ifIndex c) (c_direction c) (c_tcpState c)
    (c_reason c) (c_process c) (c_container c) ch.

(** Field widths: what every producer of a [Connection] guarantees. *)
Record conn_wf (c : Connection) : Prop := {
  wf_lport : in_u16 (ep_port (c_local c));
  wf_rport : in_u16 (ep_port (c_remote c));
  wf_rx : in_u64 (c_rxBytes c);
  wf_tx : in_u64 (c_txBytes c);
  wf_rxp : in_u64 (c_rxPackets c);
  wf_txp : in_u64 (c_txPackets c);
}.

(* ------------------------------------------------------------------ *)
(** ** [Connection::key()] *)

Section Key.
Context `{QtAddrText}.

Definition key (c : Connection) : QString :=
  qarg (qarg (qarg (qarg (qarg (qarg (qs "%1|%2|%3.%4|%5.%6")
    (number (protoInt (c_proto c))))
    (number (directionInt (c_direction c))))
    (addrToString (ep_address (c_local c)))) (number (ep_port (c_local c))))
    (addrToString (ep_address (c_remote c)))) (number (ep_port (c_remote c))).

(** What the key identifies: protocol, direction and both endpoints. *)
Definition key_fields (c : Connection) : L4Proto * Direction * Endpoint * Endpoint :=
  (c_proto c, c_direction c, c_local c, c_remote c).

Definition key_ok (c : Connection) : Prop :=
  plainIP (ep_address (c_local c)) = true /\ plainIP (ep_address (c_remote c)) = true /\
  (0 <= ep_port (c_local c))%Z /\ (0 <= ep_port (c_remote c))%Z.

Context `{!QtAddrTextLaws}.

Lemma protoInt_nonneg p : (0 <= protoInt p)%Z. Proof. by destruct p. Qed.
Lemma directionInt_nonneg d : (0 <= directionInt d)%Z. Proof. by destruct d. Qed.

(** The substitution chain of [key] is plain concatenation as long as no
    address text contains a percent sign. *)
Lemma key_text c :
  key_ok c ->
  key c = qjoin [124%Z]
    [number (protoInt (c_proto c)); number (directionInt (c_direction c));
     addrToString (ep_address (c_local c)) ++ 46%Z :: number (ep_port (c_local c));
     addrToString (ep_address (c_remote c)) ++ 46%Z :: number (ep_port (c_remote c))].
Proof.
  intros (Hl & Hr & Hlp & Hrp). unfold key.
  pose proof (protoInt_nonneg (c_proto c)) as Hp.
  pose proof (directionInt_nonneg (c_direction c)) as Hd.
  set (p := number (protoInt (c_proto c))). set (d := number (directionInt (c_direction c))).
  set (l := addrToString (ep_address (c_local c))). set (lp := number (ep_port (c_local c))).
  set (r := addrToString (ep_address (c_remote c))). set (rp := number (ep_port (c_remote c))).
  assert (noPct p) by (by apply noPct_number). assert (noPct d) by (by apply noPct_number).
  assert (noPct l) by (by apply addr_noPct). assert (noPct lp) by (by apply noPct_number).
  assert (noPct r) by (by apply addr_noPct).
  change (qarg (qs "%1|%2|%3.%4|%5.%6") p) with (p ++ qs "|%2|%3.%4|%5.%6").
  rewrite !(qarg_prefix p) by done.
  change (qarg (qs "|%2|%3.%4|%5.%6") d) with (124%Z :: d ++ qs "|%3.%4|%5.%6").
  rewrite !(qarg_cons 124), !(qarg_prefix d) by done.
  change (qarg (qs "|%3.%4|%5.%6") l) with (124%Z :: l ++ qs ".%4|%5.%6").
  rewrite !(qarg_cons 124), !(qarg_prefix l) by done.
  change (qarg (qs ".%4|%5.%6") lp) with (46%Z :: lp ++ qs "|%5.%6").
  rewrite !(qarg_cons 46), !(qarg_prefix lp) by done.
  change (qarg (qs "|%5.%6") r) with (124%Z :: r ++ qs ".%6").
  rewrite !(qarg_cons 124), !(qarg_prefix r) by done.
  change (qarg (qs ".%6") rp) with (46%Z :: rp ++ []).
  unfold qjoin. rewrite app_nil_r. simpl. rewrite <- !app_assoc. simpl. by repeat rewrite <- app_assoc.
Qed.

Lemma dotted_inj a b m n :
  (0 <= m)%Z -> (0 <= n)%Z -> a ++ 46%Z :: number m = b ++ 46%Z :: number n -> a = b /\ m = n.
Proof.
  intros Hm Hn Heq. apply (f_equal reverse) in Heq.
  rewrite !reverse_app, !reverse_cons, <- !app_assoc in Heq. simpl in Heq.
  apply (f_equal (qsplit 46)) in Heq.
  assert (forall z, (0 <= z)%Z -> 46%Z ∉ reverse (number z)) as Hnd.
  { intros z Hz. rewrite elem_of_reverse. by apply number_no_char. }
  rewrite !qsplit_app in Heq by auto. injection Heq as Hmn Hab. split; [|apply number_inj; [done|done|by apply (inj reverse)]].
  apply (inj reverse). apply (f_equal (qjoin [46%Z])) in Hab. revert Hab.
  generalize (reverse a) (reverse b). clear.
  intros s t. by rewrite !qjoin_split.
Qed.

Lemma dot_no_pipe a z : plainIP a = true -> (0 <= z)%Z -> 124%Z ∉ addrToString a ++ 46%Z :: number z.
Proof.
  intros Ha Hz [Hin|[Hin|Hin]%elem_of_cons]%elem_of_app; [|done|].
  - by eapply addr_noPipe.
  - by apply (number_no_char 124 z).
Qed.

Lemma key_split c :
  key_ok c ->
  qsplit 124 (key c) =
    [number (protoInt (c_proto c)); number (directionInt (c_direction c));
     addrToString (ep_address (c_local c)) ++ 46%Z :: number (ep_port (c_local c));
     addrToString (ep_address (c_remote c)) ++ 46%Z :: number (ep_port (c_remote c))].
Proof.
  intros Hok. rewrite key_text by done. destruct Hok as (Hl & Hr & Hlp & Hrp).
  apply qsplit_join; [done|].
  repeat constructor; auto using dot_no_pipe, number_no_char, protoInt_nonneg, directionInt_nonneg.
Qed.

(** C17. [Connection::key()] identifies a flow: two flows whose addresses are
    plain IP addresses have the same key exactly when protocol, direction
    and both endpoints (address and port) agree, so rows for different
    flows never collide in the models keyed by it. *)
Theorem key_injective c1 c2 :
  key_ok c1 -> key_ok c2 -> key c1 = key c2 <-> key_fields c1 = key_fields c2.
Proof.
  intros H1 H2. split; intros Heq.
  - apply (f_equal (qsplit 124)) in Heq. rewrite !key_split in Heq by done.
    destruct H1 as (Hl1 & Hr1 & Hlp1 & Hrp1), H2 as (Hl2 & Hr2 & Hlp2 & Hrp2).
    injection Heq as Hp Hd HL HR. unfold key_fields.
    apply number_inj in Hp; [|apply protoInt_nonneg..].
    apply number_inj in Hd; [|apply directionInt_nonneg..].
    apply (f_equal protoOfInt) in Hp. apply (f_equal directionOfInt) in Hd.
    rewrite !protoOfInt_Int in Hp. rewrite !directionOfInt_Int in Hd.
    apply dotted_inj in HL as [?%addrToString_inj ?]; [|done..].
    apply dotted_inj in HR as [?%addrToString_inj ?]; [|done..].
    destruct c1 as [[] []], c2 as [[] []]; simpl in *; congruence.
  - unfold key_fields in Heq. unfold key. injection Heq as -> -> -> ->. done.
Qed.
End Key.

(** A TCP flow [10.0.0.2:45000 -> 1.1.1.1:443], used by the witnesses. *)
Definition sampleTcp : Connection :=
  mkConnection (mkEndpoint (AddrV4 167772162) 45000) (mkEndpoint (AddrV4 16843009) 443) Tcp
    1000 500 10 5 (qs "eth0") 2 Outbound Established NoLocalSocket noProcess noContainer [].

Lemma sampleTcp_key_ok : key_ok sampleTcp.
Proof. by repeat split. Qed.

(** Witness of [key_injective]: the same addresses, another direction. *)
Lemma key_injective_witness :
  key_ok sampleTcp /\ key_ok (set_direction Inbound sampleTcp) /\
  ~ (key sampleTcp = key (set_direction Inbound sampleTcp)).
Proof.
  split; [exact sampleTcp_key_ok|]. split; [exact sampleTcp_key_ok|]. intros H.
  apply (key_injective sampleTcp (set_direction Inbound sampleTcp)
           sampleTcp_key_ok sampleTcp_key_ok) in H. discriminate H.
Defined.
