(* ===== verification/Heuristics.v ===== *)
(** * Flow heuristics: [src/util/ConnectionHeuristics.h],
      [src/backend/linux/ConntrackOrient.h]

    Orientation of a conntrack tuple, direction inference, the attribution
    reason, and the smoothing arithmetic shared by the aggregators. *)

From S2P Require Import Prelude Qt Conn.

Section Heuristics.
Context (localAddrs loopbackAddrs : gset QHostAddress).

Definition isOurs (a : QHostAddress) : bool :=
  bool_decide (a ∈ loopbackAddrs) || bool_decide (a ∈ localAddrs).

Definition isForwardedFlow (c : Connection) : bool :=
  negb (isOurs (ep_address (c_local c))) && negb (isOurs (ep_address (c_remote c))).

(** The TCP states in which the owning socket is gone. *)
Definition isTeardown (s : TcpState) : bool :=
  match s with
  | FinWait | CloseWait | LastAck | TimeWait | TcpClose => true
  | _ => false
  end.

Definition attributionReason (c : Connection) : AttributionReason :=
  if (0 <? pi_pid (c_process c))%Z then Resolved
  else if isForwardedFlow c then Forwarded
  else match c_proto c with
       | Tcp => if isTeardown (c_tcpState c) then Orphaned else NoLocalSocket
       | _ => NoLocalSocket
       end.

Definition inferDirection (c : Connection) (ephemeralLow ephemeralHigh : Z) : Direction :=
  match c_proto c with
  | Tcp | Udp =>
      let lEph := (ephemeralLow <=? ep_port (c_local c))%Z
                  && (ep_port (c_local c) <=? ephemeralHigh)%Z in
      let rEph := (ephemeralLow <=? ep_port (c_remote c))%Z
                  && (ep_port (c_remote c) <=? ephemeralHigh)%Z in
      if lEph && negb rEph then Outbound
      else if rEph && negb lEph then Inbound
      else
        let lLocal := bool_decide (ep_address (c_local c) ∈ localAddrs)
                      || bool_decide (ep_address (c_local c) ∈ loopbackAddrs) in
        let rLocal := bool_decide (ep_address (c_remote c) ∈ localAddrs)
                      || bool_decide (ep_address (c_remote c) ∈ loopbackAddrs) in
        if lLocal && negb rLocal then Outbound
        else if rLocal && negb lLocal then Inbound
        else DirUnknown
  | _ => DirUnknown
  end.

(** The same flow described from the other end. *)
Definition swapEnds (c : Connection) : Connection :=
  set_counters (c_txBytes c) (c_rxBytes c) (c_txPackets c) (c_rxPackets c)
    (set_endpoints (c_remote c) (c_local c) c).

Definition flipDirection (d : Direction) : Direction :=
  match d with Outbound => Inbound | Inbound => Outbound | DirUnknown => DirUnknown end.

(** Direction inference is symmetric in the endpoints: describing the
    flow from its other end flips Outbound and Inbound and keeps Unknown,
    whatever the address sets and the ephemeral range. *)
Theorem inferDirection_swap c lo hi :
  inferDirection (swapEnds c) lo hi = flipDirection (inferDirection c lo hi).
Proof.
  unfold inferDirection. simpl. destruct (c_proto c); try done;
  repeat match goal with
         | |- context [(?a <=? ?b)%Z] => destruct (a <=? b)%Z
         | |- context [bool_decide ?P] => destruct (bool_decide P)
         end; done.
Qed.

(** [attributionReason] decides the four reasons by priority: a flow
    with a positive pid is Resolved; otherwise a flow neither of whose ends
    is ours is Forwarded; otherwise a TCP flow in a teardown state is
    Orphaned; everything else is NoLocalSocket. *)
Theorem attributionReason_spec c :
  (attributionReason c = Resolved <-> (0 < pi_pid (c_process c))%Z) /\
  (attributionReason c = Forwarded <->
     (pi_pid (c_process c) <= 0)%Z /\
     ep_address (c_local c) ∉ (localAddrs ∪ loopbackAddrs) /\
     ep_address (c_remote c) ∉ (localAddrs ∪ loopbackAddrs)) /\
  (attributionReason c = Orphaned <->
     (pi_pid (c_process c) <= 0)%Z /\
     (ep_address (c_local c) ∈ (localAddrs ∪ loopbackAddrs) \/
      ep_address (c_remote c) ∈ (localAddrs ∪ loopbackAddrs)) /\
     c_proto c = Tcp /\
     c_tcpState c ∈ [FinWait; CloseWait; LastAck; TimeWait; TcpClose]) /\
  (attributionReason c = NoLocalSocket <->
     attributionReason c <> Resolved /\ attributionReason c <> Forwarded /\
     attributionReason c <> Orphaned).
Proof.
  assert (Hours : forall a, isOurs a = true <-> a ∈ (localAddrs ∪ loopbackAddrs)).
  { intros a. unfold isOurs. rewrite orb_true_iff, !bool_decide_eq_true. set_solver. }
  assert (Htear : isTeardown (c_tcpState c) = true <->
    c_tcpState c ∈ [FinWait; CloseWait; LastAck; TimeWait; TcpClose]).
  { destruct (c_tcpState c); simpl; split; intros; try done; set_solver. }
  rewrite <- Htear. rewrite <- !Hours, !not_true_iff_false.
  unfold attributionReason, isForwardedFlow.
  destruct (Z.ltb_spec 0 (pi_pid (c_process c))) as [Hpid|Hpid];
    [intuition (congruence || lia)|].
  destruct (isOurs (ep_address (c_local c))), (isOurs (ep_address (c_remote c))),
    (isTeardown (c_tcpState c)), (c_proto c); simpl; intuition (congruence || lia).
Qed.
End Heuristics.

(* ------------------------------------------------------------------ *)
(** ** [orientConntrackFlow] *)

Definition orientConntrackFlow (src dst : QHostAddress) (sport dport : Z) (proto : L4Proto)
    (origBytes replBytes origPackets replPackets : Z) (localAddrs : gset QHostAddress)
    : Connection :=
  let c := set_proto proto emptyConnection in
  let srcLocal := bool_decide (src ∈ localAddrs) in
  let dstLocal := bool_decide (dst ∈ localAddrs) in
  if srcLocal || negb dstLocal then
    set_counters replBytes origBytes replPackets origPackets
      (set_endpoints (mkEndpoint src sport) (mkEndpoint dst dport) c)
  else
    set_counters origBytes replBytes origPackets replPackets
      (set_endpoints (mkEndpoint dst dport) (mkEndpoint src sport) c).

(** Orientation of a conntrack entry does not depend on which side opened
    the connection: when exactly one end is a local address, the ORIGINAL and
    the REPLY reading of the same entry give the same flow, with the local
    address at its local end and bytes sent by that end as txBytes. *)
Theorem orient_tuple_independent src dst sport dport proto ob rb op rp localAddrs :
  src ∈ localAddrs -> dst ∉ localAddrs ->
  let c := orientConntrackFlow src dst sport dport proto ob rb op rp localAddrs in
  orientConntrackFlow dst src dport sport proto rb ob rp op localAddrs = c /\
  c_local c = mkEndpoint src sport /\ c_remote c = mkEndpoint dst dport /\
  c_txBytes c = ob /\ c_rxBytes c = rb /\ c_txPackets c = op /\ c_rxPackets c = rp.
Proof.
  intros Hs Hd. unfold orientConntrackFlow.
  rewrite !(bool_decide_eq_true_2 (src ∈ localAddrs)) by done.
  rewrite !(bool_decide_eq_false_2 (dst ∈ localAddrs)) by done. done.
Qed.

Lemma orient_tuple_independent_witness :
  c_local (orientConntrackFlow (AddrV4 9) (AddrV4 7) 443 40000 Tcp 10 20 1 2 {[AddrV4 7]})
  = mkEndpoint (AddrV4 7) 40000.
Proof.
  destruct (orient_tuple_independent (AddrV4 7) (AddrV4 9) 40000 443 Tcp 20 10 2 1 {[AddrV4 7]})
    as (-> & -> & _); [set_solver|set_solver|reflexivity].
Defined.

(* ------------------------------------------------------------------ *)
(** ** Smoothing *)

Definition emaUpdate (prev raw dtMs tauMs : double) : double :=
  if dle tauMs dzero || dle dtMs dzero then raw
  else
    let alpha := ddiv dtMs (dadd tauMs dtMs) in
    dadd (dmul alpha raw) (dmul (dsub (dofZ 1) alpha) prev).

Definition easeOutCubic (t : double) : double :=
  let u := dsub (dofZ 1) t in
  dsub (dofZ 1) (dmul (dmul u u) u).
