(* ===== verification/Filter.v ===== *)
(** * The filter language: [src/util/ConnectionFilter.{h,cpp}]

    The abstract syntax, predicate evaluation with its depth cap, the lexer
    and the recursive-descent parser, as the source has them.  Regular
    expressions and [QString::toDouble] are Qt's and are parameters.  The
    theorems are in [FilterEval], [FilterParse] and [FilterPrint]. *)

From S2P Require Import Prelude Qt Conn.
From stdpp Require Import countable.

(** [QRegularExpression] with the case-insensitive option. *)
Class QtRegex := {
  rxIsValid : QString -> bool;
  rxErrorString : QString -> QString;
  rxHasMatch : QString -> QString -> bool;
}.

(** [QString::toDouble(&ok)]. *)
Class QtToDouble := qToDouble : QString -> option double.

(* ------------------------------------------------------------------ *)
(** ** Abstract syntax *)

Inductive Field :=
| FProto | FSrc | FDst | FHost | FSport | FDport | FPort | FIface | FFamily | FDirection
| FBytesIn | FBytesOut | FBytes
| FPktsIn | FPktsOut | FPkts
| FRateIn | FRateOut | FRate
| FPid | FUid | FComm | FRuntime | FContainer | FChainHas
| FReason.

Inductive Op := OpContains | OpEquals | OpNotEquals | OpRegex | OpLt | OpLe | OpGt | OpGe.

#[global] Instance Field_eq_dec : EqDecision Field. Proof. solve_decision. Defined.
#[global] Instance Op_eq_dec : EqDecision Op. Proof. solve_decision. Defined.

(** [p_rx] is the pattern of the compiled expression (empty when not compiled). *)
Record Predicate := mkPredicate {
  p_field : Field;
  p_op : Op;
  p_textValue : QString;
  p_numValue : double;
  p_hasNumeric : bool;
  p_rx : QString;
}.

(** [ExprPtr] may be null, hence the options. *)
Inductive Expr :=
| EPred (p : Predicate)
| ENot (child : option Expr)
| EAnd (lhs rhs : option Expr)
| EOr (lhs rhs : option Expr).

(** Inputs of an evaluation: [struct Context]. *)
Record FContext := mkFContext {
  x_c : Connection;
  x_rxRate : double;
  x_txRate : double;
  x_hostnameLocal : QString;
  x_hostnameRemote : QString;
}.

(* ------------------------------------------------------------------ *)
(** ** Field resolution *)

Definition fieldTable : list (QString * (Field * bool)) :=
  [ (qs "proto", (FProto, false));
    (qs "src", (FSrc, false));
    (qs "dst", (FDst, false));
    (qs "host", (FHost, false));
    (qs "iface", (FIface, false));
    (qs "family", (FFamily, false));
    (qs "direction", (FDirection, false));
    (qs "sport", (FSport, true));
    (qs "dport", (FDport, true));
    (qs "port", (FPort, true));
    (qs "bytes_in", (FBytesIn, true));
    (qs "bytes_out", (FBytesOut, true));
    (qs "bytes", (FBytes, true));
    (qs "pkts_in", (FPktsIn, true));
    (qs "pkts_out", (FPktsOut, true));
    (qs "pkts", (FPkts, true));
    (qs "rate_in", (FRateIn, true));
    (qs "rate_out", (FRateOut, true));
    (qs "rate", (FRate, true));
    (qs "pid", (FPid, true));
    (qs "uid", (FUid, true));
    (qs "comm", (FComm, false));
    (qs "runtime", (FRuntime, false));
    (qs "container", (FContainer, false));
    (qs "chain_has", (FChainHas, false));
    (qs "reason", (FReason, false)) ].

Definition fieldLookup (name : QString) : option (Field * bool) :=
  snd <$> List.find (fun e => qeqb (fst e) name) fieldTable.

Definition protoName (p : L4Proto) : QString :=
  match p with
  | Tcp => qs "tcp" | Udp => qs "udp" | Icmp => qs "icmp" | IcmpV6 => qs "icmpv6"
  | ProtoUnknown => qs "?"
  end.

Definition directionName (d : Direction) : QString :=
  match d with Outbound => qs "out" | Inbound => qs "in" | DirUnknown => qs "?" end.

Definition familyName (c : Connection) : QString :=
  if addrIsIPv6 (ep_address (c_local c)) || addrIsIPv6 (ep_address (c_remote c))
  then qs "v6" else qs "v4".

Definition suffixes : list (QString * Z) :=
  [ (qs "KiB", 1024); (qs "MiB", 1048576); (qs "GiB", 1073741824); (qs "TiB", 1099511627776);
    (qs "Ki", 1024); (qs "Mi", 1048576); (qs "Gi", 1073741824); (qs "Ti", 1099511627776);
    (qs "KB", 1000); (qs "MB", 1000000); (qs "GB", 1000000000); (qs "TB", 1000000000000);
    (qs "K", 1000); (qs "M", 1000000); (qs "G", 1000000000); (qs "T", 1000000000000);
    (qs "B", 1) ]%Z.

Definition isNumericField (f : Field) : bool :=
  match f with
  | FSport | FDport | FPort | FBytesIn | FBytesOut | FBytes
  | FPktsIn | FPktsOut | FPkts | FRateIn | FRateOut | FRate | FPid | FUid => true
  | _ => false
  end.

(** Fields whose text is a newline-joined list of haystacks. *)
Definition isMultiLineField (f : Field) : bool :=
  match f with FHost | FContainer | FChainHas => true | _ => false end.

Definition nl : QString := [10%Z].

Section Eval.
Context `{QtUnicode, QtAddrText, QtRegex, QtToDouble}.

Definition parseNumeric (s : QString) : double :=
  let s := trimmed s in
  if isEmpty s then S754_nan
  else
    let '(s, mult) :=
      match List.find (fun e => endsWithCI s (fst e)) suffixes with
      | Some (suf, m) => (trimmed (chop (length suf) s), dofZ m)
      | None => (s, dofZ 1)
      end in
    match qToDouble s with
    | None => S754_nan
    | Some n => dmul n mult
    end.

Definition extractText (f : Field) (ctx : FContext) : QString :=
  let c := x_c ctx in
  match f with
  | FProto => protoName (c_proto c)
  | FSrc => addrToString (ep_address (c_local c))
  | FDst => addrToString (ep_address (c_remote c))
  | FHost => addrToString (ep_address (c_local c)) ++ nl
             ++ addrToString (ep_address (c_remote c)) ++ nl
             ++ x_hostnameLocal ctx ++ nl ++ x_hostnameRemote ctx
  | FIface => c_iface c
  | FFamily => familyName c
  | FDirection => directionName (c_direction c)
  | FComm => pi_comm (c_process c)
  | FReason => attributionReasonToString (c_reason c)
  | FRuntime => ci_runtime (c_container c)
  | FContainer =>
      let ci := c_container c in
      if isEmpty (ci_runtime ci) && isEmpty (ci_id ci) && isEmpty (ci_name ci) then []
      else ci_runtime ci ++ nl ++ ci_id ci ++ nl ++ ci_name ci
  | FChainHas =>
      foldl (fun out ci =>
               (if isEmpty out then out else out ++ nl)
               ++ ci_runtime ci ++ nl ++ ci_id ci ++ nl ++ ci_name ci)
            [] (c_containerChain c)
  | _ => []
  end.

Definition extractNumber (f : Field) (ctx : FContext) : double :=
  let c := x_c ctx in
  match f with
  | FSport => dofZ (ep_port (c_local c))
  | FDport => dofZ (ep_port (c_remote c))
  | FPort => dofZ (ep_port (c_local c))
  | FBytesIn => dofZ (c_rxBytes c)
  | FBytesOut => dofZ (c_txBytes c)
  | FBytes => dofZ (u64 (c_rxBytes c + c_txBytes c))
  | FPktsIn => dofZ (c_rxPackets c)
  | FPktsOut => dofZ (c_txPackets c)
  | FPkts => dofZ (u64 (c_rxPackets c + c_txPackets c))
  | FRateIn => x_rxRate ctx
  | FRateOut => x_txRate ctx
  | FRate => dadd (x_rxRate ctx) (x_txRate ctx)
  | FPid => dofZ (pi_pid (c_process c))
  | FUid => dofZ (pi_uid (c_process c))
  | _ => dzero
  end.

(** The comparison both numeric branches of [evalPredicate] switch on. *)
Definition cmpNum (op : Op) (v n : double) : bool :=
  match op with
  | OpContains | OpEquals => deq v n
  | OpNotEquals => negb (deq v n)
  | OpLt => dlt v n
  | OpLe => dle v n
  | OpGt => dlt n v
  | OpGe => dle n v
  | OpRegex => false
  end.

Definition cmpLine (op : Op) (val line : QString) : bool :=
  match op with
  | OpEquals => equalsCI line val
  | OpNotEquals => negb (equalsCI line val)
  | _ => containsCI line val
  end.

Definition evalPredicate (p : Predicate) (ctx : FContext) : bool :=
  match p_op p with
  | OpRegex =>
      let s := extractText (p_field p) ctx in
      match p_field p with
      | FPort =>
          rxHasMatch (p_rx p) (number (ep_port (c_local (x_c ctx))))
          || rxHasMatch (p_rx p) (number (ep_port (c_remote (x_c ctx))))
      | f =>
          if isMultiLineField f then existsb (rxHasMatch (p_rx p)) (qsplit 10 s)
          else rxHasMatch (p_rx p) s
      end
  | op =>
      if isNumericField (p_field p) && p_hasNumeric p then
        match p_field p with
        | FPort =>
            let lo := dofZ (ep_port (c_local (x_c ctx))) in
            let ro := dofZ (ep_port (c_remote (x_c ctx))) in
            match op with
            | OpNotEquals => cmpNum op lo (p_numValue p) && cmpNum op ro (p_numValue p)
            | _ => cmpNum op lo (p_numValue p) || cmpNum op ro (p_numValue p)
            end
        | f => cmpNum op (extractNumber f ctx) (p_numValue p)
        end
      else
        let val := p_textValue p in
        let s := extractText (p_field p) ctx in
        if isMultiLineField (p_field p) then
          let lines := List.filter (fun l => negb (isEmpty l)) (qsplit 10 s) in
          match op with
          | OpNotEquals => forallb (cmpLine op val) lines
          | _ => existsb (cmpLine op val) lines
          end
        else
          match op with
          | OpContains => containsCI s val
          | OpEquals => equalsCI s val
          | OpNotEquals => negb (equalsCI s val)
          | _ => false
          end
  end.

Definition kMaxExprDepth : nat := 64.
#[global] Arguments kMaxExprDepth : simpl never.

(** The node visit of [evalExpr]; null children evaluate to true. *)
Fixpoint evalNode (e : Expr) (ctx : FContext) (depth : nat) : bool :=
  if kMaxExprDepth <=? depth then false
  else
    let sub (o : option Expr) :=
      match o with None => true | Some e' => evalNode e' ctx (S depth) end in
    match e with
    | EPred p => evalPredicate p ctx
    | ENot c => negb (sub c)
    | EAnd l r => sub l && sub r
    | EOr l r => sub l || sub r
    end.

Definition evalExpr (e : option Expr) (ctx : FContext) (depth : nat) : bool :=
  match e with None => true | Some e => evalNode e ctx depth end.

(** [matches(expr, ctx)]. *)
Definition filterMatches (e : option Expr) (ctx : FContext) : bool := evalExpr e ctx 0.

(* ------------------------------------------------------------------ *)
(** ** Tokenizer *)

Inductive TokType :=
| TokIdent | TokString | TokNumber | TokOp | TokLParen | TokRParen
| TokAnd | TokOr | TokNot | TokEnd.

Record Token := mkToken { tk_type : TokType; tk_text : QString; tk_pos : Z }.

(** [m_src] from [m_pos] on, and [m_pos]. *)
Record Lexer := mkLexer { l_rest : QString; l_pos : Z }.

Definition wordStop (c : QChar) : bool :=
  isSpace c || bool_decide (c ∈ qs "()<>=!~:&|").

Fixpoint skipWs (s : QString) : QString :=
  match s with
  | c :: r => if isSpace c then skipWs r else s
  | [] => []
  end.

Fixpoint scanWord (s : QString) : QString * QString :=
  match s with
  | c :: r => if wordStop c then ([], s) else let '(w, t) := scanWord r in (c :: w, t)
  | [] => ([], [])
  end.

(** Contents of a quoted string and the input from the closing quote on. *)
Fixpoint scanQuoted (quote : QChar) (s : QString) : QString * QString :=
  match s with
  | [] => ([], [])
  | c :: r =>
      if (c =? quote)%Z then ([], s)
      else if (c =? 92)%Z then
        match r with
        | x :: r' => let '(t, rest) := scanQuoted quote r' in (x :: t, rest)
        | [] => ([c], [])
        end
      else let '(t, rest) := scanQuoted quote r in (c :: t, rest)
  end.

(** Skip [n] units: the token started at [start]. *)
Definition tok (ty : TokType) (text : QString) (start : Z) (n : nat) (s : QString) : Token * Lexer :=
  (mkToken ty text start, mkLexer (drop n s) (start + Z.of_nat n)).

(** [Lexer::next()]. *)
Definition lexNext (lx : Lexer) : Token * Lexer :=
  let s := skipWs (l_rest lx) in
  let start := (l_pos lx + Z.of_nat (length (l_rest lx) - length s))%Z in
  match s with
  | [] => tok TokEnd [] start 0 s
  | ch :: r =>
      let second := head r in
      if (ch =? 40)%Z then tok TokLParen (qs "(") start 1 s
      else if (ch =? 41)%Z then tok TokRParen (qs ")") start 1 s
      else if (ch =? 58)%Z then tok TokOp (qs ":") start 1 s
      else if (ch =? 126)%Z then tok TokOp (qs "~") start 1 s
      else if (ch =? 61)%Z then tok TokOp (qs "=") start 1 s
      else if (ch =? 33)%Z then
        if bool_decide (second = Some 61%Z) then tok TokOp (qs "!=") start 2 s
        else tok TokNot (qs "!") start 1 s
      else if (ch =? 60)%Z then
        if bool_decide (second = Some 61%Z) then tok TokOp (qs "<=") start 2 s
        else tok TokOp (qs "<") start 1 s
      else if (ch =? 62)%Z then
        if bool_decide (second = Some 61%Z) then tok TokOp (qs ">=") start 2 s
        else tok TokOp (qs ">") start 1 s
      else if (ch =? 38)%Z && bool_decide (second = Some 38%Z) then tok TokAnd (qs "&&") start 2 s
      else if (ch =? 124)%Z && bool_decide (second = Some 124%Z) then tok TokOr (qs "||") start 2 s
      else if (ch =? 34)%Z || (ch =? 39)%Z then
        let '(t, rest) := scanQuoted ch r in
        let after := match rest with _ :: r' => r' | [] => [] end in
        tok TokString t start (length s - length after) s
      else
        let '(w, rest) := scanWord s in
        let lw := toLower w in
        let ty := if qeqb lw (qs "and") then TokAnd
                  else if qeqb lw (qs "or") then TokOr
                  else if qeqb lw (qs "not") then TokNot
                  else TokIdent in
        tok ty w start (length w) s
  end.

(* ------------------------------------------------------------------ *)
(** ** Parser *)

Record ParseResult := mkParseResult {
  res_expr : option Expr;
  res_error : QString;
  res_errorPos : Z;
}.

Record PState := mkPState {
  m_cur : Token;
  m_lex : Lexer;
  m_error : QString;
  m_errorPos : Z;
}.

Definition advance (st : PState) : PState :=
  let '(t, lx) := lexNext (m_lex st) in mkPState t lx (m_error st) (m_errorPos st).

(** Only the first error is kept. *)
Definition fail (msg : QString) (pos : Z) (st : PState) : PState :=
  if isEmpty (m_error st) then mkPState (m_cur st) (m_lex st) msg pos else st.

Definition tokIs (st : PState) (ty : TokType) : bool :=
  match tk_type (m_cur st), ty with
  | TokIdent, TokIdent | TokString, TokString | TokNumber, TokNumber | TokOp, TokOp
  | TokLParen, TokLParen | TokRParen, TokRParen | TokAnd, TokAnd | TokOr, TokOr
  | TokNot, TokNot | TokEnd, TokEnd => true
  | _, _ => false
  end.

Definition tooDeepMsg : QString :=
  qarg (qs "expression nested too deeply (max %1)") (number (Z.of_nat kMaxExprDepth)).

Definition opOfText (s : QString) : option Op :=
  if qeqb s (qs ":") then Some OpContains
  else if qeqb s (qs "=") then Some OpEquals
  else if qeqb s (qs "!=") then Some OpNotEquals
  else if qeqb s (qs "~") then Some OpRegex
  else if qeqb s (qs "<") then Some OpLt
  else if qeqb s (qs "<=") then Some OpLe
  else if qeqb s (qs ">") then Some OpGt
  else if qeqb s (qs ">=") then Some OpGe
  else None.

Definition isOrderOp (op : Op) : bool :=
  match op with OpLt | OpLe | OpGt | OpGe => true | _ => false end.

(** The predicate built from a resolved field, operator and value, with the
    checks in the order of the source; [inr] carries the message and column. *)
Definition buildPredicate (fname : QString) (fi : Field * bool) (op : Op) (val : QString)
    (opPos valPos : Z) : Predicate + (QString * Z) :=
  let '(f, isNumeric) := fi in
  let n := parseNumeric val in
  if isNumeric && disnan n then
    inr (qarg (qs "expected numeric value for field '%1'") fname, valPos)
  else
    let isRx := match op with OpRegex => true | _ => false end in
    if isRx && negb (rxIsValid val) then
      inr (qarg (qs "invalid regex: %1") (rxErrorString val), valPos)
    else if isOrderOp op && negb isNumeric then
      inr (qarg (qs "field '%1' is not numeric") fname, opPos)
    else
      inl (mkPredicate f op val (if isNumeric then n else dzero) isNumeric
             (if isRx then val else [])).

Definition parsePredicate (st : PState) : option Expr * PState :=
  if negb (tokIs st TokIdent) then
    (None, fail (qs "expected field name") (tk_pos (m_cur st)) st)
  else
    let fname := toLower (tk_text (m_cur st)) in
    let fpos := tk_pos (m_cur st) in
    match fieldLookup fname with
    | None => (None, fail (qarg (qs "unknown field '%1'") (tk_text (m_cur st))) fpos st)
    | Some fi =>
        let st := advance st in
        if negb (tokIs st TokOp) then
          (None, fail (qarg (qs "expected operator after field '%1'") fname) (tk_pos (m_cur st)) st)
        else
          let opStr := tk_text (m_cur st) in
          let opPos := tk_pos (m_cur st) in
          match opOfText opStr with
          | None => (None, fail (qarg (qs "unknown operator '%1'") opStr) opPos st)
          | Some op =>
              let st := advance st in
              if negb (tokIs st TokIdent) && negb (tokIs st TokString) then
                (None, fail (qs "expected value after operator") (tk_pos (m_cur st)) st)
              else
                let val := tk_text (m_cur st) in
                let valPos := tk_pos (m_cur st) in
                let st := advance st in
                match buildPredicate fname fi op val opPos valPos with
                | inl p => (Some (EPred p), st)
                | inr (msg, pos) => (None, fail msg pos st)
                end
          end
    end.

(** The loop [while (m_error.isEmpty() && m_cur.type == ty)] of [parseOr] and
    [parseAnd].  Every round consumes an operator token, so [fuel] rounds
    suffice as soon as it is at least the length of the remaining input. *)
Fixpoint whileBin (ty : TokType) (mk : option Expr -> option Expr -> Expr)
    (operand : PState -> option Expr * PState) (fuel : nat)
    (lhs : option Expr) (st : PState) : option Expr * PState :=
  match fuel with
  | O => (lhs, st)
  | S fuel' =>
      if isEmpty (m_error st) && tokIs st ty then
        let '(rhs, st') := operand (advance st) in
        whileBin ty mk operand fuel' (Some (mk lhs rhs)) st'
      else (lhs, st)
  end.

Definition tooDeep (st : PState) : option Expr * PState :=
  (None, fail tooDeepMsg (tk_pos (m_cur st)) st).

Definition loopFuel (st : PState) : nat := S (length (l_rest (m_lex st))).

(** [k] is [kMaxExprDepth - depth]: the guard [tooDeep(depth)] fires at [0]. *)
Fixpoint parseOr (k : nat) (st : PState) : option Expr * PState :=
  match k with
  | O => tooDeep st
  | S k' =>
      let '(lhs, st1) := parseAnd k' st in
      whileBin TokOr EOr (parseAnd k') (loopFuel st1) lhs st1
  end
with parseAnd (k : nat) (st : PState) : option Expr * PState :=
  match k with
  | O => tooDeep st
  | S k' =>
      let '(lhs, st1) := parseNot k' st in
      whileBin TokAnd EAnd (parseNot k') (loopFuel st1) lhs st1
  end
with parseNot (k : nat) (st : PState) : option Expr * PState :=
  match k with
  | O => tooDeep st
  | S k' =>
      if tokIs st TokNot then
        let '(child, st1) := parseNot k' (advance st) in (Some (ENot child), st1)
      else parseAtom k' st
  end
with parseAtom (k : nat) (st : PState) : option Expr * PState :=
  match k with
  | O => tooDeep st
  | S k' =>
      if tokIs st TokLParen then
        let '(e, st1) := parseOr k' (advance st) in
        if negb (tokIs st1 TokRParen) then
          (None, fail (qs "expected ')'") (tk_pos (m_cur st1)) st1)
        else (e, advance st1)
      else parsePredicate st
  end.

(** The parser state after [Parser(src)]'s constructor, more generally at any
    point of the input with no error recorded. *)
Definition stateAt (s : QString) (pos : Z) : PState :=
  let '(t, lx) := lexNext (mkLexer s pos) in mkPState t lx [] (-1).

Definition parse (input : QString) : ParseResult :=
  let st := stateAt input 0 in
  if tokIs st TokEnd then mkParseResult None [] (-1)
  else
    let '(e, st) := parseOr kMaxExprDepth st in
    if negb (isEmpty (m_error st)) then mkParseResult None (m_error st) (m_errorPos st)
    else if negb (tokIs st TokEnd) then
      mkParseResult None (qarg (qs "unexpected '%1'") (tk_text (m_cur st))) (tk_pos (m_cur st))
    else mkParseResult e [] (-1).

End Eval.
