(* ===== verification/FilterEval.v ===== *)
(** * Evaluation of filters: theorems about [evalPredicate] and [evalExpr] *)

From S2P Require Import Prelude Qt Conn Filter.

(** Induction over expressions with the hypothesis for non-null children. *)
Lemma Expr_nested_ind (P : Expr -> Prop) :
  (forall p, P (EPred p)) ->
  (forall c, (forall e, c = Some e -> P e) -> P (ENot c)) ->
  (forall l r, (forall e, l = Some e -> P e) -> (forall e, r = Some e -> P e) -> P (EAnd l r)) ->
  (forall l r, (forall e, l = Some e -> P e) -> (forall e, r = Some e -> P e) -> P (EOr l r)) ->
  forall e, P e.
Proof.
  intros HP HN HA HO. fix IH 1.
  intros [p|[c|]|[l|] [r|]|[l|] [r|]];
    first [apply HP|apply HN|apply HA|apply HO];
    intros x Hx; first [discriminate Hx|injection Hx as <-; apply IH].
Qed.

Section Denote.
Context `{QtUnicode, QtAddrText, QtRegex, QtToDouble}.

(** Reference semantics: the boolean formula, with no depth cap. *)
Fixpoint denote (ctx : FContext) (e : Expr) : bool :=
  let sub (o : option Expr) := match o with None => true | Some e' => denote ctx e' end in
  match e with
  | EPred p => evalPredicate p ctx
  | ENot c => negb (sub c)
  | EAnd l r => sub l && sub r
  | EOr l r => sub l || sub r
  end.

(** Nodes on the longest path of the tree. *)
Fixpoint height (e : Expr) : nat :=
  let sub (o : option Expr) := match o with None => 0 | Some e' => height e' end in
  match e with
  | EPred _ => 1
  | ENot c => S (sub c)
  | EAnd l r | EOr l r => S (sub l `max` sub r)
  end.

Lemma evalNode_denote ctx e d :
  d + height e <= kMaxExprDepth -> evalNode e ctx d = denote ctx e.
Proof.
  revert d. induction e as [p|c IHc|l r IHl IHr|l r IHl IHr] using Expr_nested_ind;
    intros d Hd; cbn [evalNode denote height] in *;
    rewrite (proj2 (Nat.leb_gt _ _)) by lia; [done|..].
  - destruct c as [c|]; [|done]. rewrite (IHc c eq_refl) by lia. done.
  - destruct l as [l|], r as [r|];
      rewrite ?(IHl _ eq_refl), ?(IHr _ eq_refl) by lia; done.
  - destruct l as [l|], r as [r|];
      rewrite ?(IHl _ eq_refl), ?(IHr _ eq_refl) by lia; done.
Qed.

(** C16. On every expression of height at most 64 the depth-capped evaluator
    computes the boolean formula the expression denotes; a null expression
    matches everything. *)
Theorem filterMatches_denotes ctx o :
  match o with None => 0 | Some e => height e end <= kMaxExprDepth ->
  filterMatches o ctx = match o with None => true | Some e => denote ctx e end.
Proof. destruct o as [e|]; [|done]. intros. by apply evalNode_denote. Qed.

(* ------------------------------------------------------------------ *)
(** ** Long chains of one operator *)

(** What [parseOr] builds from [p or p1 or .. or pn]: a left-leaning tree. *)
Definition orChain (p : Predicate) (ps : list Predicate) : Expr :=
  foldl (fun e q => EOr (Some e) (Some (EPred q))) (EPred p) ps.

Lemma orChain_snoc p ps q :
  orChain p (ps ++ [q]) = EOr (Some (orChain p ps)) (Some (EPred q)).
Proof. unfold orChain. by rewrite foldl_app. Qed.

Lemma evalNode_deep e ctx d : kMaxExprDepth <= d -> evalNode e ctx d = false.
Proof. intros. destruct e; cbn [evalNode]; by rewrite (proj2 (Nat.leb_le _ _)) by lia. Qed.

Lemma existsb_snoc {A} (f : A -> bool) l x : existsb f (l ++ [x]) = existsb f l || f x.
Proof. rewrite existsb_app. simpl. by rewrite orb_false_r. Qed.

(** From depth [d] only the last [63 - d] operands of a chain are reached,
    and the first one when the chain is that short. *)
Lemma evalNode_orChain ctx p ps d :
  d <= 63 ->
  evalNode (orChain p ps) ctx d =
    existsb (fun q => evalPredicate q ctx)
      (drop (length ps - (63 - d)) ps) ||
    (if length ps <=? 63 - d then evalPredicate p ctx else false).
Proof.
  revert d. induction ps as [|q ps IH] using rev_ind; intros d Hd.
  - cbn [orChain foldl evalNode]. rewrite (proj2 (Nat.leb_gt _ _)) by (unfold kMaxExprDepth; lia).
    by rewrite drop_nil.
  - rewrite orChain_snoc, length_app. cbn [evalNode length].
    rewrite (proj2 (Nat.leb_gt _ _)) by (unfold kMaxExprDepth; lia).
    destruct (decide (d = 63)) as [->|Hne].
    + rewrite (evalNode_deep _ _ 64) by (unfold kMaxExprDepth; lia).
      rewrite (proj2 (Nat.leb_le kMaxExprDepth _)) by (unfold kMaxExprDepth; lia).
      rewrite drop_ge by (rewrite length_app; simpl; lia).
      rewrite (proj2 (Nat.leb_gt _ _)) by lia. done.
    + rewrite IH by lia.
      rewrite (proj2 (Nat.leb_gt kMaxExprDepth _)) by (unfold kMaxExprDepth; lia).
      replace (length ps + 1 - (63 - d)) with (length ps - (63 - S d)) by lia.
      rewrite drop_app_le by lia. rewrite existsb_snoc.
      replace (length ps + 1 <=? 63 - d) with (length ps <=? 63 - S d)
        by (apply eq_true_iff_eq; rewrite !Nat.leb_le; lia).
      rewrite <- !orb_assoc. f_equal. apply orb_comm.
Qed.
End Denote.

Section Chain.
Context `{QtUnicode, QtAddrText, QtRegex, QtToDouble}.

(** An [or] chain of more than 64 predicates is accepted by the parser
    but evaluated only in part: [matches] is the disjunction of the LAST 63
    operands, and the operands before them never contribute, whatever they
    say about the row. *)
Theorem orChain_truncated ctx p ps :
  63 < length ps ->
  filterMatches (Some (orChain p ps)) ctx =
    existsb (fun q => evalPredicate q ctx) (drop (length ps - 63) ps).
Proof.
  intros Hlen. unfold filterMatches, evalExpr. rewrite evalNode_orChain by lia.
  rewrite (proj2 (Nat.leb_gt _ _)) by lia. by rewrite orb_false_r.
Qed.
End Chain.

(* ------------------------------------------------------------------ *)
(** ** Operators *)

Section Operators.
Context `{QtUnicode, QtAddrText, QtRegex, QtToDouble}.

Definition with_op (op : Op) (p : Predicate) : Predicate :=
  mkPredicate (p_field p) op (p_textValue p) (p_numValue p) (p_hasNumeric p) (p_rx p).

Lemma forallb_negb_existsb {A} (f : A -> bool) l :
  forallb (fun x => negb (f x)) l = negb (existsb f l).
Proof. induction l as [|x l IH]; simpl; [done|]. rewrite IH. by destruct (f x). Qed.

(** [field!=value] is the exact negation of [field=value] for every field:
    single-valued text, numbers (NaN rates included), [port] over both ends,
    and the any-match fields [host], [container] and [chain_has]. *)
Theorem notEquals_negates p ctx :
  evalPredicate (with_op OpNotEquals p) ctx = negb (evalPredicate (with_op OpEquals p) ctx).
Proof.
  unfold evalPredicate. simpl.
  destruct (isNumericField (p_field p) && p_hasNumeric p).
  - destruct (p_field p); simpl; try done. by rewrite negb_orb.
  - destruct (isMultiLineField (p_field p)); [|done].
    by rewrite <- forallb_negb_existsb.
Qed.

(** A regex on a numeric field other than [port] never looks at the row:
    its text is empty, so the predicate has the same value for every flow
    (it tests the pattern against the empty string). *)
Theorem regex_numeric_constant p ctx :
  isNumericField (p_field p) = true -> p_field p <> FPort ->
  evalPredicate (with_op OpRegex p) ctx = rxHasMatch (p_rx p) [].
Proof.
  intros Hn Hp. unfold evalPredicate. simpl.
  destruct (p_field p); simpl in *; try discriminate; done.
Qed.
End Operators.

(* ------------------------------------------------------------------ *)
(** ** Executable instances for the witnesses

    A substring matcher in place of PCRE and a decimal-integer [toDouble]. *)

#[global] Instance substringRegex : QtRegex := {|
  rxIsValid _ := true;
  rxErrorString _ := [];
  rxHasMatch pat s := infixb pat s;
|}.

#[global] Instance decimalToDouble : QtToDouble := fun s => dofZ <$> parseDec s.

Definition sampleCtx : FContext := mkFContext sampleTcp dzero dzero [] (qs "one.example").

(** [proto:<t>] *)
Definition protoPred (t : QString) : Predicate := mkPredicate FProto OpContains t dzero false [].

Lemma filterMatches_denotes_witness :
  filterMatches (Some (EAnd (Some (EPred (protoPred (qs "tcp"))))
                            (Some (ENot (Some (EPred (protoPred (qs "udp")))))))) sampleCtx = true.
Proof.
  rewrite (filterMatches_denotes sampleCtx (Some _)); [vm_compute; reflexivity|].
  apply Nat.leb_le. vm_compute. reflexivity.
Defined.

(** 65 operands, of which only the first matches the row. *)
Lemma orChain_truncated_witness :
  let ps := replicate 64 (protoPred (qs "udp")) in
  denote sampleCtx (orChain (protoPred (qs "tcp")) ps) = true /\
  filterMatches (Some (orChain (protoPred (qs "tcp")) ps)) sampleCtx = false.
Proof.
  split; [vm_compute; reflexivity|].
  rewrite (orChain_truncated sampleCtx (protoPred (qs "tcp")) (replicate 64 (protoPred (qs "udp"))));
    [vm_compute; reflexivity|]. apply Nat.ltb_lt. vm_compute. reflexivity.
Defined.

Lemma regex_numeric_constant_witness :
  evalPredicate (with_op OpRegex (mkPredicate FDport OpRegex (qs "443") (dofZ 443) true (qs "443")))
    sampleCtx = false.
Proof.
  rewrite (regex_numeric_constant (mkPredicate FDport OpRegex (qs "443") (dofZ 443) true (qs "443"))
             sampleCtx); [vm_compute; reflexivity|reflexivity|discriminate].
Defined.
