(* ===== verification/FilterParse.v ===== *)
(** * The filter parser: completeness of its loops and soundness *)

From S2P Require Import Prelude Qt Conn Filter FilterEval.
From stdpp Require Import relations.

(* ------------------------------------------------------------------ *)
(** ** The lexer consumes input *)

Section Lex.
Context `{QtUnicode, QtAddrText, QtRegex, QtToDouble}.

Lemma skipWs_suffix s : exists w, s = w ++ skipWs s.
Proof.
  induction s as [|c s [w IH]]; simpl; [by exists []|].
  destruct (isSpace c); [|by exists []]. exists (c :: w). simpl. by rewrite <- IH.
Qed.

Lemma skipWs_le s : length (skipWs s) <= length s.
Proof. destruct (skipWs_suffix s) as [w Hw]. rewrite Hw at 2. rewrite length_app. lia. Qed.

Lemma scanWord_app s w t : scanWord s = (w, t) -> s = w ++ t.
Proof.
  revert w t; induction s as [|c s IH]; simpl; intros w t Heq; [by simplify_eq|].
  destruct (wordStop c); [by simplify_eq|].
  destruct (scanWord s) as [w' t'] eqn:Es. simplify_eq. simpl. f_equal. by apply IH.
Qed.

Lemma scanQuoted_le q s : length (scanQuoted q s).2 <= length s.
Proof.
  induction s as [s IH] using (induction_ltof1 _ length). unfold ltof in IH.
  destruct s as [|c s]; simpl; [done|].
  destruct (c =? q)%Z; [done|]. destruct (c =? 92)%Z.
  - destruct s as [|x s]; simpl; [lia|].
    pose proof (IH s ltac:(simpl; lia)). destruct (scanQuoted q s); simpl in *. lia.
  - pose proof (IH s ltac:(simpl; lia)). destruct (scanQuoted q s); simpl in *. lia.
Qed.

(** Tokens that cannot be produced without consuming a character. *)
Definition solid (ty : TokType) : bool :=
  match ty with TokIdent | TokEnd => false | _ => true end.

(** What one call of [next()] does to the input position. *)
Definition lex_step_ok (lx : Lexer) (r : Token * Lexer) : Prop :=
  let '(t, lx') := r in
  length (l_rest lx') <= length (l_rest lx) /\
  (l_pos lx' + Z.of_nat (length (l_rest lx')) = l_pos lx + Z.of_nat (length (l_rest lx)))%Z /\
  (l_pos lx <= tk_pos t <= l_pos lx')%Z /\
  (solid (tk_type t) = true -> length (l_rest lx') < length (l_rest lx)).

Lemma tok_step lx s ty text n :
  length s <= length (l_rest lx) -> n <= length s ->
  (solid ty = true -> 0 < n) ->
  lex_step_ok lx
    (tok ty text (l_pos lx + Z.of_nat (length (l_rest lx) - length s)) n s).
Proof.
  intros Hs Hn Hsol. unfold lex_step_ok, tok. simpl. rewrite length_drop.
  repeat split; try lia. intros Hs'%Hsol. lia.
Qed.

Context `{!QtUnicodeLaws}.

Lemma toLower_nil : toLower [] = [].
Proof. by rewrite toLower_ascii. Qed.

Lemma lexNext_step lx : lex_step_ok lx (lexNext lx).
Proof.
  unfold lexNext. pose proof (skipWs_le (l_rest lx)) as Hle.
  destruct (skipWs (l_rest lx)) as [|ch r] eqn:Es; [by apply tok_step|].
  repeat match goal with
  | |- lex_step_ok _ (if ?b then _ else _) => destruct b eqn:?
  end; try (apply tok_step; simpl in *; lia || done);
  try (apply tok_step; [done| |lia]; destruct r; simpl in *;
       [by rewrite ?andb_false_r in *|lia]).
  - destruct (scanQuoted ch r) as [t rest] eqn:Eq.
    pose proof (scanQuoted_le ch r) as Hr. rewrite Eq in Hr. simpl in Hr.
    apply tok_step; [done|lia|]. intros _. destruct rest; simpl in *; lia.
  - destruct (scanWord (ch :: r)) as [w rest] eqn:Ew. pose proof (scanWord_app _ _ _ Ew) as Happ.
    assert (length w <= length (ch :: r)) by (rewrite Happ, length_app; lia).
    destruct w as [|c w]; [|apply tok_step; [done|done|simpl; lia]].
    rewrite toLower_nil. by apply tok_step.
Qed.

(* ------------------------------------------------------------------ *)
(** ** Parser states reachable by [advance()] *)

Definition pos_of (st : PState) : Token * Lexer := (m_cur st, m_lex st).
Definition adv (x y : Token * Lexer) : Prop := y = lexNext (snd x).
Definition reach : relation (Token * Lexer) := rtc adv.

Lemma pos_of_fail msg pos st : pos_of (fail msg pos st) = pos_of st.
Proof. unfold fail. by destruct (isEmpty _). Qed.

Lemma pos_of_advance st : adv (pos_of st) (pos_of (advance st)).
Proof. unfold adv, advance, pos_of. simpl. by destruct (lexNext (m_lex st)). Qed.

Lemma reach_advance st : reach (pos_of st) (pos_of (advance st)).
Proof. apply rtc_once, pos_of_advance. Qed.

Lemma reach_advance_l st y : reach (pos_of (advance st)) y -> reach (pos_of st) y.
Proof. apply rtc_l, pos_of_advance. Qed.

Lemma parsePredicate_reach st : reach (pos_of st) (pos_of (snd (parsePredicate st))).
Proof.
  unfold parsePredicate. cbv zeta.
  destruct (negb (tokIs st TokIdent)); cbn [snd]; [rewrite pos_of_fail; apply rtc_refl|].
  destruct (fieldLookup _) as [fi|]; cbn [snd]; [|rewrite pos_of_fail; apply rtc_refl].
  apply reach_advance_l. set (st1 := advance st). clearbody st1.
  destruct (negb (tokIs st1 TokOp)); cbn [snd]; [rewrite pos_of_fail; apply rtc_refl|].
  destruct (opOfText _) as [op|]; cbn [snd]; [|rewrite pos_of_fail; apply rtc_refl].
  apply reach_advance_l. set (st2 := advance st1). clearbody st2.
  destruct (negb (tokIs st2 TokIdent) && _); cbn [snd]; [rewrite pos_of_fail; apply rtc_refl|].
  apply reach_advance_l.
  destruct (buildPredicate _ _ _ _ _ _) as [p|[msg pos]]; cbn [snd];
    rewrite ?pos_of_fail; apply rtc_refl.
Qed.

Lemma whileBin_reach ty mk operand fuel lhs st :
  (forall s, reach (pos_of s) (pos_of (snd (operand s)))) ->
  reach (pos_of st) (pos_of (snd (whileBin ty mk operand fuel lhs st))).
Proof.
  intros Hop. revert lhs st. induction fuel as [|fuel IH]; intros lhs st; simpl; [apply rtc_refl|].
  case_match; [|apply rtc_refl]. destruct (operand (advance st)) as [rhs st'] eqn:Eo.
  apply reach_advance_l. etrans; [|apply IH]. specialize (Hop (advance st)). by rewrite Eo in Hop.
Qed.

(** Defining equations of the mutual parser at a positive depth budget. *)
Lemma parseOr_S k st :
  parseOr (S k) st =
    let '(lhs, st1) := parseAnd k st in
    whileBin TokOr EOr (parseAnd k) (loopFuel st1) lhs st1.
Proof. reflexivity. Qed.

Lemma parseAnd_S k st :
  parseAnd (S k) st =
    let '(lhs, st1) := parseNot k st in
    whileBin TokAnd EAnd (parseNot k) (loopFuel st1) lhs st1.
Proof. reflexivity. Qed.

Lemma parseNot_S k st :
  parseNot (S k) st =
    if tokIs st TokNot then
      let '(child, st1) := parseNot k (advance st) in (Some (ENot child), st1)
    else parseAtom k st.
Proof. reflexivity. Qed.

Lemma parseAtom_S k st :
  parseAtom (S k) st =
    if tokIs st TokLParen then
      let '(e, st1) := parseOr k (advance st) in
      if negb (tokIs st1 TokRParen) then
        (None, fail (qs "expected ')'") (tk_pos (m_cur st1)) st1)
      else (e, advance st1)
    else parsePredicate st.
Proof. reflexivity. Qed.

Lemma parse_reach k :
  (forall st, reach (pos_of st) (pos_of (snd (parseOr k st)))) /\
  (forall st, reach (pos_of st) (pos_of (snd (parseAnd k st)))) /\
  (forall st, reach (pos_of st) (pos_of (snd (parseNot k st)))) /\
  (forall st, reach (pos_of st) (pos_of (snd (parseAtom k st)))).
Proof.
  induction k as [|k (IHo & IHa & IHn & IHt)].
  { repeat split; intros st; simpl; rewrite pos_of_fail; apply rtc_refl. }
  repeat split; intros st; rewrite ?parseOr_S, ?parseAnd_S, ?parseNot_S, ?parseAtom_S.
  - destruct (parseAnd k st) as [lhs st1] eqn:Ep. etrans; [|by apply whileBin_reach].
    specialize (IHa st). by rewrite Ep in IHa.
  - destruct (parseNot k st) as [lhs st1] eqn:Ep. etrans; [|by apply whileBin_reach].
    specialize (IHn st). by rewrite Ep in IHn.
  - case_match; [|apply IHt]. destruct (parseNot k (advance st)) as [c st1] eqn:Ep. simpl.
    apply reach_advance_l. specialize (IHn (advance st)). by rewrite Ep in IHn.
  - case_match; [|apply parsePredicate_reach].
    destruct (parseOr k (advance st)) as [e st1] eqn:Ep.
    apply reach_advance_l. specialize (IHo (advance st)). rewrite Ep in IHo. simpl in IHo.
    case_match; simpl; rewrite ?pos_of_fail; [done|]. etrans; [done|apply reach_advance].
Qed.

Lemma reach_len x y : reach x y -> length (l_rest (snd y)) <= length (l_rest (snd x)).
Proof.
  induction 1 as [x|x y z Hxy Hyz IH]; [done|]. rewrite Hxy in IH.
  pose proof (lexNext_step (snd x)) as Hs. unfold lex_step_ok in Hs.
  destruct (lexNext (snd x)) as [t lx]. simpl in *. lia.
Qed.

(** After at least one [advance()] a solid current token has been consumed. *)
Lemma reach_solid st y :
  reach (pos_of (advance st)) y -> solid (tk_type (fst y)) = true ->
  length (l_rest (snd y)) < length (l_rest (m_lex st)).
Proof.
  intros Hr Hsol. apply rtc_inv_r in Hr as [<-|(x & Hx & Hxy)].
  - pose proof (lexNext_step (m_lex st)) as Hs. unfold lex_step_ok in Hs.
    unfold advance, pos_of in *. destruct (lexNext (m_lex st)) as [t lx]. simpl in *. naive_solver.
  - apply reach_len in Hx. rewrite Hxy in *.
    pose proof (lexNext_step (snd x)) as Hs. unfold lex_step_ok in Hs.
    pose proof (reach_len _ _ (reach_advance st)) as Ha. simpl in Ha.
    destruct (lexNext (snd x)) as [t lx]. simpl in *. destruct Hs as (_ & _ & _ & Hs).
    specialize (Hs Hsol). lia.
Qed.

(* ------------------------------------------------------------------ *)
(** ** The loops are never cut short *)

Lemma tokIs_type st ty : tokIs st ty = true <-> tk_type (m_cur st) = ty.
Proof. unfold tokIs. destruct (tk_type (m_cur st)), ty; naive_solver. Qed.

Definition loopCond (ty : TokType) (st : PState) : bool := isEmpty (m_error st) && tokIs st ty.

Lemma whileBin_exit ty mk operand fuel lhs st :
  solid ty = true ->
  (forall s, reach (pos_of s) (pos_of (snd (operand s)))) ->
  loopFuel st <= fuel ->
  loopCond ty (snd (whileBin ty mk operand fuel lhs st)) = false.
Proof.
  intros Hsol Hop. revert lhs st. induction fuel as [|fuel IH]; intros lhs st Hf; unfold loopFuel in *; [lia|].
  simpl. fold (loopCond ty st). destruct (loopCond ty st) eqn:Ec; [|done].
  destruct (operand (advance st)) as [rhs st'] eqn:Eo.
  pose proof (Hop (advance st)) as Hr. rewrite Eo in Hr. simpl in Hr.
  destruct (loopCond ty st') eqn:Ec'.
  - apply IH. apply andb_true_iff in Ec' as [_ Ht%tokIs_type].
    pose proof (reach_solid st _ Hr) as Hlt. simpl in Hlt. rewrite Ht in Hlt. specialize (Hlt Hsol). lia.
  - destruct fuel; simpl; [done|]. fold (loopCond ty st'). by rewrite Ec'.
Qed.

(** The parser is total and its loops run to completion: for every depth
    budget and every state, [parseOr] and [parseAnd] stop only because an
    error is recorded or the current token is no longer their operator,
    never because the loop bound (the length of the remaining input) ran out. *)
Theorem parser_loops_complete k st :
  loopCond TokOr (snd (parseOr (S k) st)) = false /\
  loopCond TokAnd (snd (parseAnd (S k) st)) = false.
Proof.
  destruct (parse_reach k) as (_ & Ha & Hn & _). rewrite parseOr_S, parseAnd_S.
  destruct (parseAnd k st) as [l1 s1], (parseNot k st) as [l2 s2].
  split; by apply whileBin_exit.
Qed.

(* ------------------------------------------------------------------ *)
(** ** Soundness: what a successful parse returns, where errors point *)

(** A predicate as the parser builds it: legal operator for the field, a
    numeric value exactly for numeric fields, a compiled valid regex exactly
    for [~]. *)
Record pred_ok (p : Predicate) : Prop := {
  pok_numeric : p_hasNumeric p = isNumericField (p_field p);
  pok_value : p_numValue p = if p_hasNumeric p then parseNumeric (p_textValue p) else dzero;
  pok_notnan : p_hasNumeric p = true -> disnan (p_numValue p) = false;
  pok_order : isOrderOp (p_op p) = true -> p_hasNumeric p = true;
  pok_rx : p_rx p = match p_op p with OpRegex => p_textValue p | _ => [] end;
  pok_rxvalid : p_op p = OpRegex -> rxIsValid (p_textValue p) = true;
}.

(** No null child anywhere, every predicate legal. *)
Fixpoint expr_ok (e : Expr) : Prop :=
  match e with
  | EPred p => pred_ok p
  | ENot (Some c) => expr_ok c
  | EAnd (Some l) (Some r) | EOr (Some l) (Some r) => expr_ok l /\ expr_ok r
  | _ => False
  end.

Lemma fieldLookup_numeric name f b : fieldLookup name = Some (f, b) -> b = isNumericField f.
Proof.
  unfold fieldLookup. destruct (List.find _ fieldTable) as [[n [f' b']]|] eqn:Ef; [|done].
  simpl. intros [= -> ->]. apply List.find_some in Ef as [Hin _].
  assert (HF : Forall (fun e : QString * (Field * bool) => snd (snd e) = isNumericField (fst (snd e))) fieldTable)
    by (unfold fieldTable; repeat constructor).
  rewrite List.Forall_forall in HF. apply (HF _ Hin).
Qed.

Lemma buildPredicate_ok fname f b op val oP vP :
  b = isNumericField f ->
  match buildPredicate fname (f, b) op val oP vP with
  | inl p => pred_ok p
  | inr (msg, pos) => msg <> [] /\ (pos = oP \/ pos = vP)
  end.
Proof.
  intros ->. unfold buildPredicate.
  destruct (isNumericField f && disnan (parseNumeric val)) eqn:E1;
    [split; [by apply qarg_nonempty|auto]|].
  destruct (_ && negb (rxIsValid val)) eqn:E2; [split; [by apply qarg_nonempty|auto]|].
  destruct (isOrderOp op && _) eqn:E3; [split; [by apply qarg_nonempty|auto]|].
  split; simpl; destruct (isNumericField f), op; simpl in *; try done;
    by apply negb_false_iff in E2.
Qed.

(** Position bookkeeping for an input of [N] units. *)
Definition pos_inv (N : Z) (st : PState) : Prop :=
  (l_pos (m_lex st) + Z.of_nat (length (l_rest (m_lex st))) = N)%Z /\
  (0 <= tk_pos (m_cur st) <= N)%Z /\ (0 <= l_pos (m_lex st))%Z /\
  (m_error st <> [] -> (0 <= m_errorPos st <= N)%Z).

(** [r] is a legal outcome of a parsing function entered in state [st]. *)
Definition outcome (N : Z) (st : PState) (r : option Expr * PState) : Prop :=
  pos_inv N (snd r) /\
  (m_error st <> [] -> m_error (snd r) <> []) /\
  (m_error (snd r) = [] -> exists e, fst r = Some e /\ expr_ok e).

Lemma advance_inv N st : pos_inv N st -> pos_inv N (advance st).
Proof.
  intros (Hl & Ht & Hp & He). pose proof (lexNext_step (m_lex st)) as Hs.
  unfold lex_step_ok, pos_inv, advance in *. destruct (lexNext (m_lex st)) as [t lx]. simpl in *.
  destruct Hs as (? & ? & ? & _). repeat split; try lia; apply He; done.
Qed.

Lemma advance_error st : m_error (advance st) = m_error st.
Proof. unfold advance. by destruct (lexNext _). Qed.

Lemma fail_outcome N st0 st msg pos :
  pos_inv N st -> m_error st = m_error st0 -> msg <> [] -> (0 <= pos <= N)%Z ->
  outcome N st0 (None, fail msg pos st).
Proof.
  intros (Hl & Ht & Hp & He) Heq Hm Hpos. unfold outcome, fail, pos_inv. simpl.
  destruct (isEmpty (m_error st)) eqn:Ee; simpl.
  - repeat split; try lia; done.
  - apply isEmpty_false in Ee. specialize (He Ee). repeat split; try lia; congruence || done.
Qed.

Lemma parsePredicate_outcome N st : pos_inv N st -> outcome N st (parsePredicate st).
Proof.
  intros Hinv. unfold parsePredicate. cbv zeta.
  assert (Hpos : forall st, pos_inv N st -> (0 <= tk_pos (m_cur st) <= N)%Z) by (by intros ? (? & ? & ?)).
  destruct (negb (tokIs st TokIdent)); [apply fail_outcome; auto|].
  destruct (fieldLookup _) as [[f b]|] eqn:Ef;
    [|apply fail_outcome; auto; by apply qarg_nonempty].
  pose proof (advance_inv _ _ Hinv) as Hinv1. pose proof (advance_error st) as He1.
  set (st1 := advance st) in *. clearbody st1.
  destruct (negb (tokIs st1 TokOp)); [apply fail_outcome; auto; by apply qarg_nonempty|].
  destruct (opOfText _) as [op|]; [|apply fail_outcome; auto; by apply qarg_nonempty].
  pose proof (advance_inv _ _ Hinv1) as Hinv2. pose proof (advance_error st1) as He2.
  set (st2 := advance st1) in *. clearbody st2.
  destruct (negb (tokIs st2 TokIdent) && _); [apply fail_outcome; auto; congruence|].
  pose proof (advance_inv _ _ Hinv2) as Hinv3. pose proof (advance_error st2) as He3.
  set (st3 := advance st2) in *. clearbody st3.
  pose proof (buildPredicate_ok (toLower (tk_text (m_cur st))) f b op (tk_text (m_cur st2))
    (tk_pos (m_cur st1)) (tk_pos (m_cur st2)) (fieldLookup_numeric _ _ _ Ef)) as Hb.
  destruct (buildPredicate _ _ _ _ _ _) as [p|[msg pos]].
  - split; [done|]. simpl. split; [congruence|]. eauto.
  - destruct Hb as [Hm Hp]. apply fail_outcome; auto; [congruence|]. destruct Hp as [-> | ->]; auto.
Qed.

Lemma outcome_ext N st st' r : m_error st = m_error st' -> outcome N st r -> outcome N st' r.
Proof. unfold outcome. intros ->. done. Qed.

Lemma whileBin_outcome N ty mk operand fuel lhs st0 st :
  (forall l r, expr_ok l -> expr_ok r -> expr_ok (mk (Some l) (Some r))) ->
  (forall s, pos_inv N s -> outcome N s (operand s)) ->
  outcome N st0 (lhs, st) -> outcome N st0 (whileBin ty mk operand fuel lhs st).
Proof.
  intros Hmk Hop. revert lhs st. induction fuel as [|fuel IH]; intros lhs st Ho; cbn [whileBin]; [done|].
  destruct (isEmpty (m_error st)) eqn:Ee; [|done]. apply isEmpty_true in Ee.
  destruct (tokIs st ty); simpl; [|done].
  destruct Ho as (Hinv & Hmono & Hok). simpl in *.
  pose proof (Hop (advance st) (advance_inv _ _ Hinv)) as (Hinv' & Hmono' & Hok').
  destruct (operand (advance st)) as [rhs st']. simpl in *. apply IH. split; [done|]. simpl.
  split; [intros Hne; exfalso; by apply (Hmono Hne)|].
  intros He'. destruct (Hok Ee) as (l & -> & Hl), (Hok' He') as (r & -> & Hr). eauto.
Qed.

Lemma tooDeep_outcome N st : pos_inv N st -> outcome N st (tooDeep st).
Proof. intros Hinv. apply fail_outcome; auto. by destruct Hinv as (? & ? & ?). Qed.

Lemma parse_outcome N k :
  (forall st, pos_inv N st -> outcome N st (parseOr k st)) /\
  (forall st, pos_inv N st -> outcome N st (parseAnd k st)) /\
  (forall st, pos_inv N st -> outcome N st (parseNot k st)) /\
  (forall st, pos_inv N st -> outcome N st (parseAtom k st)).
Proof.
  induction k as [|k (IHo & IHa & IHn & IHt)];
    (split; [|split; [|split]]; intros st Hinv); [by apply tooDeep_outcome..| | | |];
    rewrite ?parseOr_S, ?parseAnd_S, ?parseNot_S, ?parseAtom_S.
  - specialize (IHa st Hinv) as Ho. destruct (parseAnd k st) as [lhs st1]. by apply whileBin_outcome.
  - specialize (IHn st Hinv) as Ho. destruct (parseNot k st) as [lhs st1]. by apply whileBin_outcome.
  - destruct (tokIs st TokNot); [|by apply IHt].
    specialize (IHn _ (advance_inv _ _ Hinv)) as Ho. destruct (parseNot k (advance st)) as [c st1].
    apply (outcome_ext _ _ _ _ (advance_error st)) in Ho. destruct Ho as (? & ? & Hok). simpl in *.
    split; [done|]. split; [done|]. simpl. intros He. destruct (Hok He) as (e & -> & ?). eauto.
  - destruct (tokIs st TokLParen); [|by apply parsePredicate_outcome].
    specialize (IHo _ (advance_inv _ _ Hinv)) as Ho. destruct (parseOr k (advance st)) as [e st1].
    apply (outcome_ext _ _ _ _ (advance_error st)) in Ho. destruct Ho as (Hi & Hm & Hok). simpl in *.
    destruct (negb (tokIs st1 TokRParen)).
    + assert (outcome N st1 (None, fail (qs "expected ')'") (tk_pos (m_cur st1)) st1)) as (Ha & Hb & Hc).
      { apply fail_outcome; auto. by destruct Hi as (? & ? & ?). }
      split; [done|]. split; [auto|done].
    + split; [by apply advance_inv|]. simpl. rewrite advance_error. auto.
Qed.

Lemma stateAt_inv s : pos_inv (Z.of_nat (length s)) (stateAt s 0).
Proof.
  unfold stateAt. pose proof (lexNext_step (mkLexer s 0)) as Hs. unfold lex_step_ok, pos_inv in *.
  destruct (lexNext (mkLexer s 0)) as [t lx]. simpl in *. destruct Hs as (? & ? & ? & _).
  repeat split; try lia; done.
Qed.

(** C15. The parser is sound: on every input it either accepts, returning the
    match-all null expression for blank input or a complete tree with no null
    child in which every predicate is legal for its field, or it rejects with
    a non-empty message and a column inside the input. *)
Theorem parse_sound input :
  let r := parse input in
  (res_error r = [] /\ res_errorPos r = (-1)%Z /\
     match res_expr r with
     | None => tk_type (m_cur (stateAt input 0)) = TokEnd
     | Some e => expr_ok e
     end) \/
  (res_error r <> [] /\ res_expr r = None /\ (0 <= res_errorPos r <= Z.of_nat (length input))%Z).
Proof.
  pose proof (stateAt_inv input) as Hinv. unfold parse.
  destruct (tokIs (stateAt input 0) TokEnd) eqn:Et; [left; by apply tokIs_type in Et|].
  destruct (parse_outcome (Z.of_nat (length input)) kMaxExprDepth) as (Ho & _).
  destruct (Ho _ Hinv) as (Hi & _ & Hok). clear Ho.
  destruct (parseOr kMaxExprDepth (stateAt input 0)) as [e st]. simpl in *.
  destruct (isEmpty (m_error st)) eqn:Ee; simpl.
  - apply isEmpty_true in Ee. destruct (tokIs st TokEnd) eqn:Et'; simpl.
    + left. destruct (Hok Ee) as (x & -> & ?). done.
    + right. destruct Hi as (? & ? & ?). split; [by apply qarg_nonempty|done].
  - apply isEmpty_false in Ee. right. destruct Hi as (? & ? & ? & He). split; [done|]. split; auto.
Qed.
End Lex.

(* ------------------------------------------------------------------ *)
(** ** Witnesses *)

Lemma parser_loops_complete_witness :
  let st := stateAt (qs "proto:tcp or dport=53 or dport=443") 0 in
  loopCond TokOr (snd (parseOr 64 st)) = false /\ loopCond TokAnd (snd (parseAnd 64 st)) = false.
Proof. apply (parser_loops_complete 63). Defined.

Lemma parse_sound_witness :
  (0 <= res_errorPos (parse (qs "dport>")) <= 6)%Z.
Proof.
  destruct (parse_sound (qs "dport>")) as [(He & _)|(_ & _ & Hp)]; [|exact Hp].
  exfalso. vm_compute in He. discriminate He.
Defined.
