(* ===== verification/FilterPrint.v ===== *)
(** * The filter printer and the print/parse round trip

    The program has no printer; [printExpr] writes an expression in the
    grammar of [ConnectionFilter.h] (fully parenthesised, values quoted), so
    that the round trip shows the parser accepts that grammar and builds
    exactly the tree that was written. *)

From S2P Require Import Prelude Qt Conn Filter FilterEval FilterParse.

Definition fieldName (f : Field) : QString :=
  match f with
  | FProto => qs "proto" | FSrc => qs "src" | FDst => qs "dst" | FHost => qs "host"
  | FSport => qs "sport" | FDport => qs "dport" | FPort => qs "port"
  | FIface => qs "iface" | FFamily => qs "family" | FDirection => qs "direction"
  | FBytesIn => qs "bytes_in" | FBytesOut => qs "bytes_out" | FBytes => qs "bytes"
  | FPktsIn => qs "pkts_in" | FPktsOut => qs "pkts_out" | FPkts => qs "pkts"
  | FRateIn => qs "rate_in" | FRateOut => qs "rate_out" | FRate => qs "rate"
  | FPid => qs "pid" | FUid => qs "uid" | FComm => qs "comm" | FRuntime => qs "runtime"
  | FContainer => qs "container" | FChainHas => qs "chain_has" | FReason => qs "reason"
  end.

Definition opText (op : Op) : QString :=
  match op with
  | OpContains => qs ":" | OpEquals => qs "=" | OpNotEquals => qs "!=" | OpRegex => qs "~"
  | OpLt => qs "<" | OpLe => qs "<=" | OpGt => qs ">" | OpGe => qs ">="
  end.

Fixpoint escapeText (t : QString) : QString :=
  match t with
  | [] => []
  | c :: r => if (c =? 34)%Z || (c =? 92)%Z then 92%Z :: c :: escapeText r else c :: escapeText r
  end.

Definition quoteText (t : QString) : QString := 34%Z :: escapeText t ++ [34%Z].

Definition parens (s : QString) : QString := 40%Z :: s ++ [41%Z].

Fixpoint printExpr (e : Expr) : QString :=
  let sub (o : option Expr) := match o with Some e' => parens (printExpr e') | None => [] end in
  match e with
  | EPred p => fieldName (p_field p) ++ opText (p_op p) ++ quoteText (p_textValue p)
  | ENot c => 33%Z :: sub c
  | EAnd l r => sub l ++ qs "&&" ++ sub r
  | EOr l r => sub l ++ qs "||" ++ sub r
  end.

(** The recursion depth the parser needs for the printed form. *)
Fixpoint parseCost (e : Expr) : nat :=
  let sub (o : option Expr) := match o with Some e' => parseCost e' | None => 0 end in
  match e with
  | EPred _ => 4
  | ENot c => 5 + sub c
  | EAnd l r | EOr l r => 4 + (sub l `max` sub r)
  end.

Section Print.
Context `{QtUnicode, QtAddrText, QtRegex, QtToDouble, !QtUnicodeLaws}.

(** A lexer and a parser state at the suffix [s] of an input of [N] units. *)
Definition lexAt (N : Z) (s : QString) : Lexer := mkLexer s (N - Z.of_nat (length s)).
Definition stAt (N : Z) (s : QString) : PState := stateAt s (N - Z.of_nat (length s)).

Definition lexes (N : Z) (s : QString) (ty : TokType) (text rest : QString) : Prop :=
  lexNext (lexAt N s) = (mkToken ty text (N - Z.of_nat (length s)), lexAt N rest).

Lemma lexes_state N s ty text rest :
  lexes N s ty text rest ->
  m_cur (stAt N s) = mkToken ty text (N - Z.of_nat (length s)) /\
  m_lex (stAt N s) = lexAt N rest /\ m_error (stAt N s) = [] /\
  advance (stAt N s) = stAt N rest.
Proof.
  unfold lexes, stAt, stateAt, advance. fold (lexAt N s). intros ->. simpl.
  fold (lexAt N rest). by destruct (lexNext (lexAt N rest)).
Qed.

(** The token at the front of a text whose first unit is not a space. *)
Lemma lexes_front N c r ty text n :
  isAscii c -> ascii_isSpace c = false -> n <= length (c :: r) ->
  (forall start, (let lx := mkLexer (c :: r) start in
     skipWs (l_rest lx) = c :: r -> lexNext lx = tok ty text (start + 0) n (c :: r))) ->
  lexes N (c :: r) ty text (drop n (c :: r)).
Proof.
  intros Ha Hs Hn Hl. unfold lexes, lexAt at 1.
  rewrite Hl by (simpl; by rewrite isSpace_ascii, Hs by done).
  unfold tok, lexAt. rewrite length_drop. f_equal; f_equal; lia.
Qed.

Ltac front :=
  intros start lx Hs; unfold lexNext; rewrite Hs; simpl length; rewrite Nat.sub_diag; reflexivity.

Lemma lexes_lparen N r : lexes N (40%Z :: r) TokLParen (qs "(") r.
Proof. apply (lexes_front N 40 r TokLParen (qs "(") 1); [done|done|simpl; lia|front]. Qed.

Lemma lexes_rparen N r : lexes N (41%Z :: r) TokRParen (qs ")") r.
Proof. apply (lexes_front N 41 r TokRParen (qs ")") 1); [done|done|simpl; lia|front]. Qed.

Lemma lexes_and N r : lexes N (qs "&&" ++ r) TokAnd (qs "&&") r.
Proof. apply (lexes_front N 38 (38%Z :: r) TokAnd (qs "&&") 2); [done|done|simpl; lia|front]. Qed.

Lemma lexes_or N r : lexes N (qs "||" ++ r) TokOr (qs "||") r.
Proof. apply (lexes_front N 124 (124%Z :: r) TokOr (qs "||") 2); [done|done|simpl; lia|front]. Qed.

Lemma lexes_not N r : lexes N (33%Z :: 40%Z :: r) TokNot (qs "!") (40%Z :: r).
Proof. apply (lexes_front N 33 (40%Z :: r) TokNot (qs "!") 1); [done|done|simpl; lia|front]. Qed.

Lemma lexes_op N op r : lexes N (opText op ++ 34%Z :: r) TokOp (opText op) (34%Z :: r).
Proof.
  destruct op; simpl.
  - apply (lexes_front N 58 (34%Z :: r) TokOp (qs ":") 1); [done|done|simpl; lia|front].
  - apply (lexes_front N 61 (34%Z :: r) TokOp (qs "=") 1); [done|done|simpl; lia|front].
  - apply (lexes_front N 33 (61%Z :: 34%Z :: r) TokOp (qs "!=") 2); [done|done|simpl; lia|front].
  - apply (lexes_front N 126 (34%Z :: r) TokOp (qs "~") 1); [done|done|simpl; lia|front].
  - apply (lexes_front N 60 (34%Z :: r) TokOp (qs "<") 1); [done|done|simpl; lia|front].
  - apply (lexes_front N 60 (61%Z :: 34%Z :: r) TokOp (qs "<=") 2); [done|done|simpl; lia|front].
  - apply (lexes_front N 62 (34%Z :: r) TokOp (qs ">") 1); [done|done|simpl; lia|front].
  - apply (lexes_front N 62 (61%Z :: 34%Z :: r) TokOp (qs ">=") 2); [done|done|simpl; lia|front].
Qed.

Lemma scanQuoted_escape t r : scanQuoted 34 (escapeText t ++ 34%Z :: r) = (t, 34%Z :: r).
Proof.
  induction t as [|c t IH]; simpl; [done|].
  destruct (Z.eqb_spec c 34) as [->|Hq]; simpl; [by rewrite IH|].
  destruct (Z.eqb_spec c 92) as [->|Hb]; simpl; [by rewrite IH|].
  rewrite (proj2 (Z.eqb_neq c 34)), (proj2 (Z.eqb_neq c 92)), IH by done. done.
Qed.

Lemma lexes_quoted N t r : lexes N (quoteText t ++ r) TokString t r.
Proof.
  unfold quoteText. simpl. rewrite <- app_assoc. simpl.
  pose proof (lexes_front N 34 (escapeText t ++ 34%Z :: r) TokString t (S (length (escapeText t) + 1))) as Hl.
  replace (drop _ _) with r in Hl.
  - apply Hl; [done|done|simpl; rewrite length_app; simpl; lia|].
    intros start lx Hs. unfold lexNext. rewrite Hs. simpl length. rewrite Nat.sub_diag. simpl.
    rewrite scanQuoted_escape. f_equal. rewrite length_app. simpl. lia.
  - simpl. rewrite Nat.add_comm. simpl. symmetry.
    replace (S (length (escapeText t))) with (length (escapeText t ++ [34%Z])) by (rewrite length_app; simpl; lia).
    change (34%Z :: r) with ([34%Z] ++ r). rewrite app_assoc. apply drop_app_length.
Qed.

Lemma fieldName_lower f : toLower (fieldName f) = fieldName f.
Proof. destruct f; (rewrite toLower_ascii; [reflexivity|repeat constructor; unfold isAscii; lia]). Qed.

Lemma fieldLookup_name f : fieldLookup (fieldName f) = Some (f, isNumericField f).
Proof. by destruct f; vm_compute. Qed.

Lemma wordStop_ascii c : isAscii c -> wordStop c = ascii_isSpace c || bool_decide (c ∈ qs "()<>=!~:&|").
Proof. intros. unfold wordStop. by rewrite isSpace_ascii. Qed.

Lemma scanWord_field f op r :
  scanWord (fieldName f ++ opText op ++ r) = (fieldName f, opText op ++ r).
Proof.
  assert (Hstop : scanWord (opText op ++ r) = ([], opText op ++ r)).
  { destruct op; simpl; (rewrite wordStop_ascii by (unfold isAscii; lia)); reflexivity. }
  assert (Hword : Forall (fun c => isAscii c /\ ascii_isSpace c || bool_decide (c ∈ qs "()<>=!~:&|") = false)
    (fieldName f)) by (destruct f; repeat constructor; done).
  induction (fieldName f) as [|c w IH]; simpl; [done|].
  inversion_clear Hword as [|?? [Hc Hs]]. rewrite wordStop_ascii, Hs by done. by rewrite IH.
Qed.

Lemma lexes_field N f op r :
  lexes N (fieldName f ++ opText op ++ r) TokIdent (fieldName f) (opText op ++ r).
Proof.
  pose proof (scanWord_field f op r) as Hw. pose proof (fieldName_lower f) as Hlow.
  destruct (fieldName f) as [|c w] eqn:Ef; [by destruct f|].
  pose proof (lexes_front N c (w ++ opText op ++ r) TokIdent (c :: w) (length (c :: w))) as Hl.
  change (drop (length (c :: w)) _) with (drop (length (c :: w)) ((c :: w) ++ opText op ++ r)) in Hl.
  rewrite drop_app_length in Hl. apply Hl.
  - destruct f; injection Ef as <- <-; unfold isAscii; lia.
  - destruct f; by injection Ef as <- <-.
  - simpl. rewrite length_app. lia.
  - intros start lx Hs. unfold lexNext. rewrite Hs. simpl length. rewrite Nat.sub_diag.
    simpl app in Hw. rewrite Hw, Hlow.
    clear Hw Hlow Hl Hs. destruct f; injection Ef as <- <-; reflexivity.
Qed.

(* ------------------------------------------------------------------ *)
(** ** Parsing what was printed *)

(** What may follow a complete expression: the end or a closing parenthesis. *)
Definition stops (rest : QString) : Prop := rest = [] \/ exists r, rest = 41%Z :: r.

Lemma stAt_stops N rest ty :
  stops rest -> ty <> TokEnd -> ty <> TokRParen -> tokIs (stAt N rest) ty = false.
Proof.
  intros [->|[r ->]] He Hr.
  - unfold stAt, stateAt, tokIs. simpl. by destruct ty.
  - destruct (lexes_state _ _ _ _ _ (lexes_rparen N r)) as (Hc & _).
    unfold tokIs. rewrite Hc. by destruct ty.
Qed.

Lemma tokIs_lexes N s ty ty' text rest :
  lexes N s ty text rest -> tokIs (stAt N s) ty' = true <-> ty = ty'.
Proof. intros Hl. destruct (lexes_state _ _ _ _ _ Hl) as (Hc & _). rewrite tokIs_type, Hc. done. Qed.

Lemma tokIs_lexes_ne N s ty ty' text rest :
  lexes N s ty text rest -> ty <> ty' -> tokIs (stAt N s) ty' = false.
Proof. intros Hl Hne. apply not_true_iff_false. by rewrite (tokIs_lexes _ _ _ _ _ _ Hl). Qed.

Lemma whileBin_skip ty mk operand fuel lhs st :
  tokIs st ty = false -> whileBin ty mk operand fuel lhs st = (lhs, st).
Proof. intros Ht. destruct fuel; simpl; [done|]. by rewrite Ht, andb_false_r. Qed.

Lemma parseAnd_of_not j st e st' :
  parseNot j st = (e, st') -> tokIs st' TokAnd = false -> parseAnd (S j) st = (e, st').
Proof. intros Hp Ht. rewrite parseAnd_S, Hp. by apply whileBin_skip. Qed.

Lemma parseOr_of_and j st e st' :
  parseAnd j st = (e, st') -> tokIs st' TokOr = false -> parseOr (S j) st = (e, st').
Proof. intros Hp Ht. rewrite parseOr_S, Hp. by apply whileBin_skip. Qed.

Lemma parseNot_parens N j s rest e :
  parseOr j (stAt N (s ++ 41%Z :: rest)) = (Some e, stAt N (41%Z :: rest)) ->
  parseNot (S (S j)) (stAt N (parens s ++ rest)) = (Some e, stAt N rest).
Proof.
  intros Hp. unfold parens. cbn [app]. rewrite <- app_assoc. cbn [app].
  pose proof (lexes_lparen N (s ++ 41%Z :: rest)) as Hl.
  rewrite parseNot_S, (tokIs_lexes_ne _ _ _ _ _ _ Hl) by done.
  rewrite parseAtom_S, (proj2 (tokIs_lexes _ _ _ TokLParen _ _ Hl)) by done.
  destruct (lexes_state _ _ _ _ _ Hl) as (_ & _ & _ & ->). rewrite Hp.
  pose proof (lexes_rparen N rest) as Hr.
  rewrite (proj2 (tokIs_lexes _ _ _ TokRParen _ _ Hr)) by done. simpl.
  by destruct (lexes_state _ _ _ _ _ Hr) as (_ & _ & _ & ->).
Qed.

(** One round of an operator loop, then the loop ends at [rest]. *)
Lemma whileBin_once N ty mk operand text lhs rhs s rest :
  stops rest -> ty <> TokEnd -> ty <> TokRParen ->
  lexes N (text ++ s) ty text s -> operand (stAt N s) = (rhs, stAt N rest) ->
  whileBin ty mk operand (loopFuel (stAt N (text ++ s))) lhs (stAt N (text ++ s))
    = (Some (mk lhs rhs), stAt N rest).
Proof.
  intros Hst Hne1 Hne2 Hl Hop. unfold loopFuel. cbn [whileBin].
  rewrite (proj2 (tokIs_lexes _ _ _ ty _ _ Hl)) by done.
  destruct (lexes_state _ _ _ _ _ Hl) as (_ & _ & -> & ->). simpl. rewrite Hop.
  apply whileBin_skip. by apply stAt_stops.
Qed.

Lemma opOfText_opText op : opOfText (opText op) = Some op.
Proof. by destruct op. Qed.

Lemma buildPredicate_print p oP vP :
  pred_ok p ->
  buildPredicate (fieldName (p_field p)) (p_field p, isNumericField (p_field p)) (p_op p)
    (p_textValue p) oP vP = inl p.
Proof.
  intros [Hn Hv Hnan Ho Hrx Hrv]. unfold buildPredicate. rewrite <- Hn.
  assert (p_hasNumeric p && disnan (parseNumeric (p_textValue p)) = false) as ->.
  { destruct (p_hasNumeric p); [|done]. rewrite <- Hv. by apply Hnan. }
  assert ((match p_op p with OpRegex => true | _ => false end) && negb (rxIsValid (p_textValue p)) = false) as ->.
  { destruct (p_op p); try done. by rewrite Hrv. }
  assert (isOrderOp (p_op p) && negb (p_hasNumeric p) = false) as ->.
  { destruct (isOrderOp (p_op p)); [by rewrite Ho|done]. }
  f_equal. destruct p as [f op t n h rx]. simpl in *. subst. f_equal. by destruct op.
Qed.

Lemma parsePredicate_print N p rest :
  pred_ok p ->
  parsePredicate (stAt N (printExpr (EPred p) ++ rest)) = (Some (EPred p), stAt N rest).
Proof.
  intros Hok. cbn [printExpr]. rewrite <- !app_assoc.
  pose proof (lexes_field N (p_field p) (p_op p) (quoteText (p_textValue p) ++ rest)) as Hf.
  destruct (lexes_state _ _ _ _ _ Hf) as (Hc1 & _ & _ & Ha1).
  pose proof (lexes_op N (p_op p) (escapeText (p_textValue p) ++ [34%Z] ++ rest)) as Ho.
  replace (34%Z :: escapeText (p_textValue p) ++ [34%Z] ++ rest)
    with (quoteText (p_textValue p) ++ rest) in Ho
    by (unfold quoteText; simpl; by rewrite <- app_assoc).
  destruct (lexes_state _ _ _ _ _ Ho) as (Hc2 & _ & _ & Ha2).
  pose proof (lexes_quoted N (p_textValue p) rest) as Hq.
  destruct (lexes_state _ _ _ _ _ Hq) as (Hc3 & _ & _ & Ha3).
  unfold parsePredicate. cbv zeta.
  rewrite (proj2 (tokIs_lexes _ _ _ TokIdent _ _ Hf)), Hc1 by done. cbn [negb tk_text tk_pos].
  rewrite fieldName_lower, fieldLookup_name, Ha1.
  rewrite (proj2 (tokIs_lexes _ _ _ TokOp _ _ Ho)), Hc2 by done. cbn [negb tk_text tk_pos].
  rewrite opOfText_opText, Ha2.
  rewrite (proj2 (tokIs_lexes _ _ _ TokString _ _ Hq)), Hc3, andb_false_r by done.
  cbn [tk_text tk_pos]. by rewrite buildPredicate_print, Ha3.
Qed.

Lemma parseOr_print N e k rest :
  expr_ok e -> parseCost e <= k -> stops rest ->
  parseOr k (stAt N (printExpr e ++ rest)) = (Some e, stAt N rest).
Proof.
  revert N k rest.
  assert (Hparen : forall c, (forall N k rest, expr_ok c -> parseCost c <= k -> stops rest ->
      parseOr k (stAt N (printExpr c ++ rest)) = (Some c, stAt N rest)) ->
    expr_ok c -> forall N j rest, parseCost c <= j ->
    parseNot (S (S j)) (stAt N (parens (printExpr c) ++ rest)) = (Some c, stAt N rest)).
  { intros c IH Hok N j rest Hj. apply parseNot_parens. apply IH; [done|done|]. right. eauto. }
  induction e as [p|c IHc|l r IHl IHr|l r IHl IHr] using Expr_nested_ind;
    intros N k rest Hok Hk Hst; cbn [parseCost] in Hk.
  - destruct k as [|[|[|[|k]]]]; try lia.
    pose proof (lexes_field N (p_field p) (p_op p) (quoteText (p_textValue p) ++ rest)) as Hf.
    apply parseOr_of_and; [apply parseAnd_of_not|]; [|by apply stAt_stops..].
    rewrite parseNot_S, parseAtom_S. cbn [printExpr]. rewrite <- !app_assoc.
    rewrite !(tokIs_lexes_ne _ _ _ _ _ _ Hf) by done.
    rewrite !app_assoc, <- (app_assoc (fieldName _)). by apply parsePredicate_print.
  - destruct c as [c|]; [|done]. destruct k as [|[|[|[|[|k]]]]]; try lia.
    apply parseOr_of_and; [apply parseAnd_of_not|]; [|by apply stAt_stops..].
    cbn [printExpr]. rewrite parseNot_S. unfold parens. simpl app.
    pose proof (lexes_not N ((printExpr c ++ [41%Z]) ++ rest)) as Hl.
    rewrite (proj2 (tokIs_lexes _ _ _ TokNot _ _ Hl)) by done.
    destruct (lexes_state _ _ _ _ _ Hl) as (_ & _ & _ & ->).
    change (40%Z :: (printExpr c ++ [41%Z]) ++ rest) with (parens (printExpr c) ++ rest).
    rewrite (Hparen c); [done|by apply IHc|done|lia].
  - destruct l as [l|], r as [r|]; try done. destruct Hok as [Hl Hr].
    destruct k as [|[|[|[|k]]]]; try lia. cbn [printExpr]. rewrite <- !app_assoc.
    apply parseOr_of_and; [|by apply stAt_stops]. rewrite parseAnd_S.
    rewrite (Hparen l) by (try apply IHl; auto; lia).
    apply whileBin_once; try done; [apply lexes_and|].
    apply (Hparen r); [by apply IHr|done|lia].
  - destruct l as [l|], r as [r|]; try done. destruct Hok as [Hl Hr].
    destruct k as [|[|[|[|k]]]]; try lia. cbn [printExpr]. rewrite <- !app_assoc.
    rewrite parseOr_S. erewrite (parseAnd_of_not _ _ (Some l)).
    2: { apply (Hparen l); [by apply IHl|done|lia]. }
    2: { by apply (tokIs_lexes_ne _ _ _ _ _ _ (lexes_or N _)). }
    apply whileBin_once; try done; [apply lexes_or|].
    apply parseAnd_of_not; [apply (Hparen r); [by apply IHr|done|lia]|by apply stAt_stops].
Qed.

Lemma parse_printed e :
  expr_ok e -> parseCost e <= kMaxExprDepth ->
  parse (printExpr e) = mkParseResult (Some e) [] (-1).
Proof.
  intros Hok Hc. pose proof (parseOr_print (Z.of_nat (length (printExpr e))) e kMaxExprDepth [] Hok Hc
    ltac:(by left)) as Hp. rewrite app_nil_r in Hp.
  assert (Hst : stAt (Z.of_nat (length (printExpr e))) (printExpr e) = stateAt (printExpr e) 0)
    by (unfold stAt; by rewrite Z.sub_diag).
  rewrite Hst in Hp. unfold parse.
  destruct (tokIs (stateAt (printExpr e) 0) TokEnd) eqn:Et; [|by rewrite Hp].
  exfalso. rewrite <- Hst in Et. apply tokIs_type in Et. revert Et.
  generalize (Z.of_nat (length (printExpr e))) as N. intros N. clear Hp Hst Hc.
  assert (Hgen : forall s ty text rest, lexes N s ty text rest -> ty <> TokEnd ->
    tk_type (m_cur (stAt N s)) = TokEnd -> False).
  { intros s ty text rest Hl Hne. by destruct (lexes_state _ _ _ _ _ Hl) as (-> & _). }
  destruct e as [p|[c|]|[l|] [r|]|[l|] [r|]]; try done; cbn [printExpr]; unfold parens; simpl app;
    (eapply Hgen; [first [apply lexes_field|apply lexes_not|apply lexes_lparen]|done]).
Qed.
End Print.

(* ------------------------------------------------------------------ *)
(** ** Witnesses *)

(** [proto:"tcp"] and not [dport>="1k"] *)
Definition sampleExpr : Expr :=
  EAnd (Some (EPred (protoPred (qs "tcp"))))
       (Some (ENot (Some (EPred (mkPredicate FDport OpGe (qs "1k") (dofZ 1000) true []))))).

