(* ===== verification/Resolver.v ===== *)
(** * Attribution resolvers: [ProcessResolver.h], [CompositeResolver.h], [Attribution.cpp]

    The abstract resolver is a record of operations over a state [S] that
    stands for everything a resolver can observe or change (its caches, the
    process table, the clock): the children of a composite act on the same
    state.  [attributeFlows] is the batch pass with its per-(pid, starttime)
    memo tables. *)

From S2P Require Import Prelude Qt Conn.

(* ------------------------------------------------------------------ *)
(** ** Tuning presets *)

Inductive AttributionEagerness := EagerOff | Balanced | Eager.

#[global] Instance AttributionEagerness_eq_dec : EqDecision AttributionEagerness.
Proof. solve_decision. Defined.

Record ResolverTuning := mkTuning {
  cacheRefreshMs : Z;
  containerCacheMs : Z;
  netnsRefreshMs : Z;
  deepQueueMax : Z;
  deepBatchMax : Z;
  deepCoalesceMs : Z;
  deepMaxAttempts : Z;
  deepDemandNetnsScan : bool;
}.

#[global] Instance ResolverTuning_eq_dec : EqDecision ResolverTuning.
Proof. solve_decision. Defined.

Definition balancedResolverTuning : ResolverTuning :=
  mkTuning 1000 2000 5000 8192 256 100 12 false.

Definition eagerResolverTuning : ResolverTuning :=
  mkTuning 250 1000 1000 8192 2048 50 12 true.

Definition offResolverTuning : ResolverTuning :=
  mkTuning 0 0 0 8192 256 100 12 false.

Definition set_cacheRefresh (cache container : Z) (t : ResolverTuning) : ResolverTuning :=
  mkTuning cache container (netnsRefreshMs t) (deepQueueMax t) (deepBatchMax t)
    (deepCoalesceMs t) (deepMaxAttempts t) (deepDemandNetnsScan t).

Definition set_netnsRefresh (netns : Z) (t : ResolverTuning) : ResolverTuning :=
  mkTuning (cacheRefreshMs t) (containerCacheMs t) netns (deepQueueMax t) (deepBatchMax t)
    (deepCoalesceMs t) (deepMaxAttempts t) (deepDemandNetnsScan t).

Definition resolverTuningFor (eagerness : AttributionEagerness)
    (cacheRefreshOverrideMs netnsRefreshOverrideMs : Z) : ResolverTuning :=
  let override t :=
    let t := if (0 <? cacheRefreshOverrideMs)%Z
             then set_cacheRefresh cacheRefreshOverrideMs cacheRefreshOverrideMs t else t in
    if (0 <? netnsRefreshOverrideMs)%Z then set_netnsRefresh netnsRefreshOverrideMs t else t in
  match eagerness with
  | EagerOff => offResolverTuning
  | Balanced => override balancedResolverTuning
  | Eager => override eagerResolverTuning
  end.

Definition eagernessToString (mode : AttributionEagerness) : QString :=
  match mode with
  | EagerOff => qs "off" | Balanced => qs "balanced" | Eager => qs "eager"
  end.

Definition eagernessFromString `{QtUnicode} (s : QString) : option AttributionEagerness :=
  let t := toLower (trimmed s) in
  if qeqb t (qs "off") then Some EagerOff
  else if qeqb t (qs "balanced") then Some Balanced
  else if qeqb t (qs "eager") then Some Eager
  else None.

(* ------------------------------------------------------------------ *)
(** ** The resolver interface *)

Record Resolver (S : Type) := mkResolver {
  r_initialize : S -> bool * S;
  r_capabilities : S -> list QString;
  r_setTuning : ResolverTuning -> S -> S;
  r_requestDeepScan : S -> S;
  r_resolvePid : Connection -> S -> Z * S;
  r_enrichPid : Z -> S -> option ProcessInfo * S;
  r_resolveContainerForPid : Z -> S -> option ContainerInfo * S;
  r_resolveContainerChainForPid : Z -> S -> list ContainerInfo * S;
}.

Arguments mkResolver {S}.
Arguments r_initialize {S}. Arguments r_capabilities {S}. Arguments r_setTuning {S}.
Arguments r_requestDeepScan {S}. Arguments r_resolvePid {S}. Arguments r_enrichPid {S}.
Arguments r_resolveContainerForPid {S}. Arguments r_resolveContainerChainForPid {S}.

(** The virtual methods with a default body. *)
Definition resolveFlow {S} (r : Resolver S) (flow : Connection) (s : S) : option ProcessInfo * S :=
  let '(pid, s) := r_resolvePid r flow s in
  if (pid <=? 0)%Z then (None, s) else r_enrichPid r pid s.

Definition defaultChainForPid {S} (container : Z -> S -> option ContainerInfo * S) (pid : Z) (s : S)
    : list ContainerInfo * S :=
  let '(ci, s) := container pid s in
  match ci with Some c => ([c], s) | None => ([], s) end.

(* ------------------------------------------------------------------ *)
(** ** [CompositeResolver] *)

Section Composite.
Context {S : Type}.

(** The loop shared by the lookups: ask the children in order, stop at the
    first answer that [hit] accepts. *)
Fixpoint firstHit {A} (hit : A -> bool) (none : A) (ask : Resolver S -> S -> A * S)
    (children : list (Resolver S)) (s : S) : A * S :=
  match children with
  | [] => (none, s)
  | c :: rest =>
      let '(a, s) := ask c s in
      if hit a then (a, s) else firstHit hit none ask rest s
  end.

Definition isSome {A} (o : option A) : bool := match o with Some _ => true | None => false end.

Definition addToken (out : list QString) (tok : QString) : list QString :=
  if bool_decide (tok ∈ out) then out else out ++ [tok].

Definition compositeAdd (child : option (Resolver S)) (children : list (Resolver S)) : list (Resolver S) :=
  match child with Some c => children ++ [c] | None => children end.

Fixpoint compositeInit (children : list (Resolver S)) (anyReady : bool) (s : S) : bool * S :=
  match children with
  | [] => (anyReady, s)
  | c :: rest => let '(b, s) := r_initialize c s in compositeInit rest (anyReady || b) s
  end.

Definition CompositeResolver (children : list (Resolver S)) : Resolver S := {|
  r_initialize s := compositeInit children false s;
  r_capabilities s :=
    foldl (fun out c => foldl addToken out (r_capabilities c s)) [] children;
  r_setTuning t s := foldl (fun s c => r_setTuning c t s) s children;
  r_requestDeepScan s := foldl (fun s c => r_requestDeepScan c s) s children;
  r_resolvePid flow s := firstHit (fun p => (0 <? p)%Z) 0%Z (fun c => r_resolvePid c flow) children s;
  r_enrichPid pid s := firstHit isSome None (fun c => r_enrichPid c pid) children s;
  r_resolveContainerForPid pid s :=
    firstHit isSome None (fun c => r_resolveContainerForPid c pid) children s;
  r_resolveContainerChainForPid pid s :=
    firstHit (fun l => negb (isEmpty l)) [] (fun c => r_resolveContainerChainForPid c pid) children s;
|}.

(** The state after asking every child of a list. *)
Definition askAll {A} (ask : Resolver S -> S -> A * S) (cs : list (Resolver S)) (s : S) : S :=
  foldl (fun s c => snd (ask c s)) s cs.

(** The result of the loop is the first accepted answer, and the children
    after the one that answered are not asked. *)
Lemma firstHit_spec {A} (hit : A -> bool) none (ask : Resolver S -> S -> A * S) children s a s' :
  firstHit hit none ask children s = (a, s') ->
  (exists l c r, children = l ++ c :: r /\ ask c (askAll ask l s) = (a, s') /\ hit a = true /\
     forall i d, l !! i = Some d -> hit (fst (ask d (askAll ask (take i l) s))) = false) \/
  (a = none /\ s' = askAll ask children s /\
     forall i d, children !! i = Some d -> hit (fst (ask d (askAll ask (take i children) s))) = false).
Proof.
  revert s. induction children as [|c cs IH]; intros s; simpl; [intros [= <- <-]; by right|].
  destruct (ask c s) as [x s1] eqn:Ea. destruct (hit x) eqn:Eh.
  - intros [= <- <-]. left. exists [], c, cs. simpl. by rewrite Ea.
  - intros Hf. assert (Hc : forall l i d, (forall i d, l !! i = Some d ->
        hit (fst (ask d (askAll ask (take i l) s1))) = false) ->
      (c :: l) !! i = Some d -> hit (fst (ask d (askAll ask (take i (c :: l)) s))) = false).
    { intros l [|i] d Hl Hi; simpl in *; simplify_eq; [by rewrite Ea|]. rewrite Ea. by apply Hl. }
    destruct (IH s1 Hf) as [(l & d & r & -> & ? & ? & Hl)|(-> & -> & Hl)].
    + left. exists (c :: l), d, r. simpl. rewrite Ea. simpl. repeat split; auto.
    + right. repeat split; auto.
Qed.

Lemma addToken_spec out toks :
  NoDup out -> NoDup (foldl addToken out toks) /\
  forall t, t ∈ foldl addToken out toks <-> t ∈ out \/ t ∈ toks.
Proof.
  revert out. induction toks as [|k toks IH]; intros out Hnd; simpl; [set_solver|].
  unfold addToken at 2 4. case_bool_decide as Hin.
  - destruct (IH out Hnd) as [H1 H2]. split; [done|]. intros t. rewrite H2. set_solver.
  - destruct (IH (out ++ [k])) as [H1 H2]; [apply NoDup_app; split; [done|]; split; [set_solver|apply NoDup_singleton]|].
    split; [done|]. intros t. rewrite H2. set_solver.
Qed.
End Composite.

(** A composite answers a pid query with its children in order of
    priority: the result is the first positive answer, obtained after asking
    exactly the children before it (each of which had none), and the
    children behind it are not asked; with no positive answer it is 0. *)
Theorem composite_resolvePid_first {S} (children : list (Resolver S)) flow s pid s' :
  r_resolvePid (CompositeResolver children) flow s = (pid, s') ->
  let ask := fun c => r_resolvePid c flow in
  let declined l := forall i d, l !! i = Some d ->
    (fst (r_resolvePid d flow (askAll ask (take i l) s)) <= 0)%Z in
  (exists l c r, children = l ++ c :: r /\ declined l /\ (0 < pid)%Z /\
     r_resolvePid c flow (askAll ask l s) = (pid, s')) \/
  (pid = 0%Z /\ declined children /\ s' = askAll ask children s).
Proof.
  intros Hc ask declined.
  destruct (firstHit_spec _ _ _ _ _ _ _ Hc) as [(l & c & r & ? & ? & ? & Hl)|(? & ? & Hl)].
  - left. exists l, c, r. repeat split; auto; [|blia]. intros i d Hi. by apply Z.ltb_ge, Hl.
  - right. repeat split; auto. intros i d Hi. by apply Z.ltb_ge, Hl.
Qed.

Lemma foldl_capabilities {S} (children : list (Resolver S)) s out :
  NoDup out ->
  let caps := foldl (fun out c => foldl addToken out (r_capabilities c s)) out children in
  NoDup caps /\ forall t, t ∈ caps <-> t ∈ out \/ exists c, c ∈ children /\ t ∈ r_capabilities c s.
Proof.
  revert out. induction children as [|c cs IH]; intros out Hnd; simpl; [set_solver|].
  destruct (addToken_spec out (r_capabilities c s) Hnd) as [H1 H2].
  destruct (IH _ H1) as [H3 H4]. split; [done|]. intros t. rewrite H4, H2. set_solver.
Qed.

(** The capability list a composite advertises is the union of its
    children's tokens, each token once. *)
Theorem composite_capabilities_union {S} (children : list (Resolver S)) s :
  NoDup (r_capabilities (CompositeResolver children) s) /\
  forall t, t ∈ r_capabilities (CompositeResolver children) s <->
    exists c, c ∈ children /\ t ∈ r_capabilities c s.
Proof.
  destruct (foldl_capabilities children s [] (NoDup_nil_2)) as [H1 H2].
  split; [exact H1|]. intros t. simpl. rewrite H2. set_solver.
Qed.

(** Two children over a pair of fixed answers. *)
Definition fixedResolver (pid : Z) (caps : list QString) : Resolver unit := {|
  r_initialize s := (true, s);
  r_capabilities _ := caps;
  r_setTuning _ s := s;
  r_requestDeepScan s := s;
  r_resolvePid _ s := (pid, s);
  r_enrichPid _ s := (None, s);
  r_resolveContainerForPid _ s := (None, s);
  r_resolveContainerChainForPid _ s := ([], s);
|}.

Lemma composite_resolvePid_first_witness :
  exists l c r, [fixedResolver 0 []; fixedResolver 42 []; fixedResolver 7 []] = l ++ c :: r /\
    r_resolvePid c sampleTcp tt = (42%Z, tt).
Proof.
  destruct (composite_resolvePid_first [fixedResolver 0 []; fixedResolver 42 []; fixedResolver 7 []]
    sampleTcp tt 42 tt eq_refl) as [(l & c & r & Heq & _ & _ & Hc)|(Hz & _)]; [|discriminate Hz].
  exists l, c, r. split; [exact Heq|]. destruct (askAll _ l tt). exact Hc.
Defined.
