(* ===== verification/Attribution.v ===== *)
(** * The attribution pass: [src/backend/Attribution.cpp]

    [attributeFlows] walks a snapshot, resolves a pid per flow and fills the
    process, container and chain fields through three memo tables keyed by
    (pid, starttime).  The resolver and the starttime probe act on a common
    state, so a pid recycled in the middle of a pass can be expressed. *)

From S2P Require Import Prelude Qt Conn Resolver.

Abbreviation PidKey := (Z * Z)%type.

Record AttrMemo := mkMemo {
  processByPid : gmap PidKey ProcessInfo;
  containerByPid : gmap PidKey ContainerInfo;
  chainByPid : gmap PidKey (list ContainerInfo);
}.

Definition emptyMemo : AttrMemo := mkMemo ∅ ∅ ∅.

Section Attribute.
Context {S : Type} (resolver : Resolver S).
(** [startTimeOf]: the injected probe, or [/proc/<pid>/stat]; 0 when the pid
    is gone. *)
Context (startTimeOf : S -> Z -> Z).
Context (wantContainerChain : bool).

(** The three memoised lookups of the loop body. *)
Definition memoProcess (k : PidKey) (m : AttrMemo) (s : S) : ProcessInfo * AttrMemo * S :=
  match processByPid m !! k with
  | Some info => (info, m, s)
  | None =>
      let '(pi, s) := r_enrichPid resolver (fst k) s in
      let info := match pi with
                  | Some p => if processValid p then p else noProcess
                  | None => noProcess
                  end in
      (info, mkMemo (<[k := info]> (processByPid m)) (containerByPid m) (chainByPid m), s)
  end.

Definition memoContainer (k : PidKey) (m : AttrMemo) (s : S) : ContainerInfo * AttrMemo * S :=
  match containerByPid m !! k with
  | Some ci => (ci, m, s)
  | None =>
      let '(found, s) := r_resolveContainerForPid resolver (fst k) s in
      let ci := match found with Some c => c | None => noContainer end in
      (ci, mkMemo (processByPid m) (<[k := ci]> (containerByPid m)) (chainByPid m), s)
  end.

Definition memoChain (k : PidKey) (m : AttrMemo) (s : S) : list ContainerInfo * AttrMemo * S :=
  match chainByPid m !! k with
  | Some ch => (ch, m, s)
  | None =>
      let '(ch, s) := r_resolveContainerChainForPid resolver (fst k) s in
      (ch, mkMemo (processByPid m) (containerByPid m) (<[k := ch]> (chainByPid m)), s)
  end.

(** The loop body for one flow. *)
Definition attributeFlow (c : Connection) (m : AttrMemo) (s : S) : Connection * AttrMemo * S :=
  let '(pid, s) := r_resolvePid resolver c s in
  if (pid <=? 0)%Z then (c, m, s)
  else
    let k := (pid, startTimeOf s pid) in
    let '(info, m, s) := memoProcess k m s in
    let c := set_process info c in
    if negb (processValid info) then (c, m, s)
    else
      let '(ci, m, s) := memoContainer k m s in
      let c := set_container ci c in
      if wantContainerChain then
        let '(ch, m, s) := memoChain k m s in (set_chain ch c, m, s)
      else (c, m, s).

Fixpoint attributeLoop (flows : list Connection) (m : AttrMemo) (s : S)
    : list Connection * AttrMemo * S :=
  match flows with
  | [] => ([], m, s)
  | c :: rest =>
      let '(c', m, s) := attributeFlow c m s in
      let '(rest', m, s) := attributeLoop rest m s in
      (c' :: rest', m, s)
  end.
End Attribute.

(** [attributeFlows(flows, resolver, opts)]; a null resolver is a no-op. *)
Definition attributeFlows {S} (resolver : option (Resolver S)) (startTimeOf : S -> Z -> Z)
    (wantContainerChain : bool) (flows : list Connection) (s : S) : list Connection * S :=
  match resolver with
  | None => (flows, s)
  | Some r =>
      let '(out, _, s) := attributeLoop r startTimeOf wantContainerChain flows emptyMemo s in
      (out, s)
  end.

(* ------------------------------------------------------------------ *)
(** ** What is served was answered for the same process *)

Section Served.
Context {S : Type} (r : Resolver S) (startTimeOf : S -> Z -> Z) (want : bool).

(** States a pass can visit: each step is one resolver call. *)
Inductive visits (s0 : S) : S -> Prop :=
| visits_refl : visits s0 s0
| visits_pid s c : visits s0 s -> visits s0 (snd (r_resolvePid r c s))
| visits_enrich s pid : visits s0 s -> visits s0 (snd (r_enrichPid r pid s))
| visits_container s pid : visits s0 s -> visits s0 (snd (r_resolveContainerForPid r pid s))
| visits_chain s pid : visits s0 s -> visits s0 (snd (r_resolveContainerChainForPid r pid s)).

(** Within one turn of the loop, after the starttime of [pid] was read. *)
Inductive turn (pid : Z) (s : S) : S -> Prop :=
| turn_read : turn pid s s
| turn_enrich s' : turn pid s s' -> turn pid s (snd (r_enrichPid r pid s'))
| turn_container s' : turn pid s s' -> turn pid s (snd (r_resolveContainerForPid r pid s')).

Definition validOr (o : option ProcessInfo) : ProcessInfo :=
  match o with Some p => if processValid p then p else noProcess | None => noProcess end.

(** Answers the resolver gave during the pass from [s0], in a turn that read
    the starttime [t] for [pid]. *)
Definition answered {A} (s0 : S) (k : PidKey) (ask : S -> A) (a : A) : Prop :=
  exists s s', visits s0 s /\ startTimeOf s (fst k) = snd k /\ turn (fst k) s s' /\ ask s' = a.

Definition askProcess (pid : Z) (s : S) : ProcessInfo := validOr (fst (r_enrichPid r pid s)).
Definition askContainer (pid : Z) (s : S) : ContainerInfo :=
  default noContainer (fst (r_resolveContainerForPid r pid s)).
Definition askChain (pid : Z) (s : S) : list ContainerInfo :=
  fst (r_resolveContainerChainForPid r pid s).

(** The memo tables hold only such answers. *)
Definition memo_ok (s0 : S) (m : AttrMemo) : Prop :=
  map_Forall (fun k a => answered s0 k (askProcess (fst k)) a) (processByPid m) /\
  map_Forall (fun k a => answered s0 k (askContainer (fst k)) a) (containerByPid m) /\
  map_Forall (fun k a => answered s0 k (askChain (fst k)) a) (chainByPid m).

(** [c'] is [c] with attribution answered for the pid its lookup returned. *)
Definition attributed (s0 : S) (c c' : Connection) : Prop :=
  exists s, visits s0 s /\
  let '(pid, s') := r_resolvePid r c s in
  let k := (pid, startTimeOf s' pid) in
  if (pid <=? 0)%Z then c' = c
  else exists info, answered s0 k (askProcess pid) info /\
    if processValid info then
      exists ci, answered s0 k (askContainer pid) ci /\
      exists ch, (if want then answered s0 k (askChain pid) ch else ch = c_containerChain c) /\
      c' = set_chain ch (set_container ci (set_process info c))
    else c' = set_process info c.

Lemma visits_trans s0 s1 s2 : visits s0 s1 -> visits s1 s2 -> visits s0 s2.
Proof. intros H01. induction 1; eauto using visits. Qed.

Lemma turn_visits pid s s' : turn pid s s' -> visits s s'.
Proof. induction 1; eauto using visits. Qed.

Lemma memoProcess_ok s0 s k m s1 :
  memo_ok s0 m -> visits s0 s -> startTimeOf s (fst k) = snd k -> turn (fst k) s s1 ->
  let '(info, m', s2) := memoProcess r k m s1 in
  answered s0 k (askProcess (fst k)) info /\ memo_ok s0 m' /\ turn (fst k) s s2.
Proof.
  intros (Hp & Hc & Hh) Hv Hst Ht. unfold memoProcess.
  destruct (processByPid m !! k) as [info|] eqn:Ek.
  - split; [by apply (Hp k)|]. done.
  - pose proof (turn_enrich _ _ _ Ht) as Ht'.
    destruct (r_enrichPid r (fst k) s1) as [o s2] eqn:Ee. simpl in *.
    assert (Ha : answered s0 k (askProcess (fst k)) (validOr o)).
    { exists s, s1. unfold askProcess. by rewrite Ee. }
    split; [done|]. split; [|done]. split; [by apply map_Forall_insert_2|done].
Qed.

Lemma memoContainer_ok s0 s k m s1 :
  memo_ok s0 m -> visits s0 s -> startTimeOf s (fst k) = snd k -> turn (fst k) s s1 ->
  let '(ci, m', s2) := memoContainer r k m s1 in
  answered s0 k (askContainer (fst k)) ci /\ memo_ok s0 m' /\ turn (fst k) s s2.
Proof.
  intros (Hp & Hc & Hh) Hv Hst Ht. unfold memoContainer.
  destruct (containerByPid m !! k) as [ci|] eqn:Ek.
  - split; [by apply (Hc k)|]. done.
  - pose proof (turn_container _ _ _ Ht) as Ht'.
    destruct (r_resolveContainerForPid r (fst k) s1) as [o s2] eqn:Ee. simpl in *.
    assert (Ha : answered s0 k (askContainer (fst k)) (default noContainer o)).
    { exists s, s1. unfold askContainer. by rewrite Ee. }
    split; [done|]. split; [|done]. split; [done|]. split; [by apply map_Forall_insert_2|done].
Qed.

Lemma memoChain_ok s0 s k m s1 :
  memo_ok s0 m -> visits s0 s -> startTimeOf s (fst k) = snd k -> turn (fst k) s s1 ->
  let '(ch, m', s2) := memoChain r k m s1 in
  answered s0 k (askChain (fst k)) ch /\ memo_ok s0 m' /\ visits s0 s2.
Proof.
  intros (Hp & Hc & Hh) Hv Hst Ht. unfold memoChain.
  pose proof (visits_trans _ _ _ Hv (turn_visits _ _ _ Ht)) as Hv1.
  destruct (chainByPid m !! k) as [ch|] eqn:Ek.
  - split; [by apply (Hh k)|]. done.
  - pose proof (visits_chain s0 s1 (fst k) Hv1) as Hv2.
    destruct (r_resolveContainerChainForPid r (fst k) s1) as [ch s2] eqn:Ee. simpl in *.
    assert (Ha : answered s0 k (askChain (fst k)) ch).
    { exists s, s1. unfold askChain. by rewrite Ee. }
    split; [done|]. split; [|done]. split; [done|]. split; [done|by apply map_Forall_insert_2].
Qed.

Lemma attributeFlow_ok s0 c m s :
  memo_ok s0 m -> visits s0 s ->
  let '(c', m', s') := attributeFlow r startTimeOf want c m s in
  attributed s0 c c' /\ memo_ok s0 m' /\ visits s0 s'.
Proof.
  intros Hm Hv. unfold attributeFlow.
  pose proof (visits_pid s0 s c Hv) as Hv1.
  assert (Hat : forall c', (let '(pid, s') := r_resolvePid r c s in
      if (pid <=? 0)%Z then c' = c
      else exists info, answered s0 (pid, startTimeOf s' pid) (askProcess pid) info /\
        if processValid info then
          exists ci, answered s0 (pid, startTimeOf s' pid) (askContainer pid) ci /\
          exists ch, (if want then answered s0 (pid, startTimeOf s' pid) (askChain pid) ch
                      else ch = c_containerChain c) /\
          c' = set_chain ch (set_container ci (set_process info c))
        else c' = set_process info c) -> attributed s0 c c') by (intros; exists s; done).
  destruct (r_resolvePid r c s) as [pid s1] eqn:Er. simpl in Hv1.
  destruct (pid <=? 0)%Z eqn:Ep; [by auto|]. cbv zeta.
  set (k := (pid, startTimeOf s1 pid)) in *.
  pose proof (memoProcess_ok s0 s1 k m s1 Hm Hv1 eq_refl (turn_read _ _)) as H1.
  destruct (memoProcess r k m s1) as [[info m1] s2]. destruct H1 as (Hi & Hm1 & Ht1).
  destruct (processValid info) eqn:Epv; cbn [negb].
  2: { split; [apply Hat; exists info; by rewrite Epv|]. eauto using visits_trans, turn_visits. }
  pose proof (memoContainer_ok s0 s1 k m1 s2 Hm1 Hv1 eq_refl Ht1) as H2.
  destruct (memoContainer r k m1 s2) as [[ci m2] s3]. destruct H2 as (Hc & Hm2 & Ht2).
  destruct want.
  - pose proof (memoChain_ok s0 s1 k m2 s3 Hm2 Hv1 eq_refl Ht2) as H3.
    destruct (memoChain r k m2 s3) as [[ch m3] s4]. destruct H3 as (Hh & Hm3 & Hv4).
    split; [|done]. apply Hat. exists info. rewrite Epv. eauto 6.
  - split; [|eauto using visits_trans, turn_visits].
    apply Hat. exists info. rewrite Epv. split; [done|]. exists ci. split; [done|].
    exists (c_containerChain c). done.
Qed.

Lemma attributeLoop_ok s0 flows m s :
  memo_ok s0 m -> visits s0 s ->
  let '(out, m', s') := attributeLoop r startTimeOf want flows m s in
  Forall2 (attributed s0) flows out /\ memo_ok s0 m' /\ visits s0 s'.
Proof.
  revert m s. induction flows as [|c rest IH]; intros m s Hm Hv; simpl; [done|].
  pose proof (attributeFlow_ok s0 c m s Hm Hv) as H1.
  destruct (attributeFlow r startTimeOf want c m s) as [[c' m1] s1]. destruct H1 as (? & Hm1 & Hv1).
  pose proof (IH m1 s1 Hm1 Hv1) as H2.
  destruct (attributeLoop r startTimeOf want rest m1 s1) as [[rest' m2] s2]. destruct H2 as (? & ? & ?).
  split; [by constructor|done].
Qed.

Lemma attributeFlows_attributed flows s0 :
  Forall2 (attributed s0) flows (fst (attributeFlows (Some r) startTimeOf want flows s0)).
Proof.
  pose proof (attributeLoop_ok s0 flows emptyMemo s0) as H. unfold attributeFlows.
  destruct (attributeLoop r startTimeOf want flows emptyMemo s0) as [[out m] s].
  apply H; [|constructor]. split; [|split]; apply map_Forall_empty.
Qed.

(** PID-reuse safety of the batch pass, for every resolver and whatever
    happens to the process table during the pass: the rows come back in
    order with only their attribution changed, and the process, container
    and chain a row is given are answers the resolver gave during this pass
    in a turn that read the SAME starttime for the pid the row resolved to. *)
Theorem attributeFlows_served flows s0 :
  Forall2 (attributed s0) flows (fst (attributeFlows (Some r) startTimeOf want flows s0)).
Proof. apply attributeFlows_attributed. Qed.
End Served.

(* ------------------------------------------------------------------ *)
(** ** Stable resolvers: the memo is invisible, and cheap *)

(** During the pass the answers do not change: they are functions of the
    flow and of the pid. *)
Record stable {S} (r : Resolver S) (startTimeOf : S -> Z -> Z)
    (pidOf : Connection -> Z) (t : Z -> Z) (info : Z -> option ProcessInfo)
    (container : Z -> option ContainerInfo) (chain : Z -> list ContainerInfo) : Prop := {
  st_pid : forall c s, fst (r_resolvePid r c s) = pidOf c;
  st_time : forall s pid, startTimeOf s pid = t pid;
  st_info : forall pid s, fst (r_enrichPid r pid s) = info pid;
  st_container : forall pid s, fst (r_resolveContainerForPid r pid s) = container pid;
  st_chain : forall pid s, fst (r_resolveContainerChainForPid r pid s) = chain pid;
}.

(** The pass without memo tables. *)
Definition attributeRef (want : bool) (pidOf : Connection -> Z) (info : Z -> option ProcessInfo)
    (container : Z -> option ContainerInfo) (chain : Z -> list ContainerInfo)
    (c : Connection) : Connection :=
  let pid := pidOf c in
  if (pid <=? 0)%Z then c
  else
    let p := validOr (info pid) in
    let c1 := set_process p c in
    if processValid p then
      let c2 := set_container (default noContainer (container pid)) c1 in
      if want then set_chain (chain pid) c2 else c2
    else c1.

(** C10. With a resolver whose answers are stable during the pass, the
    memoised pass computes exactly what asking afresh for every flow would:
    memoisation is invisible. *)
Theorem attributeFlows_reference {S} (r : Resolver S) st pidOf t info container chain want flows s :
  stable r st pidOf t info container chain ->
  fst (attributeFlows (Some r) st want flows s)
    = map (attributeRef want pidOf info container chain) flows.
Proof.
  intros Hs. pose proof (attributeFlows_attributed r st want flows s) as Hserved.
  revert Hserved. generalize (fst (attributeFlows (Some r) st want flows s)) as out.
  induction 1 as [|c c' flows out Hc _ IH]; simpl; [done|]. f_equal; [|done].
  destruct Hc as (s1 & _ & Hc). pose proof (st_pid _ _ _ _ _ _ _ Hs c s1) as Hp.
  destruct (r_resolvePid r c s1) as [pid s2]. simpl in Hp. subst pid.
  unfold attributeRef. destruct (pidOf c <=? 0)%Z; [done|].
  destruct Hc as (p & (sa & sb & _ & _ & _ & <-) & Hc). unfold askProcess in Hc.
  rewrite (st_info _ _ _ _ _ _ _ Hs) in Hc. destruct (processValid (validOr (info (pidOf c)))); [|done].
  destruct Hc as (ci & (sc & sd & _ & _ & _ & <-) & ch & Hch & ->). unfold askContainer.
  rewrite (st_container _ _ _ _ _ _ _ Hs). destruct want; [|by subst ch].
  destruct Hch as (se & sf & _ & _ & _ & <-). unfold askChain. by rewrite (st_chain _ _ _ _ _ _ _ Hs).
Qed.

(** A resolver that counts its [enrichPid] calls, the /proc reads. *)
Definition counting {S} (r : Resolver S) : Resolver (nat * S) := {|
  r_initialize ns := let '(b, s) := r_initialize r (snd ns) in (b, (fst ns, s));
  r_capabilities ns := r_capabilities r (snd ns);
  r_setTuning t ns := (fst ns, r_setTuning r t (snd ns));
  r_requestDeepScan ns := (fst ns, r_requestDeepScan r (snd ns));
  r_resolvePid c ns := let '(p, s) := r_resolvePid r c (snd ns) in (p, (fst ns, s));
  r_enrichPid pid ns := let '(o, s) := r_enrichPid r pid (snd ns) in (o, (Datatypes.S (fst ns), s));
  r_resolveContainerForPid pid ns :=
    let '(o, s) := r_resolveContainerForPid r pid (snd ns) in (o, (fst ns, s));
  r_resolveContainerChainForPid pid ns :=
    let '(l, s) := r_resolveContainerChainForPid r pid (snd ns) in (l, (fst ns, s));
|}.

Section Calls.
Context {S : Type} (r : Resolver S) (st : S -> Z -> Z) (pidOf : Connection -> Z) (t : Z -> Z)
  (info : Z -> option ProcessInfo) (container : Z -> option ContainerInfo)
  (chain : Z -> list ContainerInfo) (want : bool).
Context (Hs : stable r st pidOf t info container chain).

(** The distinct (pid, starttime) pairs of the attributable flows. *)
Definition pidKeys (flows : list Connection) : gset PidKey :=
  list_to_set (map (fun c => (pidOf c, t (pidOf c))) (filter (fun c => (0 < pidOf c)%Z) flows)).

Local Abbreviation ctr := (counting r).
Local Abbreviation cst := (fun ns : nat * S => st (snd ns)).

Lemma memoProcess_calls k m ns :
  let '(_, m', ns') := memoProcess ctr k m ns in
  fst ns' + size (processByPid m) = fst ns + size (processByPid m') /\
  dom (processByPid m') = dom (processByPid m) ∪ {[k]}.
Proof.
  unfold memoProcess. destruct (processByPid m !! k) as [i|] eqn:Ek.
  - split; [done|]. apply elem_of_dom_2 in Ek. set_solver.
  - simpl. destruct (r_enrichPid r (fst k) (snd ns)) as [o s']. simpl.
    rewrite map_size_insert_None, dom_insert_L by done. split; [lia|set_solver].
Qed.

Lemma memoContainer_calls k m ns :
  let '(_, m', ns') := memoContainer ctr k m ns in
  fst ns' = fst ns /\ processByPid m' = processByPid m.
Proof.
  unfold memoContainer. destruct (containerByPid m !! k); [done|]. simpl.
  by destruct (r_resolveContainerForPid r (fst k) (snd ns)).
Qed.

Lemma memoChain_calls k m ns :
  let '(_, m', ns') := memoChain ctr k m ns in
  fst ns' = fst ns /\ processByPid m' = processByPid m.
Proof.
  unfold memoChain. destruct (chainByPid m !! k); [done|]. simpl.
  by destruct (r_resolveContainerChainForPid r (fst k) (snd ns)).
Qed.

Lemma pidKeys_cons c flows :
  pidKeys (c :: flows) =
    (if (pidOf c <=? 0)%Z then ∅ else {[(pidOf c, t (pidOf c))]}) ∪ pidKeys flows.
Proof.
  unfold pidKeys. rewrite filter_cons.
  destruct (Z.leb_spec (pidOf c) 0), (decide (0 < pidOf c)%Z); try lia; set_solver.
Qed.

Lemma attributeFlow_calls c m ns :
  let '(_, m', ns') := attributeFlow ctr cst want c m ns in
  fst ns' + size (processByPid m) = fst ns + size (processByPid m') /\
  dom (processByPid m') = dom (processByPid m) ∪ pidKeys [c].
Proof.
  unfold attributeFlow. cbn [r_resolvePid counting].
  pose proof (st_pid _ _ _ _ _ _ _ Hs c (snd ns)) as Hp.
  destruct (r_resolvePid r c (snd ns)) as [pid s1]. simpl in Hp. subst pid.
  rewrite pidKeys_cons. unfold pidKeys. simpl list_to_set. rewrite !(right_id_L ∅ (∪)).
  destruct (pidOf c <=? 0)%Z; [split; [done|set_solver]|]. cbv zeta.
  rewrite (st_time _ _ _ _ _ _ _ Hs). set (k := (pidOf c, t (pidOf c))).
  pose proof (memoProcess_calls k m (fst ns, s1)) as H1.
  destruct (memoProcess ctr k m (fst ns, s1)) as [[i m1] ns1]. destruct H1 as [H1 H1'].
  destruct (negb (processValid i)); [done|].
  pose proof (memoContainer_calls k m1 ns1) as H2.
  destruct (memoContainer ctr k m1 ns1) as [[ci m2] ns2]. destruct H2 as [H2 H2'].
  destruct want; [|by rewrite H2, H2'].
  pose proof (memoChain_calls k m2 ns2) as H3.
  destruct (memoChain ctr k m2 ns2) as [[ch m3] ns3]. destruct H3 as [H3 H3'].
  by rewrite H3, H3', H2, H2'.
Qed.

Lemma attributeLoop_calls flows m ns :
  let '(_, m', ns') := attributeLoop ctr cst want flows m ns in
  fst ns' + size (processByPid m) = fst ns + size (processByPid m') /\
  dom (processByPid m') = dom (processByPid m) ∪ pidKeys flows.
Proof.
  revert m ns. induction flows as [|c flows IH]; intros m ns; cbn [attributeLoop].
  { split; [done|]. unfold pidKeys. set_solver. }
  pose proof (attributeFlow_calls c m ns) as H1.
  destruct (attributeFlow ctr cst want c m ns) as [[c' m1] ns1]. destruct H1 as [H1 H1'].
  pose proof (IH m1 ns1) as H2.
  destruct (attributeLoop ctr cst want flows m1 ns1) as [[out m2] ns2]. destruct H2 as [H2 H2'].
  split; [lia|]. rewrite H2', H1', (pidKeys_cons c []), (pidKeys_cons c flows).
  change (pidKeys []) with (∅ : gset PidKey). set_solver.
Qed.

(** /proc work is O(unique processes): a pass over a snapshot calls
    [enrichPid] exactly once per distinct (pid, starttime) among its flows,
    however many flows share a process. *)
Theorem enrich_once_per_process flows n s :
  fst (snd (attributeFlows (Some ctr) cst want flows (n, s))) = n + size (pidKeys flows).
Proof.
  pose proof (attributeLoop_calls flows emptyMemo (n, s)) as H. unfold attributeFlows.
  destruct (attributeLoop ctr cst want flows emptyMemo (n, s)) as [[out m] ns].
  destruct H as [H1 H2]. simpl in *. rewrite dom_empty_L, (left_id_L ∅ (∪)) in H2.
  rewrite <- H2, size_dom. rewrite map_size_empty in H1. lia.
Qed.
End Calls.

(* ------------------------------------------------------------------ *)
(** ** A concrete resolver *)

(** Every flow belongs to pid 42, started at jiffy 7, in a docker container. *)
Definition sampleProcess : ProcessInfo := mkProcessInfo 42 (qs "curl") (qs "curl -s x") (qs "/usr/bin/curl") 1000.
Definition sampleContainer : ContainerInfo := mkContainerInfo (qs "docker") (qs "0123456789ab") [].

Definition constResolver : Resolver unit := {|
  r_initialize s := (true, s);
  r_capabilities _ := [qs "process-attribution"; qs "container-attribution"];
  r_setTuning _ s := s;
  r_requestDeepScan s := s;
  r_resolvePid c s := (if decide (c_proto c = Tcp) then 42%Z else 0%Z, s);
  r_enrichPid pid s := (Some sampleProcess, s);
  r_resolveContainerForPid pid s := (Some sampleContainer, s);
  r_resolveContainerChainForPid pid s := ([sampleContainer], s);
|}.

Lemma constResolver_stable :
  stable constResolver (fun _ _ => 7%Z) (fun c => if decide (c_proto c = Tcp) then 42%Z else 0%Z)
    (fun _ => 7%Z) (fun _ => Some sampleProcess) (fun _ => Some sampleContainer) (fun _ => [sampleContainer]).
Proof. by split. Qed.

Lemma attributeFlows_reference_witness :
  fst (attributeFlows (Some constResolver) (fun _ _ => 7%Z) true [sampleTcp; set_proto Udp sampleTcp] tt)
    = [set_chain [sampleContainer] (set_container sampleContainer (set_process sampleProcess sampleTcp));
       set_proto Udp sampleTcp].
Proof. rewrite (attributeFlows_reference _ _ _ _ _ _ _ _ _ _ constResolver_stable). reflexivity. Defined.

(** Three flows of the same process: one /proc read. *)
Lemma enrich_once_per_process_witness :
  fst (snd (attributeFlows (Some (counting constResolver)) (fun _ _ => 7%Z) true
    [sampleTcp; set_direction Inbound sampleTcp; sampleTcp] (0, tt))) = 1.
Proof.
  rewrite (enrich_once_per_process constResolver (fun _ _ => 7%Z) _ _ _ _ _ true constResolver_stable).
  vm_compute. reflexivity.
Defined.
