(* ===== verification/BirthCache.v ===== *)
(** * Birth-event attribution: [BirthCache.h], [BpfBirthResolver.h]

    The bounded, expiring cache of socket births and the resolver on top of
    it.  The mutex serialises every operation, so a run is a sequence of
    whole operations; the clock and the starttime probe are part of the
    state and change between operations. *)

From S2P Require Import Prelude Qt Conn Resolver.

Record BirthKey := mkBirthKey {
  bk_proto : L4Proto;
  bk_localAddress : QHostAddress;
  bk_localPort : Z;
  bk_remoteAddress : QHostAddress;
  bk_remotePort : Z;
}.

#[global] Instance BirthKey_eq_dec : EqDecision BirthKey. Proof. solve_decision. Defined.
#[global] Instance BirthKey_countable : Countable BirthKey.
Proof.
  refine (inj_countable'
    (fun k => (bk_proto k, bk_localAddress k, bk_localPort k, bk_remoteAddress k, bk_remotePort k))
    (fun '(p, la, lp, ra, rp) => mkBirthKey p la lp ra rp) _).
  by intros [].
Defined.

Definition birthKeyOf (c : Connection) : BirthKey :=
  mkBirthKey (c_proto c) (ep_address (c_local c)) (ep_port (c_local c))
    (ep_address (c_remote c)) (ep_port (c_remote c)).

Record BirthRecord := mkBirth {
  br_pid : Z;
  br_uid : Z;
  br_comm : QString;
  br_direction : Direction;
  br_startTime : Z;
  br_firstSeenMonoMs : Z;
  br_insertedMonoMs : Z;
}.

Definition birthValid (r : BirthRecord) : bool := (0 <? br_pid r)%Z.

Definition stampBirth (r : BirthRecord) (nowMs : Z) : BirthRecord :=
  mkBirth (br_pid r) (br_uid r) (br_comm r) (br_direction r) (br_startTime r)
    (br_firstSeenMonoMs r) nowMs.

(* ------------------------------------------------------------------ *)
(** ** [BirthCache] *)

Record BirthCache := mkBirthCache {
  bc_map : gmap BirthKey BirthRecord;
  bc_maxEntries : Z;
  bc_ttlMs : Z;
}.

Definition kDefaultMaxEntries : Z := 65536.
Definition kDefaultTtlMs : Z := 30000.

Definition newBirthCache (maxEntries ttlMs : Z) : BirthCache :=
  mkBirthCache ∅ (if (0 <? maxEntries)%Z then maxEntries else kDefaultMaxEntries)
    (if (0 <? ttlMs)%Z then ttlMs else kDefaultTtlMs).

Definition with_map (m : gmap BirthKey BirthRecord) (b : BirthCache) : BirthCache :=
  mkBirthCache m (bc_maxEntries b) (bc_ttlMs b).

Definition birthInsert (k : BirthKey) (rec : BirthRecord) (nowMs : Z) (b : BirthCache) : bool * BirthCache :=
  let cleared := negb (bool_decide (is_Some (bc_map b !! k)))
                 && (bc_maxEntries b <=? Z.of_nat (size (bc_map b)))%Z in
  let m := if cleared then ∅ else bc_map b in
  (cleared, with_map (<[k := stampBirth rec nowMs]> m) b).

Definition birthExpired (b : BirthCache) (nowMs : Z) (r : BirthRecord) : bool :=
  (bc_ttlMs b <? nowMs - br_insertedMonoMs r)%Z.

Definition birthFind (k : BirthKey) (nowMs : Z) (b : BirthCache) : option BirthRecord :=
  match bc_map b !! k with
  | None => None
  | Some r => if birthExpired b nowMs r then None else Some r
  end.

Definition birthRemove (k : BirthKey) (b : BirthCache) : BirthCache :=
  with_map (delete k (bc_map b)) b.

(** The erase loop keeps the entries that are not expired and counts the
    others. *)
Definition birthPrune (nowMs : Z) (b : BirthCache) : nat * BirthCache :=
  let kept := filter (fun kr : BirthKey * BirthRecord => birthExpired b nowMs (snd kr) = false) (bc_map b) in
  (size (bc_map b) - size kept, with_map kept b).

Definition birthClear (b : BirthCache) : BirthCache := with_map ∅ b.

(** The documented bound. *)
Definition birth_ok (b : BirthCache) : Prop :=
  (0 < bc_maxEntries b)%Z /\ (Z.of_nat (size (bc_map b)) <= bc_maxEntries b)%Z.

Lemma newBirthCache_ok n t : birth_ok (newBirthCache n t).
Proof.
  unfold birth_ok, newBirthCache. simpl. rewrite map_size_empty.
  destruct (Z.ltb_spec 0 n); unfold kDefaultMaxEntries; lia.
Qed.

Lemma birthInsert_ok k rec now b : birth_ok b -> birth_ok (snd (birthInsert k rec now b)).
Proof.
  intros [Hp Hs]. unfold birth_ok, birthInsert. simpl. split; [done|].
  case_bool_decide as Hk; simpl.
  - destruct Hk as [r Hk]. by rewrite map_size_insert_Some by eauto.
  - assert (bc_map b !! k = None) as Hn by (destruct (bc_map b !! k); naive_solver).
    destruct (Z.leb_spec (bc_maxEntries b) (Z.of_nat (size (bc_map b)))).
    + rewrite map_size_insert_None, map_size_empty by apply lookup_empty. lia.
    + rewrite map_size_insert_None by done. lia.
Qed.

Lemma birthRemove_ok k b : birth_ok b -> birth_ok (birthRemove k b).
Proof.
  intros [Hp Hs]. split; [done|]. simpl.
  pose proof (map_subseteq_size _ _ (delete_subseteq (bc_map b) k)). lia.
Qed.

Lemma birthPrune_ok now b : birth_ok b -> birth_ok (snd (birthPrune now b)).
Proof.
  intros [Hp Hs]. split; [done|]. simpl.
  pose proof (map_subseteq_size _ _ (map_filter_subseteq
    (fun kr : BirthKey * BirthRecord => birthExpired b now (snd kr) = false) (bc_map b))). lia.
Qed.

(** The look-up after each operation. *)
Lemma birthFind_insert k rec now b later :
  (later - now <= bc_ttlMs b)%Z ->
  birthFind k later (snd (birthInsert k rec now b)) = Some (stampBirth rec now).
Proof.
  intros Ht. unfold birthFind, birthInsert. simpl. rewrite lookup_insert_eq. unfold birthExpired. simpl.
  destruct (Z.ltb_spec (bc_ttlMs b) (later - now)); [lia|done].
Qed.

Lemma birthFind_prune k now later b :
  (now <= later)%Z -> birthFind k later (snd (birthPrune now b)) = birthFind k later b.
Proof.
  intros Hle. unfold birthFind, birthPrune. simpl.
  destruct (bc_map b !! k) as [r|] eqn:Ek.
  - destruct (birthExpired b now r) eqn:Ex.
    + rewrite map_lookup_filter_None_2; [|right; intros x Hx; simplify_eq/=; congruence].
      replace (birthExpired b later r) with true; [done|].
      unfold birthExpired in *. apply Z.ltb_lt in Ex. symmetry. apply Z.ltb_lt. lia.
    + by rewrite (map_lookup_filter_Some_2 _ _ k r).
  - rewrite map_lookup_filter_None_2; [done|by left].
Qed.

(** Pruning is invisible to look-ups: reaping at [now] changes no answer
    at [now] or at any later time, it reports exactly the number of entries
    it dropped, and afterwards no expired entry is left. *)
Theorem birthPrune_transparent now b :
  (forall k later, (now <= later)%Z -> birthFind k later (snd (birthPrune now b)) = birthFind k later b) /\
  fst (birthPrune now b) + size (bc_map (snd (birthPrune now b))) = size (bc_map b) /\
  map_Forall (fun _ r => birthExpired b now r = false) (bc_map (snd (birthPrune now b))).
Proof.
  split; [intros; by apply birthFind_prune|]. split.
  - simpl. pose proof (map_subseteq_size _ _ (map_filter_subseteq
      (fun kr : BirthKey * BirthRecord => birthExpired b now (snd kr) = false) (bc_map b))). lia.
  - intros k r Hr. simpl in Hr. by apply map_lookup_filter_Some in Hr as [_ ?].
Qed.

(* ------------------------------------------------------------------ *)
(** ** [BpfBirthResolver] *)

Record BpfState := mkBpf {
  m_cache : BirthCache;
  m_enrichByPid : gmap Z ProcessInfo;
  m_startTimeProbe : option (Z -> Z);
  m_clockMs : Z;
  m_loaded : bool;
}.

Definition with_cache (c : BirthCache) (s : BpfState) : BpfState :=
  mkBpf c (m_enrichByPid s) (m_startTimeProbe s) (m_clockMs s) (m_loaded s).

Definition newBpf (probe : option (Z -> Z)) (clock : Z) : BpfState :=
  mkBpf (newBirthCache kDefaultMaxEntries kDefaultTtlMs) ∅ probe clock false.

Definition birthProcess (rec : BirthRecord) : ProcessInfo :=
  mkProcessInfo (br_pid rec) (br_comm rec) [] [] (br_uid rec).

Definition onBirth (k : BirthKey) (rec : BirthRecord) (s : BpfState) : BpfState :=
  let cache := snd (birthInsert k rec (m_clockMs s) (m_cache s)) in
  let enrich :=
    if birthValid rec then
      let e := <[br_pid rec := birthProcess rec]> (m_enrichByPid s) in
      if (bc_maxEntries cache <? Z.of_nat (size e))%Z then ∅ else e
    else m_enrichByPid s in
  mkBpf cache enrich (m_startTimeProbe s) (m_clockMs s) (m_loaded s).

Definition setLoaded (b : bool) (s : BpfState) : BpfState :=
  mkBpf (m_cache s) (m_enrichByPid s) (m_startTimeProbe s) (m_clockMs s) b.

Definition bpfResolvePid (flow : Connection) (s : BpfState) : Z * BpfState :=
  if negb (m_loaded s) then (0%Z, s)
  else
    match birthFind (birthKeyOf flow) (m_clockMs s) (m_cache s) with
    | None => (0%Z, s)
    | Some rec =>
        if negb (birthValid rec) then (0%Z, s)
        else
          match m_startTimeProbe s with
          | Some probe =>
              let live := probe (br_pid rec) in
              if (live =? 0)%Z || negb (live =? br_startTime rec)%Z
              then (0%Z, with_cache (birthRemove (birthKeyOf flow) (m_cache s)) s)
              else (br_pid rec, s)
          | None => (br_pid rec, s)
          end
    end.

Definition bpfEnrichPid (pid : Z) (s : BpfState) : option ProcessInfo * BpfState :=
  if negb (m_loaded s) || (pid <=? 0)%Z then (None, s)
  else (m_enrichByPid s !! pid, s).

Definition bpfPrune (s : BpfState) : BpfState :=
  with_cache (snd (birthPrune (m_clockMs s) (m_cache s))) s.

Definition BpfBirthResolver : Resolver BpfState := {|
  r_initialize s := (m_loaded s, s);
  r_capabilities s :=
    if m_loaded s then [qs "process-attribution"; qs "birth-attribution"] else [];
  r_setTuning _ s := s;
  r_requestDeepScan s := s;
  r_resolvePid := bpfResolvePid;
  r_enrichPid := bpfEnrichPid;
  r_resolveContainerForPid _ s := (None, s);
  r_resolveContainerChainForPid := defaultChainForPid (fun _ s => (None, s));
|}.

(** Everything that can happen to the resolver: its operations, and the
    environment moving the clock forward and changing the process table. *)
Inductive bpf_step : BpfState -> BpfState -> Prop :=
| step_birth k rec s : bpf_step s (onBirth k rec s)
| step_resolve flow s : bpf_step s (snd (bpfResolvePid flow s))
| step_prune s : bpf_step s (bpfPrune s)
| step_loaded b s : bpf_step s (setLoaded b s)
| step_env probe clock s : (m_clockMs s <= clock)%Z ->
    bpf_step s (mkBpf (m_cache s) (m_enrichByPid s) probe clock (m_loaded s)).

(** Cached births are stamped in the past, the enrichment table only holds
    processes under their own pid, and both tables respect the cap. *)
Record bpf_ok (s : BpfState) : Prop := {
  bpf_cache_ok : birth_ok (m_cache s);
  bpf_ttl_pos : (0 < bc_ttlMs (m_cache s))%Z;
  bpf_stamp : map_Forall (fun _ r => (br_insertedMonoMs r <= m_clockMs s)%Z) (bc_map (m_cache s));
  bpf_enrich_cap : (Z.of_nat (size (m_enrichByPid s)) <= bc_maxEntries (m_cache s))%Z;
  bpf_enrich_key : map_Forall (fun pid p => pi_pid p = pid /\ (0 < pid)%Z) (m_enrichByPid s);
}.

Lemma onBirth_ok k rec s : bpf_ok s -> bpf_ok (onBirth k rec s).
Proof.
  intros [H1 H2 H3 H4 H5]. pose proof (birthInsert_ok k rec (m_clockMs s) _ H1) as Hi.
  split; try done.
  - simpl. apply map_Forall_insert_2; [simpl; lia|]. destruct (_ && _); [apply map_Forall_empty|done].
  - unfold onBirth. cbn [m_enrichByPid m_cache]. destruct Hi as [Hp _].
    destruct (birthValid rec); [|done].
    match goal with |- context [if ?b then _ else _] => destruct b eqn:Eb end; [|blia].
    rewrite map_size_empty. lia.
  - unfold onBirth. cbn [m_enrichByPid]. destruct (birthValid rec) eqn:Ev; [|done].
    match goal with |- context [if ?b then _ else _] => destruct b end; [apply map_Forall_empty|].
    apply map_Forall_insert_2; [|done]. split; [done|]. unfold birthValid in Ev. blia.
Qed.

Lemma with_cache_ok c s :
  bpf_ok s -> birth_ok c -> bc_map c ⊆ bc_map (m_cache s) ->
  bc_maxEntries c = bc_maxEntries (m_cache s) -> bc_ttlMs c = bc_ttlMs (m_cache s) ->
  bpf_ok (with_cache c s).
Proof.
  intros [H1 H2 H3 H4 H5] Hc Hsub Hm Ht. split; simpl; rewrite ?Hm, ?Ht; auto.
  intros k r Hr. apply (H3 k). by eapply lookup_weaken.
Qed.

Lemma bpf_step_ok s s' : bpf_step s s' -> bpf_ok s -> bpf_ok s'.
Proof.
  intros Hst Hok. destruct Hst as [k rec s|flow s|s|b s|probe clock s Hc].
  - by apply onBirth_ok.
  - unfold bpfResolvePid. destruct (negb (m_loaded s)); [done|].
    destruct (birthFind _ _ _) as [rec|]; [|done]. destruct (negb (birthValid rec)); [done|].
    destruct (m_startTimeProbe s) as [probe|]; [|done].
    destruct (_ || _); [|done]. simpl.
    apply with_cache_ok; try done; [apply birthRemove_ok, Hok|apply delete_subseteq].
  - unfold bpfPrune. apply with_cache_ok; try done; [apply birthPrune_ok, Hok|apply map_filter_subseteq].
  - by destruct Hok.
  - destruct Hok as [H1 H2 H3 H4 H5]. split; try done. simpl.
    eapply map_Forall_impl; [exact H3|]. simpl. intros. lia.
Qed.

(** In every state the resolver can reach from its construction, through
    any interleaving of births, lookups, prunes, load changes and changes of
    the clock and the process table, both tables stay within the cap, cached
    births are stamped in the past and the enrichment table maps a pid only
    to that pid's own record. *)
Theorem bpf_reachable_ok probe clock s :
  rtc bpf_step (newBpf probe clock) s -> bpf_ok s.
Proof.
  assert (Hinit : bpf_ok (newBpf probe clock)).
  { split; simpl; [apply newBirthCache_ok|done|apply map_Forall_empty|done|apply map_Forall_empty]. }
  intros Hr. revert Hinit. induction Hr as [|s1 s2 s3 Hst _ IH]; [done|].
  intros Hok. apply IH. by eapply bpf_step_ok.
Qed.

Lemma bpf_reachable_ok_witness :
  bpf_ok (onBirth (birthKeyOf sampleTcp) (mkBirth 42 1000 (qs "curl") Outbound 7 0 0)
    (setLoaded true (newBpf None 100))).
Proof.
  apply (bpf_reachable_ok None 100).
  eapply rtc_l; [apply step_loaded|]. eapply rtc_l; [apply step_birth|]. apply rtc_refl.
Defined.

(** PID-reuse guard of [resolvePid]: a positive answer is the pid of an
    unexpired birth of exactly this flow whose process is still the one that
    was born (the probe reads the recorded, nonzero starttime); otherwise the
    answer is 0, and a birth whose process is gone or was replaced is dropped
    from the cache. *)
Theorem bpfResolvePid_guard flow s probe :
  m_startTimeProbe s = Some probe ->
  let '(pid, s') := bpfResolvePid flow s in
  (pid = 0%Z \/
   exists rec, m_loaded s = true /\ bc_map (m_cache s) !! birthKeyOf flow = Some rec /\
     (m_clockMs s - br_insertedMonoMs rec <= bc_ttlMs (m_cache s))%Z /\
     br_pid rec = pid /\ (0 < pid)%Z /\ probe pid = br_startTime rec /\ br_startTime rec <> 0%Z /\ s' = s) /\
  (forall rec, m_loaded s = true -> birthFind (birthKeyOf flow) (m_clockMs s) (m_cache s) = Some rec ->
     (0 < br_pid rec)%Z -> (probe (br_pid rec) = 0%Z \/ probe (br_pid rec) <> br_startTime rec) ->
     pid = 0%Z /\ forall t, birthFind (birthKeyOf flow) t (m_cache s') = None).
Proof.
  intros Hp. unfold bpfResolvePid. rewrite Hp. destruct (m_loaded s) eqn:El; simpl; [|split; [by left|by intros]].
  unfold birthFind at 1. destruct (bc_map (m_cache s) !! birthKeyOf flow) as [rec|] eqn:Em; simpl.
  2: { split; [by left|]. unfold birthFind. by rewrite Em. }
  assert (Hf : forall r, birthFind (birthKeyOf flow) (m_clockMs s) (m_cache s) = Some r -> r = rec).
  { unfold birthFind. rewrite Em. intros r. by destruct (birthExpired _ _ _); intros; simplify_eq. }
  destruct (birthExpired (m_cache s) (m_clockMs s) rec) eqn:Ex; simpl.
  { split; [by left|]. unfold birthFind. by rewrite Em, Ex. }
  unfold birthValid. destruct (Z.ltb_spec 0 (br_pid rec)); simpl.
  2: { split; [by left|]. intros r _ Hr%Hf. subst. lia. }
  destruct (Z.eqb_spec (probe (br_pid rec)) 0) as [Hz|Hz]; simpl.
  { split; [by left|]. intros r _ Hr%Hf _ _. split; [done|]. intros t. unfold birthFind. simpl.
    by rewrite lookup_delete_eq. }
  destruct (Z.eqb_spec (probe (br_pid rec)) (br_startTime rec)) as [He|He]; simpl.
  - split; [|intros r _ Hr%Hf; subst; naive_solver].
    right. exists rec. unfold birthExpired in Ex. apply Z.ltb_ge in Ex. repeat split; auto. by rewrite <- He.
  - split; [by left|]. intros r _ Hr%Hf _ _. split; [done|]. intros t. unfold birthFind. simpl.
    by rewrite lookup_delete_eq.
Qed.

(** A loaded resolver with one birth, whose pid was recycled. *)
Definition recycledBpf : BpfState :=
  onBirth (birthKeyOf sampleTcp) (mkBirth 42 1000 (qs "curl") Outbound 7 0 0)
    (setLoaded true (newBpf (Some (fun _ => 9%Z)) 100)).

Lemma bpfResolvePid_guard_witness :
  fst (bpfResolvePid sampleTcp recycledBpf) = 0%Z /\
  birthFind (birthKeyOf sampleTcp) 100 (m_cache (snd (bpfResolvePid sampleTcp recycledBpf))) = None.
Proof.
  pose proof (bpfResolvePid_guard sampleTcp recycledBpf (fun _ => 9%Z) eq_refl) as Hg.
  destruct (bpfResolvePid sampleTcp recycledBpf) as [pid s']. destruct Hg as [_ Hg].
  destruct (Hg (mkBirth 42 1000 (qs "curl") Outbound 7 0 100)) as [H1 H2]; try (vm_compute; reflexivity).
  - right. vm_compute. discriminate.
  - split; [exact H1|apply H2].
Defined.

(** Steps that bring no new birth. *)
Definition no_birth (s s' : BpfState) : Prop :=
  (exists flow, s' = snd (bpfResolvePid flow s)) \/ s' = bpfPrune s \/
  (exists probe clock, s' = mkBpf (m_cache s) (m_enrichByPid s) probe clock (m_loaded s)).

Lemma bpfResolvePid_enrich flow s :
  m_enrichByPid (snd (bpfResolvePid flow s)) = m_enrichByPid s /\
  m_loaded (snd (bpfResolvePid flow s)) = m_loaded s.
Proof.
  unfold bpfResolvePid. destruct (negb (m_loaded s)); [done|].
  destruct (birthFind _ _ _) as [rec|]; [|done]. destruct (negb (birthValid rec)); [done|].
  destruct (m_startTimeProbe s) as [probe|]; [|done]. by destruct (_ || _).
Qed.

(** The enrichment table has no such guard: once a birth of [pid] was
    recorded, [enrichPid] keeps answering with that process's name and uid
    after the process table says another process owns the pid, after the
    birth itself was rejected or pruned, and for as long as no new birth
    arrives. *)
Theorem bpfEnrichPid_unguarded k rec s s' :
  m_loaded s = true -> (0 < br_pid rec)%Z ->
  (Z.of_nat (size (m_enrichByPid s)) < bc_maxEntries (m_cache s))%Z ->
  rtc (no_birth) (onBirth k rec s) s' ->
  fst (r_enrichPid BpfBirthResolver (br_pid rec) s') = Some (birthProcess rec).
Proof.
  intros Hl Hp Hsz Hr.
  assert (H0 : m_loaded (onBirth k rec s) = true /\
               m_enrichByPid (onBirth k rec s) !! br_pid rec = Some (birthProcess rec)).
  { split; [done|]. unfold onBirth, birthValid. cbn [m_enrichByPid].
    rewrite (proj2 (Z.ltb_lt _ _) Hp). simpl bc_maxEntries.
    assert (size (<[br_pid rec := birthProcess rec]> (m_enrichByPid s)) <= S (size (m_enrichByPid s))).
    { rewrite map_size_insert. destruct (m_enrichByPid s !! br_pid rec); simpl; lia. }
    rewrite (proj2 (Z.ltb_ge _ _)) by lia. by rewrite lookup_insert_eq. }
  revert H0. induction Hr as [x|x y z Hst _ IH].
  - intros [Hlx Hex]. simpl. unfold bpfEnrichPid. rewrite Hlx, (proj2 (Z.leb_gt _ _) Hp). simpl. done.
  - intros [Hlx Hex]. apply IH. destruct Hst as [[flow ->]|[->|(probe & clock & ->)]].
    + destruct (bpfResolvePid_enrich flow x) as [-> ->]. done.
    + done.
    + done.
Qed.

(** The flow of the recycled pid is no longer resolved, yet the pid is still
    reported as [curl]. *)
Lemma bpfEnrichPid_unguarded_witness :
  fst (r_enrichPid BpfBirthResolver 42 (snd (bpfResolvePid sampleTcp recycledBpf)))
    = Some (mkProcessInfo 42 (qs "curl") [] [] 1000).
Proof.
  apply (bpfEnrichPid_unguarded (birthKeyOf sampleTcp) (mkBirth 42 1000 (qs "curl") Outbound 7 0 0)
    (setLoaded true (newBpf (Some (fun _ => 9%Z)) 100)) (snd (bpfResolvePid sampleTcp recycledBpf))).
  - reflexivity.
  - reflexivity.
  - vm_compute. reflexivity.
  - eapply rtc_l; [left; exists sampleTcp; reflexivity|]. apply rtc_refl.
Defined.
