(* ===== verification/TopK.v ===== *)
(** * The bounded top-K collector: [src/backend/linux/FlowTopK.h]

    One pass over a conntrack dump that keeps the [cap] loudest flows in a
    min-heap.  [QList] indices beyond the heap never occur: [constFirst] and
    [back] are only used on a full (so nonempty) heap. *)

From S2P Require Import Prelude Conn StdAlgo.

Definition flowBytesTotal (c : Connection) : Z := u64 (c_rxBytes c + c_txBytes c).

Definition FlowMinHeapByBytes (a b : Connection) : bool :=
  (flowBytesTotal b <? flowBytesTotal a)%Z.

(** [heap.back() = c] *)
Definition set_back {A} (l : list A) (x : A) : list A := take (pred (length l)) l ++ [x].

Section TopK.
Context `{StdHeapLaws}.

Definition admitFlowTopK (heap : list Connection) (c : Connection) (cap : Z) : list Connection :=
  if (cap <=? 0)%Z then heap ++ [c]
  else if (Z.of_nat (length heap) <? cap)%Z then
    push_heap FlowMinHeapByBytes (heap ++ [c])
  else
    match heap with
    | first :: _ =>
        if (flowBytesTotal first <? flowBytesTotal c)%Z then
          push_heap FlowMinHeapByBytes (set_back (pop_heap FlowMinHeapByBytes heap) c)
        else heap
    | [] => heap
    end.

(** A whole dump, from an empty list. *)
Definition collectTopK (cap : Z) (flows : list Connection) : list Connection :=
  foldl (fun heap c => admitFlowTopK heap c cap) [] flows.

Lemma minHeap_swo : swo FlowMinHeapByBytes.
Proof. unfold FlowMinHeapByBytes. auto with qif. Qed.

#[local] Hint Resolve minHeap_swo : core.

Lemma set_back_app {A} (l : list A) x y : set_back (l ++ [x]) y = l ++ [y].
Proof. unfold set_back. rewrite length_app. simpl. rewrite Nat.add_1_r. simpl. by rewrite take_app_length. Qed.

(** What holds of the heap after the flows [seen]: it is a heap of the right
    size, its elements and some dropped ones are the flows seen, and nothing
    dropped is louder than anything kept. *)
Definition topk_inv (cap : Z) (seen heap : list Connection) : Prop :=
  is_heap FlowMinHeapByBytes heap /\ length heap = min (Z.to_nat cap) (length seen) /\
  exists dropped, seen ≡ₚ heap ++ dropped /\
    forall x y, x ∈ dropped -> y ∈ heap -> (flowBytesTotal x <= flowBytesTotal y)%Z.

Lemma topk_inv_room cap seen heap c :
  (0 < cap)%Z -> topk_inv cap seen heap -> (Z.of_nat (length heap) < cap)%Z ->
  topk_inv cap (seen ++ [c]) (push_heap FlowMinHeapByBytes (heap ++ [c])).
Proof.
  intros Hcap (Hh & Hl & dropped & Hp & Hd) Hroom.
  assert (dropped = []) as ->.
  { destruct dropped; [done|]. apply Permutation_length in Hp. rewrite length_app in Hp. simpl in Hp. lia. }
  rewrite app_nil_r in Hp.
  split; [by apply push_heap_heap|]. split.
  - rewrite push_heap_perm, !length_app by done. simpl. apply Permutation_length in Hp. lia.
  - exists []. rewrite app_nil_r, push_heap_perm by done. split; [by rewrite Hp|]. set_solver.
Qed.

Lemma topk_inv_evict cap seen x r c :
  (0 < cap)%Z -> topk_inv cap seen (x :: r) -> (cap <= Z.of_nat (length (x :: r)))%Z ->
  (flowBytesTotal x < flowBytesTotal c)%Z ->
  topk_inv cap (seen ++ [c])
    (push_heap FlowMinHeapByBytes (set_back (pop_heap FlowMinHeapByBytes (x :: r)) c)).
Proof.
  intros Hcap (Hh & Hl & dropped & Hp & Hd) Hfull Hlt.
  destruct (pop_heap_spec FlowMinHeapByBytes x r) as (h & -> & Hhr & Hhh); [done..|].
  rewrite set_back_app. split; [by apply push_heap_heap|].
  assert (Hperm : push_heap FlowMinHeapByBytes (h ++ [c]) ≡ₚ c :: r).
  { rewrite push_heap_perm by done. rewrite Hhr. by rewrite Permutation_app_comm. }
  split.
  - rewrite Hperm, length_app. simpl in *. lia.
  - exists (x :: dropped). split.
    + rewrite Hperm, Hp. simpl. solve_Permutation.
    + intros y z Hy Hz. rewrite Hperm in Hz.
      assert (Hxr : forall w, w ∈ x :: r -> (flowBytesTotal x <= flowBytesTotal w)%Z).
      { intros w Hw. pose proof (heap_front _ x r minHeap_swo Hh w Hw) as Hf.
        unfold FlowMinHeapByBytes in Hf. by apply Z.ltb_ge. }
      apply elem_of_cons in Hy as [->|Hy], Hz as [->|Hz].
      * lia.
      * apply Hxr. by right.
      * specialize (Hd y x Hy ltac:(by left)). lia.
      * apply Hd; [done|by right].
Qed.

Lemma topk_inv_keep cap seen x r c :
  topk_inv cap seen (x :: r) -> (cap <= Z.of_nat (length (x :: r)))%Z ->
  (flowBytesTotal c <= flowBytesTotal x)%Z -> topk_inv cap (seen ++ [c]) (x :: r).
Proof.
  intros (Hh & Hl & dropped & Hp & Hd) Hfull Hle. split; [done|]. split.
  - rewrite length_app. simpl in *. lia.
  - exists (dropped ++ [c]). split; [by rewrite Hp, <- app_assoc|].
    intros y z [Hy| ->%list_elem_of_singleton]%elem_of_app Hz; [by apply Hd|].
    pose proof (heap_front _ x r minHeap_swo Hh z Hz) as Hf.
    unfold FlowMinHeapByBytes in Hf. apply Z.ltb_ge in Hf. lia.
Qed.

Lemma admit_inv cap seen heap c :
  (0 < cap)%Z -> topk_inv cap seen heap -> topk_inv cap (seen ++ [c]) (admitFlowTopK heap c cap).
Proof.
  intros Hcap Hinv. unfold admitFlowTopK. rewrite (proj2 (Z.leb_gt cap 0)) by done.
  destruct (Z.ltb_spec (Z.of_nat (length heap)) cap); [by apply topk_inv_room|].
  destruct heap as [|x r]; [simpl in *; lia|].
  destruct (Z.ltb_spec (flowBytesTotal x) (flowBytesTotal c)).
  - by apply topk_inv_evict.
  - by apply topk_inv_keep.
Qed.

(** Collecting a whole dump under a positive cap keeps exactly
    min(cap, n) flows, every kept and dropped flow is one of the dump (as a
    multiset), and no dropped flow carries more bytes than a kept one. *)
Theorem collectTopK_loudest cap flows :
  (0 < cap)%Z ->
  length (collectTopK cap flows) = min (Z.to_nat cap) (length flows) /\
  exists dropped, flows ≡ₚ collectTopK cap flows ++ dropped /\
    forall x y, x ∈ dropped -> y ∈ collectTopK cap flows -> (flowBytesTotal x <= flowBytesTotal y)%Z.
Proof.
  intros Hcap. enough (topk_inv cap flows (collectTopK cap flows)) as (_ & ? & ?) by done.
  unfold collectTopK. induction flows as [|c flows IH] using rev_ind; simpl.
  - split; [apply is_heap_nil|]. split; [by rewrite Nat.min_0_r|]. exists []. set_solver.
  - rewrite foldl_app. simpl. by apply admit_inv.
Qed.
End TopK.

Lemma collectTopK_loudest_witness :
  length (collectTopK 2 [sampleTcp; set_counters 9 9 1 1 sampleTcp; set_counters 5 5 1 1 sampleTcp]) = 2.
Proof.
  destruct (collectTopK_loudest 2 [sampleTcp; set_counters 9 9 1 1 sampleTcp; set_counters 5 5 1 1 sampleTcp])
    as [Hl _]; [reflexivity|exact Hl].
Defined.
