(* ===== verification/DeepQueue.v ===== *)
(** * The deep-attribution queue: [DeepAttribution.h], [DeepAttributionQueue.h]

    A bounded, deduplicating priority queue of flows that still lack
    attribution.  The [QHash] is a [gmap]; its iteration order and the order
    [std::partial_sort] gives to equally loud requests are parameters. *)

From S2P Require Import Prelude Qt StdAlgo Conn.

Record AttributionFlowKey := mkFlowKey {
  fk_proto : L4Proto;
  fk_localAddress : QHostAddress;
  fk_localPort : Z;
  fk_remoteAddress : QHostAddress;
  fk_remotePort : Z;
  fk_ifIndex : Z;
  fk_direction : Direction;
}.

#[global] Instance AttributionFlowKey_eq_dec : EqDecision AttributionFlowKey.
Proof. solve_decision. Defined.
#[global] Instance AttributionFlowKey_countable : Countable AttributionFlowKey.
Proof.
  refine (inj_countable'
    (fun k => (fk_proto k, fk_localAddress k, fk_localPort k, fk_remoteAddress k, fk_remotePort k,
               fk_ifIndex k, fk_direction k))
    (fun '(p, la, lp, ra, rp, i, d) => mkFlowKey p la lp ra rp i d) _).
  by intros [].
Defined.

Definition keyOf (c : Connection) : AttributionFlowKey :=
  mkFlowKey (c_proto c) (ep_address (c_local c)) (ep_port (c_local c))
    (ep_address (c_remote c)) (ep_port (c_remote c)) (c_ifIndex c) (c_direction c).

Record DeepAttributionRequest := mkRequest {
  rq_key : AttributionFlowKey;
  rq_flow : Connection;
  rq_generation : Z;
  rq_monotonicMsQueued : Z;
  rq_wantContainerChain : bool;
  rq_attempts : Z;
}.

Record DeepAttributionUpdate := mkUpdate {
  up_key : AttributionFlowKey;
  up_generation : Z;
  up_process : ProcessInfo;
  up_container : ContainerInfo;
  up_containerChain : list ContainerInfo;
  up_reason : AttributionReason;
}.

Record DeepQueue := mkQueue {
  q_byKey : gmap AttributionFlowKey DeepAttributionRequest;
  q_cap : Z;
  q_warnedOverflow : bool;
}.

Definition newQueue (capacity : Z) : DeepQueue := mkQueue ∅ capacity false.

Definition totalBytes (r : DeepAttributionRequest) : Z :=
  u64 (c_rxBytes (rq_flow r) + c_txBytes (rq_flow r)).

Definition moreBytes (a b : DeepAttributionRequest) : bool := (totalBytes b <? totalBytes a)%Z.

(** [warnOnce], its log line apart. *)
Definition warnOnce (dropped : Z) (q : DeepQueue) : DeepQueue :=
  if (dropped <=? 0)%Z || q_warnedOverflow q then q
  else mkQueue (q_byKey q) (q_cap q) true.

Definition with_byKey (m : gmap AttributionFlowKey DeepAttributionRequest) (q : DeepQueue) : DeepQueue :=
  mkQueue m (q_cap q) (q_warnedOverflow q).

(** [m_byKey.remove(all[i].key)] for each request of a list. *)
Definition removeKeys (rs : list DeepAttributionRequest)
    (m : gmap AttributionFlowKey DeepAttributionRequest) : gmap AttributionFlowKey DeepAttributionRequest :=
  foldl (fun m r => delete (rq_key r) m) m rs.

(** Merge one request into the table. *)
Definition mergeRequest (m : gmap AttributionFlowKey DeepAttributionRequest) (r : DeepAttributionRequest)
    : gmap AttributionFlowKey DeepAttributionRequest :=
  match m !! rq_key r with
  | None => <[rq_key r := r]> m
  | Some old =>
      <[rq_key r := mkRequest (rq_key r) (rq_flow r) (rq_generation old `max` rq_generation r)
          (rq_monotonicMsQueued r) (rq_wantContainerChain r) (rq_attempts old `max` rq_attempts r)]> m
  end.

Section Queue.
Context `{QHashOrder, StdSort}.

(** [for (const auto &r : std::as_const(m_byKey)) all.push_back(r)] *)
Definition allRequests (q : DeepQueue) : list DeepAttributionRequest := (hash_iter (q_byKey q)).*2.

Definition enforceCap (q : DeepQueue) : Z * DeepQueue :=
  let size := Z.of_nat (size (q_byKey q)) in
  if (q_cap q <=? 0)%Z then
    if (0 <? size)%Z then (size, warnOnce size (with_byKey ∅ q)) else (size, q)
  else if (size <=? q_cap q)%Z then (0%Z, q)
  else
    let cap := Z.to_nat (q_cap q) in
    let all := partial_sort moreBytes cap (allRequests q) in
    let dropped := (Z.of_nat (length all) - q_cap q)%Z in
    (dropped, warnOnce dropped (with_byKey (removeKeys (drop cap all) (q_byKey q)) q)).

Definition setCapacity (c : Z) (q : DeepQueue) : DeepQueue :=
  snd (enforceCap (mkQueue (q_byKey q) (if (0 <? c)%Z then c else 0%Z) (q_warnedOverflow q))).

Definition enqueue (reqs : list DeepAttributionRequest) (q : DeepQueue) : Z * DeepQueue :=
  enforceCap (with_byKey (foldl mergeRequest (q_byKey q) reqs) q).

Definition dequeue (batch : Z) (q : DeepQueue) : list DeepAttributionRequest * DeepQueue :=
  if (batch <=? 0)%Z || bool_decide (q_byKey q = ∅) then ([], q)
  else
    let n := min (Z.to_nat batch) (length (allRequests q)) in
    let all := partial_sort moreBytes n (allRequests q) in
    (take n all, with_byKey (removeKeys (take n all) (q_byKey q)) q).

Definition queueClear (q : DeepQueue) : DeepQueue := with_byKey ∅ q.

(* ------------------------------------------------------------------ *)
(** ** Well-formed queues *)

(** Every request is stored under its own key. *)
Definition keyed (m : gmap AttributionFlowKey DeepAttributionRequest) : Prop :=
  map_Forall (fun k r => rq_key r = k) m.

Lemma moreBytes_swo : swo moreBytes.
Proof. unfold moreBytes. auto with qif. Qed.

Lemma mergeRequest_keyed m r : keyed m -> keyed (mergeRequest m r).
Proof. intros Hk. unfold mergeRequest. destruct (m !! rq_key r); by apply map_Forall_insert_2. Qed.

Lemma merge_keyed reqs m : keyed m -> keyed (foldl mergeRequest m reqs).
Proof. revert m. induction reqs as [|r rs IH]; intros m Hk; simpl; [done|]. by apply IH, mergeRequest_keyed. Qed.

Lemma removeKeys_lookup rs m k r :
  removeKeys rs m !! k = Some r <-> m !! k = Some r /\ k ∉ (rq_key <$> rs).
Proof.
  revert m. induction rs as [|x rs IH]; intros m; simpl; [set_solver|].
  unfold removeKeys in *. simpl. rewrite IH, lookup_delete_Some. set_solver.
Qed.

Lemma removeKeys_subseteq rs m : removeKeys rs m ⊆ m.
Proof. apply map_subseteq_spec. intros k r Hr. by apply removeKeys_lookup in Hr as [? _]. Qed.

Lemma removeKeys_keyed rs m : keyed m -> keyed (removeKeys rs m).
Proof. intros Hk k r Hr. apply removeKeys_lookup in Hr as [Hr _]. by apply Hk. Qed.

Context `{!QHashOrderLaws, !StdSortLaws}.

Lemma allRequests_perm q : allRequests q ≡ₚ (map_to_list (q_byKey q)).*2.
Proof. unfold allRequests. by rewrite hash_iter_perm. Qed.

Lemma elem_of_allRequests q r :
  keyed (q_byKey q) -> r ∈ allRequests q <-> q_byKey q !! rq_key r = Some r.
Proof.
  intros Hk. unfold allRequests. rewrite list_elem_of_fmap. split.
  - intros ([k x] & -> & Hx%elem_of_hash_iter). simpl. by rewrite (Hk _ _ Hx).
  - intros Hr. exists (rq_key r, r). split; [done|]. by apply elem_of_hash_iter.
Qed.

Lemma allRequests_keys_NoDup q : keyed (q_byKey q) -> NoDup (rq_key <$> allRequests q).
Proof.
  intros Hk. unfold allRequests. rewrite <- list_fmap_compose.
  replace ((rq_key ∘ snd) <$> hash_iter (q_byKey q)) with ((hash_iter (q_byKey q)).*1).
  - apply hash_iter_NoDup.
  - apply list_fmap_ext. intros i [k r] Hi. simpl.
    symmetry. apply Hk. apply elem_of_hash_iter. by eapply list_elem_of_lookup_2.
Qed.

Lemma length_allRequests q : length (allRequests q) = size (q_byKey q).
Proof. unfold allRequests. by rewrite length_fmap, length_hash_iter. Qed.

(** Removing the keys of [b] from a table that holds exactly [a ++ b] leaves
    exactly [a]. *)
Lemma removeKeys_complement m a b :
  keyed m -> (forall r, m !! rq_key r = Some r <-> r ∈ a ++ b) -> NoDup (rq_key <$> a ++ b) ->
  (forall r, removeKeys b m !! rq_key r = Some r <-> r ∈ a) /\ size (removeKeys b m) = length a.
Proof.
  intros Hk Hab Hnd. rewrite fmap_app in Hnd. apply NoDup_app in Hnd as (Ha & Hdis & _).
  assert (Hlk : forall r, removeKeys b m !! rq_key r = Some r <-> r ∈ a).
  { intros r. rewrite removeKeys_lookup, Hab, elem_of_app. split.
    - intros [[?|Hb] Hn]; [done|]. exfalso. apply Hn. by apply list_elem_of_fmap_2.
    - intros Hra. split; [by left|]. apply Hdis. by apply list_elem_of_fmap_2. }
  split; [done|]. rewrite <- length_map_to_list, <- (length_fmap rq_key a).
  rewrite <- (length_fmap fst (map_to_list _)). apply Permutation_length, NoDup_Permutation;
    [apply NoDup_fst_map_to_list|done|].
  intros k. rewrite !list_elem_of_fmap. split.
  - intros ([k' r] & -> & Hr%elem_of_map_to_list). simpl. exists r.
    pose proof (removeKeys_keyed b _ Hk _ _ Hr) as Hkk. simpl in Hkk. subst k'. split; [done|]. by apply Hlk.
  - intros (r & -> & Hr). exists (rq_key r, r). split; [done|].
    apply elem_of_map_to_list. by apply Hlk.
Qed.

(** Splitting the sorted table into its loudest [n] requests and the rest:
    removing one part by key leaves exactly the other. *)
Lemma split_sorted q n :
  keyed (q_byKey q) ->
  let all := partial_sort moreBytes n (allRequests q) in
  (forall r, removeKeys (drop n all) (q_byKey q) !! rq_key r = Some r <-> r ∈ take n all) /\
  (forall r, removeKeys (take n all) (q_byKey q) !! rq_key r = Some r <-> r ∈ drop n all) /\
  NoDup (rq_key <$> take n all ++ drop n all) /\
  size (removeKeys (drop n all) (q_byKey q)) = length (take n all) /\
  size (removeKeys (take n all) (q_byKey q)) = length (drop n all).
Proof.
  intros Hk all.
  assert (Hp : take n all ++ drop n all ≡ₚ allRequests q)
    by (rewrite take_drop; apply partial_sort_perm, moreBytes_swo).
  assert (Hnd : NoDup (rq_key <$> take n all ++ drop n all)).
  { rewrite Hp. by apply allRequests_keys_NoDup. }
  assert (Hin : forall r, q_byKey q !! rq_key r = Some r <-> r ∈ take n all ++ drop n all).
  { intros r. rewrite Hp. by rewrite elem_of_allRequests. }
  destruct (removeKeys_complement (q_byKey q) (take n all) (drop n all)) as [Ht Hts]; [done..|].
  destruct (removeKeys_complement (q_byKey q) (drop n all) (take n all)) as [Hd Hds]; [done| | |done].
  - intros r. rewrite Hin, !elem_of_app. tauto.
  - by rewrite Permutation_app_comm.
Qed.

Lemma length_sorted n q : length (partial_sort moreBytes n (allRequests q)) = size (q_byKey q).
Proof. by rewrite partial_sort_length, length_allRequests by apply moreBytes_swo. Qed.

(** The capacity in force. *)
Definition effCap (q : DeepQueue) : Z := (0 `max` q_cap q)%Z.

(** What [enforceCap] does to a table: it fits, it is part of what was there,
    the count is what left, and nothing that left is louder than what stays. *)
Definition trimmedTo (m m' : gmap AttributionFlowKey DeepAttributionRequest) (cap dropped : Z) : Prop :=
  m' ⊆ m /\ (Z.of_nat (size m') = cap `min` Z.of_nat (size m))%Z /\
  dropped = (Z.of_nat (size m) - Z.of_nat (size m'))%Z /\
  forall k k' x y, m !! k = Some x -> m' !! k = None -> m' !! k' = Some y ->
    (totalBytes x <= totalBytes y)%Z.

Lemma warnOnce_byKey n q : q_byKey (warnOnce n q) = q_byKey q /\ q_cap (warnOnce n q) = q_cap q.
Proof. unfold warnOnce. by destruct (_ || _). Qed.

Lemma enforceCap_spec q :
  keyed (q_byKey q) ->
  let '(dropped, q') := enforceCap q in
  trimmedTo (q_byKey q) (q_byKey q') (effCap q) dropped /\ q_cap q' = q_cap q.
Proof.
  intros Hk. unfold enforceCap, effCap, trimmedTo.
  destruct (Z.leb_spec (q_cap q) 0).
  - destruct (Z.ltb_spec 0 (Z.of_nat (size (q_byKey q)))).
    + destruct (warnOnce_byKey (Z.of_nat (size (q_byKey q))) (with_byKey ∅ q)) as [-> ->]. simpl.
      rewrite map_size_empty. repeat split; [apply map_empty_subseteq|lia|lia|done].
    + assert (q_byKey q = ∅) as -> by (apply map_size_empty_inv; lia).
      rewrite map_size_empty. repeat split; try done; lia.
  - destruct (Z.leb_spec (Z.of_nat (size (q_byKey q))) (q_cap q)).
    + repeat split; [done|lia|lia|]. congruence.
    + set (cap := Z.to_nat (q_cap q)). rewrite length_sorted.
      match goal with |- context [warnOnce ?n ?x] => destruct (warnOnce_byKey n x) as [-> ->] end.
      destruct (split_sorted q cap Hk) as (Ht & Hd & Hnd & Hs & _). simpl.
      rewrite Hs, length_take, length_sorted.
      repeat split; [apply removeKeys_subseteq|lia|lia|].
      intros k k' x y Hx Hn Hy.
      pose proof (Hk _ _ Hx) as Hkx. simpl in Hkx. subst k.
      pose proof (removeKeys_keyed _ _ Hk _ _ Hy) as Hky. simpl in Hky. subst k'.
      apply Ht in Hy. apply elem_of_allRequests in Hx; [|done].
      rewrite <- (partial_sort_perm moreBytes cap) in Hx by apply moreBytes_swo.
      rewrite <- (take_drop cap) in Hx. apply elem_of_app in Hx as [Hx|Hx].
      { apply Ht in Hx. congruence. }
      apply Z.ltb_ge. by apply (partial_sort_top moreBytes cap (allRequests q) y x moreBytes_swo).
Qed.

(** Merging: afterwards every offered flow and every flow queued before is in
    the table, and the attempt counts only grow. *)
Lemma mergeRequest_mono m r k old :
  m !! k = Some old ->
  exists new, mergeRequest m r !! k = Some new /\ (rq_attempts old <= rq_attempts new)%Z /\
    (rq_generation old <= rq_generation new)%Z.
Proof.
  intros Hk. unfold mergeRequest. destruct (decide (rq_key r = k)) as [<-|Hne].
  - rewrite Hk, lookup_insert_eq. eexists. split; [done|]. simpl. lia.
  - destruct (m !! rq_key r); rewrite lookup_insert_ne by done; eauto with lia.
Qed.

Lemma mergeRequest_new m r :
  exists new, mergeRequest m r !! rq_key r = Some new /\ (rq_attempts r <= rq_attempts new)%Z /\
    (rq_generation r <= rq_generation new)%Z.
Proof.
  unfold mergeRequest. destruct (m !! rq_key r); rewrite lookup_insert_eq; eexists; (split; [done|]); simpl; lia.
Qed.

Lemma merge_mono reqs m k old :
  m !! k = Some old ->
  exists new, foldl mergeRequest m reqs !! k = Some new /\ (rq_attempts old <= rq_attempts new)%Z /\
    (rq_generation old <= rq_generation new)%Z.
Proof.
  revert m old. induction reqs as [|r rs IH]; intros m old Hk; simpl; [eauto with lia|].
  destruct (mergeRequest_mono m r k old Hk) as (x & Hx & ? & ?).
  destruct (IH _ _ Hx) as (y & Hy & ? & ?). exists y. split; [done|lia].
Qed.

Lemma merge_dom reqs m :
  dom (foldl mergeRequest m reqs) = dom m ∪ list_to_set (rq_key <$> reqs).
Proof.
  revert m. induction reqs as [|r rs IH]; intros m; simpl; [set_solver|].
  rewrite IH. unfold mergeRequest. destruct (m !! rq_key r); rewrite dom_insert_L; set_solver.
Qed.

Lemma enqueue_spec reqs q :
  keyed (q_byKey q) ->
  let '(dropped, q') := enqueue reqs q in
  trimmedTo (foldl mergeRequest (q_byKey q) reqs) (q_byKey q') (effCap q) dropped /\
  q_cap q' = q_cap q /\ keyed (q_byKey q').
Proof.
  intros Hk. pose proof (merge_keyed reqs _ Hk) as Hk'. unfold enqueue.
  pose proof (enforceCap_spec (with_byKey (foldl mergeRequest (q_byKey q) reqs) q) Hk') as He.
  destruct (enforceCap _) as [dropped q']. destruct He as [Ht Hc]. split; [done|]. split; [done|].
  intros k r Hr. apply Hk'. destruct Ht as [Hsub _]. by eapply lookup_weaken.
Qed.

(** Enqueueing respects the capacity and loses only the quietest flows:
    the queue holds one request per key, for as many of the keys queued or
    offered as fit; the result reports the number dropped; no dropped request
    is louder than a kept one; and a flow that stays queued never loses the
    attempts it had accumulated. *)
Theorem enqueue_bounded reqs q :
  keyed (q_byKey q) ->
  let '(dropped, q') := enqueue reqs q in
  let merged := foldl mergeRequest (q_byKey q) reqs in
  dom merged = dom (q_byKey q) ∪ list_to_set (rq_key <$> reqs) /\
  q_byKey q' ⊆ merged /\
  (Z.of_nat (size (q_byKey q')) = (0 `max` q_cap q) `min` Z.of_nat (size merged))%Z /\
  dropped = (Z.of_nat (size merged) - Z.of_nat (size (q_byKey q')))%Z /\
  (forall k k' x y, merged !! k = Some x -> q_byKey q' !! k = None -> q_byKey q' !! k' = Some y ->
    (totalBytes x <= totalBytes y)%Z) /\
  (forall k old new, q_byKey q !! k = Some old -> q_byKey q' !! k = Some new ->
    (rq_attempts old <= rq_attempts new)%Z).
Proof.
  intros Hk. pose proof (enqueue_spec reqs q Hk) as He.
  destruct (enqueue reqs q) as [dropped q']. destruct He as [(Hsub & Hsz & Hd & Hl) _].
  split; [apply merge_dom|]. split; [done|]. split; [done|]. split; [done|]. split; [done|].
  intros k old new Ho Hn. destruct (merge_mono reqs _ k old Ho) as (x & Hx & ? & _).
  pose proof (lookup_weaken _ _ _ _ Hn Hsub). congruence.
Qed.

Lemma dequeue_spec batch q :
  keyed (q_byKey q) ->
  let '(out, q') := dequeue batch q in
  length out = min (Z.to_nat batch) (size (q_byKey q)) /\
  NoDup (rq_key <$> out) /\
  (forall r, r ∈ out -> q_byKey q !! rq_key r = Some r) /\
  q_byKey q' = removeKeys out (q_byKey q) /\
  size (q_byKey q') + length out = size (q_byKey q) /\
  q_cap q' = q_cap q /\
  (forall x k y, x ∈ out -> q_byKey q' !! k = Some y -> (totalBytes y <= totalBytes x)%Z).
Proof.
  intros Hk. unfold dequeue. destruct (Z.leb_spec batch 0) as [Hb|Hb]; simpl.
  { replace (Z.to_nat batch) with 0 by lia. simpl. repeat split; [constructor|set_solver|lia|set_solver]. }
  case_bool_decide as He.
  { rewrite He, map_size_empty, Nat.min_0_r. simpl. repeat split; [constructor|set_solver|set_solver]. }
  rewrite length_allRequests. set (n := min (Z.to_nat batch) (size (q_byKey q))).
  set (all := partial_sort moreBytes n (allRequests q)).
  destruct (split_sorted q n Hk) as (Ht & Hd & Hnd & _ & Hs). fold all in Ht, Hd, Hnd, Hs.
  assert (Hlen : length all = size (q_byKey q)) by apply length_sorted. simpl.
  split; [rewrite length_take; lia|]. split.
  { rewrite fmap_app in Hnd. by apply NoDup_app in Hnd as [? _]. }
  split.
  { intros r Hr. apply elem_of_allRequests; [done|].
    rewrite <- (partial_sort_perm moreBytes n) by apply moreBytes_swo. fold all.
    rewrite <- (take_drop n all). apply elem_of_app. by left. }
  split; [done|]. split; [rewrite Hs, length_drop, length_take; lia|]. split; [done|].
  intros x k y Hx Hy. pose proof (removeKeys_keyed _ _ Hk _ _ Hy) as Hky. simpl in Hky. subst k.
  apply Hd in Hy. apply Z.ltb_ge. by apply (partial_sort_top moreBytes n (allRequests q) x y moreBytes_swo).
Qed.

(** Dequeueing removes and returns the [min batch size] loudest requests,
    each once: together with what stays they are the previous queue, and
    nothing left behind is louder than anything returned. *)
Theorem dequeue_loudest batch q :
  keyed (q_byKey q) ->
  let '(out, q') := dequeue batch q in
  length out = min (Z.to_nat batch) (size (q_byKey q)) /\ NoDup (rq_key <$> out) /\
  (forall k r, q_byKey q !! k = Some r <-> (r ∈ out /\ rq_key r = k) \/ q_byKey q' !! k = Some r) /\
  (forall r, r ∈ out -> q_byKey q' !! rq_key r = None) /\
  (forall x k y, x ∈ out -> q_byKey q' !! k = Some y -> (totalBytes y <= totalBytes x)%Z).
Proof.
  intros Hk. pose proof (dequeue_spec batch q Hk) as Hd.
  destruct (dequeue batch q) as [out q']. destruct Hd as (Hl & Hnd & Hin & Hrem & _ & _ & Hmax).
  split; [done|]. split; [done|].
  assert (Hgone : forall r, r ∈ out -> q_byKey q' !! rq_key r = None).
  { intros r Hr. destruct (q_byKey q' !! rq_key r) eqn:E; [|done]. rewrite Hrem in E.
    apply removeKeys_lookup in E as [_ E]. exfalso. apply E. by apply list_elem_of_fmap_2. }
  split; [|done]. intros k r. rewrite Hrem, removeKeys_lookup. split.
  - intros Hr. destruct (decide (k ∈ (rq_key <$> out))) as [Hko|]; [left|by right].
    apply list_elem_of_fmap in Hko as (x & -> & Hx). pose proof (Hin x Hx). by simplify_eq.
  - intros [[Hr <-]|[? _]]; [by apply Hin|done].
Qed.
End Queue.

(** A queue of capacity 2 and three flows of different loudness. *)
Definition sampleRequest (port bytes : Z) : DeepAttributionRequest :=
  let c := set_counters bytes 0 1 0
             (set_endpoints (mkEndpoint (AddrV4 167772162) port) (c_remote sampleTcp) sampleTcp) in
  mkRequest (keyOf c) c 1 0 false 0.

Lemma enqueue_bounded_witness :
  size (q_byKey (snd (enqueue [sampleRequest 1 10; sampleRequest 2 30; sampleRequest 3 20] (newQueue 2)))) = 2.
Proof.
  pose proof (enqueue_bounded [sampleRequest 1 10; sampleRequest 2 30; sampleRequest 3 20] (newQueue 2)
    (map_Forall_empty _)) as He.
  destruct (enqueue _ _) as [dropped q']. destruct He as (_ & _ & He & _). apply Nat2Z.inj.
  cbn [snd]. rewrite He. vm_compute. reflexivity.
Defined.

Lemma dequeue_loudest_witness :
  length (fst (dequeue 1 (with_byKey {[ rq_key (sampleRequest 1 10) := sampleRequest 1 10 ]} (newQueue 2)))) = 1.
Proof.
  pose proof (dequeue_loudest 1 (with_byKey {[ rq_key (sampleRequest 1 10) := sampleRequest 1 10 ]} (newQueue 2)))
    as Hd.
  destruct (dequeue 1 _) as [out q']. destruct Hd as (Hl & _).
  - apply map_Forall_singleton. reflexivity.
  - cbn [fst]. rewrite Hl. vm_compute. reflexivity.
Defined.
