(* ===== verification/DeepWorker.v ===== *)
(** * The deep-attribution worker: [ResolverDeepWorker.{h,cpp}]

    A queue, a coalescing timer and the retry loop.  The worker lives on one
    thread, so a run is a sequence of whole slot calls; [refined] is the list
    of updates a [process] tick emits. *)

From S2P Require Import Prelude Qt StdAlgo Conn Resolver Attribution DeepQueue.

Record DeepWorker := mkWorker {
  w_queue : DeepQueue;
  w_timer : option Z;  (* the running timer's interval *)
  w_active : bool;
  w_batchMax : Z;
  w_maxAttempts : Z;
  w_coalesceMs : Z;
  w_demandNetnsScan : bool;
}.

Definition newWorker : DeepWorker := mkWorker (newQueue 8192) None true 256 12 100 false.

Definition with_queue (q : DeepQueue) (w : DeepWorker) : DeepWorker :=
  mkWorker q (w_timer w) (w_active w) (w_batchMax w) (w_maxAttempts w) (w_coalesceMs w) (w_demandNetnsScan w).
Definition with_timer (t : option Z) (w : DeepWorker) : DeepWorker :=
  mkWorker (w_queue w) t (w_active w) (w_batchMax w) (w_maxAttempts w) (w_coalesceMs w) (w_demandNetnsScan w).

Definition queueEmpty (q : DeepQueue) : bool := bool_decide (q_byKey q = ∅).

Section Worker.
Context `{QHashOrder, StdSort}.

Definition workerSetTuning (t : ResolverTuning) (w : DeepWorker) : DeepWorker :=
  let coalesce := if (0 <? deepCoalesceMs t)%Z then deepCoalesceMs t else 50%Z in
  mkWorker (setCapacity (deepQueueMax t) (w_queue w))
    (match w_timer w with Some _ => Some coalesce | None => None end)
    (w_active w)
    (if (0 <? deepBatchMax t)%Z then deepBatchMax t else 1%Z)
    (if (0 <? deepMaxAttempts t)%Z then deepMaxAttempts t else 1%Z)
    coalesce (deepDemandNetnsScan t).

Definition ensureRunning (w : DeepWorker) : DeepWorker :=
  match w_timer w with
  | None => if queueEmpty (w_queue w) then w else with_timer (Some (w_coalesceMs w)) w
  | Some _ => w
  end.

Definition workerEnqueue (reqs : list DeepAttributionRequest) (w : DeepWorker) : DeepWorker :=
  if negb (w_active w) || isEmpty reqs then w
  else ensureRunning (with_queue (snd (enqueue reqs (w_queue w))) w).

Definition workerClear (w : DeepWorker) : DeepWorker :=
  with_timer None (with_queue (queueClear (w_queue w)) w).

Definition setActive (active : bool) (w : DeepWorker) : DeepWorker :=
  let w' := mkWorker (w_queue w) (w_timer w) active (w_batchMax w) (w_maxAttempts w) (w_coalesceMs w)
              (w_demandNetnsScan w) in
  if active then w' else workerClear w'.

Section Process.
Context {S : Type} (resolver : option (Resolver S)) (startTimeOf : S -> Z -> Z).

(** What one request gained over the snapshot it was queued with. *)
Definition gained (req : DeepAttributionRequest) (got : Connection) : bool :=
  (processValid (c_process got) && negb (processValid (c_process (rq_flow req))))
  || (containerValid (c_container got) && negb (containerValid (c_container (rq_flow req))))
  || (negb (isEmpty (c_containerChain got)) && isEmpty (c_containerChain (rq_flow req))).

Definition updateOf (req : DeepAttributionRequest) (got : Connection) : DeepAttributionUpdate :=
  mkUpdate (rq_key req) (rq_generation req) (c_process got) (c_container got) (c_containerChain got)
    (if processValid (c_process got) then Resolved else c_reason (rq_flow req)).

Definition again (req : DeepAttributionRequest) : DeepAttributionRequest :=
  mkRequest (rq_key req) (rq_flow req) (rq_generation req) (rq_monotonicMsQueued req)
    (rq_wantContainerChain req) (rq_attempts req + 1).

(** The private one-flow snapshot the retry attributes: [one.front()]. *)
Definition retryOne (req : DeepAttributionRequest) (s : S) : Connection * S :=
  let '(one, s) := attributeFlows resolver startTimeOf (rq_wantContainerChain req) [rq_flow req] s in
  (match one with c :: _ => c | [] => rq_flow req end, s).

(** One turn of the batch loop: the updates and retries gathered so far. *)
Definition processOne (maxAttempts : Z) (acc : list DeepAttributionUpdate * list DeepAttributionRequest * S)
    (req : DeepAttributionRequest) : list DeepAttributionUpdate * list DeepAttributionRequest * S :=
  let '(updates, retry, s) := acc in
  let '(got, s) := retryOne req s in
  if gained req got then (updates ++ [updateOf req got], retry, s)
  else if (rq_attempts req + 1 <? maxAttempts)%Z then (updates, retry ++ [again req], s)
  else (updates, retry, s).

Definition process (w : DeepWorker) (s : S) : list DeepAttributionUpdate * DeepWorker * S :=
  match resolver with
  | None => ([], workerClear w, s)
  | Some r =>
      if negb (w_active w) then ([], workerClear w, s)
      else
        let '(batch, q) := dequeue (w_batchMax w) (w_queue w) in
        let '(updates, retry, s) := foldl (processOne (w_maxAttempts w)) ([], [], s) batch in
        let '(q, s) :=
          if isEmpty retry then (q, s)
          else (snd (enqueue retry q), if w_demandNetnsScan w then r_requestDeepScan r s else s) in
        (updates, with_timer (if queueEmpty q then None else w_timer w) (with_queue q w), s)
  end.
End Process.

(* ------------------------------------------------------------------ *)
(** ** The worker's invariant *)

(** Budgets are positive, the queue is well formed and within capacity, and
    no work is stranded: a nonempty queue means an active worker with its
    timer running. *)
Record worker_ok (w : DeepWorker) : Prop := {
  wok_batch : (0 < w_batchMax w)%Z;
  wok_attempts : (0 < w_maxAttempts w)%Z;
  wok_coalesce : (0 < w_coalesceMs w)%Z;
  wok_keyed : keyed (q_byKey (w_queue w));
  wok_cap : (Z.of_nat (size (q_byKey (w_queue w))) <= effCap (w_queue w))%Z;
  wok_work : q_byKey (w_queue w) <> ∅ -> w_active w = true /\ is_Some (w_timer w);
}.

Context `{!QHashOrderLaws, !StdSortLaws}.

Lemma enqueue_fits reqs q :
  keyed (q_byKey q) ->
  let q' := snd (enqueue reqs q) in
  keyed (q_byKey q') /\ (Z.of_nat (size (q_byKey q')) <= effCap q')%Z.
Proof.
  intros Hk. pose proof (enqueue_spec reqs q Hk) as He. destruct (enqueue reqs q) as [d q'].
  destruct He as ((_ & Hs & _) & Hc & Hk'). simpl. split; [done|]. unfold effCap in *. rewrite Hc. lia.
Qed.

Lemma ensureRunning_ok w :
  (0 < w_batchMax w)%Z -> (0 < w_maxAttempts w)%Z -> (0 < w_coalesceMs w)%Z ->
  keyed (q_byKey (w_queue w)) -> (Z.of_nat (size (q_byKey (w_queue w))) <= effCap (w_queue w))%Z ->
  w_active w = true -> worker_ok (ensureRunning w).
Proof.
  intros. unfold ensureRunning, queueEmpty. destruct (w_timer w) eqn:Et; [|case_bool_decide];
    split; simpl; auto; try done; rewrite Et; eauto.
Qed.

Lemma workerClear_ok w :
  (0 < w_batchMax w)%Z -> (0 < w_maxAttempts w)%Z -> (0 < w_coalesceMs w)%Z -> worker_ok (workerClear w).
Proof.
  intros. split; simpl; [done..|apply map_Forall_empty| |done]. rewrite map_size_empty. unfold effCap. simpl. lia.
Qed.

Lemma setCapacity_ok c q :
  keyed (q_byKey q) ->
  let q' := setCapacity c q in
  q_byKey q' ⊆ q_byKey q /\ keyed (q_byKey q') /\ (Z.of_nat (size (q_byKey q')) <= effCap q')%Z.
Proof.
  intros Hk. unfold setCapacity.
  set (q0 := mkQueue (q_byKey q) (if (0 <? c)%Z then c else 0%Z) (q_warnedOverflow q)).
  pose proof (enforceCap_spec q0 Hk) as He. destruct (enforceCap q0) as [d q']. simpl.
  destruct He as ((Hsub & Hs & _) & Hc). split; [done|]. unfold effCap in *. rewrite Hc.
  split; [|lia]. intros k r Hr. apply Hk. by eapply lookup_weaken.
Qed.

Lemma workerSetTuning_ok t w : worker_ok w -> worker_ok (workerSetTuning t w).
Proof.
  intros [Hb Hm Hco Hky Hfit Hwork].
  destruct (setCapacity_ok (deepQueueMax t) (w_queue w) Hky) as (Hsub & Hk & Hc).
  split; simpl; [by destruct (Z.ltb_spec 0 (deepBatchMax t))|by destruct (Z.ltb_spec 0 (deepMaxAttempts t))
    |by destruct (Z.ltb_spec 0 (deepCoalesceMs t))|done|done|].
  intros Hne. destruct Hwork as [Ha [i Hi]]; [|rewrite Hi; eauto]. by eapply map_sub_nonempty.
Qed.

Lemma workerEnqueue_ok reqs w : worker_ok w -> worker_ok (workerEnqueue reqs w).
Proof.
  intros Hok. unfold workerEnqueue.
  destruct (w_active w) eqn:Ea; [|done]. destruct (isEmpty reqs); [done|]. simpl.
  destruct Hok as [Hb Hm Hco Hky Hfit Hwork].
  destruct (enqueue_fits reqs (w_queue w) Hky). by apply ensureRunning_ok.
Qed.

Lemma setActive_ok b w : worker_ok w -> worker_ok (setActive b w).
Proof.
  intros [Hb Hm Hco Hky Hfit Hwork]. destruct b; [|by apply workerClear_ok].
  split; simpl; auto. intros Hne. by destruct (Hwork Hne).
Qed.

Section Tick.
Context {S : Type} (resolver : option (Resolver S)) (startTimeOf : S -> Z -> Z).

Lemma dequeue_keyed n q : keyed (q_byKey q) ->
  keyed (q_byKey (snd (dequeue n q))) /\ q_byKey (snd (dequeue n q)) ⊆ q_byKey q /\
  q_cap (snd (dequeue n q)) = q_cap q.
Proof.
  intros Hk. pose proof (dequeue_spec n q Hk) as Hd. destruct (dequeue n q) as [out q']. simpl.
  destruct Hd as (_ & _ & _ & -> & _ & -> & _). auto using removeKeys_keyed, removeKeys_subseteq.
Qed.

Lemma process_ok w s : worker_ok w -> worker_ok (snd (fst (process resolver startTimeOf w s))).
Proof.
  intros [Hb Hm Hco Hky Hfit Hwork]. unfold process. destruct resolver as [r|]; [|by apply workerClear_ok].
  destruct (w_active w) eqn:Ea; simpl; [|by apply workerClear_ok].
  destruct (dequeue_keyed (w_batchMax w) (w_queue w) Hky) as (Hk & Hsub & Hcap).
  pose proof (dequeue_spec (w_batchMax w) (w_queue w) Hky) as Hd.
  destruct (dequeue (w_batchMax w) (w_queue w)) as [batch q]. simpl in *.
  destruct Hd as (_ & _ & Hin & _).
  destruct (foldl _ _ batch) as [[updates retry] s1] eqn:Ef.
  assert (Hsize : (Z.of_nat (size (q_byKey q)) <= effCap q)%Z).
  { unfold effCap in *. rewrite Hcap. apply map_subseteq_size in Hsub. lia. }
  assert (Hgen : forall q', keyed (q_byKey q') -> (Z.of_nat (size (q_byKey q')) <= effCap q')%Z ->
    (q_byKey q' <> ∅ -> is_Some (w_timer w)) ->
    worker_ok (with_timer (if queueEmpty q' then None else w_timer w) (with_queue q' w))).
  { intros q' Hk' Hc' Ht. split; simpl; auto. intros Hne. split; [done|].
    unfold queueEmpty. case_bool_decide; [done|auto]. }
  assert (Hold : q_byKey q <> ∅ -> is_Some (w_timer w)).
  { intros Hne. apply Hwork. by eapply map_sub_nonempty. }
  destruct (isEmpty retry) eqn:Er; simpl; [by apply Hgen|].
  destruct (enqueue_fits retry q Hk) as [? ?]. apply Hgen; [done|done|]. intros _. apply Hwork. intros He.
  destruct batch as [|x batch]; [|by specialize (Hin x ltac:(by left)); rewrite He in Hin].
  simpl in Ef. by simplify_eq.
Qed.

(** Everything that can happen to a worker. *)
Inductive worker_step : DeepWorker -> DeepWorker -> Prop :=
| wstep_enqueue reqs w : worker_step w (workerEnqueue reqs w)
| wstep_active b w : worker_step w (setActive b w)
| wstep_clear w : worker_step w (workerClear w)
| wstep_tuning t w : worker_step w (workerSetTuning t w)
| wstep_process w s : worker_step w (snd (fst (process resolver startTimeOf w s))).

Lemma worker_step_ok w w' : worker_step w w' -> worker_ok w -> worker_ok w'.
Proof.
  destruct 1; auto using workerEnqueue_ok, setActive_ok, workerSetTuning_ok, process_ok.
  intros []. by apply workerClear_ok.
Qed.

Lemma newWorker_ok : worker_ok newWorker.
Proof. split; simpl; done || apply map_Forall_empty. Qed.

(** No stranded work: in every reachable state the queue is within its
    capacity, its requests sit under their own keys, the batch, retry and
    interval settings are positive, and whenever requests are queued the
    worker is active and its timer is running. *)
Theorem worker_reachable_ok w : rtc worker_step newWorker w -> worker_ok w.
Proof.
  intros Hr. generalize newWorker_ok. induction Hr as [|a b c Hst _ IH]; [done|].
  intros Hok. apply IH. by eapply worker_step_ok.
Qed.

(* ------------------------------------------------------------------ *)
(** ** Retries are bounded *)

(** Ticks a request can still survive. *)
Definition patience (maxAttempts : Z) (r : DeepAttributionRequest) : nat :=
  1 `max` Z.to_nat (maxAttempts - rq_attempts r).

Definition workload (maxAttempts : Z) (m : gmap AttributionFlowKey DeepAttributionRequest) : nat :=
  map_fold (fun _ r n => patience maxAttempts r + n) 0 m.

Lemma workload_empty maxA : workload maxA ∅ = 0.
Proof. apply map_fold_empty. Qed.

Lemma workload_pos maxA m : m <> ∅ -> 0 < workload maxA m.
Proof.
  intros He. destruct (map_choose _ He) as (k & x & Hx). unfold workload.
  rewrite <- (insert_delete_id m k x Hx), map_fold_insert_L; [unfold patience; lia|intros; lia|].
  apply lookup_delete_eq.
Qed.

Lemma workload_insert maxA m k r :
  m !! k = None -> workload maxA (<[k := r]> m) = patience maxA r + workload maxA m.
Proof. intros Hk. unfold workload. rewrite map_fold_insert_L; [done|intros; lia|done]. Qed.

Lemma workload_delete maxA m k r :
  m !! k = Some r -> workload maxA m = patience maxA r + workload maxA (delete k m).
Proof. intros Hk. rewrite <- (insert_delete_id m k r Hk) at 1. rewrite workload_insert; [done|apply lookup_delete_eq]. Qed.

Lemma workload_subseteq maxA m m' : m ⊆ m' -> workload maxA m <= workload maxA m'.
Proof.
  revert m. induction m' as [|k r m' Hk IH] using map_ind; intros m Hsub.
  { apply map_sub_empty in Hsub as ->. done. }
  rewrite workload_insert by done. destruct (m !! k) as [x|] eqn:Em.
  - pose proof (lookup_weaken _ _ _ _ Em Hsub) as Hx. rewrite lookup_insert_eq in Hx. injection Hx as ->.
    rewrite (workload_delete _ _ _ _ Em).
    assert (Hd : delete k m ⊆ m'); [|specialize (IH _ Hd); lia].
    rewrite <- (delete_insert_id m' k x Hk). by apply delete_mono.
  - assert (Hd : m ⊆ m'); [|specialize (IH _ Hd); lia].
    apply map_subseteq_spec. intros j y Hj. pose proof (lookup_weaken _ _ _ _ Hj Hsub) as Hy.
    rewrite lookup_insert_ne in Hy by congruence. done.
Qed.

Lemma workload_merge maxA rs m :
  workload maxA (foldl mergeRequest m rs) <= workload maxA m + sum_list_with (patience maxA) rs.
Proof.
  revert m. induction rs as [|r rs IH]; intros m; simpl; [lia|].
  rewrite IH. enough (workload maxA (mergeRequest m r) <= patience maxA r + workload maxA m) by lia.
  unfold mergeRequest. destruct (m !! rq_key r) as [old|] eqn:Eo.
  - rewrite (workload_delete _ _ _ _ Eo), <- insert_delete_eq, workload_insert by apply lookup_delete_eq.
    unfold patience at 1. simpl. unfold patience. lia.
  - by rewrite workload_insert.
Qed.

Lemma workload_remove maxA rs m :
  NoDup (rq_key <$> rs) -> (forall r, r ∈ rs -> m !! rq_key r = Some r) ->
  workload maxA (removeKeys rs m) + sum_list_with (patience maxA) rs = workload maxA m.
Proof.
  revert m. induction rs as [|r rs IH]; intros m Hnd Hin; simpl; [unfold removeKeys; simpl; lia|].
  apply NoDup_cons in Hnd as [Hr Hnd].
  assert (Hm : m !! rq_key r = Some r) by (apply Hin; by left).
  rewrite (workload_delete _ _ _ _ Hm).
  unfold removeKeys in *. simpl. rewrite <- (IH (delete (rq_key r) m)); [lia|done|].
  intros x Hx. rewrite lookup_delete_ne; [apply Hin; by right|].
  intros Heq. apply Hr. rewrite Heq. by apply list_elem_of_fmap_2.
Qed.

Lemma processOne_retry maxA batch acc :
  let '(_, retry0, _) := acc in
  let '(_, retry, _) := foldl (processOne resolver startTimeOf maxA) acc batch in
  sum_list_with (patience maxA) retry + length batch
    <= sum_list_with (patience maxA) retry0 + sum_list_with (patience maxA) batch.
Proof.
  revert acc. induction batch as [|r batch IH]; intros [[u0 retry0] s0]; [simpl; lia|]. cbn [foldl].
  specialize (IH (processOne resolver startTimeOf maxA (u0, retry0, s0) r)).
  assert (Hone : let '(_, retry1, _) := processOne resolver startTimeOf maxA (u0, retry0, s0) r in
    sum_list_with (patience maxA) retry1 + 1 <= sum_list_with (patience maxA) retry0 + patience maxA r).
  { unfold processOne. destruct (retryOne _ _ r s0) as [got s1].
    destruct (gained r got); [unfold patience at 3; lia|].
    destruct (Z.ltb_spec (rq_attempts r + 1) maxA); [|unfold patience at 3; lia].
    rewrite sum_list_with_app. simpl. unfold patience. simpl. lia. }
  destruct (processOne resolver startTimeOf maxA (u0, retry0, s0) r) as [[u1 retry1] s1].
  destruct (foldl _ _ batch) as [[u retry] s]. simpl. lia.
Qed.

Lemma process_inactive w s :
  w_active w = false \/ resolver = None ->
  process resolver startTimeOf w s = ([], workerClear w, s).
Proof. unfold process. destruct resolver; [|done]. intros [->|]; done. Qed.

(** The queue after a tick of an active worker, with the retry list. *)
Lemma process_active w s r :
  resolver = Some r -> w_active w = true ->
  let '(batch, q) := dequeue (w_batchMax w) (w_queue w) in
  let '(updates, retry, _) := foldl (processOne resolver startTimeOf (w_maxAttempts w)) ([], [], s) batch in
  let q' := if isEmpty retry then q else snd (enqueue retry q) in
  let '(updates', w', _) := process resolver startTimeOf w s in
  updates' = updates /\ w_queue w' = q' /\
  w_timer w' = (if queueEmpty q' then None else w_timer w) /\
  w_active w' = true /\ w_maxAttempts w' = w_maxAttempts w /\ w_batchMax w' = w_batchMax w.
Proof.
  intros -> Ha. unfold process. rewrite Ha. simpl.
  destruct (dequeue (w_batchMax w) (w_queue w)) as [batch q].
  destruct (foldl _ _ batch) as [[updates retry] s1]. by destruct (isEmpty retry).
Qed.

Lemma process_workload w s :
  worker_ok w ->
  let w' := snd (fst (process resolver startTimeOf w s)) in
  let load := workload (w_maxAttempts w) in
  w_maxAttempts w' = w_maxAttempts w /\
  (q_byKey (w_queue w') = ∅ -> w_timer w' = None) /\
  (load (q_byKey (w_queue w')) + (if queueEmpty (w_queue w) then 0 else 1) <= load (q_byKey (w_queue w))).
Proof.
  intros [Hb Hm Hco Hky Hfit Hwork]. cbv zeta.
  assert (Hr : resolver = None \/ exists r, resolver = Some r) by (destruct resolver; eauto).
  destruct Hr as [Hr|[r Er]]; [rewrite process_inactive by auto; simpl|].
  { repeat split. rewrite workload_empty. unfold queueEmpty. case_bool_decide as He; [lia|].
    pose proof (workload_pos (w_maxAttempts w) _ He). lia. }
  destruct (w_active w) eqn:Ea; [|rewrite process_inactive by auto; simpl].
  2: { assert (Hnil : q_byKey (w_queue w) = ∅).
       { destruct (decide (q_byKey (w_queue w) = ∅)) as [|Hne]; [done|]. by destruct (Hwork Hne). }
       repeat split. unfold queueEmpty. rewrite Hnil, bool_decide_eq_true_2, workload_empty by done. lia. }
  pose proof (process_active w s r Er Ea) as Hp.
  pose proof (dequeue_spec (w_batchMax w) (w_queue w) Hky) as Hd.
  pose proof (dequeue_keyed (w_batchMax w) (w_queue w) Hky) as (Hqk & _).
  destruct (dequeue (w_batchMax w) (w_queue w)) as [batch q].
  destruct Hd as (Hlen & Hnd & Hin & Hrem & Hsz & _ & _).
  pose proof (processOne_retry (w_maxAttempts w) batch ([], [], s)) as Hret.
  destruct (foldl _ _ batch) as [[updates retry] s1]. simpl in Hret.
  destruct (process resolver startTimeOf w s) as [[u w'] s']. destruct Hp as (_ & Hq & Ht & _ & Hma & _).
  simpl. split; [done|]. split.
  { intros He. rewrite Ht, <- Hq. unfold queueEmpty. by rewrite bool_decide_eq_true_2. }
  pose proof (workload_remove (w_maxAttempts w) batch (q_byKey (w_queue w)) Hnd Hin) as Hw.
  assert (Hq' : workload (w_maxAttempts w) (q_byKey (w_queue w')) <=
    workload (w_maxAttempts w) (q_byKey q) + sum_list_with (patience (w_maxAttempts w)) retry).
  { rewrite Hq. destruct (isEmpty retry); [lia|].
    pose proof (enqueue_spec retry q Hqk) as He. destruct (enqueue retry q) as [d q'].
    destruct He as ((Hsub & _) & _). simpl. apply (workload_subseteq (w_maxAttempts w)) in Hsub.
    pose proof (workload_merge (w_maxAttempts w) retry (q_byKey q)). lia. }
  rewrite <- Hrem in Hw.
  assert ((if queueEmpty (w_queue w) then 0 else 1) <= length batch); [|lia].
  unfold queueEmpty. case_bool_decide as He; [lia|]. apply map_size_non_empty_iff in He. lia.
Qed.

(** [n] timer ticks in a row. *)
Fixpoint ticks (n : nat) (w : DeepWorker) (s : S) : DeepWorker * S :=
  match n with
  | 0 => (w, s)
  | Datatypes.S n' => let '(_, w', s') := process resolver startTimeOf w s in ticks n' w' s'
  end.

Lemma ticks_workload n w s :
  worker_ok w -> workload (w_maxAttempts w) (q_byKey (w_queue w)) < n ->
  let w' := fst (ticks n w s) in q_byKey (w_queue w') = ∅ /\ w_timer w' = None.
Proof.
  revert w s. induction n as [|n IH]; intros w s Hok Hn; [lia|].
  pose proof (process_ok w s Hok) as Hok'. pose proof (process_workload w s Hok) as (Hma & Ht & Hload).
  simpl. destruct (process resolver startTimeOf w s) as [[u w'] s']. simpl in *.
  unfold queueEmpty in Hload. case_bool_decide as He.
  - rewrite He, workload_empty in Hload.
    assert (Hnil : q_byKey (w_queue w') = ∅).
    { destruct (decide (q_byKey (w_queue w') = ∅)) as [|Hne]; [done|exfalso].
      pose proof (workload_pos (w_maxAttempts w) _ Hne). lia. }
    destruct n as [|n]; [by auto|]. apply IH; [done|]. rewrite Hnil, workload_empty. lia.
  - apply IH; [done|]. rewrite Hma. lia.
Qed.

(** C20. Retries end: whatever the resolver answers, if nothing new is
    enqueued then after at most one tick more than the attempts left in the
    queue (at most [maxAttempts] per request) the queue is empty and the timer
    has stopped, so a flow that can never be attributed does not keep the
    worker busy. *)
Theorem worker_quiesces w s :
  worker_ok w ->
  let n := Datatypes.S (workload (w_maxAttempts w) (q_byKey (w_queue w))) in
  q_byKey (w_queue (fst (ticks n w s))) = ∅ /\ w_timer (fst (ticks n w s)) = None.
Proof. intros Hok. apply ticks_workload; [done|lia]. Qed.

(** What the batch loop produced for a list of requests. *)
Definition batch_outcome (maxA : Z) (batch : list DeepAttributionRequest)
    (updates : list DeepAttributionUpdate) (retry : list DeepAttributionRequest) : Prop :=
  (forall u, u ∈ updates -> exists req s1, req ∈ batch /\
     let got := fst (retryOne resolver startTimeOf req s1) in gained req got = true /\ u = updateOf req got) /\
  (forall x, x ∈ retry -> exists req, req ∈ batch /\ x = again req /\ (rq_attempts req + 1 < maxA)%Z) /\
  (up_key <$> updates) ++ (rq_key <$> retry) ⊆+ rq_key <$> batch /\
  (forall req, req ∈ batch -> exists s1, let got := fst (retryOne resolver startTimeOf req s1) in
     if gained req got then updateOf req got ∈ updates
     else (rq_attempts req + 1 < maxA)%Z -> again req ∈ retry).

Lemma processOne_outcome maxA batch s :
  let '(updates, retry, _) := foldl (processOne resolver startTimeOf maxA) ([], [], s) batch in
  batch_outcome maxA batch updates retry.
Proof.
  induction batch as [|r batch IH] using rev_ind; [simpl; repeat split; set_solver|].
  rewrite foldl_app. cbn [foldl]. destruct (foldl _ _ batch) as [[u0 retry0] s0].
  destruct IH as (Hu & Hx & Hk & Hall). unfold processOne.
  destruct (retryOne _ _ r s0) as [got s1] eqn:Eg.
  assert (Hu' : forall u, u ∈ u0 -> exists req s1, req ∈ batch ++ [r] /\
    let got := fst (retryOne resolver startTimeOf req s1) in gained req got = true /\ u = updateOf req got).
  { intros u Hin. destruct (Hu u Hin) as (q & sq & ? & ?). exists q, sq. split; [set_solver|done]. }
  assert (Hx' : forall x, x ∈ retry0 -> exists req, req ∈ batch ++ [r] /\ x = again req /\
    (rq_attempts req + 1 < maxA)%Z).
  { intros x Hin. destruct (Hx x Hin) as (q & ? & ?). exists q. split; [set_solver|done]. }
  assert (Hall' : forall u1 x1, u0 ⊆ u1 -> retry0 ⊆ x1 ->
    (let got := fst (retryOne resolver startTimeOf r s0) in
     if gained r got then updateOf r got ∈ u1 else (rq_attempts r + 1 < maxA)%Z -> again r ∈ x1) ->
    forall req, req ∈ batch ++ [r] -> exists s1, let got := fst (retryOne resolver startTimeOf req s1) in
     if gained req got then updateOf req got ∈ u1 else (rq_attempts req + 1 < maxA)%Z -> again req ∈ x1).
  { intros u1 x1 Hsu Hsx Hr req [Hin| ->%list_elem_of_singleton]%elem_of_app; [|by exists s0].
    destruct (Hall req Hin) as [sr Hsr]. exists sr. cbv zeta in *. destruct (gained req _); auto. }
  cbv zeta in Hall'. rewrite Eg in Hall'. cbn [fst] in Hall'.
  destruct (gained r got) eqn:Egain; [|destruct (Z.ltb_spec (rq_attempts r + 1) maxA)].
  - split; [|split; [done|split]].
    + intros u [Hin| ->%list_elem_of_singleton]%elem_of_app; [by apply Hu'|].
      exists r, s0. rewrite Eg. split; [set_solver|done].
    + rewrite !fmap_app. simpl. rewrite <- app_assoc, (Permutation_app_comm [_]), app_assoc.
      by apply submseteq_app.
    + apply Hall'; set_solver.
  - split; [done|]. split; [|split].
    + intros x [Hin| ->%list_elem_of_singleton]%elem_of_app; [by apply Hx'|]. exists r. split; [set_solver|done].
    + rewrite !fmap_app, app_assoc. by apply submseteq_app.
    + apply Hall'; set_solver.
  - split; [done|]. split; [done|]. split; [rewrite fmap_app; by apply submseteq_inserts_r|].
    apply Hall'; [done|done|lia].
Qed.

(** Enqueueing requests with fresh, distinct keys only adds them. *)
Lemma merge_fresh rs m k :
  NoDup (rq_key <$> rs) -> (forall r, r ∈ rs -> m !! rq_key r = None) ->
  forall x, foldl mergeRequest m rs !! k = Some x -> m !! k = Some x \/ x ∈ rs.
Proof.
  revert m. induction rs as [|r rs IH]; intros m Hnd Hf x Hx; simpl in *; [by left|].
  apply NoDup_cons in Hnd as [Hr Hnd].
  assert (Hm : mergeRequest m r = <[rq_key r := r]> m) by (unfold mergeRequest; by rewrite Hf by left).
  rewrite Hm in Hx. apply IH in Hx; [|done|].
  - destruct Hx as [Hx|Hx]; [|right; by right].
    destruct (decide (rq_key r = k)) as [<-|]; [rewrite lookup_insert_eq in Hx|rewrite lookup_insert_ne in Hx by done; by left].
    simplify_eq. right. by left.
  - intros y Hy. rewrite lookup_insert_ne; [apply Hf; by right|].
    intros Heq. apply Hr. rewrite Heq. by apply list_elem_of_fmap_2.
Qed.

Lemma merge_other rs m k : k ∉ (rq_key <$> rs) -> foldl mergeRequest m rs !! k = m !! k.
Proof.
  revert m. induction rs as [|r rs IH]; intros m Hk; [done|]. cbn [foldl]. apply not_elem_of_cons in Hk as [Hne Hk].
  rewrite IH by done. unfold mergeRequest. destruct (m !! rq_key r); by rewrite lookup_insert_ne.
Qed.

(** With room for all of them, every one of them is kept. *)
Lemma enqueue_roomy rs q r :
  keyed (q_byKey q) -> NoDup (rq_key <$> rs) -> (forall x, x ∈ rs -> q_byKey q !! rq_key x = None) ->
  (Z.of_nat (size (q_byKey q) + length rs) <= effCap q)%Z -> r ∈ rs ->
  q_byKey (snd (enqueue rs q)) !! rq_key r = Some r.
Proof.
  intros Hk Hnd Hf Hroom Hr. pose proof (enqueue_spec rs q Hk) as He. destruct (enqueue rs q) as [d q'].
  destruct He as ((Hsub & Hsize & _) & _). cbn [snd].
  assert (Hle : size (foldl mergeRequest (q_byKey q) rs) <= size (q_byKey q) + length rs).
  { rewrite <- size_dom, merge_dom, size_union; [rewrite size_dom, (size_list_to_set _ Hnd), length_fmap; done|].
    intros k Hkq Hkr. apply elem_of_list_to_set, list_elem_of_fmap in Hkr as (x & -> & Hx).
    by apply elem_of_dom in Hkq as [? ?]; rewrite Hf in *. }
  assert (Heq : q_byKey q' = foldl mergeRequest (q_byKey q) rs) by (apply map_subseteq_size_eq; [done|lia]).
  rewrite Heq. clear -Hnd Hf Hr. revert Hnd Hf Hr. generalize (q_byKey q).
  induction rs as [|x rs IH]; intros m Hnd Hf Hr; [by apply not_elem_of_nil in Hr|].
  apply NoDup_cons in Hnd as [Hx Hnd]. cbn [foldl].
  assert (Hm : mergeRequest m x = <[rq_key x := x]> m) by (unfold mergeRequest; by rewrite Hf by left).
  rewrite Hm. assert (Hf' : forall y, y ∈ rs -> <[rq_key x := x]> m !! rq_key y = None).
  { intros y Hy. rewrite lookup_insert_ne; [apply Hf; by right|]. intros Hxy. apply Hx. rewrite Hxy. by apply list_elem_of_fmap_2. }
  apply elem_of_cons in Hr as [->|Hr]; [|by apply IH].
  rewrite merge_other; [apply lookup_insert_eq|done].
Qed.

(** The queue after the retries: what was left, or a retried request. *)
Lemma retry_queue batch retry q q0 k x :
  keyed (q_byKey q0) -> q_byKey q = removeKeys batch (q_byKey q0) ->
  NoDup (rq_key <$> retry) -> (rq_key <$> retry) ⊆ (rq_key <$> batch) ->
  q_byKey (if isEmpty retry then q else snd (enqueue retry q)) !! k = Some x ->
  q_byKey q !! k = Some x \/ (x ∈ retry /\ rq_key x = k).
Proof.
  intros Hk Hq Hnd Hsub Hx. destruct (isEmpty retry); [by left|].
  assert (Hqk : keyed (q_byKey q)) by (rewrite Hq; by apply removeKeys_keyed).
  pose proof (enqueue_spec retry q Hqk) as He. destruct (enqueue retry q) as [d q']. simpl in Hx.
  destruct He as ((Hs & _) & _ & Hk'). pose proof (Hk' _ _ Hx) as Hkx. simpl in Hkx.
  apply (lookup_weaken _ _ _ _) with (1 := Hx) in Hs as Hm. apply merge_fresh in Hm; [naive_solver|done|].
  intros y Hy. rewrite Hq. destruct (removeKeys batch (q_byKey q0) !! rq_key y) eqn:Ey; [|done].
  apply removeKeys_lookup in Ey as [_ Hn]. exfalso. apply Hn, Hsub. by apply list_elem_of_fmap_2.
Qed.

(** What a tick of an active worker does to the batch it takes (the
    loudest queued requests).  A request that gained a process, a container or
    a chain over the queued snapshot is answered by an update, with its key
    and generation, the attribution the resolver just gave, and reason
    Resolved when there is a process; it leaves the queue.  Any other one goes
    back with one more attempt while below the limit.  Updates are emitted for
    nothing else, and a request still queued afterwards is one that was not
    taken or one that was sent back. *)
Theorem process_outcome w s r :
  worker_ok w -> resolver = Some r -> w_active w = true ->
  let '(updates, w', _) := process resolver startTimeOf w s in
  (forall u, u ∈ updates -> exists req s1,
     q_byKey (w_queue w) !! up_key u = Some req /\
     (let got := fst (retryOne resolver startTimeOf req s1) in gained req got = true /\ u = updateOf req got) /\
     q_byKey (w_queue w') !! up_key u = None) /\
  (forall k x, q_byKey (w_queue w') !! k = Some x ->
     q_byKey (w_queue w) !! k = Some x \/
     exists req, q_byKey (w_queue w) !! k = Some req /\ x = again req /\
       (rq_attempts req + 1 < w_maxAttempts w)%Z) /\
  (forall req, req ∈ fst (dequeue (w_batchMax w) (w_queue w)) ->
     exists s1, let got := fst (retryOne resolver startTimeOf req s1) in
     if gained req got then updateOf req got ∈ updates
     else (rq_attempts req + 1 < w_maxAttempts w)%Z -> q_byKey (w_queue w') !! rq_key req = Some (again req)).
Proof.
  intros Hok Hr Ha. pose proof (process_active w s r Hr Ha) as Hp.
  pose proof (dequeue_spec (w_batchMax w) (w_queue w) (wok_keyed _ Hok)) as Hd.
  destruct (dequeue (w_batchMax w) (w_queue w)) as [batch q]. destruct Hd as (_ & Hnd & Hin & Hrem & Hsz & Hcapq & _).
  pose proof (processOne_outcome (w_maxAttempts w) batch s) as Ho.
  destruct (foldl _ _ batch) as [[updates retry] s1]. destruct Ho as (Hu & Hx & Hkeys & Hall).
  destruct (process resolver startTimeOf w s) as [[u' w'] s']. destruct Hp as (-> & Hq & _).
  assert (Hnd' : NoDup ((up_key <$> updates) ++ (rq_key <$> retry))) .
  { apply submseteq_Permutation in Hkeys as [rest Hperm]. rewrite Hperm in Hnd. by apply NoDup_app in Hnd as [? _]. }
  apply NoDup_app in Hnd' as (_ & Hdis & Hndr).
  assert (Hrb : (rq_key <$> retry) ⊆ (rq_key <$> batch)).
  { intros k Hk. eapply elem_of_submseteq; [|exact Hkeys]. apply elem_of_app. by right. }
  assert (Hafter : forall k x, q_byKey (w_queue w') !! k = Some x ->
      q_byKey q !! k = Some x \/ (x ∈ retry /\ rq_key x = k)).
  { intros k x. rewrite Hq. by apply (retry_queue batch retry q (w_queue w) k x (wok_keyed _ Hok)). }
  split; [|split].
  - intros u Hin'. destruct (Hu u Hin') as (req & s2 & Hreq & Hgain & Heq). exists req, s2.
    assert (Hkey : up_key u = rq_key req) by (by rewrite Heq).
    rewrite Hkey. split; [by apply Hin|]. split; [done|].
    destruct (q_byKey (w_queue w') !! rq_key req) as [x|] eqn:Ex; [exfalso|done].
    destruct (Hafter _ _ Ex) as [Hold|[Hxr Hxk]].
    + rewrite Hrem in Hold. apply removeKeys_lookup in Hold as [_ Hn]. by apply Hn, list_elem_of_fmap_2.
    + apply (Hdis (rq_key req)); [rewrite <- Hkey; by apply list_elem_of_fmap_2|].
      rewrite <- Hxk. by apply list_elem_of_fmap_2.
  - intros k x Hk. destruct (Hafter _ _ Hk) as [Hold|[Hxr <-]].
    + left. rewrite Hrem in Hold. by apply removeKeys_lookup in Hold as [? _].
    + right. destruct (Hx x Hxr) as (req & Hreq & -> & ?). exists req. split; [|done]. exact (Hin req Hreq).
  - intros req Hreq. destruct (Hall req Hreq) as [sr Hsr]. exists sr. cbv zeta in *. destruct (gained req _); [done|].
    intros Hlt. specialize (Hsr Hlt). rewrite Hq. destruct retry as [|x l] eqn:Er; [by apply not_elem_of_nil in Hsr|].
    cbn [isEmpty]. rewrite <- Er in *. change (rq_key req) with (rq_key (again req)).
    apply enqueue_roomy; [rewrite Hrem; apply removeKeys_keyed, Hok|done| | |done].
    + intros y Hy. rewrite Hrem. destruct (removeKeys batch _ !! rq_key y) eqn:Ey; [|done].
      apply removeKeys_lookup in Ey as [_ Hn]. exfalso. apply Hn, Hrb. by apply list_elem_of_fmap_2.
    + pose proof (wok_cap _ Hok) as Hcap. unfold effCap in *. rewrite Hcapq.
      apply submseteq_length in Hkeys. rewrite length_app, !length_fmap in Hkeys. lia.
Qed.
End Tick.
End Worker.

(* ------------------------------------------------------------------ *)
(** ** Witnesses *)

Definition busyWorker : DeepWorker := workerEnqueue [sampleRequest 1 10; sampleRequest 2 30] newWorker.

Lemma busyWorker_steps : rtc (worker_step (Some constResolver) (fun _ _ => 7%Z)) newWorker busyWorker.
Proof. eapply rtc_l; [apply wstep_enqueue|]. apply rtc_refl. Qed.

Lemma busyWorker_ok : worker_ok busyWorker.
Proof. apply workerEnqueue_ok, newWorker_ok. Qed.

Lemma worker_reachable_ok_witness : worker_ok busyWorker.
Proof. exact (worker_reachable_ok (Some constResolver) (fun _ _ => 7%Z) busyWorker busyWorker_steps). Defined.

Lemma worker_quiesces_witness :
  w_timer (fst (ticks (None : option (Resolver unit)) (fun _ _ => 0%Z)
    (S (workload 12 (q_byKey (w_queue busyWorker)))) busyWorker tt)) = None.
Proof.
  exact (proj2 (worker_quiesces (None : option (Resolver unit)) (fun _ _ => 0%Z) busyWorker tt busyWorker_ok)).
Defined.

Lemma process_outcome_witness :
  length (fst (dequeue (w_batchMax busyWorker) (w_queue busyWorker))) = 2 /\
  Forall (fun req => exists s1, let got := fst (retryOne (Some constResolver) (fun _ _ => 7%Z) req s1) in
     if gained req got
     then updateOf req got ∈ fst (fst (process (Some constResolver) (fun _ _ => 7%Z) busyWorker tt))
     else (rq_attempts req + 1 < w_maxAttempts busyWorker)%Z ->
       q_byKey (w_queue (snd (fst (process (Some constResolver) (fun _ _ => 7%Z) busyWorker tt)))) !! rq_key req
       = Some (again req))
    (fst (dequeue (w_batchMax busyWorker) (w_queue busyWorker))).
Proof.
  split; [vm_compute; reflexivity|]. apply Forall_forall.
  pose proof (process_outcome (Some constResolver) (fun _ _ => 7%Z) busyWorker tt constResolver
    busyWorker_ok eq_refl eq_refl) as Hp.
  destruct (process _ _ busyWorker tt) as [[updates w'] s']. exact (proj2 (proj2 Hp)).
Defined.
