(* ===== verification/HintTable.v ===== *)
(** * Expiring per-sender hint tables

    [IdleManager] and [AttributionHintManager] both keep a
    [QHash<QString, Hint>] from a caller's unique bus name to a value with an
    expiry time, capped at 64 senders.  This file has the table and its
    operations; the two managers differ in what they compute from it. *)

From S2P Require Import Prelude Qt.

Record Hint (V : Type) := mkHint { h_value : V; h_expiresAtMs : Z }.
Arguments mkHint {V}. Arguments h_value {V}. Arguments h_expiresAtMs {V}.

Definition kMaxHints : Z := 64.

Section Table.
Context {V : Type}.
Abbreviation table := (gmap QString (Hint V)).

Definition expired (now : Z) (h : Hint V) : bool := (h_expiresAtMs h <=? now)%Z.

(** [!m_hints.contains(sender) && m_hints.size() >= kMaxHints] *)
Definition tableFull (sender : QString) (m : table) : bool :=
  negb (bool_decide (is_Some (m !! sender))) && (kMaxHints <=? Z.of_nat (size m))%Z.

Definition live (now : Z) (m : table) : table :=
  filter (fun kh : QString * Hint V => expired now (snd kh) = false) m.

Context `{QHashOrder}.

(** The loop [for (it = begin; it != end;) if (expired) erase else { use; ++it }]. *)
Definition sweepStep {A} (now : Z) (use : A -> V -> A) (am : A * table) (kh : QString * Hint V) : A * table :=
  let '(a, m) := am in
  let '(k, h) := kh in
  if expired now h then (a, delete k m) else (use a (h_value h), m).

Definition sweep {A} (now : Z) (use : A -> V -> A) (a : A) (m : table) : A * table :=
  foldl (sweepStep now use) (a, m) (hash_iter m).

Context `{!QHashOrderLaws}.

Definition liveValues (now : Z) (m : table) : list V :=
  h_value <$> filter (fun h => expired now h = false) (snd <$> hash_iter m).

Lemma sweep_fst {A} (now : Z) (use : A -> V -> A) (a : A) (m : table) :
  fst (sweep now use a m) = foldl use a (liveValues now m).
Proof.
  unfold sweep, liveValues. generalize (hash_iter m) as l. intros l. revert a. generalize m at 1.
  induction l as [|[k h] l IH]; intros m0 a; simpl; [done|].
  rewrite filter_cons. destruct (expired now h) eqn:E; simpl; by rewrite IH.
Qed.

Lemma sweep_loop_lookup {A} (now : Z) (use : A -> V -> A) (l : list (QString * Hint V)) (a : A) (m : table) (k : QString) (h : Hint V) :
  snd (foldl (sweepStep now use) (a, m) l) !! k = Some h <->
  m !! k = Some h /\ forall h', (k, h') ∈ l -> expired now h' = false.
Proof.
  revert a m. induction l as [|[j x] l IH]; intros a m; simpl; [set_solver|].
  destruct (expired now x) eqn:E; rewrite IH.
  - rewrite lookup_delete_Some. split.
    + intros [[Hne Hm] Hl]. split; [done|]. intros h' [Heq|?]%elem_of_cons; [congruence|auto].
    + intros [Hm Hl]. split; [split; [|done]|intros; apply Hl; by right].
      intros ->. specialize (Hl x ltac:(by left)). congruence.
  - split; intros [Hm Hl]; (split; [done|]).
    + intros h' [Heq|?]%elem_of_cons; [congruence|auto].
    + intros; apply Hl; by right.
Qed.

Lemma sweep_snd {A} (now : Z) (use : A -> V -> A) (a : A) (m : table) : snd (sweep now use a m) = live now m.
Proof.
  apply map_eq. intros k. apply option_eq. intros h. unfold sweep.
  rewrite sweep_loop_lookup. unfold live. rewrite map_lookup_filter_Some. simpl. split.
  - intros [Hm Hl]. split; [done|]. apply Hl. by apply elem_of_hash_iter.
  - intros [Hm He]. split; [done|]. intros h' Hh'%elem_of_hash_iter. congruence.
Qed.

Lemma sweep_eq {A} (now : Z) (use : A -> V -> A) (a : A) (m : table) :
  sweep now use a m = (foldl use a (liveValues now m), live now m).
Proof. rewrite <- (sweep_fst now use a m), <- (sweep_snd now use a m). by destruct (sweep now use a m). Qed.

Lemma elem_of_liveValues (now : Z) (m : table) (v : V) :
  v ∈ liveValues now m <-> exists k h, m !! k = Some h /\ expired now h = false /\ h_value h = v.
Proof.
  unfold liveValues. rewrite list_elem_of_fmap. split.
  - intros (h & -> & [He Hh]%list_elem_of_filter). apply list_elem_of_fmap in Hh as ([k h'] & -> & Hk).
    apply elem_of_hash_iter in Hk. eauto.
  - intros (k & h & Hk & He & <-). exists h. split; [done|]. apply list_elem_of_filter. split; [done|].
    apply list_elem_of_fmap. exists (k, h). split; [done|]. by apply elem_of_hash_iter.
Qed.

Lemma live_lookup (now : Z) (m : table) (k : QString) (h : Hint V) : live now m !! k = Some h <-> m !! k = Some h /\ expired now h = false.
Proof. unfold live. by rewrite map_lookup_filter_Some. Qed.

Lemma live_subseteq (now : Z) (m : table) : live now m ⊆ m.
Proof. apply map_filter_subseteq. Qed.

Lemma live_live (now : Z) (m : table) : live now (live now m) = live now m.
Proof.
  apply map_eq. intros k. apply option_eq. intros h. rewrite !live_lookup. naive_solver.
Qed.

Lemma live_size (now : Z) (m : table) : size (live now m) <= size m.
Proof. apply map_subseteq_size, live_subseteq. Qed.

Lemma insert_size_capped (sender : QString) (h : Hint V) (m : table) :
  (Z.of_nat (size m) <= kMaxHints)%Z -> tableFull sender m = false ->
  (Z.of_nat (size (<[sender := h]> m)) <= kMaxHints)%Z.
Proof.
  unfold tableFull. intros Hs Hf. rewrite map_size_insert. case_bool_decide as Hin; simpl in Hf.
  - destruct Hin as [x Hx]. by rewrite Hx.
  - destruct (m !! sender) eqn:E; [naive_solver|]. simpl. apply Z.leb_gt in Hf. lia.
Qed.

Lemma delete_size (k : QString) (m : table) : size (delete k m) <= size m.
Proof. apply map_subseteq_size, delete_subseteq. Qed.
End Table.
