(* ===== verification/IdleManager.v ===== *)
(** * The adaptive idle manager: [src/agent/IdleManager.{h,cpp}]

    State: the configuration, the monotonic clock, the time of the last
    activity, the interval in force and the per-client cadence hints.  Every
    operation returns the intervals it applied: each one is pushed to both
    monitors and announced by [cadenceChanged]. *)

From S2P Require Import Prelude Qt HintTable.

Record IdleConfig := mkIdleConfig {
  activeIntervalMs : Z;
  slow1IntervalMs : Z;
  slow2IntervalMs : Z;
  activeWindowMs : Z;
  slow1WindowMs : Z;
  slow2WindowMs : Z;
  idleTimeoutMs : Z;
  minIntervalMs : Z;
  hintTtlMs : Z;
}.

Definition defaultIdleConfig : IdleConfig :=
  mkIdleConfig 1000 2000 5000 30000 45000 60000 60000 100 10000.

Record IdleState := mkIdle {
  i_cfg : IdleConfig;
  i_now : Z;         (* m_clock.elapsed() *)
  i_sinceStart : Z;  (* the clock when m_since was last restarted *)
  i_currentMs : Z;
  i_hints : gmap QString (Hint Z);
}.

Definition with_hints (m : gmap QString (Hint Z)) (st : IdleState) : IdleState :=
  mkIdle (i_cfg st) (i_now st) (i_sinceStart st) (i_currentMs st) m.

Definition restartSince (st : IdleState) : IdleState :=
  mkIdle (i_cfg st) (i_now st) (i_now st) (i_currentMs st) (i_hints st).

(** [applyInterval]: record, push to the monitors, announce. *)
Definition applyInterval (ms : Z) (st : IdleState) : IdleState * list Z :=
  (mkIdle (i_cfg st) (i_now st) (i_sinceStart st) ms (i_hints st), [ms]).

(** The cascade of [evaluate]. *)
Definition evaluateTarget (cfg : IdleConfig) (elapsed active : Z) : Z :=
  if ((0 <? idleTimeoutMs cfg)%Z && (idleTimeoutMs cfg <=? elapsed)%Z)
     || ((0 <? slow2WindowMs cfg)%Z && (slow2WindowMs cfg <=? elapsed)%Z) then 0%Z
  else if (0 <? slow1WindowMs cfg)%Z && (slow1WindowMs cfg <=? elapsed)%Z then
    (slow2IntervalMs cfg `max` active)%Z
  else if (0 <? activeWindowMs cfg)%Z && (activeWindowMs cfg <=? elapsed)%Z then
    (slow1IntervalMs cfg `max` active)%Z
  else active.

Section Idle.
Context `{QHashOrder}.

Definition effectiveActiveIntervalMs (st : IdleState) : Z * IdleState :=
  let '(best, m) := sweep (i_now st) Z.min (activeIntervalMs (i_cfg st)) (i_hints st) in
  ((best `max` minIntervalMs (i_cfg st))%Z, with_hints m st).

Definition idleEvaluate (st : IdleState) : IdleState * list Z :=
  let elapsed := (i_now st - i_sinceStart st)%Z in
  let '(active, st) := effectiveActiveIntervalMs st in
  let target := evaluateTarget (i_cfg st) elapsed active in
  if (target =? i_currentMs st)%Z then (st, []) else applyInterval target st.

Definition newIdle (cfg : IdleConfig) : IdleState * list Z :=
  let '(active, st) := effectiveActiveIntervalMs (mkIdle cfg 0 0 (-1) ∅) in
  applyInterval active st.

Definition noteActivity (st : IdleState) : IdleState * list Z :=
  let '(target, st) := effectiveActiveIntervalMs (restartSince st) in
  if (i_currentMs st =? target)%Z then (st, []) else applyInterval target st.

Definition setClientHint (sender : QString) (ms : Z) (st : IdleState) : bool * (IdleState * list Z) :=
  if isEmpty sender then (false, (st, []))
  else if (ms <=? 0)%Z then
    match i_hints st !! sender with
    | Some _ => (true, idleEvaluate (with_hints (delete sender (i_hints st)) st))
    | None => (true, (st, []))
    end
  else if tableFull sender (i_hints st) then (false, (st, []))
  else
    let clamped := (ms `max` minIntervalMs (i_cfg st))%Z in
    let exp := (i_now st + hintTtlMs (i_cfg st))%Z in
    (true, idleEvaluate (with_hints (<[sender := mkHint clamped exp]> (i_hints st)) st)).

Definition idleNameOwnerChanged (name oldOwner newOwner : QString) (st : IdleState) : IdleState * list Z :=
  if negb (isEmpty newOwner) then (st, [])
  else if isEmpty oldOwner then (st, [])
  else
    match i_hints st !! name with
    | Some _ => idleEvaluate (with_hints (delete name (i_hints st)) st)
    | None => (st, [])
    end.

(** A labelled step: the intervals applied on the way. *)
Inductive idle_step : IdleState -> list Z -> IdleState -> Prop :=
| istep_activity st : idle_step st (snd (noteActivity st)) (fst (noteActivity st))
| istep_hint sender ms st :
    idle_step st (snd (snd (setClientHint sender ms st))) (fst (snd (setClientHint sender ms st)))
| istep_owner name old new st :
    idle_step st (snd (idleNameOwnerChanged name old new st)) (fst (idleNameOwnerChanged name old new st))
| istep_timer st : idle_step st (snd (idleEvaluate st)) (fst (idleEvaluate st))
| istep_clock now st : (i_now st <= now)%Z ->
    idle_step st [] (mkIdle (i_cfg st) now (i_sinceStart st) (i_currentMs st) (i_hints st)).

Inductive idle_run (cfg : IdleConfig) : IdleState -> list Z -> Prop :=
| irun_new : idle_run cfg (fst (newIdle cfg)) (snd (newIdle cfg))
| irun_step st es fs st' : idle_run cfg st es -> idle_step st fs st' -> idle_run cfg st' (es ++ fs).

(* ------------------------------------------------------------------ *)
(** ** What the operations compute *)

Context `{!QHashOrderLaws}.

(** The full-speed interval: the fastest live hint, never below the floor. *)
Definition activeOf (cfg : IdleConfig) (hints : list Z) : Z :=
  (foldl Z.min (activeIntervalMs cfg) hints `max` minIntervalMs cfg)%Z.

Lemma effectiveActive_eq st :
  effectiveActiveIntervalMs st =
    (activeOf (i_cfg st) (liveValues (i_now st) (i_hints st)), with_hints (live (i_now st) (i_hints st)) st).
Proof. unfold effectiveActiveIntervalMs. by rewrite sweep_eq. Qed.

Definition targetOf (st : IdleState) : Z :=
  evaluateTarget (i_cfg st) (i_now st - i_sinceStart st) (activeOf (i_cfg st) (liveValues (i_now st) (i_hints st))).

Definition appliedOnly (st : IdleState) (ms : Z) : list Z :=
  if (ms =? i_currentMs st)%Z then [] else [ms].

Lemma idleEvaluate_eq st :
  idleEvaluate st =
    (mkIdle (i_cfg st) (i_now st) (i_sinceStart st) (targetOf st) (live (i_now st) (i_hints st)),
     appliedOnly st (targetOf st)).
Proof.
  unfold idleEvaluate, appliedOnly. rewrite effectiveActive_eq. simpl. fold (targetOf st).
  destruct (Z.eqb_spec (targetOf st) (i_currentMs st)) as [->|]; done.
Qed.

Lemma noteActivity_eq st :
  let ms := activeOf (i_cfg st) (liveValues (i_now st) (i_hints st)) in
  noteActivity st =
    (mkIdle (i_cfg st) (i_now st) (i_now st) ms (live (i_now st) (i_hints st)), appliedOnly st ms).
Proof.
  unfold noteActivity, appliedOnly. rewrite effectiveActive_eq. simpl. rewrite Z.eqb_sym.
  match goal with |- context [(?a =? ?b)%Z] => destruct (Z.eqb_spec a b) as [->|] end; done.
Qed.

(** Intervals in force: paused, or at least the floor. *)
Definition interval_ok (cfg : IdleConfig) (ms : Z) : Prop := ms = 0%Z \/ (minIntervalMs cfg <= ms)%Z.

Record idle_ok (cfg : IdleConfig) (st : IdleState) : Prop := {
  iok_cfg : i_cfg st = cfg;
  iok_since : (i_sinceStart st <= i_now st)%Z;
  iok_interval : interval_ok cfg (i_currentMs st);
  iok_count : (Z.of_nat (size (i_hints st)) <= kMaxHints)%Z;
  iok_hints : map_Forall (fun s h => s <> [] /\ (minIntervalMs cfg <= h_value h)%Z /\
                                     (h_expiresAtMs h <= i_now st + hintTtlMs cfg)%Z) (i_hints st);
}.

Lemma evaluateTarget_ok cfg e hints : interval_ok cfg (evaluateTarget cfg e (activeOf cfg hints)).
Proof.
  unfold evaluateTarget, activeOf, interval_ok.
  destruct (_ || _); [by left|]. repeat destruct (_ && _); right; lia.
Qed.

(** The table part of the invariant, at the floor and TTL of [cfg]. *)
Definition hints_ok (cfg : IdleConfig) (now : Z) (m : gmap QString (Hint Z)) : Prop :=
  (Z.of_nat (size m) <= kMaxHints)%Z /\
  map_Forall (fun s h => s <> [] /\ (minIntervalMs cfg <= h_value h)%Z /\
                         (h_expiresAtMs h <= now + hintTtlMs cfg)%Z) m.

Lemma hints_ok_sub cfg now m m' : m' ⊆ m -> hints_ok cfg now m -> hints_ok cfg now m'.
Proof.
  intros Hsub [Hs Hm]. split; [apply map_subseteq_size in Hsub; lia|].
  intros k h Hk. apply Hm. by eapply lookup_weaken.
Qed.

Lemma idleEvaluate_ok cfg st :
  i_cfg st = cfg -> (i_sinceStart st <= i_now st)%Z -> hints_ok cfg (i_now st) (i_hints st) ->
  idle_ok cfg (fst (idleEvaluate st)).
Proof.
  intros Hc Hs Hh. rewrite idleEvaluate_eq. simpl.
  pose proof (hints_ok_sub cfg _ _ _ (live_subseteq (i_now st) (i_hints st)) Hh) as [Hn Hf].
  split; simpl; try done. unfold targetOf. rewrite Hc. apply evaluateTarget_ok.
Qed.

Lemma idle_ok_hints cfg st : idle_ok cfg st -> hints_ok cfg (i_now st) (i_hints st).
Proof. by intros []. Qed.

Lemma setClientHint_ok cfg sender ms st :
  idle_ok cfg st -> idle_ok cfg (fst (snd (setClientHint sender ms st))).
Proof.
  intros Hok. unfold setClientHint. destruct sender as [|x sender']; [done|]. simpl isEmpty. cbv iota.
  set (sender := x :: sender') in *.
  pose proof (idle_ok_hints _ _ Hok) as Hh. destruct (Hok) as [Hc Hs _ Hn Hf].
  destruct (Z.leb_spec ms 0).
  { destruct (i_hints st !! sender); [|done]. apply idleEvaluate_ok; try done.
    eapply hints_ok_sub; [|exact Hh]. apply delete_subseteq. }
  destruct (tableFull sender (i_hints st)) eqn:Ef; [done|].
  apply idleEvaluate_ok; try done. simpl. split; [by apply insert_size_capped|].
  apply map_Forall_insert_2; [|done]. simpl. rewrite Hc. split; [done|lia].
Qed.

Lemma idle_step_ok cfg st es st' : idle_step st es st' -> idle_ok cfg st -> idle_ok cfg st'.
Proof.
  intros Hst Hok. pose proof (idle_ok_hints _ _ Hok) as Hh. destruct (Hok) as [Hc Hs Hi Hn Hf].
  destruct Hst as [st|sender ms st|name old new st|st|now st Hle].
  - rewrite noteActivity_eq. simpl.
    destruct (hints_ok_sub cfg _ _ _ (live_subseteq (i_now st) (i_hints st)) Hh) as [Hn' Hf'].
    split; simpl; try done. right. unfold activeOf. rewrite Hc. lia.
  - by apply setClientHint_ok.
  - unfold idleNameOwnerChanged. destruct (negb _); [done|]. destruct (isEmpty old); [done|].
    destruct (i_hints st !! name); [|done]. apply idleEvaluate_ok; try done.
    eapply hints_ok_sub; [|exact Hh]. apply delete_subseteq.
  - by apply idleEvaluate_ok.
  - split; simpl; try done; [lia|]. eapply map_Forall_impl; [exact Hf|]. simpl. intros k h (? & ? & ?).
    repeat split; [done|done|lia].
Qed.

(** A step applies nothing and keeps the interval, or applies one different
    interval. *)
Lemma idle_step_emits st es st' :
  idle_step st es st' ->
  (es = [] /\ i_currentMs st' = i_currentMs st) \/
  (es = [i_currentMs st'] /\ i_currentMs st' <> i_currentMs st).
Proof.
  assert (Happ : forall (st : IdleState) ms,
    (appliedOnly st ms = [] /\ ms = i_currentMs st) \/ (appliedOnly st ms = [ms] /\ ms <> i_currentMs st)).
  { intros s0 ms. unfold appliedOnly. destruct (Z.eqb_spec ms (i_currentMs s0)); auto. }
  assert (Hev : forall s0, (snd (idleEvaluate s0) = [] /\ i_currentMs (fst (idleEvaluate s0)) = i_currentMs s0) \/
    (snd (idleEvaluate s0) = [i_currentMs (fst (idleEvaluate s0))] /\
     i_currentMs (fst (idleEvaluate s0)) <> i_currentMs s0)).
  { intros s0. rewrite idleEvaluate_eq. simpl. apply Happ. }
  intros Hst. destruct Hst as [s0|sender ms s0|name old new s0|s0|now s0 Hle]; [| | |apply Hev|by left].
  - rewrite noteActivity_eq. apply Happ.
  - unfold setClientHint. destruct (isEmpty sender); [by left|]. destruct (ms <=? 0)%Z.
    + destruct (i_hints s0 !! sender); [|by left]. apply (Hev (with_hints _ s0)).
    + destruct (tableFull sender (i_hints s0)); [by left|]. apply (Hev (with_hints _ s0)).
  - unfold idleNameOwnerChanged. destruct (negb _); [by left|]. destruct (isEmpty old); [by left|].
    destruct (i_hints s0 !! name); [|by left]. apply (Hev (with_hints _ s0)).
Qed.

Lemma newIdle_ok cfg : idle_ok cfg (fst (newIdle cfg)).
Proof.
  unfold newIdle. rewrite effectiveActive_eq. simpl. rewrite (map_sub_empty _ (live_subseteq 0 ∅)).
  split; simpl; try done. right. unfold activeOf. lia.
Qed.

Lemma newIdle_emits cfg : snd (newIdle cfg) = [i_currentMs (fst (newIdle cfg))].
Proof. unfold newIdle. by rewrite effectiveActive_eq. Qed.

Lemma idle_run_mirror cfg st es :
  idle_run cfg st es -> idle_ok cfg st /\ last es = Some (i_currentMs st) /\ Forall (interval_ok cfg) es.
Proof.
  induction 1 as [|st es fs st' _ (Hok & Hlast & Hall) Hst].
  - rewrite newIdle_emits. pose proof (newIdle_ok cfg) as Hok. split; [done|]. split; [done|].
    constructor; [apply Hok|constructor].
  - pose proof (idle_step_ok _ _ _ _ Hst Hok) as Hok'. split; [done|].
    destruct (idle_step_emits _ _ _ Hst) as [[-> ->]|[-> _]].
    + by rewrite app_nil_r.
    + split; [by rewrite last_snoc|]. apply Forall_app. split; [done|]. constructor; [apply Hok'|constructor].
Qed.

(** In every run of the manager from its construction (DBus calls, hints,
    disconnects, timer ticks, passing time) the interval in force is the last
    one announced, every announced interval is a pause or respects the
    configured floor, and the hint table holds at most 64 senders, each with
    an expiry no further away than the TTL. *)
Theorem idle_run_ok cfg st es :
  idle_run cfg st es ->
  last es = Some (i_currentMs st) /\ Forall (interval_ok cfg) es /\ idle_ok cfg st.
Proof. intros Hr. by destruct (idle_run_mirror _ _ _ Hr) as (? & ? & ?). Qed.

(** [slower a b]: [b] is paused, or polls no more often than [a]. *)
Definition slower (a b : Z) : Prop := b = 0%Z \/ (a <> 0%Z /\ (a <= b)%Z).

(** Without activity the manager only slows down: for a schedule whose
    second interval is not faster than its first, as idle time grows and the
    full-speed interval does not get faster (hints expire, none is added),
    the target never polls more often, and once paused stays paused. *)
Theorem idle_slows_down cfg e1 e2 active1 active2 :
  (slow1IntervalMs cfg <= slow2IntervalMs cfg)%Z -> (0 < active1 <= active2)%Z -> (e1 <= e2)%Z ->
  slower (evaluateTarget cfg e1 active1) (evaluateTarget cfg e2 active2).
Proof.
  intros Hs Ha He. unfold evaluateTarget, slower.
  assert (Hmono : forall w, (0 <? w)%Z && (w <=? e1)%Z = true -> (0 <? w)%Z && (w <=? e2)%Z = true).
  { intros w. rewrite !andb_true_iff, !Z.ltb_lt, !Z.leb_le. lia. }
  pose proof (Hmono (idleTimeoutMs cfg)) as H1. pose proof (Hmono (slow2WindowMs cfg)) as H2.
  pose proof (Hmono (slow1WindowMs cfg)) as H3. pose proof (Hmono (activeWindowMs cfg)) as H4.
  repeat match goal with |- context [?a && ?b] => generalize dependent (a && b); intros [] end;
    intros; simpl; try (specialize (H1 eq_refl)); try (specialize (H2 eq_refl));
    try (specialize (H3 eq_refl)); try (specialize (H4 eq_refl)); try discriminate; lia.
Qed.

(** Hints are isolated: a call for one sender (set, clear, or its
    disconnect) leaves every other sender's unexpired hint as it was; a
    rejected call changes nothing and announces nothing; and an accepted
    positive hint is stored at no less than the floor until the TTL. *)
Theorem setClientHint_isolated sender ms st :
  let '(accepted, (st', es)) := setClientHint sender ms st in
  (accepted = false -> st' = st /\ es = []) /\
  (forall other h, other <> sender -> expired (i_now st) h = false ->
     i_hints st' !! other = Some h <-> i_hints st !! other = Some h) /\
  (accepted = true -> (0 < ms)%Z -> (0 < hintTtlMs (i_cfg st))%Z ->
     i_hints st' !! sender =
       Some (mkHint (ms `max` minIntervalMs (i_cfg st))%Z (i_now st + hintTtlMs (i_cfg st))%Z)) /\
  (accepted = true -> (ms <= 0)%Z -> i_hints st' !! sender = None).
Proof.
  unfold setClientHint. destruct (isEmpty sender) eqn:Ee; [done|].
  destruct (Z.leb_spec ms 0) as [Hms|Hms].
  - destruct (i_hints st !! sender) as [old|] eqn:El; [rewrite idleEvaluate_eq; simpl|].
    + split; [done|]. split; [|split; [lia|]].
      * intros other h Hne Hex. rewrite live_lookup, lookup_delete_ne by done. naive_solver.
      * intros _ _. apply eq_None_not_Some. intros [h Hh]. rewrite live_lookup, lookup_delete_eq in Hh. naive_solver.
    + split; [done|]. split; [done|]. split; [lia|done].
  - destruct (tableFull sender (i_hints st)); [done|]. rewrite idleEvaluate_eq. simpl.
    split; [done|]. split; [|split; [|lia]].
    + intros other h Hne Hex. rewrite live_lookup, lookup_insert_ne by done. naive_solver.
    + intros _ _ Httl. apply live_lookup. rewrite lookup_insert_eq. split; [done|].
      unfold expired. simpl. apply Z.leb_gt. lia.
Qed.
End Idle.

(** A client that connects and asks for 250 ms. *)
Lemma idle_run_ok_witness :
  let st := fst (snd (setClientHint (qs ":1.42") 250 (fst (newIdle defaultIdleConfig)))) in
  i_currentMs st = 250%Z /\ idle_ok defaultIdleConfig st.
Proof.
  split; [vm_compute; reflexivity|].
  apply (idle_run_ok defaultIdleConfig _ (snd (newIdle defaultIdleConfig) ++
    snd (snd (setClientHint (qs ":1.42") 250 (fst (newIdle defaultIdleConfig)))))).
  eapply irun_step; [apply irun_new|apply istep_hint].
Defined.

Lemma idle_slows_down_witness :
  slower (evaluateTarget defaultIdleConfig 31000 250) (evaluateTarget defaultIdleConfig 50000 1000).
Proof. apply idle_slows_down; vm_compute; repeat split; discriminate. Defined.

Lemma setClientHint_isolated_witness :
  let st := fst (newIdle defaultIdleConfig) in
  let '(accepted, (st', es)) := setClientHint (qs ":1.7") 250 st in
  accepted = true /\ (accepted = false -> st' = st /\ es = []) /\
  (accepted = true -> (0 < 250)%Z -> (0 < hintTtlMs (i_cfg st))%Z ->
     i_hints st' !! qs ":1.7" =
       Some (mkHint (250 `max` minIntervalMs (i_cfg st))%Z (i_now st + hintTtlMs (i_cfg st))%Z)).
Proof.
  pose proof (setClientHint_isolated (qs ":1.7") 250 (fst (newIdle defaultIdleConfig))) as Hp.
  assert (Hacc : fst (setClientHint (qs ":1.7") 250 (fst (newIdle defaultIdleConfig))) = true) by (vm_compute; reflexivity).
  cbv zeta. destruct (setClientHint _ _ _) as [accepted [st' es]]. destruct Hp as (Hp1 & _ & Hp3 & _).
  exact (conj Hacc (conj Hp1 Hp3)).
Defined.
