(* ===== verification/HintManager.v ===== *)
(** * Runtime attribution hints: [src/agent/AttributionHintManager.{h,cpp}]

    Expiring per-client eagerness requests on top of the configured mode.
    Operations return the modes announced by [effectiveModeChanged]. *)

From S2P Require Import Prelude Qt Conn Resolver HintTable.

Definition eagernessInt (m : AttributionEagerness) : Z :=
  match m with EagerOff => 0 | Balanced => 1 | Eager => 2 end.

(** [std::max] on the enumeration. *)
Definition moreEager (a b : AttributionEagerness) : AttributionEagerness :=
  if (eagernessInt a <? eagernessInt b)%Z then b else a.

Record HintState := mkHintState {
  hm_configMode : AttributionEagerness;
  hm_hintTtlMs : Z;
  hm_now : Z;
  hm_lastEmitted : AttributionEagerness;
  hm_hints : gmap QString (Hint AttributionEagerness);
}.

Definition newHintManager (configMode : AttributionEagerness) (hintTtlMs : Z) : HintState :=
  mkHintState configMode (1 `max` hintTtlMs) 0 configMode ∅.

Definition hm_with_hints (m : gmap QString (Hint AttributionEagerness)) (st : HintState) : HintState :=
  mkHintState (hm_configMode st) (hm_hintTtlMs st) (hm_now st) (hm_lastEmitted st) m.

Section Hints.
Context `{QHashOrder}.

(** The const loop of [effectiveMode], which skips expired hints. *)
Definition effectiveMode (st : HintState) : AttributionEagerness :=
  if bool_decide (hm_configMode st = EagerOff) then EagerOff
  else
    let '(any, best) :=
      foldl (fun '(any, best) '(_, h) =>
               if expired (hm_now st) h then (any, best)
               else (true, if any : bool then moreEager best (h_value h) else h_value h))
        (false, EagerOff) (hash_iter (hm_hints st)) in
    if any then best else hm_configMode st.

Definition hintEvaluate (st : HintState) : HintState * list AttributionEagerness :=
  let '(_, m) := sweep (hm_now st) (fun u _ => u) tt (hm_hints st) in
  let st := hm_with_hints m st in
  let eff := effectiveMode st in
  if bool_decide (eff = hm_lastEmitted st) then (st, [])
  else (mkHintState (hm_configMode st) (hm_hintTtlMs st) (hm_now st) eff (hm_hints st), [eff]).

Definition setHint (sender : QString) (mode : AttributionEagerness) (st : HintState)
    : bool * (HintState * list AttributionEagerness) :=
  if isEmpty sender then (false, (st, []))
  else if tableFull sender (hm_hints st) then (false, (st, []))
  else
    let exp := (hm_now st + hm_hintTtlMs st)%Z in
    (true, hintEvaluate (hm_with_hints (<[sender := mkHint mode exp]> (hm_hints st)) st)).

Definition clearHint (sender : QString) (st : HintState) : bool * (HintState * list AttributionEagerness) :=
  if isEmpty sender then (false, (st, []))
  else
    match hm_hints st !! sender with
    | Some _ => (true, hintEvaluate (hm_with_hints (delete sender (hm_hints st)) st))
    | None => (true, (st, []))
    end.

Definition hintNameOwnerChanged (name oldOwner newOwner : QString) (st : HintState)
    : HintState * list AttributionEagerness :=
  if negb (isEmpty newOwner) then (st, [])
  else if isEmpty oldOwner then (st, [])
  else
    match hm_hints st !! name with
    | Some _ => hintEvaluate (hm_with_hints (delete name (hm_hints st)) st)
    | None => (st, [])
    end.

Inductive hint_step : HintState -> list AttributionEagerness -> HintState -> Prop :=
| hstep_set sender mode st :
    hint_step st (snd (snd (setHint sender mode st))) (fst (snd (setHint sender mode st)))
| hstep_clear sender st :
    hint_step st (snd (snd (clearHint sender st))) (fst (snd (clearHint sender st)))
| hstep_owner name old new st :
    hint_step st (snd (hintNameOwnerChanged name old new st)) (fst (hintNameOwnerChanged name old new st))
| hstep_prune st : hint_step st (snd (hintEvaluate st)) (fst (hintEvaluate st))
| hstep_clock now st : (hm_now st <= now)%Z ->
    hint_step st [] (mkHintState (hm_configMode st) (hm_hintTtlMs st) now (hm_lastEmitted st) (hm_hints st)).

Inductive hint_run (mode : AttributionEagerness) (ttl : Z) : HintState -> list AttributionEagerness -> Prop :=
| hrun_new : hint_run mode ttl (newHintManager mode ttl) []
| hrun_step st es fs st' : hint_run mode ttl st es -> hint_step st fs st' -> hint_run mode ttl st' (es ++ fs).

Context `{!QHashOrderLaws}.

(** The documented three rules, as a predicate. *)
Definition modeRules (config : AttributionEagerness) (hints : list AttributionEagerness)
    (mode : AttributionEagerness) : Prop :=
  (config = EagerOff -> mode = EagerOff) /\
  (config <> EagerOff -> hints <> [] ->
     mode ∈ hints /\ forall m, m ∈ hints -> (eagernessInt m <= eagernessInt mode)%Z) /\
  (config <> EagerOff -> hints = [] -> mode = config).

Lemma moreEager_max a b :
  eagernessInt (moreEager a b) = (eagernessInt a `max` eagernessInt b)%Z /\
  (moreEager a b = a \/ moreEager a b = b).
Proof. unfold moreEager. destruct a, b; simpl; auto. Qed.

Definition modeStep (acc : bool * AttributionEagerness) (v : AttributionEagerness)
    : bool * AttributionEagerness := (true, if fst acc then moreEager (snd acc) v else v).

Lemma effectiveMode_loop st any best :
  foldl (fun '(any, best) '(_, h) =>
           if expired (hm_now st) h then (any, best)
           else (true, if any : bool then moreEager best (h_value h) else h_value h))
    (any, best) (hash_iter (hm_hints st)) =
  foldl modeStep (any, best) (liveValues (hm_now st) (hm_hints st)).
Proof.
  unfold liveValues. generalize (hash_iter (hm_hints st)) as l. intros l. revert any best.
  induction l as [|[k h] l IH]; intros any best; simpl; [done|].
  rewrite filter_cons. destruct (expired (hm_now st) h) eqn:E; simpl; by rewrite IH.
Qed.

Lemma modeStep_max l acc :
  fst acc = true ->
  let '(any, best) := foldl modeStep acc l in
  any = true /\ (best = snd acc \/ best ∈ l) /\
  (eagernessInt (snd acc) <= eagernessInt best)%Z /\
  forall m, m ∈ l -> (eagernessInt m <= eagernessInt best)%Z.
Proof.
  revert acc. induction l as [|v l IH]; intros [any best] Hany; simpl in *; subst.
  { repeat split; [by left|lia|set_solver]. }
  specialize (IH (modeStep (true, best) v) eq_refl).
  destruct (foldl modeStep (modeStep (true, best) v) l) as [any' best'].
  simpl in IH. destruct (moreEager_max best v) as [Hm Hor]. destruct IH as (? & Hb & Hle & Hall).
  split; [done|]. split.
  - destruct Hb as [->|Hb]; [|right; by right]. destruct Hor as [->| ->]; [by left|right; by left].
  - split; [lia|]. intros m [->|Hin]%elem_of_cons; [lia|auto].
Qed.

Lemma effectiveMode_rules st :
  modeRules (hm_configMode st) (liveValues (hm_now st) (hm_hints st)) (effectiveMode st).
Proof.
  unfold effectiveMode. case_bool_decide as Hc; [by split|]. rewrite effectiveMode_loop.
  destruct (liveValues (hm_now st) (hm_hints st)) as [|v l]; simpl; [by repeat split|].
  pose proof (modeStep_max l (modeStep (false, EagerOff) v) eq_refl) as Hm.
  destruct (foldl _ _ l) as [any best]. simpl in Hm. destruct Hm as (-> & Hb & Hle & Hall).
  split; [done|]. split; [|done]. intros _ _. split; [set_solver|].
  intros m [->|Hin]%elem_of_cons; [done|auto].
Qed.

(** The effective mode follows the three documented rules: configured
    [off] is a kill switch no hint can override; otherwise the most eager of
    the unexpired hints wins, even below the configured mode; with no
    unexpired hint it is the configured mode.  The result does not depend on
    the order in which the hash is walked. *)
Theorem effectiveMode_spec st mode :
  mode = effectiveMode st <->
  modeRules (hm_configMode st) (liveValues (hm_now st) (hm_hints st)) mode.
Proof.
  pose proof (effectiveMode_rules st) as HR. split; [by intros ->|]. destruct HR as (R1 & R2 & R3).
  intros (M1 & M2 & M3). destruct (decide (hm_configMode st = EagerOff)) as [Hc|Hc].
  { by rewrite R1, M1. }
  destruct (liveValues (hm_now st) (hm_hints st)) as [|v l] eqn:El; [by rewrite R3, M3|].
  destruct R2 as [Ri Rm]; [done..|]. destruct M2 as [Mi Mm]; [done..|].
  pose proof (Rm _ Mi). pose proof (Mm _ Ri). destruct mode, (effectiveMode st); simpl in *; lia || done.
Qed.

Lemma hintEvaluate_eq st :
  let st1 := hm_with_hints (live (hm_now st) (hm_hints st)) st in
  hintEvaluate st =
    (mkHintState (hm_configMode st) (hm_hintTtlMs st) (hm_now st) (effectiveMode st1) (hm_hints st1),
     if bool_decide (effectiveMode st1 = hm_lastEmitted st) then [] else [effectiveMode st1]).
Proof.
  unfold hintEvaluate. rewrite sweep_eq. simpl. case_bool_decide as Hd; [|done]. by rewrite Hd.
Qed.

(** Erasing expired hints does not change the mode. *)
Lemma effectiveMode_live st :
  effectiveMode (hm_with_hints (live (hm_now st) (hm_hints st)) st) = effectiveMode st.
Proof.
  pose proof (effectiveMode_rules (hm_with_hints (live (hm_now st) (hm_hints st)) st)) as (R1 & R2 & R3).
  pose proof (effectiveMode_rules st) as (Q1 & Q2 & Q3). simpl in *.
  assert (Hel : forall v, v ∈ liveValues (hm_now st) (live (hm_now st) (hm_hints st)) <->
                          v ∈ liveValues (hm_now st) (hm_hints st)).
  { intros v. rewrite !elem_of_liveValues. setoid_rewrite live_lookup. naive_solver. }
  destruct (decide (hm_configMode st = EagerOff)); [by rewrite R1, Q1|].
  destruct (decide (liveValues (hm_now st) (hm_hints st) = [])) as [Hn|Hn].
  - rewrite (Q3 n Hn). apply R3; [done|].
    destruct (liveValues (hm_now st) (live _ _)) as [|v l]; [done|].
    assert (v ∈ liveValues (hm_now st) (hm_hints st)) as Hv by (apply Hel; by left). rewrite Hn in Hv. set_solver.
  - destruct (Q2 n Hn) as [Qi Qm]. destruct R2 as [Ri Rm]; [done| |].
    { intros He. apply Hel in Qi. rewrite He in Qi. set_solver. }
    apply Hel in Ri. apply Hel in Qi. pose proof (Qm _ Ri). pose proof (Rm _ Qi).
    destruct (effectiveMode st), (effectiveMode (hm_with_hints _ st)); simpl in *; lia || done.
Qed.

Record hint_ok (mode : AttributionEagerness) (es : list AttributionEagerness) (st : HintState) : Prop := {
  hok_config : hm_configMode st = mode;
  hok_ttl : (0 < hm_hintTtlMs st)%Z;
  hok_count : (Z.of_nat (size (hm_hints st)) <= kMaxHints)%Z;
  hok_mirror : default mode (last es) = hm_lastEmitted st;
  hok_off : mode = EagerOff -> es = [];
}.

Lemma hintEvaluate_ok mode es st :
  hint_ok mode es st -> hint_ok mode (es ++ snd (hintEvaluate st)) (fst (hintEvaluate st)).
Proof.
  intros [Hc Ht Hn Hm Ho]. rewrite hintEvaluate_eq. simpl.
  set (st1 := hm_with_hints (live (hm_now st) (hm_hints st)) st).
  pose proof (live_size (hm_now st) (hm_hints st)) as Hl.
  case_bool_decide as Hd; split; simpl; rewrite ?app_nil_r; auto; try lia; try congruence.
  - by rewrite last_snoc.
  - intros ->. exfalso. apply Hd. rewrite <- Hm, Ho by done. simpl.
    by destruct (effectiveMode_rules st1) as (-> & _).
Qed.

Lemma hint_ok_hints mode es st m :
  hint_ok mode es st -> (Z.of_nat (size m) <= kMaxHints)%Z -> hint_ok mode es (hm_with_hints m st).
Proof. by intros [] ?. Qed.

Lemma hint_step_ok mode es st fs st' : hint_step st fs st' -> hint_ok mode es st -> hint_ok mode (es ++ fs) st'.
Proof.
  intros Hst Hok. pose proof (hok_count _ _ _ Hok) as Hn.
  assert (Hdel : forall k, (Z.of_nat (size (delete k (hm_hints st))) <= kMaxHints)%Z).
  { intros k. pose proof (delete_size k (hm_hints st)). lia. }
  destruct Hst as [sender m st|sender st|name old new st|st|now st Hle].
  - unfold setHint. destruct (isEmpty sender); [by rewrite app_nil_r|].
    destruct (tableFull sender (hm_hints st)) eqn:Ef; [by rewrite app_nil_r|].
    apply hintEvaluate_ok, hint_ok_hints; [done|]. by apply insert_size_capped.
  - unfold clearHint. destruct (isEmpty sender); [by rewrite app_nil_r|].
    destruct (hm_hints st !! sender); [|by rewrite app_nil_r]. by apply hintEvaluate_ok, hint_ok_hints.
  - unfold hintNameOwnerChanged. destruct (negb _); [by rewrite app_nil_r|].
    destruct (isEmpty old); [by rewrite app_nil_r|].
    destruct (hm_hints st !! name); [|by rewrite app_nil_r]. by apply hintEvaluate_ok, hint_ok_hints.
  - by apply hintEvaluate_ok.
  - rewrite app_nil_r. by destruct Hok.
Qed.

(** In every run of the hint manager the announced modes mirror the state
    (the last one announced, or the configured mode, is the one recorded), at
    most 64 senders hold hints, a manager configured [off] never announces
    anything, and the next prune tick always brings the recorded mode to the
    effective one. *)
Theorem hint_run_ok mode ttl st es :
  hint_run mode ttl st es ->
  hint_ok mode es st /\ hm_lastEmitted (fst (hintEvaluate st)) = effectiveMode st.
Proof.
  intros Hr. split.
  - induction Hr as [|st es fs st' _ IH Hst]; [|by eapply hint_step_ok].
    split; simpl; try done. lia.
  - rewrite hintEvaluate_eq. apply effectiveMode_live.
Qed.
End Hints.

(** Two clients, one eager. *)
Lemma hint_run_ok_witness :
  let st1 := fst (snd (setHint (qs ":1.7") Balanced (newHintManager Eager 10000))) in
  let st2 := fst (snd (setHint (qs ":1.8") EagerOff st1)) in
  hm_lastEmitted st2 = Balanced /\ hm_lastEmitted (fst (hintEvaluate st2)) = effectiveMode st2.
Proof.
  split; [vm_compute; reflexivity|].
  eapply (hint_run_ok Eager 10000). eapply hrun_step; [|apply hstep_set].
  eapply hrun_step; [apply hrun_new|apply hstep_set].
Defined.

Lemma effectiveMode_spec_witness :
  EagerOff = effectiveMode (newHintManager EagerOff 10).
Proof. apply effectiveMode_spec. repeat split; intros; try reflexivity; contradiction. Defined.
