(* ===== verification/AgentConfig.v ===== *)
(** * The agent's configuration loader: [src/agent/Config.{h,cpp}]

    [QSettings] is a record of accessors: the value stored under a key,
    already converted as the source converts it ([toInt], [toLongLong],
    [toString], [toStringList]), or [None] when the key is absent.  A missing
    file is [None].  Log lines are left out. *)

From S2P Require Import Prelude Qt Conn Resolver HintTable IdleManager.

Record QSettings := mkIni {
  ini_int : QString -> option Z;
  ini_longlong : QString -> option Z;
  ini_string : QString -> option QString;
  ini_stringList : QString -> option (list QString);
}.

(** [QString::toInt] and [toLongLong]: 0 when the text is not a number. *)
Class QtToInt := { qToInt : QString -> Z; qToLongLong : QString -> Z }.

Definition clampCfg (raw lo hi fallback : Z) : Z :=
  if (raw <? lo)%Z || (hi <? raw)%Z then fallback else raw.

Definition kMinMs : Z := 10.
Definition kMaxMs : Z := 60 * 60 * 1000.
Definition kMaxWin : Z := 24 * 60 * 60 * 1000.
Definition kMaxSec : Z := 24 * 60 * 60.

(** [secsToMsInline], and the tail of [secsToMs]. *)
Definition secsToMsInline (raw defaultMs : Z) : Z :=
  if (raw <? 0)%Z || (kMaxSec <? raw)%Z then defaultMs else (raw * 1000)%Z.

Definition secsToMs (ini : QSettings) (iniKey : QString) (defaultMs : Z) : Z :=
  secsToMsInline (default (Z.quot defaultMs 1000) (ini_longlong ini iniKey)) defaultMs.

Section Config.
Context `{QtUnicode, QtToInt}.

(** One "window:interval" pair of the schedule; [None] unless it has exactly
    two parts. *)
Definition schedulePair (p : QString) : option (Z * Z) :=
  match qsplit 58 p with
  | [w; i] => Some (qToLongLong (trimmed w), qToInt (trimmed i))
  | _ => None
  end.

(** The two assignments a well-formed pair makes, over the values in force. *)
Definition scheduleWindow (pair : option (Z * Z)) (cur : Z) : Z :=
  match pair with Some (w, _) => secsToMsInline w cur | None => cur end.
Definition scheduleInterval (pair : option (Z * Z)) (min cur : Z) : Z :=
  match pair with Some (_, i) => clampCfg i min kMaxMs cur | None => cur end.

Definition scheduleOf (ini : QSettings) : list QString :=
  let sched := match ini_stringList ini (qs "idle/schedule") with
               | Some l => qjoin [44%Z] l
               | None => qs "30:2000,45:5000,60:0"
               end in
  filter (fun p => isEmpty p = false) (qsplit 44 sched).

Definition loadIdleConfig (file : option QSettings) : IdleConfig :=
  let d := defaultIdleConfig in
  match file with
  | None => d
  | Some ini =>
      let min := clampCfg (default (minIntervalMs d) (ini_int ini (qs "poll/min_interval_ms")))
                   kMinMs kMaxMs (minIntervalMs d) in
      let active := clampCfg (default (activeIntervalMs d) (ini_int ini (qs "poll/base_interval_ms")))
                      min kMaxMs (activeIntervalMs d) in
      let idleTimeout := secsToMs ini (qs "idle/timeout_secs") (idleTimeoutMs d) in
      let hintTtl := clampCfg (secsToMs ini (qs "idle/hint_ttl_secs") (hintTtlMs d))
                       kMinMs kMaxWin (hintTtlMs d) in
      let pairs := scheduleOf ini in
      let pair n := pairs !! n ≫= schedulePair in
      let activeWin := scheduleWindow (pair 0) (activeWindowMs d) in
      let slow1 := scheduleInterval (pair 0) min (slow1IntervalMs d) in
      let slow1Win := scheduleWindow (pair 1) (slow1WindowMs d) in
      let slow2 := scheduleInterval (pair 1) min (slow2IntervalMs d) in
      let slow2Win := scheduleWindow (pair 2) (slow2WindowMs d) in
      mkIdleConfig active slow1 slow2 activeWin slow1Win slow2Win idleTimeout min hintTtl
  end.

(* ------------------------------------------------------------------ *)
(** ** [loadAttributionConfig] *)

Record AttributionConfig := mkAttributionConfig {
  ac_eagerness : AttributionEagerness;
  ac_process : bool;
  ac_container : bool;
  ac_netns : bool;
  ac_tuning : ResolverTuning;
}.

Definition parseBoolToken (value : QString) : option bool :=
  let v := toLower (trimmed value) in
  if qeqb v (qs "true") || qeqb v (qs "yes") || qeqb v (qs "1") || qeqb v (qs "on") then Some true
  else if qeqb v (qs "false") || qeqb v (qs "no") || qeqb v (qs "0") || qeqb v (qs "off") then Some false
  else None.

Definition readBoolCfg (ini : QSettings) (iniKey : QString) (fallback : bool) : bool :=
  match ini_string ini iniKey with
  | None => fallback
  | Some raw => default fallback (parseBoolToken (trimmed raw))
  end.

Definition readAttributionOverrideMs (ini : QSettings) (iniKey : QString) (lo hi : Z) : Z :=
  let raw := default 0%Z (ini_int ini iniKey) in
  if (raw =? 0)%Z then 0%Z
  else if (raw <? lo)%Z || (hi <? raw)%Z then 0%Z else raw.

Definition configEagerness (ini : QSettings) : AttributionEagerness :=
  let e := toLower (trimmed (default (qs "balanced") (ini_string ini (qs "attribution/eagerness")))) in
  if qeqb e (qs "off") then EagerOff
  else if qeqb e (qs "balanced") then Balanced
  else if qeqb e (qs "eager") then Eager
  else Balanced.

Definition loadAttributionConfig (file : option QSettings) : AttributionConfig :=
  match file with
  | None => mkAttributionConfig Balanced true true true balancedResolverTuning
  | Some ini =>
      let eagerness := configEagerness ini in
      let cacheOverride := readAttributionOverrideMs ini (qs "attribution/cache_refresh_ms") 100 (60 * 1000) in
      let netnsOverride := readAttributionOverrideMs ini (qs "attribution/netns_refresh_ms") 250 (5 * 60 * 1000) in
      let tuning := resolverTuningFor eagerness cacheOverride netnsOverride in
      if bool_decide (eagerness = EagerOff) then mkAttributionConfig EagerOff false false false tuning
      else
        let process := readBoolCfg ini (qs "attribution/process") true in
        let container := readBoolCfg ini (qs "attribution/container") true in
        let netns := readBoolCfg ini (qs "attribution/netns") true in
        if negb process && (container || netns)
        then mkAttributionConfig eagerness process false false tuning
        else mkAttributionConfig eagerness process container netns tuning
  end.

(* ------------------------------------------------------------------ *)
(** ** [loadProcessDetailsPolicy] *)

Inductive PolicyMode := PolicyOwner | PolicyPermissive | PolicyRestricted.

Record ProcessDetailsPolicy := mkPolicy {
  pol_mode : PolicyMode;
  pol_allowUsers : list QString;
  pol_allowGroups : list QString;
}.

(** The separators of the pattern [[\s,]+]: a comma or ASCII white space. *)
Definition listSep (c : QChar) : bool := (c =? 44)%Z || ((9 <=? c)%Z && (c <=? 13)%Z) || (c =? 32)%Z.

(** [split(QRegularExpression("[\\s,]+"), Qt::SkipEmptyParts)] *)
Fixpoint splitSeps (s : QString) : list QString :=
  match s with
  | [] => [[]]
  | c :: r =>
      if listSep c then [] :: splitSeps r
      else match splitSeps r with p :: ps => (c :: p) :: ps | [] => [[c]] end
  end.

Definition splitNonEmpty (s : QString) : list QString := filter (fun p => isEmpty p = false) (splitSeps s).

Definition splitList (ini : QSettings) (k : QString) : list QString :=
  foldl (fun out p => if bool_decide (p ∈ out) then out else out ++ [p]) []
    (flat_map (fun tok => trimmed <$> splitNonEmpty tok) (default [] (ini_stringList ini k))).

Definition loadProcessDetailsPolicy (file : option QSettings) : ProcessDetailsPolicy :=
  match file with
  | None => mkPolicy PolicyOwner [] []
  | Some ini =>
      let mode := toLower (trimmed (default (qs "owner") (ini_string ini (qs "process_details/disclosure")))) in
      mkPolicy
        (if qeqb mode (qs "owner") then PolicyOwner
         else if qeqb mode (qs "permissive") || qeqb mode (qs "all") then PolicyPermissive
         else if qeqb mode (qs "restricted") || qeqb mode (qs "users") then PolicyRestricted
         else PolicyOwner)
        (splitList ini (qs "process_details/allow_users"))
        (splitList ini (qs "process_details/allow_groups"))
  end.

(* ------------------------------------------------------------------ *)
(** ** Bounds of the loaded values *)

Lemma clampCfg_range raw lo hi fb :
  let v := clampCfg raw lo hi fb in (lo <= v <= hi)%Z \/ v = fb.
Proof.
  unfold clampCfg. destruct (Z.ltb_spec raw lo), (Z.ltb_spec hi raw); simpl; auto.
Qed.

Lemma secsToMsInline_range raw fb :
  (0 <= fb <= kMaxWin)%Z -> (0 <= secsToMsInline raw fb <= kMaxWin)%Z.
Proof.
  unfold secsToMsInline, kMaxWin, kMaxSec.
  destruct (Z.ltb_spec raw 0), (Z.ltb_spec (24 * 60 * 60) raw); simpl; lia.
Qed.

(** Every loaded value within what the evaluation relies on: the floor and
    the TTL in their ranges, windows within a day, each interval between the
    floor and an hour or at its built-in default. *)
Record idle_config_ok (c : IdleConfig) : Prop := {
  cfg_min : (kMinMs <= minIntervalMs c <= kMaxMs)%Z;
  cfg_ttl : (kMinMs <= hintTtlMs c <= kMaxWin)%Z;
  cfg_timeout : (0 <= idleTimeoutMs c <= kMaxWin)%Z;
  cfg_windows : (0 <= activeWindowMs c <= kMaxWin)%Z /\ (0 <= slow1WindowMs c <= kMaxWin)%Z /\
                (0 <= slow2WindowMs c <= kMaxWin)%Z;
  cfg_active : (minIntervalMs c <= activeIntervalMs c <= kMaxMs)%Z \/ activeIntervalMs c = 1000%Z;
  cfg_slow1 : (minIntervalMs c <= slow1IntervalMs c <= kMaxMs)%Z \/ slow1IntervalMs c = 2000%Z;
  cfg_slow2 : (minIntervalMs c <= slow2IntervalMs c <= kMaxMs)%Z \/ slow2IntervalMs c = 5000%Z;
}.

Lemma defaultIdleConfig_ok : idle_config_ok defaultIdleConfig.
Proof. split; unfold kMinMs, kMaxMs, kMaxWin; simpl; lia. Qed.

Lemma scheduleWindow_range p cur : (0 <= cur <= kMaxWin)%Z -> (0 <= scheduleWindow p cur <= kMaxWin)%Z.
Proof. destruct p as [[w i]|]; [apply secsToMsInline_range|done]. Qed.

Lemma scheduleInterval_range p min cur :
  let v := scheduleInterval p min cur in (min <= v <= kMaxMs)%Z \/ v = cur.
Proof. destruct p as [[w i]|]; [apply clampCfg_range|by right]. Qed.

Lemma loadIdleConfig_ok file : idle_config_ok (loadIdleConfig file).
Proof.
  destruct file as [ini|]; [|apply defaultIdleConfig_ok].
  split; unfold loadIdleConfig; cbn [minIntervalMs hintTtlMs idleTimeoutMs activeWindowMs slow1WindowMs
    slow2WindowMs activeIntervalMs slow1IntervalMs slow2IntervalMs defaultIdleConfig];
    try apply clampCfg_range; try apply scheduleInterval_range.
  - match goal with |- context [clampCfg ?r ?l ?h ?f] => destruct (clampCfg_range r l h f) as [|E] end; [done|].
    rewrite E. unfold kMinMs, kMaxMs. lia.
  - match goal with |- context [clampCfg ?r ?l ?h ?f] => destruct (clampCfg_range r l h f) as [|E] end; [done|].
    rewrite E. unfold kMinMs, kMaxWin. lia.
  - apply secsToMsInline_range. unfold kMaxWin. lia.
  - repeat split; apply scheduleWindow_range; unfold kMaxWin; lia.
Qed.

(** Whatever is in the configuration file, the loaded values are usable:
    the floor is between 10 ms and an hour, windows and timeouts between 0 and
    24 hours (so the seconds-to-milliseconds product never overflows), the
    hint TTL positive, and an agent running with them polls either not at all
    or at least 10 ms apart. *)
Theorem loadIdleConfig_bounds `{QHashOrderLaws} file :
  idle_config_ok (loadIdleConfig file) /\
  forall st es ms, idle_run (loadIdleConfig file) st es -> ms ∈ es -> ms = 0%Z \/ (kMinMs <= ms)%Z.
Proof.
  pose proof (loadIdleConfig_ok file) as Hok. split; [done|]. intros st es ms Hr Hin.
  destruct (idle_run_mirror _ _ _ Hr) as (_ & _ & Hall). rewrite Forall_forall in Hall.
  destruct (Hall ms Hin) as [?|Hge]; [by left|right]. pose proof (cfg_min _ Hok). lia.
Qed.

(** The attribution switches as loaded: [eagerness=off] disables every
    layer whatever the other keys say; otherwise container and netns
    attribution are on only together with process attribution; and the
    refresh cadences are the preset's or an override within its range. *)
Theorem loadAttributionConfig_spec file :
  let c := loadAttributionConfig file in
  (ac_eagerness c = EagerOff -> ac_process c = false /\ ac_container c = false /\ ac_netns c = false) /\
  (ac_container c = true \/ ac_netns c = true -> ac_process c = true) /\
  (exists cache netns, ac_tuning c = resolverTuningFor (ac_eagerness c) cache netns /\
     (cache = 0%Z \/ (100 <= cache <= 60000)%Z) /\ (netns = 0%Z \/ (250 <= netns <= 300000)%Z)).
Proof.
  assert (Hov : forall ini k lo hi, (0 < lo)%Z ->
    let v := readAttributionOverrideMs ini k lo hi in v = 0%Z \/ (lo <= v <= hi)%Z).
  { intros ini k lo hi Hlo. unfold readAttributionOverrideMs.
    destruct (_ =? 0)%Z; [by left|].
    match goal with |- context [(?r <? lo)%Z] => destruct (Z.ltb_spec r lo), (Z.ltb_spec hi r) end; simpl; auto. }
  destruct file as [ini|]; simpl.
  2: { split; [done|]. split; [done|]. exists 0%Z, 0%Z. auto. }
  unfold loadAttributionConfig. cbv zeta.
  set (cache := readAttributionOverrideMs ini (qs "attribution/cache_refresh_ms") 100 (60 * 1000)).
  set (netns := readAttributionOverrideMs ini (qs "attribution/netns_refresh_ms") 250 (5 * 60 * 1000)).
  pose proof (Hov ini (qs "attribution/cache_refresh_ms") 100%Z (60 * 1000)%Z ltac:(lia)) as H1c.
  pose proof (Hov ini (qs "attribution/netns_refresh_ms") 250%Z (5 * 60 * 1000)%Z ltac:(lia)) as H2n.
  case_bool_decide as Ho.
  - rewrite Ho. split; [done|]. split; [naive_solver|]. exists cache, netns. auto.
  - destruct (readBoolCfg ini (qs "attribution/process") true) eqn:Ep; simpl;
      [|destruct (_ || _) eqn:Eo]; simpl; (split; [done|]); (split; [|by exists cache, netns; auto]); try done.
    + naive_solver.
    + apply orb_false_iff in Eo as [-> ->]. naive_solver.
Qed.
End Config.

(** [timeout_secs=0] does not disable pausing as its documentation says:
    with the rest of the file at the built-in values, polling still pauses
    once a minute has passed without a call, because the last window of the
    schedule pauses too. *)
Theorem timeout_zero_still_pauses `{QtUnicodeLaws, QtToInt, QHashOrderLaws} ini st :
  ini_longlong ini (qs "idle/timeout_secs") = Some 0%Z ->
  ini_stringList ini (qs "idle/schedule") = None -> qToLongLong (qs "60") = 60%Z ->
  i_cfg st = loadIdleConfig (Some ini) -> (60000 <= i_now st - i_sinceStart st)%Z ->
  idleTimeoutMs (i_cfg st) = 0%Z /\ i_currentMs (fst (idleEvaluate st)) = 0%Z.
Proof.
  intros Ht Hs H60 Hc He. rewrite idleEvaluate_eq. simpl. unfold targetOf, evaluateTarget. rewrite Hc.
  assert (Hto : idleTimeoutMs (loadIdleConfig (Some ini)) = 0%Z).
  { simpl. unfold secsToMs. by rewrite Ht. }
  assert (Htrim : trimmed (qs "60") = qs "60").
  { unfold trimmed. simpl. repeat (rewrite isSpace_ascii by (unfold isAscii; lia); simpl). done. }
  assert (Hw : slow2WindowMs (loadIdleConfig (Some ini)) = 60000%Z).
  { cbn [slow2WindowMs loadIdleConfig]. unfold scheduleOf. rewrite Hs.
    change (_ !! 2 ≫= schedulePair) with (schedulePair (qs "60:0")). unfold schedulePair.
    change (qsplit 58 (qs "60:0")) with [qs "60"; qs "0"]. cbn [scheduleWindow]. by rewrite Htrim, H60. }
  split; [done|]. rewrite Hto, Hw. rewrite (proj2 (Z.leb_le 60000 _) He). by rewrite orb_true_r.
Qed.

(* ------------------------------------------------------------------ *)
(** ** Witnesses *)

#[global] Instance decimalToInt : QtToInt := {|
  qToInt s := default 0%Z (parseDec s);
  qToLongLong s := default 0%Z (parseDec s);
|}.

(** A file that only sets [timeout_secs=0] and [base_interval_ms=50]. *)
Definition sampleIni : QSettings := {|
  ini_int k := if qeqb k (qs "poll/base_interval_ms") then Some 50%Z else None;
  ini_longlong k := if qeqb k (qs "idle/timeout_secs") then Some 0%Z else None;
  ini_string _ := None;
  ini_stringList _ := None;
|}.

Lemma timeout_zero_still_pauses_witness :
  i_currentMs (fst (idleEvaluate (mkIdle (loadIdleConfig (Some sampleIni)) 60000 0 1000 ∅))) = 0%Z.
Proof.
  apply (timeout_zero_still_pauses sampleIni); vm_compute; try reflexivity. discriminate.
Defined.

Lemma loadIdleConfig_bounds_witness :
  idle_config_ok (loadIdleConfig (Some sampleIni)).
Proof. apply loadIdleConfig_bounds. Defined.

Lemma loadAttributionConfig_spec_witness :
  ac_process (loadAttributionConfig (Some (mkIni (fun _ => None) (fun _ => None)
    (fun k => if qeqb k (qs "attribution/eagerness") then Some (qs " OFF ") else Some (qs "on"))
    (fun _ => None)))) = false.
Proof. apply loadAttributionConfig_spec. vm_compute. reflexivity. Defined.
