(* ===== verification/DbusTypes.v ===== *)
(** * The DBus wire types: [src/dbus/Types.{h,cpp}]

    A [QDBusArgument] structure is the list of its fields.  The extraction
    operators are readers over that list: reading past the end, or a field of
    another type, is [None] (under QtDBus it aborts the process). *)

From S2P Require Import Prelude Qt Conn.

Inductive Wire :=
| WByte (z : Z) | WU16 (z : Z) | WU32 (z : Z) | WU64 (z : Z) | WBool (b : bool)
| WStr (s : QString) | WStrList (l : list QString)
| WContainers (l : list (list Wire)).

Record InterfaceStats := mkInterfaceStats {
  if_name : QString; if_type : QString; if_mtu : Z; if_addresses : list QString;
  if_rxBytes : Z; if_txBytes : Z; if_rxPackets : Z; if_txPackets : Z;
  if_isUp : bool; if_isLoopback : bool; if_ifIndex : Z; if_operState : Z;
  if_rxErrors : Z; if_txErrors : Z; if_rxDropped : Z; if_txDropped : Z;
}.

(** [InterfaceStatsDto] has the same members; [toDto] and [fromDto] copy them. *)
Record InterfaceStatsDto := mkInterfaceDto {
  id_name : QString; id_type : QString; id_mtu : Z; id_addresses : list QString;
  id_rxBytes : Z; id_txBytes : Z; id_rxPackets : Z; id_txPackets : Z;
  id_isUp : bool; id_isLoopback : bool; id_ifIndex : Z; id_operState : Z;
  id_rxErrors : Z; id_txErrors : Z; id_rxDropped : Z; id_txDropped : Z;
}.

Definition emptyInterfaceDto : InterfaceStatsDto :=
  mkInterfaceDto [] [] 0 [] 0 0 0 0 false false 0 0 0 0 0 0.

Record ContainerInfoDto := mkContainerDto { cd_runtime : QString; cd_id : QString; cd_name : QString }.

Record ConnectionDto := mkConnDto {
  d_proto : Z;
  d_localFamily : Z; d_localAddress : QString; d_localPort : Z;
  d_remoteFamily : Z; d_remoteAddress : QString; d_remotePort : Z;
  d_rxBytes : Z; d_txBytes : Z; d_rxPackets : Z; d_txPackets : Z;
  d_iface : QString; d_direction : Z;
  d_ifIndex : Z; d_tcpState : Z;
  d_pid : Z; d_uid : Z; d_comm : QString;
  d_containerRuntime : QString; d_containerId : QString; d_containerName : QString;
  d_containerChain : list ContainerInfoDto;
  d_reason : Z;
}.

Definition emptyConnDto : ConnectionDto :=
  mkConnDto 0 0 [] 0 0 [] 0 0 0 0 0 [] 0 0 0 0 0 [] [] [] [] [] 0.

Record ProcessDetailsDto := mkProcessDto {
  pd_pid : Z; pd_uid : Z; pd_comm : QString; pd_exe : QString; pd_cmdline : QString; pd_cwd : QString;
  pd_startTimeJiffies : Z;
}.

Definition emptyProcessDto : ProcessDetailsDto := mkProcessDto 0 0 [] [] [] [] 0.

Definition kMaxContainerChainDepth : nat := 16.

(* ------------------------------------------------------------------ *)
(** ** Writers: the [operator<<] overloads *)

Definition writeContainer (c : ContainerInfoDto) : list Wire := [WStr (cd_runtime c); WStr (cd_id c); WStr (cd_name c)].

Definition writeInterface (s : InterfaceStatsDto) : list Wire :=
  [WStr (id_name s); WStr (id_type s); WU32 (id_mtu s); WStrList (id_addresses s);
   WU64 (id_rxBytes s); WU64 (id_txBytes s); WU64 (id_rxPackets s); WU64 (id_txPackets s);
   WBool (id_isUp s); WBool (id_isLoopback s);
   WU32 (id_ifIndex s); WByte (id_operState s);
   WU64 (id_rxErrors s); WU64 (id_txErrors s); WU64 (id_rxDropped s); WU64 (id_txDropped s)].

Definition writeConnection (c : ConnectionDto) : list Wire :=
  [WByte (d_proto c);
   WByte (d_localFamily c); WStr (d_localAddress c); WU16 (d_localPort c);
   WByte (d_remoteFamily c); WStr (d_remoteAddress c); WU16 (d_remotePort c);
   WU64 (d_rxBytes c); WU64 (d_txBytes c); WU64 (d_rxPackets c); WU64 (d_txPackets c);
   WStr (d_iface c); WByte (d_direction c);
   WU32 (d_ifIndex c); WByte (d_tcpState c);
   WU32 (d_pid c); WU32 (d_uid c); WStr (d_comm c);
   WStr (d_containerRuntime c); WStr (d_containerId c); WStr (d_containerName c);
   WContainers (writeContainer <$> d_containerChain c);
   WByte (d_reason c)].

Definition writeProcessDetails (p : ProcessDetailsDto) : list Wire :=
  [WU32 (pd_pid p); WU32 (pd_uid p); WStr (pd_comm p); WStr (pd_exe p); WStr (pd_cmdline p);
   WStr (pd_cwd p); WU64 (pd_startTimeJiffies p)].

(* ------------------------------------------------------------------ *)
(** ** Readers: the [operator>>] overloads *)

Definition Reader (A : Type) : Type := list Wire -> option (A * list Wire).

Definition rret {A} (a : A) : Reader A := fun ws => Some (a, ws).
Definition rbind {A B} (r : Reader A) (k : A -> Reader B) : Reader B :=
  fun ws => match r ws with Some (a, rest) => k a rest | None => None end.

Declare Scope reader_scope.
Delimit Scope reader_scope with reader.
Notation "x <- r ;; k" := (rbind r (fun x => k))
  (at level 100, r at next level, right associativity) : reader_scope.
Open Scope reader_scope.

Definition getField {A} (f : Wire -> option A) : Reader A :=
  fun ws => match ws with
            | w :: rest => match f w with Some a => Some (a, rest) | None => None end
            | [] => None
            end.

Definition getByte : Reader Z := getField (fun w => match w with WByte z => Some z | _ => None end).
Definition getU16 : Reader Z := getField (fun w => match w with WU16 z => Some z | _ => None end).
Definition getU32 : Reader Z := getField (fun w => match w with WU32 z => Some z | _ => None end).
Definition getU64 : Reader Z := getField (fun w => match w with WU64 z => Some z | _ => None end).
Definition getBool : Reader bool := getField (fun w => match w with WBool b => Some b | _ => None end).
Definition getStr : Reader QString := getField (fun w => match w with WStr s => Some s | _ => None end).
Definition getStrList : Reader (list QString) :=
  getField (fun w => match w with WStrList l => Some l | _ => None end).

Definition readContainer (ws : list Wire) : option ContainerInfoDto :=
  match (r <- getStr;; i <- getStr;; n <- getStr;; rret (mkContainerDto r i n)) ws with
  | Some (c, _) => Some c
  | None => None
  end.

Definition getContainers : Reader (list ContainerInfoDto) :=
  getField (fun w => match w with WContainers l => mapM readContainer l | _ => None end).

(** [if (!a.atEnd()) a >> field]: the member default when the structure ended. *)
Definition unlessAtEnd {A} (dflt : A) (r : Reader A) : Reader A :=
  fun ws => match ws with [] => Some (dflt, []) | _ => r ws end.

(** [beginStructure(); ...; endStructure()]: what follows the fields read is
    skipped. *)
Definition inStructure {A} (r : Reader A) (ws : list Wire) : option A :=
  match r ws with Some (a, _) => Some a | None => None end.

Definition readInterface : list Wire -> option InterfaceStatsDto := inStructure (
  name <- getStr;; type <- getStr;; mtu <- getU32;; addrs <- getStrList;;
  rxb <- getU64;; txb <- getU64;; rxp <- getU64;; txp <- getU64;;
  up <- getBool;; lo <- getBool;;
  idx <- unlessAtEnd 0%Z getU32;; oper <- unlessAtEnd 0%Z getByte;;
  rxe <- unlessAtEnd 0%Z getU64;; txe <- unlessAtEnd 0%Z getU64;;
  rxd <- unlessAtEnd 0%Z getU64;; txd <- unlessAtEnd 0%Z getU64;;
  rret (mkInterfaceDto name type mtu addrs rxb txb rxp txp up lo idx oper rxe txe rxd txd)).

Definition readConnection : list Wire -> option ConnectionDto := inStructure (
  proto <- getByte;;
  lf <- getByte;; la <- getStr;; lp <- getU16;;
  rf <- getByte;; ra <- getStr;; rp <- getU16;;
  rxb <- getU64;; txb <- getU64;; rxp <- getU64;; txp <- getU64;;
  iface <- getStr;; dir <- getByte;;
  idx <- unlessAtEnd 0%Z getU32;; tcp <- unlessAtEnd 0%Z getByte;;
  pid <- unlessAtEnd 0%Z getU32;; uid <- unlessAtEnd 0%Z getU32;; comm <- unlessAtEnd [] getStr;;
  crt <- unlessAtEnd [] getStr;; cid <- unlessAtEnd [] getStr;; cname <- unlessAtEnd [] getStr;;
  chain <- unlessAtEnd [] getContainers;;
  reason <- unlessAtEnd 0%Z getByte;;
  rret (mkConnDto proto lf la lp rf ra rp rxb txb rxp txp iface dir idx tcp pid uid comm crt cid cname
          (take kMaxContainerChainDepth chain) reason)).

Definition readProcessDetails : list Wire -> option ProcessDetailsDto := inStructure (
  pid <- getU32;; uid <- getU32;; comm <- getStr;; exe <- getStr;; cmdline <- getStr;; cwd <- getStr;;
  start <- getU64;; rret (mkProcessDto pid uid comm exe cmdline cwd start)).

(* ------------------------------------------------------------------ *)
(** ** Conversions *)

Section Convert.
Context `{QtAddrText}.

Definition toDto (c : Connection) : ConnectionDto :=
  mkConnDto (toIanaProto (c_proto c))
    (if isIPv6 (c_local c) then 6 else 4) (addrToString (ep_address (c_local c))) (ep_port (c_local c))
    (if isIPv6 (c_remote c) then 6 else 4) (addrToString (ep_address (c_remote c))) (ep_port (c_remote c))
    (c_rxBytes c) (c_txBytes c) (c_rxPackets c) (c_txPackets c)
    (c_iface c) (directionInt (c_direction c)) (c_ifIndex c) (tcpStateInt (c_tcpState c))
    (if (0 <? pi_pid (c_process c))%Z then pi_pid (c_process c) else 0%Z)
    (pi_uid (c_process c)) (pi_comm (c_process c))
    (ci_runtime (c_container c)) (ci_id (c_container c)) (ci_name (c_container c))
    ((fun ci => mkContainerDto (ci_runtime ci) (ci_id ci) (ci_name ci)) <$> c_containerChain c)
    (reasonInt (c_reason c)).

Definition fromDto (d : ConnectionDto) : Connection :=
  mkConnection (mkEndpoint (addrOfString (d_localAddress d)) (d_localPort d))
    (mkEndpoint (addrOfString (d_remoteAddress d)) (d_remotePort d))
    (fromIanaProto (d_proto d))
    (d_rxBytes d) (d_txBytes d) (d_rxPackets d) (d_txPackets d) (d_iface d) (d_ifIndex d)
    (if (d_direction d <=? 2)%Z then directionOfInt (d_direction d) else DirUnknown)
    (if (d_tcpState d <=? 9)%Z then tcpStateOfInt (d_tcpState d) else TcpNone)
    (if (d_reason d <=? 3)%Z then reasonOfInt (d_reason d) else NoLocalSocket)
    (mkProcessInfo (if (d_pid d <=? int32_max)%Z then d_pid d else 0%Z) (d_comm d) [] [] (d_uid d))
    (mkContainerInfo (d_containerRuntime d) (d_containerId d) (d_containerName d))
    ((fun ci => mkContainerInfo (cd_runtime ci) (cd_id ci) (cd_name ci))
       <$> take kMaxContainerChainDepth (d_containerChain d)).

Definition toDtos (l : list Connection) : list ConnectionDto := map toDto l.
Definition fromDtos (l : list ConnectionDto) : list Connection := map fromDto l.
End Convert.

Definition toInterfaceDto (s : InterfaceStats) : InterfaceStatsDto :=
  mkInterfaceDto (if_name s) (if_type s) (if_mtu s) (if_addresses s) (if_rxBytes s) (if_txBytes s)
    (if_rxPackets s) (if_txPackets s) (if_isUp s) (if_isLoopback s) (if_ifIndex s) (if_operState s)
    (if_rxErrors s) (if_txErrors s) (if_rxDropped s) (if_txDropped s).

Definition fromInterfaceDto (d : InterfaceStatsDto) : InterfaceStats :=
  mkInterfaceStats (id_name d) (id_type d) (id_mtu d) (id_addresses d) (id_rxBytes d) (id_txBytes d)
    (id_rxPackets d) (id_txPackets d) (id_isUp d) (id_isLoopback d) (id_ifIndex d) (id_operState d)
    (id_rxErrors d) (id_txErrors d) (id_rxDropped d) (id_txDropped d).

(* ------------------------------------------------------------------ *)
(** ** Round trips *)

Lemma readContainer_write c : readContainer (writeContainer c) = Some c.
Proof. by destruct c. Qed.

Lemma readContainers_write l : mapM readContainer (writeContainer <$> l) = Some l.
Proof.
  induction l as [|c l IH]; [done|]. rewrite fmap_cons. cbn [mapM]. rewrite readContainer_write. simpl.
  by rewrite IH.
Qed.

Definition clampChain (d : ConnectionDto) : ConnectionDto :=
  mkConnDto (d_proto d) (d_localFamily d) (d_localAddress d) (d_localPort d)
    (d_remoteFamily d) (d_remoteAddress d) (d_remotePort d)
    (d_rxBytes d) (d_txBytes d) (d_rxPackets d) (d_txPackets d) (d_iface d) (d_direction d)
    (d_ifIndex d) (d_tcpState d) (d_pid d) (d_uid d) (d_comm d)
    (d_containerRuntime d) (d_containerId d) (d_containerName d)
    (take kMaxContainerChainDepth (d_containerChain d)) (d_reason d).

Ltac run_reader :=
  cbv [readConnection readInterface readProcessDetails inStructure rbind rret getByte getU16 getU32 getU64
       getBool getStr getStrList getContainers getField unlessAtEnd].

Lemma readConnection_full d extra : readConnection (writeConnection d ++ extra) = Some (clampChain d).
Proof. unfold writeConnection. cbn [app]. run_reader. by rewrite readContainers_write. Qed.

(** The fields an older agent sends, completed with the member defaults. *)
Definition paddedFields (n : nat) (d : ConnectionDto) : list Wire :=
  take n (writeConnection d) ++ drop n (writeConnection emptyConnDto).

Lemma readConnection_padded n d :
  12 < n -> readConnection (take n (writeConnection d)) = readConnection (paddedFields n d) /\
            is_Some (readConnection (paddedFields n d)).
Proof.
  intros Hn. unfold paddedFields. do 13 (destruct n as [|n]; [lia|]).
  unfold writeConnection. cbn [take drop app emptyConnDto].
  do 10 (destruct n as [|n]; [cbn [take drop app]; run_reader;
    rewrite ?readContainers_write; simpl; split; [reflexivity|eauto]|]).
  cbn [take drop app]. rewrite take_nil, drop_nil. run_reader. rewrite ?readContainers_write. split; [done|eauto].
Qed.

Lemma readConnection_short n d : n <= 12 -> readConnection (take n (writeConnection d)) = None.
Proof.
  intros Hn. unfold writeConnection. do 13 (destruct n as [|n]; [done|]). lia.
Qed.

(** C18. The flow structure is compatible across agent versions: a row written
    by an agent of this version, or of a later one that appends fields, reads
    back as sent (with the chain cut at 16 entries); a row with only the first
    n >= 13 fields, as an older agent sends it, is accepted and its missing
    fields take the member defaults; and nothing shorter than the base fields
    is accepted. *)
Theorem connection_wire_compat d :
  (forall extra, readConnection (writeConnection d ++ extra) = Some (clampChain d)) /\
  (forall n, 13 <= n -> exists d', readConnection (take n (writeConnection d)) = Some d' /\
     readConnection (take n (writeConnection d) ++ drop n (writeConnection emptyConnDto)) = Some d') /\
  (forall n, n < 13 -> readConnection (take n (writeConnection d)) = None).
Proof.
  split; [intros; apply readConnection_full|]. split.
  - intros n Hn. destruct (readConnection_padded n d) as [He [d' Hd]]; [lia|].
    exists d'. unfold paddedFields in *. by rewrite He, Hd.
  - intros n Hn. apply readConnection_short. lia.
Qed.

(** Interface rows and process details survive the wire, and an older
    agent's interface row (base fields only) reads with zero index, state and
    error counters. *)
Theorem interface_wire_roundtrip s p extra :
  readInterface (writeInterface s ++ extra) = Some s /\
  readProcessDetails (writeProcessDetails p ++ extra) = Some p /\
  readInterface (take 10 (writeInterface s)) =
    Some (mkInterfaceDto (id_name s) (id_type s) (id_mtu s) (id_addresses s) (id_rxBytes s) (id_txBytes s)
            (id_rxPackets s) (id_txPackets s) (id_isUp s) (id_isLoopback s) 0 0 0 0 0 0) /\
  forall st, fromInterfaceDto (toInterfaceDto st) = st.
Proof. split; [by destruct s|]. split; [by destruct p|]. split; [by destruct s|]. by intros []. Qed.

(** What crosses the wire: no executable path or command line, at most 16
    chain entries. *)
Definition wireView (c : Connection) : Connection :=
  set_chain (take kMaxContainerChainDepth (c_containerChain c))
    (set_process (mkProcessInfo (pi_pid (c_process c)) (pi_comm (c_process c)) [] [] (pi_uid (c_process c))) c).

Definition wire_ok (c : Connection) : Prop :=
  plainIP (ep_address (c_local c)) = true /\ plainIP (ep_address (c_remote c)) = true /\
  (0 <= pi_pid (c_process c) <= int32_max)%Z.

(** Converting a flow to its DTO and back is the identity on everything
    that is meant to cross the wire: protocol, endpoints, counters, interface,
    direction, TCP state, reason, pid, uid, name, container and the first 16
    chain entries; the executable path and the command line never do. *)
Theorem connection_dto_roundtrip `{QtAddrTextLaws} c : wire_ok c -> fromDto (toDto c) = wireView c.
Proof.
  intros (Hl & Hr & Hp). destruct c as [[la lp] [ra rp] pr rx tx rxp txp ifc ix di ts rs [pid cm cl ex ui] [cr ci cn] ch].
  unfold fromDto, toDto, wireView, set_chain, set_process. simpl in *.
  rewrite !addr_roundtrip by done. rewrite fromIana_toIana.
  assert ((if (0 <? pid)%Z then pid else 0%Z) = pid) as -> by (destruct (Z.ltb_spec 0 pid); lia).
  rewrite (proj2 (Z.leb_le pid int32_max)) by lia.
  assert (Hch : (fun ci => mkContainerInfo (cd_runtime ci) (cd_id ci) (cd_name ci))
      <$> take kMaxContainerChainDepth ((fun ci => mkContainerDto (ci_runtime ci) (ci_id ci) (ci_name ci)) <$> ch)
      = take kMaxContainerChainDepth ch).
  { rewrite <- fmap_take, <- list_fmap_compose. rewrite <- (list_fmap_id (take _ ch)) at 2.
    apply list_fmap_ext. by intros i []. }
  rewrite Hch. by destruct di, ts, rs.
Qed.

Lemma connection_dto_roundtrip_witness : fromDto (toDto sampleTcp) = wireView sampleTcp.
Proof. apply (connection_dto_roundtrip sampleTcp). by repeat split. Defined.
