(* ===== verification/Service.v ===== *)
(** * The connections service of the agent: [src/agent/ConnectionsService.{h,cpp}]

    The DBus object that ties the agent's parts together: each conntrack
    snapshot is capped, given directions, attributed and published; weakly
    attributed flows go to the deep worker and come back as patches; client
    calls drive the idle manager and the eagerness hints.  The service owns
    the states of its collaborators here, so one handler is one function and
    every signal it emits, directly or through a collaborator, is in its
    output. *)

From S2P Require Import Prelude Qt StdAlgo Conn Heuristics Resolver Attribution DeepQueue DeepWorker.
From S2P Require Import HintTable IdleManager HintManager AgentConfig DbusTypes.

Definition kMaxConnections : Z := 4096.

Record HostContext := mkHost {
  hc_localAddrs : gset QHostAddress;
  hc_loopbackAddrs : gset QHostAddress;
  hc_ephemeralLow : Z;
  hc_ephemeralHigh : Z;
}.

(** A 65-bit total: the low word and the carry. *)
Record ByteTotal := mkByteTotal { bt_low : Z; bt_carry : bool }.

Definition byteTotal (c : Connection) : ByteTotal :=
  mkByteTotal (u64 (c_rxBytes c + c_txBytes c)) (u64 (u64_max - c_txBytes c) <? c_rxBytes c)%Z.

Definition hasGreaterTotalBytes (a b : Connection) : bool :=
  let at' := byteTotal a in
  let bt := byteTotal b in
  if negb (Bool.eqb (bt_carry at') (bt_carry bt)) then bt_carry at'
  else (bt_low bt <? bt_low at')%Z.

Inductive Signal :=
| ConnectionsChanged (monotonicMs : Z) (conns : list ConnectionDto)
| AttributionChanged (monotonicMs : Z) (conns : list ConnectionDto)
| AttributionEagernessChanged (mode : QString)
| AccountingChanged (enabled : bool)
| PermissionDenied (detail : QString)
| CadenceChanged (ms : Z).

Record Service (S : Type) := mkService {
  sv_wantContainerChain : bool;
  sv_detailsPolicy : ProcessDetailsPolicy;
  sv_last : list ConnectionDto;
  sv_lastConns : list Connection;
  sv_keyIndex : gmap AttributionFlowKey nat;
  sv_generation : Z;
  sv_accountingEnabled : bool;
  sv_clock : Z;
  sv_idle : option IdleState;
  sv_hints : option HintState;
  sv_worker : option DeepWorker;
  sv_resolverState : S;
}.
Arguments mkService {S}. Arguments sv_wantContainerChain {S}. Arguments sv_detailsPolicy {S}.
Arguments sv_last {S}. Arguments sv_lastConns {S}. Arguments sv_keyIndex {S}. Arguments sv_generation {S}.
Arguments sv_accountingEnabled {S}. Arguments sv_clock {S}. Arguments sv_idle {S}. Arguments sv_hints {S}.
Arguments sv_worker {S}. Arguments sv_resolverState {S}.

(** The members the snapshot and the patches write. *)
Definition sv_set_rows {S} (last : list ConnectionDto) (conns : list Connection)
    (idx : gmap AttributionFlowKey nat) (gen : Z) (sv : Service S) : Service S :=
  mkService (sv_wantContainerChain sv) (sv_detailsPolicy sv) last conns idx gen
    (sv_accountingEnabled sv) (sv_clock sv) (sv_idle sv) (sv_hints sv) (sv_worker sv) (sv_resolverState sv).
Definition sv_set_idle {S} (i : option IdleState) (sv : Service S) : Service S :=
  mkService (sv_wantContainerChain sv) (sv_detailsPolicy sv) (sv_last sv) (sv_lastConns sv) (sv_keyIndex sv)
    (sv_generation sv) (sv_accountingEnabled sv) (sv_clock sv) i (sv_hints sv) (sv_worker sv) (sv_resolverState sv).
Definition sv_set_hints {S} (h : option HintState) (sv : Service S) : Service S :=
  mkService (sv_wantContainerChain sv) (sv_detailsPolicy sv) (sv_last sv) (sv_lastConns sv) (sv_keyIndex sv)
    (sv_generation sv) (sv_accountingEnabled sv) (sv_clock sv) (sv_idle sv) h (sv_worker sv) (sv_resolverState sv).
Definition sv_set_worker {S} (w : option DeepWorker) (sv : Service S) : Service S :=
  mkService (sv_wantContainerChain sv) (sv_detailsPolicy sv) (sv_last sv) (sv_lastConns sv) (sv_keyIndex sv)
    (sv_generation sv) (sv_accountingEnabled sv) (sv_clock sv) (sv_idle sv) (sv_hints sv) w (sv_resolverState sv).
Definition sv_set_resolver {S} (s : S) (sv : Service S) : Service S :=
  mkService (sv_wantContainerChain sv) (sv_detailsPolicy sv) (sv_last sv) (sv_lastConns sv) (sv_keyIndex sv)
    (sv_generation sv) (sv_accountingEnabled sv) (sv_clock sv) (sv_idle sv) (sv_hints sv) (sv_worker sv) s.
Definition sv_set_accounting {S} (b : bool) (sv : Service S) : Service S :=
  mkService (sv_wantContainerChain sv) (sv_detailsPolicy sv) (sv_last sv) (sv_lastConns sv) (sv_keyIndex sv)
    (sv_generation sv) b (sv_clock sv) (sv_idle sv) (sv_hints sv) (sv_worker sv) (sv_resolverState sv).

(** Who is calling: the agent itself, or a bus peer whose uid the bus could
    ([Some]) or could not ([None]) tell. *)
Inductive Caller := InProcess | Peer (service : QString) (uid : option Z).

Definition senderOf (c : Caller) : QString :=
  match c with InProcess => [] | Peer service _ => service end.

(** [readProcessDetails]'s result: a read of /proc, so an input here. *)
Record ProcessDetails := mkDetails {
  det_pid : Z; det_uid : Z; det_comm : QString; det_exe : QString; det_cmdline : QString; det_cwd : QString;
  det_startTimeJiffies : Z; det_valid : bool;
}.

Section Handlers.
Context `{QtUnicode, QtAddrText, QHashOrder, StdSort}.
Context {S : Type} (resolver : option (Resolver S)) (startTimeOf : S -> Z -> Z).
(** The user database: [userNameForUid] and [userInGroup]. *)
Context (userNameForUid : Z -> QString) (userInGroup : Z -> QString -> bool).

(** [m_idle->noteActivity()] and friends: the collaborator's own signals. *)
Definition withIdle (f : IdleState -> IdleState * list Z) (sv : Service S) : Service S * list Signal :=
  match sv_idle sv with
  | None => (sv, [])
  | Some i => let '(i', es) := f i in (sv_set_idle (Some i') sv, map CadenceChanged es)
  end.

Definition GetConnections (sv : Service S) : list ConnectionDto * Service S * list Signal :=
  let '(sv, es) := withIdle noteActivity sv in (sv_last sv, sv, es).

(** The argument is a [uint] cast to [int]. *)
Definition toSigned32 (z : Z) : Z := if (z <=? int32_max)%Z then z else (z - 4294967296)%Z.

Definition SetDesiredIntervalMs (caller : Caller) (intervalMs : Z) (sv : Service S) : Service S * list Signal :=
  match sv_idle sv with
  | None => (sv, [])
  | Some i =>
      let '(accepted, (i', es)) := setClientHint (senderOf caller) (toSigned32 intervalMs) i in
      let sv := sv_set_idle (Some i') sv in
      if accepted : bool then
        let '(sv, es') := withIdle noteActivity sv in (sv, map CadenceChanged es ++ es')
      else (sv, map CadenceChanged es)
  end.

Definition attributionEagerness (sv : Service S) : QString :=
  match sv_hints sv with
  | Some h => eagernessToString (effectiveMode h)
  | None => eagernessToString Balanced
  end.

Definition onEffectiveEagernessChanged (mode : AttributionEagerness) (sv : Service S) : Service S * list Signal :=
  let t := resolverTuningFor mode 0 0 in
  let sv := match resolver with
            | Some r => sv_set_resolver (r_setTuning r t (sv_resolverState sv)) sv
            | None => sv
            end in
  let sv := match sv_worker sv with
            | Some w => sv_set_worker (Some (setActive (negb (bool_decide (mode = EagerOff)))
                                               (workerSetTuning t w))) sv
            | None => sv
            end in
  (sv, [AttributionEagernessChanged (eagernessToString mode)]).

(** Run an operation of the hint manager and the slot its signal is connected to. *)
Definition withHints (f : HintState -> HintState * list AttributionEagerness) (sv : Service S)
    : Service S * list Signal :=
  match sv_hints sv with
  | None => (sv, [])
  | Some h =>
      let '(h', modes) := f h in
      foldl (fun '(sv, es) m => let '(sv, fs) := onEffectiveEagernessChanged m sv in (sv, es ++ fs))
        (sv_set_hints (Some h') sv, []) modes
  end.

Definition SetDesiredAttributionEagerness (caller : Caller) (mode : QString) (sv : Service S)
    : QString * Service S * list Signal :=
  match sv_hints sv with
  | None => (attributionEagerness sv, sv, [])
  | Some h =>
      let sender := senderOf caller in
      let t := trimmed mode in
      let '(accepted, (sv, es)) :=
        if isEmpty t || equalsCI t (qs "default") then
          (fst (clearHint sender h), withHints (fun h => snd (clearHint sender h)) sv)
        else match eagernessFromString t with
             | Some m => (fst (setHint sender m h), withHints (fun h => snd (setHint sender m h)) sv)
             | None => (false, (sv, []))
             end in
      let '(sv, fs) := if accepted : bool then withIdle noteActivity sv else (sv, []) in
      (attributionEagerness sv, sv, es ++ fs)
  end.

Definition callerMaySeeProcessFields (caller : Caller) (targetUid : Z) (pol : ProcessDetailsPolicy) : bool :=
  match pol_mode pol, caller with
  | PolicyPermissive, _ => true
  | _, InProcess => true
  | _, Peer _ None => false
  | m, Peer _ (Some uid) =>
      if (uid =? 0)%Z || (uid =? targetUid)%Z then true
      else match m with
           | PolicyRestricted =>
               let name := userNameForUid uid in
               (negb (isEmpty name) && existsb (fun u => equalsCI u name) (pol_allowUsers pol))
               || existsb (userInGroup uid) (pol_allowGroups pol)
           | _ => false
           end
  end.

Definition GetProcessDetails (caller : Caller) (pid : Z) (readProcessDetails : Z -> ProcessDetails)
    (sv : Service S) : ProcessDetailsDto * Service S * list Signal :=
  let '(sv, es) := withIdle noteActivity sv in
  if (pid =? 0)%Z || (int32_max <? pid)%Z then (emptyProcessDto, sv, es)
  else
    let d := readProcessDetails pid in
    if negb (det_valid d) then (emptyProcessDto, sv, es)
    else if callerMaySeeProcessFields caller (det_uid d) (sv_detailsPolicy sv) then
      (mkProcessDto (det_pid d) (det_uid d) (det_comm d) (det_exe d) (det_cmdline d) (det_cwd d)
         (det_startTimeJiffies d), sv, es)
    else
      (mkProcessDto (det_pid d) (det_uid d) (det_comm d) [] [] [] (det_startTimeJiffies d), sv, es).

(* ------------------------------------------------------------------ *)
(** ** The snapshot pipeline *)

Definition capSnapshot (conns : list Connection) : list Connection :=
  if (kMaxConnections <? Z.of_nat (length conns))%Z
  then take (Z.to_nat kMaxConnections) (partial_sort hasGreaterTotalBytes (Z.to_nat kMaxConnections) conns)
  else conns.

Definition withDirection (ctx : HostContext) (c : Connection) : Connection :=
  set_direction (inferDirection (hc_localAddrs ctx) (hc_loopbackAddrs ctx) c
                   (hc_ephemeralLow ctx) (hc_ephemeralHigh ctx)) c.

Definition withReason (ctx : HostContext) (c : Connection) : Connection :=
  set_reason (attributionReason (hc_localAddrs ctx) (hc_loopbackAddrs ctx) c) c.

(** [for (i...) m_keyIndex.insert(keyOf(m_lastConns[i]), i)] *)
Definition indexRows (conns : list Connection) : gmap AttributionFlowKey nat :=
  foldl (fun m '(i, c) => <[keyOf c := i]> m) ∅ (imap pair conns).

Definition isWeak (c : Connection) : bool :=
  negb (processValid (c_process c)) && negb (bool_decide (c_reason c = Forwarded)).

Definition onConnectionsUpdated (ctx : HostContext) (conns : list Connection) (sv : Service S)
    : Service S * list Signal :=
  let kept := map (withDirection ctx) (capSnapshot conns) in
  let '(kept, s) := attributeFlows resolver startTimeOf (sv_wantContainerChain sv) kept (sv_resolverState sv) in
  let kept := map (withReason ctx) kept in
  let last := toDtos kept in
  let gen := u64 (sv_generation sv + 1) in
  let sv := sv_set_resolver s (sv_set_rows last kept (indexRows kept) gen sv) in
  let reqs := map (fun c => mkRequest (keyOf c) c gen (sv_clock sv) (sv_wantContainerChain sv) 0)
                (filter (fun c => isWeak c = true) kept) in
  let sv := match sv_worker sv with
            | Some w => if isEmpty reqs then sv else sv_set_worker (Some (workerEnqueue reqs w)) sv
            | None => sv
            end in
  (sv, [ConnectionsChanged (sv_clock sv) last]).

(** One update against the row it names: [None] when nothing changes. *)
Definition patchRow (u : DeepAttributionUpdate) (c : Connection) : option Connection :=
  let p := processValid (up_process u) && negb (processValid (c_process c)) in
  let ct := containerValid (up_container u) && negb (containerValid (c_container c)) in
  let ch := negb (isEmpty (up_containerChain u)) && isEmpty (c_containerChain c) in
  if p || ct || ch then
    let c := if p then set_reason (up_reason u) (set_process (up_process u) c) else c in
    let c := if ct then set_container (up_container u) c else c in
    Some (if ch then set_chain (up_containerChain u) c else c)
  else None.

Definition refineOne (keyIndex : gmap AttributionFlowKey nat)
    (acc : list Connection * list ConnectionDto * list ConnectionDto) (u : DeepAttributionUpdate)
    : list Connection * list ConnectionDto * list ConnectionDto :=
  let '(conns, last, patched) := acc in
  match keyIndex !! up_key u with
  | None => acc
  | Some idx =>
      match conns !! idx with
      | None => acc
      | Some c =>
          match patchRow u c with
          | None => acc
          | Some c' => (<[idx := c']> conns, <[idx := toDto c']> last, patched ++ [toDto c'])
          end
      end
  end.

Definition onDeepRefined (updates : list DeepAttributionUpdate) (sv : Service S) : Service S * list Signal :=
  let '(conns, last, patched) :=
    foldl (refineOne (sv_keyIndex sv)) (sv_lastConns sv, sv_last sv, []) updates in
  (sv_set_rows last conns (sv_keyIndex sv) (sv_generation sv) sv,
   if isEmpty patched then [] else [AttributionChanged (sv_clock sv) patched]).

(** A tick of the deep worker and the slot [refined] is connected to. *)
Definition onWorkerTick (sv : Service S) : Service S * list Signal :=
  match sv_worker sv with
  | None => (sv, [])
  | Some w =>
      let '(updates, w', s) := process resolver startTimeOf w (sv_resolverState sv) in
      let sv := sv_set_resolver s (sv_set_worker (Some w') sv) in
      if isEmpty updates then (sv, []) else onDeepRefined updates sv
  end.

Definition onPermissionDenied (detail : QString) (sv : Service S) : Service S * list Signal :=
  (sv, [PermissionDenied detail]).

Definition onAccountingUnavailable (sv : Service S) : Service S * list Signal :=
  if sv_accountingEnabled sv then (sv_set_accounting false sv, [AccountingChanged false]) else (sv, []).
End Handlers.

(* ------------------------------------------------------------------ *)
(** ** Comparing byte totals *)

(** The comparator is the comparison of 65-bit totals. *)
Definition totalMeasure (c : Connection) : Z :=
  ((if bt_carry (byteTotal c) then two64 else 0) + bt_low (byteTotal c))%Z.

Lemma hasGreaterTotalBytes_measure a b :
  hasGreaterTotalBytes a b = (totalMeasure b <? totalMeasure a)%Z.
Proof.
  unfold hasGreaterTotalBytes, totalMeasure.
  assert (Hlow : forall c, in_u64 (bt_low (byteTotal c))) by (intros; apply u64_range).
  pose proof (Hlow a) as Ha. pose proof (Hlow b) as Hb. revert Ha Hb. unfold in_u64.
  destruct (byteTotal a) as [la []], (byteTotal b) as [lb []]; simpl; intros;
    apply eq_iff_eq_true; rewrite ?Z.ltb_lt; split; intros; try lia; done.
Qed.

Lemma hasGreaterTotalBytes_swo : swo hasGreaterTotalBytes.
Proof.
  destruct (swo_measure_gt totalMeasure) as [Hi Ht Hc].
  split; intros *; rewrite !hasGreaterTotalBytes_measure; eauto.
Qed.

(** The exact total, which does not fit in 64 bits in general. *)
Definition exactTotal (c : Connection) : Z := (c_rxBytes c + c_txBytes c)%Z.

Lemma totalMeasure_exact c : conn_wf c -> totalMeasure c = exactTotal c.
Proof.
  intros []. unfold totalMeasure, exactTotal, byteTotal, in_u64 in *. simpl.
  rewrite (u64_small (u64_max - c_txBytes c)) by (unfold in_u64, u64_max; lia).
  unfold u64, u64_max in *.
  destruct (Z.ltb_spec (two64 - 1 - c_txBytes c) (c_rxBytes c)).
  - rewrite <- (Z.mod_unique (c_rxBytes c + c_txBytes c) two64 1 (c_rxBytes c + c_txBytes c - two64)); lia.
  - rewrite Z.mod_small by lia. lia.
Qed.

Section Snapshot.
Context `{StdSortLaws}.

(** C5. The published snapshot is the right part of the table: at most 4096
    flows, all of them when they fit, and otherwise none left out carries more
    bytes (as an exact sum, beyond 64 bits) than one that is kept. *)
Theorem capSnapshot_loudest conns :
  Forall conn_wf conns ->
  Z.of_nat (length (capSnapshot conns)) = (kMaxConnections `min` Z.of_nat (length conns))%Z /\
  exists dropped, conns ≡ₚ capSnapshot conns ++ dropped /\
    forall x y, x ∈ dropped -> y ∈ capSnapshot conns -> (exactTotal x <= exactTotal y)%Z.
Proof.
  intros Hwf. unfold capSnapshot. set (n := Z.to_nat kMaxConnections).
  assert (Hn : Z.of_nat n = kMaxConnections) by (unfold n, kMaxConnections; lia).
  destruct (Z.ltb_spec kMaxConnections (Z.of_nat (length conns))).
  2: { split; [lia|]. exists []. rewrite app_nil_r. split; [done|set_solver]. }
  assert (Hp : partial_sort hasGreaterTotalBytes n conns ≡ₚ conns)
    by apply partial_sort_perm, hasGreaterTotalBytes_swo.
  split.
  - rewrite length_take, partial_sort_length by apply hasGreaterTotalBytes_swo. lia.
  - exists (drop n (partial_sort hasGreaterTotalBytes n conns)).
    split; [by rewrite take_drop, Hp|]. intros x y Hx Hy.
    pose proof (partial_sort_top hasGreaterTotalBytes n conns y x hasGreaterTotalBytes_swo Hy Hx) as Hxy.
    rewrite hasGreaterTotalBytes_measure in Hxy. apply Z.ltb_ge in Hxy.
    rewrite Forall_forall in Hwf.
    rewrite <- !totalMeasure_exact; [done|apply Hwf..].
    + rewrite <- Hp, <- (take_drop n (partial_sort _ _ _)). apply elem_of_app. by left.
    + rewrite <- Hp, <- (take_drop n (partial_sort _ _ _)). apply elem_of_app. by right.
Qed.
End Snapshot.

(* ------------------------------------------------------------------ *)
(** ** The rows and their index *)

Section Rows.
Context `{QtAddrText}.

(** The wire rows mirror the typed rows, and the index finds a row of the
    right flow for exactly the flows shown. *)
Record rows_ok (last : list ConnectionDto) (conns : list Connection) (idx : gmap AttributionFlowKey nat) : Prop := {
  rows_mirror : last = toDtos conns;
  rows_found : forall k i, idx !! k = Some i -> exists c, conns !! i = Some c /\ keyOf c = k;
  rows_all : forall i c, conns !! i = Some c -> is_Some (idx !! keyOf c);
}.

Lemma indexRows_snoc conns c : indexRows (conns ++ [c]) = <[keyOf c := length conns]> (indexRows conns).
Proof.
  unfold indexRows. rewrite imap_app, foldl_app. simpl. by rewrite Nat.add_0_r.
Qed.

Lemma indexRows_ok conns : rows_ok (toDtos conns) conns (indexRows conns).
Proof.
  split; [done| |].
  - induction conns as [|c conns IH] using rev_ind; intros k i Hk; [done|].
    rewrite indexRows_snoc in Hk. destruct (decide (keyOf c = k)) as [<-|Hne].
    + rewrite lookup_insert_eq in Hk. injection Hk as <-. exists c.
      by rewrite lookup_app_r, Nat.sub_diag.
    + rewrite lookup_insert_ne in Hk by done. destruct (IH k i Hk) as (x & Hx & Hkx).
      exists x. split; [|done]. by apply lookup_app_l_Some.
  - induction conns as [|c conns IH] using rev_ind; intros i x Hx; [done|].
    rewrite indexRows_snoc. destruct (decide (keyOf c = keyOf x)) as [->|Hne];
      [rewrite lookup_insert_eq; eauto|]. rewrite lookup_insert_ne by done.
    apply lookup_snoc_Some in Hx as [[_ Hx]|[_ ->]]; [by eapply IH|done].
Qed.

(** What a patch may do to a row: add a process (with the reason), a
    container or a chain where there was none. *)
Record refines (c c' : Connection) : Prop := {
  rf_key : keyOf c' = keyOf c;
  rf_counters : c_rxBytes c' = c_rxBytes c /\ c_txBytes c' = c_txBytes c /\
                c_rxPackets c' = c_rxPackets c /\ c_txPackets c' = c_txPackets c;
  rf_rest : c_iface c' = c_iface c /\ c_tcpState c' = c_tcpState c;
  rf_process : processValid (c_process c) = true -> c_process c' = c_process c /\ c_reason c' = c_reason c;
  rf_container : containerValid (c_container c) = true -> c_container c' = c_container c;
  rf_chain : c_containerChain c <> [] -> c_containerChain c' = c_containerChain c;
  rf_gain : c' = c \/ (processValid (c_process c') && negb (processValid (c_process c)) = true) \/
            (containerValid (c_container c') && negb (containerValid (c_container c)) = true) \/
            (c_containerChain c' <> [] /\ c_containerChain c = []);
}.

Lemma refines_refl c : refines c c.
Proof. split; auto. Qed.

Lemma refines_trans c1 c2 c3 : refines c1 c2 -> refines c2 c3 -> refines c1 c3.
Proof.
  intros [a1 a2 a3 a4 a5 a6 a7] [b1 b2 b3 b4 b5 b6 b7].
  split; try (destruct_and?; split_and?; congruence).
  - intros Hp. destruct (a4 Hp) as [Hp1 Hr1]. rewrite <- Hp1 in Hp. destruct (b4 Hp). split; congruence.
  - intros Hc. pose proof (a5 Hc) as Hc1. rewrite <- Hc1 in Hc. rewrite (b5 Hc). done.
  - intros Hc. pose proof (a6 Hc) as Hc1. rewrite <- Hc1 in Hc. rewrite (b6 Hc). done.
  - destruct a7 as [->|[Hp|[Hc|[Hc Hn]]]]; [done|right; left|right; right; left|right; right; right].
    + apply andb_true_iff in Hp as [Hp ?]. destruct (b4 Hp) as [-> _]. by apply andb_true_iff.
    + apply andb_true_iff in Hc as [Hc ?]. rewrite (b5 Hc). by apply andb_true_iff.
    + by rewrite (b6 Hc).
Qed.

Lemma patchRow_refines u c c' : patchRow u c = Some c' -> refines c c'.
Proof.
  unfold patchRow. intros Hp.
  destruct (processValid (up_process u) && negb (processValid (c_process c))) eqn:Ep,
    (containerValid (up_container u) && negb (containerValid (c_container c))) eqn:Ec,
    (negb (isEmpty (up_containerChain u)) && isEmpty (c_containerChain c)) eqn:Eh; simpl in Hp; simplify_eq;
  repeat match goal with H : _ && _ = true |- _ => apply andb_true_iff in H as [? ?] end;
  repeat match goal with
  | H : negb _ = true |- _ => apply negb_true_iff in H
  | H : isEmpty _ = true |- _ => apply isEmpty_true in H
  | H : isEmpty _ = false |- _ => apply isEmpty_false in H
  end;
  (split; simpl; auto; try congruence); rewrite ?andb_true_iff, ?negb_true_iff; auto.
Qed.

Lemma refineOne_ok idx u conns last patched :
  rows_ok last conns idx ->
  let '(conns', last', patched') := refineOne idx (conns, last, patched) u in
  rows_ok last' conns' idx /\ Forall2 refines conns conns' /\
  exists new, patched' = patched ++ new /\ (new = [] /\ conns' = conns \/ exists i c, conns' !! i = Some c /\ new = [toDto c]).
Proof.
  intros [Hm Hf Ha]. unfold refineOne.
  assert (Hid : rows_ok last conns idx /\ Forall2 refines conns conns /\
    exists new, patched = patched ++ new /\ (new = [] /\ conns = conns \/ exists i c, conns !! i = Some c /\ new = [toDto c])).
  { split; [by split|]. split; [by apply Forall_Forall2_diag, Forall_forall; auto using refines_refl|].
    exists []. rewrite app_nil_r. auto. }
  destruct (idx !! up_key u) as [i|] eqn:Ei; [|done].
  destruct (conns !! i) as [c|] eqn:Ec; [|done].
  destruct (patchRow u c) as [c'|] eqn:Ep; [|done]. clear Hid.
  pose proof (patchRow_refines _ _ _ Ep) as Hr. pose proof (rf_key _ _ Hr) as Hk.
  pose proof (lookup_lt_Some _ _ _ Ec) as Hlt.
  split; [split|split].
  - rewrite Hm. unfold toDtos. by rewrite <- list_fmap_insert.
  - intros k j Hj. destruct (Hf k j Hj) as (x & Hx & Hkx). destruct (decide (i = j)) as [<-|Hne].
    + exists c'. rewrite list_lookup_insert_eq by done. split; [done|]. congruence.
    + exists x. by rewrite list_lookup_insert_ne by done.
  - intros j x Hx. apply list_lookup_insert_Some in Hx as [(-> & <- & _)|(_ & Hx)]; [rewrite Hk|]; by eapply Ha.
  - apply Forall2_same_length_lookup. split; [by rewrite length_insert|].
    intros j x y Hx Hy. apply list_lookup_insert_Some in Hy as [(-> & <- & _)|(_ & Hy)]; [congruence|].
    assert (x = y) as -> by congruence. apply refines_refl.
  - exists [toDto c']. split; [done|]. right. exists i, c'. by rewrite list_lookup_insert_eq.
Qed.

(** A row published on the way from [before] to [after]. *)
Definition published (before after : list Connection) (d : ConnectionDto) : Prop :=
  exists i c0 c1 c2, before !! i = Some c0 /\ after !! i = Some c2 /\ refines c0 c1 /\ refines c1 c2 /\ d = toDto c1.

Lemma refines_forall2_trans (a b c : list Connection) :
  Forall2 refines a b -> Forall2 refines b c -> Forall2 refines a c.
Proof. apply Forall2_compose. intros ???. apply refines_trans. Qed.

Lemma published_widen a b c d :
  Forall2 refines a b -> Forall2 refines b c -> published b b d \/ published a b d -> published a c d.
Proof.
  intros Hab Hbc. assert (Hgo : published a b d -> published a c d).
  { intros (i & c0 & c1 & c2 & H0 & H2 & H01 & H12 & ->).
    destruct (Forall2_lookup_l _ _ _ _ _ Hbc H2) as (c3 & H3 & H23).
    exists i, c0, c1, c3. split_and!; eauto using refines_trans. }
  intros [(i & c0 & c1 & c2 & H0 & H2 & H01 & H12 & ->)|?]; [|auto]. apply Hgo.
  destruct (Forall2_lookup_r _ _ _ _ _ Hab H0) as (x & Hx & Hx0). exists i, x, c1, c2. split_and!; eauto using refines_trans.
Qed.

Lemma refineAll_ok idx updates conns last patched :
  rows_ok last conns idx ->
  let '(conns', last', patched') := foldl (refineOne idx) (conns, last, patched) updates in
  rows_ok last' conns' idx /\ Forall2 refines conns conns' /\
  exists new, patched' = patched ++ new /\ (new = [] -> conns' = conns) /\ Forall (published conns conns') new.
Proof.
  revert conns last patched. induction updates as [|u us IH]; intros conns last patched Hok.
  { simpl. split; [done|]. split; [apply Forall_Forall2_diag, Forall_forall; auto using refines_refl|].
    exists []. rewrite app_nil_r. auto. }
  cbn [foldl]. pose proof (refineOne_ok idx u conns last patched Hok) as H1.
  destruct (refineOne idx (conns, last, patched) u) as [[conns1 last1] patched1].
  destruct H1 as (Hok1 & Hr1 & new1 & -> & Hn1). specialize (IH conns1 last1 (patched ++ new1) Hok1).
  destruct (foldl (refineOne idx) (conns1, last1, patched ++ new1) us) as [[conns2 last2] patched2].
  destruct IH as (Hok2 & Hr2 & new2 & -> & Hn2 & Hp2).
  split; [done|]. split; [by eapply refines_forall2_trans|]. exists (new1 ++ new2).
  rewrite app_assoc. split; [done|]. split.
  - intros [-> ->]%app_nil. destruct Hn1 as [[_ ->]|(? & ? & _ & ?)]; [auto|done].
  - apply Forall_app. split.
    + destruct Hn1 as [[-> _]|(i & c & Hi & ->)]; [constructor|]. constructor; [|constructor].
      eapply published_widen; [exact Hr1|exact Hr2|]. left. exists i, c, c, c. split_and!; auto using refines_refl.
    + eapply Forall_impl; [exact Hp2|]. intros d (i & c0 & c1 & c2 & H0 & H2 & H01 & H12 & ->).
      destruct (Forall2_lookup_r _ _ _ _ _ Hr1 H0) as (x & Hx & Hx0). exists i, x, c1, c2. split_and!; eauto using refines_trans.
Qed.

End Rows.

(* ------------------------------------------------------------------ *)
(** ** Disclosure of process details *)

(** Who may see the privileged fields, as the policy documents it. *)
Definition mayDisclose `{QtUnicode} (userName : Z -> QString) (inGroup : Z -> QString -> bool)
    (pol : ProcessDetailsPolicy) (caller : Caller) (owner : Z) : Prop :=
  pol_mode pol = PolicyPermissive \/ caller = InProcess \/
  exists service uid, caller = Peer service (Some uid) /\
    (uid = 0%Z \/ uid = owner \/
     (pol_mode pol = PolicyRestricted /\
        ((userName uid <> [] /\ exists u, u ∈ pol_allowUsers pol /\ equalsCI u (userName uid) = true) \/
         exists g, g ∈ pol_allowGroups pol /\ inGroup uid g = true))).

Lemma callerMaySee_spec `{QtUnicode} un ig caller owner pol :
  callerMaySeeProcessFields un ig caller owner pol = true <-> mayDisclose un ig pol caller owner.
Proof.
  assert (Hlist : forall uid, (negb (isEmpty (un uid)) && existsb (fun u => equalsCI u (un uid)) (pol_allowUsers pol))
      || existsb (ig uid) (pol_allowGroups pol) = true <->
      (un uid <> [] /\ exists u, u ∈ pol_allowUsers pol /\ equalsCI u (un uid) = true) \/
      exists g, g ∈ pol_allowGroups pol /\ ig uid g = true).
  { intros uid. rewrite orb_true_iff, andb_true_iff, negb_true_iff, isEmpty_false, !existsb_exists.
    by setoid_rewrite <- list_elem_of_In. }
  unfold callerMaySeeProcessFields, mayDisclose.
  destruct caller as [|service [uid|]].
  - split; [intros _; right; by left|intros _]. by destruct (pol_mode pol).
  - specialize (Hlist uid).
    set (L := (un uid <> [] /\ _) \/ _) in *.
    assert (Hex : (exists service0 uid0, Peer service (Some uid) = Peer service0 (Some uid0) /\
        (uid0 = 0%Z \/ uid0 = owner \/ (pol_mode pol = PolicyRestricted /\
          ((un uid0 <> [] /\ exists u, u ∈ pol_allowUsers pol /\ equalsCI u (un uid0) = true) \/
           exists g, g ∈ pol_allowGroups pol /\ ig uid0 g = true)))) <->
      (uid = 0%Z \/ uid = owner \/ (pol_mode pol = PolicyRestricted /\ L))).
    { split; [intros (s0 & u0 & Heq & Hd); by injection Heq as <- <-|]. intros Hd. by exists service, uid. }
    rewrite Hex. clear Hex.
    destruct (pol_mode pol), (Z.eqb_spec uid 0), (Z.eqb_spec uid owner); simpl; rewrite ?Hlist; intuition congruence.
  - split.
    + destruct (pol_mode pol); try done. by left.
    + intros [->|[?|(s0 & u0 & ? & _)]]; done.
Qed.

Lemma withIdle_policy {S} f (sv : Service S) : sv_detailsPolicy (fst (withIdle f sv)) = sv_detailsPolicy sv.
Proof. unfold withIdle. destruct (sv_idle sv) as [i|]; [|done]. by destruct (f i). Qed.

(** C7. [GetProcessDetails] never discloses a path or a command line against
    the policy: a caller that is not entitled (default policy: neither root,
    nor the owner of the process, nor the agent itself; unknown callers
    included) gets the executable, working directory and command line empty,
    and an entitled one gets what was read; an unusable pid or an unreadable
    process gives the empty answer. *)
Theorem details_disclosure `{QtUnicode, QHashOrder} {S} un ig caller pid readDetails (sv : Service S) :
  let '(dto, sv', _) := GetProcessDetails un ig caller pid readDetails sv in
  let d := readDetails pid in
  (pd_exe dto <> [] \/ pd_cmdline dto <> [] \/ pd_cwd dto <> [] ->
     det_valid d = true /\ mayDisclose un ig (sv_detailsPolicy sv) caller (det_uid d)) /\
  (det_valid d = true -> (0 < pid <= int32_max)%Z ->
     pd_pid dto = det_pid d /\ pd_uid dto = det_uid d /\ pd_comm dto = det_comm d /\
     (mayDisclose un ig (sv_detailsPolicy sv) caller (det_uid d) ->
        pd_exe dto = det_exe d /\ pd_cmdline dto = det_cmdline d /\ pd_cwd dto = det_cwd d)) /\
  (det_valid d = false \/ pid = 0%Z \/ (int32_max < pid)%Z -> dto = emptyProcessDto).
Proof.
  unfold GetProcessDetails. pose proof (withIdle_policy noteActivity sv) as Hpol.
  destruct (withIdle noteActivity sv) as [sv' es]. simpl in Hpol. rewrite Hpol.
  destruct (Z.eqb_spec pid 0) as [->|Hne]; simpl; [split; [naive_solver|split; [lia|done]]|].
  destruct (Z.ltb_spec int32_max pid); [split; [naive_solver|split; [lia|done]]|].
  destruct (det_valid (readDetails pid)) eqn:Ev; simpl; [|split; [naive_solver|done]].
  pose proof (callerMaySee_spec un ig caller (det_uid (readDetails pid)) (sv_detailsPolicy sv)) as Hs.
  destruct (callerMaySeeProcessFields un ig caller _ _); simpl.
  - split; [intros _; split; [done|by apply Hs]|]. split; [done|].
    intros [|[|]]; [done|lia|lia].
  - split; [naive_solver|]. split; [|intros [|[|]]; [done|lia|lia]].
    intros _ _. split; [done|]. split; [done|]. split; [done|]. intros Hm%Hs. done.
Qed.

(* ------------------------------------------------------------------ *)
(** ** Witnesses *)

Lemma capSnapshot_loudest_witness :
  length (capSnapshot [sampleTcp; set_counters 9 9 1 1 sampleTcp]) = 2.
Proof.
  destruct (capSnapshot_loudest [sampleTcp; set_counters 9 9 1 1 sampleTcp]) as [Hl _].
  - apply Forall_cons; split; [|apply Forall_cons; split; [|apply Forall_nil; exact I]];
      (split; vm_compute; split; congruence).
  - apply Nat2Z.inj. rewrite Hl. reflexivity.
Defined.

(** A service showing one unattributed flow. *)
Definition sampleService : Service unit :=
  mkService false (mkPolicy PolicyOwner [] []) (toDtos [sampleTcp]) [sampleTcp] (indexRows [sampleTcp]) 1 true 50
    None None None tt.

Definition sampleUpdate : DeepAttributionUpdate :=
  mkUpdate (keyOf sampleTcp) 1 sampleProcess noContainer [] Resolved.

