(* ===== verification/Agent.v ===== *)
(** * The agent process: [Application.cpp], [InterfacesService.cpp], [MonitorCapabilities.h]

    [Application::start] wires the services together; from then on the agent
    reacts to monitor snapshots, DBus calls, timers and bus events, one at a
    time on its main thread.  [agent_step] is that event loop. *)

From S2P Require Import Prelude Qt StdAlgo Conn Heuristics Resolver Attribution DeepQueue DeepWorker.
From S2P Require Import HintTable IdleManager HintManager AgentConfig DbusTypes Service.

(* ------------------------------------------------------------------ *)
(** ** Capability tokens *)

Definition hasToken (tok : QString) (caps : list QString) : bool := bool_decide (tok ∈ caps).

Definition attributionWireTokens (resolverCaps : list QString) : list QString :=
  let process := hasToken (qs "process-attribution") resolverCaps in
  let container := hasToken (qs "container-attribution") resolverCaps in
  let chain := hasToken (qs "container-chain") resolverCaps in
  (if process then [qs "process-attribution-wire"] else [])
  ++ (if container then [qs "container-attribution-wire"] else [])
  ++ (if container && chain then [qs "container-chain-wire"] else []).

Definition mergeCapabilities (a b : list QString) : list QString := foldl addToken [] (a ++ b).

Definition baseCapabilities : list QString :=
  [qs "cadence-hints"; qs "cadence-signal"; qs "name-owner-cleanup"; qs "monotonic-clock"; qs "snapshot-cap";
   qs "iana-proto"; qs "direction-on-wire"; qs "snapshot-timestamp"; qs "ifindex"; qs "oper-state";
   qs "link-errors"; qs "tcp-state"; qs "attribution-reason"; qs "on-demand-process-details";
   qs "attribution-eagerness-hints"].

Definition agentCapabilities (asyncRefinement : bool) (resolverCaps : option (list QString)) : list QString :=
  let base := baseCapabilities ++ (if asyncRefinement then [qs "attribution-async-refinement"] else []) in
  match resolverCaps with
  | None => base
  | Some caps => foldl addToken (foldl addToken base caps) (attributionWireTokens caps)
  end.

(* ------------------------------------------------------------------ *)
(** ** The agent *)

Record Agent (S : Type) := mkAgent {
  ag_conn : Service S;                    (* ConnectionsService and its collaborators *)
  ag_ifaces : list InterfaceStatsDto;     (* InterfacesService::m_last *)
  ag_ifaceClock : Z;                      (* InterfacesService::m_clock *)
  ag_asyncRefinement : bool;
}.
Arguments mkAgent {S}. Arguments ag_conn {S}. Arguments ag_ifaces {S}. Arguments ag_ifaceClock {S}.
Arguments ag_asyncRefinement {S}.

(** Signals of the agent: those of the connections service, and
    [StatsChanged]; [onCadenceChanged] republishes the idle manager's cadence
    with a paused (non-positive) interval as 0. *)
Inductive AgentSignal :=
| FromService (s : Signal)
| StatsChanged (monotonicMs : Z) (stats : list InterfaceStatsDto)
| CadencePublished (ms : Z).

Definition publish (s : Signal) : AgentSignal :=
  match s with CadenceChanged ms => CadencePublished (0 `max` ms) | _ => FromService s end.

Section Agent.
Context `{QtUnicode, QtAddrText, QHashOrder, StdSort}.
Context {S : Type} (resolver : option (Resolver S)) (startTimeOf : S -> Z -> Z).
Context (userNameForUid : Z -> QString) (userInGroup : Z -> QString -> bool).

Definition onService (f : Service S -> Service S * list Signal) (a : Agent S) : Agent S * list AgentSignal :=
  let '(sv, es) := f (ag_conn a) in
  (mkAgent sv (ag_ifaces a) (ag_ifaceClock a) (ag_asyncRefinement a), map publish es).

(** [Application::start] after a successful registration on the bus. *)
Definition appStart (idleCfg : IdleConfig) (attrMode : AttributionEagerness) (policy : ProcessDetailsPolicy)
    (s0 : S) : Agent S * list AgentSignal :=
  let caps := match resolver with Some r => r_capabilities r s0 | None => [] end in
  let wantChain := hasToken (qs "container-chain") caps in
  let '(worker, async) :=
    if hasToken (qs "process-attribution") caps
    then (Some (setActive (negb (bool_decide (attrMode = EagerOff)))
                  (workerSetTuning (resolverTuningFor attrMode 0 0) newWorker)), true)
    else (None, false) in
  let sv := mkService wantChain policy [] [] ∅ 0 true 0
              (Some (fst (newIdle idleCfg))) (Some (newHintManager attrMode (hintTtlMs idleCfg))) worker s0 in
  onService (withIdle noteActivity) (mkAgent sv [] 0 async).

(** [InterfacesService]'s handlers. *)
Definition GetInterfaces (a : Agent S) : list InterfaceStatsDto * Agent S * list AgentSignal :=
  let '(a', es) := onService (withIdle noteActivity) a in (ag_ifaces a', a', es).

Definition onStatsUpdated (stats : list InterfaceStats) (a : Agent S) : Agent S * list AgentSignal :=
  let dtos := map toInterfaceDto stats in
  (mkAgent (ag_conn a) dtos (ag_ifaceClock a) (ag_asyncRefinement a), [StatsChanged (ag_ifaceClock a) dtos]).

(** Time passes for every clock of the process. *)
Definition advanceClocks (ms : Z) (a : Agent S) : Agent S :=
  let sv := ag_conn a in
  let idle := match sv_idle sv with
              | Some i => Some (mkIdle (i_cfg i) (i_now i + ms) (i_sinceStart i) (i_currentMs i) (i_hints i))
              | None => None
              end in
  let hints := match sv_hints sv with
               | Some h => Some (mkHintState (hm_configMode h) (hm_hintTtlMs h) (hm_now h + ms)
                                   (hm_lastEmitted h) (hm_hints h))
               | None => None
               end in
  mkAgent (mkService (sv_wantContainerChain sv) (sv_detailsPolicy sv) (sv_last sv) (sv_lastConns sv)
             (sv_keyIndex sv) (sv_generation sv) (sv_accountingEnabled sv) (sv_clock sv + ms)
             idle hints (sv_worker sv) (sv_resolverState sv))
    (ag_ifaces a) (ag_ifaceClock a + ms) (ag_asyncRefinement a).

(** The event loop. *)
Inductive agent_event :=
| EvSnapshot (ctx : HostContext) (conns : list Connection)
| EvStats (stats : list InterfaceStats)
| EvPermissionDenied (detail : QString)
| EvAccountingUnavailable
| EvGetConnections | EvGetInterfaces
| EvSetInterval (caller : Caller) (ms : Z)
| EvSetEagerness (caller : Caller) (mode : QString)
| EvGetDetails (caller : Caller) (pid : Z) (readDetails : Z -> ProcessDetails)
| EvIdleTimer | EvHintTimer | EvWorkerTimer
| EvNameOwnerChanged (name old new : QString)
| EvResolver (f : S -> S)   (* the world and the resolver's own threads *)
| EvTime (ms : Z).

Definition agentStep (e : agent_event) (a : Agent S) : Agent S * list AgentSignal :=
  match e with
  | EvSnapshot ctx conns => onService (onConnectionsUpdated resolver startTimeOf ctx conns) a
  | EvStats stats => onStatsUpdated stats a
  | EvPermissionDenied d => onService (onPermissionDenied d) a
  | EvAccountingUnavailable => onService onAccountingUnavailable a
  | EvGetConnections => onService (fun sv => let '(_, sv, es) := GetConnections sv in (sv, es)) a
  | EvGetInterfaces => let '(_, a', es) := GetInterfaces a in (a', es)
  | EvSetInterval caller ms => onService (SetDesiredIntervalMs caller ms) a
  | EvSetEagerness caller mode =>
      onService (fun sv => let '(_, sv, es) := SetDesiredAttributionEagerness resolver caller mode sv in (sv, es)) a
  | EvGetDetails caller pid rd =>
      onService (fun sv => let '(_, sv, es) := GetProcessDetails userNameForUid userInGroup caller pid rd sv in (sv, es)) a
  | EvIdleTimer => onService (withIdle idleEvaluate) a
  | EvHintTimer => onService (withHints resolver hintEvaluate) a
  | EvWorkerTimer => onService (onWorkerTick resolver startTimeOf) a
  | EvNameOwnerChanged name old new =>
      onService (fun sv =>
        let '(sv, es) := withIdle (idleNameOwnerChanged name old new) sv in
        let '(sv, fs) := withHints resolver (hintNameOwnerChanged name old new) sv in (sv, es ++ fs)) a
  | EvResolver f => onService (fun sv => (sv_set_resolver (f (sv_resolverState sv)) sv, [])) a
  | EvTime ms => if (0 <=? ms)%Z then (advanceClocks ms a, []) else (a, [])
  end.

Inductive agent_run (cfg : IdleConfig) (mode : AttributionEagerness) (pol : ProcessDetailsPolicy) (s0 : S)
    : Agent S -> list AgentSignal -> Prop :=
| run_start : agent_run cfg mode pol s0 (fst (appStart cfg mode pol s0)) (snd (appStart cfg mode pol s0))
| run_event e a es : agent_run cfg mode pol s0 a es ->
    agent_run cfg mode pol s0 (fst (agentStep e a)) (es ++ snd (agentStep e a)).

(* ------------------------------------------------------------------ *)
(** ** The agent's invariant *)

(** The deep worker follows the announced mode: inactive exactly when the
    mode is [off], with that mode's budgets. *)
Definition follows (mode : AttributionEagerness) (w : DeepWorker) : Prop :=
  let t := resolverTuningFor mode 0 0 in
  w_active w = negb (bool_decide (mode = EagerOff)) /\
  w_batchMax w = deepBatchMax t /\ w_maxAttempts w = deepMaxAttempts t /\
  w_coalesceMs w = deepCoalesceMs t /\ w_demandNetnsScan w = deepDemandNetnsScan t.

Record service_ok (cfg : IdleConfig) (mode : AttributionEagerness) (sv : Service S) : Prop := {
  so_rows : rows_ok (sv_last sv) (sv_lastConns sv) (sv_keyIndex sv);
  so_cap : (Z.of_nat (length (sv_lastConns sv)) <= kMaxConnections)%Z;
  so_idle : exists i, sv_idle sv = Some i /\ idle_ok cfg i;
  so_hints : exists h es, sv_hints sv = Some h /\ hint_ok mode es h /\
    forall w, sv_worker sv = Some w -> worker_ok w /\ follows (hm_lastEmitted h) w;
}.

Context `{!QHashOrderLaws, !StdSortLaws}.

Lemma setActive_follows mode w :
  follows mode (setActive (negb (bool_decide (mode = EagerOff))) (workerSetTuning (resolverTuningFor mode 0 0) w)).
Proof. by destruct mode. Qed.

Lemma process_keeps w s :
  let w' := snd (fst (process resolver startTimeOf w s)) in
  w_active w' = w_active w /\ w_batchMax w' = w_batchMax w /\ w_maxAttempts w' = w_maxAttempts w /\
  w_coalesceMs w' = w_coalesceMs w /\ w_demandNetnsScan w' = w_demandNetnsScan w.
Proof.
  unfold process. destruct resolver as [r|]; [|done]. destruct (w_active w) eqn:Ea; simpl; [|by rewrite Ea].
  destruct (dequeue (w_batchMax w) (w_queue w)) as [batch q]. destruct (foldl _ _ batch) as [[u rt] s1].
  by destruct (isEmpty rt).
Qed.

Lemma workerEnqueue_keeps reqs w :
  let w' := workerEnqueue reqs w in
  w_active w' = w_active w /\ w_batchMax w' = w_batchMax w /\ w_maxAttempts w' = w_maxAttempts w /\
  w_coalesceMs w' = w_coalesceMs w /\ w_demandNetnsScan w' = w_demandNetnsScan w.
Proof.
  unfold workerEnqueue. destruct (negb (w_active w) || isEmpty reqs); [done|]. unfold ensureRunning. simpl.
  destruct (w_timer w); [done|]. by destruct (queueEmpty _).
Qed.

Lemma follows_keeps mode w w' :
  follows mode w ->
  w_active w' = w_active w /\ w_batchMax w' = w_batchMax w /\ w_maxAttempts w' = w_maxAttempts w /\
  w_coalesceMs w' = w_coalesceMs w /\ w_demandNetnsScan w' = w_demandNetnsScan w -> follows mode w'.
Proof. unfold follows. intros (?&?&?&?&?) (-> & -> & -> & -> & ->). done. Qed.

Lemma service_ok_idle cfg mode sv i :
  service_ok cfg mode sv -> idle_ok cfg i -> service_ok cfg mode (sv_set_idle (Some i) sv).
Proof. intros [Hr Hc Hi Hh] Hok. split; try done. by exists i. Qed.

Lemma service_ok_resolver cfg mode sv s :
  service_ok cfg mode sv -> service_ok cfg mode (sv_set_resolver s sv).
Proof. by intros []. Qed.

(** An idle-manager operation is a step of the idle manager. *)
Lemma withIdle_ok cfg mode f sv :
  (forall i, idle_step i (snd (f i)) (fst (f i))) ->
  service_ok cfg mode sv -> service_ok cfg mode (fst (withIdle f sv)).
Proof.
  intros Hf Hok. pose proof (so_idle _ _ _ Hok) as (i & Hi & Hiok). unfold withIdle. rewrite Hi.
  pose proof (idle_step_ok _ _ _ _ (Hf i) Hiok) as Hi'. destruct (f i) as [i' es]. by apply service_ok_idle.
Qed.

Lemma onEffective_ok cfg mode sv h' es m :
  service_ok cfg mode sv -> hint_ok mode es h' -> hm_lastEmitted h' = m ->
  service_ok cfg mode (fst (onEffectiveEagernessChanged resolver m (sv_set_hints (Some h') sv))).
Proof.
  intros [Hr Hc Hi (h & es0 & Hh & _ & Hw)] Hok Hm. unfold onEffectiveEagernessChanged. simpl.
  assert (Hgo : forall s, service_ok cfg mode
    (fst (let sv1 := sv_set_resolver s (sv_set_hints (Some h') sv) in
     (match sv_worker sv1 with
      | Some w => sv_set_worker (Some (setActive (negb (bool_decide (m = EagerOff)))
                    (workerSetTuning (resolverTuningFor m 0 0) w))) sv1
      | None => sv1 end, [AttributionEagernessChanged (eagernessToString m)])))).
  { intros s. simpl. destruct (sv_worker sv) as [w|] eqn:Ew.
    - split; simpl; try done. exists h', es. split; [done|]. split; [done|]. intros w' [= <-].
      destruct (Hw w eq_refl) as [Hwo _]. rewrite Hm. split; [|apply setActive_follows].
      by apply setActive_ok, workerSetTuning_ok.
    - split; simpl; try done. exists h', es. split; [done|]. split; [done|]. intros w'. by rewrite Ew. }
  destruct resolver as [r|]; [apply (Hgo (r_setTuning r _ _))|].
  specialize (Hgo (sv_resolverState sv)). by destruct sv.
Qed.

Lemma hint_step_emits st fs st' :
  hint_step st fs st' -> (fs = [] /\ hm_lastEmitted st' = hm_lastEmitted st) \/ fs = [hm_lastEmitted st'].
Proof.
  assert (Hev : forall s0, (snd (hintEvaluate s0) = [] /\ hm_lastEmitted (fst (hintEvaluate s0)) = hm_lastEmitted s0) \/
      snd (hintEvaluate s0) = [hm_lastEmitted (fst (hintEvaluate s0))]).
  { intros s0. rewrite hintEvaluate_eq. simpl. case_bool_decide; auto. }
  intros Hst. destruct Hst as [sender m st|sender st|name old new st|st|now st Hle]; [| | |apply Hev|by left].
  - unfold setHint. destruct (isEmpty sender); [by left|].
    destruct (tableFull sender (hm_hints st)); [by left|]. apply (Hev (hm_with_hints _ st)).
  - unfold clearHint. destruct (isEmpty sender); [by left|].
    destruct (hm_hints st !! sender); [|by left]. apply (Hev (hm_with_hints _ st)).
  - unfold hintNameOwnerChanged. destruct (negb _); [by left|]. destruct (isEmpty old); [by left|].
    destruct (hm_hints st !! name); [|by left]. apply (Hev (hm_with_hints _ st)).
Qed.

(** A hint-manager operation, with the slot its signal reaches. *)
Lemma withHints_ok cfg mode f sv :
  (forall h, hint_step h (snd (f h)) (fst (f h))) ->
  service_ok cfg mode sv -> service_ok cfg mode (fst (withHints resolver f sv)).
Proof.
  intros Hf Hok. pose proof (so_hints _ _ _ Hok) as (h & es & Hh & Hhok & Hw). unfold withHints. rewrite Hh.
  pose proof (hint_step_ok _ _ _ _ _ (Hf h) Hhok) as Hh'. pose proof (hint_step_emits _ _ _ (Hf h)) as He.
  destruct (f h) as [h' modes]. simpl in *. destruct He as [[-> Hl]| ->].
  - rewrite app_nil_r in Hh'. simpl. destruct Hok as [Hr Hc Hi _]. split; try done.
    exists h', es. split; [done|]. split; [done|]. simpl. intros w Hww. rewrite Hl. by apply Hw.
  - pose proof (onEffective_ok cfg mode sv h' _ _ Hok Hh' eq_refl) as Hgo. exact Hgo.
Qed.

Lemma attributeFlows_length want flows s :
  length (fst (attributeFlows resolver startTimeOf want flows s)) = length flows.
Proof.
  destruct resolver as [r|]; [|done]. symmetry.
  apply (Forall2_length _ _ _ (attributeFlows_attributed r startTimeOf want flows s)).
Qed.

Lemma capSnapshot_length conns : (Z.of_nat (length (capSnapshot conns)) <= kMaxConnections)%Z.
Proof.
  unfold capSnapshot. destruct (Z.ltb_spec kMaxConnections (Z.of_nat (length conns))); [|lia].
  rewrite length_take. unfold kMaxConnections. lia.
Qed.

Lemma onConnectionsUpdated_ok cfg mode ctx conns sv :
  service_ok cfg mode sv -> service_ok cfg mode (fst (onConnectionsUpdated resolver startTimeOf ctx conns sv)).
Proof.
  intros [Hr Hc Hi (h & es & Hh & Hhok & Hw)]. unfold onConnectionsUpdated.
  pose proof (attributeFlows_length (sv_wantContainerChain sv) (map (withDirection ctx) (capSnapshot conns))
    (sv_resolverState sv)) as Hlen.
  destruct (attributeFlows _ _ _ _ _) as [kept s]. simpl in Hlen.
  set (kept' := map (withReason ctx) kept).
  assert (Hn : (Z.of_nat (length kept') <= kMaxConnections)%Z).
  { unfold kept'. rewrite length_map, Hlen, length_map. apply capSnapshot_length. }
  cbn [fst]. set (reqs := map _ (filter _ kept')). clearbody reqs. simpl.
  destruct (sv_worker sv) as [w|] eqn:Ew; [destruct (isEmpty reqs)|]; simpl.
  - split; simpl; [apply indexRows_ok|done|done|]. exists h, es. split; [done|]. split; [done|]. by rewrite Ew.
  - split; simpl; [apply indexRows_ok|done|done|]. exists h, es. split; [done|]. split; [done|].
    intros w' [= <-]. destruct (Hw w eq_refl) as [Hwo Hf]. split; [by apply workerEnqueue_ok|].
    eapply follows_keeps; [exact Hf|apply workerEnqueue_keeps].
  - split; simpl; [apply indexRows_ok|done|done|]. exists h, es. split; [done|]. split; [done|]. by rewrite Ew.
Qed.

Lemma onDeepRefined_ok cfg mode updates sv :
  service_ok cfg mode sv -> service_ok cfg mode (fst (onDeepRefined updates sv)).
Proof.
  intros [Hr Hc Hi Hh]. unfold onDeepRefined.
  pose proof (refineAll_ok (sv_keyIndex sv) updates (sv_lastConns sv) (sv_last sv) [] Hr) as Hx.
  destruct (foldl _ _ updates) as [[conns last] patched]. destruct Hx as (Hok & Hf & _).
  split; simpl; try done. by rewrite <- (Forall2_length _ _ _ Hf).
Qed.

Lemma onWorkerTick_ok cfg mode sv :
  service_ok cfg mode sv -> service_ok cfg mode (fst (onWorkerTick resolver startTimeOf sv)).
Proof.
  intros Hok. unfold onWorkerTick. destruct (sv_worker sv) as [w|] eqn:Ew; [|done].
  pose proof (process_keeps w (sv_resolverState sv)) as Hk.
  pose proof (process_ok resolver startTimeOf w (sv_resolverState sv)) as Hpo.
  destruct (process resolver startTimeOf w (sv_resolverState sv)) as [[updates w'] s]. simpl in *.
  assert (Hok' : service_ok cfg mode (sv_set_resolver s (sv_set_worker (Some w') sv))).
  { destruct Hok as [Hr Hc Hi (h & es & Hh & Hhok & Hw)]. split; simpl; try done.
    exists h, es. split; [done|]. split; [done|]. intros w1 [= <-]. destruct (Hw w Ew) as [Hwo Hf].
    split; [by apply Hpo|]. by eapply follows_keeps. }
  destruct (isEmpty updates); [done|by apply onDeepRefined_ok].
Qed.

Lemma onService_conn f a : ag_conn (fst (onService f a)) = fst (f (ag_conn a)).
Proof. unfold onService. by destruct (f (ag_conn a)). Qed.

Lemma SetDesiredIntervalMs_ok cfg mode caller ms sv :
  service_ok cfg mode sv -> service_ok cfg mode (fst (SetDesiredIntervalMs caller ms sv)).
Proof.
  intros Hok. pose proof (so_idle _ _ _ Hok) as (i & Hi & Hiok). unfold SetDesiredIntervalMs. rewrite Hi.
  pose proof (setClientHint_ok cfg (senderOf caller) (toSigned32 ms) i Hiok) as Hi'.
  destruct (setClientHint (senderOf caller) (toSigned32 ms) i) as [acc [i' es]]. simpl in Hi'.
  pose proof (service_ok_idle _ _ _ _ Hok Hi') as Hok'. destruct acc; [|done].
  pose proof (withIdle_ok cfg mode noteActivity _ (fun j => istep_activity j) Hok') as Hx.
  by destruct (withIdle noteActivity (sv_set_idle (Some i') sv)).
Qed.

Lemma SetDesiredAttributionEagerness_ok cfg mode caller m sv :
  service_ok cfg mode sv ->
  service_ok cfg mode (snd (fst (SetDesiredAttributionEagerness resolver caller m sv))).
Proof.
  intros Hok. unfold SetDesiredAttributionEagerness. destruct (sv_hints sv) as [h|]; [|done].
  set (choice := if _ || _ then _ else _).
  assert (Hc : service_ok cfg mode (fst (snd choice))).
  { unfold choice. destruct (_ || _).
    - apply (withHints_ok cfg mode (fun h => snd (clearHint (senderOf caller) h))); [intros; apply hstep_clear|done].
    - destruct (eagernessFromString _) as [e|]; [|done].
      apply (withHints_ok cfg mode (fun h => snd (setHint (senderOf caller) e h))); [intros; apply hstep_set|done]. }
  destruct choice as [acc [sv1 es]]. simpl in Hc. destruct acc; [|done].
  pose proof (withIdle_ok cfg mode noteActivity _ (fun j => istep_activity j) Hc) as Hx.
  by destruct (withIdle noteActivity sv1).
Qed.

Lemma advanceClocks_ok cfg mode ms a :
  (0 <= ms)%Z -> service_ok cfg mode (ag_conn a) -> service_ok cfg mode (ag_conn (advanceClocks ms a)).
Proof.
  intros Hms [Hr Hc (i & Hi & Hiok) (h & es & Hh & Hhok & Hw)]. split; simpl; [done|done| |].
  - rewrite Hi. eexists. split; [done|]. eapply idle_step_ok; [apply (istep_clock (i_now i + ms))|done]. lia.
  - rewrite Hh. eexists _, es. split; [done|]. split; [|done].
    rewrite <- (app_nil_r es). eapply hint_step_ok; [apply (hstep_clock (hm_now h + ms))|done]. lia.
Qed.

Lemma agentStep_ok cfg mode e a :
  service_ok cfg mode (ag_conn a) -> service_ok cfg mode (ag_conn (fst (agentStep e a))).
Proof.
  intros Hok.
  assert (Hact : service_ok cfg mode (fst (withIdle noteActivity (ag_conn a))))
    by (apply withIdle_ok; [intros; apply istep_activity|done]).
  destruct e as [ctx conns|stats|d| | | |caller ms|caller m|caller pid rd| | | |name old new|f|ms];
    cbn [agentStep]; rewrite ?onService_conn.
  - by apply onConnectionsUpdated_ok.
  - done.
  - done.
  - unfold onAccountingUnavailable. destruct (sv_accountingEnabled _); [|done]. by destruct Hok.
  - unfold GetConnections. by destruct (withIdle noteActivity (ag_conn a)).
  - unfold GetInterfaces. pose proof (onService_conn (withIdle noteActivity) a) as He.
    destruct (onService (withIdle noteActivity) a) as [a' es]. simpl in *. by rewrite He.
  - by apply SetDesiredIntervalMs_ok.
  - pose proof (SetDesiredAttributionEagerness_ok cfg mode caller m _ Hok) as Hx.
    by destruct (SetDesiredAttributionEagerness resolver caller m (ag_conn a)) as [[? ?] ?].
  - unfold GetProcessDetails. destruct (withIdle noteActivity (ag_conn a)) as [sv es].
    destruct (_ || _); [done|]. destruct (negb _); [done|]. by destruct (callerMaySeeProcessFields _ _ _ _ _).
  - apply withIdle_ok; [intros; apply istep_timer|done].
  - apply withHints_ok; [intros; apply hstep_prune|done].
  - by apply onWorkerTick_ok.
  - assert (Hs1 : service_ok cfg mode (fst (withIdle (idleNameOwnerChanged name old new) (ag_conn a))))
      by (apply withIdle_ok; [intros; apply istep_owner|done]).
    destruct (withIdle (idleNameOwnerChanged name old new) (ag_conn a)) as [sv es]. simpl in Hs1.
    assert (Hs2 : service_ok cfg mode (fst (withHints resolver (hintNameOwnerChanged name old new) sv)))
      by (apply withHints_ok; [intros; apply hstep_owner|done]).
    by destruct (withHints resolver (hintNameOwnerChanged name old new) sv).
  - by apply service_ok_resolver.
  - destruct (Z.leb_spec 0 ms); [by apply advanceClocks_ok|done].
Qed.

Lemma appStart_ok cfg mode pol s0 : service_ok cfg mode (ag_conn (fst (appStart cfg mode pol s0))).
Proof.
  unfold appStart. set (caps := match resolver with Some r => _ | None => _ end).
  assert (Hgo : forall want worker async, (forall w, worker = Some w -> worker_ok w /\ follows mode w) ->
    service_ok cfg mode (ag_conn (fst (onService (withIdle noteActivity)
      (mkAgent (mkService want pol [] [] ∅ 0 true 0 (Some (fst (newIdle cfg)))
        (Some (newHintManager mode (hintTtlMs cfg))) worker s0) [] 0 async))))).
  { intros want worker async Hw. rewrite onService_conn. apply withIdle_ok; [intros; apply istep_activity|].
    split; simpl.
    - apply (indexRows_ok []).
    - done.
    - exists (fst (newIdle cfg)). split; [done|apply newIdle_ok].
    - eexists _, []. split; [done|]. split; [|done]. split; simpl; try done. lia. }
  destruct (hasToken (qs "process-attribution") caps); apply Hgo; [|done].
  intros w [= <-]. split; [|apply setActive_follows]. apply setActive_ok, workerSetTuning_ok, newWorker_ok.
Qed.

Lemma agent_run_ok cfg mode pol s0 a es : agent_run cfg mode pol s0 a es -> service_ok cfg mode (ag_conn a).
Proof. induction 1; [apply appStart_ok|by apply agentStep_ok]. Qed.


(* ------------------------------------------------------------------ *)
(** ** The kill switch *)

Definition attributionSignal (s : AgentSignal) : bool :=
  match s with
  | FromService (AttributionChanged _ _) | FromService (AttributionEagernessChanged _) => true
  | _ => false
  end.

Definition quiet (es : list AgentSignal) : Prop := Forall (fun s => attributionSignal s = false) es.

Lemma quiet_cadence es : quiet (map publish (map CadenceChanged es)).
Proof. unfold quiet. rewrite map_map. apply Forall_map, Forall_true. done. Qed.

Lemma withIdle_quiet f (sv : Service S) : quiet (map publish (snd (withIdle f sv))).
Proof.
  unfold withIdle. destruct (sv_idle sv) as [i|]; [|constructor]. destruct (f i) as [i' es]. apply quiet_cadence.
Qed.

Lemma withHints_quiet cfg f sv :
  (forall h, hint_step h (snd (f h)) (fst (f h))) ->
  service_ok cfg EagerOff sv -> snd (withHints resolver f sv) = [].
Proof.
  intros Hf Hok. pose proof (so_hints _ _ _ Hok) as (h & es & Hh & Hhok & _). unfold withHints. rewrite Hh.
  pose proof (hok_off _ _ _ (hint_step_ok _ _ _ _ _ (Hf h) Hhok) eq_refl) as Hn.
  destruct (f h) as [h' modes]. simpl in Hn. by apply app_nil in Hn as [_ ->].
Qed.

Lemma onService_signals f a : snd (onService f a) = map publish (snd (f (ag_conn a))).
Proof. unfold onService. by destruct (f (ag_conn a)). Qed.

(** Under a configured [off] the worker is inactive and has nothing to do. *)
Lemma worker_off cfg sv w s :
  service_ok cfg EagerOff sv -> sv_worker sv = Some w ->
  process resolver startTimeOf w s = ([], workerClear w, s).
Proof.
  intros Hok Hw. pose proof (so_hints _ _ _ Hok) as (h & es & Hh & Hhok & Hall).
  destruct (Hall w Hw) as [_ (Ha & _)].
  assert (Hl : hm_lastEmitted h = EagerOff).
  { rewrite <- (hok_mirror _ _ _ Hhok). by rewrite (hok_off _ _ _ Hhok). }
  apply process_inactive. left. by rewrite Ha, Hl.
Qed.

Lemma eagerness_quiet cfg caller m sv :
  service_ok cfg EagerOff sv ->
  quiet (map publish (snd (SetDesiredAttributionEagerness resolver caller m sv))).
Proof.
  intros Hok. unfold SetDesiredAttributionEagerness. destruct (sv_hints sv) as [h|]; [|constructor].
  set (choice := if _ || _ then _ else _).
  assert (Hc : snd (snd choice) = []).
  { unfold choice. destruct (_ || _).
    - apply (withHints_quiet cfg (fun h => snd (clearHint (senderOf caller) h))); [intros; apply hstep_clear|done].
    - destruct (eagernessFromString _) as [e|]; [|done].
      apply (withHints_quiet cfg (fun h => snd (setHint (senderOf caller) e h))); [intros; apply hstep_set|done]. }
  destruct choice as [acc [sv1 es]]. simpl in Hc. subst es. destruct acc; [|constructor].
  pose proof (withIdle_quiet noteActivity sv1) as Hq. by destruct (withIdle noteActivity sv1).
Qed.

Lemma interval_quiet caller ms (sv : Service S) : quiet (map publish (snd (SetDesiredIntervalMs caller ms sv))).
Proof.
  unfold SetDesiredIntervalMs. destruct (sv_idle sv) as [i|]; [|constructor].
  destruct (setClientHint _ _ i) as [acc [i' es]]. destruct acc; [|apply quiet_cadence].
  pose proof (withIdle_quiet noteActivity (sv_set_idle (Some i') sv)) as Hq.
  destruct (withIdle noteActivity (sv_set_idle (Some i') sv)) as [sv' es']. simpl in *.
  unfold quiet in *. rewrite map_app. apply Forall_app. split; [apply quiet_cadence|done].
Qed.

Lemma agentStep_quiet cfg e a : service_ok cfg EagerOff (ag_conn a) -> quiet (snd (agentStep e a)).
Proof.
  intros Hok. pose proof (withIdle_quiet noteActivity (ag_conn a)) as Hact.
  destruct e as [ctx conns|stats|d| | | |caller ms|caller m|caller pid rd| | | |name old new|f|ms];
    cbn [agentStep]; rewrite ?onService_signals.
  - unfold onConnectionsUpdated. destruct (attributeFlows _ _ _ _ _). by repeat constructor.
  - by repeat constructor.
  - by repeat constructor.
  - unfold onAccountingUnavailable. destruct (sv_accountingEnabled _); by repeat constructor.
  - unfold GetConnections. by destruct (withIdle noteActivity (ag_conn a)).
  - unfold GetInterfaces. pose proof (onService_signals (withIdle noteActivity) a) as He.
    destruct (onService (withIdle noteActivity) a) as [a' es]. simpl in *. by rewrite He.
  - apply interval_quiet.
  - pose proof (eagerness_quiet cfg caller m _ Hok) as Hx.
    by destruct (SetDesiredAttributionEagerness resolver caller m (ag_conn a)) as [[? ?] ?].
  - unfold GetProcessDetails. destruct (withIdle noteActivity (ag_conn a)) as [sv es].
    destruct (_ || _); [done|]. destruct (negb _); [done|]. by destruct (callerMaySeeProcessFields _ _ _ _ _).
  - apply withIdle_quiet.
  - rewrite (withHints_quiet cfg); [constructor|intros; apply hstep_prune|done].
  - unfold onWorkerTick. destruct (sv_worker (ag_conn a)) as [w|] eqn:Ew; [|constructor].
    rewrite (worker_off cfg (ag_conn a) w) by done. constructor.
  - pose proof (withIdle_quiet (idleNameOwnerChanged name old new) (ag_conn a)) as Hq.
    assert (Hs1 : service_ok cfg EagerOff (fst (withIdle (idleNameOwnerChanged name old new) (ag_conn a))))
      by (apply withIdle_ok; [intros; apply istep_owner|done]).
    destruct (withIdle (idleNameOwnerChanged name old new) (ag_conn a)) as [sv es]. simpl in *.
    pose proof (withHints_quiet cfg (hintNameOwnerChanged name old new) sv (fun h => hstep_owner _ _ _ h) Hs1) as Hn.
    destruct (withHints resolver (hintNameOwnerChanged name old new) sv) as [sv' fs]. simpl in *. subst fs.
    by rewrite app_nil_r.
  - constructor.
  - destruct (0 <=? ms)%Z; constructor.
Qed.

End Agent.

(* ------------------------------------------------------------------ *)
(** ** Overrides and capabilities *)

(** A resolver that records the tuning it was given. *)
Definition tuningResolver : Resolver ResolverTuning := {|
  r_initialize s := (true, s);
  r_capabilities _ := [qs "process-attribution"];
  r_setTuning t _ := t;
  r_requestDeepScan s := s;
  r_resolvePid _ s := (0%Z, s);
  r_enrichPid _ s := (None, s);
  r_resolveContainerForPid _ s := (None, s);
  r_resolveContainerChainForPid _ s := ([], s);
|}.

(** A runtime eagerness change discards the administrator's refresh
    overrides: when the announced mode returns to the configured one, the
    resolver is left with the bare preset, which differs from the configured
    tuning whenever an override was set. *)
Theorem eagerness_change_drops_overrides mode cache netns (sv : Service ResolverTuning) :
  mode <> EagerOff -> (0 < cache)%Z -> cacheRefreshMs (resolverTuningFor mode 0 0) <> cache ->
  let sv' := fst (onEffectiveEagernessChanged (Some tuningResolver) mode sv) in
  sv_resolverState sv' = resolverTuningFor mode 0 0 /\
  sv_resolverState sv' <> resolverTuningFor mode cache netns.
Proof.
  intros Hm Hc Hne. unfold onEffectiveEagernessChanged. simpl.
  assert (Hs : sv_resolverState (fst (onEffectiveEagernessChanged (Some tuningResolver) mode sv)) = resolverTuningFor mode 0 0).
  { unfold onEffectiveEagernessChanged. simpl. by destruct (sv_worker sv). }
  unfold onEffectiveEagernessChanged in Hs. simpl in Hs. rewrite Hs. split; [done|].
  intros Heq. apply Hne. rewrite Heq. unfold resolverTuningFor.
  rewrite (proj2 (Z.ltb_lt 0 cache) Hc). destruct mode; [done| |]; by destruct (0 <? netns)%Z.
Qed.

Lemma addToken_all_spec base toks t :
  t ∈ foldl addToken base toks <-> t ∈ base \/ t ∈ toks.
Proof.
  revert base. induction toks as [|k toks IH]; intros base; simpl; [set_solver|].
  rewrite IH. unfold addToken. case_bool_decide; set_solver.
Qed.

Lemma True_iff_eq_qs a b : qeqb (qs a) (qs b) = true -> qs a = qs b <-> True.
Proof. intros Hq%qeqb_eq. tauto. Qed.

Lemma False_iff_eq_qs a b : qeqb (qs a) (qs b) = false -> qs a = qs b <-> False.
Proof. intros Hq%qeqb_neq. tauto. Qed.

Lemma attributionWireTokens_spec l :
  (qs "process-attribution-wire" ∈ attributionWireTokens l <-> qs "process-attribution" ∈ l) /\
  (qs "container-attribution-wire" ∈ attributionWireTokens l <-> qs "container-attribution" ∈ l) /\
  (qs "container-chain-wire" ∈ attributionWireTokens l <->
     qs "container-attribution" ∈ l /\ qs "container-chain" ∈ l).
Proof.
  unfold attributionWireTokens, hasToken.
  destruct (bool_decide_reflect (qs "process-attribution" ∈ l)),
    (bool_decide_reflect (qs "container-attribution" ∈ l)),
    (bool_decide_reflect (qs "container-chain" ∈ l));
    cbn [app andb]; rewrite ?elem_of_cons, ?elem_of_nil;
    repeat match goal with
    | |- context [qs ?a = qs ?b] =>
        first [rewrite (True_iff_eq_qs a b ltac:(vm_compute; reflexivity))
              |rewrite (False_iff_eq_qs a b ltac:(vm_compute; reflexivity))]
    end; tauto.
Qed.

Definition wireTokens : list QString :=
  [qs "process-attribution-wire"; qs "container-attribution-wire"; qs "container-chain-wire"].

Lemma wireTokens_not_base (async : bool) (t : QString) :
  t ∈ wireTokens -> t ∉ baseCapabilities ++ (if async then [qs "attribution-async-refinement"] else []).
Proof.
  intros Ht. unfold wireTokens in Ht. rewrite !elem_of_cons, elem_of_nil in Ht.
  destruct Ht as [->|[->|[->|[]]]]; apply (bool_decide_eq_false_1 _); destruct async; vm_compute; reflexivity.
Qed.

(** The agent advertises the wire tokens honestly: each
    [*-attribution-wire] token is advertised exactly when the resolver
    advertises the data behind it, the chain only together with the leaf
    container, and none without a resolver. *)
Theorem wire_tokens_honest (async : bool) (caps : option (list QString)) :
  (forall l, caps = Some l -> forall t, t ∈ l -> t ∉ wireTokens) ->
  let tokens := agentCapabilities async caps in
  let provides tok := exists l, caps = Some l /\ tok ∈ l in
  (qs "process-attribution-wire" ∈ tokens <-> provides (qs "process-attribution")) /\
  (qs "container-attribution-wire" ∈ tokens <-> provides (qs "container-attribution")) /\
  (qs "container-chain-wire" ∈ tokens <->
     provides (qs "container-attribution") /\ provides (qs "container-chain")).
Proof.
  intros Hclean tokens provides.
  assert (Hnb := wireTokens_not_base async).
  destruct caps as [l|]; unfold tokens, provides, agentCapabilities.
  - specialize (Hclean l eq_refl). destruct (attributionWireTokens_spec l) as (Hp & Hc & Hh).
    assert (Hred : forall t, t ∈ wireTokens ->
      t ∈ foldl addToken (foldl addToken (baseCapabilities ++
        (if async then [qs "attribution-async-refinement"] else [])) l) (attributionWireTokens l) <->
      t ∈ attributionWireTokens l).
    { intros t Ht. rewrite !addToken_all_spec. specialize (Hnb t Ht). naive_solver. }
    assert (Hsome : forall t, (exists l0, Some l = Some l0 /\ t ∈ l0) <-> t ∈ l) by naive_solver.
    rewrite !Hsome, !Hred, Hp, Hc, Hh by (apply (bool_decide_eq_true_1 _); vm_compute; reflexivity). done.
  - assert (Hnone : forall t, t ∈ wireTokens -> (t ∈ baseCapabilities ++
        (if async then [qs "attribution-async-refinement"] else []) <-> False)) by naive_solver.
    rewrite !Hnone by (apply (bool_decide_eq_true_1 _); vm_compute; reflexivity). naive_solver.
Qed.

(* ------------------------------------------------------------------ *)
(** ** Witnesses *)

(** An agent over [constResolver], after one snapshot with one flow. *)
Definition sampleHost : HostContext := mkHost {[AddrV4 167772162]} ∅ 32768 60999.



Lemma eagerness_change_drops_overrides_witness :
  let sv := mkService false (mkPolicy PolicyOwner [] []) [] [] ∅ 0 true 0 None None None
              (resolverTuningFor Balanced 300 0) in
  sv_resolverState (fst (onEffectiveEagernessChanged (Some tuningResolver) Balanced sv))
    <> resolverTuningFor Balanced 300 0.
Proof.
  apply (eagerness_change_drops_overrides Balanced 300 0); [discriminate|reflexivity|discriminate].
Defined.

Lemma wire_tokens_honest_witness :
  qs "container-chain-wire" ∉ agentCapabilities true (Some [qs "process-attribution"; qs "container-chain"]).
Proof.
  destruct (wire_tokens_honest true (Some [qs "process-attribution"; qs "container-chain"])) as (_ & _ & Hc).
  - intros l Hl t Ht. injection Hl as <-. rewrite !elem_of_cons, elem_of_nil in Ht.
    destruct Ht as [->|[->|[]]]; apply (bool_decide_eq_false_1 _); vm_compute; reflexivity.
  - intros Hin. apply Hc in Hin as [(l & Hl & Hin) _]. injection Hl as <-.
    rewrite !elem_of_cons, elem_of_nil in Hin. destruct Hin as [Hin|[Hin|[]]]; discriminate Hin.
Defined.
