(* ===== verification/UdpAgg.v ===== *)
(** * UDP aggregation by peer: the first half of [ConnectionAggregator::updateConnections]

    Flows of one UDP service are shown as a single row.  Each aggregate keeps
    a base (what finished or restarted members contributed) and the latest
    counters of its live members; the row shows base + members, with the
    64-bit wrap of the source. *)

From S2P Require Import Prelude Qt Conn.

Record Counters := mkCounters { ct_rx : Z; ct_tx : Z; ct_rxp : Z; ct_txp : Z }.

Definition zeroCounters : Counters := mkCounters 0 0 0 0.
Definition addCounters (a b : Counters) : Counters :=
  mkCounters (u64 (ct_rx a + ct_rx b)) (u64 (ct_tx a + ct_tx b))
    (u64 (ct_rxp a + ct_rxp b)) (u64 (ct_txp a + ct_txp b)).
Definition countersOf (c : Connection) : Counters :=
  mkCounters (c_rxBytes c) (c_txBytes c) (c_rxPackets c) (c_txPackets c).

Record UdpAggMember := mkMember { um_counters : Counters; um_lastSeenMs : Z }.
Record UdpAggState := mkUdpAgg {
  ua_base : Counters;
  ua_members : gmap QString UdpAggMember;
  ua_lastSeenMs : Z;
}.

Definition newMember : UdpAggMember := mkMember zeroCounters 0.
Definition newUdpAgg : UdpAggState := mkUdpAgg zeroCounters ∅ 0.

Section Udp.
Context `{QtAddrText, QHashOrder}.

(** [Connection k = c] with the ephemeral port erased. *)
Definition aggFlow (c : Connection) : Connection :=
  match c_direction c with
  | Outbound => set_endpoints (mkEndpoint (ep_address (c_local c)) 0) (c_remote c) c
  | _ => set_endpoints (c_local c) (mkEndpoint (ep_address (c_remote c)) 0) c
  end.

(** The loop body for one member observed at [nowMs]. *)
Definition observeMember (nowMs : Z) (c : Connection) (st : UdpAggState) : UdpAggState :=
  let mem := default newMember (ua_members st !! key c) in
  let base :=
    if (c_rxBytes c <? ct_rx (um_counters mem))%Z || (c_txBytes c <? ct_tx (um_counters mem))%Z
    then addCounters (ua_base st) (um_counters mem) else ua_base st in
  mkUdpAgg base (<[key c := mkMember (countersOf c) nowMs]> (ua_members st)) nowMs.

Definition isAggregated (c : Connection) : bool :=
  bool_decide (c_proto c = Udp) && negb (bool_decide (c_direction c = DirUnknown)).

Record UdpPass := mkUdpPass {
  up_udpAgg : gmap QString UdpAggState;
  up_agg : gmap QString Connection;
  up_passthrough : list Connection;
}.

Definition udpObserve (nowMs : Z) (p : UdpPass) (c : Connection) : UdpPass :=
  if isAggregated c then
    let k := aggFlow c in
    let st := default newUdpAgg (up_udpAgg p !! key k) in
    mkUdpPass (<[key k := observeMember nowMs c st]> (up_udpAgg p))
      (match up_agg p !! key k with None => <[key k := k]> (up_agg p) | Some _ => up_agg p end)
      (up_passthrough p)
  else mkUdpPass (up_udpAgg p) (up_agg p) (up_passthrough p ++ [c]).

(** Expired members move into the base. *)
Definition pruneMember (nowMs retention : Z) (st : UdpAggState) (km : QString * UdpAggMember) : UdpAggState :=
  if (retention <? nowMs - um_lastSeenMs (snd km))%Z
  then mkUdpAgg (addCounters (ua_base st) (um_counters (snd km))) (delete (fst km) (ua_members st)) (ua_lastSeenMs st)
  else st.

Definition pruneMembers (nowMs retention : Z) (st : UdpAggState) : UdpAggState :=
  foldl (pruneMember nowMs retention) st (hash_iter (ua_members st)).

Definition udpPrune (nowMs retention : Z) (m : gmap QString UdpAggState) : gmap QString UdpAggState :=
  pruneMembers nowMs retention <$>
    filter (fun ks : QString * UdpAggState => (retention <? nowMs - ua_lastSeenMs (snd ks))%Z = false) m.

(** What the aggregate's row shows. *)
Definition udpTotal (st : UdpAggState) : Counters :=
  foldl (fun acc km => addCounters acc (um_counters (snd km))) (ua_base st) (hash_iter (ua_members st)).

Definition set_all_counters (t : Counters) (c : Connection) : Connection :=
  set_counters (ct_rx t) (ct_tx t) (ct_rxp t) (ct_txp t) c.

Definition withTotals (m : gmap QString UdpAggState) (k : QString) (c : Connection) : Connection :=
  match m !! k with Some st => set_all_counters (udpTotal st) c | None => c end.

(** The whole block: the aggregation state after it and the flow list. *)
Definition aggregateUdp (nowMs retention : Z) (m : gmap QString UdpAggState) (conns : list Connection)
    : gmap QString UdpAggState * list Connection :=
  let p := foldl (udpObserve nowMs) (mkUdpPass m ∅ []) conns in
  let m' := udpPrune nowMs retention (up_udpAgg p) in
  let agg := map_imap (fun k c => Some (withTotals m' k c)) (up_agg p) in
  (m', up_passthrough p ++ (hash_iter agg).*2).

(* ------------------------------------------------------------------ *)
(** ** Totals *)

(** Sums over the members, for either byte counter. *)
Definition memberSum (f : Counters -> Z) (m : gmap QString UdpAggMember) : Z :=
  map_fold (fun _ x n => f (um_counters x) + n)%Z 0%Z m.

Lemma memberSum_insert f m k x :
  m !! k = None -> memberSum f (<[k := x]> m) = (f (um_counters x) + memberSum f m)%Z.
Proof. intros Hk. unfold memberSum. rewrite map_fold_insert_L; [done|intros; lia|done]. Qed.

Lemma memberSum_delete f m k x :
  m !! k = Some x -> memberSum f m = (f (um_counters x) + memberSum f (delete k m))%Z.
Proof.
  intros Hk. rewrite <- (insert_delete_id m k x Hk) at 1. by rewrite memberSum_insert by apply lookup_delete_eq.
Qed.

Lemma memberSum_update f m k x :
  memberSum f (<[k := x]> m) =
    (memberSum f m - f (um_counters (default newMember (m !! k))) + f (um_counters x)
     + match m !! k with None => f zeroCounters | Some _ => 0 end)%Z.
Proof.
  destruct (m !! k) as [old|] eqn:Ek; simpl.
  - rewrite <- insert_delete_eq, memberSum_insert by apply lookup_delete_eq.
    rewrite (memberSum_delete f m k old) by done. lia.
  - rewrite memberSum_insert by done. lia.
Qed.

(** The exact (unwrapped) total of one counter. *)
Definition exactSum (f : Counters -> Z) (st : UdpAggState) : Z :=
  (f (ua_base st) + memberSum f (ua_members st))%Z.

Definition byteCounter (f : Counters -> Z) : Prop := f = ct_rx \/ f = ct_tx.

Record udp_wf (st : UdpAggState) : Prop := {
  uw_base : forall f, byteCounter f -> (0 <= f (ua_base st))%Z;
  uw_members : forall f k x, byteCounter f -> ua_members st !! k = Some x -> (0 <= f (um_counters x))%Z;
}.

Lemma byteCounter_add f a b : byteCounter f -> f (addCounters a b) = u64 (f a + f b).
Proof. by intros [-> | ->]. Qed.

Lemma byteCounter_zero f : byteCounter f -> f zeroCounters = 0%Z.
Proof. by intros [-> | ->]. Qed.

Lemma memberSum_nonneg f m :
  (forall k x, m !! k = Some x -> (0 <= f (um_counters x))%Z) -> (0 <= memberSum f m)%Z.
Proof.
  induction m as [|k x m Hk IH] using map_ind; intros Hx; [done|].
  rewrite memberSum_insert by done.
  assert (0 <= f (um_counters x))%Z by (apply (Hx k); by rewrite lookup_insert_eq).
  assert (0 <= memberSum f m)%Z; [|lia].
  apply IH. intros k' y Hy. apply (Hx k'). rewrite lookup_insert_ne; [done|congruence].
Qed.

Lemma member_default_nonneg f st k :
  byteCounter f -> udp_wf st -> (0 <= f (um_counters (default newMember (ua_members st !! k))))%Z.
Proof.
  intros Hf Hwf. destruct (ua_members st !! k) as [x|] eqn:Ek; simpl; [by eapply uw_members|].
  by rewrite byteCounter_zero.
Qed.

(** One observation: the exact total grows by at most what was observed. *)
Lemma observeMember_sum f nowMs c st :
  byteCounter f -> udp_wf st -> (0 <= f (countersOf c))%Z ->
  (exactSum f st + f (countersOf c) < two64)%Z ->
  (exactSum f st <= exactSum f (observeMember nowMs c st) <= exactSum f st + f (countersOf c))%Z.
Proof.
  intros Hf Hwf Hc Hov. pose proof (member_default_nonneg f st (key c) Hf Hwf) as Hmem.
  pose proof (uw_base _ Hwf f Hf). unfold exactSum, observeMember; cbn [ua_base ua_members].
  rewrite memberSum_update; cbn [um_counters]. rewrite byteCounter_zero by done.
  assert (Hle : (f (um_counters (default newMember (ua_members st !! key c))) <= memberSum f (ua_members st))%Z).
  { destruct (ua_members st !! key c) as [x|] eqn:Ek; simpl.
    - rewrite (memberSum_delete f _ _ _ Ek). enough (0 <= memberSum f (delete (key c) (ua_members st)))%Z by lia.
      apply memberSum_nonneg. intros k y [_ Hy]%lookup_delete_Some. by eapply uw_members.
    - rewrite byteCounter_zero by done. apply memberSum_nonneg. intros; by eapply uw_members. }
  set (mem := um_counters (default newMember (ua_members st !! key c))) in *.
  assert (forall z, match ua_members st !! key c with Some _ => 0%Z | None => 0%Z end = z -> z = 0%Z) as Hz
    by (intros z; destruct (ua_members st !! key c); congruence).
  specialize (Hz _ eq_refl). rewrite Hz. unfold exactSum in Hov.
  destruct (_ || _) eqn:Er.
  - rewrite byteCounter_add by done. rewrite u64_small by (unfold in_u64; lia). lia.
  - assert (f mem <= f (countersOf c))%Z by (destruct Hf as [-> | ->]; cbn [countersOf ct_rx ct_tx]; blia). lia.
Qed.

Lemma observeMember_wf nowMs c st :
  (forall f, byteCounter f -> 0 <= f (countersOf c))%Z -> udp_wf st -> udp_wf (observeMember nowMs c st).
Proof.
  intros Hc Hwf. split.
  - intros f Hf. unfold observeMember; cbn [ua_base]. destruct (_ || _); [|by apply uw_base].
    rewrite byteCounter_add by done. apply u64_range.
  - intros f k x Hf. unfold observeMember; cbn [ua_members].
    rewrite lookup_insert_Some. intros [[_ <-]|[_ Hx]]; [by apply Hc|by eapply uw_members].
Qed.

(** Moving expired members into the base loses nothing. *)
Lemma pruneFold_sum f nowMs retention (l : list (QString * UdpAggMember)) st :
  byteCounter f -> udp_wf st -> (exactSum f st < two64)%Z -> NoDup l.*1 ->
  (forall k x, (k, x) ∈ l -> ua_members st !! k = Some x) ->
  exactSum f (foldl (pruneMember nowMs retention) st l) = exactSum f st.
Proof.
  intros Hf. revert st. induction l as [|[k x] l IH]; intros st Hwf Hov Hnd Hl; [done|].
  apply NoDup_cons in Hnd as [Hk Hnd]. simpl. unfold pruneMember at 2; cbn [fst snd].
  destruct (retention <? _)%Z; [|apply IH; try done; intros; apply Hl; by right].
  assert (Hx : ua_members st !! k = Some x) by (apply Hl; left).
  assert (Hpos : (0 <= memberSum f (delete k (ua_members st)))%Z).
  { apply memberSum_nonneg. intros k' y [_ Hy]%lookup_delete_Some. by eapply uw_members. }
  pose proof (uw_base _ Hwf f Hf). pose proof (uw_members _ Hwf f k x Hf Hx).
  assert (Heq : exactSum f (mkUdpAgg (addCounters (ua_base st) (um_counters x)) (delete k (ua_members st)) (ua_lastSeenMs st))
                = exactSum f st).
  { unfold exactSum in *; cbn [ua_base ua_members]. rewrite byteCounter_add by done.
    rewrite (memberSum_delete f _ _ _ Hx) in *. rewrite u64_small by (unfold in_u64; lia). lia. }
  rewrite IH; [done| |by rewrite Heq|done|].
  - split; cbn [ua_base ua_members].
    + intros g Hg. rewrite byteCounter_add by done. apply u64_range.
    + intros g k' y Hg [_ Hy]%lookup_delete_Some. by eapply uw_members.
  - intros k' y Hy; cbn [ua_members]. rewrite lookup_delete_ne; [apply Hl; by right|].
    intros ->. apply Hk. by apply (list_elem_of_fmap_2 fst _ _ Hy).
Qed.
End Udp.

Section UdpProofs.
Context `{QtAddrText, QHashOrderLaws}.

Lemma pruneMembers_sum f nowMs retention st :
  byteCounter f -> udp_wf st -> (exactSum f st < two64)%Z ->
  exactSum f (pruneMembers nowMs retention st) = exactSum f st.
Proof.
  intros. apply pruneFold_sum; [done..|apply hash_iter_NoDup|]. intros k x. by rewrite elem_of_hash_iter.
Qed.

Lemma pruneMembers_wf nowMs retention st : udp_wf st -> udp_wf (pruneMembers nowMs retention st).
Proof.
  unfold pruneMembers. generalize (hash_iter (ua_members st)). intros l. revert st.
  induction l as [|km l IH]; intros st Hwf; [done|]. simpl. apply IH. unfold pruneMember.
  destruct (retention <? _)%Z; [|done]. split; cbn [ua_base ua_members].
  - intros g Hg. rewrite byteCounter_add by done. apply u64_range.
  - intros g k' y Hg [_ Hy]%lookup_delete_Some. by eapply uw_members.
Qed.

Lemma exactSum_range f st : byteCounter f -> udp_wf st -> (exactSum f st < two64)%Z -> in_u64 (exactSum f st).
Proof.
  intros Hf Hwf Hlt. split; [|done]. unfold exactSum. pose proof (uw_base _ Hwf f Hf).
  pose proof (memberSum_nonneg f (ua_members st) (fun k x => uw_members _ Hwf f k x Hf)). lia.
Qed.

Lemma base_range f st : byteCounter f -> udp_wf st -> (exactSum f st < two64)%Z -> in_u64 (f (ua_base st)).
Proof.
  intros Hf Hwf. unfold exactSum, in_u64. pose proof (uw_base _ Hwf f Hf).
  pose proof (memberSum_nonneg f (ua_members st) (fun k x => uw_members _ Hwf f k x Hf)). lia.
Qed.

(** What the row shows is the exact total, modulo the counter width. *)
Lemma udpTotal_sum f st :
  byteCounter f -> in_u64 (exactSum f st) -> in_u64 (f (ua_base st)) -> f (udpTotal st) = exactSum f st.
Proof.
  intros Hf Hin Hb. rewrite <- (u64_small (exactSum f st)) by done.
  assert (Hfold : forall (l : list (QString * UdpAggMember)) acc, f acc = u64 (f acc) ->
    f (foldl (fun a km => addCounters a (um_counters (snd km))) acc l)
    = u64 (f acc + foldr (fun km n => f (um_counters (snd km)) + n)%Z 0%Z l)).
  { induction l as [|km l IH]; intros acc Hacc; simpl; [by rewrite Z.add_0_r|].
    rewrite IH; rewrite byteCounter_add by done.
    - by rewrite u64_add_l, Z.add_assoc.
    - by rewrite (u64_small (u64 _)) by apply u64_range. }
  unfold udpTotal. rewrite Hfold by (by rewrite u64_small).
  unfold exactSum, memberSum. do 2 f_equal. rewrite map_fold_foldr.
  transitivity (foldr (fun km n => f (um_counters (snd km)) + n)%Z 0%Z (map_to_list (ua_members st))).
  - apply (foldr_permutation_proper (=)); [by intros ? ?? ->|intros; simpl; lia|apply hash_iter_perm].
  - apply foldr_ext; [|done|done]. by intros [].
Qed.

(** The fold over the snapshot, at one aggregate. *)
Definition flowSum (f : Counters -> Z) (conns : list Connection) : Z :=
  foldr (fun c n => f (countersOf c) + n)%Z 0%Z conns.

Definition counters_nonneg (c : Connection) : Prop := (0 <= c_rxBytes c)%Z /\ (0 <= c_txBytes c)%Z.

Lemma counters_nonneg_byte c f : counters_nonneg c -> byteCounter f -> (0 <= f (countersOf c))%Z.
Proof. by intros [??] [-> | ->]. Qed.

Lemma flowSum_nonneg f conns : byteCounter f -> Forall counters_nonneg conns -> (0 <= flowSum f conns)%Z.
Proof.
  intros Hf. induction 1 as [|c l Hc _ IH]; [done|]. simpl.
  pose proof (counters_nonneg_byte c f Hc Hf). lia.
Qed.

Lemma udpObserve_step f nowMs c p k st :
  byteCounter f -> counters_nonneg c ->
  up_udpAgg p !! k = Some st -> udp_wf st -> (exactSum f st + f (countersOf c) < two64)%Z ->
  exists st', up_udpAgg (udpObserve nowMs p c) !! k = Some st' /\ udp_wf st' /\
    (exactSum f st <= exactSum f st' <= exactSum f st + f (countersOf c))%Z /\
    (ua_lastSeenMs st' = ua_lastSeenMs st \/ ua_lastSeenMs st' = nowMs).
Proof.
  intros Hf Hc Hk Hwf Hov. pose proof (counters_nonneg_byte c f Hc Hf) as Hcf.
  unfold udpObserve. destruct (isAggregated c); cbn [up_udpAgg];
    [destruct (decide (key (aggFlow c) = k)) as [<-|Hne]|].
  - rewrite Hk, lookup_insert_eq; cbn [default]. eexists. split; [reflexivity|].
    split_and!; [|by apply observeMember_sum..|by right].
    apply observeMember_wf; [intros; by apply counters_nonneg_byte|done].
  - rewrite lookup_insert_ne by done. exists st. split_and!; [done|done|lia|lia|by left].
  - exists st. split_and!; [done|done|lia|lia|by left].
Qed.

Lemma udpObserve_fold f nowMs conns p k st :
  byteCounter f -> Forall counters_nonneg conns ->
  up_udpAgg p !! k = Some st -> udp_wf st -> (exactSum f st + flowSum f conns < two64)%Z ->
  exists st', up_udpAgg (foldl (udpObserve nowMs) p conns) !! k = Some st' /\ udp_wf st' /\
    (exactSum f st <= exactSum f st' <= exactSum f st + flowSum f conns)%Z /\
    (ua_lastSeenMs st' = ua_lastSeenMs st \/ ua_lastSeenMs st' = nowMs).
Proof.
  intros Hf Hc. revert p st. induction Hc as [|c l Hc Hl IH]; intros p st Hk Hwf Hov; simpl in *.
  { exists st. split_and!; [done|done|lia|lia|by left]. }
  pose proof (flowSum_nonneg f l Hf Hl).
  destruct (udpObserve_step f nowMs c p k st) as (st1 & Hst1 & Hwf1 & Hle1 & Hseen1); [done..|lia|].
  destruct (IH (udpObserve nowMs p c) st1) as (st' & Hst' & Hwf' & Hle' & Hseen'); [done..|lia|].
  exists st'. split_and!; [done|done|lia|lia|]. intuition congruence.
Qed.

End UdpProofs.

(* ------------------------------------------------------------------ *)
(** ** Witness: a DNS client whose only flow restarts with smaller counters *)

Definition sampleUdp (rx tx : Z) : Connection :=
  set_direction Outbound (set_proto Udp (set_counters rx tx 1 1 sampleTcp)).

Definition sampleAgg : UdpAggState :=
  observeMember 0 (sampleUdp 500 400) newUdpAgg.

