(* ===== verification/Aggregator.v ===== *)
(** * The per-connection flow table: [src/aggregate/ConnectionAggregator.{h,cpp}]

    The table a frontend shows: one row per flow (UDP flows grouped by peer),
    rates smoothed in three layers, rows retained for a while after their flow
    disappears, and granular change signals that a model adapter maps onto
    insert/remove/update brackets.  The [rx]/[tx] pairs of fields of [Row] are
    two values of one record [Channel]; [m_elapsed.elapsed()] is the [nowMs]
    argument.  The DNS resolver is the abstract class of [dns/DnsResolver.h]:
    its [cachedName] is a parameter and its [resolve] an emitted request. *)

From S2P Require Import Prelude Qt Conn Heuristics UdpAgg.

(* ------------------------------------------------------------------ *)
(** ** Rows and state *)

Inductive ThroughputMaxMode := Windowed | CumulativeAverage.
#[global] Instance ThroughputMaxMode_eq_dec : EqDecision ThroughputMaxMode. Proof. solve_decision. Defined.
Inductive FlowEnd := FlowSource | FlowDestination.

Record RateSample := mkSample { rs_timeMs : Z; rs_rate : double }.

Record Channel := mkChannel {
  ch_rate : double;        (* rxRate / txRate: what is displayed *)
  ch_raw : double;
  ch_target : double;
  ch_animFrom : double;
  ch_animStartMs : Z;
  ch_animDurMs : Z;
  ch_samples : list RateSample;
  ch_sum : double;
}.
Definition newChannel : Channel := mkChannel dzero dzero dzero dzero 0 0 [] dzero.

Record Row := mkRow {
  r_current : Connection;
  r_rx : Channel;
  r_tx : Channel;
  r_lastSeenMs : Z;
  r_stale : bool;
  r_samples : Z;
}.
Definition newRow (c : Connection) (nowMs : Z) : Row := mkRow c newChannel newChannel nowMs false 0.

Record AggSettings := mkAggSettings {
  as_resolver : option nat;      (* the object m_resolver points to *)
  as_resolveEnabled : bool;
  as_staleRetentionMs : Z;
  as_staleRetentionMsUdp : Z;
  as_udpAggregateByPeer : bool;
  as_aliasIface : bool;
  as_maxMode : ThroughputMaxMode;
  as_windowMs : Z;
  as_rateSmoothingMs : Z;
  as_pollIntervalMs : Z;
  as_ephemeralLow : Z;
  as_ephemeralHigh : Z;
  as_loopbackAddrs : gset QHostAddress;
  as_localAddrs : gset QHostAddress;
}.

Record Aggregator := mkAgg {
  ag_rows : list Row;
  ag_keyToIdx : gmap QString nat;
  ag_prev : gmap QString Connection;
  ag_lastElapsedMs : Z;
  ag_udpAgg : gmap QString UdpAggState;
  ag_settings : AggSettings;
}.

(** Signals, and the calls made on the resolver. *)
Inductive AggSignal :=
| rowsAboutToBeInserted (first last : Z)
| rowsInserted
| rowsAboutToBeRemoved (first last : Z)
| rowsRemoved
| rowsUpdated (first last : Z)
| viewDataChanged
| resolveCall (addr : QHostAddress)
| connectResolver (r : nat)
| disconnectResolver (r : nat).

(** The constructor; the port range is what the platform reports. *)
Definition newAggregator (ephemeralPortRange : Z * Z) : Aggregator :=
  mkAgg [] ∅ ∅ 0 ∅
    (mkAggSettings None false 15000 60000 true true Windowed 30000 0 1000
       (fst ephemeralPortRange) (snd ephemeralPortRange) {[ LocalHost; LocalHostIPv6 ]} ∅).

(* ------------------------------------------------------------------ *)
(** ** Coalescing of updated rows: [RowUpdateRuns] *)

Record RowUpdateRuns := mkRuns { ru_first : Z; ru_last : Z }.
Definition newRuns : RowUpdateRuns := mkRuns (-1) (-1).

Definition runsAdd (row : Z) (r : RowUpdateRuns) : RowUpdateRuns * list AggSignal :=
  if (ru_first r <? 0)%Z then (mkRuns row row, [])
  else if (row =? ru_last r + 1)%Z then (mkRuns (ru_first r) row, [])
  else (mkRuns row row, [rowsUpdated (ru_first r) (ru_last r)]).

Definition runsFlush (r : RowUpdateRuns) : list AggSignal :=
  if (ru_first r <? 0)%Z then [] else [rowsUpdated (ru_first r) (ru_last r)].

(** A pass over the rows that reports the ones it touched: [f] returns the
    new row and whether it was updated. *)
Fixpoint rowPass (f : Row -> Row * bool) (i : Z) (runs : RowUpdateRuns) (rows : list Row)
    : list Row * list AggSignal :=
  match rows with
  | [] => ([], runsFlush runs)
  | r :: rest =>
      let '(r', touched) := f r in
      let '(runs', sent) := if touched then runsAdd i runs else (runs, []) in
      let '(rest', sigs) := rowPass f (i + 1) runs' rest in
      (r' :: rest', sent ++ sigs)
  end.

(* ------------------------------------------------------------------ *)
(** ** Settings *)

Definition ag_set_settings (s : AggSettings) (a : Aggregator) : Aggregator :=
  mkAgg (ag_rows a) (ag_keyToIdx a) (ag_prev a) (ag_lastElapsedMs a) (ag_udpAgg a) s.
Definition ag_set_rows (rows : list Row) (a : Aggregator) : Aggregator :=
  mkAgg rows (ag_keyToIdx a) (ag_prev a) (ag_lastElapsedMs a) (ag_udpAgg a) (ag_settings a).

Definition repaintIf (b : bool) : list AggSignal := if b then [viewDataChanged] else [].
Definition hasRows (a : Aggregator) : bool := negb (isEmpty (ag_rows a)).

Definition requestResolution (s : AggSettings) (addr : QHostAddress) : list AggSignal :=
  if as_resolveEnabled s && bool_decide (is_Some (as_resolver s)) && negb (addrIsNull addr)
  then [resolveCall addr] else [].

Definition requestBoth (s : AggSettings) (c : Connection) : list AggSignal :=
  requestResolution s (ep_address (c_local c)) ++ requestResolution s (ep_address (c_remote c)).

Definition setDnsResolver (resolver : option nat) (a : Aggregator) : Aggregator * list AggSignal :=
  let s := ag_settings a in
  if bool_decide (as_resolver s = resolver) then (a, [])
  else (ag_set_settings (mkAggSettings resolver (as_resolveEnabled s) (as_staleRetentionMs s)
          (as_staleRetentionMsUdp s) (as_udpAggregateByPeer s) (as_aliasIface s) (as_maxMode s) (as_windowMs s)
          (as_rateSmoothingMs s) (as_pollIntervalMs s) (as_ephemeralLow s) (as_ephemeralHigh s)
          (as_loopbackAddrs s) (as_localAddrs s)) a,
        match as_resolver s with Some r => [disconnectResolver r] | None => [] end
        ++ match resolver with Some r => [connectResolver r] | None => [] end).

Definition setHostnameResolutionEnabled (enabled : bool) (a : Aggregator) : Aggregator * list AggSignal :=
  let s := ag_settings a in
  if Bool.eqb (as_resolveEnabled s) enabled then (a, [])
  else
    let s' := mkAggSettings (as_resolver s) enabled (as_staleRetentionMs s)
          (as_staleRetentionMsUdp s) (as_udpAggregateByPeer s) (as_aliasIface s) (as_maxMode s) (as_windowMs s)
          (as_rateSmoothingMs s) (as_pollIntervalMs s) (as_ephemeralLow s) (as_ephemeralHigh s)
          (as_loopbackAddrs s) (as_localAddrs s) in
    (ag_set_settings s' a,
     repaintIf (hasRows a)
     ++ if enabled && bool_decide (is_Some (as_resolver s))
        then concat (map (fun r => requestBoth s' (r_current r)) (ag_rows a)) else []).

Definition setLocalAddresses (addrs : gset QHostAddress) (a : Aggregator) : Aggregator * list AggSignal :=
  let s := ag_settings a in
  let addrs := addrs ∖ {[ LocalHost ]} ∖ {[ LocalHostIPv6 ]} in
  if bool_decide (addrs = as_localAddrs s) then (a, [])
  else (ag_set_settings (mkAggSettings (as_resolver s) (as_resolveEnabled s) (as_staleRetentionMs s)
          (as_staleRetentionMsUdp s) (as_udpAggregateByPeer s) (as_aliasIface s) (as_maxMode s) (as_windowMs s)
          (as_rateSmoothingMs s) (as_pollIntervalMs s) (as_ephemeralLow s) (as_ephemeralHigh s)
          (as_loopbackAddrs s) addrs) a,
        repaintIf (hasRows a && as_resolveEnabled s && as_aliasIface s)).

Definition setStaleRetentionMs (ms : Z) (a : Aggregator) : Aggregator :=
  let s := ag_settings a in
  ag_set_settings (mkAggSettings (as_resolver s) (as_resolveEnabled s) (if (ms <? 0)%Z then 0 else ms)
          (as_staleRetentionMsUdp s) (as_udpAggregateByPeer s) (as_aliasIface s) (as_maxMode s) (as_windowMs s)
          (as_rateSmoothingMs s) (as_pollIntervalMs s) (as_ephemeralLow s) (as_ephemeralHigh s)
          (as_loopbackAddrs s) (as_localAddrs s)) a.

Definition setStaleRetentionMsUdp (ms : Z) (a : Aggregator) : Aggregator :=
  let s := ag_settings a in
  ag_set_settings (mkAggSettings (as_resolver s) (as_resolveEnabled s) (as_staleRetentionMs s)
          (if (ms <? 0)%Z then 0 else ms) (as_udpAggregateByPeer s) (as_aliasIface s) (as_maxMode s) (as_windowMs s)
          (as_rateSmoothingMs s) (as_pollIntervalMs s) (as_ephemeralLow s) (as_ephemeralHigh s)
          (as_loopbackAddrs s) (as_localAddrs s)) a.

Definition setUdpAggregateByPeer (v : bool) (a : Aggregator) : Aggregator :=
  let s := ag_settings a in
  mkAgg (ag_rows a) (ag_keyToIdx a) (ag_prev a) (ag_lastElapsedMs a)
    (if Bool.eqb v (as_udpAggregateByPeer s) then ag_udpAgg a else ∅)
    (mkAggSettings (as_resolver s) (as_resolveEnabled s) (as_staleRetentionMs s)
          (as_staleRetentionMsUdp s) v (as_aliasIface s) (as_maxMode s) (as_windowMs s)
          (as_rateSmoothingMs s) (as_pollIntervalMs s) (as_ephemeralLow s) (as_ephemeralHigh s)
          (as_loopbackAddrs s) (as_localAddrs s)).

Definition setResolveIfaceAddrsAsLocalhost (v : bool) (a : Aggregator) : Aggregator * list AggSignal :=
  let s := ag_settings a in
  if Bool.eqb v (as_aliasIface s) then (a, [])
  else (ag_set_settings (mkAggSettings (as_resolver s) (as_resolveEnabled s) (as_staleRetentionMs s)
          (as_staleRetentionMsUdp s) (as_udpAggregateByPeer s) v (as_maxMode s) (as_windowMs s)
          (as_rateSmoothingMs s) (as_pollIntervalMs s) (as_ephemeralLow s) (as_ephemeralHigh s)
          (as_loopbackAddrs s) (as_localAddrs s)) a,
        repaintIf (hasRows a && as_resolveEnabled s)).

Definition setThroughputMaxMode (m : ThroughputMaxMode) (a : Aggregator) : Aggregator * list AggSignal :=
  let s := ag_settings a in
  if bool_decide (m = as_maxMode s) then (a, [])
  else (ag_set_settings (mkAggSettings (as_resolver s) (as_resolveEnabled s) (as_staleRetentionMs s)
          (as_staleRetentionMsUdp s) (as_udpAggregateByPeer s) (as_aliasIface s) m (as_windowMs s)
          (as_rateSmoothingMs s) (as_pollIntervalMs s) (as_ephemeralLow s) (as_ephemeralHigh s)
          (as_loopbackAddrs s) (as_localAddrs s)) a,
        repaintIf (hasRows a)).

(** [while (!q.empty() && q.front().timeMs < cutoff) q.pop_front()] *)
Fixpoint trimSamples (cutoff : Z) (q : list RateSample) : list RateSample :=
  match q with
  | [] => []
  | s :: rest => if (rs_timeMs s <? cutoff)%Z then trimSamples cutoff rest else q
  end.

Definition trimChannel (cutoff : Z) (c : Channel) : Channel :=
  mkChannel (ch_rate c) (ch_raw c) (ch_target c) (ch_animFrom c) (ch_animStartMs c) (ch_animDurMs c)
    (trimSamples cutoff (ch_samples c)) (ch_sum c).

Definition trimRow (cutoff : Z) (r : Row) : Row :=
  mkRow (r_current r) (trimChannel cutoff (r_rx r)) (trimChannel cutoff (r_tx r))
    (r_lastSeenMs r) (r_stale r) (r_samples r).

Definition setThroughputWindowMs (ms : Z) (a : Aggregator) : Aggregator * list AggSignal :=
  let s := ag_settings a in
  let ms := if (ms <? 1000)%Z then 1000%Z else ms in
  if (ms =? as_windowMs s)%Z then (a, [])
  else
    let a' := ag_set_settings (mkAggSettings (as_resolver s) (as_resolveEnabled s) (as_staleRetentionMs s)
          (as_staleRetentionMsUdp s) (as_udpAggregateByPeer s) (as_aliasIface s) (as_maxMode s) ms
          (as_rateSmoothingMs s) (as_pollIntervalMs s) (as_ephemeralLow s) (as_ephemeralHigh s)
          (as_loopbackAddrs s) (as_localAddrs s)) a in
    if hasRows a && bool_decide (as_maxMode s = Windowed)
    then (ag_set_rows (trimRow (ag_lastElapsedMs a - ms) <$> ag_rows a) a', [viewDataChanged])
    else (a', []).

Definition setRateSmoothingMs (ms : Z) (a : Aggregator) : Aggregator :=
  let s := ag_settings a in
  ag_set_settings (mkAggSettings (as_resolver s) (as_resolveEnabled s) (as_staleRetentionMs s)
          (as_staleRetentionMsUdp s) (as_udpAggregateByPeer s) (as_aliasIface s) (as_maxMode s) (as_windowMs s)
          (if (ms <? 0)%Z then 0 else ms) (as_pollIntervalMs s) (as_ephemeralLow s) (as_ephemeralHigh s)
          (as_loopbackAddrs s) (as_localAddrs s)) a.

Definition setPollIntervalMs (ms : Z) (a : Aggregator) : Aggregator :=
  let s := ag_settings a in
  ag_set_settings (mkAggSettings (as_resolver s) (as_resolveEnabled s) (as_staleRetentionMs s)
          (as_staleRetentionMsUdp s) (as_udpAggregateByPeer s) (as_aliasIface s) (as_maxMode s) (as_windowMs s)
          (as_rateSmoothingMs s) (if (ms <? 0)%Z then 0 else ms) (as_ephemeralLow s) (as_ephemeralHigh s)
          (as_loopbackAddrs s) (as_localAddrs s)) a.

(* ------------------------------------------------------------------ *)
(** ** Derived text and references *)

Section Display.
Context `{QtAddrText} (dnsCachedName : nat -> QHostAddress -> QString).

Definition channelReference (s : AggSettings) (samples : Z) (c : Channel) : double :=
  match as_maxMode s with
  | CumulativeAverage => if (0 <? samples)%Z then ddiv (ch_sum c) (dofZ samples) else dzero
  | Windowed => foldl (fun m x => dmax (rs_rate x) m) dzero (ch_samples c)
  end.
Definition rxReference (s : AggSettings) (r : Row) : double := channelReference s (r_samples r) (r_rx r).
Definition txReference (s : AggSettings) (r : Row) : double := channelReference s (r_samples r) (r_tx r).

Definition aggIsForwardedFlow (s : AggSettings) (c : Connection) : bool :=
  isForwardedFlow (as_localAddrs s) (as_loopbackAddrs s) c.

Definition displayHost (s : AggSettings) (addr : QHostAddress) : QString :=
  if as_resolveEnabled s then
    if bool_decide (addr ∈ as_loopbackAddrs s) then qs "localhost"
    else if as_aliasIface s && bool_decide (addr ∈ as_localAddrs s) then qs "localhost"
    else match as_resolver s with
         | Some r => let cached := dnsCachedName r addr in
                     if isEmpty cached then addrToString addr else cached
         | None => addrToString addr
         end
  else addrToString addr.

Definition cachedHostname (s : AggSettings) (addr : QHostAddress) : QString :=
  match as_resolver s with
  | Some r => if as_resolveEnabled s then dnsCachedName r addr else []
  | None => []
  end.

Definition protoLabel (s : AggSettings) (c : Connection) : QString :=
  let base := l4ProtoToString (c_proto c) in
  if as_resolveEnabled s && (bool_decide (c_proto c = Tcp) || bool_decide (c_proto c = Udp))
  then base ++ (if isIPv6 (c_local c) || isIPv6 (c_remote c) then qs "v6" else qs "v4")
  else base.

Definition portText (ep : Endpoint) : QString := if (ep_port ep =? 0)%Z then qs "*" else number (ep_port ep).

Definition hostPort (ep : Endpoint) (host : QString) : QString :=
  if addrIsIPv6 (ep_address ep) && qeqb host (addrToString (ep_address ep))
  then qs "[" ++ host ++ qs "]:" ++ portText ep
  else host ++ qs ":" ++ portText ep.

Definition endpointText (s : AggSettings) (ep : Endpoint) : QString :=
  hostPort ep (displayHost s (ep_address ep)).

Definition endpointCopyText (s : AggSettings) (ep : Endpoint) : QString :=
  hostPort ep (if as_resolveEnabled s && bool_decide (ep_address ep ∈ as_localAddrs s)
               then addrToString (ep_address ep) else displayHost s (ep_address ep)).

(** [m_rows[row]] for an [int] row, [None] when the guard rejects it. *)
Definition rowAt (a : Aggregator) (row : Z) : option Row :=
  if (row <? 0)%Z then None else ag_rows a !! Z.to_nat row.

Definition copyTextForEndpoint (a : Aggregator) (row : Z) (which : FlowEnd) : QString :=
  match rowAt a row with
  | None => []
  | Some r =>
      let c := r_current r in
      let srcIsLocal := negb (bool_decide (c_direction c = Inbound)) in
      endpointCopyText (ag_settings a)
        (match which with
         | FlowSource => if srcIsLocal then c_local c else c_remote c
         | FlowDestination => if srcIsLocal then c_remote c else c_local c
         end)
  end.

Definition copyTextForFlow (a : Aggregator) (row : Z) : QString :=
  match rowAt a row with
  | None => []
  | Some r =>
      let c := r_current r in
      protoLabel (ag_settings a) c ++ qs "  " ++ copyTextForEndpoint a row FlowSource ++ [32; 8594; 32]%Z
      ++ copyTextForEndpoint a row FlowDestination
      ++ (if isEmpty (c_iface c) then [] else qs " [" ++ c_iface c ++ qs "]")
  end.

Definition peerAddressText (a : Aggregator) (row : Z) : QString :=
  match rowAt a row with
  | None => []
  | Some r =>
      let c := r_current r in
      let peer := if bool_decide (c_direction c = Inbound) then c_local c else c_remote c in
      if addrIsNull (ep_address peer) then [] else addrToString (ep_address peer)
  end.
End Display.

(* ------------------------------------------------------------------ *)
(** ** [updateConnections] *)

Section Update.
Context `{QtAddrText, QHashOrder}.

Definition withInferredDirection (s : AggSettings) (c : Connection) : Connection :=
  if bool_decide (c_direction c = DirUnknown)
  then set_direction (inferDirection (as_localAddrs s) (as_loopbackAddrs s) c (as_ephemeralLow s) (as_ephemeralHigh s)) c
  else c.

Definition indexByKey (conns : list Connection) : gmap QString Connection :=
  foldl (fun m c => <[key c := c]> m) ∅ conns.

(** [double(now - before) / deltaSecs], 0 across a counter reset. *)
Definition rawRate (deltaSecs : double) (now : Z) (before : option Z) : double :=
  match before with
  | None => dzero
  | Some b => if (b <=? now)%Z then ddiv (dofZ (now - b)) deltaSecs else dzero
  end.

(** One channel of a row whose flow is present. *)
Definition updateChannel (s : AggSettings) (nowMs deltaMs : Z) (raw : double) (c : Channel) : Channel :=
  let samples := trimSamples (nowMs - as_windowMs s) (ch_samples c ++ [mkSample nowMs raw]) in
  let sum := dadd (ch_sum c) raw in
  if (0 <? as_rateSmoothingMs s)%Z then
    let target := if (0 <? deltaMs)%Z
                  then emaUpdate (ch_target c) raw (dofZ deltaMs) (dofZ (as_rateSmoothingMs s)) else raw in
    let durRise := if (0 <? as_pollIntervalMs s)%Z then as_pollIntervalMs s else 1000%Z in
    let durFall := Z.max 100 (durRise / 3) in
    mkChannel (ch_rate c) raw target (ch_rate c) nowMs (if dlt target (ch_rate c) then durFall else durRise) samples sum
  else mkChannel raw raw raw (ch_animFrom c) (ch_animStartMs c) 0 samples sum.

Definition clearChannel (c : Channel) : Channel :=
  mkChannel dzero dzero dzero (ch_animFrom c) (ch_animStartMs c) 0 (ch_samples c) (ch_sum c).

Definition updateRow (s : AggSettings) (nowMs deltaMs : Z) (incoming prev : gmap QString Connection) (r : Row)
    : Row * bool :=
  let k := key (r_current r) in
  match incoming !! k with
  | Some c =>
      let deltaSecs := if (0 <? deltaMs)%Z then ddiv (dofZ deltaMs) (dofZ 1000) else dofZ 1 in
      let rawRx := rawRate deltaSecs (c_rxBytes c) (c_rxBytes <$> prev !! k) in
      let rawTx := rawRate deltaSecs (c_txBytes c) (c_txBytes <$> prev !! k) in
      (mkRow c (updateChannel s nowMs deltaMs rawRx (r_rx r)) (updateChannel s nowMs deltaMs rawTx (r_tx r))
         nowMs false (u64 (r_samples r + 1)), true)
  | None =>
      if r_stale r then (r, false)
      else (mkRow (r_current r) (clearChannel (r_rx r)) (clearChannel (r_tx r)) (r_lastSeenMs r) true (r_samples r), true)
  end.

Definition staleBudget (s : AggSettings) (c : Connection) : Z :=
  if bool_decide (c_proto c = Udp) then as_staleRetentionMsUdp s else as_staleRetentionMs s.

Definition expiredRow (s : AggSettings) (nowMs : Z) (r : Row) : bool :=
  r_stale r && (staleBudget s (r_current r) <? nowMs - r_lastSeenMs r)%Z.

(** [for (i = size - 1; i >= 0; --i)], [n = i + 1]. *)
Fixpoint pruneRows (s : AggSettings) (nowMs : Z) (n : nat) (rows : list Row) : list Row * list AggSignal :=
  match n with
  | O => (rows, [])
  | S i =>
      match rows !! i with
      | Some r =>
          if expiredRow s nowMs r then
            let '(rows', sigs) := pruneRows s nowMs i (delete i rows) in
            (rows', rowsAboutToBeRemoved (Z.of_nat i) (Z.of_nat i) :: rowsRemoved :: sigs)
          else pruneRows s nowMs i rows
      | None => pruneRows s nowMs i rows
      end
  end.

Definition rowKey (r : Row) : QString := key (r_current r).

Definition indexOfRows (rows : list Row) : gmap QString nat :=
  snd (foldl (fun im r => (S (fst im), <[rowKey r := fst im]> (snd im))) (O, ∅) rows).

(** The append loop. *)
Definition appendRow (s : AggSettings) (nowMs : Z) (st : list Row * gmap QString nat * list AggSignal) (c : Connection)
    : list Row * gmap QString nat * list AggSignal :=
  let '(rows, idx, sigs) := st in
  (rows ++ [newRow c nowMs], <[key c := length rows]> idx, sigs ++ requestBoth s c).

Definition appendRows (s : AggSettings) (nowMs : Z) (additions : list Connection) (rows : list Row)
    (idx : gmap QString nat) : list Row * gmap QString nat * list AggSignal :=
  if isEmpty additions then (rows, idx, [])
  else
    let firstNew := Z.of_nat (length rows) in
    let '(rows', idx', sigs) := foldl (appendRow s nowMs)
      (rows, idx, [rowsAboutToBeInserted firstNew (firstNew + Z.of_nat (length additions) - 1)]) additions in
    (rows', idx', sigs ++ [rowsInserted]).

(** The snapshot the table is updated from: directions filled in, UDP grouped. *)
Definition prepareSnapshot (s : AggSettings) (nowMs : Z) (udp : gmap QString UdpAggState) (conns : list Connection)
    : gmap QString UdpAggState * list Connection :=
  let conns := withInferredDirection s <$> conns in
  if as_udpAggregateByPeer s then aggregateUdp nowMs (as_staleRetentionMsUdp s) udp conns
  else (∅, conns).

Definition updateConnections (nowMs : Z) (connections : list Connection) (a : Aggregator)
    : Aggregator * list AggSignal :=
  let s := ag_settings a in
  let deltaMs := (nowMs - ag_lastElapsedMs a)%Z in
  let '(udp, conns) := prepareSnapshot s nowMs (ag_udpAgg a) connections in
  let incoming := indexByKey conns in
  let '(rows1, sigs1) := rowPass (updateRow s nowMs deltaMs incoming (ag_prev a)) 0 newRuns (ag_rows a) in
  let '(rows2, sigs2) := pruneRows s nowMs (length rows1) rows1 in
  let idx := indexOfRows rows2 in
  let additions := (filter (fun kc : QString * Connection => idx !! fst kc = None) (hash_iter incoming)).*2 in
  let '(rows3, idx3, sigs3) := appendRows s nowMs additions rows2 idx in
  (mkAgg rows3 idx3 incoming nowMs udp s, sigs1 ++ sigs2 ++ sigs3).
End Update.

(* ------------------------------------------------------------------ *)
(** ** [applyAttributionPatch], [advanceSmoothing], [onResolved] *)

Section Patch.
Context `{QtAddrText}.

(** The patched flow and whether anything changed. *)
Definition patchConnection (p cur : Connection) : Connection * bool :=
  let '(cur1, any1) :=
    if processValid (c_process p) && negb (bool_decide (c_process cur = c_process p))
    then (set_reason (c_reason p) (set_process (c_process p) cur), true) else (cur, false) in
  let '(cur2, any2) :=
    if containerValid (c_container p) && negb (bool_decide (c_container cur1 = c_container p))
    then (set_container (c_container p) cur1, true) else (cur1, any1) in
  if negb (isEmpty (c_containerChain p)) && negb (bool_decide (c_containerChain cur2 = c_containerChain p))
  then (set_chain (c_containerChain p) cur2, true) else (cur2, any2).

Definition set_current (c : Connection) (r : Row) : Row :=
  mkRow c (r_rx r) (r_tx r) (r_lastSeenMs r) (r_stale r) (r_samples r).

Definition patchOne (idx : gmap QString nat) (st : list Row * bool) (p : Connection) : list Row * bool :=
  let '(rows, any) := st in
  match idx !! key p with
  | None => st
  | Some i =>
      match rows !! i with
      | None => st
      | Some r =>
          let '(cur, changed) := patchConnection p (r_current r) in
          (<[i := set_current cur r]> rows, any || changed)
      end
  end.

Definition applyAttributionPatch (patch : list Connection) (a : Aggregator) : Aggregator * list AggSignal :=
  let '(rows, any) := foldl (patchOne (ag_keyToIdx a)) (ag_rows a, false) patch in
  (ag_set_rows rows a, repaintIf any).
End Patch.

(** The tween step of one channel, and whether the display moved visibly. *)
Definition tweenStep (nowMs : Z) (c : Channel) : Channel * bool :=
  let set_rate (v : double) (dur : Z) :=
    mkChannel v (ch_raw c) (ch_target c) (ch_animFrom c) (ch_animStartMs c) dur (ch_samples c) (ch_sum c) in
  if (ch_animDurMs c <=? 0)%Z then (c, false)
  else
    let t := ddiv (dofZ (nowMs - ch_animStartMs c)) (dofZ (ch_animDurMs c)) in
    if dle (dofZ 1) t then (set_rate (ch_target c) 0%Z, dlt (dofZ 1) (dabs (dsub (ch_rate c) (ch_target c))))
    else if dle t dzero then (c, false)
    else
      let v := dadd (ch_animFrom c) (dmul (dsub (ch_target c) (ch_animFrom c)) (easeOutCubic t)) in
      (set_rate v (ch_animDurMs c), dlt (dofZ 1) (dabs (dsub v (ch_rate c)))).

Definition smoothRow (nowMs : Z) (r : Row) : Row * bool :=
  if r_stale r then (r, false)
  else
    let '(rx, m1) := tweenStep nowMs (r_rx r) in
    let '(tx, m2) := tweenStep nowMs (r_tx r) in
    (mkRow (r_current r) rx tx (r_lastSeenMs r) (r_stale r) (r_samples r), m1 || m2).

Definition advanceSmoothing (nowMs : Z) (a : Aggregator) : Aggregator * list AggSignal :=
  if (as_rateSmoothingMs (ag_settings a) <=? 0)%Z || isEmpty (ag_rows a) then (a, [])
  else
    let '(rows, sigs) := rowPass (smoothRow nowMs) 0 newRuns (ag_rows a) in
    (ag_set_rows rows a, sigs).

Definition mentions (addr : QHostAddress) (c : Connection) : bool :=
  bool_decide (ep_address (c_local c) = addr) || bool_decide (ep_address (c_remote c) = addr).

Definition onResolved (addr : QHostAddress) (a : Aggregator) : Aggregator * list AggSignal :=
  if negb (as_resolveEnabled (ag_settings a)) || isEmpty (ag_rows a) then (a, [])
  else
    let '(rows, sigs) := rowPass (fun r => (r, mentions addr (r_current r))) 0 newRuns (ag_rows a) in
    (ag_set_rows rows a, sigs).
