(* ===== verification/AggregatorRun.v ===== *)
(** * The flow table over its whole life

    Every slot and setter of [ConnectionAggregator] as a step; what holds in
    every reachable state, and what a view that follows the signals sees. *)

From S2P Require Import Prelude Qt Conn Heuristics UdpAgg Aggregator AggregatorProofs.

Inductive AggEvent :=
| AgUpdate (nowMs : Z) (conns : list Connection)
| AgPatch (patch : list Connection)
| AgSmooth (nowMs : Z)
| AgResolved (addr : QHostAddress)
| AgSetResolver (r : option nat)
| AgSetResolve (enabled : bool)
| AgSetLocal (addrs : gset QHostAddress)
| AgSetRetention (ms : Z)
| AgSetRetentionUdp (ms : Z)
| AgSetUdpAggregate (v : bool)
| AgSetAlias (v : bool)
| AgSetMaxMode (m : ThroughputMaxMode)
| AgSetWindow (ms : Z)
| AgSetSmoothing (ms : Z)
| AgSetPoll (ms : Z).

Section Run.
Context `{QtAddrText, QHashOrder}.

Definition agg_step (a : Aggregator) (ev : AggEvent) : Aggregator * list AggSignal :=
  match ev with
  | AgUpdate nowMs conns => updateConnections nowMs conns a
  | AgPatch patch => applyAttributionPatch patch a
  | AgSmooth nowMs => advanceSmoothing nowMs a
  | AgResolved addr => onResolved addr a
  | AgSetResolver r => setDnsResolver r a
  | AgSetResolve b => setHostnameResolutionEnabled b a
  | AgSetLocal addrs => setLocalAddresses addrs a
  | AgSetRetention ms => (setStaleRetentionMs ms a, [])
  | AgSetRetentionUdp ms => (setStaleRetentionMsUdp ms a, [])
  | AgSetUdpAggregate v => (setUdpAggregateByPeer v a, [])
  | AgSetAlias v => setResolveIfaceAddrsAsLocalhost v a
  | AgSetMaxMode m => setThroughputMaxMode m a
  | AgSetWindow ms => setThroughputWindowMs ms a
  | AgSetSmoothing ms => (setRateSmoothingMs ms a, [])
  | AgSetPoll ms => (setPollIntervalMs ms a, [])
  end.

Fixpoint agg_run (a : Aggregator) (evs : list AggEvent) : Aggregator * list AggSignal :=
  match evs with
  | [] => (a, [])
  | ev :: rest =>
      let '(a1, sigs1) := agg_step a ev in
      let '(a2, sigs2) := agg_run a1 rest in
      (a2, sigs1 ++ sigs2)
  end.
End Run.

#[local] Opaque key.

(** The clamps of the setters, and the split of the address sets. *)
Record settings_ok (s : AggSettings) : Prop := {
  so_retention : (0 <= as_staleRetentionMs s)%Z;
  so_retentionUdp : (0 <= as_staleRetentionMsUdp s)%Z;
  so_window : (1000 <= as_windowMs s)%Z;
  so_smoothing : (0 <= as_rateSmoothingMs s)%Z;
  so_poll : (0 <= as_pollIntervalMs s)%Z;
  so_loopback : as_loopbackAddrs s = {[ LocalHost; LocalHostIPv6 ]};
  so_disjoint : as_localAddrs s ## as_loopbackAddrs s;
}.

Section RunProofs.
Context `{QtAddrText, QHashOrderLaws}.

Record agg_ok (a : Aggregator) : Prop := {
  ao_index : index_ok (ag_rows a) (ag_keyToIdx a);
  ao_settings : settings_ok (ag_settings a);
}.

Lemma index_ok_same_keys rows rows' idx :
  rowKey <$> rows' = rowKey <$> rows -> index_ok rows idx -> index_ok rows' idx.
Proof.
  intros Heq [Hs Hc]. split.
  - intros k i Hk. destruct (Hs _ _ Hk) as (r & Hr & <-).
    assert (Hl : (rowKey <$> rows') !! i = Some (rowKey r)) by (by rewrite Heq, list_lookup_fmap, Hr).
    rewrite list_lookup_fmap in Hl. apply fmap_Some in Hl as (r' & Hr' & ->). by exists r'.
  - intros i r' Hr'.
    assert (Hl : (rowKey <$> rows) !! i = Some (rowKey r')) by (by rewrite <- Heq, list_lookup_fmap, Hr').
    rewrite list_lookup_fmap in Hl. apply fmap_Some in Hl as (r & Hr & Hk). rewrite Hk. by apply Hc.
Qed.

Lemma rowPass_keys f rows :
  (forall r, rowKey (fst (f r)) = rowKey r) -> rowKey <$> fst (rowPass f 0 newRuns rows) = rowKey <$> rows.
Proof. intros Hf. rewrite rowPass_rows, <- list_fmap_compose. apply list_fmap_ext. intros i r _. apply Hf. Qed.

Lemma smoothRow_key nowMs r : rowKey (fst (smoothRow nowMs r)) = rowKey r.
Proof.
  unfold smoothRow. destruct (r_stale r); [done|].
  by destruct (tweenStep nowMs (r_rx r)), (tweenStep nowMs (r_tx r)).
Qed.

(** An operation that only passes over the rows. *)
Lemma rowPass_step_ok f a :
  (forall r, rowKey (fst (f r)) = rowKey r) -> agg_ok a ->
  let '(rows, sigs) := rowPass f 0 newRuns (ag_rows a) in
  agg_ok (ag_set_rows rows a) /\
  adapter (AdIdle (Z.of_nat (length (ag_rows a)))) sigs = Some (AdIdle (Z.of_nat (length rows))).
Proof.
  intros Hf [Hi Hs]. pose proof (rowPass_keys f (ag_rows a) Hf) as Hk.
  pose proof (rowPass_adapter f (ag_rows a)) as Ha. pose proof (rowPass_rows f 0 newRuns (ag_rows a)) as Hr.
  destruct (rowPass f 0 newRuns (ag_rows a)) as [rows sigs]. cbn [fst snd] in *. split.
  - split; [|done]. by eapply index_ok_same_keys.
  - rewrite Ha. do 2 f_equal. by rewrite Hr, length_fmap.
Qed.

Lemma adapter_repaint n b : adapter (AdIdle n) (repaintIf b) = Some (AdIdle n).
Proof. by destruct b. Qed.

Lemma requests_all_adapter st s rows :
  adapter st (concat (map (fun r => requestBoth s (r_current r)) rows)) = Some st.
Proof.
  induction rows as [|r l IH]; [done|]. cbn [map concat]. by rewrite (adapter_app _ _ _ st); [|apply requestBoth_adapter].
Qed.

Definition step_ok (a : Aggregator) (res : Aggregator * list AggSignal) : Prop :=
  agg_ok (fst res) /\
  adapter (AdIdle (Z.of_nat (length (ag_rows a)))) (snd res) = Some (AdIdle (Z.of_nat (length (ag_rows (fst res))))).

(** A setter: new settings, the rows as they were. *)
Lemma settings_step_ok a s sigs :
  agg_ok a -> settings_ok s ->
  adapter (AdIdle (Z.of_nat (length (ag_rows a)))) sigs = Some (AdIdle (Z.of_nat (length (ag_rows a)))) ->
  step_ok a (ag_set_settings s a, sigs).
Proof. intros [Hi _] Hs Ha. split; [by split|done]. Qed.

Lemma step_same a : agg_ok a -> step_ok a (a, []).
Proof. intros Ha. by split. Qed.

Lemma clamp_nonneg ms : (0 <= if (ms <? 0)%Z then 0 else ms)%Z.
Proof. destruct (ms <? 0)%Z eqn:Em; blia. Qed.

Lemma clamp_window ms : (1000 <= if (ms <? 1000)%Z then 1000 else ms)%Z.
Proof. destruct (ms <? 1000)%Z eqn:Em; blia. Qed.

Ltac settings_tac :=
  match goal with Ha : agg_ok ?a |- settings_ok _ => destruct (ao_settings a Ha) end;
  split; cbn; auto using clamp_nonneg, clamp_window.

Lemma setLocal_disjoint (addrs loop : gset QHostAddress) :
  loop = {[ LocalHost; LocalHostIPv6 ]} -> addrs ∖ {[ LocalHost ]} ∖ {[ LocalHostIPv6 ]} ## loop.
Proof. intros ->. set_solver. Qed.

Lemma setWindow_ok ms a : agg_ok a -> step_ok a (setThroughputWindowMs ms a).
Proof.
  intros Ha. unfold setThroughputWindowMs. destruct (_ =? _)%Z; [by apply step_same|].
  destruct (_ && _); [|apply settings_step_ok; [done|settings_tac|done]].
  split; cbn [fst snd].
  - split; cbn; [|settings_tac]. eapply index_ok_same_keys; [|exact (ao_index a Ha)].
    rewrite <- list_fmap_compose. by apply list_fmap_ext.
  - cbn. by rewrite length_fmap.
Qed.

Lemma setResolution_ok b a : agg_ok a -> step_ok a (setHostnameResolutionEnabled b a).
Proof.
  intros Ha. unfold setHostnameResolutionEnabled. destruct (Bool.eqb _ _); [by apply step_same|].
  apply settings_step_ok; [done|settings_tac|].
  rewrite (adapter_app _ _ _ _ (adapter_repaint _ _)). destruct (_ && _); [apply requests_all_adapter|done].
Qed.

Lemma setResolver_ok r a : agg_ok a -> step_ok a (setDnsResolver r a).
Proof.
  intros Ha. unfold setDnsResolver. destruct (bool_decide _); [by apply step_same|].
  apply settings_step_ok; [done|settings_tac|]. by destruct (as_resolver (ag_settings a)), r.
Qed.

Lemma patch_ok patch a : agg_ok a -> step_ok a (applyAttributionPatch patch a).
Proof.
  intros [Hi Hs]. unfold applyAttributionPatch.
  destruct (patchFold_ok (ag_keyToIdx a) patch (ag_rows a) false) as [Hp _].
  destruct (foldl _ _ patch) as [rows any]. cbn [fst] in Hp. split; cbn [fst snd ag_set_rows ag_rows].
  - split; [by eapply index_ok_patched|done].
  - rewrite adapter_repaint. by rewrite (Forall2_length _ _ _ Hp).
Qed.

Lemma agg_step_ok a ev : agg_ok a -> step_ok a (agg_step a ev).
Proof.
  intros Ha. destruct ev; cbn [agg_step]; try (by apply settings_step_ok; [done|settings_tac|done]).
  - destruct (updateConnections_shape nowMs conns a) as (_ & _ & Hs & _ & Hok & Had). split; [|done].
    split; [apply Hok, (index_ok_NoDup _ (ag_keyToIdx a)), Ha|rewrite Hs; apply Ha].
  - by apply patch_ok.
  - unfold advanceSmoothing. destruct (_ || _); [by apply step_same|].
    pose proof (rowPass_step_ok _ a (smoothRow_key nowMs) Ha) as Hr. by destruct (rowPass _ _ _ _).
  - unfold onResolved. destruct (_ || _); [by apply step_same|].
    pose proof (rowPass_step_ok (fun r => (r, mentions addr (r_current r))) a (fun _ => eq_refl) Ha) as Hr.
    by destruct (rowPass _ _ _ _).
  - by apply setResolver_ok.
  - by apply setResolution_ok.
  - unfold setLocalAddresses. destruct (bool_decide _); [by apply step_same|].
    apply settings_step_ok; [done| |apply adapter_repaint].
    destruct (ao_settings a Ha). split; cbn; auto using setLocal_disjoint.
  - split; [|done]. split; [apply Ha|]. cbn. settings_tac.
  - unfold setResolveIfaceAddrsAsLocalhost. destruct (Bool.eqb _ _); [by apply step_same|].
    apply settings_step_ok; [done|settings_tac|apply adapter_repaint].
  - unfold setThroughputMaxMode. destruct (bool_decide _); [by apply step_same|].
    apply settings_step_ok; [done|settings_tac|apply adapter_repaint].
  - by apply setWindow_ok.
Qed.

Lemma newAggregator_ok range : agg_ok (newAggregator range).
Proof.
  split.
  - split; [intros k i Hk; cbn in Hk; by rewrite lookup_empty in Hk|done].
  - split; cbn; try lia; [done|set_solver].
Qed.

(** C8. However the aggregator is driven (snapshots, attribution patches,
    animation ticks, DNS answers, setting changes, in any order), the key
    index is the exact inverse of the rows' keys (so no flow has two rows),
    the settings keep their clamps and the local addresses stay disjoint
    from the loopback ones; and a view that replays the emitted signals from
    an empty table never sees a malformed bracket or an out-of-range row and
    ends with exactly the aggregator's row count. *)
Theorem agg_run_ok range evs :
  let '(a, sigs) := agg_run (newAggregator range) evs in
  agg_ok a /\ adapter (AdIdle 0) sigs = Some (AdIdle (Z.of_nat (length (ag_rows a)))).
Proof.
  assert (Hrun : forall evs a, agg_ok a -> step_ok a (agg_run a evs)).
  { clear evs. induction evs as [|ev evs IH]; intros a Ha; [by apply step_same|]. cbn [agg_run].
    pose proof (agg_step_ok a ev Ha) as [Hok Had]. destruct (agg_step a ev) as [a1 sigs1]. cbn [fst snd] in *.
    destruct (IH a1 Hok) as [Hok2 Had2]. destruct (agg_run a1 evs) as [a2 sigs2]. cbn [fst snd] in *.
    split; [done|]. cbn [fst snd]. by rewrite (adapter_app _ _ _ _ Had). }
  pose proof (Hrun evs (newAggregator range) (newAggregator_ok range)) as [Hok Had].
  by destruct (agg_run (newAggregator range) evs).
Qed.
End RunProofs.

(** A run: a snapshot, names switched on, the flow gone and pruned. *)
Definition sampleEvents : list AggEvent :=
  [AgUpdate 1000 [sampleTcp]; AgSetResolver (Some 0); AgSetResolve true; AgUpdate 2000 []; AgUpdate 30000 []].

Lemma agg_run_ok_witness :
  let '(a, sigs) := agg_run (newAggregator (32768, 60999)%Z) sampleEvents in
  (agg_ok a /\ adapter (AdIdle 0) sigs = Some (AdIdle (Z.of_nat (length (ag_rows a))))) /\ ag_rows a = [].
Proof.
  pose proof (agg_run_ok (32768, 60999)%Z sampleEvents) as Hok.
  assert (Hnil : ag_rows (fst (agg_run (newAggregator (32768, 60999)%Z) sampleEvents)) = []) by (vm_compute; reflexivity).
  destruct (agg_run _ _) as [a sigs]. split; [exact Hok|exact Hnil].
Defined.
