(* ===== verification/Dns.v ===== *)
(** * The DNS cache: [src/dns/QtDnsResolver.{h,cpp}]

    Hostname look-ups are asynchronous: [resolve] starts one unless the answer
    is cached or already pending, [onLookupFinished] stores it.  The cache is
    bounded, oldest insertion first; failed look-ups are cached as negative
    entries.

    [QElapsedTimer::msecsSinceReference] is, per its documentation, the time
    between the reference clock's start and the moment the timer was last
    started; the constructor starts [m_clock] once, so it is the constant
    [dn_clockStart] of the state.  [QHostInfo] is outside: a look-up id it
    returns is an argument of the step, the answer it delivers another. *)

From S2P Require Import Prelude Qt.

Definition kMaxDnsEntries : Z := 4096.
Definition kNegativeTtlMs : Z := 5 * 60 * 1000.

Record DnsEntry := mkDnsEntry { de_name : QString; de_ageMs : Z; de_negative : bool }.

Record QtDnsResolver := mkDns {
  dn_cache : gmap QHostAddress DnsEntry;
  dn_order : list QHostAddress;            (* insertion order *)
  dn_pendingById : gmap Z QHostAddress;
  dn_pendingAddrs : gset QHostAddress;
  dn_clockStart : Z;                       (* m_clock.msecsSinceReference() *)
}.

Definition newDns (clockStart : Z) : QtDnsResolver := mkDns ∅ [] ∅ ∅ clockStart.

Definition cachedName (addr : QHostAddress) (d : QtDnsResolver) : QString :=
  match dn_cache d !! addr with Some e => de_name e | None => [] end.

Section Dns.
Context `{QtAddrText}.

(** Whether [resolve] goes on to start a look-up. *)
Definition wantsLookup (addr : QHostAddress) (d : QtDnsResolver) : bool :=
  if addrIsNull addr then false
  else if bool_decide (addr ∈ dn_pendingAddrs d) then false
  else match dn_cache d !! addr with
       | Some e =>
           if negb (de_negative e) then false
           else negb (dn_clockStart d - de_ageMs e <? kNegativeTtlMs)%Z
       | None => true
       end.

(** [QHostInfo::lookupHost] returns [id]; the address text is what is looked up. *)
Definition dnsResolve (id : Z) (addr : QHostAddress) (d : QtDnsResolver) : QtDnsResolver * option QString :=
  if wantsLookup addr d
  then (mkDns (dn_cache d) (dn_order d) (<[id := addr]> (dn_pendingById d)) ({[addr]} ∪ dn_pendingAddrs d)
          (dn_clockStart d), Some (addrToString addr))
  else (d, None).

Definition clearCache (d : QtDnsResolver) : QtDnsResolver :=
  mkDns ∅ [] (dn_pendingById d) (dn_pendingAddrs d) (dn_clockStart d).

(** [for (i = 0; i < toDrop && !m_order.isEmpty(); ++i) m_cache.remove(m_order.takeFirst())] *)
Fixpoint evictOldest (n : nat) (order : list QHostAddress) (cache : gmap QHostAddress DnsEntry)
    : list QHostAddress * gmap QHostAddress DnsEntry :=
  match n, order with
  | S n', a :: rest => evictOldest n' rest (delete a cache)
  | _, _ => (order, cache)
  end.

Definition store (addr : QHostAddress) (name : QString) (negative : bool) (d : QtDnsResolver) : QtDnsResolver :=
  let order := match dn_cache d !! addr with Some _ => dn_order d | None => dn_order d ++ [addr] end in
  let cache := <[addr := mkDnsEntry name (dn_clockStart d) negative]> (dn_cache d) in
  let '(order, cache) :=
    if (kMaxDnsEntries <? Z.of_nat (size cache))%Z
    then evictOldest (Z.to_nat (1 `max` (kMaxDnsEntries / 32))) order cache else (order, cache) in
  mkDns cache order (dn_pendingById d) (dn_pendingAddrs d) (dn_clockStart d).

(** The answer for look-up [id]; [ok] is [info.error() == NoError]. *)
Definition onLookupFinished (id : Z) (hostName : QString) (ok : bool) (d : QtDnsResolver)
    : QtDnsResolver * option (QHostAddress * QString) :=
  match dn_pendingById d !! id with
  | None => (d, None)
  | Some addr =>
      let d := mkDns (dn_cache d) (dn_order d) (delete id (dn_pendingById d)) (dn_pendingAddrs d ∖ {[addr]})
                 (dn_clockStart d) in
      let failed := negb ok || isEmpty hostName || qeqb hostName (addrToString addr) in
      let name := if failed then addrToString addr else hostName in
      (store addr name failed d, Some (addr, name))
  end.

(** One event of the resolver's life.  [QHostInfo] hands out a fresh id for
    every look-up. *)
Inductive dns_step : QtDnsResolver -> QtDnsResolver -> Prop :=
| dns_resolve id addr d : dn_pendingById d !! id = None -> dns_step d (fst (dnsResolve id addr d))
| dns_clear d : dns_step d (clearCache d)
| dns_finished id hostName ok d : dns_step d (fst (onLookupFinished id hostName ok d)).

(** The cache and its insertion order list the same addresses, each once,
    within the cap; every pending look-up is marked pending exactly once. *)
Record dns_ok (d : QtDnsResolver) : Prop := {
  do_order : NoDup (dn_order d);
  do_same : forall a, a ∈ dn_order d <-> is_Some (dn_cache d !! a);
  do_cap : (Z.of_nat (size (dn_cache d)) <= kMaxDnsEntries)%Z;
  do_ages : map_Forall (fun _ e => de_ageMs e = dn_clockStart d) (dn_cache d);
  do_pending : forall id a, dn_pendingById d !! id = Some a -> a ∈ dn_pendingAddrs d;
  do_inverse : forall a, a ∈ dn_pendingAddrs d -> exists id, dn_pendingById d !! id = Some a;
  do_once : forall i j a, dn_pendingById d !! i = Some a -> dn_pendingById d !! j = Some a -> i = j;
}.

Lemma evictOldest_spec n order cache :
  NoDup order -> (forall a, a ∈ order <-> is_Some (cache !! a)) ->
  let '(order', cache') := evictOldest n order cache in
  NoDup order' /\ (forall a, a ∈ order' <-> is_Some (cache' !! a)) /\ cache' ⊆ cache /\
  size cache' = size cache - n /\ order' = drop n order.
Proof.
  revert order cache. induction n as [|n IH]; intros order cache Hnd Hsame; cbn [evictOldest].
  { split_and!; [done|done|done|lia|done]. }
  destruct order as [|a rest].
  - assert (Hempty : cache = ∅).
    { apply map_empty. intros i. apply eq_None_not_Some. intros Hi. apply Hsame in Hi. by apply not_elem_of_nil in Hi. }
    split_and!; [done|done|done|by rewrite Hempty, map_size_empty|done].
  - apply NoDup_cons in Hnd as [Ha Hnd].
    specialize (IH rest (delete a cache) Hnd). destruct (evictOldest n rest (delete a cache)) as [order' cache'].
    destruct IH as (Hnd' & Hsame' & Hsub & Hsz & Hord).
    { intros b. rewrite lookup_delete_is_Some, <- Hsame, elem_of_cons. set_solver. }
    split_and!; [done|done| | |done].
    + etransitivity; [exact Hsub|]. apply delete_subseteq.
    + rewrite Hsz, map_size_delete. destruct (Hsame a) as [Hs _]. destruct Hs as [e He]; [left|]. rewrite He. lia.
Qed.

(** Where a new address goes in the order, and the two tables that agree. *)
Lemma store_tables addr name negative d :
  dns_ok d ->
  let order := match dn_cache d !! addr with Some _ => dn_order d | None => dn_order d ++ [addr] end in
  let cache := <[addr := mkDnsEntry name (dn_clockStart d) negative]> (dn_cache d) in
  NoDup order /\ (forall a, a ∈ order <-> is_Some (cache !! a)) /\
  ((kMaxDnsEntries < Z.of_nat (size cache))%Z -> dn_cache d !! addr = None /\
     (Z.of_nat (size cache) = kMaxDnsEntries + 1)%Z /\ length (dn_order d) = size (dn_cache d)).
Proof.
  intros [Hnd Hsame Hcap _ _ _ _]. cbv zeta.
  assert (Hlen : length (dn_order d) = size (dn_cache d)).
  { rewrite <- size_dom, <- (size_list_to_set (C := gset QHostAddress) (dn_order d) Hnd). f_equal.
    apply set_eq. intros a. by rewrite elem_of_list_to_set, elem_of_dom. }
  destruct (dn_cache d !! addr) as [old|] eqn:Eo; split_and!.
  - done.
  - intros a. rewrite lookup_insert_is_Some', <- Hsame. split; [tauto|]. intros [<-|?]; [|done]. apply Hsame. by eexists.
  - rewrite map_size_insert, Eo. unfold id. intros ?. exfalso. lia.
  - apply NoDup_app. split_and!; [done| |apply NoDup_singleton]. intros a Ha ->%list_elem_of_singleton.
    apply Hsame in Ha as [? Ha]. congruence.
  - intros a. rewrite elem_of_app, list_elem_of_singleton, lookup_insert_is_Some', <- Hsame. intuition congruence.
  - rewrite map_size_insert, Eo. intros Hlt. split_and!; [done|lia|done].
Qed.

Lemma store_ok addr name negative d :
  dns_ok d -> dns_ok (store addr name negative d) /\
  dn_cache (store addr name negative d) !! addr = Some (mkDnsEntry name (dn_clockStart d) negative).
Proof.
  intros Hd. pose proof (store_tables addr name negative d Hd) as (Hnd & Hsame & Hover). cbv zeta in Hnd, Hsame, Hover.
  destruct Hd as [_ _ Hcap Hage Hp1 Hp2 Hp3]. unfold store.
  set (order := match dn_cache d !! addr with Some _ => dn_order d | None => dn_order d ++ [addr] end) in *.
  set (cache := <[addr := mkDnsEntry name (dn_clockStart d) negative]> (dn_cache d)) in *.
  assert (Hage' : map_Forall (fun _ e => de_ageMs e = dn_clockStart d) cache) by (by apply map_Forall_insert_2).
  destruct (kMaxDnsEntries <? Z.of_nat (size cache))%Z eqn:Eb.
  - apply Z.ltb_lt in Eb. destruct (Hover Eb) as (Hnone & Hsz & Hlen).
    pose proof (evictOldest_spec (Z.to_nat (1 `max` (kMaxDnsEntries / 32))) order cache Hnd Hsame) as Hev.
    destruct (evictOldest _ order cache) as [order' cache']. destruct Hev as (Hnd' & Hsame' & Hsub & Hsz' & Hord).
    split.
    + split; cbn [dn_order dn_cache dn_pendingById dn_pendingAddrs dn_clockStart]; [done|done| | |done|done|done].
      * rewrite Hsz'. change (Z.to_nat (1 `max` (kMaxDnsEntries / 32))) with 128%nat. lia.
      * intros a e He. apply (Hage' a e). by eapply lookup_weaken.
    + cbn [dn_cache].
      assert (Hin : addr ∈ order').
      { rewrite Hord. subst order. rewrite Hnone, drop_app_le; [apply elem_of_app; right; by left|].
        rewrite Hlen. change (Z.to_nat (1 `max` (kMaxDnsEntries / 32))) with 128%nat.
        assert (Hins : size cache = S (size (dn_cache d))) by (subst cache; by rewrite map_size_insert, Hnone).
        unfold kMaxDnsEntries in Hsz. lia. }
      apply Hsame' in Hin as [e He]. rewrite He. f_equal.
      apply (lookup_weaken _ _ _ _) with (1 := He) in Hsub. subst cache. rewrite lookup_insert_eq in Hsub. congruence.
  - apply Z.ltb_ge in Eb. split; [|cbn [dn_cache]; subst cache; apply lookup_insert_eq].
    split; cbn [dn_order dn_cache dn_pendingById dn_pendingAddrs dn_clockStart]; done.
Qed.

Lemma newDns_ok t : dns_ok (newDns t).
Proof.
  split; cbn.
  - constructor.
  - intros a. rewrite lookup_empty. split; [by intros ?%not_elem_of_nil|by intros [? ?]].
  - rewrite map_size_empty. done.
  - apply map_Forall_empty.
  - intros id a Hi. by rewrite lookup_empty in Hi.
  - intros a Ha. by apply not_elem_of_empty in Ha.
  - intros i j a Hi. by rewrite lookup_empty in Hi.
Qed.

(** Taking a finished look-up out of the pending tables. *)
Lemma forgetPending_ok id addr d :
  dns_ok d -> dn_pendingById d !! id = Some addr ->
  dns_ok (mkDns (dn_cache d) (dn_order d) (delete id (dn_pendingById d)) (dn_pendingAddrs d ∖ {[addr]}) (dn_clockStart d)).
Proof.
  intros [H1o H2o H3o H4o Hp1 Hp2 Hp3] Hid.
  split; cbn [dn_order dn_cache dn_pendingById dn_pendingAddrs dn_clockStart]; [done..| | |].
  - intros j a [Hne Hj]%lookup_delete_Some. apply elem_of_difference. split; [by eapply Hp1|].
    intros ->%elem_of_singleton. by apply Hne, (Hp3 id j addr).
  - intros a [Ha Hne]%elem_of_difference. destruct (Hp2 a Ha) as [j Hj]. exists j.
    rewrite lookup_delete_ne; [done|]. intros ->. rewrite Hid in Hj. apply Hne, elem_of_singleton. congruence.
  - intros i j a [_ Hi]%lookup_delete_Some [_ Hj]%lookup_delete_Some. by eapply Hp3.
Qed.

Lemma dns_step_ok d d' : dns_ok d -> dns_step d d' -> dns_ok d'.
Proof.
  intros Hd. destruct 1 as [id addr d Hfresh|d|id h ok d].
  - unfold dnsResolve. destruct (wantsLookup addr d) eqn:Ew; [|done]. cbn [fst].
    assert (Hnew : addr ∉ dn_pendingAddrs d).
    { unfold wantsLookup in Ew. destruct (addrIsNull addr); [done|]. by case_bool_decide. }
    destruct Hd as [H1o H2o H3o H4o Hp1 Hp2 Hp3].
    split; cbn [dn_order dn_cache dn_pendingById dn_pendingAddrs dn_clockStart]; [done..| | |].
    + intros j a. rewrite lookup_insert_Some. intros [[_ <-]|[_ Hj]]; [set_solver|]. apply Hp1 in Hj. set_solver.
    + intros a [->%elem_of_singleton|Ha]%elem_of_union; [exists id; by rewrite lookup_insert_eq|].
      destruct (Hp2 a Ha) as [j Hj]. exists j. rewrite lookup_insert_ne; [done|]. congruence.
    + intros i j a. rewrite !lookup_insert_Some. intros [[<- <-]|[_ Hi]] [[<- Ha]|[_ Hj]]; try done.
      * by apply Hp1 in Hj.
      * subst a. by apply Hp1 in Hi.
      * by eapply Hp3.
  - destruct Hd as [H1o H2o H3o H4o Hp1 Hp2 Hp3]. split; cbn; [constructor| |by rewrite map_size_empty|apply map_Forall_empty|done..].
    intros a. rewrite lookup_empty. split; [by intros ?%not_elem_of_nil|by intros [? ?]].
  - unfold onLookupFinished. destruct (dn_pendingById d !! id) as [addr|] eqn:Ei; [|done]. cbn [fst].
    by apply store_ok, forgetPending_ok.
Qed.

Lemma dns_reachable_ok t d : rtc dns_step (newDns t) d -> dns_ok d.
Proof.
  intros Hr. remember (newDns t) as d0 eqn:E0. assert (Hd0 : dns_ok d0) by (subst; apply newDns_ok). clear E0.
  induction Hr as [|d0 d1 d2 Hs _ IH]; [done|]. apply IH. by eapply dns_step_ok.
Qed.

(** In every reachable state the DNS cache holds at most 4096 names, its
    eviction order lists exactly the cached addresses, look-ups are pending
    at most once per address; and when an answer arrives for a pending
    look-up it is announced, its address is no longer pending, and the name
    announced is at once what [cachedName] returns, even when the insertion
    evicts older entries. *)
Theorem dns_answer_cached t d id hostName ok addr :
  rtc dns_step (newDns t) d -> dn_pendingById d !! id = Some addr ->
  let '(d', announced) := onLookupFinished id hostName ok d in
  dns_ok d /\ dns_ok d' /\ addr ∉ dn_pendingAddrs d' /\
  exists name, announced = Some (addr, name) /\ cachedName addr d' = name /\
    (ok = true -> hostName <> [] -> name = hostName).
Proof.
  intros Hr Hid. pose proof (dns_reachable_ok t d Hr) as Hd. unfold onLookupFinished. rewrite Hid.
  set (failed := negb ok || isEmpty hostName || qeqb hostName (addrToString addr)).
  set (name := if failed then addrToString addr else hostName).
  pose proof (forgetPending_ok id addr d Hd Hid) as Hf. set (d1 := mkDns _ _ _ _ _) in *.
  destruct (store_ok addr name failed d1 Hf) as [Hok Hlook]. split_and!; [done|done| |].
  - assert (Hp : dn_pendingAddrs (store addr name failed d1) = dn_pendingAddrs d1).
    { unfold store. by destruct (if (_ <? _)%Z then _ else _). }
    rewrite Hp. set_solver.
  - exists name. split_and!; [done|unfold cachedName; by rewrite Hlook|].
    intros -> Hne. unfold name, failed. cbn [negb orb].
    destruct (isEmpty hostName) eqn:Ee; [by apply isEmpty_true in Ee|]. cbn [orb].
    destruct (qeqb hostName (addrToString addr)) eqn:Eq; [|done]. apply qeqb_eq in Eq. by symmetry.
Qed.

(** A failed look-up is never retried: in every reachable state, however
    much time has passed, [resolve] starts no look-up for an address with a
    cached entry, negative entries included.  The age test compares the
    start stamp of the timer with itself, so the five-minute expiry of
    negative entries never fires. *)
Theorem dns_negative_never_expires t d addr e id :
  rtc dns_step (newDns t) d -> dn_cache d !! addr = Some e -> dnsResolve id addr d = (d, None).
Proof.
  intros Hr He. pose proof (do_ages d (dns_reachable_ok t d Hr) addr e He) as Hage.
  unfold dnsResolve. assert (wantsLookup addr d = false) as ->; [|done].
  unfold wantsLookup. destruct (addrIsNull addr); [done|]. case_bool_decide; [done|]. rewrite He, Hage, Z.sub_diag.
  by destruct (de_negative e).
Qed.
End Dns.

(** A resolver that looked up one address and got no name. *)
Definition samplePeer : QHostAddress := AddrV4 134744072.
Definition pendingDns : QtDnsResolver := fst (dnsResolve 1 samplePeer (newDns 77)).
Definition failedDns : QtDnsResolver := fst (onLookupFinished 1 [] false pendingDns).

Lemma pendingDns_reachable : rtc dns_step (newDns 77) pendingDns.
Proof. apply rtc_once. apply (dns_resolve 1 samplePeer (newDns 77)). reflexivity. Qed.

Lemma failedDns_reachable : rtc dns_step (newDns 77) failedDns.
Proof. eapply rtc_r; [exact pendingDns_reachable|]. apply (dns_finished 1 [] false). Qed.

Lemma dns_answer_cached_witness :
  cachedName samplePeer (fst (onLookupFinished 1 (qs "dns.google") true pendingDns)) = qs "dns.google".
Proof.
  pose proof (dns_answer_cached 77 pendingDns 1 (qs "dns.google") true samplePeer pendingDns_reachable
    ltac:(vm_compute; reflexivity)) as Hp.
  destruct (onLookupFinished 1 (qs "dns.google") true pendingDns) as [d' announced].
  destruct Hp as (_ & _ & _ & name & _ & Hc & Hn). cbn [fst]. rewrite Hc. apply Hn; [reflexivity|discriminate].
Defined.

Lemma dns_negative_never_expires_witness :
  de_negative <$> dn_cache failedDns !! samplePeer = Some true /\ dnsResolve 2 samplePeer failedDns = (failedDns, None).
Proof.
  split; [vm_compute; reflexivity|].
  apply (dns_negative_never_expires 77 failedDns samplePeer (mkDnsEntry (addrToString samplePeer) 77 true) 2 failedDns_reachable).
  vm_compute. reflexivity.
Defined.
