(* ===== verification/ProcParse.v ===== *)
(** * Reading /proc: [src/backend/linux/ProcSnapshot.h],
      [src/backend/linux/SockDiagParse.h]

    The identity of a process (its start time, field 22 of /proc/<pid>/stat)
    and the inode numbers in /proc/<pid>/fd and /proc/<pid>/ns links.  Byte
    arrays and strings are lists of code units; [toULongLong] is Qt's and is a
    parameter. *)

From S2P Require Import Prelude Qt.

(** [toULongLong(&ok, 10)]. *)
Class QtToULongLong := qToULongLong : QString -> option Z.
Class QtToULongLongLaws `{QtToULongLong} : Prop :=
  toULongLong_number : forall z, in_u64 z -> qToULongLong (number z) = Some z.

(** [indexOf(c, from)]: position of the first [c] at or after [from]. *)
Fixpoint indexOf (c : QChar) (s : QString) : option nat :=
  match s with
  | [] => None
  | x :: r => if (x =? c)%Z then Some O else S <$> indexOf c r
  end.
Definition indexFrom (c : QChar) (from : nat) (s : QString) : option nat := (Nat.add from) <$> indexOf c (drop from s).

Fixpoint lastIndexOf (c : QChar) (s : QString) : option nat :=
  match s with
  | [] => None
  | x :: r => match lastIndexOf c r with
              | Some i => Some (S i)
              | None => if (x =? c)%Z then Some O else None
              end
  end.

(** The loop [for (field = 0; field < 19; ++field)]. *)
Fixpoint skipFields (n : nat) (pos : nat) (rest : QString) : option nat :=
  match n with
  | O => Some pos
  | S n' => match indexFrom 32 pos rest with Some sp => skipFields n' (S sp) rest | None => None end
  end.

Section Proc.
Context `{QtToULongLong}.

Definition parseStartTime (stat : QString) : option Z :=
  match lastIndexOf 41 stat with
  | None => None
  | Some rp =>
      if length stat <=? rp + 2 then None
      else
        let rest := drop (rp + 2) stat in
        match skipFields 19 0 rest with
        | None => None
        | Some pos =>
            match indexFrom 32 pos rest with
            | Some e => qToULongLong (take (e - pos) (drop pos rest))
            | None => qToULongLong (drop pos rest)
            end
        end
  end.

(** [readStat]: the first 4096 bytes of the file, [None] when it cannot be opened. *)
Definition pidStartTime (readStat : Z -> option QString) (pid : Z) : option Z :=
  if (pid <=? 0)%Z then None
  else match readStat pid with Some s => parseStartTime (take 4096 s) | None => None end.

Definition endsWithBracket (s : QString) : bool := match last s with Some c => (c =? 93)%Z | None => false end.

Definition parseSocketLink (link : QString) : option Z :=
  let prefix := qs "socket:[" in
  if negb (prefixb prefix link) then None
  else if negb (endsWithBracket link) then None
  else
    let inner := take (length link - length prefix - 1) (drop (length prefix) link) in
    if isEmpty inner then None else qToULongLong inner.

Definition parseNamespaceLink (link type : QString) : option Z :=
  if negb (prefixb type link) then None
  else if length link <? length type + 3 then None
  else if negb (bool_decide (link !! length type = Some 58%Z)) then None
  else if negb (bool_decide (link !! (length type + 1) = Some 91%Z)) then None
  else if negb (endsWithBracket link) then None
  else
    let inner := take (length link - length type - 3) (drop (length type + 2) link) in
    if isEmpty inner then None else qToULongLong inner.
End Proc.

(* ------------------------------------------------------------------ *)
(** ** Lemmas on the scans *)

Lemma lastIndexOf_none c s : c ∉ s -> lastIndexOf c s = None.
Proof.
  induction s as [|x r IH]; intros Hn; [done|]. apply not_elem_of_cons in Hn as [Hx Hr]. simpl. rewrite IH by done.
  destruct (Z.eqb_spec x c); [congruence|done].
Qed.

Lemma lastIndexOf_app c a b : c ∉ b -> lastIndexOf c (a ++ c :: b) = Some (length a).
Proof.
  intros Hb. induction a as [|x a IH]; simpl.
  - rewrite (lastIndexOf_none c b Hb). by rewrite Z.eqb_refl.
  - by rewrite IH.
Qed.

Lemma indexOf_app c a b : c ∉ a -> indexOf c (a ++ c :: b) = Some (length a).
Proof.
  induction a as [|x a IH]; intros Ha; simpl; [by rewrite Z.eqb_refl|].
  apply not_elem_of_cons in Ha as [Hx Ha]. destruct (Z.eqb_spec x c); [congruence|]. by rewrite IH.
Qed.

Lemma indexOf_none c s : c ∉ s -> indexOf c s = None.
Proof.
  induction s as [|x r IH]; intros Hn; [done|]. apply not_elem_of_cons in Hn as [Hx Hr]. simpl.
  destruct (Z.eqb_spec x c); [congruence|]. by rewrite IH.
Qed.

Lemma indexFrom_app c p a b : c ∉ a -> indexFrom c (length p) (p ++ a ++ c :: b) = Some (length p + length a).
Proof. intros Ha. unfold indexFrom. rewrite drop_app_length. by rewrite indexOf_app. Qed.

Definition spaced (fields : list QString) : QString := concat (map (fun f => f ++ [32%Z]) fields).

Lemma skipFields_spaced fields p tail :
  Forall (fun f => 32%Z ∉ f) fields ->
  skipFields (length fields) (length p) (p ++ spaced fields ++ tail) = Some (length p + length (spaced fields)).
Proof.
  intros Hf. revert p. induction Hf as [|f fields Hsp Hf IH]; intros p; cbn [skipFields length].
  { by rewrite Nat.add_0_r. }
  unfold spaced in *. cbn [map concat]. rewrite <- !app_assoc. cbn [app].
  rewrite indexFrom_app by done.
  specialize (IH (p ++ f ++ [32%Z])). rewrite <- !app_assoc in IH. cbn [app] in IH.
  rewrite !length_app in IH. cbn [length] in IH.
  replace (S (length p + length f)) with (length p + (length f + 1)) by lia. rewrite IH.
  rewrite !length_app. cbn [length]. f_equal. lia.
Qed.

Section ProcProofs.
Context `{QtToULongLongLaws}.

(** The line the kernel prints: [comm] is whatever the process chose. *)
Definition statLine (pid : Z) (comm : QString) (fields : list QString) (start : Z) (tail : QString) : QString :=
  number pid ++ qs " (" ++ comm ++ 41%Z :: 32%Z :: spaced fields ++ number start ++ tail.

(** What follows the command name. *)
Lemma statLine_rest pid comm fields start tail :
  Forall (fun f => 41%Z ∉ f) fields -> in_u64 start -> 41%Z ∉ tail ->
  let line := statLine pid comm fields start tail in
  exists rp, lastIndexOf 41 line = Some rp /\ (length line <=? rp + 2) = false /\
    drop (rp + 2) line = spaced fields ++ number start ++ tail.
Proof.
  intros Hf Hs Htail. cbv zeta. unfold statLine.
  set (rest := spaced fields ++ number start ++ tail). set (pre := number pid ++ qs " (" ++ comm).
  replace (number pid ++ qs " (" ++ comm ++ 41%Z :: 32%Z :: rest) with ((pre ++ [41%Z; 32%Z]) ++ rest)
    by (unfold pre; by rewrite <- !app_assoc).
  exists (length pre). replace (length pre + 2) with (length (pre ++ [41%Z; 32%Z])) by (rewrite length_app; done).
  rewrite drop_app_length. split_and!; [|apply Nat.leb_gt|done].
  - rewrite <- app_assoc. cbn [app]. apply lastIndexOf_app. apply not_elem_of_cons. split; [done|].
    unfold rest. rewrite !not_elem_of_app. split_and!; [|apply number_no_char; [unfold in_u64 in Hs; lia|done]|done].
    unfold spaced. clear -Hf. induction Hf as [|f l Hx _ IH]; simpl; [apply not_elem_of_nil|].
    rewrite !not_elem_of_app, not_elem_of_cons. split_and!; [done|done|apply not_elem_of_nil|done].
  - unfold rest. rewrite !length_app.
    assert (length (number start) <> 0); [|lia].
    unfold number. destruct (start <? 0)%Z eqn:En; [unfold in_u64 in Hs; blia|].
    intros Hz. apply nil_length_inv in Hz. by apply (uint_digits_nonempty (Z.to_N start)).
Qed.

Lemma parseStartTime_statLine pid comm fields start tail :
  length fields = 19 -> Forall (fun f => 32%Z ∉ f /\ 41%Z ∉ f) fields -> in_u64 start ->
  41%Z ∉ tail -> (tail = [] \/ exists t, tail = 32%Z :: t) ->
  parseStartTime (statLine pid comm fields start tail) = Some start.
Proof.
  intros Hlen Hf Hs Htail Hsp. unfold parseStartTime.
  destruct (statLine_rest pid comm fields start tail) as (rp & -> & -> & ->); [|done|done|].
  { eapply Forall_impl; [exact Hf|]. by intros ? []. }
  assert (Hnum : 32%Z ∉ number start) by (apply number_no_char; [unfold in_u64 in Hs; lia|done]). cbv zeta.
  pose proof (skipFields_spaced fields [] (number start ++ tail)) as Hskip. rewrite Hlen in Hskip.
  cbn [length app Nat.add] in Hskip. rewrite Hskip by (eapply Forall_impl; [exact Hf|]; by intros ? []).
  unfold indexFrom. rewrite drop_app_length. destruct Hsp as [->|[t ->]].
  - rewrite app_nil_r, indexOf_none by done. cbn. by apply toULongLong_number.
  - rewrite indexOf_app by done. cbn [fmap option_fmap option_map].
    replace (length (spaced fields) + length (number start) - length (spaced fields)) with (length (number start)) by lia.
    rewrite take_app_length. by apply toULongLong_number.
Qed.

(** The start time read from a /proc/<pid>/stat line is the kernel's
    22nd field whatever the process calls itself: parentheses, spaces and
    digits in the command name cannot shift or forge it. *)
Theorem parseStartTime_any_comm pid comm fields start tail :
  length fields = 19 -> Forall (fun f => 32%Z ∉ f /\ 41%Z ∉ f) fields -> in_u64 start ->
  41%Z ∉ tail -> (tail = [] \/ exists t, tail = 32%Z :: t) ->
  parseStartTime (statLine pid comm fields start tail) = Some start.
Proof. apply parseStartTime_statLine. Qed.
End ProcProofs.

Lemma endsWithBracket_snoc s : endsWithBracket (s ++ [93%Z]) = true.
Proof. unfold endsWithBracket. by rewrite last_snoc. Qed.

Lemma number_nonempty z : (0 <= z)%Z -> number z <> [].
Proof.
  intros Hz. unfold number. destruct (z <? 0)%Z eqn:En; [blia|]. apply uint_digits_nonempty.
Qed.

(** The kernel's rendering of a socket link reads back as its inode. *)
Lemma parseSocketLink_roundtrip `{QtToULongLongLaws} inode :
  in_u64 inode -> parseSocketLink (qs "socket:[" ++ number inode ++ qs "]") = Some inode.
Proof.
  intros Hi. unfold parseSocketLink.
  assert (Hpre : prefixb (qs "socket:[") (qs "socket:[" ++ number inode ++ qs "]") = true)
    by (apply prefixb_spec; by eexists). rewrite Hpre. cbn [negb].
  change (qs "]") with [93%Z]. rewrite app_assoc, endsWithBracket_snoc. cbn [negb].
  rewrite <- app_assoc, drop_app_length, !length_app. cbn [length].
  replace (length (qs "socket:[") + (length (number inode) + 1) - length (qs "socket:[") - 1) with (length (number inode)) by lia.
  rewrite take_app_length. destruct (isEmpty (number inode)) eqn:Ee.
  - apply isEmpty_true in Ee. exfalso. apply (number_nonempty inode); [unfold in_u64 in Hi; lia|done].
  - by apply toULongLong_number.
Qed.

(** Decimal text, within 64 bits. *)
#[global] Instance decimalToULongLong : QtToULongLong :=
  fun s => match parseDec s with Some z => if (z <? two64)%Z then Some z else None | None => None end.
#[global] Instance decimalToULongLong_laws : @QtToULongLongLaws decimalToULongLong.
Proof.
  intros z [Hz Hlt]. unfold qToULongLong, decimalToULongLong. rewrite parseDec_number by done.
  by apply Z.ltb_lt in Hlt as ->.
Qed.

(** A process that calls itself ") R 1 1 (". *)
Lemma parseStartTime_any_comm_witness :
  parseStartTime (statLine 42 (qs ") R 1 1 (") (replicate 19 (qs "7")) 123456 (qs " 0 0")) = Some 123456%Z.
Proof.
  apply (parseStartTime_any_comm 42 (qs ") R 1 1 (") (replicate 19 (qs "7")) 123456 (qs " 0 0")).
  - reflexivity.
  - apply Forall_replicate. split; vm_compute; intros Hx; repeat (apply elem_of_cons in Hx as [Hx|Hx]; [discriminate|]);
      by apply not_elem_of_nil in Hx.
  - split; vm_compute; [discriminate|reflexivity].
  - vm_compute. intros Hx. repeat (apply elem_of_cons in Hx as [Hx|Hx]; [discriminate|]). by apply not_elem_of_nil in Hx.
  - right. eexists. vm_compute. reflexivity.
Defined.
