(* ===== verification/SockDump.v ===== *)
(** * Socket dumps: [src/backend/linux/SockDiagDump.{h,cpp}]

    The socket-to-inode table built from NETLINK_SOCK_DIAG datagrams: the
    lookup keys, the ambiguity-aware local index, and the parser of one
    received buffer.  Buffers are lists of bytes; every read of the parser is
    a checked read, [None] when it falls outside the buffer, so that "no
    over-read" is a theorem.  Native integers are little-endian; the layouts
    are those of [nlmsghdr] (16 bytes), [nlmsgerr] (20) and [inet_diag_msg]
    (72) of the kernel's headers. *)

From S2P Require Import Prelude Qt Conn.

Abbreviation QByteArray := (list Z).
Abbreviation SockMap := (gmap QByteArray Z).

(** [QHostAddress::toIPv4Address(&ok)]. *)
Class QtToIPv4 := toIPv4Address : QHostAddress -> option Z.

Definition kMaxSocketEntries : Z := 65536.
Definition kAmbiguousLocalInode : Z := 0.

(* ------------------------------------------------------------------ *)
(** ** Keys *)

(** The [n] big-endian bytes of [z]. *)
Fixpoint beBytes (n : nat) (z : Z) : QByteArray :=
  match n with O => [] | S n' => beBytes n' (Z.shiftr z 8) ++ [Z.land z 255] end.

Section Dump.
Context `{QtToIPv4}.

Definition appendEndpoint (a : QHostAddress) (port : Z) : QByteArray :=
  (match a with AddrV6 z _ => beBytes 16 z | _ => beBytes 4 (default 0%Z (toIPv4Address a)) end) ++ beBytes 2 port.

Definition makeFlowKey (proto : Z) (localAddr : QHostAddress) (localPort : Z)
    (remoteAddr : QHostAddress) (remotePort : Z) : QByteArray :=
  proto :: appendEndpoint localAddr localPort ++ appendEndpoint remoteAddr remotePort.

Definition makeLocalKey (proto : Z) (localAddr : QHostAddress) (localPort : Z) : QByteArray :=
  1%Z :: proto :: appendEndpoint localAddr localPort.

Definition isLocalKey (k : QByteArray) : bool := match k with 1%Z :: _ => true | _ => false end.
Definition isAmbiguousLocalInode (inode : Z) : bool := (inode =? kAmbiguousLocalInode)%Z.

Definition insertLocalKey (out : SockMap) (localKey : QByteArray) (inode : Z) : SockMap :=
  match out !! localKey with
  | None => if (Z.of_nat (size out) <? kMaxSocketEntries)%Z then <[localKey := inode]> out else out
  | Some i => if negb (i =? inode)%Z then <[localKey := kAmbiguousLocalInode]> out else out
  end.

(* ------------------------------------------------------------------ *)
(** ** One socket of the dump *)

Record DiagSock := mkDiagSock {
  ds_family : Z;
  ds_local : QHostAddress;
  ds_lport : Z;
  ds_remote : QHostAddress;
  ds_rport : Z;
  ds_inode : Z;
}.

Definition AF_INET : Z := 2.
Definition AF_INET6 : Z := 10.

(** What the loop body does with a well-formed message. *)
Definition indexSocket (proto : Z) (m : DiagSock) (out : SockMap) : SockMap :=
  if (ds_inode m =? 0)%Z then out
  else
    let flowKey := makeFlowKey proto (ds_local m) (ds_lport m) (ds_remote m) (ds_rport m) in
    if (kMaxSocketEntries <=? Z.of_nat (size out))%Z && bool_decide (out !! flowKey = None) then out
    else
      let out := <[flowKey := ds_inode m]> out in
      let out := insertLocalKey out (makeLocalKey proto (ds_local m) (ds_lport m)) (ds_inode m) in
      if (ds_family m =? AF_INET6)%Z then
        match toIPv4Address (ds_local m) with
        | None => out
        | Some l4 =>
            let out :=
              match toIPv4Address (ds_remote m) with
              | Some r4 =>
                  let k4 := makeFlowKey proto (AddrV4 l4) (ds_lport m) (AddrV4 r4) (ds_rport m) in
                  if (Z.of_nat (size out) <? kMaxSocketEntries)%Z || bool_decide (is_Some (out !! k4))
                  then <[k4 := ds_inode m]> out else out
              | None => out
              end in
            insertLocalKey out (makeLocalKey proto (AddrV4 l4) (ds_lport m)) (ds_inode m)
        end
      else out.

(* ------------------------------------------------------------------ *)
(** ** The buffer parser *)

Inductive DumpChunkResult := NeedMore | Done | Failed.

Definition NLMSG_ERROR : Z := 2.
Definition NLMSG_DONE : Z := 3.
Definition SOCK_DIAG_BY_FAMILY : Z := 20.
Definition sizeof_nlmsghdr : Z := 16.
Definition sizeof_nlmsgerr : Z := 20.
Definition sizeof_inet_diag_msg : Z := 72.
Definition NLMSG_ALIGN (len : Z) : Z := (((len + 3) / 4) * 4)%Z.
Definition NLMSG_LENGTH (len : Z) : Z := (len + sizeof_nlmsghdr)%Z.

(** [n] bytes at offset [off], [None] outside the buffer. *)
Definition readBytes (buf : QByteArray) (off : Z) (n : nat) : option QByteArray :=
  if (0 <=? off)%Z && (off + Z.of_nat n <=? Z.of_nat (length buf))%Z
  then Some (take n (drop (Z.to_nat off) buf)) else None.

Definition leZ (bs : QByteArray) : Z := foldr (fun b acc => b + 256 * acc)%Z 0%Z bs.
Definition beZ (bs : QByteArray) : Z := foldl (fun acc b => 256 * acc + b)%Z 0%Z bs.
Definition readLe (buf : QByteArray) (off : Z) (n : nat) : option Z := leZ <$> readBytes buf off n.
Definition readBe (buf : QByteArray) (off : Z) (n : nat) : option Z := beZ <$> readBytes buf off n.

Definition addrFromDiag (family : Z) (buf : QByteArray) (off : Z) : option QHostAddress :=
  if (family =? AF_INET)%Z then AddrV4 <$> readBe buf off 4
  else (fun z => AddrV6 z []) <$> readBe buf off 16.

(** The [inet_diag_msg] at offset [d]. *)
Definition readDiag (buf : QByteArray) (d : Z) : option DiagSock :=
  family ← readLe buf d 1;
  sport ← readBe buf (d + 4) 2;
  dport ← readBe buf (d + 6) 2;
  local ← addrFromDiag family buf (d + 8);
  remote ← addrFromDiag family buf (d + 24);
  inode ← readLe buf (d + 68) 4;
  Some (mkDiagSock family local sport remote dport inode).

(** [NLMSG_OK]: the length field is read only when the header fits. *)
Definition nlmsgOk (buf : QByteArray) (off remaining : Z) : option bool :=
  if (sizeof_nlmsghdr <=? remaining)%Z then
    len ← readLe buf off 4;
    Some ((sizeof_nlmsghdr <=? len)%Z && (len <=? remaining)%Z)
  else Some false.

Definition toInt32 (z : Z) : Z := if (z <=? int32_max)%Z then z else (z - 4294967296)%Z.

(** The loop; every round moves on by at least a header, so [fuel] rounds are
    enough once [fuel] exceeds the number of bytes. *)
Fixpoint parseLoop (fuel : nat) (buf : QByteArray) (off remaining proto : Z) (out : SockMap)
    : option (DumpChunkResult * Z * SockMap) :=
  match fuel with
  | O => None
  | S fuel' =>
      ok ← nlmsgOk buf off remaining;
      if negb ok then Some (NeedMore, 0%Z, out)
      else
        len ← readLe buf off 4;
        ty ← readLe buf (off + 4) 2;
        let next out := parseLoop fuel' buf (off + NLMSG_ALIGN len) (remaining - NLMSG_ALIGN len) proto out in
        if (ty =? NLMSG_DONE)%Z then Some (Done, 0%Z, out)
        else if (ty =? NLMSG_ERROR)%Z then
          if (len <? NLMSG_LENGTH sizeof_nlmsgerr)%Z then Some (Failed, 0%Z, out)
          else
            err ← readLe buf (off + sizeof_nlmsghdr) 4;
            if negb (toInt32 err =? 0)%Z then Some (Failed, (- toInt32 err)%Z, out) else Some (Done, 0%Z, out)
        else if negb (ty =? SOCK_DIAG_BY_FAMILY)%Z then next out
        else if (len <? NLMSG_LENGTH sizeof_inet_diag_msg)%Z then next out
        else
          m ← readDiag buf (off + sizeof_nlmsghdr);
          next (indexSocket proto m out)
  end.

Definition parseDumpChunk (buf : QByteArray) (proto : Z) (out : SockMap) : option (DumpChunkResult * Z * SockMap) :=
  parseLoop (S (length buf)) buf 0 (Z.of_nat (length buf)) proto out.

(* ------------------------------------------------------------------ *)
(** ** A whole dump *)

(** What [recv] reports: an error (with [errno == EINTR] or not), or a
    datagram of [realLen] bytes of which the buffer holds [data]. *)
Inductive Recv := RecvError (eintr : bool) | RecvData (data : QByteArray) (realLen : Z).

Definition kRecvBuf : Z := 16384.

(** The receive loop over what the kernel delivers; a kernel that stops
    delivering is an error of [recv]. *)
Fixpoint recvLoop (rs : list Recv) (proto : Z) (out : SockMap) : bool * SockMap :=
  match rs with
  | [] => (false, out)
  | RecvError true :: rest => recvLoop rest proto out
  | RecvError false :: _ => (false, out)
  | RecvData data realLen :: rest =>
      if (kRecvBuf <? realLen)%Z then (false, out)
      else if (realLen =? 0)%Z then (true, out)
      else match parseDumpChunk data proto out with
           | Some (Done, _, out') => (true, out')
           | Some (Failed, _, out') => (false, out')
           | Some (NeedMore, _, out') => recvLoop rest proto out'
           | None => (false, out)
           end
  end.

(** [None]: [send] failed. *)
Definition dumpSocketsViaFd (answer : option (list Recv)) (proto : Z) (out : SockMap) : bool * SockMap :=
  match answer with None => (false, out) | Some rs => recvLoop rs proto out end.

(* ------------------------------------------------------------------ *)
(** ** No over-read *)

Lemma readBytes_in buf off n :
  (0 <= off)%Z -> (off + Z.of_nat n <= Z.of_nat (length buf))%Z -> is_Some (readBytes buf off n).
Proof.
  intros ? ?. unfold readBytes.
  assert ((0 <=? off)%Z && (off + Z.of_nat n <=? Z.of_nat (length buf))%Z = true) as ->; [|by eexists].
  rewrite andb_true_iff, !Z.leb_le. lia.
Qed.

Lemma readLe_in buf off n :
  (0 <= off)%Z -> (off + Z.of_nat n <= Z.of_nat (length buf))%Z -> is_Some (readLe buf off n).
Proof. intros. apply fmap_is_Some. by apply readBytes_in. Qed.

Lemma readBe_in buf off n :
  (0 <= off)%Z -> (off + Z.of_nat n <= Z.of_nat (length buf))%Z -> is_Some (readBe buf off n).
Proof. intros. apply fmap_is_Some. by apply readBytes_in. Qed.

Lemma addrFromDiag_in family buf off :
  (0 <= off)%Z -> (off + 16 <= Z.of_nat (length buf))%Z -> is_Some (addrFromDiag family buf off).
Proof. intros. unfold addrFromDiag. destruct (_ =? _)%Z; apply fmap_is_Some, readBe_in; lia. Qed.

Lemma readDiag_in buf d :
  (0 <= d)%Z -> (d + sizeof_inet_diag_msg <= Z.of_nat (length buf))%Z -> is_Some (readDiag buf d).
Proof.
  unfold sizeof_inet_diag_msg. intros Hd Hlen. unfold readDiag.
  destruct (readLe_in buf d 1) as [fam ->]; [lia|lia|]. cbn.
  destruct (readBe_in buf (d + 4) 2) as [sp ->]; [lia|lia|]. cbn.
  destruct (readBe_in buf (d + 6) 2) as [dp ->]; [lia|lia|]. cbn.
  destruct (addrFromDiag_in fam buf (d + 8)) as [la ->]; [lia|lia|]. cbn.
  destruct (addrFromDiag_in fam buf (d + 24)) as [ra ->]; [lia|lia|]. cbn.
  destruct (readLe_in buf (d + 68) 4) as [ino ->]; [lia|lia|]. cbn. by eexists.
Qed.

Lemma NLMSG_ALIGN_ge len : (len <= NLMSG_ALIGN len)%Z.
Proof. unfold NLMSG_ALIGN. pose proof (Z.mod_pos_bound (len + 3) 4 ltac:(lia)). pose proof (Z_div_mod_eq_full (len + 3) 4). lia. Qed.

Lemma readLe_Some_range buf off n z : readLe buf off n = Some z -> (off + Z.of_nat n <= Z.of_nat (length buf))%Z.
Proof.
  unfold readLe, readBytes. destruct ((0 <=? off)%Z && _) eqn:Eb; [|done]. intros _. blia.
Qed.

(** Buffers come from [recv]: their elements are bytes, so a length field is
    never negative; the loop only needs the header test. *)
Lemma parseLoop_total fuel buf off remaining proto out :
  (0 <= off)%Z -> (off + remaining = Z.of_nat (length buf))%Z -> (remaining < Z.of_nat fuel)%Z -> 0 < fuel ->
  is_Some (parseLoop fuel buf off remaining proto out).
Proof.
  revert off remaining out. induction fuel as [|fuel IH]; intros off remaining out Hoff Hsum Hfuel Hpos; [lia|].
  cbn [parseLoop]. unfold nlmsgOk, sizeof_nlmsghdr.
  destruct (16 <=? remaining)%Z eqn:Er; [|cbn; by eexists]. apply Z.leb_le in Er.
  destruct (readLe_in buf off 4) as [len Hlen]; [lia|lia|]. rewrite Hlen. cbn.
  destruct ((16 <=? len)%Z && (len <=? remaining)%Z) eqn:Eok; cbn; [|by eexists]. blia.
  destruct (readLe_in buf (off + 4) 2) as [ty ->]; [lia|lia|]. cbn.
  pose proof (NLMSG_ALIGN_ge len).
  assert (Hnext : forall o, is_Some (parseLoop fuel buf (off + NLMSG_ALIGN len) (remaining - NLMSG_ALIGN len) proto o)).
  { intros o. destruct fuel as [|fuel]; [lia|]. apply IH; lia. }
  destruct (ty =? NLMSG_DONE)%Z; [by eexists|].
  destruct (ty =? NLMSG_ERROR)%Z.
  - unfold NLMSG_LENGTH, sizeof_nlmsgerr, sizeof_nlmsghdr. destruct (len <? _)%Z eqn:El; [by eexists|]. blia.
    destruct (readLe_in buf (off + 16) 4) as [err ->]; [lia|lia|]. cbn. destruct (negb _); by eexists.
  - destruct (negb (ty =? _)%Z); [apply Hnext|].
    unfold NLMSG_LENGTH, sizeof_nlmsghdr. destruct (len <? _)%Z eqn:El; [apply Hnext|]. unfold sizeof_inet_diag_msg in El. blia.
    destruct (readDiag_in buf (off + 16)) as [m ->]; [lia|unfold sizeof_inet_diag_msg; lia|]. cbn. apply Hnext.
Qed.

(* ------------------------------------------------------------------ *)
(** ** The table stays within its cap *)

Definition inCap (out : SockMap) : Prop := (Z.of_nat (size out) <= kMaxSocketEntries)%Z.

Lemma size_insert_le (out : SockMap) k v : size (<[k := v]> out) <= S (size out).
Proof. rewrite map_size_insert. destruct (out !! k); unfold id; lia. Qed.

Lemma size_insert_present (out : SockMap) k v : is_Some (out !! k) -> size (<[k := v]> out) = size out.
Proof. intros [x Hx]. by rewrite map_size_insert, Hx. Qed.

Lemma insertLocalKey_inCap out k i : inCap out -> inCap (insertLocalKey out k i).
Proof.
  unfold inCap, insertLocalKey. intros Hc. destruct (out !! k) as [j|] eqn:Ek.
  - destruct (negb _); [|done]. rewrite size_insert_present by (by eexists). done.
  - destruct (_ <? _)%Z eqn:El; [|done]. pose proof (size_insert_le out k i). blia.
Qed.

Lemma indexSocket_inCap proto m out : inCap out -> inCap (indexSocket proto m out).
Proof.
  intros Hc. unfold indexSocket. destruct (_ =? 0)%Z; [done|].
  set (fk := makeFlowKey proto _ _ _ _).
  destruct ((kMaxSocketEntries <=? _)%Z && _) eqn:Ef; [done|].
  assert (Hc1 : inCap (<[fk := ds_inode m]> out)).
  { unfold inCap in *. apply andb_false_iff in Ef as [Ef|Ef].
    - pose proof (size_insert_le out fk (ds_inode m)). blia.
    - apply bool_decide_eq_false in Ef. rewrite size_insert_present; [done|]. by apply not_eq_None_Some. }
  apply (insertLocalKey_inCap _ (makeLocalKey proto (ds_local m) (ds_lport m)) (ds_inode m)) in Hc1.
  destruct (_ =? AF_INET6)%Z; [|done]. destruct (toIPv4Address (ds_local m)) as [l4|]; [|done].
  apply insertLocalKey_inCap. destruct (toIPv4Address (ds_remote m)) as [r4|]; [|done].
  set (out1 := insertLocalKey _ _ _) in *. set (k4 := makeFlowKey _ _ _ _ _).
  destruct (_ || _) eqn:Eo; [|done]. unfold inCap in *. apply orb_true_iff in Eo as [Eo|Eo].
  - pose proof (size_insert_le out1 k4 (ds_inode m)). blia.
  - apply bool_decide_eq_true in Eo. by rewrite size_insert_present.
Qed.

Lemma parseLoop_inCap fuel buf off remaining proto out res err out' :
  inCap out -> parseLoop fuel buf off remaining proto out = Some (res, err, out') -> inCap out'.
Proof.
  revert off remaining out. induction fuel as [|fuel IH]; intros off remaining out Hc Hp; [done|].
  cbn [parseLoop] in Hp. destruct (nlmsgOk buf off remaining) as [ok|]; [|done]. cbn in Hp.
  destruct ok; cbn in Hp; [|by simplify_eq].
  destruct (readLe buf off 4) as [len|]; [|done]. cbn in Hp.
  destruct (readLe buf (off + 4) 2) as [ty|]; [|done]. cbn in Hp.
  destruct (ty =? NLMSG_DONE)%Z; [by simplify_eq|].
  destruct (ty =? NLMSG_ERROR)%Z.
  - destruct (len <? _)%Z; [by simplify_eq|]. destruct (readLe buf _ 4) as [e|]; [|done]. cbn in Hp.
    destruct (negb _); by simplify_eq.
  - destruct (negb (ty =? _)%Z); [by eapply IH|]. destruct (len <? _)%Z; [by eapply IH|].
    destruct (readDiag buf _) as [m|]; [|done]. cbn in Hp. eapply IH; [|exact Hp]. by apply indexSocket_inCap.
Qed.

(** C13. Parsing a received buffer never reads outside it and always comes to
    an end, whatever its bytes are (truncated headers, lying length fields,
    short payloads included), and keeps the socket table within its cap. *)
Theorem parseDumpChunk_safe buf proto out :
  exists res err out', parseDumpChunk buf proto out = Some (res, err, out') /\ (inCap out -> inCap out').
Proof.
  destruct (parseLoop_total (S (length buf)) buf 0 (Z.of_nat (length buf)) proto out) as [[[res err] out'] Hp]; [lia..|].
  exists res, err, out'. split; [exact Hp|]. intros Hc. by eapply parseLoop_inCap.
Qed.

(* ------------------------------------------------------------------ *)
(** ** Local keys never pick a winner *)

(** The local-only keys a socket is filed under. *)
Definition localKeys (proto : Z) (m : DiagSock) : list QByteArray :=
  makeLocalKey proto (ds_local m) (ds_lport m)
  :: (if (ds_family m =? AF_INET6)%Z
      then match toIPv4Address (ds_local m) with Some l4 => [makeLocalKey proto (AddrV4 l4) (ds_lport m)] | None => [] end
      else []).

(** All entries for [k] agree with [inode], or [k] is marked ambiguous. *)
Definition agrees (out : SockMap) (k : QByteArray) (inode : Z) : Prop :=
  out !! k = Some inode \/ out !! k = Some kAmbiguousLocalInode.

Lemma insertLocalKey_agrees out k i :
  (Z.of_nat (size out) < kMaxSocketEntries)%Z -> agrees (insertLocalKey out k i) k i.
Proof.
  intros Hroom. unfold insertLocalKey, agrees. destruct (out !! k) as [j|] eqn:Ek.
  - destruct (negb (j =? i)%Z) eqn:Ej; [right; by rewrite lookup_insert_eq|]. left. blia. by rewrite Ek, Ej.
  - assert (Z.of_nat (size out) <? kMaxSocketEntries = true)%Z as -> by (by apply Z.ltb_lt).
    left. by rewrite lookup_insert_eq.
Qed.

Lemma insertLocalKey_keeps out k i k' i' : agrees out k' i' -> agrees (insertLocalKey out k i) k' i'.
Proof.
  unfold agrees, insertLocalKey. intros Ha. destruct (decide (k = k')) as [<-|Hne].
  - destruct (out !! k) as [j|] eqn:Ek; [|by destruct Ha].
    destruct (negb (j =? i)%Z); [right; by rewrite lookup_insert_eq|by rewrite Ek].
  - destruct (out !! k); split_ifs; rewrite ?lookup_insert_ne by done; done.
Qed.

Lemma insertLocalKey_grows out k i : size out <= size (insertLocalKey out k i).
Proof.
  unfold insertLocalKey. destruct (out !! k) as [j|] eqn:Ek; split_ifs; try lia.
  - rewrite size_insert_present; [lia|by eexists].
  - rewrite map_size_insert, Ek. lia.
Qed.

Lemma flowKey_keeps (out : SockMap) proto la lp ra rp i proto' la' lp' i' :
  proto <> 1%Z -> agrees out (makeLocalKey proto' la' lp') i' ->
  agrees (<[makeFlowKey proto la lp ra rp := i]> out) (makeLocalKey proto' la' lp') i'.
Proof.
  intros Hp Ha. unfold agrees. rewrite lookup_insert_ne; [done|]. unfold makeFlowKey, makeLocalKey. congruence.
Qed.

Lemma insert_grows (out : SockMap) k v : size out <= size (<[k := v]> out).
Proof. rewrite map_size_insert. destruct (out !! k); unfold id; lia. Qed.

(** One socket: what was filed stays filed, and its own keys are filed. *)
Lemma indexSocket_agrees proto m out :
  proto <> 1%Z -> (Z.of_nat (size (indexSocket proto m out)) < kMaxSocketEntries)%Z ->
  size out <= size (indexSocket proto m out) /\
  (forall la lp i, agrees out (makeLocalKey proto la lp) i -> agrees (indexSocket proto m out) (makeLocalKey proto la lp) i) /\
  (ds_inode m <> 0%Z -> forall k, k ∈ localKeys proto m -> agrees (indexSocket proto m out) k (ds_inode m)).
Proof.
  intros Hp. unfold indexSocket. destruct (ds_inode m =? 0)%Z eqn:E0; [intros _; split_and!; [done|done|]; intros; blia|].
  set (fk := makeFlowKey proto _ _ _ _).
  destruct ((kMaxSocketEntries <=? _)%Z && _) eqn:Ef; [intros Hroom; blia|]. clear Ef.
  set (out0 := <[fk := ds_inode m]> out). set (out1 := insertLocalKey out0 _ _). unfold localKeys.
  assert (Hk01 : forall la lp i, agrees out (makeLocalKey proto la lp) i -> agrees out1 (makeLocalKey proto la lp) i)
    by (intros; by apply insertLocalKey_keeps, flowKey_keeps).
  assert (Hs01 : size out <= size out0 <= size out1) by (split; [apply insert_grows|apply insertLocalKey_grows]).
  destruct (ds_family m =? AF_INET6)%Z; [destruct (toIPv4Address (ds_local m)) as [l4|]|].
  - set (out2 := match toIPv4Address (ds_remote m) with Some _ => _ | None => _ end).
    assert (Hk12 : forall la lp i, agrees out1 (makeLocalKey proto la lp) i -> agrees out2 (makeLocalKey proto la lp) i).
    { intros la lp i Ha. subst out2. destruct (toIPv4Address (ds_remote m)); [|done]. destruct (_ || _); [|done].
      by apply flowKey_keeps. }
    assert (Hs12 : size out1 <= size out2).
    { subst out2. destruct (toIPv4Address (ds_remote m)); [|done]. destruct (_ || _); [apply insert_grows|done]. }
    pose proof (insertLocalKey_grows out2 (makeLocalKey proto (AddrV4 l4) (ds_lport m)) (ds_inode m)) as Hs23.
    intros Hroom. split_and!; [lia| |].
    + intros la lp i Ha. by apply insertLocalKey_keeps, Hk12, Hk01.
    + intros _ k [->|[->|Hk]%elem_of_cons]%elem_of_cons; [| |by apply not_elem_of_nil in Hk].
      * apply insertLocalKey_keeps, Hk12, insertLocalKey_agrees. lia.
      * apply insertLocalKey_agrees. lia.
  - intros Hroom. split_and!; [lia|done|]. intros _ k [->|Hk]%elem_of_cons; [|by apply not_elem_of_nil in Hk].
    apply insertLocalKey_agrees. lia.
  - intros Hroom. split_and!; [lia|done|]. intros _ k [->|Hk]%elem_of_cons; [|by apply not_elem_of_nil in Hk].
    apply insertLocalKey_agrees. lia.
Qed.

Lemma localKeys_shape proto m k : k ∈ localKeys proto m -> exists la lp, k = makeLocalKey proto la lp.
Proof.
  unfold localKeys. intros [->|Hk]%elem_of_cons; [by eexists _, _|].
  destruct (_ =? _)%Z; [|by apply not_elem_of_nil in Hk]. destruct (toIPv4Address _); [|by apply not_elem_of_nil in Hk].
  apply list_elem_of_singleton in Hk as ->. by eexists _, _.
Qed.

Lemma indexSockets_agrees proto socks :
  proto <> 1%Z ->
  let out := foldl (fun o m => indexSocket proto m o) ∅ socks in
  (Z.of_nat (size out) < kMaxSocketEntries)%Z ->
  forall m k, m ∈ socks -> ds_inode m <> 0%Z -> k ∈ localKeys proto m -> agrees out k (ds_inode m).
Proof.
  intros Hp out. subst out. induction socks as [|x socks IH] using rev_ind; intros Hroom m k Hm Hi Hk.
  { by apply not_elem_of_nil in Hm. }
  rewrite foldl_app in *. cbn [foldl] in *. set (o := foldl _ ∅ socks) in *.
  destruct (indexSocket_agrees proto x o Hp Hroom) as (Hs & Hkeep & Hnew).
  apply elem_of_app in Hm as [Hm| ->%list_elem_of_singleton]; [|by apply Hnew].
  destruct (localKeys_shape proto m k Hk) as (la & lp & ->). apply Hkeep, IH; [lia|done..].
Qed.

(** A local-only key never picks a winner: while the table has room, the
    inode stored for a local endpoint is the inode of every socket of the
    dump bound there (dual-stack sockets under their IPv4 form included), and
    as soon as two different sockets share the endpoint the entry is the
    ambiguity mark, whatever their order. *)
Theorem local_key_unambiguous proto socks m1 m2 k :
  (proto = 6 \/ proto = 17)%Z ->
  let out := foldl (fun o m => indexSocket proto m o) ∅ socks in
  (Z.of_nat (size out) < kMaxSocketEntries)%Z ->
  m1 ∈ socks -> m2 ∈ socks -> ds_inode m1 <> 0%Z -> ds_inode m2 <> 0%Z ->
  k ∈ localKeys proto m1 -> k ∈ localKeys proto m2 ->
  (ds_inode m1 = ds_inode m2 \/ out !! k = Some kAmbiguousLocalInode) /\
  (forall i, out !! k = Some i -> i <> kAmbiguousLocalInode -> i = ds_inode m1 /\ i = ds_inode m2) /\
  is_Some (out !! k).
Proof.
  intros Hp out Hroom Hm1 Hm2 Hi1 Hi2 Hk1 Hk2. assert (Hp1 : proto <> 1%Z) by lia.
  pose proof (indexSockets_agrees proto socks Hp1 Hroom m1 k Hm1 Hi1 Hk1) as [Ha1|Ha1];
    pose proof (indexSockets_agrees proto socks Hp1 Hroom m2 k Hm2 Hi2 Hk2) as [Ha2|Ha2]; fold out in Ha1, Ha2;
    (split_and!; [|intros i Hi Hne|by eexists]); try (by right); try (split; congruence); try (left; congruence).
Qed.
End Dump.

(** Two UDP sockets on one wildcard port (SO_REUSEPORT). *)
#[global] Instance plainToIPv4 : QtToIPv4 :=
  fun a => match a with AddrV4 z => Some z | AddrV6 z _ => if (z =? 0)%Z then Some 0%Z else None | _ => None end.

Definition sampleSock (inode : Z) : DiagSock := mkDiagSock AF_INET (AddrV4 0) 5353 (AddrV4 0) 0 inode.

Lemma local_key_unambiguous_witness :
  foldl (fun o m => indexSocket 17 m o) ∅ [sampleSock 100; sampleSock 200]
    !! makeLocalKey 17 (AddrV4 0) 5353 = Some kAmbiguousLocalInode.
Proof.
  destruct (local_key_unambiguous 17 [sampleSock 100; sampleSock 200] (sampleSock 100) (sampleSock 200)
    (makeLocalKey 17 (AddrV4 0) 5353)) as ([He|He] & _).
  - right. reflexivity.
  - vm_compute. reflexivity.
  - left.
  - right. left.
  - discriminate.
  - discriminate.
  - left.
  - left.
  - discriminate He.
  - exact He.
Defined.
