(* ===== verification/SockDiag.v ===== *)
(** * The socket resolver: [src/backend/linux/SockDiagResolver.cpp]

    Flow to socket inode through the dumped socket table, inode to process
    through a walk of /proc/<pid>/fd, both rebuilt when older than the cache
    TTL; every answer is guarded by the process start time recorded at the
    walk.  What the kernel shows at a call is the [World] in the state: the
    clock, the dump answers, the /proc entries and the per-process reads. *)

From S2P Require Import Prelude Qt Conn Resolver ProcParse SockDump.

Record World := mkWorld {
  wd_now : Z;                                            (* clock.elapsed() *)
  wd_socket : bool;                                      (* openSockDiagSocket() >= 0 *)
  wd_dump : Z -> Z -> option (list Recv);                (* family, protocol *)
  wd_proc : option (list (QString * option (list (QString * option QString))));
    (* /proc: entry names, their fd directory, its entries and link targets *)
  wd_stat : Z -> option QString;                         (* /proc/<pid>/stat *)
  wd_status : Z -> QString * Z;                          (* readProcStatus: comm, uid *)
  wd_cmdline : Z -> QString;
  wd_exe : Z -> QString;
}.

Record PidStamp := mkStamp { ps_pid : Z; ps_startTime : Z }.

Record SockDiag := mkSockDiag {
  sd_lastDumpMs : Z;
  sd_cacheTtlMs : Z;
  sd_keyToInode : SockMap;
  sd_inodeToPid : gmap Z PidStamp;
  sd_pidToStartTime : gmap Z Z;
  sd_lastProcWalkMs : Z;
  sd_ready : bool;
  sd_world : World;
}.

Definition kDefaultCacheTtlMs : Z := 1000.
Definition kMinCacheTtlMs : Z := 100.
Definition safeCacheTtlMs (raw : Z) : Z :=
  if (raw <=? 0)%Z then kDefaultCacheTtlMs
  else if (kMinCacheTtlMs <=? raw)%Z then raw else kMinCacheTtlMs.

Definition newSockDiag (tuning : ResolverTuning) (w : World) : SockDiag :=
  mkSockDiag (-1) (safeCacheTtlMs (cacheRefreshMs tuning)) ∅ ∅ ∅ (-1) false w.

Definition sd_setTuning (tuning : ResolverTuning) (sd : SockDiag) : SockDiag :=
  mkSockDiag (sd_lastDumpMs sd) (safeCacheTtlMs (cacheRefreshMs tuning)) (sd_keyToInode sd) (sd_inodeToPid sd)
    (sd_pidToStartTime sd) (sd_lastProcWalkMs sd) (sd_ready sd) (sd_world sd).

Definition sd_capabilities (sd : SockDiag) : list QString :=
  if sd_ready sd then [qs "process-attribution"] else [].

Section SockDiag.
Context `{QtToIPv4, QtToULongLong}.

Definition liveStart (sd : SockDiag) (pid : Z) : option Z := pidStartTime (wd_stat (sd_world sd)) pid.

Definition refreshSocketTable (sd : SockDiag) : SockDiag :=
  let w := sd_world sd in
  let m := snd (dumpSocketsViaFd (wd_dump w AF_INET kTcp) kTcp ∅) in
  let m := snd (dumpSocketsViaFd (wd_dump w AF_INET6 kTcp) kTcp m) in
  let m := snd (dumpSocketsViaFd (wd_dump w AF_INET kUdp) kUdp m) in
  let m := snd (dumpSocketsViaFd (wd_dump w AF_INET6 kUdp) kUdp m) in
  mkSockDiag (sd_lastDumpMs sd) (sd_cacheTtlMs sd) m (sd_inodeToPid sd)
    (sd_pidToStartTime sd) (sd_lastProcWalkMs sd) (sd_ready sd) w.

(** One fd entry of a process. *)
Definition enrollFd (pid startTime : Z) (acc : gmap Z PidStamp * gmap Z Z) (fd : QString * option QString)
    : gmap Z PidStamp * gmap Z Z :=
  if match fst fd with 46%Z :: _ => true | _ => false end then acc
  else match snd fd with
       | None => acc
       | Some target =>
           match parseSocketLink target with
           | Some inode => (<[inode := mkStamp pid startTime]> (fst acc), <[pid := startTime]> (snd acc))
           | None => acc
           end
       end.

(** The walk over the entries of /proc. *)
Fixpoint walkProc (stat : Z -> option QString) (entries : list (QString * option (list (QString * option QString))))
    (acc : gmap Z PidStamp * gmap Z Z) : gmap Z PidStamp * gmap Z Z :=
  match entries with
  | [] => acc
  | (name, fdDir) :: rest =>
      if (kMaxSocketEntries <=? Z.of_nat (size (fst acc)))%Z then acc
      else
        let acc' :=
          match parseDec name with
          | Some pid =>
              if (pid <=? 0)%Z then acc
              else match fdDir with
                   | None => acc
                   | Some fds => foldl (enrollFd pid (default 0%Z (pidStartTime stat pid))) acc fds
                   end
          | None => acc
          end in
        walkProc stat rest acc'
  end.

Definition refreshProcWalk (sd : SockDiag) : SockDiag :=
  let w := sd_world sd in
  let '(inodes, starts) := match wd_proc w with
                           | None => (∅, ∅)
                           | Some entries => walkProc (wd_stat w) entries (∅, ∅)
                           end in
  mkSockDiag (sd_lastDumpMs sd) (sd_cacheTtlMs sd) (sd_keyToInode sd) inodes starts
    (sd_lastProcWalkMs sd) (sd_ready sd) w.

Definition set_lastDump (t : Z) (sd : SockDiag) : SockDiag :=
  mkSockDiag t (sd_cacheTtlMs sd) (sd_keyToInode sd) (sd_inodeToPid sd) (sd_pidToStartTime sd)
    (sd_lastProcWalkMs sd) (sd_ready sd) (sd_world sd).
Definition set_lastWalk (t : Z) (sd : SockDiag) : SockDiag :=
  mkSockDiag (sd_lastDumpMs sd) (sd_cacheTtlMs sd) (sd_keyToInode sd) (sd_inodeToPid sd) (sd_pidToStartTime sd)
    t (sd_ready sd) (sd_world sd).

Definition isDue (last now ttl : Z) : bool := (last <? 0)%Z || (ttl <=? now - last)%Z.

Definition maybeRefresh (sd : SockDiag) : SockDiag :=
  let now := wd_now (sd_world sd) in
  let sd := if isDue (sd_lastDumpMs sd) now (sd_cacheTtlMs sd) then set_lastDump now (refreshSocketTable sd) else sd in
  if isDue (sd_lastProcWalkMs sd) now (sd_cacheTtlMs sd) then set_lastWalk now (refreshProcWalk sd) else sd.

Definition sd_initialize (sd : SockDiag) : bool * SockDiag :=
  if negb (wd_socket (sd_world sd)) then (false, sd)
  else
    let '(ok, m) := dumpSocketsViaFd (wd_dump (sd_world sd) AF_INET kTcp) kTcp (sd_keyToInode sd) in
    if ok : bool
    then (true, mkSockDiag (sd_lastDumpMs sd) (sd_cacheTtlMs sd) ∅ (sd_inodeToPid sd) (sd_pidToStartTime sd)
                  (sd_lastProcWalkMs sd) true (sd_world sd))
    else (false, mkSockDiag (sd_lastDumpMs sd) (sd_cacheTtlMs sd) m (sd_inodeToPid sd) (sd_pidToStartTime sd)
                  (sd_lastProcWalkMs sd) (sd_ready sd) (sd_world sd)).

Definition ianaOf (p : L4Proto) : Z := match p with Tcp => kTcp | Udp => kUdp | _ => 0 end.

(** The socket lookup: full tuple, then for UDP the local-only keys. *)
Definition lookupSocket (keys : SockMap) (flow : Connection) : option Z :=
  let proto := ianaOf (c_proto flow) in
  let l := c_local flow in let r := c_remote flow in
  match keys !! makeFlowKey proto (ep_address l) (ep_port l) (ep_address r) (ep_port r) with
  | Some inode => Some inode
  | None =>
      if (proto =? kUdp)%Z then
        let itLocal := keys !! makeLocalKey proto (ep_address l) (ep_port l) in
        let anyAddr := if addrIsIPv6 (ep_address l) then AddrV6 0 [] else AddrV4 0 in
        let itWildcard := keys !! makeLocalKey proto anyAddr (ep_port l) in
        match itLocal with
        | Some li =>
            match itWildcard with
            | Some wi => if isAmbiguousLocalInode wi || negb (wi =? li)%Z then None else Some li
            | None => Some li
            end
        | None => itWildcard
        end
      else None
  end.

(** From the socket to the process, with the start-time guard on what is
    [live] under the pid now. *)
Definition guardedPid (keys : SockMap) (inodes : gmap Z PidStamp) (live : Z -> option Z) (flow : Connection) : Z :=
  match lookupSocket keys flow with
  | None => 0%Z
  | Some inode =>
      if isAmbiguousLocalInode inode then 0%Z
      else match inodes !! inode with
           | None => 0%Z
           | Some st => if bool_decide (live (ps_pid st) = Some (ps_startTime st)) then ps_pid st else 0%Z
           end
  end.

Definition sd_resolvePid (flow : Connection) (sd : SockDiag) : Z * SockDiag :=
  if negb (sd_ready sd) then (0%Z, sd)
  else if (ianaOf (c_proto flow) =? 0)%Z then (0%Z, sd)
  else
    let sd := maybeRefresh sd in
    (guardedPid (sd_keyToInode sd) (sd_inodeToPid sd) (liveStart sd) flow, sd).

Definition sd_enrichPid (pid : Z) (sd : SockDiag) : option ProcessInfo * SockDiag :=
  if negb (sd_ready sd) || (pid <=? 0)%Z then (None, sd)
  else
    let sd := maybeRefresh sd in
    (match sd_pidToStartTime sd !! pid with
     | None => None
     | Some st =>
         if bool_decide (liveStart sd pid = Some st) then
           let w := sd_world sd in
           Some (mkProcessInfo pid (fst (wd_status w pid)) (wd_cmdline w pid) (wd_exe w pid) (snd (wd_status w pid)))
         else None
     end, sd).

Definition sockDiagResolver : Resolver SockDiag := {|
  r_initialize := sd_initialize;
  r_capabilities := sd_capabilities;
  r_setTuning := sd_setTuning;
  r_requestDeepScan := id;
  r_resolvePid := sd_resolvePid;
  r_enrichPid := sd_enrichPid;
  r_resolveContainerForPid := fun _ sd => (None, sd);
  r_resolveContainerChainForPid := defaultChainForPid (fun _ sd => (None, sd));
|}.
End SockDiag.

Section SockDiagProofs.
Context `{QtToIPv4, QtToULongLong}.

Definition flowKeyOf (flow : Connection) : QByteArray :=
  makeFlowKey (ianaOf (c_proto flow)) (ep_address (c_local flow)) (ep_port (c_local flow))
    (ep_address (c_remote flow)) (ep_port (c_remote flow)).
Definition localKeyOf (flow : Connection) (a : QHostAddress) : QByteArray :=
  makeLocalKey (ianaOf (c_proto flow)) a (ep_port (c_local flow)).
Definition wildcardOf (flow : Connection) : QHostAddress :=
  if addrIsIPv6 (ep_address (c_local flow)) then AddrV6 0 [] else AddrV4 0.

(** Which socket a flow belongs to, according to the table: a connected
    socket by its tuple; failing that, for UDP only, the socket bound to the
    local endpoint, provided nothing else listens on the wildcard, or the
    only one bound to the wildcard. *)
Inductive socket_match (keys : SockMap) (flow : Connection) (inode : Z) : Prop :=
| sm_connected : keys !! flowKeyOf flow = Some inode -> socket_match keys flow inode
| sm_bound :
    c_proto flow = Udp -> keys !! flowKeyOf flow = None ->
    keys !! localKeyOf flow (ep_address (c_local flow)) = Some inode ->
    (keys !! localKeyOf flow (wildcardOf flow) = None \/ keys !! localKeyOf flow (wildcardOf flow) = Some inode) ->
    socket_match keys flow inode
| sm_wildcard :
    c_proto flow = Udp -> keys !! flowKeyOf flow = None ->
    keys !! localKeyOf flow (ep_address (c_local flow)) = None ->
    keys !! localKeyOf flow (wildcardOf flow) = Some inode ->
    socket_match keys flow inode.

Lemma lookupSocket_match keys flow inode :
  inode <> kAmbiguousLocalInode -> lookupSocket keys flow = Some inode <-> socket_match keys flow inode.
Proof.
  intros Hne. unfold lookupSocket. fold (flowKeyOf flow). fold (localKeyOf flow (ep_address (c_local flow))).
  fold (wildcardOf flow). fold (localKeyOf flow (wildcardOf flow)).
  assert (Hudp : (ianaOf (c_proto flow) =? kUdp)%Z = true <-> c_proto flow = Udp) by (by destruct (c_proto flow)).
  split.
  - destruct (keys !! flowKeyOf flow) as [i|] eqn:Ef; [intros [= ->]; by apply sm_connected|].
    destruct (_ =? kUdp)%Z; [|done]. assert (Hp : c_proto flow = Udp) by (by apply Hudp).
    destruct (keys !! localKeyOf flow (ep_address (c_local flow))) as [li|] eqn:El.
    + destruct (keys !! localKeyOf flow (wildcardOf flow)) as [wi|] eqn:Ew.
      * destruct (isAmbiguousLocalInode wi || negb (wi =? li)%Z) eqn:Eb; [done|]. intros [= ->].
        apply sm_bound; [done..|right]. blia. congruence.
      * intros [= ->]. by apply sm_bound; [..|left].
    + intros Hw. by apply sm_wildcard.
  - intros [Hf|Hp Hf Hl Hw|Hp Hf Hl Hw].
    + by rewrite Hf.
    + rewrite Hf, Hl. apply Hudp in Hp as ->. destruct Hw as [Hw|Hw]; rewrite Hw; [done|].
      unfold isAmbiguousLocalInode. apply Z.eqb_neq in Hne as ->. by rewrite Z.eqb_refl.
    + rewrite Hf, Hl, Hw. by apply Hudp in Hp as ->.
Qed.

Lemma refreshProcWalk_frame sd :
  sd_lastDumpMs (refreshProcWalk sd) = sd_lastDumpMs sd /\ sd_cacheTtlMs (refreshProcWalk sd) = sd_cacheTtlMs sd /\
  sd_ready (refreshProcWalk sd) = sd_ready sd /\ sd_world (refreshProcWalk sd) = sd_world sd.
Proof. unfold refreshProcWalk. by destruct (match wd_proc _ with Some _ => _ | None => _ end). Qed.

Lemma isDue_false last now ttl : isDue last now ttl = false -> (now - last < ttl)%Z.
Proof. unfold isDue. intros Hd. blia. Qed.

(** The tables an answer is read from are younger than the TTL. *)
Lemma maybeRefresh_fresh sd :
  (0 < sd_cacheTtlMs sd)%Z ->
  let sd' := maybeRefresh sd in
  (wd_now (sd_world sd) - sd_lastDumpMs sd' < sd_cacheTtlMs sd)%Z /\
  (wd_now (sd_world sd) - sd_lastProcWalkMs sd' < sd_cacheTtlMs sd)%Z /\
  sd_world sd' = sd_world sd /\ sd_ready sd' = sd_ready sd /\ sd_cacheTtlMs sd' = sd_cacheTtlMs sd.
Proof.
  intros Httl. unfold maybeRefresh. cbv zeta.
  set (sd1 := if isDue (sd_lastDumpMs sd) _ _ then _ else _).
  assert (Hs1 : (wd_now (sd_world sd) - sd_lastDumpMs sd1 < sd_cacheTtlMs sd)%Z /\ sd_cacheTtlMs sd1 = sd_cacheTtlMs sd /\
    sd_world sd1 = sd_world sd /\ sd_ready sd1 = sd_ready sd).
  { subst sd1. destruct (isDue _ _ _) eqn:Ed; cbn; split_and!; try done; [lia|by apply isDue_false]. }
  destruct Hs1 as (Hd & Ht & Hw & Hr). pose proof (refreshProcWalk_frame sd1) as (Hf1 & Hf2 & Hf3 & Hf4).
  destruct (isDue (sd_lastProcWalkMs sd1) _ _) eqn:Ew.
  - cbn [set_lastWalk sd_lastDumpMs sd_lastProcWalkMs sd_world sd_ready sd_cacheTtlMs].
    rewrite Hf1, Hf2, Hf3, Hf4, Ht, Hw, Hr. split_and!; try done. lia.
  - rewrite Ht in Ew. split_and!; try done. by apply isDue_false.
Qed.

(** The process that owns the flow according to the tables. *)
Definition ownerIn (keys : SockMap) (inodes : gmap Z PidStamp) (live : Z -> option Z) (flow : Connection) (pid : Z) : Prop :=
  exists inode st, socket_match keys flow inode /\ inode <> kAmbiguousLocalInode /\
    inodes !! inode = Some st /\ ps_pid st = pid /\ live pid = Some (ps_startTime st).

Lemma guardedPid_owner keys inodes live flow pid :
  pid <> 0%Z -> guardedPid keys inodes live flow = pid <-> ownerIn keys inodes live flow pid.
Proof.
  intros Hpid. unfold ownerIn, guardedPid. split.
  - destruct (lookupSocket keys flow) as [inode|] eqn:El; [|congruence].
    destruct (isAmbiguousLocalInode inode) eqn:Ea; [congruence|]. unfold isAmbiguousLocalInode in Ea. apply Z.eqb_neq in Ea.
    destruct (inodes !! inode) as [st|] eqn:Ei; [|congruence].
    case_bool_decide as Hl; [|congruence]. intros <-. exists inode, st. split_and!; try done. by apply lookupSocket_match.
  - intros (inode & st & Hm & Ha & Hi & Hp & Hl). apply lookupSocket_match in Hm; [|done]. rewrite Hm.
    unfold isAmbiguousLocalInode. apply Z.eqb_neq in Ha as ->. rewrite Hi, Hp. by rewrite bool_decide_eq_true_2.
Qed.

Definition ownedBy (flow : Connection) (sd : SockDiag) (pid : Z) : Prop :=
  ownerIn (sd_keyToInode sd) (sd_inodeToPid sd) (liveStart sd) flow pid.


(** What the walk enrolled was there: every stamp names a listed process that
    holds a link to the inode, with the start time read at the walk. *)
Definition enrolled (stat : Z -> option QString) (entries : list (QString * option (list (QString * option QString))))
    (inode : Z) (st : PidStamp) : Prop :=
  exists name fds fd target, (name, Some fds) ∈ entries /\ parseDec name = Some (ps_pid st) /\ (0 < ps_pid st)%Z /\
    (fd, Some target) ∈ fds /\ parseSocketLink target = Some inode /\
    ps_startTime st = default 0%Z (pidStartTime stat (ps_pid st)).

Lemma enrollFds_sound pid start fds acc inode st :
  fst (foldl (enrollFd pid start) acc fds) !! inode = Some st ->
  fst acc !! inode = Some st \/
  (st = mkStamp pid start /\ exists fd target, (fd, Some target) ∈ fds /\ parseSocketLink target = Some inode).
Proof.
  revert acc. induction fds as [|[n t] fds IH]; intros acc; cbn [foldl]; [by left|].
  intros Hl. apply IH in Hl as [Hl|(-> & fd & tg & Hin & Hp)]; [|right; split; [done|]; exists fd, tg; split; [by right|done]].
  unfold enrollFd in Hl. cbn [fst snd] in Hl. destruct (match n with 46%Z :: _ => true | _ => false end); [by left|].
  destruct t as [t|]; [|by left]. destruct (parseSocketLink t) as [i|] eqn:Ei; [|by left]. cbn [fst] in Hl.
  apply lookup_insert_Some in Hl as [[-> <-]|[_ Hl]]; [|by left]. right. split; [done|]. exists n, t. split; [by left|done].
Qed.

Lemma walkProc_sound stat entries acc inode st :
  fst (walkProc stat entries acc) !! inode = Some st -> fst acc !! inode = Some st \/ enrolled stat entries inode st.
Proof.
  revert acc. induction entries as [|[name fdDir] rest IH]; intros acc; cbn [walkProc]; [by left|].
  destruct (_ <=? _)%Z; [by left|]. intros Hl. apply IH in Hl as [Hl|(n & fds & fd & t & Hin & Hx)].
  - destruct (parseDec name) as [pid|] eqn:En; [|by left]. destruct (pid <=? 0)%Z eqn:Ep; [by left|].
    destruct fdDir as [fds|]; [|by left]. apply enrollFds_sound in Hl as [Hl|(-> & fd & t & Hin & Hp)]; [by left|].
    right. exists name, fds, fd, t. blia. split_and!; try done. by left.
  - right. exists n, fds, fd, t. split; [by right|done].
Qed.
End SockDiagProofs.

Section Flood.
Context `{QtToULongLongLaws}.

Definition socketFds (inodes : list Z) : list (QString * option QString) :=
  map (fun i => (qs "3", Some (qs "socket:[" ++ number i ++ qs "]"))) inodes.

Lemma enroll_flood pid start inodes acc :
  Forall in_u64 inodes -> NoDup inodes -> (forall i, i ∈ inodes -> fst acc !! i = None) ->
  size (fst (foldl (enrollFd pid start) acc (socketFds inodes))) = size (fst acc) + length inodes.
Proof.
  intros Hu. revert acc. induction Hu as [|i inodes Hi Hu IH]; intros acc Hnd Hf; cbn [socketFds map foldl length]; [lia|].
  apply NoDup_cons in Hnd as [Hni Hnd]. unfold enrollFd at 2. cbn [fst snd].
  change (match qs "3" with 46%Z :: _ => true | _ => false end) with false. cbv iota.
  rewrite parseSocketLink_roundtrip by done. fold (socketFds inodes). rewrite IH; cbn [fst]; [|done|].
  - rewrite map_size_insert, Hf by left. lia.
  - intros j Hj. rewrite lookup_insert_ne; [apply Hf; by right|]. congruence.
Qed.

(** The cap on the /proc walk is tested between processes only: a single
    process enrols every socket it holds, however many, so the inode table is
    not bounded by [kMaxSocketEntries]. *)
Theorem procWalk_flood_uncapped stat pid inodes :
  (0 < pid)%Z -> Forall in_u64 inodes -> NoDup inodes ->
  size (fst (walkProc stat [(number pid, Some (socketFds inodes))] (∅, ∅))) = length inodes.
Proof.
  intros Hp Hu Hnd. cbn [walkProc fst]. rewrite map_size_empty.
  change (kMaxSocketEntries <=? Z.of_nat 0)%Z with false. cbv iota. rewrite parseDec_number by lia.
  destruct (pid <=? 0)%Z eqn:Ep; [blia|]. rewrite enroll_flood; [cbn [fst]; by rewrite map_size_empty|done|done|].
  intros i _. apply lookup_empty.
Qed.
End Flood.

(* ------------------------------------------------------------------ *)
(** ** Witnesses: one connected TCP socket held by process 42 *)

Definition sampleStat : Z -> option QString :=
  fun pid => if (pid =? 42)%Z then Some (statLine 42 (qs "curl") (replicate 19 (qs "0")) 777 []) else None.

Definition sampleWorld : World :=
  mkWorld 5000 true (fun _ _ => None) None sampleStat (fun _ => (qs "curl", 1000%Z)) (fun _ => []) (fun _ => []).

Definition sampleSockDiag : SockDiag :=
  mkSockDiag 4900 1000 {[ flowKeyOf sampleTcp := 99%Z ]} {[ 99%Z := mkStamp 42 777 ]} {[ 42%Z := 777%Z ]} 4900 true sampleWorld.


Lemma flood_inodes : Forall in_u64 (seqZ 1 70000) /\ NoDup (seqZ 1 70000) /\ Z.of_nat (length (seqZ 1 70000)) = 70000%Z.
Proof.
  split_and!.
  - apply Forall_forall. intros i Hi. apply elem_of_seqZ in Hi. unfold in_u64, two64. lia.
  - apply NoDup_seqZ.
  - rewrite length_seqZ. lia.
Qed.

Lemma procWalk_flood_uncapped_witness :
  exists inodes, (kMaxSocketEntries < Z.of_nat (size (fst (walkProc sampleStat [(number 42, Some (socketFds inodes))] (∅, ∅)))))%Z.
Proof.
  pose proof flood_inodes as Hl. revert Hl. generalize (seqZ 1 70000). intros inodes (Hu & Hnd & Hl).
  exists inodes. rewrite (procWalk_flood_uncapped sampleStat 42 inodes ltac:(reflexivity) Hu Hnd), Hl. reflexivity.
Defined.
