(* ===== verification/Cgroup.v ===== *)
(** * Container classification: [src/backend/linux/CgroupParse.h],
      [src/backend/linux/CgroupClassifier.cpp]

    From the text of /proc/<pid>/cgroup to the chain of container scopes
    around a process.  The fixed patterns of the source are written out as
    matchers; where a pattern ends in [$] a single trailing newline is
    accepted, as PCRE does. *)

From S2P Require Import Prelude Qt Conn Resolver ProcParse.

(* ------------------------------------------------------------------ *)
(** ** Pattern pieces *)

Definition inRange (lo hi c : Z) : bool := (lo <=? c)%Z && (c <=? hi)%Z.
Definition hexLower (c : QChar) : bool := inRange 48 57 c || inRange 97 102 c.          (* [0-9a-f] *)
Definition podChar (c : QChar) : bool :=                                               (* [0-9a-fA-F_-] *)
  hexLower c || inRange 65 70 c || (c =? 95)%Z || (c =? 45)%Z.
Definition reSpace (c : QChar) : bool := inRange 9 13 c || (c =? 32)%Z.                 (* \s *)
Definition unitChar (c : QChar) : bool :=                                              (* [A-Za-z0-9@_.\-] *)
  inRange 65 90 c || inRange 97 122 c || inRange 48 57 c || (c =? 64)%Z || (c =? 95)%Z || (c =? 46)%Z || (c =? 45)%Z.

Definition stripPrefix (p s : QString) : option QString := if prefixb p s then Some (drop (length p) s) else None.
Definition stripSuffix (p s : QString) : option QString :=
  if prefixb (reverse p) (reverse s) then Some (take (length s - length p) s) else None.

(** [$]: the end, or just before a final newline. *)
Definition atEnd (s : QString) : bool := match s with [] | [10%Z] => true | _ => false end.
Definition chopNewline (s : QString) : QString := match stripSuffix [10%Z] s with Some t => t | None => s end.

(** The longest prefix of characters in a class. *)
Fixpoint span (f : QChar -> bool) (s : QString) : QString * QString :=
  match s with
  | [] => ([], [])
  | c :: r => if f c then let '(a, b) := span f r in (c :: a, b) else ([], s)
  end.

Definition allb (f : QChar -> bool) (s : QString) : bool := forallb f s.

(** [([0-9a-f]{64})] and what follows it. *)
Definition takeHex64 (s : QString) : option (QString * QString) :=
  let id := take 64 s in
  if (length id =? 64) && allb hexLower id then Some (id, drop 64 s) else None.

(** [^pre([0-9a-f]{64})post$] *)
Definition rxHexScope (pre post seg : QString) : option QString :=
  match stripPrefix pre seg with
  | None => None
  | Some t =>
      match takeHex64 t with
      | None => None
      | Some (id, rest) =>
          match stripPrefix post rest with
          | Some e => if atEnd e then Some id else None
          | None => None
          end
      end
  end.

(** [^pre(.+)post$] *)
Definition rxNamed (pre post seg : QString) : option QString :=
  match stripPrefix pre seg with
  | None => None
  | Some t =>
      match stripSuffix post (chopNewline t) with
      | Some name => if isEmpty name || bool_decide (10%Z ∈ name) then None else Some name
      | None => None
      end
  end.

(** [^lxd-([^/\s.]+)\.service$] *)
Definition rxLxd (seg : QString) : option QString :=
  match stripPrefix (qs "lxd-") seg with
  | None => None
  | Some t =>
      let '(name, rest) := span (fun c => negb ((c =? 47)%Z || reSpace c || (c =? 46)%Z)) t in
      match stripPrefix (qs ".service") rest with
      | Some e => if negb (isEmpty name) && atEnd e then Some name else None
      | None => None
      end
  end.

(** [^pod([0-9a-fA-F_-]{32,72})$] *)
Definition rxKubepodsPodCgfs (seg : QString) : option QString :=
  match stripPrefix (qs "pod") seg with
  | None => None
  | Some t =>
      let uid := chopNewline t in
      if allb podChar uid && (32 <=? length uid) && (length uid <=? 72) then Some uid else None
  end.

(** [pod([0-9a-fA-F_-]{32,72})], leftmost. *)
Fixpoint rxKubepodsPod (seg : QString) : option QString :=
  let here := match stripPrefix (qs "pod") seg with
              | Some t => let uid := take 72 (fst (span podChar t)) in
                          if 32 <=? length uid then Some uid else None
              | None => None
              end in
  match here with
  | Some uid => Some uid
  | None => match seg with [] => None | _ :: r => rxKubepodsPod r end
  end.

Definition rxBareHex64 (seg : QString) : option QString := rxHexScope [] [] seg.

(* ------------------------------------------------------------------ *)
(** ** Paths *)

(** [contents.split('\n', Qt::SkipEmptyParts)] and the like. *)
Definition splitSkipEmpty (sep : QChar) (s : QString) : list QString :=
  filter (fun p => isEmpty p = false) (qsplit sep s).

Fixpoint extractLines (lines : list QString) (v1Fallback : QString) : QString :=
  match lines with
  | [] => v1Fallback
  | line :: rest =>
      match indexOf 58 line with
      | None => extractLines rest v1Fallback
      | Some c1 =>
          match indexFrom 58 (c1 + 1) line with
          | None => extractLines rest v1Fallback
          | Some c2 =>
              let controllers := take (c2 - c1 - 1) (drop (c1 + 1) line) in
              let path := drop (c2 + 1) line in
              if isEmpty controllers then path
              else extractLines rest (if isEmpty v1Fallback then path else v1Fallback)
          end
      end
  end.

Definition extractPath (contents : QString) : QString := extractLines (splitSkipEmpty 10 contents) [].

Inductive CgroupHint := HintAuto | PreferCrio.

Definition cgroupMaxChainDepth : nat := 16.
Definition shortId (id : QString) : QString := qleft 12 id.

Definition hexInfo (runtime : QString) (id : QString) : ContainerInfo := mkContainerInfo runtime (shortId id) [].
Definition namedInfo (runtime : QString) (name : QString) : ContainerInfo := mkContainerInfo runtime name [].

(** The first matcher of the list that accepts the segment. *)
Fixpoint firstMatch (ms : list (QString -> option ContainerInfo)) (seg : QString) : option ContainerInfo :=
  match ms with
  | [] => None
  | m :: rest => match m seg with Some ci => Some ci | None => firstMatch rest seg end
  end.

Definition scope : QString := qs ".scope".

Definition classifySegment : QString -> option ContainerInfo :=
  firstMatch
    [ (fun s => hexInfo (qs "containerd") <$> rxHexScope (qs "cri-containerd-") scope s);
      (fun s => hexInfo (qs "cri-o") <$> rxHexScope (qs "crio-") scope s);
      (fun s => hexInfo (qs "docker") <$> rxHexScope (qs "docker-") scope s);
      (fun s => hexInfo (qs "podman") <$> rxHexScope (qs "libpod-") scope s);
      (fun s => hexInfo (qs "podman") <$> rxHexScope (qs "libpod-") [] s);
      (fun s => namedInfo (qs "lxd") <$> rxLxd s);
      (fun s => namedInfo (qs "nspawn") <$> rxNamed (qs "machine-") scope s);
      (fun s => namedInfo (qs "nspawn") <$> rxNamed (qs "systemd-nspawn@") (qs ".service") s);
      (fun s => hexInfo (qs "kubernetes") <$> rxKubepodsPodCgfs s);
      (fun s => hexInfo (qs "kubernetes") <$> rxKubepodsPod s) ].

(** The segment loop, with [prevRuntime]. *)
Fixpoint segmentLoop (hint : CgroupHint) (prevRuntime : QString) (segments : list QString) : list ContainerInfo :=
  match segments with
  | [] => []
  | seg :: rest =>
      match classifySegment seg with
      | Some ci => ci :: segmentLoop hint (ci_runtime ci) rest
      | None =>
          match (if qeqb prevRuntime (qs "kubernetes") then rxBareHex64 seg else None) with
          | Some id =>
              let runtime := match hint with PreferCrio => qs "cri-o" | HintAuto => qs "containerd" end in
              hexInfo runtime id :: segmentLoop hint runtime rest
          | None => segmentLoop hint [] rest
          end
      end
  end.

(** [globalMatch] of ["/docker/([0-9a-f]{64})(?:/|$)"]: after a match the scan
    goes on behind it. *)
Fixpoint dockerLegacy (fuel : nat) (path : QString) : list ContainerInfo :=
  match fuel with
  | O => []
  | S fuel' =>
      let here :=
        match stripPrefix (qs "/docker/") path with
        | Some t => match takeHex64 t with
                    | Some (id, 47%Z :: rest) => Some (id, rest)
                    | Some (id, rest) => if atEnd rest then Some (id, rest) else None
                    | None => None
                    end
        | None => None
        end in
      match here with
      | Some (id, rest) => hexInfo (qs "docker") id :: dockerLegacy fuel' rest
      | None => match path with [] => [] | _ :: r => dockerLegacy fuel' r end
      end
  end.

(** [[./]([^/\s]+)] at the front. *)
Definition lxcName (s : QString) : option QString :=
  match s with
  | c :: r => if (c =? 46)%Z || (c =? 47)%Z then
                let name := fst (span (fun x => negb ((x =? 47)%Z || reSpace x)) r) in
                if isEmpty name then None else Some name
              else None
  | [] => None
  end.

(** ["/lxc(?:\.payload)?[./]([^/\s]+)"], leftmost. *)
Fixpoint rxLxc (path : QString) : option QString :=
  let here :=
    match stripPrefix (qs "/lxc") path with
    | Some t =>
        match match stripPrefix (qs ".payload") t with Some u => lxcName u | None => None end with
        | Some n => Some n
        | None => lxcName t
        end
    | None => None
    end in
  match here with
  | Some n => Some n
  | None => match path with [] => None | _ :: r => rxLxc r end
  end.

(** ["^([A-Za-z0-9@_.\-]+\.(?:service|socket|mount))$"] *)
Definition rxSystemdUnit (seg : QString) : option QString :=
  let u := chopNewline seg in
  let ends suf := match stripSuffix suf u with Some p => negb (isEmpty p) | None => false end in
  if allb unitChar u && (ends (qs ".service") || ends (qs ".socket") || ends (qs ".mount")) then Some u else None.

Fixpoint firstUnit (segs : list QString) : list ContainerInfo :=
  match segs with
  | [] => []
  | s :: rest => match rxSystemdUnit s with
                 | Some u => [namedInfo (qs "systemd") (qs "unit:" ++ u)]
                 | None => firstUnit rest
                 end
  end.

Definition orElse (a b : list ContainerInfo) : list ContainerInfo := if isEmpty a then b else a.

Definition capDepth (chain : list ContainerInfo) : list ContainerInfo := drop (length chain - cgroupMaxChainDepth) chain.

Definition classifyPathChain (path : QString) (hint : CgroupHint) : list ContainerInfo :=
  if isEmpty path || qeqb path (qs "/") || qeqb path (qs "/init.scope") then []
  else
    let segments := splitSkipEmpty 47 path in
    let chain := segmentLoop hint [] segments in
    let chain := orElse chain (dockerLegacy (S (length path)) path) in
    let chain := orElse chain (match rxLxc path with Some n => [namedInfo (qs "lxc") n] | None => [] end) in
    let chain := orElse chain
      (if bool_decide (qs "user.slice" ∈ segments) then [] else firstUnit (reverse segments)) in
    capDepth chain.

Definition classifyPath (path : QString) (hint : CgroupHint) : option ContainerInfo := last (classifyPathChain path hint).
Definition classifyProcCgroupChain (contents : QString) (hint : CgroupHint) : list ContainerInfo :=
  classifyPathChain (extractPath contents) hint.
Definition classifyProcCgroup (contents : QString) (hint : CgroupHint) : option ContainerInfo :=
  classifyPath (extractPath contents) hint.

(* ------------------------------------------------------------------ *)
(** ** The caching classifier *)

Record CgroupEntry := mkCgEntry { ce_chain : list ContainerInfo; ce_ts : Z; ce_startTime : Z }.

Record CgroupClassifier := mkClassifier {
  cg_ready : bool;
  cg_crioPreferred : bool;
  cg_cache : gmap Z CgroupEntry;
  cg_cacheTtlMs : Z;
  cg_now : Z;                          (* m_clock.elapsed() *)
  cg_stat : Z -> option QString;       (* /proc/<pid>/stat *)
  cg_cgroup : Z -> option QString;     (* the first 4096 bytes of /proc/<pid>/cgroup *)
}.

Definition kCgCacheTtlMs : Z := 2000.
Definition kCgMinCacheTtlMs : Z := 100.
Definition kCacheMaxItems : Z := 8192.

Definition safeContainerTtlMs (raw defaultMs minMs : Z) : Z :=
  if (raw <=? 0)%Z then defaultMs else if (minMs <=? raw)%Z then raw else minMs.

Definition cg_setTuning (tuning : ResolverTuning) (c : CgroupClassifier) : CgroupClassifier :=
  mkClassifier (cg_ready c) (cg_crioPreferred c) (cg_cache c)
    (safeContainerTtlMs (containerCacheMs tuning) kCgCacheTtlMs kCgMinCacheTtlMs) (cg_now c) (cg_stat c) (cg_cgroup c).

(** [selfReadable]: /proc/self/cgroup opens; [crioSocket]: /run/crio/crio.sock exists. *)
Definition cg_initialize (selfReadable crioSocket : bool) (c : CgroupClassifier) : bool * CgroupClassifier :=
  if negb selfReadable then (false, c)
  else (true, mkClassifier true (cg_crioPreferred c || crioSocket) (cg_cache c) (cg_cacheTtlMs c) (cg_now c) (cg_stat c) (cg_cgroup c)).

Definition cg_capabilities (c : CgroupClassifier) : list QString :=
  if cg_ready c then [qs "container-attribution"; qs "container-chain"] else [].

Section Classifier.
Context `{QtToULongLong}.

Definition cg_resolveChain (pid : Z) (c : CgroupClassifier) : list ContainerInfo * CgroupClassifier :=
  if negb (cg_ready c) || (pid <=? 0)%Z then ([], c)
  else
    match pidStartTime (cg_stat c) pid with
    | None => ([], c)
    | Some stNow =>
        let cached :=
          match cg_cache c !! pid with
          | Some e => if (ce_startTime e =? stNow)%Z && (cg_now c - ce_ts e <? cg_cacheTtlMs c)%Z then Some (ce_chain e) else None
          | None => None
          end in
        match cached with
        | Some chain => (chain, c)
        | None =>
            let chain := match cg_cgroup c pid with
                         | Some data => classifyProcCgroupChain data (if cg_crioPreferred c then PreferCrio else HintAuto)
                         | None => []
                         end in
            let cache := if (kCacheMaxItems <=? Z.of_nat (size (cg_cache c)))%Z then ∅ else cg_cache c in
            (chain, mkClassifier (cg_ready c) (cg_crioPreferred c) (<[pid := mkCgEntry chain (cg_now c) stNow]> cache)
                      (cg_cacheTtlMs c) (cg_now c) (cg_stat c) (cg_cgroup c))
        end
    end.

Definition cg_resolveContainer (pid : Z) (c : CgroupClassifier) : option ContainerInfo * CgroupClassifier :=
  let '(chain, c) := cg_resolveChain pid c in (last chain, c).

Lemma cg_cache_bounded pid c :
  (Z.of_nat (size (cg_cache c)) <= kCacheMaxItems)%Z ->
  (Z.of_nat (size (cg_cache (snd (cg_resolveChain pid c)))) <= kCacheMaxItems)%Z.
Proof.
  intros Hc. unfold cg_resolveChain. destruct (_ || _); [done|]. destruct (pidStartTime _ _); [|done].
  destruct (match cg_cache c !! pid with Some _ => _ | None => _ end); [done|]. cbn [snd cg_cache].
  rewrite map_size_insert. destruct (_ <=? _)%Z eqn:Eb.
  - rewrite lookup_empty, map_size_empty. done.
  - destruct (cg_cache c !! pid); unfold id; blia.
Qed.
End Classifier.

(* ------------------------------------------------------------------ *)
(** ** Round trip: rendered container scopes *)

Definition hexId (id : QString) : Prop := length id = 64 /\ Forall (fun c => hexLower c = true) id.
Definition podUid (uid : QString) : Prop := 32 <= length uid <= 72 /\ Forall (fun c => podChar c = true) uid.

Inductive ScopeKind := ScContainerd | ScCrio | ScDocker | ScPodman | ScPodmanCgfs.

(** What a runtime puts into the path: a scope of its own, a Kubernetes pod
    with its container leaf, or a segment that says nothing. *)
Inductive PathItem :=
| PScope (k : ScopeKind) (id : QString)
| PPod (uid id : QString)
| PNeutral (seg : QString).

Definition kindPrefix (k : ScopeKind) : QString :=
  match k with
  | ScContainerd => qs "cri-containerd-" | ScCrio => qs "crio-" | ScDocker => qs "docker-"
  | ScPodman | ScPodmanCgfs => qs "libpod-"
  end.
Definition kindSuffix (k : ScopeKind) : QString := match k with ScPodmanCgfs => [] | _ => scope end.
Definition kindRuntime (k : ScopeKind) : QString :=
  match k with
  | ScContainerd => qs "containerd" | ScCrio => qs "cri-o" | ScDocker => qs "docker"
  | ScPodman | ScPodmanCgfs => qs "podman"
  end.
Definition criRuntime (hint : CgroupHint) : QString := match hint with PreferCrio => qs "cri-o" | HintAuto => qs "containerd" end.

Definition itemSegments (i : PathItem) : list QString :=
  match i with
  | PScope k id => [kindPrefix k ++ id ++ kindSuffix k]
  | PPod uid id => [qs "pod" ++ uid; id]
  | PNeutral seg => [seg]
  end.

Definition itemChain (hint : CgroupHint) (i : PathItem) : list ContainerInfo :=
  match i with
  | PScope k id => [hexInfo (kindRuntime k) id]
  | PPod uid id => [hexInfo (qs "kubernetes") uid; hexInfo (criRuntime hint) id]
  | PNeutral _ => []
  end.

(** A neutral segment is one that no pattern accepts. *)
Definition item_ok (i : PathItem) : Prop :=
  match i with
  | PScope _ id => hexId id
  | PPod uid id => podUid uid /\ hexId id
  | PNeutral seg => seg <> [] /\ 47%Z ∉ seg /\ 10%Z ∉ seg /\ classifySegment seg = None
  end.

Definition renderPath (items : list PathItem) : QString :=
  concat (map (fun seg => 47%Z :: seg) (concat (map itemSegments items))).

Lemma prefixb_app p t : prefixb p (p ++ t) = true.
Proof. apply prefixb_spec. by eexists. Qed.

Lemma stripPrefix_app p t : stripPrefix p (p ++ t) = Some t.
Proof. unfold stripPrefix. by rewrite prefixb_app, drop_app_length. Qed.

Lemma allb_Forall f s : allb f s = true <-> Forall (fun c => f c = true) s.
Proof. unfold allb. rewrite forallb_forall, Forall_forall. split; intros Hx c Hc; apply Hx; by apply list_elem_of_In. Qed.

Lemma takeHex64_app id t : hexId id -> takeHex64 (id ++ t) = Some (id, t).
Proof.
  intros [Hlen Hhex]. unfold takeHex64. rewrite <- Hlen, take_app_length, drop_app_length, Nat.eqb_refl.
  apply allb_Forall in Hhex as ->. done.
Qed.

Lemma rxHexScope_render pre post id : hexId id -> rxHexScope pre post (pre ++ id ++ post) = Some id.
Proof.
  intros Hid. unfold rxHexScope. rewrite stripPrefix_app, takeHex64_app by done.
  rewrite <- (app_nil_r post) at 2. by rewrite stripPrefix_app.
Qed.

Lemma rxHexScope_other pre pre' post rest : prefixb pre (pre' ++ rest) = false -> rxHexScope pre post (pre' ++ rest) = None.
Proof. intros Hp. unfold rxHexScope, stripPrefix. by rewrite Hp. Qed.

(** The podman pattern with [.scope] rejects the bare form. *)
Lemma rxHexScope_needs_suffix pre post id : post <> [] -> hexId id -> rxHexScope pre post (pre ++ id) = None.
Proof.
  intros Hpost Hid. unfold rxHexScope. rewrite stripPrefix_app.
  rewrite <- (app_nil_r id), takeHex64_app by done. unfold stripPrefix. by destruct post.
Qed.

Lemma classifySegment_scope k id :
  hexId id -> classifySegment (kindPrefix k ++ id ++ kindSuffix k) = Some (hexInfo (kindRuntime k) id).
Proof.
  intros Hid. unfold classifySegment. destruct k; cbn [kindPrefix kindSuffix kindRuntime firstMatch].
  - by rewrite rxHexScope_render.
  - rewrite (rxHexScope_other (qs "cri-containerd-") (qs "crio-")) by reflexivity. by rewrite rxHexScope_render.
  - do 2 (rewrite rxHexScope_other by reflexivity). by rewrite rxHexScope_render.
  - do 3 (rewrite rxHexScope_other by reflexivity). by rewrite rxHexScope_render.
  - do 3 (rewrite rxHexScope_other by reflexivity). rewrite app_nil_r, rxHexScope_needs_suffix by done.
    pose proof (rxHexScope_render (qs "libpod-") [] id Hid) as Hr. rewrite app_nil_r in Hr. by rewrite Hr.
Qed.

Lemma stripSuffix_one s : 10%Z ∉ s -> stripSuffix [10%Z] s = None.
Proof.
  intros Hn. unfold stripSuffix. destruct (prefixb (reverse [10%Z]) (reverse s)) eqn:Ep; [|done].
  apply prefixb_spec in Ep as [t Ht]. exfalso. apply Hn. apply elem_of_reverse. rewrite Ht. by left.
Qed.

Lemma class_no_newline f s : f 10%Z = false -> Forall (fun c => f c = true) s -> 10%Z ∉ s.
Proof. intros Hf Hs Hin. rewrite Forall_forall in Hs. specialize (Hs _ Hin). cbn in Hs. congruence. Qed.

Lemma classifySegment_pod uid : podUid uid -> classifySegment (qs "pod" ++ uid) = Some (hexInfo (qs "kubernetes") uid).
Proof.
  intros [Hlen Hch]. unfold classifySegment. cbn [firstMatch].
  do 5 (rewrite rxHexScope_other by reflexivity). cbn [fmap option_fmap option_map].
  change (rxLxd (qs "pod" ++ uid)) with (None : option QString).
  change (rxNamed (qs "machine-") scope (qs "pod" ++ uid)) with (None : option QString).
  change (rxNamed (qs "systemd-nspawn@") (qs ".service") (qs "pod" ++ uid)) with (None : option QString).
  cbn [fmap option_fmap option_map]. unfold rxKubepodsPodCgfs. rewrite stripPrefix_app. unfold chopNewline.
  rewrite stripSuffix_one by (by apply (class_no_newline podChar)).
  apply allb_Forall in Hch as ->. destruct Hlen as [Hl1 Hl2].
  apply Nat.leb_le in Hl1 as ->. by apply Nat.leb_le in Hl2 as ->.
Qed.

Lemma prefix_not_hex p s :
  forallb hexLower p = false -> Forall (fun c => hexLower c = true) s -> prefixb p s = false.
Proof.
  intros Hp Hs. destruct (prefixb p s) eqn:Ep; [|done]. apply prefixb_spec in Ep as [t ->].
  apply Forall_app in Hs as [Hs _]. apply allb_Forall in Hs. unfold allb in Hs. congruence.
Qed.

Lemma rxKubepodsPod_hex s : Forall (fun c => hexLower c = true) s -> rxKubepodsPod s = None.
Proof.
  induction s as [|c s IH]; intros Hs; [done|]. cbn [rxKubepodsPod]. unfold stripPrefix.
  rewrite prefix_not_hex by done. apply IH. by apply Forall_inv_tail in Hs.
Qed.

Lemma classifySegment_hex id : Forall (fun c => hexLower c = true) id -> classifySegment id = None.
Proof.
  intros Hs. unfold classifySegment. cbn [firstMatch].
  unfold rxHexScope at 1 2 3 4 5. unfold rxLxd, rxNamed, rxKubepodsPodCgfs, stripPrefix.
  rewrite !prefix_not_hex by done. cbn [fmap option_fmap option_map]. by rewrite rxKubepodsPod_hex.
Qed.

Lemma rxBareHex64_hex id : hexId id -> rxBareHex64 id = Some id.
Proof. intros Hid. pose proof (rxHexScope_render [] [] id Hid) as Hr. by rewrite app_nil_r in Hr. Qed.

(** The loop reads the items back, whatever came before them. *)
Lemma segmentLoop_items hint prev items :
  Forall item_ok items -> prev <> qs "kubernetes" ->
  segmentLoop hint prev (concat (map itemSegments items)) = concat (map (itemChain hint) items).
Proof.
  intros Hok. revert prev. induction Hok as [|i items Hi _ IH]; intros prev Hprev; [done|].
  cbn [map concat]. destruct i as [k id|uid id|seg]; cbn [itemSegments itemChain app segmentLoop].
  - rewrite classifySegment_scope by done. f_equal. apply IH. by destruct k.
  - destruct Hi as [Hu Hid]. rewrite classifySegment_pod by done. f_equal. cbn [segmentLoop].
    rewrite classifySegment_hex by apply Hid. cbn [ci_runtime hexInfo].
    change (qeqb (qs "kubernetes") (qs "kubernetes")) with true. cbv iota.
    rewrite rxBareHex64_hex by done. fold (criRuntime hint). f_equal. apply IH. by destruct hint.
  - destruct Hi as (_ & _ & _ & Hn). rewrite Hn. apply qeqb_neq in Hprev as ->. by apply IH.
Qed.

Definition seg_ok (seg : QString) : Prop := seg <> [] /\ 47%Z ∉ seg /\ 10%Z ∉ seg.

Lemma class_seg_ok f s :
  s <> [] -> f 47%Z = false -> f 10%Z = false -> Forall (fun c => f c = true) s -> seg_ok s.
Proof.
  intros Hne H47 H10 Hs. split; [done|]. rewrite Forall_forall in Hs.
  split; intros Hin; specialize (Hs _ Hin); cbn in Hs; congruence.
Qed.

Lemma item_segments_ok i : item_ok i -> Forall seg_ok (itemSegments i).
Proof.
  assert (Hex : forall id, hexId id -> seg_ok id).
  { intros id [Hl Hh]. apply (class_seg_ok hexLower); [by destruct id|done|done|done]. }
  assert (Happ : forall a b, Forall (fun c => c <> 47%Z /\ c <> 10%Z) a -> seg_ok b -> seg_ok (a ++ b)).
  { intros a b Ha (Hb & Hb1 & Hb2). rewrite Forall_forall in Ha. split_and!.
    - intros Hz. by apply app_eq_nil in Hz as [_ ?].
    - rewrite elem_of_app. intros [Hin|Hin]; [|done]. by apply Ha in Hin as [? _].
    - rewrite elem_of_app. intros [Hin|Hin]; [|done]. by apply Ha in Hin as [_ ?]. }
  assert (Hsuf : forall a k, seg_ok a -> seg_ok (a ++ kindSuffix k)).
  { intros a k (Ha & Ha1 & Ha2). split_and!; [intros Hz; by apply app_eq_nil in Hz as [? _]|..];
      rewrite elem_of_app; intros [Hin|Hin]; try done; destruct k; vm_compute in Hin;
      repeat (apply elem_of_cons in Hin as [Hin|Hin]; [discriminate|]); by apply not_elem_of_nil in Hin. }
  destruct i as [k id|uid id|seg]; cbn [item_ok itemSegments].
  - intros Hid. constructor; [|constructor]. apply Happ; [destruct k; repeat constructor; discriminate|]. by apply Hsuf, Hex.
  - intros [[Hl Hu] Hid]. constructor; [|constructor; [by apply Hex|constructor]].
    assert (Hne : uid <> []) by (intros ->; cbn [length] in Hl; lia).
    apply Happ; [repeat constructor; discriminate|]. by apply (class_seg_ok podChar).
  - intros (? & ? & ? & _). constructor; [done|constructor].
Qed.

Lemma qsplit_slash_segs segs :
  Forall seg_ok segs -> segs <> [] -> qsplit 47 (concat (map (fun seg => 47%Z :: seg) segs)) = [] :: segs.
Proof.
  intros Hok Hne.
  assert (Hjoin : concat (map (fun seg => 47%Z :: seg) segs) = qjoin [47%Z] ([] :: segs)).
  { clear Hok. induction segs as [|s segs IH]; [done|]. cbn [map concat]. destruct segs as [|s2 segs].
    - cbn. by rewrite app_nil_r.
    - rewrite IH by done. reflexivity. }
  rewrite Hjoin, qsplit_join; [done|done|]. constructor; [apply not_elem_of_nil|].
  eapply Forall_impl; [exact Hok|]. by intros s (_ & ? & _).
Qed.

Lemma filter_nonempty_segs segs :
  Forall seg_ok segs -> filter (fun p : QString => isEmpty p = false) ([] :: segs) = segs.
Proof.
  intros Hok. rewrite filter_cons, decide_False by done. induction Hok as [|s l [Hs _] _ IH]; [done|].
  rewrite filter_cons, decide_True by (by apply isEmpty_false). by rewrite IH.
Qed.

Lemma render_segments items :
  Forall item_ok items -> concat (map itemSegments items) <> [] ->
  splitSkipEmpty 47 (renderPath items) = concat (map itemSegments items).
Proof.
  intros Hok Hne. assert (Hsegs : Forall seg_ok (concat (map itemSegments items))).
  { clear Hne. induction Hok as [|i l Hi _ IH]; cbn [map concat]; [constructor|]. apply Forall_app. split; [by apply item_segments_ok|done]. }
  unfold splitSkipEmpty, renderPath. rewrite qsplit_slash_segs by done. by apply filter_nonempty_segs.
Qed.

Lemma render_no_newline items : Forall item_ok items -> 10%Z ∉ renderPath items.
Proof.
  intros Hok Hin. unfold renderPath in Hin. apply list_elem_of_In, in_concat in Hin as (s & Hs & Hc).
  apply in_map_iff in Hs as (seg & <- & Hseg). apply in_concat in Hseg as (l & Hl & Hsl).
  apply in_map_iff in Hl as (i & <- & Hi). apply list_elem_of_In in Hi, Hsl, Hc.
  rewrite Forall_forall in Hok. specialize (Hok i Hi). apply item_segments_ok in Hok.
  rewrite Forall_forall in Hok. destruct (Hok seg Hsl) as (_ & _ & Hn). apply elem_of_cons in Hc as [?|?]; done.
Qed.

(** The unified (v2) line is the one taken. *)
Lemma extractPath_v2 path : 10%Z ∉ path -> extractPath (qs "0::" ++ path ++ [10%Z]) = path.
Proof.
  intros Hn. unfold extractPath, splitSkipEmpty.
  replace (qs "0::" ++ path ++ [10%Z]) with ((qs "0::" ++ path) ++ 10%Z :: []) by (by rewrite <- app_assoc).
  assert (Hn' : 10%Z ∉ qs "0::" ++ path).
  { rewrite elem_of_app. intros [Hin|Hin]; [|done]. vm_compute in Hin.
    repeat (apply elem_of_cons in Hin as [Hin|Hin]; [discriminate|]). by apply not_elem_of_nil in Hin. }
  rewrite qsplit_app by done. change (qsplit 10 []) with [@nil Z]. rewrite filter_cons, decide_True by done. reflexivity.
Qed.

(** Classifying what container runtimes write reads it back: for any
    nesting of docker, podman, containerd and CRI-O scopes and of Kubernetes
    pods with their container leaf, interleaved with segments no pattern
    knows and at most 16 levels deep, the chain of /proc/<pid>/cgroup is
    exactly the list of scopes, outermost first, with 12-character ids and
    the CRI runtime the host probe prefers. *)
Theorem cgroup_chain_roundtrip items hint :
  Forall item_ok items ->
  let chain := concat (map (itemChain hint) items) in
  chain <> [] -> length chain <= cgroupMaxChainDepth ->
  classifyProcCgroupChain (qs "0::" ++ renderPath items ++ [10%Z]) hint = chain /\
  classifyProcCgroup (qs "0::" ++ renderPath items ++ [10%Z]) hint = last chain.
Proof.
  intros Hok chain Hne Hlen.
  assert (Hloop : segmentLoop hint [] (concat (map itemSegments items)) = chain) by (by apply segmentLoop_items).
  assert (Hsegs : concat (map itemSegments items) <> []) by (intros Hz; rewrite Hz in Hloop; by apply Hne).
  assert (Hchain : classifyPathChain (renderPath items) hint = chain).
  { unfold classifyPathChain. pose proof (render_segments items Hok Hsegs) as Hsplit.
    destruct (isEmpty (renderPath items) || _ || _) eqn:Eroot.
    - exfalso. apply Hne. rewrite <- Hloop, <- Hsplit.
      apply orb_true_iff in Eroot as [[Er|Er]%orb_true_iff|Er]; [apply isEmpty_true in Er|apply qeqb_eq in Er..];
        rewrite Er; destruct hint; vm_compute; reflexivity.
    - cbv zeta. rewrite Hsplit, Hloop. unfold orElse.
      assert (isEmpty chain = false) as Hc by (by apply isEmpty_false). rewrite !Hc.
      unfold capDepth. by replace (length chain - cgroupMaxChainDepth) with 0 by lia. }
  unfold classifyProcCgroupChain, classifyProcCgroup, classifyPath.
  rewrite extractPath_v2 by (by apply render_no_newline). by rewrite Hchain.
Qed.

(** Behind the first match the rest starts without its slash, and no later
    position of it can match. *)
Lemma dockerLegacy_skip fuel c s :
  c <> 47%Z -> dockerLegacy (S fuel) (c :: s) = dockerLegacy fuel s.
Proof.
  intros Hc. cbn [dockerLegacy].
  assert (stripPrefix (qs "/docker/") (c :: s) = None) as ->; [|done].
  unfold stripPrefix. assert (prefixb (qs "/docker/") (c :: s) = false) as ->; [|done].
  destruct (prefixb _ _) eqn:Ep; [|done]. apply prefixb_spec in Ep as [t Ht]. by injection Ht as ->.
Qed.

Lemma dockerLegacy_hex fuel s : Forall (fun c => hexLower c = true) s -> dockerLegacy fuel s = [].
Proof.
  revert s. induction fuel as [|fuel IH]; intros s Hs; [done|]. destruct s as [|c s]; [done|].
  rewrite dockerLegacy_skip by (intros ->; by apply Forall_inv in Hs). apply IH. by apply Forall_inv_tail in Hs.
Qed.

Lemma dockerLegacy_nested outer inner fuel :
  hexId outer -> hexId inner -> 8 < fuel ->
  dockerLegacy fuel (qs "/docker/" ++ outer ++ qs "/docker/" ++ inner) = [hexInfo (qs "docker") outer].
Proof.
  intros Ho Hi Hf. destruct fuel as [|fuel]; [lia|]. cbn [dockerLegacy]. rewrite stripPrefix_app, takeHex64_app by done.
  change (qs "/docker/" ++ inner) with (47 :: 100 :: 111 :: 99 :: 107 :: 101 :: 114 :: 47 :: inner)%Z. cbv iota. f_equal.
  do 6 (destruct fuel as [|fuel]; [lia|]; rewrite dockerLegacy_skip by discriminate).
  destruct fuel as [|fuel]; [lia|]. cbn [dockerLegacy].
  assert (stripPrefix (qs "/docker/") (47%Z :: inner) = None) as ->.
  { unfold stripPrefix. change (prefixb (qs "/docker/") (47%Z :: inner)) with (prefixb (qs "docker/") inner).
    by rewrite prefix_not_hex by (done || apply Hi). }
  apply dockerLegacy_hex, Hi.
Qed.

(** A container inside a container under the cgroupfs driver is
    attributed to the outer one: of the path /docker/<outer>/docker/<inner>
    only the outer id is found, because the pattern consumes the slash the
    next match would start with. *)
Theorem docker_in_docker_lost outer inner hint :
  hexId outer -> hexId inner ->
  let path := qs "/docker/" ++ outer ++ qs "/docker/" ++ inner in
  classifyPathChain path hint = [hexInfo (qs "docker") outer] /\
  classifyPath path hint = Some (hexInfo (qs "docker") outer).
Proof.
  intros Ho Hi path.
  assert (Hchain : classifyPathChain path hint = [hexInfo (qs "docker") outer]); [|unfold classifyPath; by rewrite Hchain].
  assert (Hseg : forall id, hexId id -> seg_ok id)
    by (intros id [Hl Hh]; apply (class_seg_ok hexLower); [by destruct id|done|done|done]).
  assert (Hsplit : splitSkipEmpty 47 path = [qs "docker"; outer; qs "docker"; inner]).
  { unfold splitSkipEmpty. replace path with (concat (map (fun s => 47%Z :: s) [qs "docker"; outer; qs "docker"; inner])).
    - assert (Hd : seg_ok (qs "docker")).
      { apply (class_seg_ok unitChar); [done|done|done|]. apply allb_Forall. reflexivity. }
      assert (Hall : Forall seg_ok [qs "docker"; outer; qs "docker"; inner]).
      { apply Forall_cons; split; [done|]. apply Forall_cons; split; [by apply Hseg|].
        apply Forall_cons; split; [done|]. apply Forall_cons; split; [by apply Hseg|constructor]. }
      rewrite qsplit_slash_segs by done. by apply filter_nonempty_segs.
    - unfold path. cbn [map concat app]. by rewrite app_nil_r. }
  assert (Hdocker : classifySegment (qs "docker") = None) by reflexivity.
  unfold classifyPathChain. replace (isEmpty path || qeqb path (qs "/") || qeqb path (qs "/init.scope")) with false.
  - cbv zeta. rewrite Hsplit. cbn [segmentLoop]. rewrite Hdocker, !classifySegment_hex by (apply Ho || apply Hi).
    change (qeqb [] (qs "kubernetes")) with false. cbv iota.
    assert (Hleg : dockerLegacy (S (length path)) path = [hexInfo (qs "docker") outer]) by (apply dockerLegacy_nested; [done|done|unfold path; rewrite !length_app; cbn; lia]).
    by rewrite Hleg.
  - symmetry. rewrite !orb_false_iff. split_and!; [done|apply qeqb_neq; discriminate|apply qeqb_neq; discriminate].
Qed.

(* ------------------------------------------------------------------ *)
(** ** Witnesses *)

Definition sampleHex : QString := replicate 64 97%Z.

Lemma sampleHex_ok : hexId sampleHex.
Proof. split; [reflexivity|]. by apply Forall_replicate. Qed.

Definition samplePod : list PathItem :=
  [PNeutral (qs "system.slice"); PScope ScDocker sampleHex; PNeutral (qs "kubepods"); PPod (replicate 36 98%Z) sampleHex].

Lemma samplePod_ok : Forall item_ok samplePod.
Proof.
  assert (Hn : forall seg, seg <> [] -> bool_decide (47%Z ∉ seg) = true -> bool_decide (10%Z ∉ seg) = true ->
    classifySegment seg = None -> item_ok (PNeutral seg)).
  { intros seg ? H47 H10 ?. cbn. split_and!; [done|by apply bool_decide_eq_true in H47|by apply bool_decide_eq_true in H10|done]. }
  apply Forall_cons; split; [apply Hn; [discriminate|reflexivity..]|].
  apply Forall_cons; split; [exact sampleHex_ok|].
  apply Forall_cons; split; [apply Hn; [discriminate|reflexivity..]|].
  apply Forall_cons; split; [|constructor]. split; [|exact sampleHex_ok].
  split; [cbn; lia|by apply Forall_replicate].
Qed.

Lemma cgroup_chain_roundtrip_witness :
  ci_runtime <$> classifyProcCgroupChain (qs "0::" ++ renderPath samplePod ++ [10%Z]) PreferCrio
  = [qs "docker"; qs "kubernetes"; qs "cri-o"].
Proof.
  destruct (cgroup_chain_roundtrip samplePod PreferCrio samplePod_ok) as [Hc _].
  - discriminate.
  - apply Nat.leb_le. reflexivity.
  - rewrite Hc. reflexivity.
Defined.

Lemma docker_in_docker_lost_witness :
  classifyPath (qs "/docker/" ++ sampleHex ++ qs "/docker/" ++ replicate 64 98%Z) HintAuto
  = Some (hexInfo (qs "docker") sampleHex).
Proof.
  apply (docker_in_docker_lost sampleHex (replicate 64 98%Z) HintAuto); [exact sampleHex_ok|].
  split; [reflexivity|by apply Forall_replicate].
Defined.
