(* ===== verification/IfaceAgg.v ===== *)
(** * The interface table: [src/aggregate/InterfaceAggregator.{h,cpp}]

    Per-interface byte rates between two samples, rows sorted by name, and
    the signals that tell a view whether the row set changed. *)

From S2P Require Import Prelude StdAlgo Qt DbusTypes.

Record IfaceRow := mkIfaceRow { ir_current : InterfaceStats; ir_rxRate : double; ir_txRate : double }.

Record InterfaceAggregator := mkIfaceAgg {
  ia_rows : list IfaceRow;
  ia_prev : gmap QString InterfaceStats;
  ia_lastElapsedMs : Z;
}.

Inductive IfaceSignal := aboutToReset | didReset | rowsChanged (first last : Z).

Definition newIfaceAgg : InterfaceAggregator := mkIfaceAgg [] ∅ 0.

Definition byteRate (current previous : Z) (deltaSecs : double) : double :=
  if (previous <=? current)%Z then ddiv (dofZ (current - previous)) deltaSecs else dzero.

(** [QString::operator<]: code units, lexicographically. *)
Fixpoint qlt (a b : QString) : bool :=
  match a, b with
  | _, [] => false
  | [], _ :: _ => true
  | x :: a', y :: b' => (x <? y)%Z || ((x =? y)%Z && qlt a' b')
  end.

Definition byName (a b : InterfaceStats) : bool := qlt (if_name a) (if_name b).

Section Iface.
Context `{StdSort}.

Definition sortByName (stats : list InterfaceStats) : list InterfaceStats := partial_sort byName (length stats) stats.

Definition structureChanged (stats : list InterfaceStats) (rows : list IfaceRow) : bool :=
  negb (length stats =? length rows)
  || existsb (fun sr : InterfaceStats * IfaceRow => negb (qeqb (if_name (fst sr)) (if_name (ir_current (snd sr)))))
       (combine stats rows).

(** The row of [s], rates against the previous sample if there is one. *)
Definition rateRow (prev : gmap QString InterfaceStats) (deltaSecs rx0 tx0 : double) (s : InterfaceStats) : IfaceRow :=
  match prev !! if_name s with
  | Some p => mkIfaceRow s (byteRate (if_rxBytes s) (if_rxBytes p) deltaSecs) (byteRate (if_txBytes s) (if_txBytes p) deltaSecs)
  | None => mkIfaceRow s rx0 tx0
  end.

Definition indexByName (stats : list InterfaceStats) : gmap QString InterfaceStats :=
  foldl (fun m s => <[if_name s := s]> m) ∅ stats.

Definition updateStats (nowMs : Z) (stats : list InterfaceStats) (a : InterfaceAggregator)
    : InterfaceAggregator * list IfaceSignal :=
  let deltaMs := (nowMs - ia_lastElapsedMs a)%Z in
  let deltaSecs := if (0 <? deltaMs)%Z then ddiv (dofZ deltaMs) (dofZ 1000) else dofZ 1 in
  let stats := sortByName stats in
  let '(rows, sigs) :=
    if structureChanged stats (ia_rows a)
    then (rateRow (ia_prev a) deltaSecs dzero dzero <$> stats, [aboutToReset; didReset])
    else (zip_with (fun s r => rateRow (ia_prev a) deltaSecs (ir_rxRate r) (ir_txRate r) s) stats (ia_rows a),
          if isEmpty (ia_rows a) then [] else [rowsChanged 0 (Z.of_nat (length (ia_rows a)) - 1)]) in
  (mkIfaceAgg rows (indexByName stats) nowMs, sigs).
End Iface.

(* ------------------------------------------------------------------ *)
(** ** Correctness *)

Lemma qlt_irrefl a : qlt a a = false.
Proof. induction a as [|x a IH]; [done|]. simpl. by rewrite Z.ltb_irrefl, Z.eqb_refl, IH. Qed.

Lemma qlt_trans a b c : qlt a b = true -> qlt b c = true -> qlt a c = true.
Proof.
  revert b c. induction a as [|x a IH]; intros [|y b] [|z c]; simpl; try done.
  rewrite !orb_true_iff, !andb_true_iff, !Z.ltb_lt, !Z.eqb_eq.
  intros [?|[-> ?]] [?|[-> ?]]; [left; lia|by left|by left|right; split; [done|by eapply IH]].
Qed.

Lemma qlt_total a b : a = b \/ qlt a b = true \/ qlt b a = true.
Proof.
  revert b. induction a as [|x a IH]; intros [|y b]; simpl; auto.
  destruct (Z.lt_trichotomy x y) as [Hlt|[->|Hgt]].
  - right; left. by apply Z.ltb_lt in Hlt as ->.
  - rewrite Z.ltb_irrefl, Z.eqb_refl. simpl. destruct (IH b) as [->|[?|?]]; auto.
  - right; right. by apply Z.ltb_lt in Hgt as ->.
Qed.

Lemma swo_qlt {A} (f : A -> QString) : swo (fun a b => qlt (f a) (f b)).
Proof.
  split.
  - intros x. apply qlt_irrefl.
  - intros x y z. apply qlt_trans.
  - intros x y z Hxy. destruct (qlt_total (f x) (f z)) as [Heq|[?|Hzx]]; [right; by rewrite <- Heq|by left|].
    right. by eapply qlt_trans.
Qed.

Lemma byName_swo : swo byName.
Proof. apply swo_qlt. Qed.

Section IfaceProofs.
Context `{StdSortLaws}.

(** The rows hold the last sample, and it is what rates are computed from. *)
Definition iface_ok (a : InterfaceAggregator) : Prop := ia_prev a = indexByName (ir_current <$> ia_rows a).

Lemma indexByName_dom stats s : s ∈ stats -> is_Some (indexByName stats !! if_name s).
Proof.
  unfold indexByName. induction stats as [|x l IH] using rev_ind; [by intros ?%not_elem_of_nil|].
  rewrite foldl_app. cbn [foldl]. intros [Hs| ->%list_elem_of_singleton]%elem_of_app; [|rewrite lookup_insert_eq; by eexists].
  destruct (decide (if_name x = if_name s)) as [->|Hne]; [rewrite lookup_insert_eq; by eexists|].
  rewrite lookup_insert_ne by done. by apply IH.
Qed.

Lemma structureChanged_names stats rows :
  structureChanged stats rows = false <-> if_name <$> stats = (if_name ∘ ir_current) <$> rows.
Proof.
  unfold structureChanged. rewrite orb_false_iff, negb_false_iff, Nat.eqb_eq.
  revert rows. induction stats as [|s stats IH]; intros rows; destruct rows as [|r rows].
  - by split.
  - split; [by intros [? _]|done].
  - split; [by intros [? _]|done].
  - cbn. rewrite orb_false_iff, negb_false_iff, qeqb_eq. specialize (IH rows). split.
    + intros (Hl & Hn & Hx). f_equal; [done|]. apply IH. split; [lia|done].
    + intros Hc. injection Hc as Hn Hr. apply IH in Hr as [Hl Hx]. split; [lia|done].
Qed.

Lemma rateRow_current prev d rx0 tx0 s : ir_current (rateRow prev d rx0 tx0 s) = s.
Proof. unfold rateRow. by destruct (prev !! if_name s). Qed.

(** After a sample the interface table holds each sampled interface once,
    sorted by name, with its rate against the previous sample of the same
    name (0 when there is none or a counter went back); a reset is announced
    exactly when the list of names changed, and otherwise the whole table is
    announced as updated. *)
Theorem updateStats_exact nowMs stats a :
  iface_ok a ->
  let '(a', sigs) := updateStats nowMs stats a in
  let deltaMs := (nowMs - ia_lastElapsedMs a)%Z in
  let deltaSecs := if (0 <? deltaMs)%Z then ddiv (dofZ deltaMs) (dofZ 1000) else dofZ 1 in
  iface_ok a' /\
  (ir_current <$> ia_rows a') ≡ₚ stats /\
  (forall i j x y, i < j -> ia_rows a' !! i = Some x -> ia_rows a' !! j = Some y ->
     qlt (if_name (ir_current y)) (if_name (ir_current x)) = false) /\
  Forall (fun r => r = rateRow (ia_prev a) deltaSecs dzero dzero (ir_current r)) (ia_rows a') /\
  (sigs = [aboutToReset; didReset] <->
     (if_name ∘ ir_current) <$> ia_rows a' <> (if_name ∘ ir_current) <$> ia_rows a) /\
  ((if_name ∘ ir_current) <$> ia_rows a' = (if_name ∘ ir_current) <$> ia_rows a -> ia_rows a <> [] ->
     sigs = [rowsChanged 0 (Z.of_nat (length (ia_rows a)) - 1)]).
Proof.
  intros Hok. unfold updateStats. set (deltaSecs := if (0 <? nowMs - ia_lastElapsedMs a)%Z then _ else _).
  set (sorted := sortByName stats).
  assert (Hrows : exists sigs,
    (if structureChanged sorted (ia_rows a)
     then (rateRow (ia_prev a) deltaSecs dzero dzero <$> sorted, [aboutToReset; didReset])
     else (zip_with (fun s r => rateRow (ia_prev a) deltaSecs (ir_rxRate r) (ir_txRate r) s) sorted (ia_rows a),
           if isEmpty (ia_rows a) then [] else [rowsChanged 0 (Z.of_nat (length (ia_rows a)) - 1)]))
    = (rateRow (ia_prev a) deltaSecs dzero dzero <$> sorted, sigs) /\
    sigs = (if structureChanged sorted (ia_rows a) then [aboutToReset; didReset]
            else if isEmpty (ia_rows a) then [] else [rowsChanged 0 (Z.of_nat (length (ia_rows a)) - 1)])).
  { destruct (structureChanged sorted (ia_rows a)) eqn:Es; [by eexists|]. eexists. split; [|done]. f_equal.
    apply structureChanged_names in Es.
    assert (Hin : forall s, s ∈ sorted -> is_Some (ia_prev a !! if_name s)).
    { intros s Hs. apply (list_elem_of_fmap_2 if_name) in Hs. rewrite Es in Hs.
      apply list_elem_of_fmap in Hs as (r & Hn & Hr). rewrite Hn, Hok. cbn.
      apply indexByName_dom. by apply list_elem_of_fmap_2. }
    assert (Hlen : length sorted = length (ia_rows a)) by (apply (f_equal length) in Es; by rewrite !length_fmap in Es).
    revert Hin Hlen. generalize (ia_rows a). clear Es. induction sorted as [|s l IH]; intros [|r rows] Hin Hlen; try done.
    cbn. rewrite (IH rows); [|intros x Hx; apply Hin; by right|by injection Hlen]. f_equal.
    unfold rateRow. destruct (Hin s) as [p ->]; [left|done]. }
  destruct Hrows as (sigs & -> & Hsigs). cbn [ia_rows ia_prev].
  assert (Hcur : ir_current <$> (rateRow (ia_prev a) deltaSecs dzero dzero <$> sorted) = sorted).
  { rewrite <- list_fmap_compose. rewrite <- (list_fmap_id sorted) at 2. apply list_fmap_ext. intros ? s _. apply rateRow_current. }
  assert (Hnames : (if_name ∘ ir_current) <$> (rateRow (ia_prev a) deltaSecs dzero dzero <$> sorted) = if_name <$> sorted)
    by (rewrite (list_fmap_compose ir_current if_name); by rewrite Hcur).
  split_and!.
  - unfold iface_ok. cbn [ia_prev ia_rows]. by rewrite Hcur.
  - rewrite Hcur. apply partial_sort_perm, byName_swo.
  - intros i j x y Hij Hx Hy.
    apply (f_equal (fmap ir_current)) in Hx, Hy. rewrite <- list_lookup_fmap, Hcur in Hx, Hy. cbn in Hx, Hy.
    eapply (partial_sort_sorted byName (length stats) stats i j); [apply byName_swo| |done|done|done].
    apply lookup_lt_Some in Hy. unfold sorted, sortByName in Hy. rewrite partial_sort_length in Hy by apply byName_swo. lia.
  - apply Forall_fmap, Forall_true. intros s. cbn. by rewrite rateRow_current.
  - rewrite Hnames, Hsigs. rewrite <- structureChanged_names. destruct (structureChanged sorted (ia_rows a)); [done|].
    split; [|done]. by destruct (isEmpty (ia_rows a)).
  - rewrite Hnames, <- structureChanged_names, Hsigs. intros -> Hne. by apply isEmpty_false in Hne as ->.
Qed.
End IfaceProofs.

Definition sampleIface (name : string) (rx : Z) : InterfaceStats :=
  mkInterfaceStats (qs name) [] 1500 [] rx 0 0 0 true false 1 0 0 0 0 0.

Lemma updateStats_exact_witness :
  (ir_current <$> ia_rows (fst (updateStats 1000 [sampleIface "wlan0" 5; sampleIface "eth0" 7] newIfaceAgg)))
  ≡ₚ [sampleIface "wlan0" 5; sampleIface "eth0" 7].
Proof.
  pose proof (updateStats_exact 1000 [sampleIface "wlan0" 5; sampleIface "eth0" 7] newIfaceAgg eq_refl) as Hp.
  destruct (updateStats _ _ _) as [a' sigs]. exact (proj1 (proj2 Hp)).
Defined.
