(* ===== verification/Lru.v ===== *)
(** * [LruCache] of [src/backend/linux/ConntrackMonitor.cpp]

    A hash table whose entries point into a list of keys ordered by recency.
    [lru_refines] shows that it implements its specification, a list of pairs
    in order of recency cut at the capacity. *)

From S2P Require Import Prelude.

Record LruCache (K V : Type) `{Countable K} := mkLru {
  lru_maxEntries : nat;
  lru_recent : list K;
  lru_items : gmap K V;
}.
Arguments mkLru {K V _ _}. Arguments lru_maxEntries {K V _ _}. Arguments lru_recent {K V _ _}. Arguments lru_items {K V _ _}.

Section Lru.
Context {K V : Type} `{Countable K}.

Definition newLru (maxEntries : nat) : LruCache K V := mkLru maxEntries [] ∅.

(** [m_recent.splice(m_recent.begin(), m_recent, entry.recentIt)]. *)
Definition touch (k : K) (recent : list K) : list K := k :: filter (fun x => x <> k) recent.

Definition lru_find (k : K) (c : LruCache K V) : option V * LruCache K V :=
  match lru_items c !! k with
  | None => (None, c)
  | Some v => (Some v, mkLru (lru_maxEntries c) (touch k (lru_recent c)) (lru_items c))
  end.

Definition evictLeastRecent (c : LruCache K V) : LruCache K V :=
  match last (lru_recent c) with
  | None => c
  | Some k => mkLru (lru_maxEntries c) (removelast (lru_recent c)) (delete k (lru_items c))
  end.

Definition lru_insert (k : K) (v : V) (c : LruCache K V) : LruCache K V :=
  match lru_items c !! k with
  | Some _ => mkLru (lru_maxEntries c) (touch k (lru_recent c)) (<[k := v]> (lru_items c))
  | None =>
      if (lru_maxEntries c =? 0)%nat then c
      else
        let c := mkLru (lru_maxEntries c) (k :: lru_recent c) (<[k := v]> (lru_items c)) in
        if (lru_maxEntries c <? size (lru_items c))%nat then evictLeastRecent c else c
  end.

(* ------------------------------------------------------------------ *)
(** ** The specification *)

Definition specFind (k : K) (l : list (K * V)) : option V * list (K * V) :=
  match list_find (fun e => e.1 = k) l with
  | None => (None, l)
  | Some (_, e) => (Some e.2, e :: filter (fun e => e.1 <> k) l)
  end.
Definition specInsert (cap : nat) (k : K) (v : V) (l : list (K * V)) : list (K * V) :=
  take cap ((k, v) :: filter (fun e => e.1 <> k) l).

(** The list of keys holds exactly the keys of the table, once each, within
    the capacity. *)
Record lru_ok (c : LruCache K V) : Prop := {
  lo_nodup : NoDup (lru_recent c);
  lo_keys : forall k, k ∈ lru_recent c <-> is_Some (lru_items c !! k);
  lo_cap : length (lru_recent c) <= lru_maxEntries c;
}.

Definition pairOf (items : gmap K V) (k : K) : option (K * V) := (fun v => (k, v)) <$> items !! k.
Definition lruAbs (c : LruCache K V) : list (K * V) := omap (pairOf (lru_items c)) (lru_recent c).

Lemma newLru_ok n : lru_ok (newLru n).
Proof. split; cbn; [apply NoDup_nil_2| |lia]. intros k. rewrite lookup_empty. split; [by intros ?%not_elem_of_nil|by intros []]. Qed.

Lemma lru_size c : lru_ok c -> size (lru_items c) = length (lru_recent c).
Proof.
  intros [Hn Hk _]. rewrite <- size_dom. rewrite <- (size_list_to_set (C := gset K) (lru_recent c)) by done. f_equal.
  apply set_eq. intros k. rewrite elem_of_dom, elem_of_list_to_set. by rewrite Hk.
Qed.

Lemma touch_perm k recent : NoDup recent -> k ∈ recent -> touch k recent ≡ₚ recent.
Proof.
  intros Hn Hk. apply NoDup_Permutation; [|done|].
  - apply NoDup_cons. split; [|by apply NoDup_filter]. rewrite list_elem_of_filter. by intros [? _].
  - intros x. unfold touch. rewrite elem_of_cons, list_elem_of_filter. destruct (decide (x = k)); naive_solver.
Qed.

Lemma lruAbs_elem c k v : lru_ok c -> (k, v) ∈ lruAbs c <-> lru_items c !! k = Some v.
Proof.
  intros [Hn Hk _]. unfold lruAbs, pairOf. rewrite list_elem_of_omap. split.
  - intros (x & _ & Hx). destruct (lru_items c !! x) eqn:E; [|done]. cbn in Hx. by simplify_eq.
  - intros Hl. exists k. split; [apply Hk; by eexists|]. by rewrite Hl.
Qed.

Lemma filter_omap (items : gmap K V) (k : K) (l : list K) :
  filter (fun e => e.1 <> k) (omap (pairOf items) l) = omap (pairOf items) (filter (fun x => x <> k) l).
Proof.
  induction l as [|x l IH]; [done|]. rewrite (filter_cons _ x l). cbn [omap list_omap]. unfold pairOf at 1.
  destruct (items !! x) as [v|] eqn:Ex; cbn [fmap option_fmap option_map].
  - rewrite filter_cons. cbn [fst]. case_decide as Hd; [|done]. cbn [omap list_omap]. unfold pairOf at 2. rewrite Ex. cbn. by f_equal.
  - case_decide; [|done]. cbn [omap list_omap]. unfold pairOf at 2. by rewrite Ex.
Qed.

Lemma pairOf_insert (items : gmap K V) k v (l : list K) :
  k ∉ l -> omap (pairOf (<[k := v]> items)) l = omap (pairOf items) l.
Proof.
  induction l as [|x l IH]; [done|]. intros Hk. cbn [omap list_omap].
  assert (Hx : pairOf (<[k := v]> items) x = pairOf items x) by (unfold pairOf; rewrite lookup_insert_ne by set_solver; done).
  rewrite Hx, IH by set_solver. done.
Qed.

Lemma pairOf_delete (items : gmap K V) k (l : list K) : k ∉ l -> omap (pairOf (delete k items)) l = omap (pairOf items) l.
Proof.
  induction l as [|x l IH]; [done|]. intros Hk. cbn [omap list_omap].
  assert (Hx : pairOf (delete k items) x = pairOf items x) by (unfold pairOf; rewrite lookup_delete_ne by set_solver; done).
  rewrite Hx, IH by set_solver. done.
Qed.

Lemma lruAbs_length c : lru_ok c -> length (lruAbs c) = length (lru_recent c).
Proof.
  intros [_ Hk _]. unfold lruAbs. assert (Hall : Forall (fun k => is_Some (lru_items c !! k)) (lru_recent c)).
  { apply Forall_forall. intros k. apply Hk. } clear Hk.
  induction Hall as [|x l [v Hx] _ IH]; [done|]. cbn [omap list_omap]. unfold pairOf at 1. rewrite Hx. cbn. f_equal. exact IH.
Qed.

Lemma not_in_rest k (l : list K) : k ∉ filter (fun x => x <> k) l.
Proof. rewrite list_elem_of_filter. by intros [? _]. Qed.

(** A present key: its new pair goes to the front. *)
Lemma touch_abs c k v :
  lru_ok c -> is_Some (lru_items c !! k) ->
  let c' := mkLru (lru_maxEntries c) (touch k (lru_recent c)) (<[k := v]> (lru_items c)) in
  lru_ok c' /\ lruAbs c' = (k, v) :: filter (fun e => e.1 <> k) (lruAbs c).
Proof.
  intros Hok Hk c'. destruct Hok as [Hn Hd Hc]. pose proof (proj2 (Hd k) Hk) as Hin.
  pose proof (touch_perm k (lru_recent c) Hn Hin) as Hp. split.
  - split; cbn [c' lru_recent lru_items lru_maxEntries].
    + by rewrite Hp.
    + intros x. rewrite Hp, Hd, lookup_insert_is_Some. destruct (decide (k = x)); naive_solver.
    + by rewrite Hp.
  - unfold lruAbs, c'. cbn [lru_recent lru_items]. unfold touch. cbn [omap list_omap]. unfold pairOf at 1.
    rewrite lookup_insert_eq. cbn [fmap option_fmap option_map]. rewrite filter_omap.
    f_equal. apply pairOf_insert, not_in_rest.
Qed.

Lemma find_present c k v :
  lru_ok c -> lru_items c !! k = Some v -> exists i, list_find (fun e => e.1 = k) (lruAbs c) = Some (i, (k, v)).
Proof.
  intros Hok Hl. destruct (list_find (fun e => e.1 = k) (lruAbs c)) as [[i [k' v']]|] eqn:Ef.
  - apply list_find_Some in Ef as (Hi & Hk' & _). cbn in Hk'. subst k'. exists i. do 3 f_equal.
    apply list_elem_of_lookup_2, lruAbs_elem in Hi; [|done]. congruence.
  - exfalso. apply list_find_None in Ef. rewrite Forall_forall in Ef. apply (Ef (k, v)); [by apply lruAbs_elem|done].
Qed.

Lemma find_absent c k : lru_ok c -> lru_items c !! k = None -> list_find (fun e => e.1 = k) (lruAbs c) = None.
Proof.
  intros Hok Hl. apply list_find_None, Forall_forall. intros [k' v'] Hin Hk. cbn in Hk. subst k'.
  apply lruAbs_elem in Hin; [congruence|done].
Qed.

Lemma filter_absent c k : lru_ok c -> lru_items c !! k = None -> filter (fun e => e.1 <> k) (lruAbs c) = lruAbs c.
Proof.
  intros Hok Hl. apply filter_all, Forall_forall. intros [k' v'] Hi. cbn. intros ->.
  apply lruAbs_elem in Hi; [congruence|done].
Qed.

(** The front of a full list, for a new key. *)
Lemma insert_new_abs c k v :
  lru_ok c -> lru_items c !! k = None -> lru_maxEntries c <> 0 ->
  lru_ok (lru_insert k v c) /\ lruAbs (lru_insert k v c) = take (lru_maxEntries c) ((k, v) :: lruAbs c).
Proof.
  intros Hok Hl Hm. pose proof (lruAbs_length c Hok) as Hlen. pose proof (lru_size c Hok) as Hsz.
  destruct Hok as [Hn Hd Hc]. assert (Hnin : k ∉ lru_recent c) by (rewrite Hd, Hl; by intros []).
  unfold lru_insert. rewrite Hl. destruct (lru_maxEntries c =? 0)%nat eqn:E0; [apply Nat.eqb_eq in E0; lia|].
  cbn [lru_maxEntries lru_items]. rewrite map_size_insert, Hl.
  assert (Habs : omap (pairOf (<[k := v]> (lru_items c))) (k :: lru_recent c) = (k, v) :: lruAbs c).
  { cbn [omap list_omap]. unfold pairOf at 1. rewrite lookup_insert_eq. cbn. f_equal. by apply pairOf_insert. }
  assert (Hn' : NoDup (k :: lru_recent c)) by (by apply NoDup_cons).
  assert (Hd' : forall x, x ∈ k :: lru_recent c <-> is_Some (<[k := v]> (lru_items c) !! x)).
  { intros x. rewrite elem_of_cons, Hd, lookup_insert_is_Some. destruct (decide (k = x)); naive_solver. }
  destruct (lru_maxEntries c <? S (size (lru_items c)))%nat eqn:Efull.
  - apply Nat.ltb_lt in Efull. assert (Heq : length (lru_recent c) = lru_maxEntries c) by lia.
    unfold evictLeastRecent. cbn [lru_recent]. destruct (exists_last (l := k :: lru_recent c)) as (r & z & Hr); [done|].
    rewrite Hr in *. rewrite last_snoc, removelast_last. cbn [lru_maxEntries lru_items].
    apply NoDup_app in Hn' as (Hnr & Hz & _).
    assert (Hzr : z ∉ r) by (intros Hx; apply (Hz z Hx); by left).
    assert (Hlr : length r = lru_maxEntries c) by (apply (f_equal length) in Hr; rewrite length_app in Hr; simpl in Hr; lia).
    split; [split; cbn [lru_recent lru_items lru_maxEntries]|].
    + done.
    + intros x. rewrite lookup_delete_is_Some, <- Hd', elem_of_app, list_elem_of_singleton. split; [|naive_solver].
      intros Hx. split; [by intros ->|by left].
    + lia.
    + unfold lruAbs at 1. cbn [lru_recent lru_items]. rewrite pairOf_delete by done. rewrite <- Habs, omap_app.
      assert (Hall : length (omap (pairOf (<[k := v]> (lru_items c))) r) = lru_maxEntries c).
      { rewrite <- Hlr. rewrite omap_app in Habs. apply (f_equal length) in Habs. rewrite length_app in Habs.
        pose proof (length_omap_le (pairOf (<[k := v]> (lru_items c))) r). 
        pose proof (length_omap_le (pairOf (<[k := v]> (lru_items c))) [z]). simpl in *. lia. }
      by rewrite take_app_length'.
  - apply Nat.ltb_ge in Efull. split; [split; [done|done|cbn; lia]|]. unfold lruAbs at 1. cbn [lru_recent lru_items].
    rewrite Habs. rewrite take_ge; [done|]. simpl. lia.
Qed.

(** The cache implements its specification: looking a key up returns the
    value last stored for it and moves it to the front, storing puts the pair
    at the front and drops the least recent one when the capacity is
    exceeded; list and table stay in step. *)
Theorem lru_refines c k v :
  lru_ok c ->
  (lru_ok (snd (lru_find k c)) /\ specFind k (lruAbs c) = (fst (lru_find k c), lruAbs (snd (lru_find k c)))) /\
  (lru_ok (lru_insert k v c) /\ lruAbs (lru_insert k v c) = specInsert (lru_maxEntries c) k v (lruAbs c)).
Proof.
  intros Hok. split.
  - unfold lru_find, specFind. destruct (lru_items c !! k) as [w|] eqn:Ek; cbn [fst snd].
    + destruct (find_present c k w Hok Ek) as [i ->]. destruct (touch_abs c k w Hok) as [Ho Ha]; [by eexists|].
      rewrite insert_id in Ho, Ha by done. split; [done|]. by rewrite Ha.
    + rewrite find_absent by done. done.
  - unfold specInsert. destruct (lru_items c !! k) as [w|] eqn:Ek.
    + unfold lru_insert. rewrite Ek. destruct (touch_abs c k v Hok) as [Ho Ha]; [by eexists|]. split; [done|].
      rewrite Ha. rewrite take_ge; [done|]. rewrite <- Ha, lruAbs_length by done. by destruct Ho.
    + rewrite filter_absent by done. destruct (decide (lru_maxEntries c = 0)) as [E0|E0].
      * unfold lru_insert. rewrite Ek, E0. cbn [Nat.eqb take]. split; [done|].
        apply length_zero_iff_nil. rewrite lruAbs_length by done. destruct Hok. lia.
      * by apply insert_new_abs.
Qed.
End Lru.

(** A cache of two: storing a third pair drops the least recently used. *)
Definition sampleLru : LruCache Z Z := lru_insert 2%Z 20%Z (lru_insert 1%Z 10%Z (newLru 2)).

Lemma lru_refines_witness : lruAbs (lru_insert 3%Z 30%Z (snd (lru_find 1%Z sampleLru))) = [(3, 30); (1, 10)]%Z.
Proof.
  destruct (lru_refines (snd (lru_find 1%Z sampleLru)) 3%Z 30%Z) as [_ [_ H]].
  - destruct (lru_refines sampleLru 1%Z 0%Z) as [[H _] _]; [|exact H].
    destruct (lru_refines (lru_insert 1%Z 10%Z (newLru 2)) 2%Z 20%Z) as [_ [H _]]; [|exact H].
    destruct (lru_refines (newLru (K := Z) (V := Z) 2) 1%Z 10%Z) as [_ [H _]]; [apply newLru_ok|exact H].
  - rewrite H. vm_compute. reflexivity.
Defined.
