(* ===== verification/Netns.v ===== *)
(** * The namespace scanner: [src/backend/linux/NetnsScanner.{h,cpp}]

    Sockets of containers live in network namespaces of their own.  A worker
    thread groups the processes of /proc by namespace, enters each foreign
    namespace in turn, dumps its sockets, maps them to the processes of the
    group, returns to its anchor namespace and publishes the merged tables;
    the resolver's look-ups read only what was published.

    The namespace a thread is in is part of the state, and a dump answers for
    the namespace of the thread that asks: "the right namespace was dumped" is
    a theorem.  What the kernel shows during one tick is a [NetnsWorld]; a
    failed return to the anchor aborts the process ([qFatal]), here [None]. *)

From S2P Require Import Prelude Qt Conn Resolver ProcParse SockDump SockDiag.

(** [QString::fromUtf8]. *)
Class QtUtf8 := fromUtf8 : QByteArray -> QString.

Definition kRefreshIntervalMs : Z := 5000.
Definition kMinRefreshIntervalMs : Z := 250.
Definition kMaxNetnsesPerTick : Z := 256.

Definition safeRefreshIntervalMs (raw : Z) : Z :=
  if (raw <=? 0)%Z then kRefreshIntervalMs
  else if (kMinRefreshIntervalMs <=? raw)%Z then raw else kMinRefreshIntervalMs.

Record NetnsWorld := mkNsWorld {
  nw_proc : option (list QString);                       (* opendir("/proc"), entry names *)
  nw_netns : Z -> option Z;                              (* readNetnsInode(pid) during the walk *)
  nw_stat : Z -> option QString;                         (* /proc/<pid>/stat during the walk *)
  nw_open : Z -> option (option Z);                      (* open of /proc/<pid>/ns/net, its fstat *)
  nw_enter : Z -> bool;                                  (* setns(target) == 0 *)
  nw_leave : Z -> bool;                                  (* setns(anchor) == 0, from this namespace *)
  nw_socket : Z -> bool;                                 (* openSockDiagSocket() >= 0 in this namespace *)
  nw_dump : Z -> Z -> Z -> option (list Recv);           (* namespace, family, protocol *)
  nw_fds : Z -> option (list (QString * option QString)); (* /proc/<pid>/fd: names, link targets *)
}.

Record NetnsPid := mkNetnsPid { np_pid : Z; np_startTime : Z }.
Record NetnsBucket := mkBucket { nb_inode : Z; nb_pids : list NetnsPid }.

(* ------------------------------------------------------------------ *)
(** ** Grouping the processes by namespace *)

Record Grouping := mkGrouping {
  g_netnses : list NetnsBucket;
  g_bucketByInode : gmap Z nat;
  g_warned : bool;
}.

Section Netns.
Context `{QtToIPv4, QtToULongLong, QtUtf8, QHashOrder}.

(** The body of the readdir loop once the entry is a process in a foreign
    namespace. *)
Definition addEntry (ino : Z) (entry : NetnsPid) (g : Grouping) : Grouping :=
  match g_bucketByInode g !! ino with
  | Some i =>
      mkGrouping (alter (fun b => mkBucket (nb_inode b) (nb_pids b ++ [entry])) i (g_netnses g))
        (g_bucketByInode g) (g_warned g)
  | None =>
      if (kMaxNetnsesPerTick <=? Z.of_nat (length (g_netnses g)))%Z
      then mkGrouping (g_netnses g) (g_bucketByInode g) true
      else
        let netnses := g_netnses g ++ [mkBucket ino [entry]] in
        mkGrouping netnses (<[ino := length (g_netnses g)]> (g_bucketByInode g))
          (g_warned g || (kMaxNetnsesPerTick <=? Z.of_nat (length netnses))%Z)
  end.

(** The process an entry of /proc stands for, unless it is skipped. *)
Definition entryOf (w : NetnsWorld) (anchor : Z) (name : QString) : option (Z * NetnsPid) :=
  match parseDec name with
  | None => None
  | Some pid =>
      if (pid <=? 0)%Z then None
      else match nw_netns w pid with
           | None => None
           | Some ino =>
               if (ino =? anchor)%Z then None
               else Some (ino, mkNetnsPid pid (default 0%Z (pidStartTime (nw_stat w) pid)))
           end
  end.

Definition groupByNetns (w : NetnsWorld) (anchor : Z) (warned : bool) (names : list QString) : Grouping :=
  foldl (fun g name => match entryOf w anchor name with None => g | Some (ino, e) => addEntry ino e g end)
    (mkGrouping [] ∅ warned) names.

(* ------------------------------------------------------------------ *)
(** ** One namespace *)

(** The merged tables of a tick, with the thread's namespace. *)
Record Scan := mkScan {
  sc_thread : Z;
  sc_key : SockMap;
  sc_inode : gmap Z PidStamp;
  sc_pid : gmap Z Z;
  sc_warned : bool;
}.

Definition nsEnrollFd (entry : NetnsPid) (out : gmap Z PidStamp) (fd : QString * option QString) : gmap Z PidStamp :=
  if match fst fd with 46%Z :: _ => true | _ => false end then out
  else match snd fd with
       | None => out
       | Some target =>
           match parseSocketLink target with
           | Some inode => <[inode := mkStamp (np_pid entry) (np_startTime entry)]> out
           | None => out
           end
       end.

Fixpoint buildInodeToPidForNetns (w : NetnsWorld) (pids : list NetnsPid) (out : gmap Z PidStamp) (warned : bool)
    : gmap Z PidStamp * bool :=
  match pids with
  | [] => (out, warned)
  | entry :: rest =>
      if (kMaxSocketEntries <=? Z.of_nat (size out))%Z then (out, true)
      else
        let out :=
          if (np_pid entry <=? 0)%Z then out
          else match nw_fds w (np_pid entry) with
               | None => out
               | Some fds => foldl (nsEnrollFd entry) out fds
               end in
        buildInodeToPidForNetns w rest out warned
  end.

(** The four dumps, asked from inside namespace [ns]. *)
Definition dumpNetns (w : NetnsWorld) (ns : Z) : SockMap :=
  let m := snd (dumpSocketsViaFd (nw_dump w ns AF_INET kTcp) kTcp ∅) in
  let m := snd (dumpSocketsViaFd (nw_dump w ns AF_INET6 kTcp) kTcp m) in
  let m := snd (dumpSocketsViaFd (nw_dump w ns AF_INET kUdp) kUdp m) in
  snd (dumpSocketsViaFd (nw_dump w ns AF_INET6 kUdp) kUdp m).

Definition knownInode (inodes : gmap Z PidStamp) (inode : Z) : bool := bool_decide (is_Some (inodes !! inode)).

(** One entry of the namespace's socket table. *)
Definition mergeKey (inodes : gmap Z PidStamp) (acc : SockMap * bool) (e : QByteArray * Z) : SockMap * bool :=
  let '(out, warned) := acc in
  let '(k, inode) := e in
  if (kMaxSocketEntries <=? Z.of_nat (size out))%Z && bool_decide (out !! k = None) then (out, true)
  else if isLocalKey k then
    if isAmbiguousLocalInode inode || knownInode inodes inode then (insertLocalKey out k inode, warned) else (out, warned)
  else if knownInode inodes inode then (<[k := inode]> out, warned) else (out, warned).

Fixpoint mergeInodes (entries : list (Z * PidStamp)) (inodes : gmap Z PidStamp) (pids : gmap Z Z) (warned : bool)
    : gmap Z PidStamp * gmap Z Z * bool :=
  match entries with
  | [] => (inodes, pids, warned)
  | (i, st) :: rest =>
      if (kMaxSocketEntries <=? Z.of_nat (size inodes))%Z then (inodes, pids, true)
      else mergeInodes rest (<[i := st]> inodes) (<[ps_pid st := ps_startTime st]> pids) warned
  end.

(** What is done while the thread is in the foreign namespace. *)
Definition harvest (w : NetnsWorld) (pids : list NetnsPid) (s : Scan) : Scan :=
  if nw_socket w (sc_thread s) then
    let nsKeyToInode := dumpNetns w (sc_thread s) in
    let '(nsInodeToPid, warned) := buildInodeToPidForNetns w pids ∅ (sc_warned s) in
    let '(key, warned) := foldl (mergeKey nsInodeToPid) (sc_key s, warned) (hash_iter nsKeyToInode) in
    let '(inode, pid, warned) := mergeInodes (hash_iter nsInodeToPid) (sc_inode s) (sc_pid s) warned in
    mkScan (sc_thread s) key inode pid warned
  else s.

Definition set_thread (ns : Z) (s : Scan) : Scan := mkScan ns (sc_key s) (sc_inode s) (sc_pid s) (sc_warned s).

(** [~NetnsRestoreGuard]. *)
Definition restoreGuard (w : NetnsWorld) (anchor : Z) (s : Scan) : option Scan :=
  if nw_leave w (sc_thread s) then Some (set_thread anchor s) else None.

Definition scanOneNetns (w : NetnsWorld) (anchor : Z) (ns : NetnsBucket) (s : Scan) : option Scan :=
  match nb_pids ns with
  | [] => Some s
  | rep :: _ =>
      match nw_open w (np_pid rep) with
      | None => Some s
      | Some tst =>
          if negb (bool_decide (tst = Some (nb_inode ns))) then Some s
          else if negb (nw_enter w (nb_inode ns)) then Some s
          else restoreGuard w anchor (harvest w (nb_pids ns) (set_thread (nb_inode ns) s))
      end
  end.

Fixpoint scanAll (w : NetnsWorld) (anchor : Z) (netnses : list NetnsBucket) (s : Scan) : option Scan :=
  match netnses with
  | [] => Some s
  | ns :: rest => match scanOneNetns w anchor ns s with None => None | Some s => scanAll w anchor rest s end
  end.
End Netns.

(* ------------------------------------------------------------------ *)
(** ** The scanner and its worker *)

Record NsWorker := mkNsWorker {
  nsw_anchorFd : bool;                                   (* m_anchorFd >= 0 *)
  nsw_anchorInode : Z;
  nsw_timer : option Z;                                  (* interval of the running timer *)
  nsw_warnedNetnsCap : bool;
  nsw_warnedMapCap : bool;
  nsw_thread : Z;                                        (* namespace of the worker's thread *)
}.

(** What a call on the data thread can see. *)
Record NsView := mkNsView {
  nv_selfNs : option Z;                                  (* /proc/self/ns/net *)
  nv_nowMs : Z;                                          (* steady clock *)
  nv_stat : Z -> option QString;
  nv_status : Z -> option QByteArray;                    (* /proc/<pid>/status *)
}.

Record NetnsScanner := mkNetns {
  ns_ready : bool;
  ns_stop : bool;
  ns_worker : option NsWorker;
  ns_queued : nat;                                       (* posted ticks *)
  ns_refreshIntervalMs : Z;
  ns_lastDemandMs : Z;
  ns_keyToInode : SockMap;
  ns_inodeToPid : gmap Z PidStamp;
  ns_pidToStartTime : gmap Z Z;
  ns_view : NsView;
}.

Definition newNetns (tuning : ResolverTuning) (v : NsView) : NetnsScanner :=
  mkNetns false false None 0 (safeRefreshIntervalMs (netnsRefreshMs tuning)) 0 ∅ ∅ ∅ v.

Definition ns_setTuning (tuning : ResolverTuning) (st : NetnsScanner) : NetnsScanner :=
  mkNetns (ns_ready st) (ns_stop st) (ns_worker st) (ns_queued st) (safeRefreshIntervalMs (netnsRefreshMs tuning))
    (ns_lastDemandMs st) (ns_keyToInode st) (ns_inodeToPid st) (ns_pidToStartTime st) (ns_view st).

Definition set_worker (wk : option NsWorker) (queued : nat) (st : NetnsScanner) : NetnsScanner :=
  mkNetns (ns_ready st) (ns_stop st) wk queued (ns_refreshIntervalMs st) (ns_lastDemandMs st) (ns_keyToInode st)
    (ns_inodeToPid st) (ns_pidToStartTime st) (ns_view st).

Definition ns_initialize (st : NetnsScanner) : bool * NetnsScanner :=
  match nv_selfNs (ns_view st) with
  | None => (false, st)
  | Some host =>
      (true, mkNetns true (ns_stop st) (Some (mkNsWorker false 0 None false false host)) (ns_queued st)
               (ns_refreshIntervalMs st) (ns_lastDemandMs st) (ns_keyToInode st) (ns_inodeToPid st)
               (ns_pidToStartTime st) (ns_view st))
  end.

Definition ns_capabilities (st : NetnsScanner) : list QString :=
  if ns_ready st then [qs "netns-scan"] else [].

Definition ns_requestDeepScan (st : NetnsScanner) : NetnsScanner :=
  if negb (ns_ready st) || bool_decide (ns_worker st = None) then st
  else
    let nowMs := nv_nowMs (ns_view st) in
    let last := ns_lastDemandMs st in
    let cooldown := Z.max 250 (Z.quot (ns_refreshIntervalMs st) 4) in
    if negb (last =? 0)%Z && (nowMs - last <? cooldown)%Z then st
    else mkNetns (ns_ready st) (ns_stop st) (ns_worker st) (S (ns_queued st)) (ns_refreshIntervalMs st) nowMs
           (ns_keyToInode st) (ns_inodeToPid st) (ns_pidToStartTime st) (ns_view st).

(** [NetnsScannerWorker::start]: [anchor] is whether opening and stating
    /proc/self/ns/net succeed; the thread is still in its first namespace. *)
Definition worker_start (openOk fstatOk : bool) (st : NetnsScanner) : NetnsScanner :=
  match ns_worker st with
  | None => st
  | Some wk =>
      if openOk && fstatOk
      then set_worker (Some (mkNsWorker true (nsw_thread wk) (Some (ns_refreshIntervalMs st)) (nsw_warnedNetnsCap wk)
                               (nsw_warnedMapCap wk) (nsw_thread wk))) (S (ns_queued st)) st
      else set_worker (Some (mkNsWorker false (nsw_anchorInode wk) (nsw_timer wk) (nsw_warnedNetnsCap wk)
                               (nsw_warnedMapCap wk) (nsw_thread wk))) (ns_queued st) st
  end.

Section Scanner.
Context `{QtToIPv4, QtToULongLong, QtUtf8, QHashOrder}.

(** [NetnsScannerWorker::tick]; [None] when the process aborts. *)
Definition ns_tick (w : NetnsWorld) (st : NetnsScanner) : option NetnsScanner :=
  if ns_stop st then Some st
  else match ns_worker st with
  | None => Some st
  | Some wk =>
      if negb (nsw_anchorFd wk) then Some st
      else
        let timer := match nsw_timer wk with None => None | Some _ => Some (ns_refreshIntervalMs st) end in
        match nw_proc w with
        | None => Some (set_worker (Some (mkNsWorker true (nsw_anchorInode wk) timer (nsw_warnedNetnsCap wk)
                                            (nsw_warnedMapCap wk) (nsw_thread wk))) (ns_queued st) st)
        | Some names =>
            let g := groupByNetns w (nsw_anchorInode wk) (nsw_warnedNetnsCap wk) names in
            match scanAll w (nsw_anchorInode wk) (g_netnses g) (mkScan (nsw_thread wk) ∅ ∅ ∅ (nsw_warnedMapCap wk)) with
            | None => None
            | Some s =>
                Some (mkNetns (ns_ready st) (ns_stop st)
                        (Some (mkNsWorker true (nsw_anchorInode wk) timer (g_warned g) (sc_warned s) (sc_thread s)))
                        (ns_queued st) (ns_refreshIntervalMs st) (ns_lastDemandMs st)
                        (sc_key s) (sc_inode s) (sc_pid s) (ns_view st))
            end
        end
  end.

(** [~NetnsScanner]: ticks still queued run before [stop] and return at the
    stop flag. *)
Definition ns_destroy (st : NetnsScanner) : NetnsScanner :=
  mkNetns (ns_ready st) true None 0 (ns_refreshIntervalMs st) (ns_lastDemandMs st) (ns_keyToInode st)
    (ns_inodeToPid st) (ns_pidToStartTime st) (ns_view st).

Definition nsLive (st : NetnsScanner) (pid : Z) : option Z := pidStartTime (nv_stat (ns_view st)) pid.

Definition ns_resolvePid (flow : Connection) (st : NetnsScanner) : Z * NetnsScanner :=
  if negb (ns_ready st) then (0%Z, st)
  else if (ianaOf (c_proto flow) =? 0)%Z then (0%Z, st)
  else (guardedPid (ns_keyToInode st) (ns_inodeToPid st) (nsLive st) flow, st).

(** [QByteArray::trimmed]. *)
Definition isAsciiSpace (c : Z) : bool := (c =? 32)%Z || ((9 <=? c)%Z && (c <=? 13)%Z).
Fixpoint dropAsciiSpaces (s : QByteArray) : QByteArray :=
  match s with c :: r => if isAsciiSpace c then dropAsciiSpaces r else s | [] => [] end.
Definition byteTrimmed (s : QByteArray) : QByteArray := reverse (dropAsciiSpaces (reverse (dropAsciiSpaces s))).

Fixpoint nameLine (lines : list QByteArray) : QString :=
  match lines with
  | [] => []
  | line :: rest => if prefixb (qs "Name:") line then fromUtf8 (byteTrimmed (drop 5 line)) else nameLine rest
  end.

Definition ns_enrichPid (pid : Z) (st : NetnsScanner) : option ProcessInfo * NetnsScanner :=
  if negb (ns_ready st) || (pid <=? 0)%Z then (None, st)
  else
    (match ns_pidToStartTime st !! pid with
     | None => None
     | Some t =>
         if bool_decide (nsLive st pid = Some t) then
           let comm := match nv_status (ns_view st) pid with
                       | None => []
                       | Some data => nameLine (qsplit 10 (take 4096 data))
                       end in
           Some (mkProcessInfo pid comm [] [] (pi_uid noProcess))
         else None
     end, st).

Definition netnsResolver : Resolver NetnsScanner := {|
  r_initialize := ns_initialize;
  r_capabilities := ns_capabilities;
  r_setTuning := ns_setTuning;
  r_requestDeepScan := ns_requestDeepScan;
  r_resolvePid := ns_resolvePid;
  r_enrichPid := ns_enrichPid;
  r_resolveContainerForPid := fun _ st => (None, st);
  r_resolveContainerChainForPid := defaultChainForPid (fun _ st => (None, st));
|}.

(** What happens to a scanner: calls of its owner, and the events of the
    worker's loop. *)
Inductive NsEvent :=
| NsInitialize
| NsStarted (openOk fstatOk : bool)
| NsTimeout (w : NetnsWorld)
| NsPosted (w : NetnsWorld)
| NsSetTuning (t : ResolverTuning)
| NsRequestDeepScan
| NsWorldMoves (v : NsView)
| NsDestroy.

Definition ns_step (st : NetnsScanner) (e : NsEvent) : option NetnsScanner :=
  match e with
  | NsInitialize => Some (snd (ns_initialize st))
  | NsStarted o f => Some (worker_start o f st)
  | NsTimeout w =>
      match ns_worker st with
      | Some wk => match nsw_timer wk with Some _ => ns_tick w st | None => Some st end
      | None => Some st
      end
  | NsPosted w =>
      match ns_queued st with
      | O => Some st
      | S n => ns_tick w (set_worker (ns_worker st) n st)
      end
  | NsSetTuning t => Some (ns_setTuning t st)
  | NsRequestDeepScan => Some (ns_requestDeepScan st)
  | NsWorldMoves v =>
      Some (mkNetns (ns_ready st) (ns_stop st) (ns_worker st) (ns_queued st) (ns_refreshIntervalMs st)
              (ns_lastDemandMs st) (ns_keyToInode st) (ns_inodeToPid st) (ns_pidToStartTime st) v)
  | NsDestroy => Some (ns_destroy st)
  end.

Inductive ns_reachable : NetnsScanner -> Prop :=
| ns_new tuning v : ns_reachable (newNetns tuning v)
| ns_next st e st' : ns_reachable st -> ns_step st e = Some st' -> ns_reachable st'.
End Scanner.
