(* ===== verification/NetnsProofs.v ===== *)
(** * What the namespace scanner publishes

    The grouping equals the partition of the processes by namespace
    ([refBuckets]); the worker's thread is back in its anchor namespace after
    every tick; what is published was dumped inside the namespace it is
    published for, and a shared local endpoint is marked ambiguous across
    namespaces too; demand scans keep their distance. *)

From S2P Require Import Prelude Qt Conn Resolver ProcParse SockDump SockDiag Netns.

(* ------------------------------------------------------------------ *)
(** ** The grouping *)

(** The distinct elements in order of first appearance. *)
Definition addFirst (acc : list Z) (x : Z) : list Z := if bool_decide (x ∈ acc) then acc else acc ++ [x].
Definition firsts (l : list Z) : list Z := foldl addFirst [] l.

(** The partition of the processes by namespace, limited to the namespaces
    seen first. *)
Definition pidsIn (entries : list (Z * NetnsPid)) (ino : Z) : list NetnsPid :=
  (filter (fun e => fst e = ino) entries).*2.
Definition refBuckets (entries : list (Z * NetnsPid)) : list NetnsBucket :=
  map (fun ino => mkBucket ino (pidsIn entries ino)) (take (Z.to_nat kMaxNetnsesPerTick) (firsts entries.*1)).

Lemma firsts_snoc l x : firsts (l ++ [x]) = addFirst (firsts l) x.
Proof. unfold firsts. by rewrite foldl_app. Qed.

Lemma firsts_spec l : NoDup (firsts l) /\ forall x, x ∈ firsts l <-> x ∈ l.
Proof.
  induction l as [|x l IH] using rev_ind; [split; [apply NoDup_nil_2|done]|].
  rewrite firsts_snoc. destruct IH as [Hn He]. unfold addFirst. case_bool_decide as Hx.
  - split; [done|]. intros y. rewrite He in *. set_solver.
  - split; [apply NoDup_app; split; [done|]; split; [set_solver|apply NoDup_singleton]|]. intros y. set_solver.
Qed.

Lemma pidsIn_snoc entries ino e x :
  pidsIn (entries ++ [(ino, e)]) x = pidsIn entries x ++ (if bool_decide (ino = x) then [e] else []).
Proof.
  unfold pidsIn. rewrite filter_app, fmap_app, filter_cons, filter_nil. cbn [fst].
  case_bool_decide; by case_decide.
Qed.

Lemma pidsIn_nil entries x : x ∉ entries.*1 -> pidsIn entries x = [].
Proof.
  intros Hx. unfold pidsIn. induction entries as [|[i e] entries IH]; [done|].
  rewrite filter_cons. cbn [fst]. rewrite fmap_cons in Hx. cbn [fst] in Hx.
  case_decide as Hd; [subst; set_solver|]. apply IH. set_solver.
Qed.

(** The state of the grouping after some entries. *)
Definition grouped (warned : bool) (entries : list (Z * NetnsPid)) (g : Grouping) : Prop :=
  g_netnses g = refBuckets entries /\
  (forall ino i, g_bucketByInode g !! ino = Some i <->
     take (Z.to_nat kMaxNetnsesPerTick) (firsts entries.*1) !! i = Some ino) /\
  g_warned g = warned || (kMaxNetnsesPerTick <=? Z.of_nat (length (firsts entries.*1)))%Z.

Lemma alter_map_nodup {B} (f f' : Z -> B) (h : B -> B) L i x :
  NoDup L -> L !! i = Some x -> h (f x) = f' x -> (forall y, y ∈ L -> y <> x -> f y = f' y) ->
  alter h i (map f L) = map f' L.
Proof.
  intros Hn Hi Hx Hy. apply list_eq. intros j. destruct (decide (j = i)) as [->|Hj].
  - rewrite list_lookup_alter_eq. rewrite !list_lookup_fmap, Hi. simpl. by f_equal.
  - rewrite list_lookup_alter_ne by done. rewrite !list_lookup_fmap. destruct (L !! j) as [y|] eqn:Ej; [|done]. simpl.
    f_equal. apply Hy; [by eapply list_elem_of_lookup_2|]. intros ->. apply Hj. by eapply NoDup_lookup.
Qed.

Lemma addEntry_grouped warned entries g ino e :
  grouped warned entries g -> grouped warned (entries ++ [(ino, e)]) (addEntry ino e g).
Proof.
  intros (Hb & Hi & Hw). unfold addEntry, grouped, refBuckets. rewrite fmap_app, fmap_cons, fmap_nil. cbn [fst].
  rewrite firsts_snoc. set (F := firsts entries.*1) in *. set (n := Z.to_nat kMaxNetnsesPerTick) in *.
  assert (Hn : Z.of_nat n = kMaxNetnsesPerTick) by (unfold n, kMaxNetnsesPerTick; lia).
  destruct (firsts_spec entries.*1) as [HF HFe]. fold F in HF, HFe.
  assert (Hlen : length (g_netnses g) = length (take n F)) by (rewrite Hb; apply length_map).
  assert (Hother : forall y, y <> ino -> mkBucket y (pidsIn entries y) = mkBucket y (pidsIn (entries ++ [(ino, e)]) y)).
  { intros y Hy. rewrite pidsIn_snoc, bool_decide_eq_false_2 by done. by rewrite app_nil_r. }
  destruct (g_bucketByInode g !! ino) as [i|] eqn:Ei.
  - apply Hi in Ei as Hl. apply lookup_take_Some in Hl as HlF.
    assert (Hin : ino ∈ F) by (by eapply list_elem_of_lookup_2, HlF).
    unfold addFirst. rewrite bool_decide_eq_true_2 by done. cbn [g_netnses g_bucketByInode g_warned].
    split; [|done]. rewrite Hb. unfold refBuckets. fold F n.
    apply (alter_map_nodup _ _ _ _ _ ino); [by eapply sublist_NoDup, sublist_take|done| |].
    + cbn [nb_inode nb_pids]. by rewrite pidsIn_snoc, bool_decide_eq_true_2.
    + intros y _ Hy. by apply Hother.
  - assert (Hnin : ino ∉ take n F).
    { intros [j Hj]%list_elem_of_lookup. apply Hi in Hj. congruence. }
    destruct (kMaxNetnsesPerTick <=? Z.of_nat (length (g_netnses g)))%Z eqn:Ec; cbn [g_netnses g_bucketByInode g_warned].
    + assert (Hfull : n <= length F) by (rewrite Hlen, length_take in Ec; blia).
      assert (Htake : take n (addFirst F ino) = take n F).
      { unfold addFirst. case_bool_decide; [done|]. by rewrite take_app_le. }
      rewrite Htake. split; [|split; [done|]].
      * rewrite Hb. unfold refBuckets. fold F n. apply map_ext_in. intros y Hy%list_elem_of_In. apply Hother. congruence.
      * symmetry. apply orb_true_iff. right. apply Z.leb_le. unfold addFirst. case_bool_decide; rewrite ?length_app; lia.
    + assert (Hroom : length F < n) by (rewrite Hlen, length_take in Ec; blia).
      rewrite (take_ge F) in * by lia. unfold addFirst. rewrite bool_decide_eq_false_2 by done.
      rewrite take_ge by (rewrite length_app; simpl; lia). split_and!.
      * rewrite Hb. unfold refBuckets. fold F n. rewrite take_ge by lia. rewrite map_app. f_equal.
        { apply map_ext_in. intros y Hy%list_elem_of_In. apply Hother. congruence. }
        cbn [map]. rewrite pidsIn_snoc, bool_decide_eq_true_2 by done. by rewrite pidsIn_nil by (rewrite <- HFe; done).
      * intros x j. rewrite lookup_insert_Some, Hi, lookup_app_Some, Hlen. split.
        { intros [[<- <-]|[Hx Hj]]; [right; split; [done|]; by rewrite Nat.sub_diag|by left]. }
        { intros [Hj|[Hge Hj]]; [right|left].
          - split; [|done]. intros <-. apply Hnin. by eapply list_elem_of_lookup_2.
          - destruct (j - length F) as [|k] eqn:Ek; [|done]. injection Hj as <-. split; [done|lia]. }
      * rewrite Hw, !length_app, Hlen. simpl. destruct warned; [done|].
        destruct (kMaxNetnsesPerTick <=? Z.of_nat (length F))%Z eqn:E1; [blia|done].
Qed.

Section Grouping.
Context `{QtToULongLong}.

(** The walk over /proc groups the processes exactly by namespace: the
    buckets are the first 256 foreign namespaces in order of appearance, each
    with all of its processes in order, and the cap is warned about once that
    many were seen. *)
Theorem groupByNetns_reference w anchor warned names :
  let entries := omap (entryOf w anchor) names in
  let g := groupByNetns w anchor warned names in
  g_netnses g = refBuckets entries /\
  g_warned g = warned || (kMaxNetnsesPerTick <=? Z.of_nat (length (firsts entries.*1)))%Z.
Proof.
  cbv zeta. enough (Hg : grouped warned (omap (entryOf w anchor) names) (groupByNetns w anchor warned names))
    by (destruct Hg as (? & _ & ?); done).
  induction names as [|name names IH] using rev_ind.
  - unfold grouped, refBuckets. cbn. split_and!; [done| |by rewrite orb_false_r].
    intros ino i. by rewrite lookup_empty.
  - unfold groupByNetns in *. rewrite foldl_app, omap_app. cbn [foldl omap list_omap].
    destruct (entryOf w anchor name) as [[ino e]|]; [by apply addEntry_grouped|by rewrite app_nil_r].
Qed.

(** A bucket holds processes seen in its namespace, never the anchor's. *)
Lemma bucket_member w anchor warned names b e :
  b ∈ g_netnses (groupByNetns w anchor warned names) -> e ∈ nb_pids b ->
  nb_inode b <> anchor /\ (0 < np_pid e)%Z /\ nw_netns w (np_pid e) = Some (nb_inode b) /\
  np_startTime e = default 0%Z (pidStartTime (nw_stat w) (np_pid e)).
Proof.
  pose proof (groupByNetns_reference w anchor warned names) as [-> _]. unfold refBuckets.
  intros (ino & -> & _)%list_elem_of_fmap He. cbn [nb_inode nb_pids] in *.
  unfold pidsIn in He. apply list_elem_of_fmap in He as ([i e'] & -> & He). apply list_elem_of_filter in He as [Hi He].
  cbn [fst snd] in *. subst i. apply list_elem_of_omap in He as (name & _ & He). unfold entryOf in He.
  destruct (parseDec name) as [pid|]; [|done]. destruct (pid <=? 0)%Z eqn:Ep; [done|].
  destruct (nw_netns w pid) as [i|] eqn:En; [|done]. destruct (i =? anchor)%Z eqn:Ea; [done|]. simplify_eq. cbn [np_pid np_startTime].
  blia. split_and!; try done; lia.
Qed.
End Grouping.

(* ------------------------------------------------------------------ *)
(** ** Merging one namespace *)

Section Merge.
Context `{QtToIPv4, QtToULongLong}.
Variable inodes : gmap Z PidStamp.

(** An entry the merge considers for the local index. *)
Definition localEntry (k : QByteArray) (i : Z) : Prop :=
  isLocalKey k = true /\ (i = kAmbiguousLocalInode \/ is_Some (inodes !! i)).

Lemma insertLocalKey_lookup out k i k' i' :
  insertLocalKey out k i !! k' = Some i' -> i' <> kAmbiguousLocalInode -> out !! k' = Some i' \/ (k' = k /\ i' = i).
Proof.
  unfold insertLocalKey. intros Hl Hne. destruct (out !! k) as [j|] eqn:Ek; split_ifs; try (by left);
    apply lookup_insert_Some in Hl as [[<- <-]|[? Hl]]; try (by left); by right.
Qed.

(** One entry: the cap holds, what is there was there or is the entry (with a
    known owner), the table does not shrink. *)
Lemma mergeKey_sound acc k i :
  inCap (fst acc) ->
  let out' := fst (mergeKey inodes acc (k, i)) in
  inCap out' /\ size (fst acc) <= size out' /\
  (forall k' i', out' !! k' = Some i' -> i' <> kAmbiguousLocalInode ->
     fst acc !! k' = Some i' \/ (k' = k /\ i' = i /\ is_Some (inodes !! i))).
Proof.
  destruct acc as [out warned]. intros Hcap. unfold mergeKey, knownInode. cbn [fst].
  destruct (_ && _) eqn:Efull; cbn [fst]; [split_and!; [done|lia|by left]|].
  destruct (isLocalKey k).
  - destruct (isAmbiguousLocalInode i || _) eqn:Ea; cbn [fst]; [|split_and!; [done|lia|by left]].
    split_and!; [by apply insertLocalKey_inCap|apply insertLocalKey_grows|].
    intros k' i' Hl Hne. destruct (insertLocalKey_lookup _ _ _ _ _ Hl Hne) as [?|[-> ->]]; [by left|]. right. split_and!; try done.
    apply orb_true_iff in Ea as [Ea|Ea]; [unfold isAmbiguousLocalInode in Ea; blia; done|by apply bool_decide_eq_true in Ea].
  - destruct (bool_decide (is_Some (inodes !! i))) eqn:Hk; cbn [fst]; [apply bool_decide_eq_true in Hk|split_and!; [done|lia|by left]].
    split_and!; [|apply insert_grows|].
    + unfold inCap in *. apply andb_false_iff in Efull as [Ef|Ef].
      * pose proof (size_insert_le out k i). blia.
      * apply bool_decide_eq_false in Ef. rewrite size_insert_present; [done|]. destruct (out !! k); [by eexists|done].
    + intros k' i' Hl Hne. apply lookup_insert_Some in Hl as [[<- <-]|[_ Hl]]; [by right|by left].
Qed.

(** While there is room, local entries are filed and stay filed. *)
Lemma mergeKey_agrees acc k i :
  (Z.of_nat (size (fst (mergeKey inodes acc (k, i)))) < kMaxSocketEntries)%Z ->
  (forall k' i', isLocalKey k' = true -> agrees (fst acc) k' i' -> agrees (fst (mergeKey inodes acc (k, i))) k' i') /\
  (localEntry k i -> agrees (fst (mergeKey inodes acc (k, i))) k i).
Proof.
  destruct acc as [out warned]. unfold mergeKey, knownInode, localEntry. cbn [fst].
  destruct (_ && _) eqn:Efull; cbn [fst]; [intros Hr; blia|]. destruct (isLocalKey k) eqn:El.
  - destruct (isAmbiguousLocalInode i || _) eqn:Ea; cbn [fst]; intros Hr.
    + split; [intros k' i' _ Ha; by apply insertLocalKey_keeps|]. intros _. apply insertLocalKey_agrees.
      pose proof (insertLocalKey_grows out k i). lia.
    + split; [done|]. intros [_ [-> |Hk]]; apply orb_false_iff in Ea as [E1 E2]; [done|].
      by apply bool_decide_eq_false in E2.
  - destruct (bool_decide (is_Some (inodes !! i))); cbn [fst]; intros Hr; (split; [|by intros []]); [|done].
    intros k' i' Hl' Ha. unfold agrees in *. rewrite lookup_insert_ne; [done|]. congruence.
Qed.

Lemma mergeKeys_sound entries acc :
  inCap (fst acc) ->
  let out' := fst (foldl (mergeKey inodes) acc entries) in
  inCap out' /\ size (fst acc) <= size out' /\
  (forall k i, out' !! k = Some i -> i <> kAmbiguousLocalInode ->
     fst acc !! k = Some i \/ ((k, i) ∈ entries /\ is_Some (inodes !! i))).
Proof.
  revert acc. induction entries as [|[k i] entries IH]; intros acc Hcap; cbn [foldl]; [split_and!; [done|lia|by left]|].
  destruct (mergeKey_sound acc k i Hcap) as (H1 & H2 & H3). destruct (IH _ H1) as (I1 & I2 & I3).
  split_and!; [done|lia|]. intros k' i' Hl Hne. destruct (I3 k' i' Hl Hne) as [Hl'|[Hin Hk]].
  - destruct (H3 k' i' Hl' Hne) as [?|(-> & -> & ?)]; [by left|]. right. split; [by left|done].
  - right. split; [by right|done].
Qed.

Lemma mergeKeys_agrees entries acc :
  inCap (fst acc) -> (Z.of_nat (size (fst (foldl (mergeKey inodes) acc entries))) < kMaxSocketEntries)%Z ->
  (forall k i, isLocalKey k = true -> agrees (fst acc) k i -> agrees (fst (foldl (mergeKey inodes) acc entries)) k i) /\
  (forall k i, (k, i) ∈ entries -> localEntry k i -> agrees (fst (foldl (mergeKey inodes) acc entries)) k i).
Proof.
  revert acc. induction entries as [|[k i] entries IH]; intros acc Hcap Hr; cbn [foldl] in *.
  { split; [done|]. intros k i Hin. by apply not_elem_of_nil in Hin. }
  destruct (mergeKey_sound acc k i Hcap) as (H1 & H2 & H3). destruct (IH _ H1 Hr) as [I1 I2].
  destruct (mergeKeys_sound entries _ H1) as (_ & Hg & _). destruct (mergeKey_agrees acc k i) as [A1 A2]; [lia|].
  split; [intros k' i' Hl Ha; by apply I1, A1|].
  intros k' i' [[= -> ->]|Hin]%elem_of_cons He; [|by apply I2]. apply I1; [by destruct He|by apply A2].
Qed.

Lemma mergeInodes_sound entries m p warned :
  let '(m', p', _) := mergeInodes entries m p warned in
  ((Z.of_nat (size m) <= kMaxSocketEntries)%Z -> (Z.of_nat (size m') <= kMaxSocketEntries)%Z) /\
  (forall i st, m' !! i = Some st -> m !! i = Some st \/ (i, st) ∈ entries) /\
  (forall pid t, p' !! pid = Some t -> p !! pid = Some t \/ exists i, (i, mkStamp pid t) ∈ entries).
Proof.
  revert m p warned. induction entries as [|[i st] entries IH]; intros m p warned; cbn [mergeInodes].
  { split_and!; [done|by left|by left]. }
  destruct (_ <=? _)%Z eqn:Ec; [split_and!; [done|by left|by left]|].
  pose proof (IH (<[i := st]> m) (<[ps_pid st := ps_startTime st]> p) warned) as Hi.
  destruct (mergeInodes entries _ _ warned) as [[m' p'] w']. destruct Hi as (I1 & I2 & I3). split_and!.
  - intros _. apply I1. rewrite map_size_insert. destruct (m !! i); unfold id; blia.
  - intros j s Hl. destruct (I2 j s Hl) as [Hl'|Hin]; [|right; by right].
    apply lookup_insert_Some in Hl' as [[<- <-]|[_ ?]]; [right; by left|by left].
  - intros q t Hl. destruct (I3 q t Hl) as [Hl'|[j Hin]]; [|right; exists j; by right].
    apply lookup_insert_Some in Hl' as [[<- <-]|[_ ?]]; [|by left]. right. exists i. destruct st. by left.
Qed.
End Merge.

(* ------------------------------------------------------------------ *)
(** ** A scan *)

Section Scan.
Context `{QtToIPv4, QtToULongLong, QHashOrderLaws}.

(** The namespace of [b] was entered, after checking that the handle still
    denotes it, and its sockets were asked for. *)
Definition served (w : NetnsWorld) (b : NetnsBucket) : Prop :=
  exists rep rest, nb_pids b = rep :: rest /\ nw_open w (np_pid rep) = Some (Some (nb_inode b)) /\
    nw_enter w (nb_inode b) = true /\ nw_socket w (nb_inode b) = true.

Definition nsInodes (w : NetnsWorld) (b : NetnsBucket) : gmap Z PidStamp :=
  fst (buildInodeToPidForNetns w (nb_pids b) ∅ false).

Lemma buildInodes_warned w pids out w1 w2 :
  fst (buildInodeToPidForNetns w pids out w1) = fst (buildInodeToPidForNetns w pids out w2).
Proof.
  revert out. induction pids as [|e pids IH]; intros out; cbn [buildInodeToPidForNetns]; [done|].
  destruct (_ <=? _)%Z; [done|apply IH].
Qed.

(** The process [e] had a link to the socket [inode] open. *)
Definition holds (w : NetnsWorld) (e : NetnsPid) (inode : Z) : Prop :=
  exists fds fd target, nw_fds w (np_pid e) = Some fds /\ (fd, Some target) ∈ fds /\ parseSocketLink target = Some inode.

Lemma nsEnrollFds_sound e fds out inode st :
  foldl (nsEnrollFd e) out fds !! inode = Some st ->
  out !! inode = Some st \/
  (st = mkStamp (np_pid e) (np_startTime e) /\ exists fd target, (fd, Some target) ∈ fds /\ parseSocketLink target = Some inode).
Proof.
  revert out. induction fds as [|[n t] fds IH]; intros out; cbn [foldl]; [by left|].
  intros Hl. apply IH in Hl as [Hl|(-> & fd & tg & Hin & Hp)]; [|right; split; [done|]; exists fd, tg; split; [by right|done]].
  unfold nsEnrollFd in Hl. cbn [fst snd] in Hl. destruct (match n with 46%Z :: _ => true | _ => false end); [by left|].
  destruct t as [t|]; [|by left]. destruct (parseSocketLink t) as [i|] eqn:Ei; [|by left].
  apply lookup_insert_Some in Hl as [[-> <-]|[_ Hl]]; [|by left]. right. split; [done|]. exists n, t. split; [by left|done].
Qed.

Lemma buildInodes_sound w pids out warned inode st :
  fst (buildInodeToPidForNetns w pids out warned) !! inode = Some st ->
  out !! inode = Some st \/
  exists e, e ∈ pids /\ st = mkStamp (np_pid e) (np_startTime e) /\ holds w e inode.
Proof.
  revert out. induction pids as [|e pids IH]; intros out; cbn [buildInodeToPidForNetns]; [by left|].
  destruct (_ <=? _)%Z; [by left|]. intros Hl. apply IH in Hl as [Hl|(e' & Hin & Hx)]; [|right; exists e'; split; [by right|done]].
  destruct (np_pid e <=? 0)%Z; [by left|]. destruct (nw_fds w (np_pid e)) as [fds|] eqn:Ef; [|by left].
  apply nsEnrollFds_sound in Hl as [Hl|(-> & fd & t & Hin & Hp)]; [by left|].
  right. exists e. split_and!; [by left|done|]. by exists fds, fd, t.
Qed.

(** What the tables hold after the namespaces [bs] were visited. *)
Record scan_ok (w : NetnsWorld) (anchor : Z) (bs : list NetnsBucket) (s : Scan) : Prop := {
  so_thread : sc_thread s = anchor;
  so_cap : inCap (sc_key s);
  so_inodeCap : (Z.of_nat (size (sc_inode s)) <= kMaxSocketEntries)%Z;
  so_key : forall k i, sc_key s !! k = Some i -> i <> kAmbiguousLocalInode ->
    exists b, b ∈ bs /\ served w b /\ dumpNetns w (nb_inode b) !! k = Some i /\ is_Some (nsInodes w b !! i);
  so_inode : forall i st, sc_inode s !! i = Some st -> exists b, b ∈ bs /\ served w b /\ nsInodes w b !! i = Some st;
  so_pid : forall p t, sc_pid s !! p = Some t ->
    exists b i, b ∈ bs /\ served w b /\ nsInodes w b !! i = Some (mkStamp p t);
  so_local : (Z.of_nat (size (sc_key s)) < kMaxSocketEntries)%Z ->
    forall b k i, b ∈ bs -> served w b -> dumpNetns w (nb_inode b) !! k = Some i ->
      localEntry (nsInodes w b) k i -> agrees (sc_key s) k i;
}.

Lemma scan_ok_skip w anchor bs b s : ~ served w b -> scan_ok w anchor bs s -> scan_ok w anchor (bs ++ [b]) s.
Proof.
  intros Hns [O1 O2 O3 O4 O5 O6 O7]. split; try done.
  - intros k i Hl Hne. destruct (O4 k i Hl Hne) as (b' & ? & ?). exists b'. set_solver.
  - intros i st Hl. destruct (O5 i st Hl) as (b' & ? & ?). exists b'. set_solver.
  - intros p t Hl. destruct (O6 p t Hl) as (b' & i & ? & ?). exists b', i. set_solver.
  - intros Hr b' k i [Hb| ->%list_elem_of_singleton]%elem_of_app Hs; [by apply O7|done].
Qed.

Lemma harvest_ok w anchor bs b s rep rest :
  nb_pids b = rep :: rest -> nw_open w (np_pid rep) = Some (Some (nb_inode b)) -> nw_enter w (nb_inode b) = true ->
  scan_ok w anchor bs s -> scan_ok w anchor (bs ++ [b]) (set_thread anchor (harvest w (nb_pids b) (set_thread (nb_inode b) s))).
Proof.
  intros Hp Ho He Hok. unfold harvest. cbn [set_thread sc_thread sc_key sc_inode sc_pid sc_warned].
  destruct (nw_socket w (nb_inode b)) eqn:Esock.
  2: { assert (Heq : set_thread anchor (set_thread (nb_inode b) s) = s).
       { destruct Hok as [<- _ _ _ _ _ _]. by destruct s. }
       rewrite Heq. apply scan_ok_skip; [|done]. intros (? & ? & _ & _ & _ & Hs). congruence. }
  assert (Hserved : served w b) by (by exists rep, rest).
  pose proof (buildInodes_warned w (nb_pids b) ∅ (sc_warned s) false) as Hw. fold (nsInodes w b) in Hw.
  destruct (buildInodeToPidForNetns w (nb_pids b) ∅ (sc_warned s)) as [ino warned]. cbn [fst] in Hw. subst ino.
  destruct Hok as [O1 O2 O3 O4 O5 O6 O7].
  pose proof (mergeKeys_sound (nsInodes w b) (hash_iter (dumpNetns w (nb_inode b))) (sc_key s, warned) O2) as (M1 & M2 & M3).
  pose proof (mergeKeys_agrees (nsInodes w b) (hash_iter (dumpNetns w (nb_inode b))) (sc_key s, warned) O2) as M4.
  destruct (foldl (mergeKey (nsInodes w b)) (sc_key s, warned) _) as [key warned1]. cbn [fst] in *.
  pose proof (mergeInodes_sound (hash_iter (nsInodes w b)) (sc_inode s) (sc_pid s) warned1) as Hmi.
  destruct (mergeInodes _ _ _ warned1) as [[inode pid] warned2]. destruct Hmi as (N1 & N2 & N3).
  split; cbn [set_thread sc_thread sc_key sc_inode sc_pid sc_warned]; [done|done|by apply N1| | | |].
  - intros k i Hl Hne. destruct (M3 k i Hl Hne) as [Hl'|[Hin Hk]].
    + destruct (O4 k i Hl' Hne) as (b' & ? & ?). exists b'. set_solver.
    + exists b. rewrite elem_of_hash_iter in Hin. set_solver.
  - intros i st Hl. destruct (N2 i st Hl) as [Hl'|Hin].
    + destruct (O5 i st Hl') as (b' & ? & ?). exists b'. set_solver.
    + exists b. rewrite elem_of_hash_iter in Hin. set_solver.
  - intros p t Hl. destruct (N3 p t Hl) as [Hl'|[i Hin]].
    + destruct (O6 p t Hl') as (b' & i & ? & ?). exists b', i. set_solver.
    + exists b, i. rewrite elem_of_hash_iter in Hin. set_solver.
  - intros Hr b' k i [Hb| ->%list_elem_of_singleton]%elem_of_app Hs Hd Hle; destruct (M4 Hr) as [A1 A2].
    + apply A1; [by destruct Hle|]. apply (O7 ltac:(lia) b' k i); done.
    + apply A2; [|done]. by apply elem_of_hash_iter.
Qed.

Lemma scanOneNetns_ok w anchor bs b s s' :
  scan_ok w anchor bs s -> scanOneNetns w anchor b s = Some s' -> scan_ok w anchor (bs ++ [b]) s'.
Proof.
  intros Hok. unfold scanOneNetns. destruct (nb_pids b) as [|rep rest] eqn:Ep.
  { intros [= <-]. apply scan_ok_skip; [|done]. intros (? & ? & Hp & _). congruence. }
  destruct (nw_open w (np_pid rep)) as [tst|] eqn:Eo.
  2: { intros [= <-]. apply scan_ok_skip; [|done]. intros (r & ? & Hp & Ho & _). simplify_eq. congruence. }
  case_bool_decide as Ht; cbn [negb].
  2: { intros [= <-]. apply scan_ok_skip; [|done]. intros (r & ? & Hp & Ho & _). simplify_eq. congruence. }
  destruct (nw_enter w (nb_inode b)) eqn:Ee; cbn [negb].
  2: { intros [= <-]. apply scan_ok_skip; [|done]. intros (? & ? & _ & _ & He & _). congruence. }
  unfold restoreGuard. destruct (nw_leave _ _); [|done]. intros [= <-]. subst tst. rewrite <- Ep. by eapply harvest_ok.
Qed.

Lemma scanAll_ok w anchor bs netnses s s' :
  scan_ok w anchor bs s -> scanAll w anchor netnses s = Some s' -> scan_ok w anchor (bs ++ netnses) s'.
Proof.
  revert bs s. induction netnses as [|b netnses IH]; intros bs s Hok; cbn [scanAll].
  { intros [= <-]. by rewrite app_nil_r. }
  destruct (scanOneNetns w anchor b s) as [s1|] eqn:E1; [|done]. intros Hs.
  replace (bs ++ b :: netnses) with ((bs ++ [b]) ++ netnses) by (by rewrite <- app_assoc). eapply IH; [|done]. by eapply scanOneNetns_ok.
Qed.

Lemma scan_ok_start w anchor warned : scan_ok w anchor [] (mkScan anchor ∅ ∅ ∅ warned).
Proof.
  split; cbn; try done.
  - intros _ b k i Hb. by apply not_elem_of_nil in Hb.
Qed.
End Scan.

(* ------------------------------------------------------------------ *)
(** ** Every reachable scanner *)

Section Reachable.
Context `{QtToIPv4, QtToULongLong, QtUtf8, QHashOrderLaws}.

(** The namespaces a tick visits. *)
Definition bucketsOf (w : NetnsWorld) (anchor : Z) : list NetnsBucket :=
  refBuckets (omap (entryOf w anchor) (default [] (nw_proc w))).

(** What is published comes from one scan. *)
Definition publishedFrom (w : NetnsWorld) (anchor : Z) (st : NetnsScanner) : Prop :=
  scan_ok w anchor (bucketsOf w anchor) (mkScan anchor (ns_keyToInode st) (ns_inodeToPid st) (ns_pidToStartTime st) false).

Record ns_ok (st : NetnsScanner) : Prop := {
  no_interval : (kMinRefreshIntervalMs <= ns_refreshIntervalMs st)%Z;
  no_worker : forall wk, ns_worker st = Some wk ->
    (nsw_anchorFd wk = true -> nsw_thread wk = nsw_anchorInode wk) /\
    (forall iv, nsw_timer wk = Some iv -> (kMinRefreshIntervalMs <= iv)%Z);
  no_published : exists w anchor, publishedFrom w anchor st;
}.

Lemma safeRefresh_floor raw : (kMinRefreshIntervalMs <= safeRefreshIntervalMs raw)%Z.
Proof. unfold safeRefreshIntervalMs, kMinRefreshIntervalMs, kRefreshIntervalMs. split_ifs; blia. Qed.

Definition emptyWorld : NetnsWorld :=
  mkNsWorld None (fun _ => None) (fun _ => None) (fun _ => None) (fun _ => false) (fun _ => false) (fun _ => false)
    (fun _ _ _ => None) (fun _ => None).

Lemma scan_ok_warned w anchor bs s b :
  scan_ok w anchor bs s -> scan_ok w anchor bs (mkScan anchor (sc_key s) (sc_inode s) (sc_pid s) b).
Proof. by intros [? ? ? ? ? ? ?]; split. Qed.

(** One tick of an anchored worker: the thread returns to the anchor, and the
    published tables are those of this scan. *)
Lemma ns_tick_scan w st wk names st' :
  ns_stop st = false -> ns_worker st = Some wk -> nsw_anchorFd wk = true -> nsw_thread wk = nsw_anchorInode wk ->
  nw_proc w = Some names -> ns_tick w st = Some st' ->
  publishedFrom w (nsw_anchorInode wk) st' /\ ns_refreshIntervalMs st' = ns_refreshIntervalMs st /\
  exists wk', ns_worker st' = Some wk' /\ nsw_thread wk' = nsw_anchorInode wk' /\ nsw_anchorInode wk' = nsw_anchorInode wk /\
    (forall iv, nsw_timer wk' = Some iv -> iv = ns_refreshIntervalMs st).
Proof.
  intros Hs Hw Ha Ht Hp. unfold ns_tick. rewrite Hs, Hw, Ha, Hp. cbn [negb]. cbv zeta.
  destruct (groupByNetns_reference w (nsw_anchorInode wk) (nsw_warnedNetnsCap wk) names) as [Hg _]. cbv zeta in Hg.
  rewrite Hg, Ht.
  destruct (scanAll w (nsw_anchorInode wk) _ _) as [s|] eqn:Es; [|done]. intros [= <-].
  apply (scanAll_ok _ _ []) in Es; [|apply scan_ok_start]. cbn [app] in Es. split_and!.
  - unfold publishedFrom, bucketsOf. rewrite Hp. cbn [default ns_keyToInode ns_inodeToPid ns_pidToStartTime].
    by apply scan_ok_warned.
  - done.
  - eexists. split; [done|]. cbn. split_and!; [apply (so_thread _ _ _ _ Es)|done|]. intros iv. destruct (nsw_timer wk); congruence.
Qed.

Lemma ns_tick_ok w st st' : ns_ok st -> ns_tick w st = Some st' -> ns_ok st'.
Proof.
  intros [Oi Ow Op] Ht. destruct (ns_stop st) eqn:Es; [unfold ns_tick in Ht; rewrite Es in Ht; simplify_eq; by split|].
  destruct (ns_worker st) as [wk|] eqn:Ew; [|unfold ns_tick in Ht; rewrite Es, Ew in Ht; simplify_eq; split; [done| |done]; by rewrite Ew].
  destruct (nsw_anchorFd wk) eqn:Ea.
  2: { unfold ns_tick in Ht. rewrite Es, Ew, Ea in Ht. cbn [negb] in Ht. simplify_eq. split; [done| |done]. rewrite Ew. intros wk' [= <-]. by apply Ow. }
  destruct (Ow wk eq_refl) as [Hth Hti]. destruct (nw_proc w) as [names|] eqn:Ep.
  - destruct (ns_tick_scan w st wk names st' Es Ew Ea (Hth Ea) Ep Ht) as (P & Hi & wk' & E1 & E2 & E3 & E4).
    split; [by rewrite Hi| |by eexists _, _]. rewrite E1. intros ? [= <-]. split; [done|].
    intros iv Hiv. rewrite (E4 iv Hiv). done.
  - unfold ns_tick in Ht. rewrite Es, Ew, Ea, Ep in Ht. cbn [negb] in Ht. simplify_eq. split; [done| |done].
    cbn [set_worker ns_worker]. intros ? [= <-]. cbn. split; [by intros _; apply Hth|].
    intros iv. destruct (nsw_timer wk); [|done]. intros [= <-]. done.
Qed.

Lemma ns_step_ok st e st' : ns_ok st -> ns_step st e = Some st' -> ns_ok st'.
Proof.
  intros Hok. destruct e as [|o f|w|w|t| |v|]; cbn [ns_step].
  - intros [= <-]. destruct Hok as [Oi Ow Op]. unfold ns_initialize. destruct (nv_selfNs _); [|by split].
    split; [done| |done]. cbn. intros wk [= <-]. cbn. done.
  - intros [= <-]. destruct Hok as [Oi Ow Op]. unfold worker_start.
    destruct (ns_worker st) as [wk|] eqn:Ew; [|split; [done|by rewrite Ew|done]]. destruct (Ow wk eq_refl) as [_ Hti].
    destruct (o && f); (split; [done| |done]); cbn; intros ? [= <-]; cbn; (split; [done|]); [by intros iv [= <-]|done].
  - destruct (ns_worker st) as [wk|]; [destruct (nsw_timer wk)|]; try (by intros [= <-]). by apply ns_tick_ok.
  - destruct (ns_queued st); [by intros [= <-]|]. apply ns_tick_ok. destruct Hok. by split.
  - intros [= <-]. destruct Hok as [Oi Ow Op]. split; [apply safeRefresh_floor|done|done].
  - intros [= <-]. unfold ns_requestDeepScan. destruct Hok as [Oi Ow Op]. split_ifs; by split.
  - intros [= <-]. destruct Hok as [Oi Ow Op]. by split.
  - intros [= <-]. destruct Hok as [Oi Ow Op]. by split.
Qed.

(** In every reachable state the worker's thread stands in its anchor
    namespace, both intervals respect the floor of 250 ms, and the published
    tables are those of one scan: within their caps, with every entry dumped
    inside the foreign namespace it is published for. *)
Lemma netns_ok_of st : ns_reachable st -> ns_ok st.
Proof.
  induction 1 as [tuning v|st e st' _ IH Hs]; [|by eapply ns_step_ok].
  split; [apply safeRefresh_floor|done|]. exists emptyWorld, 0%Z. apply (scan_ok_start emptyWorld 0 false).
Qed.

Lemma nsInodes_holder w anchor b inode st :
  b ∈ bucketsOf w anchor -> nsInodes w b !! inode = Some st ->
  exists e, e ∈ nb_pids b /\ st = mkStamp (np_pid e) (np_startTime e) /\ holds w e inode /\ nb_inode b <> anchor /\
    nw_netns w (ps_pid st) = Some (nb_inode b) /\ ps_startTime st = default 0%Z (pidStartTime (nw_stat w) (ps_pid st)).
Proof.
  intros Hb Hl. unfold nsInodes in Hl. apply buildInodes_sound in Hl as [Hl|(e & Hin & -> & Hh)]; [by rewrite lookup_empty in Hl|].
  unfold bucketsOf in Hb. destruct (groupByNetns_reference w anchor false (default [] (nw_proc w))) as [Hg _].
  cbv zeta in Hg. rewrite <- Hg in Hb. destruct (bucket_member _ _ _ _ _ e Hb Hin) as (? & ? & ? & ?). by exists e.
Qed.

(** The keys under which a flow's socket can be filed. *)
Definition flowKeys (flow : Connection) : list QByteArray :=
  [flowKeyOf flow; localKeyOf flow (ep_address (c_local flow)); localKeyOf flow (wildcardOf flow)].

Lemma socket_match_key keys flow inode : socket_match keys flow inode -> exists k, k ∈ flowKeys flow /\ keys !! k = Some inode.
Proof. intros [?|????|????]; eexists; (split; [|done]); unfold flowKeys; set_solver. Qed.

End Reachable.

Section Tick.
Context `{QtToIPv4, QtToULongLong, QtUtf8, QHashOrderLaws}.

(** A local endpoint that sockets of two visited namespaces share is marked
    ambiguous in what the tick publishes (while the table has room), whatever
    the order of the namespaces and of the hash tables: no container wins the
    other one's flows. *)
Theorem cross_netns_unambiguous w st wk st' b1 b2 k i1 i2 :
  ns_reachable st -> ns_stop st = false -> ns_worker st = Some wk -> nsw_anchorFd wk = true -> is_Some (nw_proc w) ->
  ns_tick w st = Some st' -> (Z.of_nat (size (ns_keyToInode st')) < kMaxSocketEntries)%Z ->
  b1 ∈ bucketsOf w (nsw_anchorInode wk) -> served w b1 -> dumpNetns w (nb_inode b1) !! k = Some i1 ->
  localEntry (nsInodes w b1) k i1 ->
  b2 ∈ bucketsOf w (nsw_anchorInode wk) -> served w b2 -> dumpNetns w (nb_inode b2) !! k = Some i2 ->
  localEntry (nsInodes w b2) k i2 -> i1 <> i2 ->
  ns_keyToInode st' !! k = Some kAmbiguousLocalInode.
Proof.
  intros Hr Hs Hw Ha [names Hp] Ht Hroom Hb1 Hs1 Hd1 Hl1 Hb2 Hs2 Hd2 Hl2 Hne.
  destruct (netns_ok_of st Hr) as [_ Ow _]. destruct (Ow wk Hw) as [Hth _].
  destruct (ns_tick_scan w st wk names st' Hs Hw Ha (Hth Ha) Hp Ht) as (P & _).
  pose proof (so_local _ _ _ _ P Hroom b1 k i1 Hb1 Hs1 Hd1 Hl1) as A1.
  pose proof (so_local _ _ _ _ P Hroom b2 k i2 Hb2 Hs2 Hd2 Hl2) as A2.
  destruct A1 as [A1|A1], A2 as [A2|A2]; cbn [sc_key] in *; congruence.
Qed.

(** The namespace of [b] is entered. *)
Definition entered (w : NetnsWorld) (b : NetnsBucket) : Prop :=
  exists rep rest, nb_pids b = rep :: rest /\ nw_open w (np_pid rep) = Some (Some (nb_inode b)) /\ nw_enter w (nb_inode b) = true.

Lemma harvest_thread w pids s : sc_thread (harvest w pids s) = sc_thread s.
Proof. unfold harvest. repeat case_match; done. Qed.

Lemma scanOneNetns_aborts w anchor b s :
  scanOneNetns w anchor b s = None <-> entered w b /\ nw_leave w (nb_inode b) = false.
Proof.
  unfold scanOneNetns, entered. split.
  - destruct (nb_pids b) as [|rep rest]; [done|]. destruct (nw_open w (np_pid rep)) as [tst|] eqn:Eo; [|done].
    case_bool_decide; [subst tst|done]. destruct (nw_enter w (nb_inode b)); [|done]. cbn [negb]. unfold restoreGuard.
    rewrite harvest_thread. cbn [set_thread sc_thread]. destruct (nw_leave w (nb_inode b)); [done|].
    intros _. split; [|done]. by exists rep, rest.
  - intros [(rep & rest & -> & -> & ->) Hl]. rewrite bool_decide_eq_true_2 by done. cbn [negb]. unfold restoreGuard.
    rewrite harvest_thread. cbn [set_thread sc_thread]. by rewrite Hl.
Qed.

(** The scan stops the process exactly when the return from a namespace it
    entered is refused; any other failure is skipped over. *)
Theorem scanAll_aborts w anchor netnses s :
  scanAll w anchor netnses s = None <-> exists b, b ∈ netnses /\ entered w b /\ nw_leave w (nb_inode b) = false.
Proof.
  revert s. induction netnses as [|b netnses IH]; intros s; cbn [scanAll].
  { split; [done|]. intros (b & Hb & _). by apply not_elem_of_nil in Hb. }
  destruct (scanOneNetns w anchor b s) as [s1|] eqn:E1.
  - rewrite IH. split; intros (b' & Hb' & Hx); exists b'; (split; [|done]); [by right|].
    apply elem_of_cons in Hb' as [->|?]; [|done]. apply (scanOneNetns_aborts w anchor b s) in Hx. congruence.
  - split; [|done]. intros _. exists b. split; [by left|]. by apply scanOneNetns_aborts in E1.
Qed.

(** Connected tuples are merged without that care: of two namespaces that
    list the same tuple, the one merged later wins. *)
Theorem tuple_last_writer inodes out warned k i :
  isLocalKey k = false -> is_Some (inodes !! i) -> is_Some (out !! k) ->
  fst (mergeKey inodes (out, warned) (k, i)) !! k = Some i.
Proof.
  intros Hl Hi [j Hk]. unfold mergeKey. rewrite Hl, Hk.
  rewrite (bool_decide_eq_false_2 (Some j = None)) by done. rewrite andb_false_r. unfold knownInode.
  rewrite bool_decide_eq_true_2 by done. cbn [fst]. by rewrite lookup_insert_eq.
Qed.

(** The clock at which each demand scan of a run was posted. *)
Fixpoint demandTimes (st : NetnsScanner) (es : list NsEvent) : list Z :=
  match es with
  | [] => []
  | e :: es =>
      match ns_step st e with
      | None => []
      | Some st' =>
          match e with
          | NsRequestDeepScan => if bool_decide (ns_queued st' = S (ns_queued st)) then [nv_nowMs (ns_view st)] else []
          | _ => []
          end ++ demandTimes st' es
      end
  end.

Definition keepApart (a b : Z) : Prop := (a + 250 <= b)%Z.
Definition clockPositive (e : NsEvent) : Prop := match e with NsWorldMoves v => (0 < nv_nowMs v)%Z | _ => True end.
Definition demandLog (st : NetnsScanner) : list Z := if (ns_lastDemandMs st =? 0)%Z then [] else [ns_lastDemandMs st].

Lemma ns_tick_frame w st st' :
  ns_tick w st = Some st' -> ns_lastDemandMs st' = ns_lastDemandMs st /\ ns_view st' = ns_view st.
Proof. unfold ns_tick. intros Ht. repeat (case_match; simplify_eq); done. Qed.

Lemma ns_step_frame st e st' :
  ns_step st e = Some st' -> e <> NsRequestDeepScan ->
  ns_lastDemandMs st' = ns_lastDemandMs st /\
  ns_view st' = match e with NsWorldMoves v => v | _ => ns_view st end.
Proof.
  intros Hs Hne. destruct e; cbn [ns_step] in Hs; try done.
  - unfold ns_initialize in Hs. destruct (nv_selfNs _); simplify_eq; done.
  - unfold worker_start in Hs. repeat (case_match; simplify_eq); done.
  - repeat (case_match; simplify_eq); try done. by eapply ns_tick_frame.
  - destruct (ns_queued st); simplify_eq; [done|]. by apply ns_tick_frame in Hs.
  - by simplify_eq.
  - by simplify_eq.
  - by simplify_eq.
Qed.

(** Demand scans are rate limited over any run: two of them are at least
    250 ms apart, however often clients ask. *)
Theorem demand_scans_spaced st es :
  (0 < nv_nowMs (ns_view st))%Z -> Forall clockPositive es -> Sorted keepApart (demandLog st ++ demandTimes st es).
Proof.
  intros Hnow Hes. revert st Hnow. induction Hes as [|e es He Hes IH]; intros st Hnow; cbn [demandTimes].
  { rewrite app_nil_r. unfold demandLog. destruct (_ =? _)%Z; repeat constructor. }
  destruct (ns_step st e) as [st'|] eqn:Es; [|rewrite app_nil_r; unfold demandLog; destruct (_ =? _)%Z; repeat constructor].
  assert (Hd : e = NsRequestDeepScan \/ e <> NsRequestDeepScan) by (destruct e; (by left) || by right).
  destruct Hd as [->|Hne].
  - cbn [ns_step] in Es. injection Es as <-. unfold ns_requestDeepScan.
    destruct (negb (ns_ready st) || _); [rewrite bool_decide_eq_false_2 by lia; by apply IH|].
    destruct (negb (ns_lastDemandMs st =? 0)%Z && _) eqn:Ec; [rewrite bool_decide_eq_false_2 by lia; by apply IH|].
    cbn [ns_queued]. rewrite bool_decide_eq_true_2 by done. set (st1 := mkNetns _ _ _ _ _ _ _ _ _ _).
    pose proof (IH st1 Hnow) as Hi. unfold demandLog in Hi at 1. cbn [st1 ns_lastDemandMs] in Hi.
    destruct (nv_nowMs (ns_view st) =? 0)%Z eqn:E0; [blia|]. unfold demandLog.
    destruct (ns_lastDemandMs st =? 0)%Z eqn:El; [exact Hi|]. cbn [negb andb] in Ec. cbn [app] in *.
    constructor; [exact Hi|]. constructor. unfold keepApart. blia.
  - replace (match e with NsRequestDeepScan => _ | _ => [] end) with ([] : list Z) by (by destruct e). cbn [app].
    destruct (ns_step_frame st e st' Es Hne) as [Hl Hv].
    replace (demandLog st) with (demandLog st') by (unfold demandLog; by rewrite Hl). apply IH. rewrite Hv. destruct e; done.
Qed.
End Tick.

(* ------------------------------------------------------------------ *)
(** ** Witnesses: a host in namespace 1, containers in 2 and 3 *)

(** The datagram of one IPv4 socket followed by NLMSG_DONE. *)
Definition diagDatagram (m : DiagSock) : QByteArray :=
  let addr a := match a with AddrV4 z => beBytes 4 z | _ => beBytes 4 0 end ++ replicate 12 0%Z in
  [88; 0; 0; 0; 20; 0; 0; 0; 0; 0; 0; 0; 0; 0; 0; 0]%Z
  ++ [ds_family m; 0; 0; 0]%Z ++ beBytes 2 (ds_lport m) ++ beBytes 2 (ds_rport m)
  ++ addr (ds_local m) ++ addr (ds_remote m) ++ replicate 28 0%Z ++ reverse (beBytes 4 (ds_inode m))
  ++ [16; 0; 0; 0; 3; 0; 0; 0; 0; 0; 0; 0; 0; 0; 0; 0]%Z.

Definition nsSample : NetnsWorld := mkNsWorld
  (Some [qs "1"; qs "42"; qs "self"; qs "43"])
  (fun pid => if (pid =? 42)%Z then Some 2%Z else if (pid =? 43)%Z then Some 3%Z else Some 1%Z)
  (fun pid => Some (statLine pid (qs "dnsd") (replicate 19 (qs "0")) (700 + pid) []))
  (fun pid => Some (Some (if (pid =? 42)%Z then 2%Z else 3%Z)))
  (fun _ => true) (fun _ => true) (fun _ => true)
  (fun ns family proto =>
     if (family =? AF_INET)%Z && (proto =? kUdp)%Z
     then let d := diagDatagram (sampleSock (ns * 100)) in Some [RecvData d (Z.of_nat (length d))] else Some [])
  (fun pid => Some [(qs ".", None); (qs "3", Some (qs "socket:[" ++ number ((pid - 40) * 100) ++ qs "]"))]).

(** The same host with the first container only. *)
Definition nsSingle : NetnsWorld := mkNsWorld (Some [qs "1"; qs "42"]) (nw_netns nsSample) (nw_stat nsSample)
  (nw_open nsSample) (nw_enter nsSample) (nw_leave nsSample) (nw_socket nsSample) (nw_dump nsSample) (nw_fds nsSample).

Definition nsSampleView : NsView := mkNsView (Some 1%Z) 1000 (nw_stat nsSample) (fun _ => None).

#[local] Instance sampleUtf8 : QtUtf8 := id.

Definition nsRun (es : list NsEvent) : option NetnsScanner :=
  foldl (fun o e => match o with None => None | Some st => ns_step st e end)
    (Some (newNetns balancedResolverTuning nsSampleView)) es.

Lemma nsRun_reachable es st : nsRun es = Some st -> ns_reachable st.
Proof.
  unfold nsRun. revert st. induction es as [|e es IH] using rev_ind; intros st; [intros [= <-]; apply ns_new|].
  rewrite foldl_app. cbn [foldl]. destruct (foldl _ _ es) as [st1|] eqn:E1; [|done]. intros Hs. eapply ns_next; [by apply IH|done].
Qed.

(** A datagram to the container's resolver. *)
Definition containerFlow : Connection :=
  mkConnection (mkEndpoint (AddrV4 2886729730) 5353) (mkEndpoint (AddrV4 2886729731) 40000) Udp
    0 0 0 0 [] 0 Inbound TcpNone Resolved noProcess noContainer [].

Definition nsBoot : list NsEvent := [NsInitialize; NsStarted true true].


Definition bucket2 : NetnsBucket := mkBucket 2 [mkNetnsPid 42 742].
Definition bucket3 : NetnsBucket := mkBucket 3 [mkNetnsPid 43 743].
Definition mdnsKey : QByteArray := makeLocalKey kUdp (AddrV4 0) 5353.

(** Both containers listen on port 5353: neither gets the flow. *)
Lemma cross_netns_unambiguous_witness :
  exists st, ns_keyToInode st !! mdnsKey = Some kAmbiguousLocalInode.
Proof.
  destruct (nsRun nsBoot) as [st|] eqn:Er; [|vm_compute in Er; discriminate Er].
  assert (Hst : match nsRun nsBoot with
                | Some st => match ns_worker st with
                             | Some wk => negb (ns_stop st) && nsw_anchorFd wk && (nsw_anchorInode wk =? 1)%Z &&
                                 match ns_tick nsSample st with
                                 | Some st' => (Z.of_nat (size (ns_keyToInode st')) <? kMaxSocketEntries)%Z
                                 | None => false
                                 end
                             | None => false
                             end
                | None => false end = true) by (vm_compute; reflexivity).
  rewrite Er in Hst. destruct (ns_worker st) as [wk|] eqn:Ew; [|discriminate Hst].
  apply andb_true_iff in Hst as [Hst Ht]. apply andb_true_iff in Hst as [Hst Han]. apply andb_true_iff in Hst as [Hstop Ha].
  apply Z.eqb_eq in Han. destruct (ns_tick nsSample st) as [st'|] eqn:Et; [|discriminate Ht]. exists st'.
  refine (cross_netns_unambiguous nsSample st wk st' bucket2 bucket3 mdnsKey 200 300 (nsRun_reachable _ _ Er)
    (proj1 (negb_true_iff _) Hstop) Ew Ha _ Et (proj1 (Z.ltb_lt _ _) Ht) _ _ _ _ _ _ _ _ _).
  - eexists. reflexivity.
  - rewrite Han. replace (bucketsOf nsSample 1) with [bucket2; bucket3] by (vm_compute; reflexivity). left.
  - exists (mkNetnsPid 42 742), []. repeat split.
  - vm_compute. reflexivity.
  - split; [reflexivity|]. right. eexists. vm_compute. reflexivity.
  - rewrite Han. replace (bucketsOf nsSample 1) with [bucket2; bucket3] by (vm_compute; reflexivity). right. left.
  - exists (mkNetnsPid 43 743), []. repeat split.
  - vm_compute. reflexivity.
  - split; [reflexivity|]. right. eexists. vm_compute. reflexivity.
  - discriminate.
Defined.

Lemma demand_scans_spaced_witness :
  exists st, demandTimes st [NsRequestDeepScan; NsRequestDeepScan] = [1000]%Z /\
    Sorted keepApart (demandLog st ++ demandTimes st [NsRequestDeepScan; NsRequestDeepScan]).
Proof.
  assert (Hst : match nsRun nsBoot with
                | Some st => bool_decide (demandTimes st [NsRequestDeepScan; NsRequestDeepScan] = [1000%Z]) && (0 <? nv_nowMs (ns_view st))%Z
                | None => false end = true) by (vm_compute; reflexivity).
  destruct (nsRun nsBoot) as [st|]; [|discriminate Hst]. apply andb_true_iff in Hst as [Hd Hn]. exists st.
  split; [exact (proj1 (bool_decide_eq_true _) Hd)|].
  apply (demand_scans_spaced st [NsRequestDeepScan; NsRequestDeepScan] (proj1 (Z.ltb_lt _ _) Hn)). repeat constructor.
Defined.

Lemma tuple_last_writer_witness :
  fst (mergeKey {[300%Z := mkStamp 43 743]} ({[flowKeyOf sampleTcp := 200%Z]}, false) (flowKeyOf sampleTcp, 300%Z))
    !! flowKeyOf sampleTcp = Some 300%Z.
Proof. apply tuple_last_writer; [reflexivity|eexists; reflexivity|eexists; apply lookup_singleton_eq]. Defined.
