(* ===== verification/Conntrack.v ===== *)
(** * The in-process Linux monitors: [src/backend/linux/ConntrackMonitor.cpp],
      [NetlinkWorker.cpp], [NetlinkMonitor.cpp]

    The conntrack worker turns a kernel dump into a snapshot: decode and
    orient each entry, find its interface (through two caches kept across
    polls), keep the loudest flows, attribute the result once.  What the
    kernel answers during one poll is a [CtWorld].

    [QHostAddress] compares and hashes IPv6 addresses without their scope id;
    tables keyed by addresses store them through [unscoped]. *)

From S2P Require Import Prelude Qt StdAlgo Conn Heuristics Resolver Attribution TopK DbusTypes SockDump Service Agent Lru Netns.

Definition unscoped (a : QHostAddress) : QHostAddress := match a with AddrV6 z _ => AddrV6 z [] | _ => a end.

Definition kRouteCacheMaxEntries : nat := 8192.
Definition kIfIndexCacheMaxEntries : nat := 256.
Definition kMaxInProcessFlows : Z := 4096.

(** One entry of the kernel's table, by its attributes. *)
Record CtEntry := mkCtEntry {
  ct_l3 : Z;                     (* ATTR_ORIG_L3PROTO *)
  ct_l4 : Z;                     (* ATTR_ORIG_L4PROTO *)
  ct_v4src : Z; ct_v4dst : Z;    (* in host order *)
  ct_v6src : option Z; ct_v6dst : option Z;
  ct_sport : Z; ct_dport : Z;    (* in host order *)
  ct_origBytes : option Z; ct_replBytes : option Z;
  ct_origPkts : option Z; ct_replPkts : option Z;
  ct_tcpState : option Z;
}.

(** One family's dump: what came through the callback, and the error of the
    query if it failed: its text, and whether it is EPERM or EACCES. *)
Record CtDump := mkCtDump { cd_entries : list CtEntry; cd_error : option (QString * bool) }.

Record CtWorld := mkCtWorld {
  cw_interfaces : list (QString * list QHostAddress);   (* QNetworkInterface::allInterfaces *)
  cw_route : QHostAddress -> QHostAddress;              (* routeSourceForDest *)
  cw_ifindex : QString -> Z;                            (* if_nametoindex, 0 on failure *)
  cw_open : option QString;                             (* nfct_open: error text on failure *)
  cw_dumps : list CtDump;                               (* AF_INET, AF_INET6 *)
}.

Abbreviation AddrToIface := (gmap QHostAddress QString).

Definition buildIfaceMap (ifaces : list (QString * list QHostAddress)) : AddrToIface :=
  foldl (fun m i => foldl (fun m ip => <[unscoped ip := fst i]> m) m (snd i)) ∅ ifaces.

(** The two caches of the worker. *)
Record CtCaches := mkCaches {
  cc_route : LruCache QHostAddress QString;
  cc_ifIndex : LruCache QString Z;
}.

Section Poll.
Context (w : CtWorld).

Definition cachedIfIndex (name : QString) (cache : LruCache QString Z) : Z * LruCache QString Z :=
  if isEmpty name then (0%Z, cache)
  else match lru_find name cache with
       | (Some idx, cache) => (idx, cache)
       | (None, cache) => let idx := cw_ifindex w name in (idx, lru_insert name idx cache)
       end.

Definition attributeIface (byAddr : AddrToIface) (local remote : QHostAddress) (cache : LruCache QHostAddress QString)
    : QString * LruCache QHostAddress QString :=
  match byAddr !! unscoped local with
  | Some name => (name, cache)
  | None =>
      if addrIsNull remote then ([], cache)
      else match lru_find (unscoped remote) cache with
           | (Some iface, cache) => (iface, cache)
           | (None, cache) =>
               let src := cw_route w remote in
               let iface := if addrIsNull src then [] else default [] (byAddr !! unscoped src) in
               (iface, lru_insert (unscoped remote) iface cache)
           end
  end.

Definition protoOfIana (l4 : Z) : option L4Proto :=
  if (l4 =? 6)%Z then Some Tcp
  else if (l4 =? 17)%Z then Some Udp
  else if (l4 =? 1)%Z then Some Icmp
  else if (l4 =? 58)%Z then Some IcmpV6
  else None.

Definition entryAddrs (e : CtEntry) : option (QHostAddress * QHostAddress) :=
  if (ct_l3 e =? AF_INET)%Z then Some (AddrV4 (ct_v4src e), AddrV4 (ct_v4dst e))
  else if (ct_l3 e =? AF_INET6)%Z then
    match ct_v6src e, ct_v6dst e with
    | Some s, Some d => Some (AddrV6 s [], AddrV6 d [])
    | _, _ => None
    end
  else None.

Definition ctCounter (a : option Z) : Z := default 0%Z a.

(** The flow of an entry, before its interface; [None] when it is skipped. *)
Definition decodeEntry (localAddrs : gset QHostAddress) (e : CtEntry) : option Connection :=
  match protoOfIana (ct_l4 e) with
  | None => None
  | Some proto =>
      match entryAddrs e with
      | None => None
      | Some (src, dst) =>
          let ports := bool_decide (proto = Tcp) || bool_decide (proto = Udp) in
          let sport := if ports then ct_sport e else 0%Z in
          let dport := if ports then ct_dport e else 0%Z in
          Some (orientConntrackFlow src dst sport dport proto (ctCounter (ct_origBytes e)) (ctCounter (ct_replBytes e))
                  (ctCounter (ct_origPkts e)) (ctCounter (ct_replPkts e)) localAddrs)
      end
  end.

Definition setIface (name : QString) (index : Z) (c : Connection) : Connection :=
  mkConnection (c_local c) (c_remote c) (c_proto c) (c_rxBytes c) (c_txBytes c) (c_rxPackets c) (c_txPackets c)
    name index (c_direction c) (c_tcpState c) (c_reason c) (c_process c) (c_container c) (c_containerChain c).

Definition setTcpState (st : TcpState) (c : Connection) : Connection :=
  mkConnection (c_local c) (c_remote c) (c_proto c) (c_rxBytes c) (c_txBytes c) (c_rxPackets c) (c_txPackets c)
    (c_iface c) (c_ifIndex c) (c_direction c) st (c_reason c) (c_process c) (c_container c) (c_containerChain c).

Definition withTcpState (e : CtEntry) (c : Connection) : Connection :=
  match c_proto c, ct_tcpState e with
  | Tcp, Some raw => setTcpState (if (raw <=? tcpStateInt SynSent2)%Z then tcpStateOfInt raw else TcpNone) c
  | _, _ => c
  end.

Section Callback.
Context `{StdHeap}.

(** What a dump carries from entry to entry. *)
Record PollCtx := mkPollCtx { px_out : list Connection; px_caches : CtCaches; px_seen : Z }.

Definition nfctCallback (byAddr : AddrToIface) (localAddrs : gset QHostAddress) (ctx : PollCtx) (e : CtEntry) : PollCtx :=
  match decodeEntry localAddrs e with
  | None => ctx
  | Some c =>
      let '(iface, route) := attributeIface byAddr (ep_address (c_local c)) (ep_address (c_remote c)) (cc_route (px_caches ctx)) in
      let '(index, ifIndex) := cachedIfIndex iface (cc_ifIndex (px_caches ctx)) in
      let c := withTcpState e (setIface iface index c) in
      mkPollCtx (admitFlowTopK (px_out ctx) c kMaxInProcessFlows) (mkCaches route ifIndex) (px_seen ctx + 1)
  end.
End Callback.
End Poll.

(* ------------------------------------------------------------------ *)
(** ** The worker *)

Inductive CtSignal :=
| ConnectionsUpdated (flows : list Connection)
| PermissionDenied (detail : QString)
| AccountingUnavailable.

(** The timer: none before [start], else its interval and whether it runs. *)
Definition PollTimer : Type := option (Z * bool).

Definition timerSetInterval (ms : Z) (t : PollTimer) : PollTimer :=
  match t with
  | None => None
  | Some (iv, active) => if (ms <=? 0)%Z then Some (iv, false) else Some (ms, true)
  end.

Record CtWorker (S : Type) := mkCtWorker {
  cx_timer : PollTimer;
  cx_warnedOpen : bool;
  cx_warnedDump : bool;
  cx_warnedCap : bool;
  cx_acctChecked : bool;
  cx_resolver : option (Resolver S);
  cx_wantChain : bool;
  cx_caches : CtCaches;
  cx_state : S;                  (* what the resolver keeps and sees *)
}.
Arguments mkCtWorker {S}. Arguments cx_timer {S}. Arguments cx_warnedOpen {S}. Arguments cx_warnedDump {S}.
Arguments cx_warnedCap {S}. Arguments cx_acctChecked {S}. Arguments cx_resolver {S}. Arguments cx_wantChain {S}.
Arguments cx_caches {S}. Arguments cx_state {S}.

(** What [ensureAccountingEnabled] finds: the sysctl's content, and whether
    it can be opened for writing and takes the write. *)
Record AcctWorld := mkAcct { aw_content : option QByteArray; aw_writable : bool; aw_written : bool }.

Section Worker.
Context {S : Type} `{StdHeap} (startTimeOf : S -> Z -> Z).

Definition emptyCaches : CtCaches := mkCaches (newLru kRouteCacheMaxEntries) (newLru kIfIndexCacheMaxEntries).

(** A new worker after [setResolver]. *)
Definition newCtWorker (resolver : option (Resolver S)) (s : S) : CtWorker S :=
  let caps := match resolver with Some r => r_capabilities r s | None => [] end in
  mkCtWorker None false false false false resolver
    (hasToken (qs "container-attribution") caps && hasToken (qs "container-chain") caps) emptyCaches s.

Definition ensureAccountingEnabled (a : AcctWorld) (checked : bool) : list CtSignal :=
  if checked then []
  else match aw_content a with
       | None => [AccountingUnavailable]
       | Some content =>
           if qeqb (byteTrimmed content) (qs "1") then []
           else if negb (aw_writable a) then [AccountingUnavailable]
           else if negb (aw_written a) then [AccountingUnavailable]
           else []
       end.

Definition ct_start (a : AcctWorld) (wk : CtWorker S) : CtWorker S * list CtSignal :=
  (mkCtWorker (Some (1000%Z, true)) (cx_warnedOpen wk) (cx_warnedDump wk) (cx_warnedCap wk) true
     (cx_resolver wk) (cx_wantChain wk) (cx_caches wk) (cx_state wk),
   ensureAccountingEnabled a (cx_acctChecked wk)).

Definition set_timer (t : PollTimer) (wk : CtWorker S) : CtWorker S :=
  mkCtWorker t (cx_warnedOpen wk) (cx_warnedDump wk) (cx_warnedCap wk) (cx_acctChecked wk)
    (cx_resolver wk) (cx_wantChain wk) (cx_caches wk) (cx_state wk).
Definition ct_stop (wk : CtWorker S) : CtWorker S := set_timer None wk.
Definition ct_setPollIntervalMs (ms : Z) (wk : CtWorker S) : CtWorker S := set_timer (timerSetInterval ms (cx_timer wk)) wk.

Definition applyAttribution (flows : list Connection) (wk : CtWorker S) : list Connection * S :=
  attributeFlows (cx_resolver wk) startTimeOf (cx_wantChain wk) flows (cx_state wk).

(** The dump loop: the callback over every entry, the first failure warned
    about. *)
Definition dumpFamily (w : CtWorld) (byAddr : AddrToIface) (localAddrs : gset QHostAddress)
    (acc : PollCtx * bool * list CtSignal) (d : CtDump) : PollCtx * bool * list CtSignal :=
  let '(ctx, warned, out) := acc in
  let ctx := foldl (nfctCallback w byAddr localAddrs) ctx (cd_entries d) in
  match cd_error d with
  | None => (ctx, warned, out)
  | Some (text, denied) =>
      if warned then (ctx, warned, out)
      else (ctx, true, out ++ (if denied : bool then [PermissionDenied text] else []))
  end.

Definition ct_poll (w : CtWorld) (wk : CtWorker S) : CtWorker S * list CtSignal :=
  let byAddr := buildIfaceMap (cw_interfaces w) in
  let localAddrs := dom byAddr in
  match cw_open w with
  | Some text =>
      let '(flows, s) := applyAttribution [] wk in
      (mkCtWorker (cx_timer wk) true (cx_warnedDump wk) (cx_warnedCap wk) (cx_acctChecked wk) (cx_resolver wk)
         (cx_wantChain wk) (cx_caches wk) s,
       (if cx_warnedOpen wk then [] else [PermissionDenied text]) ++ [ConnectionsUpdated flows])
  | None =>
      let '(ctx, warned, out) :=
        foldl (dumpFamily w byAddr localAddrs) (mkPollCtx [] (cx_caches wk) 0, cx_warnedDump wk, []) (cw_dumps w) in
      let '(flows, s) := applyAttribution (px_out ctx) wk in
      (mkCtWorker (cx_timer wk) (cx_warnedOpen wk) warned
         (cx_warnedCap wk || (kMaxInProcessFlows <? px_seen ctx)%Z) (cx_acctChecked wk) (cx_resolver wk)
         (cx_wantChain wk) (px_caches ctx) s,
       out ++ [ConnectionsUpdated flows])
  end.

(** [ConntrackMonitor::capabilities]; the resolver's tokens are those of its
    construction. *)
Definition ct_capabilities (resolverCaps : list QString) : list QString :=
  [qs "iana-proto"; qs "tcp-state"] ++ attributionWireTokens resolverCaps.
End Worker.

(* ------------------------------------------------------------------ *)
(** ** A snapshot without caches *)

Section Reference.
Context (w : CtWorld).

Definition routeIface (byAddr : AddrToIface) (remote : QHostAddress) : QString :=
  let src := cw_route w remote in if addrIsNull src then [] else default [] (byAddr !! unscoped src).

(** The interface of a flow: the one that owns the local address, else the
    one the kernel routes the remote address through. *)
Definition ifaceOf (byAddr : AddrToIface) (local remote : QHostAddress) : QString :=
  match byAddr !! unscoped local with
  | Some name => name
  | None => if addrIsNull remote then [] else routeIface byAddr remote
  end.

Definition indexOfIface (name : QString) : Z := if isEmpty name then 0%Z else cw_ifindex w name.

(** The flow of one entry, asking the kernel afresh. *)
Definition kernelFlow (byAddr : AddrToIface) (localAddrs : gset QHostAddress) (e : CtEntry) : option Connection :=
  (fun c => let iface := ifaceOf byAddr (ep_address (c_local c)) (ep_address (c_remote c)) in
            withTcpState e (setIface iface (indexOfIface iface) c)) <$> decodeEntry localAddrs e.

(** Every cached answer is the one the kernel would give now. *)
Record caches_ok (byAddr : AddrToIface) (cc : CtCaches) : Prop := {
  ck_route : lru_ok (cc_route cc);
  ck_index : lru_ok (cc_ifIndex cc);
  ck_routes : forall a v, lru_items (cc_route cc) !! a = Some v -> v = routeIface byAddr a;
  ck_indexes : forall n i, lru_items (cc_ifIndex cc) !! n = Some i -> i = cw_ifindex w n;
}.

(** What a cache holds after an operation it held before, or was given. *)
Lemma lru_find_items {K V} `{Countable K} k (c : LruCache K V) :
  lru_ok c -> lru_ok (snd (lru_find k c)) /\ lru_items (snd (lru_find k c)) = lru_items c /\ fst (lru_find k c) = lru_items c !! k.
Proof.
  intros Hok. unfold lru_find. destruct (lru_items c !! k) as [v|] eqn:Ek; cbn [fst snd]; [|done].
  destruct (touch_abs c k v Hok) as [Ho _]; [by eexists|]. rewrite insert_id in Ho by done. done.
Qed.

Lemma lru_insert_items {K V} `{Countable K} k v (c : LruCache K V) :
  lru_ok c -> lru_ok (lru_insert k v c) /\
  forall k' v', lru_items (lru_insert k v c) !! k' = Some v' -> (k' = k /\ v' = v) \/ lru_items c !! k' = Some v'.
Proof.
  intros Hok. destruct (lru_items c !! k) as [v0|] eqn:Ek.
  - destruct (touch_abs c k v Hok) as [Ho _]; [by eexists|]. unfold lru_insert. rewrite Ek. split; [exact Ho|].
    cbn [lru_items]. intros k' v' Hl. apply lookup_insert_Some in Hl as [[<- <-]|[_ ?]]; [by left|by right].
  - destruct (decide (lru_maxEntries c = 0)) as [E0|E0].
    + unfold lru_insert. rewrite Ek, E0. cbn [Nat.eqb]. split; [done|by right].
    + destruct (insert_new_abs c k v Hok Ek E0) as [Ho _]. split; [done|]. unfold lru_insert. rewrite Ek.
      destruct (_ =? 0)%nat; [by right|]. cbn [lru_maxEntries lru_items].
      destruct (_ <? _)%nat; intros k' v' Hl.
      * unfold evictLeastRecent in Hl. destruct (last _); cbn [lru_items] in Hl;
          [apply lookup_delete_Some in Hl as [_ Hl]|]; apply lookup_insert_Some in Hl as [[<- <-]|[_ ?]]; auto.
      * cbn [lru_items] in Hl. apply lookup_insert_Some in Hl as [[<- <-]|[_ ?]]; auto.
Qed.

Lemma attributeIface_ok byAddr cc local remote :
  caches_ok byAddr cc -> unscoped remote = remote ->
  let '(iface, route) := attributeIface w byAddr local remote (cc_route cc) in
  iface = ifaceOf byAddr local remote /\ caches_ok byAddr (mkCaches route (cc_ifIndex cc)).
Proof.
  intros [Hr Hi Hrs His] Hu. unfold attributeIface, ifaceOf. destruct (byAddr !! unscoped local) as [name|].
  { split; [done|]. by split. }
  destruct (addrIsNull remote); [split; [done|]; by split|]. rewrite Hu.
  destruct (lru_find_items remote (cc_route cc) Hr) as (Ho & Heq & Hf).
  destruct (lru_find remote (cc_route cc)) as [o route]. cbn [fst snd] in *. subst o.
  destruct (lru_items (cc_route cc) !! remote) as [v|] eqn:Ev.
  - split; [by apply Hrs|]. split; cbn [cc_route cc_ifIndex]; try done. intros a u. rewrite Heq. apply Hrs.
  - fold (routeIface byAddr remote). split; [done|].
    destruct (lru_insert_items remote (routeIface byAddr remote) route Ho) as [Ho' Hit].
    split; cbn [cc_route cc_ifIndex]; try done. intros a u Hl. destruct (Hit a u Hl) as [[-> ->]|Hl']; [done|].
    rewrite Heq in Hl'. by apply Hrs.
Qed.

Lemma cachedIfIndex_ok byAddr cc name :
  caches_ok byAddr cc ->
  let '(index, ifIndex) := cachedIfIndex w name (cc_ifIndex cc) in
  index = indexOfIface name /\ caches_ok byAddr (mkCaches (cc_route cc) ifIndex).
Proof.
  intros [Hr Hi Hrs His]. unfold cachedIfIndex, indexOfIface. destruct (isEmpty name); [split; [done|by split]|].
  destruct (lru_find_items name (cc_ifIndex cc) Hi) as (Ho & Heq & Hf).
  destruct (lru_find name (cc_ifIndex cc)) as [o ix]. cbn [fst snd] in *. subst o.
  destruct (lru_items (cc_ifIndex cc) !! name) as [v|] eqn:Ev.
  - split; [by apply His|]. split; cbn [cc_route cc_ifIndex]; try done. intros a u. rewrite Heq. apply His.
  - split; [done|]. destruct (lru_insert_items name (cw_ifindex w name) ix Ho) as [Ho' Hit].
    split; cbn [cc_route cc_ifIndex]; try done. intros a u Hl. destruct (Hit a u Hl) as [[-> ->]|Hl']; [done|].
    rewrite Heq in Hl'. by apply His.
Qed.

Lemma entryAddrs_unscoped e s d : entryAddrs e = Some (s, d) -> unscoped s = s /\ unscoped d = d.
Proof. unfold entryAddrs. intros He. repeat (case_match; simplify_eq); done. Qed.

Lemma decodeEntry_unscoped localAddrs e c :
  decodeEntry localAddrs e = Some c -> unscoped (ep_address (c_remote c)) = ep_address (c_remote c).
Proof.
  unfold decodeEntry. destruct (protoOfIana (ct_l4 e)); [|done]. destruct (entryAddrs e) as [[s d]|] eqn:Ea; [|done].
  apply entryAddrs_unscoped in Ea as [Hs Hd]. intros [= <-]. unfold orientConntrackFlow. by case_match.
Qed.

Context `{StdHeap}.

Lemma nfctCallback_ok byAddr localAddrs ctx e :
  caches_ok byAddr (px_caches ctx) ->
  let ctx' := nfctCallback w byAddr localAddrs ctx e in
  caches_ok byAddr (px_caches ctx') /\
  px_out ctx' = match kernelFlow byAddr localAddrs e with
                | Some c => admitFlowTopK (px_out ctx) c kMaxInProcessFlows | None => px_out ctx end.
Proof.
  intros Hc. unfold nfctCallback, kernelFlow. destruct (decodeEntry localAddrs e) as [c|] eqn:Ed; [|done].
  cbn [fmap option_fmap option_map]. apply decodeEntry_unscoped in Ed.
  pose proof (attributeIface_ok byAddr (px_caches ctx) (ep_address (c_local c)) _ Hc Ed) as Ha.
  destruct (attributeIface w byAddr _ _ _) as [iface route]. destruct Ha as [-> Hc1].
  pose proof (cachedIfIndex_ok byAddr _ (ifaceOf byAddr (ep_address (c_local c)) (ep_address (c_remote c))) Hc1) as Hi.
  cbn [cc_ifIndex cc_route] in Hi. destruct (cachedIfIndex w _ _) as [index ix]. destruct Hi as [-> Hc2].
  cbn [px_caches px_out]. done.
Qed.

Lemma callbacks_ok byAddr localAddrs entries ctx :
  caches_ok byAddr (px_caches ctx) ->
  let ctx' := foldl (nfctCallback w byAddr localAddrs) ctx entries in
  caches_ok byAddr (px_caches ctx') /\
  px_out ctx' = foldl (fun heap c => admitFlowTopK heap c kMaxInProcessFlows) (px_out ctx) (omap (kernelFlow byAddr localAddrs) entries).
Proof.
  revert ctx. induction entries as [|e entries IH]; intros ctx Hc; [done|]. cbn [foldl omap list_omap].
  destruct (nfctCallback_ok byAddr localAddrs ctx e Hc) as [Hc' Ho]. destruct (IH _ Hc') as [I1 I2]. split; [done|].
  rewrite I2, Ho. by destruct (kernelFlow byAddr localAddrs e).
Qed.

Lemma dumps_ok byAddr localAddrs dumps ctx warned out :
  caches_ok byAddr (px_caches ctx) ->
  let '(ctx', _, _) := foldl (dumpFamily w byAddr localAddrs) (ctx, warned, out) dumps in
  caches_ok byAddr (px_caches ctx') /\
  px_out ctx' = foldl (fun heap c => admitFlowTopK heap c kMaxInProcessFlows) (px_out ctx)
                  (omap (kernelFlow byAddr localAddrs) (concat (map cd_entries dumps))).
Proof.
  revert ctx warned out. induction dumps as [|d dumps IH]; intros ctx warned out Hc; [done|]. cbn [foldl map concat].
  destruct (callbacks_ok byAddr localAddrs (cd_entries d) ctx Hc) as [Hc' Ho]. unfold dumpFamily at 2.
  rewrite omap_app, foldl_app, <- Ho.
  destruct (cd_error d) as [[text denied]|]; [destruct warned|]; by apply IH.
Qed.
End Reference.

Section Snapshot.
Context {S : Type} `{StdHeapLaws} (startTimeOf : S -> Z -> Z).

(** What a poll sees of the kernel's table, entry by entry. *)
Definition visibleFlows (w : CtWorld) : list Connection :=
  let byAddr := buildIfaceMap (cw_interfaces w) in
  omap (kernelFlow w byAddr (dom byAddr)) (concat (map cd_entries (cw_dumps w))).


Definition denied (s : CtSignal) : bool := match s with PermissionDenied _ => true | _ => false end.
Definition countDenied (ss : list CtSignal) : nat := length (filter (fun s => denied s = true) ss).

Fixpoint ct_polls (ws : list CtWorld) (wk : CtWorker S) : CtWorker S * list CtSignal :=
  match ws with
  | [] => (wk, [])
  | w :: ws => let '(wk, out) := ct_poll startTimeOf w wk in let '(wk, out') := ct_polls ws wk in (wk, out ++ out')
  end.

Definition allowance (wk : CtWorker S) : nat := (if cx_warnedOpen wk then 0 else 1) + (if cx_warnedDump wk then 0 else 1).

Lemma countDenied_app a b : countDenied (a ++ b) = countDenied a + countDenied b.
Proof. unfold countDenied. by rewrite filter_app, length_app. Qed.

Lemma dumps_denied w byAddr localAddrs dumps ctx warned out :
  let '(_, warned', out') := foldl (dumpFamily w byAddr localAddrs) (ctx, warned, out) dumps in
  countDenied out' + (if warned' then 0 else 1) <= countDenied out + (if warned then 0 else 1).
Proof.
  revert ctx warned out. induction dumps as [|d dumps IH]; intros ctx warned out; [cbn [foldl]; lia|]. cbn [foldl]. unfold dumpFamily at 2.
  destruct (cd_error d) as [[text dn]|]; [destruct warned|]; try apply IH.
  set (ctx1 := foldl _ ctx _). pose proof (IH ctx1 true (out ++ (if dn then [PermissionDenied text] else []))) as Hi.
  destruct (foldl _ _ dumps) as [[? warned'] out']. rewrite countDenied_app in Hi.
  assert (Hone : countDenied (if dn then [PermissionDenied text] else []) <= 1) by (destruct dn; vm_compute; lia). lia.
Qed.

Lemma ct_poll_denied w wk :
  let '(wk', out) := ct_poll startTimeOf w wk in countDenied out + allowance wk' <= allowance wk.
Proof.
  unfold ct_poll, allowance. destruct (cw_open w) as [text|].
  - destruct (applyAttribution startTimeOf [] wk) as [flows s]. cbn [cx_warnedOpen cx_warnedDump].
    rewrite countDenied_app. change (countDenied [ConnectionsUpdated flows]) with 0.
    assert (Hone : countDenied [PermissionDenied text] = 1) by reflexivity.
    destruct (cx_warnedOpen wk), (cx_warnedDump wk); rewrite ?Hone; change (countDenied []) with 0; lia.
  - pose proof (dumps_denied w (buildIfaceMap (cw_interfaces w)) (dom (buildIfaceMap (cw_interfaces w))) (cw_dumps w)
      (mkPollCtx [] (cx_caches wk) 0) (cx_warnedDump wk) []) as Hd.
    destruct (foldl _ _ (cw_dumps w)) as [[ctx warned] out]. destruct (applyAttribution startTimeOf _ wk) as [flows s].
    cbn [cx_warnedOpen cx_warnedDump]. rewrite countDenied_app.
    change (countDenied [ConnectionsUpdated flows]) with 0. change (countDenied []) with 0 in Hd. lia.
Qed.

(** Missing permission is reported at most twice in the life of a worker,
    once for opening the table and once for dumping it, however often it
    polls. *)
Theorem permission_reported_once ws wk : countDenied (snd (ct_polls ws wk)) <= 2.
Proof.
  enough (He : countDenied (snd (ct_polls ws wk)) <= allowance wk) by (unfold allowance in He; repeat case_match; lia).
  revert wk. induction ws as [|w ws IH]; intros wk; cbn [ct_polls]; [cbn; lia|].
  pose proof (ct_poll_denied w wk) as Hp. destruct (ct_poll startTimeOf w wk) as [wk1 out]. specialize (IH wk1).
  destruct (ct_polls ws wk1) as [wk2 out']. cbn [snd] in *. rewrite countDenied_app. lia.
Qed.
End Snapshot.

(** A host with one address; one TCP and one unknown entry. *)
Definition ctSample : CtWorld := mkCtWorld [(qs "eth0", [AddrV4 167772162; AddrV6 5 (qs "eth0")])]
  (fun _ => AddrV4 167772162) (fun n => if qeqb n (qs "eth0") then 2%Z else 0%Z) None
  [mkCtDump [mkCtEntry 2 6 167772162 16843009 None None 45000 443 (Some 500%Z) (Some 1000%Z) None None (Some 3%Z);
             mkCtEntry 2 132 1 2 None None 0 0 None None None None None] None;
   mkCtDump [mkCtEntry 10 17 0 0 (Some 7%Z) (Some 8%Z) 53 53 None None None None None] (Some (qs "EPERM", true))].

Definition rowsOf (s : option CtSignal) : list (Z * QString * Z * TcpState) :=
  match s with
  | Some (ConnectionsUpdated flows) => map (fun c => (c_txBytes c, c_iface c, c_ifIndex c, c_tcpState c)) flows
  | _ => []
  end.


(* ------------------------------------------------------------------ *)
(** ** The monitor object and its thread

    [ConntrackMonitor] and [NetlinkMonitor] own a thread and a worker living
    in it.  Starting the thread starts the worker; when the thread finishes,
    the worker is deleted, while [m_worker] keeps its value. *)

Inductive WorkerPtr (W : Type) := LiveWorker (wk : W) | DeletedWorker.
Arguments LiveWorker {W}. Arguments DeletedWorker {W}.

Record ThreadMonitor (W : Type) := mkThreadMonitor { tm_running : bool; tm_worker : WorkerPtr W }.
Arguments mkThreadMonitor {W}. Arguments tm_running {W}. Arguments tm_worker {W}.

Inductive MonitorCall := CallStart | CallStop | CallSetPollIntervalMs (ms : Z).

Section ThreadMonitor.
Context {W : Type} (start : W -> W) (setPoll : Z -> W -> W).

Definition newThreadMonitor (wk : W) : ThreadMonitor W := mkThreadMonitor false (LiveWorker wk).

Definition tm_start (m : ThreadMonitor W) : ThreadMonitor W :=
  if tm_running m then m
  else mkThreadMonitor true (match tm_worker m with LiveWorker wk => LiveWorker (start wk) | DeletedWorker => DeletedWorker end).

Definition tm_stop (m : ThreadMonitor W) : ThreadMonitor W :=
  if negb (tm_running m) then m else mkThreadMonitor false DeletedWorker.

(** [None]: a call through the dangling pointer. *)
Definition tm_setPollIntervalMs (ms : Z) (m : ThreadMonitor W) : option (ThreadMonitor W) :=
  if negb (tm_running m) then Some m
  else match tm_worker m with
       | LiveWorker wk => Some (mkThreadMonitor true (LiveWorker (setPoll ms wk)))
       | DeletedWorker => None
       end.

Definition tm_call (m : ThreadMonitor W) (c : MonitorCall) : option (ThreadMonitor W) :=
  match c with
  | CallStart => Some (tm_start m)
  | CallStop => Some (tm_stop m)
  | CallSetPollIntervalMs ms => tm_setPollIntervalMs ms m
  end.

Fixpoint tm_run (m : ThreadMonitor W) (cs : list MonitorCall) : option (ThreadMonitor W) :=
  match cs with [] => Some m | c :: cs => match tm_call m c with Some m => tm_run m cs | None => None end end.

(** No start after a stop that stopped something. *)
Fixpoint startedOnce (running stopped : bool) (cs : list MonitorCall) : bool :=
  match cs with
  | [] => true
  | CallStart :: cs => negb stopped && startedOnce true stopped cs
  | CallStop :: cs => startedOnce false (stopped || running) cs
  | CallSetPollIntervalMs _ :: cs => startedOnce running stopped cs
  end.

Lemma tm_run_defined m cs :
  (tm_running m = true -> exists wk, tm_worker m = LiveWorker wk) ->
  startedOnce (tm_running m) (match tm_worker m with LiveWorker _ => false | DeletedWorker => true end) cs = true ->
  is_Some (tm_run m cs).
Proof.
  revert m. induction cs as [|c cs IH]; intros m Hw Hs; [by eexists|].
  destruct m as [running [w|]]; cbn [tm_running tm_worker] in *.
  2: { destruct running; [by destruct (Hw eq_refl)|]. destruct c; [done| |]; by apply (IH (mkThreadMonitor false DeletedWorker)). }
  destruct running, c; cbn in *;
    match goal with |- is_Some (tm_run ?m cs) => apply (IH m); [|exact Hs] end; cbn; intros; done || by eexists.
Qed.

(** Started at most once, a monitor never touches its deleted worker,
    whatever the order of the other calls; restarted after a stop it does at
    the next change of the interval. *)
Theorem monitor_lifecycle wk cs :
  (startedOnce false false cs = true -> is_Some (tm_run (newThreadMonitor wk) cs)) /\
  forall ms, tm_run (newThreadMonitor wk) [CallStart; CallStop; CallStart; CallSetPollIntervalMs ms] = None.
Proof. split; [|done]. intros Hs. by apply tm_run_defined. Qed.
End ThreadMonitor.

Lemma monitor_lifecycle_witness :
  is_Some (tm_run (W := unit) id (fun _ => id) (newThreadMonitor tt) [CallSetPollIntervalMs 5; CallStart; CallSetPollIntervalMs 0; CallStop]).
Proof. apply (proj1 (monitor_lifecycle id (fun _ => id) tt [CallSetPollIntervalMs 5; CallStart; CallSetPollIntervalMs 0; CallStop])). reflexivity. Defined.
