(* ===== verification/Netlink.v ===== *)
(** * Interface statistics: [src/backend/linux/NetlinkWorker.cpp], [NetlinkMonitor.cpp]

    The worker holds a netlink socket and two libnl caches between [start]
    and [stop] and turns them into one [InterfaceStats] per link at every
    poll.  The caches' content at a poll is an argument. *)

From S2P Require Import Prelude Qt DbusTypes Conntrack.

(** One link and one address as libnl reports them. *)
Record RtLink := mkRtLink {
  rl_name : QString; rl_kind : option QString; rl_arptype : Z; rl_flags : Z; rl_mtu : Z; rl_ifindex : Z; rl_operstate : Z;
  rl_rxBytes : Z; rl_txBytes : Z; rl_rxPackets : Z; rl_txPackets : Z;
  rl_rxErrors : Z; rl_txErrors : Z; rl_rxDropped : Z; rl_txDropped : Z;
}.
Record RtAddr := mkRtAddr { ra_scope : Z; ra_ifindex : Z; ra_local : option QString; ra_prefixlen : Z }.

Definition RT_SCOPE_LINK : Z := 253.
Definition IFF_UP_bit : Z := 0.
Definition IFF_LOOPBACK_bit : Z := 3.

Definition classifyLink (link : RtLink) (isLoopback : bool) : QString :=
  if isLoopback then qs "loopback"
  else match rl_kind link with
       | Some ((_ :: _) as kind) => kind
       | _ =>
           if (rl_arptype link =? 1)%Z then qs "ethernet"
           else if (rl_arptype link =? 512)%Z then qs "ppp"
           else if (rl_arptype link =? 768)%Z then qs "ipip"
           else if (rl_arptype link =? 769)%Z then qs "ip6tnl"
           else if (rl_arptype link =? 776)%Z then qs "sit"
           else if (rl_arptype link =? 801)%Z then qs "wifi"
           else if (rl_arptype link =? 65534)%Z then qs "tun"
           else qs "other"
       end.

Definition formatAddrCidr (addr : RtAddr) : QString :=
  match ra_local addr with
  | None => []
  | Some s => if infixb (qs "/") s then s else s ++ qs "/" ++ number (ra_prefixlen addr)
  end.

(** One turn of the address loop. *)
Definition collectAddr (m : gmap Z (list QString)) (a : RtAddr) : gmap Z (list QString) :=
  if (RT_SCOPE_LINK <=? ra_scope a)%Z then m
  else let cidr := formatAddrCidr a in
       if isEmpty cidr then m
       else <[ra_ifindex a := default [] (m !! ra_ifindex a) ++ [cidr]]> m.

Definition statsOf (addrs : gmap Z (list QString)) (l : RtLink) : InterfaceStats :=
  let isLoopback := Z.testbit (rl_flags l) IFF_LOOPBACK_bit in
  mkInterfaceStats (rl_name l) (classifyLink l isLoopback) (rl_mtu l) (default [] (addrs !! rl_ifindex l))
    (rl_rxBytes l) (rl_txBytes l) (rl_rxPackets l) (rl_txPackets l)
    (Z.testbit (rl_flags l) IFF_UP_bit) isLoopback (rl_ifindex l mod 4294967296) (rl_operstate l mod 256)
    (rl_rxErrors l) (rl_txErrors l) (rl_rxDropped l) (rl_txDropped l).

Record NlWorker := mkNlWorker { nl_sock : bool; nl_linkCache : bool; nl_addrCache : bool; nl_timer : PollTimer }.
Definition newNlWorker : NlWorker := mkNlWorker false false false None.

Definition nl_poll (links : list RtLink) (addrs : list RtAddr) (wk : NlWorker) : option (list InterfaceStats) :=
  if negb (nl_sock wk) || negb (nl_linkCache wk) || negb (nl_addrCache wk) then None
  else Some (map (statsOf (foldl collectAddr ∅ addrs)) links).

Definition nl_stop (wk : NlWorker) : NlWorker := mkNlWorker false false false None.

Definition kPollIntervalMs : Z := 1000.

(** Which of the four allocations of [start] succeed. *)
Record NlStart := mkNlStart { nls_alloc : bool; nls_connect : bool; nls_links : bool; nls_addrs : bool }.

(** The worker and the first snapshot. *)
Definition nl_start (o : NlStart) (links : list RtLink) (addrs : list RtAddr) (wk : NlWorker)
    : NlWorker * option (list InterfaceStats) :=
  if negb (nls_alloc o) then (mkNlWorker false (nl_linkCache wk) (nl_addrCache wk) (nl_timer wk), None)
  else if negb (nls_connect o) then (mkNlWorker false (nl_linkCache wk) (nl_addrCache wk) (nl_timer wk), None)
  else if negb (nls_links o) then (nl_stop (mkNlWorker true (nl_linkCache wk) (nl_addrCache wk) (nl_timer wk)), None)
  else if negb (nls_addrs o) then (nl_stop (mkNlWorker true true (nl_addrCache wk) (nl_timer wk)), None)
  else let wk := mkNlWorker true true true (Some (kPollIntervalMs, true)) in (wk, nl_poll links addrs wk).

Definition nl_setPollIntervalMs (ms : Z) (wk : NlWorker) : NlWorker :=
  mkNlWorker (nl_sock wk) (nl_linkCache wk) (nl_addrCache wk) (timerSetInterval ms (nl_timer wk)).

Definition nl_capabilities : list QString := [qs "ifindex"; qs "oper-state"; qs "link-errors"].

(** The life of a worker: its thread starts it once. *)
Inductive NlEvent :=
| NlTimeout (links : list RtLink) (addrs : list RtAddr)
| NlSetPollIntervalMs (ms : Z)
| NlStop.

Definition nl_step (wk : NlWorker) (e : NlEvent) : NlWorker * option (list InterfaceStats) :=
  match e with
  | NlTimeout links addrs =>
      (wk, match nl_timer wk with Some (_, true) => nl_poll links addrs wk | _ => None end)
  | NlSetPollIntervalMs ms => (nl_setPollIntervalMs ms wk, None)
  | NlStop => (nl_stop wk, None)
  end.

Inductive nl_reachable : NlWorker -> Prop :=
| nl_fresh : nl_reachable newNlWorker
| nl_started o links addrs : nl_reachable (fst (nl_start o links addrs newNlWorker))
| nl_next wk e : nl_reachable wk -> nl_reachable (fst (nl_step wk e)).

(** All of the kernel resources, or none. *)
Definition nl_ok (wk : NlWorker) : Prop :=
  (nl_timer wk = None /\ nl_sock wk = false /\ nl_linkCache wk = false /\ nl_addrCache wk = false) \/
  (is_Some (nl_timer wk) /\ nl_sock wk = true /\ nl_linkCache wk = true /\ nl_addrCache wk = true).

Lemma nl_reachable_ok wk : nl_reachable wk -> nl_ok wk.
Proof.
  induction 1 as [|o links addrs|wk e _ IH]; [by left| |].
  - destruct o as [[] [] [] []]; cbn; try (by left). right. split; [by eexists|done].
  - destruct e; cbn [nl_step fst]; [done| |by left]. destruct IH as [(Ht & IH)|(Ht & IH)]; [left|right];
      unfold nl_setPollIntervalMs; cbn.
    + by rewrite Ht.
    + destruct Ht as [[iv a] ->]. cbn. destruct (ms <=? 0)%Z; (split; [by eexists|done]).
Qed.

(** The addresses a link is shown with, by definition rather than by table. *)
Definition addressesOf (addrs : list RtAddr) (ifindex : Z) : list QString :=
  filter (fun s => isEmpty s = false)
    (map formatAddrCidr (filter (fun a => ra_ifindex a = ifindex /\ (ra_scope a < RT_SCOPE_LINK)%Z) addrs)).

Lemma addressesOf_one a i :
  addressesOf [a] i =
  if bool_decide (ra_ifindex a = i) && (ra_scope a <? RT_SCOPE_LINK)%Z && negb (isEmpty (formatAddrCidr a))
  then [formatAddrCidr a] else [].
Proof.
  unfold addressesOf. rewrite filter_cons, filter_nil. case_bool_decide as Hi; cbn [andb].
  - destruct (ra_scope a <? RT_SCOPE_LINK)%Z eqn:Es; blia.
    + rewrite decide_True by done. cbn [map andb]. rewrite filter_cons, filter_nil.
      by destruct (isEmpty (formatAddrCidr a)).
    + rewrite decide_False; [done|]. lia.
  - rewrite decide_False; [done|]. by intros [? _].
Qed.

Lemma collectAddr_lookup m a i :
  default [] (collectAddr m a !! i) = default [] (m !! i) ++ addressesOf [a] i.
Proof.
  rewrite addressesOf_one. unfold collectAddr. rewrite Z.ltb_antisym.
  destruct (RT_SCOPE_LINK <=? ra_scope a)%Z; cbn [negb]; [by rewrite andb_false_r, app_nil_r|]. rewrite andb_true_r.
  destruct (isEmpty (formatAddrCidr a)); cbn [negb]; [by rewrite andb_false_r, app_nil_r|]. rewrite andb_true_r.
  case_bool_decide as Hi; [subst i; by rewrite lookup_insert_eq|]. rewrite lookup_insert_ne by done. by rewrite app_nil_r.
Qed.

Lemma addressesOf_app a b i : addressesOf (a ++ b) i = addressesOf a i ++ addressesOf b i.
Proof. unfold addressesOf. by rewrite filter_app, map_app, filter_app. Qed.

Lemma collectAddrs_lookup addrs i : default [] (foldl collectAddr ∅ addrs !! i) = addressesOf addrs i.
Proof.
  induction addrs as [|a addrs IH] using rev_ind; [done|].
  rewrite foldl_app. cbn [foldl]. by rewrite collectAddr_lookup, addressesOf_app, IH.
Qed.

(** A running worker reports every link once, in the kernel's order, with its
    own routable addresses in the kernel's order; a worker whose start failed
    half way or that was stopped holds no kernel resource and reports nothing;
    a paused one reports nothing at a timeout. *)
Theorem netlink_snapshot wk links addrs :
  nl_reachable wk ->
  (is_Some (nl_timer wk) ->
     exists stats, nl_poll links addrs wk = Some stats /\ length stats = length links /\
       forall i l, links !! i = Some l -> exists s, stats !! i = Some s /\
         if_name s = rl_name l /\ if_rxBytes s = rl_rxBytes l /\ if_txBytes s = rl_txBytes l /\
         if_addresses s = addressesOf addrs (rl_ifindex l)) /\
  (nl_timer wk = None ->
     nl_sock wk = false /\ nl_linkCache wk = false /\ nl_addrCache wk = false /\ nl_poll links addrs wk = None) /\
  snd (nl_step (nl_setPollIntervalMs 0 wk) (NlTimeout links addrs)) = None.
Proof.
  intros Hr. destruct (nl_reachable_ok wk Hr) as [(Ht & Hs & Hl & Ha)|(Ht & Hs & Hl & Ha)]; split_and!.
  - rewrite Ht. by intros [].
  - intros _. unfold nl_poll. by rewrite Hs.
  - unfold nl_step, nl_setPollIntervalMs. cbn. by rewrite Ht.
  - intros _. unfold nl_poll. rewrite Hs, Hl, Ha. cbn [negb orb]. eexists. split; [done|]. split; [apply length_map|].
    intros i l Hi. eexists. rewrite list_lookup_fmap, Hi. split; [done|]. cbn. by rewrite collectAddrs_lookup.
  - intros Hn. rewrite Hn in Ht. by destruct Ht.
  - destruct Ht as [[iv a] Ht]. unfold nl_step, nl_setPollIntervalMs. cbn. by rewrite Ht.
Qed.

Lemma netlink_snapshot_witness :
  let wk := fst (nl_start (mkNlStart true true true true) [] [] newNlWorker) in
  snd (nl_step (nl_setPollIntervalMs 0 wk) (NlTimeout [] [])) = None.
Proof.
  destruct (netlink_snapshot (fst (nl_start (mkNlStart true true true true) [] [] newNlWorker)) [] []) as (_ & _ & H);
    [apply nl_started|exact H].
Defined.
