(* ===== verification/ProcDetails.v ===== *)
(** * Process details on demand: [src/backend/linux/ProcDetails.cpp]

    Six reads of /proc/<pid>, one after the other, while processes come and
    go: what each read sees is the [ProcView] at its moment, and the pid may
    change hands in between.  The start time is read first and last. *)

From S2P Require Import Prelude Qt StdAlgo Conn ProcParse SockDump Resolver IdleManager AgentConfig DbusTypes Netns Service.

(** The files of one process. *)
Record ProcView := mkProcView {
  pv_stat : option QByteArray;
  pv_status : option QByteArray;
  pv_cmdline : option QByteArray;
  pv_exe : QString;              (* symLinkTarget, empty when unreadable *)
  pv_cwd : QString;
}.
Definition goneView : ProcView := mkProcView None None None [] [].

(** The words of a text between white space. *)
Fixpoint words (cur s : QByteArray) : list QByteArray :=
  match s with
  | [] => if isEmpty cur then [] else [cur]
  | c :: r =>
      if isAsciiSpace c then (if isEmpty cur then words [] r else cur :: words [] r) else words (cur ++ [c]) r
  end.
(** [QByteArray::simplified]. *)
Definition byteSimplified (s : QByteArray) : QByteArray := qjoin [32%Z] (words [] s).

Section Details.
Context `{QtToULongLong, QtUtf8, QtUnicode}.

(** [QByteArray::toULongLong] and [toUInt]: 0 when the text is no number. *)
Definition bytesToULongLong (s : QByteArray) : Z := default 0%Z (qToULongLong s).
Definition bytesToUInt (s : QByteArray) : Z :=
  let z := bytesToULongLong s in if (z <=? 4294967295)%Z then z else 0%Z.

(** The loop over the lines of /proc/<pid>/status: the last Name and Uid. *)
Definition statusLine (acc : QString * Z) (line : QByteArray) : QString * Z :=
  if prefixb (qs "Name:") line then (fromUtf8 (byteTrimmed (drop 5 line)), snd acc)
  else if prefixb (qs "Uid:") line then
    match qsplit 32 (byteSimplified (drop 4 line)) with
    | [] => acc
    | first :: _ => (fst acc, bytesToUInt first)
    end
  else acc.

Definition readStatusComm (status : option QByteArray) : QString * Z :=
  match status with
  | None => ([], 0%Z)
  | Some f => foldl statusLine ([], 0%Z) (qsplit 10 (take 8192 f))
  end.

Definition readCmdline (cmdline : option QByteArray) : QString :=
  match cmdline with
  | None => []
  | Some f => trimmed (fromUtf8 (map (fun b => if (b =? 0)%Z then 32%Z else b) (take 8192 f)))
  end.

Definition kStartTimeFieldOffset : nat := 19.

Definition readStartTimeJiffies (stat : option QByteArray) : Z :=
  match stat with
  | None => 0%Z
  | Some f =>
      let data := take 4096 f in
      match lastIndexOf 41 data with
      | None => 0%Z
      | Some rparen =>
          if length data <=? rparen + 2 then 0%Z
          else
            let rest := qsplit 32 (byteSimplified (drop (rparen + 2) data)) in
            match rest !! kStartTimeFieldOffset with Some f => bytesToULongLong f | None => 0%Z end
      end
  end.

Definition invalidDetails : ProcessDetails := mkDetails 0 0 [] [] [] [] 0 false.

(** [at_ i] is what the [i]-th read sees. *)
Definition readProcessDetails (at_ : nat -> ProcView) (pid : Z) : ProcessDetails :=
  if (pid <=? 0)%Z then invalidDetails
  else
    let startBefore := readStartTimeJiffies (pv_stat (at_ 0)) in
    if (startBefore =? 0)%Z then invalidDetails
    else
      let '(comm, uid) := readStatusComm (pv_status (at_ 1)) in
      if isEmpty comm then invalidDetails
      else
        let cmdline := readCmdline (pv_cmdline (at_ 2)) in
        let exe := pv_exe (at_ 3) in
        let cwd := pv_cwd (at_ 4) in
        if negb (readStartTimeJiffies (pv_stat (at_ 5%nat)) =? startBefore)%Z then invalidDetails
        else mkDetails pid uid comm exe cmdline cwd startBefore true.

(* ------------------------------------------------------------------ *)
(** ** One process *)

(** The successive holders of a pid, as the kernel guarantees them: [who i]
    is the process that has it at the [i]-th read.  Start times do not
    decrease from one holder to the next and tell holders apart, a process
    that lost the pid does not get it back, its stat file shows its start
    time, and without a holder nothing can be read. *)
Record holders {P : Type} (start : P -> Z) (who : nat -> option P) (at_ : nat -> ProcView) : Prop := {
  ho_gone : forall i, who i = None -> at_ i = goneView;
  ho_start : forall i p, who i = Some p -> readStartTimeJiffies (pv_stat (at_ i)) = start p;
  ho_order : forall i j p q, i <= j -> who i = Some p -> who j = Some q -> (start p <= start q)%Z;
  ho_one : forall i j p q, who i = Some p -> who j = Some q -> start p = start q -> p = q;
  ho_convex : forall i j k p, i <= j <= k -> who i = Some p -> who k = Some p -> is_Some (who j);
}.

Lemma holders_constant {P : Type} (start : P -> Z) who at_ :
  holders start who at_ -> readStartTimeJiffies (pv_stat (at_ 0)) <> 0%Z ->
  readStartTimeJiffies (pv_stat (at_ 5)) = readStartTimeJiffies (pv_stat (at_ 0)) ->
  exists p, (forall j, j <= 5 -> who j = Some p) /\ readStartTimeJiffies (pv_stat (at_ 0)) = start p.
Proof.
  intros [Hg Hs Ho Hone Hc] Hnz Heq. destruct (who 0) as [p|] eqn:E0; [|rewrite (Hg 0 E0) in Hnz; done].
  destruct (who 5) as [q|] eqn:E5; [|rewrite (Hg 5 E5) in Heq; rewrite <- Heq in Hnz; done].
  rewrite (Hs 0 p E0), (Hs 5 q E5) in Heq. assert (q = p) as -> by (by apply (Hone 5 0)).
  exists p. split; [|by apply Hs]. intros j Hj. destruct (Hc 0 j 5 p ltac:(lia) E0 E5) as [r Er].
  pose proof (Ho 0 j p r ltac:(lia) E0 Er). pose proof (Ho j 5 r p Hj Er E5).
  rewrite Er. f_equal. apply (Hone j 0); [done|done|lia].
Qed.

(** What a valid answer says about the reads. *)
Lemma readProcessDetails_valid at_ pid :
  det_valid (readProcessDetails at_ pid) = true ->
  (0 < pid)%Z /\ readStartTimeJiffies (pv_stat (at_ 0)) <> 0%Z /\
  readStartTimeJiffies (pv_stat (at_ 5)) = readStartTimeJiffies (pv_stat (at_ 0)) /\
  readProcessDetails at_ pid =
    mkDetails pid (snd (readStatusComm (pv_status (at_ 1)))) (fst (readStatusComm (pv_status (at_ 1))))
      (pv_exe (at_ 3)) (readCmdline (pv_cmdline (at_ 2))) (pv_cwd (at_ 4)) (readStartTimeJiffies (pv_stat (at_ 0))) true.
Proof.
  unfold readProcessDetails. destruct (pid <=? 0)%Z eqn:Ep; [done|].
  destruct (_ =? 0)%Z eqn:E0; [done|]. destruct (readStatusComm (pv_status (at_ 1))) as [comm uid] eqn:Es.
  destruct (isEmpty comm); [done|]. destruct (negb _) eqn:Er; [done|]. intros _. blia. split_and!; [lia|done|done|done].
Qed.

(** Details are served of one process: if the answer is valid, a single
    process held the pid through all six reads, and every field is what one
    of the reads of that process gave. *)
Theorem details_one_process {P : Type} (start : P -> Z) who at_ pid :
  holders start who at_ -> det_valid (readProcessDetails at_ pid) = true ->
  (0 < pid)%Z /\ exists p, (forall j, j <= 5 -> who j = Some p) /\
    readProcessDetails at_ pid =
      mkDetails pid (snd (readStatusComm (pv_status (at_ 1)))) (fst (readStatusComm (pv_status (at_ 1))))
        (pv_exe (at_ 3)) (readCmdline (pv_cmdline (at_ 2))) (pv_cwd (at_ 4)) (start p) true.
Proof.
  intros Hh Hv. destruct (readProcessDetails_valid at_ pid Hv) as (Hp & Hz & H5 & Heq).
  destruct (holders_constant start who at_ Hh Hz H5) as (p & Hw & Hst). split; [done|]. exists p. split; [done|].
  by rewrite Heq, Hst.
Qed.
End Details.

(** Through the service: a path or command line is disclosed only when a
    single process held the pid from the first read to the last, so that the
    owner the policy was asked about is the owner of what is shown. *)
Theorem details_same_owner `{QtToULongLong, QtUtf8, QtUnicode, QHashOrder} {P S} (start : P -> Z) who un ig caller pid at_
    (sv : Service S) :
  holders start who at_ ->
  let '(dto, _, _) := GetProcessDetails un ig caller pid (readProcessDetails at_) sv in
  pd_exe dto <> [] \/ pd_cmdline dto <> [] \/ pd_cwd dto <> [] ->
  (exists p, forall j, j <= 5 -> who j = Some p) /\
  mayDisclose un ig (sv_detailsPolicy sv) caller (snd (readStatusComm (pv_status (at_ 1)))) /\
  pd_exe dto = pv_exe (at_ 3) /\ pd_cmdline dto = readCmdline (pv_cmdline (at_ 2)) /\ pd_cwd dto = pv_cwd (at_ 4).
Proof.
  intros Hh. unfold GetProcessDetails. pose proof (withIdle_policy noteActivity sv) as Hpol.
  destruct (withIdle noteActivity sv) as [sv' es]. cbn [fst] in Hpol. rewrite Hpol.
  destruct ((pid =? 0)%Z || (int32_max <? pid)%Z); [by intros [|[|]]|].
  destruct (det_valid (readProcessDetails at_ pid)) eqn:Ev; cbn [negb]; [|by intros [|[|]]].
  destruct (readProcessDetails_valid at_ pid Ev) as (_ & H0' & H5 & Heq).
  destruct (holders_constant start who at_ Hh H0' H5) as (p & Hw & _). rewrite Heq.
  cbn [det_uid det_pid det_comm det_exe det_cmdline det_cwd].
  pose proof (callerMaySee_spec un ig caller (snd (readStatusComm (pv_status (at_ 1)))) (sv_detailsPolicy sv)) as Hs.
  destruct (callerMaySeeProcessFields un ig caller _ _); cbn; [|by intros [|[|]]].
  intros _. split; [by exists p|]. split; [by apply Hs|done].
Qed.

(* ------------------------------------------------------------------ *)
(** ** Agreement with the resolvers' reader of start times *)

Definition noSpace (f : QByteArray) : Prop := Forall (fun c => isAsciiSpace c = false) f.

Lemma words_char cur f s : noSpace f -> words cur (f ++ s) = words (cur ++ f) s.
Proof.
  intros Hf. revert cur. induction Hf as [|c f Hc _ IH]; intros cur; [by rewrite app_nil_r|]. cbn [app words]. rewrite Hc.
  rewrite IH. by rewrite <- app_assoc.
Qed.

Lemma words_field f s : noSpace f -> f <> [] -> words [] (f ++ 32%Z :: s) = f :: words [] s.
Proof. intros Hf Hn. rewrite words_char by done. cbn [app words isAsciiSpace]. by destruct f. Qed.

Lemma words_spaced fields s :
  Forall (fun f => noSpace f /\ f <> []) fields -> words [] (spaced fields ++ s) = fields ++ words [] s.
Proof.
  induction 1 as [|f fields [Hf Hn] _ IH]; [done|]. unfold spaced in *. cbn [map concat]. rewrite <- !app_assoc. cbn [app].
  rewrite words_field by done. by rewrite IH.
Qed.

Lemma words_last f t : noSpace f -> f <> [] -> (t = [] \/ exists u, t = 32%Z :: u) -> exists r, words [] (f ++ t) = f :: r.
Proof.
  intros Hf Hn [->|[u ->]]; [|rewrite words_field by done; by eexists].
  rewrite words_char by done. cbn [app words]. destruct f; [done|]. by exists [].
Qed.

Lemma qsplit_qjoin ws : ws <> [] -> Forall (fun w => 32%Z ∉ w) ws -> qsplit 32 (qjoin [32%Z] ws) = ws.
Proof.
  intros Hn Hf. induction Hf as [|w ws Hw Hf IH]; [done|]. destruct ws as [|w2 ws]; [by apply qsplit_single|].
  change (qjoin [32%Z] (w :: w2 :: ws)) with (w ++ 32%Z :: qjoin [32%Z] (w2 :: ws)).
  rewrite qsplit_app by done. by rewrite IH.
Qed.

Lemma words_noSpace cur s : noSpace cur -> Forall (fun w => 32%Z ∉ w) (words cur s).
Proof.
  assert (Hw : forall w, noSpace w -> 32%Z ∉ w) by (intros w Hw Hin; apply (proj1 (Forall_forall _ _) Hw) in Hin; done).
  revert cur. induction s as [|c s IH]; intros cur Hc; cbn [words].
  - destruct (isEmpty cur); repeat constructor; auto.
  - destruct (isAsciiSpace c) eqn:Ec.
    + destruct (isEmpty cur); [by apply IH; constructor|]. constructor; [auto|]. apply IH. constructor.
    + apply IH. apply Forall_app. split; [done|]. by repeat constructor.
Qed.

Lemma number_noSpace z : (0 <= z)%Z -> noSpace (number z).
Proof.
  intros Hz. apply Forall_forall. intros c Hc. destruct (isAsciiSpace c) eqn:E; [|done]. exfalso.
  apply (number_no_char c z); [done| |done]. unfold isAsciiSpace in E. unfold isDigit.
  apply orb_true_iff in E. apply andb_false_iff. blia; destruct E as [E|E]; blia; left; apply Z.leb_gt; lia.
Qed.

(** On any stat line of the kernel that fits the buffer, this reader and the
    one the resolvers use ([parseStartTime]) give the same start time,
    whatever the command is called: an answer's start time can be compared
    with the one a flow was attributed under. *)
Theorem startTime_readers_agree `{QtToULongLongLaws} pid comm fields start tail :
  length fields = 19 -> Forall (fun f => (noSpace f /\ f <> []) /\ 41%Z ∉ f) fields -> in_u64 start ->
  41%Z ∉ tail -> (tail = [] \/ exists t, tail = 32%Z :: t) ->
  length (statLine pid comm fields start tail) <= 4096 ->
  parseStartTime (statLine pid comm fields start tail) = Some start /\
  readStartTimeJiffies (Some (statLine pid comm fields start tail)) = start.
Proof.
  intros Hlen Hf Hs Htail Hsp Hfit. split.
  - apply parseStartTime_statLine; try done. eapply Forall_impl; [exact Hf|]. intros f [[Hn _] ?]. split; [|done].
    intros Hin. apply (proj1 (Forall_forall _ _) Hn) in Hin. done.
  - unfold readStartTimeJiffies. rewrite take_ge by done.
    destruct (statLine_rest pid comm fields start tail) as (rp & -> & -> & ->); [|done|done|].
    { eapply Forall_impl; [exact Hf|]. by intros ? []. }
    assert (Hz : (0 <= start)%Z) by (unfold in_u64 in Hs; lia). cbv zeta. unfold byteSimplified.
    rewrite words_spaced by (eapply Forall_impl; [exact Hf|]; by intros ? []).
    destruct (words_last (number start) tail (number_noSpace start Hz) (number_nonempty start Hz) Hsp) as [r Hr].
    rewrite qsplit_qjoin.
    + rewrite Hr, lookup_app_r by (unfold kStartTimeFieldOffset; lia). rewrite Hlen. cbn.
      unfold bytesToULongLong. by rewrite toULongLong_number.
    + rewrite Hr. by destruct fields.
    + apply Forall_app. split; [|by apply words_noSpace; constructor].
      eapply Forall_impl; [exact Hf|]. intros f [[Hn _] _] Hin. apply (proj1 (Forall_forall _ _) Hn) in Hin. done.
Qed.

(* ------------------------------------------------------------------ *)
(** ** Witnesses: one process that stays *)

Definition procSample : ProcView := mkProcView
  (Some (statLine 42 (qs "a) b (c") (replicate 19 (qs "0")) 777 (qs " 1 2")))
  (Some (qs "Name:	curl" ++ [10%Z] ++ qs "Uid:	1000	1000	1000	1000" ++ [10%Z]))
  (Some (qs "curl" ++ [0%Z] ++ qs "-s" ++ [0%Z])) (qs "/usr/bin/curl") (qs "/home/u").

#[local] Instance detailsUtf8 : QtUtf8 := id.

Lemma procSample_holders : holders (fun _ : unit => 777%Z) (fun _ => Some tt) (fun _ => procSample).
Proof.
  split; try done.
  by intros i j [] [].
Qed.

Lemma details_one_process_witness :
  readProcessDetails (fun _ => procSample) 42 =
  mkDetails 42 1000 (qs "curl") (qs "/usr/bin/curl") (qs "curl -s") (qs "/home/u") 777 true.
Proof.
  destruct (details_one_process (fun _ : unit => 777%Z) (fun _ => Some tt) (fun _ => procSample) 42 procSample_holders)
    as (_ & p & _ & Heq); [vm_compute; reflexivity|]. rewrite Heq. vm_compute. reflexivity.
Defined.

Lemma startTime_readers_agree_witness :
  parseStartTime (statLine 42 (qs "a) b (c") (replicate 19 (qs "0")) 777 (qs " 1 2")) =
  Some (readStartTimeJiffies (pv_stat procSample)).
Proof.
  destruct (startTime_readers_agree 42 (qs "a) b (c") (replicate 19 (qs "0")) 777 (qs " 1 2")) as [H1 H2].
  - reflexivity.
  - repeat constructor; try discriminate; intros Hin; apply list_elem_of_singleton in Hin; discriminate Hin.
  - split; [discriminate|reflexivity].
  - vm_compute. intros Hin. repeat (apply elem_of_cons in Hin as [Hin|Hin]; [discriminate Hin|]). by apply not_elem_of_nil in Hin.
  - right. eexists. reflexivity.
  - apply Nat.leb_le. vm_compute. reflexivity.
  - rewrite H1. unfold procSample, pv_stat. rewrite H2. reflexivity.
Defined.

Lemma details_same_owner_witness :
  let '(dto, _, _) := GetProcessDetails (fun _ => []) (fun _ _ => false) (Peer (qs ":1.7") (Some 1000%Z)) 42
                        (readProcessDetails (fun _ => procSample)) sampleService in
  pd_cmdline dto = qs "curl -s".
Proof.
  pose proof (details_same_owner (fun _ : unit => 777%Z) (fun _ => Some tt) (fun _ => []) (fun _ _ => false)
    (Peer (qs ":1.7") (Some 1000%Z)) 42 (fun _ => procSample) sampleService procSample_holders) as Hd.
  destruct (GetProcessDetails _ _ _ _ _ _) as [[dto sv] es] eqn:Eg.
  assert (Hdto : dto = fst (fst (GetProcessDetails (fun _ => []) (fun _ _ => false) (Peer (qs ":1.7") (Some 1000%Z)) 42
                        (readProcessDetails (fun _ => procSample)) sampleService))) by (rewrite Eg; reflexivity).
  destruct Hd as (_ & _ & _ & Hc & _); [|rewrite Hc; vm_compute; reflexivity].
  right. left. rewrite Hdto. vm_compute. discriminate.
Defined.
