(* ===== verification/Factory.v ===== *)
(** * Building the resolver: [src/backend/ProcessResolverFactory.cpp],
      [src/backend/null/NullProcessResolver.h]

    The factory probes the three Linux layers in order of priority and
    composes those that answer.  The layers keep separate states, so the
    composite acts on their product: [liftR] lets a resolver act on its part. *)

From S2P Require Import Prelude Qt Conn Resolver ProcParse SockDump SockDiag Cgroup Netns.

Definition liftR {A S} (get : S -> A) (put : A -> S -> S) (r : Resolver A) : Resolver S :=
  let run {B} (f : A -> B * A) (s : S) : B * S := let '(b, a) := f (get s) in (b, put a s) in {|
  r_initialize := run (r_initialize r);
  r_capabilities s := r_capabilities r (get s);
  r_setTuning t s := put (r_setTuning r t (get s)) s;
  r_requestDeepScan s := put (r_requestDeepScan r (get s)) s;
  r_resolvePid flow := run (r_resolvePid r flow);
  r_enrichPid pid := run (r_enrichPid r pid);
  r_resolveContainerForPid pid := run (r_resolveContainerForPid r pid);
  r_resolveContainerChainForPid pid := run (r_resolveContainerChainForPid r pid);
|}.

Definition NullProcessResolver {S} : Resolver S := {|
  r_initialize s := (true, s);
  r_capabilities _ := [];
  r_setTuning _ s := s;
  r_requestDeepScan s := s;
  r_resolvePid _ s := (0%Z, s);
  r_enrichPid _ s := (None, s);
  r_resolveContainerForPid _ s := (None, s);
  r_resolveContainerChainForPid _ s := ([], s);
|}.

Record ProcessResolverConfig := mkResolverConfig {
  rc_eagerness : AttributionEagerness;
  rc_processAttribution : bool;
  rc_containerAttribution : bool;
  rc_netnsScan : bool;
  rc_tuning : ResolverTuning;
}.

(** The layers' states, and what the classifier's probe finds. *)
Record LinuxState := mkLinux {
  ls_sd : SockDiag;
  ls_cg : CgroupClassifier;
  ls_ns : NetnsScanner;
  ls_selfCgroup : bool;          (* /proc/self/cgroup opens *)
  ls_crioSocket : bool;          (* /run/crio/crio.sock exists *)
}.
Definition put_sd (a : SockDiag) (s : LinuxState) : LinuxState := mkLinux a (ls_cg s) (ls_ns s) (ls_selfCgroup s) (ls_crioSocket s).
Definition put_cg (a : CgroupClassifier) (s : LinuxState) : LinuxState := mkLinux (ls_sd s) a (ls_ns s) (ls_selfCgroup s) (ls_crioSocket s).
Definition put_ns (a : NetnsScanner) (s : LinuxState) : LinuxState := mkLinux (ls_sd s) (ls_cg s) a (ls_selfCgroup s) (ls_crioSocket s).

(** [CgroupClassifier::CgroupClassifier]. *)
Definition newClassifier (tuning : ResolverTuning) (c : CgroupClassifier) : CgroupClassifier :=
  mkClassifier false false ∅ (safeContainerTtlMs (containerCacheMs tuning) kCgCacheTtlMs kCgMinCacheTtlMs)
    (cg_now c) (cg_stat c) (cg_cgroup c).

Section Factory.
Context `{QtToIPv4, QtToULongLong, QtUtf8}.

(** The classifier as a resolver: it knows containers only. *)
Definition cgroupResolver (selfReadable crioSocket : bool) : Resolver CgroupClassifier := {|
  r_initialize := cg_initialize selfReadable crioSocket;
  r_capabilities := cg_capabilities;
  r_setTuning := cg_setTuning;
  r_requestDeepScan := id;
  r_resolvePid := fun _ c => (0%Z, c);
  r_enrichPid := fun _ c => (None, c);
  r_resolveContainerForPid := cg_resolveContainer;
  r_resolveContainerChainForPid := cg_resolveChain;
|}.

Definition sdLayer : Resolver LinuxState := liftR ls_sd put_sd sockDiagResolver.
Definition cgLayer (s : LinuxState) : Resolver LinuxState :=
  liftR ls_cg put_cg (cgroupResolver (ls_selfCgroup s) (ls_crioSocket s)).
Definition nsLayer : Resolver LinuxState := liftR ls_ns put_ns netnsResolver.

(** Probe one layer: construct, initialise, add when that succeeds. *)
Definition addLayer (enabled : bool) (layer : Resolver LinuxState) (fresh : LinuxState -> LinuxState)
    (acc : list (Resolver LinuxState) * LinuxState) : list (Resolver LinuxState) * LinuxState :=
  let '(children, s) := acc in
  if enabled then
    let '(ok, s) := r_initialize layer (fresh s) in
    (if ok : bool then compositeAdd (Some layer) children else children, s)
  else acc.

(** [s] carries what the probes and the layers can see. *)
Definition createProcessResolver (cfg : ProcessResolverConfig) (s : LinuxState) : Resolver LinuxState * LinuxState :=
  if bool_decide (rc_eagerness cfg = EagerOff)
     || (negb (rc_processAttribution cfg) && negb (rc_containerAttribution cfg) && negb (rc_netnsScan cfg))
  then (NullProcessResolver, s)
  else
    let acc := addLayer (rc_processAttribution cfg) sdLayer
      (fun s => put_sd (newSockDiag (rc_tuning cfg) (sd_world (ls_sd s))) s) ([], s) in
    let acc := addLayer (rc_processAttribution cfg && rc_containerAttribution cfg) (cgLayer s)
      (fun s => put_cg (newClassifier (rc_tuning cfg) (ls_cg s)) s) acc in
    let '(children, s) := addLayer (rc_processAttribution cfg && rc_netnsScan cfg) nsLayer
      (fun s => put_ns (newNetns (rc_tuning cfg) (ns_view (ls_ns s))) s) acc in
    if negb (isEmpty (r_capabilities (CompositeResolver children) s)) then (CompositeResolver children, s)
    else (NullProcessResolver, s).

(* ------------------------------------------------------------------ *)
(** ** What the factory delivers *)

(** The probes: a dump of the host's TCP sockets works; /proc/self/cgroup is
    readable; /proc/self/ns/net exists. *)
Definition sdProbe (s : LinuxState) : bool :=
  let w := sd_world (ls_sd s) in wd_socket w && fst (dumpSocketsViaFd (wd_dump w AF_INET kTcp) kTcp ∅).
Definition nsProbe (s : LinuxState) : bool := isSome (nv_selfNs (ns_view (ls_ns s))).

Definition sdOn (cfg : ProcessResolverConfig) (s : LinuxState) : bool := rc_processAttribution cfg && sdProbe s.
Definition cgOn (cfg : ProcessResolverConfig) (s : LinuxState) : bool :=
  rc_processAttribution cfg && rc_containerAttribution cfg && ls_selfCgroup s.
Definition nsOn (cfg : ProcessResolverConfig) (s : LinuxState) : bool :=
  rc_processAttribution cfg && rc_netnsScan cfg && nsProbe s.

Definition layers (cfg : ProcessResolverConfig) (s : LinuxState) : list (Resolver LinuxState) :=
  (if sdOn cfg s then [sdLayer] else []) ++ (if cgOn cfg s then [cgLayer s] else []) ++ (if nsOn cfg s then [nsLayer] else []).

Definition layerTokens (cfg : ProcessResolverConfig) (s : LinuxState) : list QString :=
  (if sdOn cfg s then [qs "process-attribution"] else [])
  ++ (if cgOn cfg s then [qs "container-attribution"; qs "container-chain"] else [])
  ++ (if nsOn cfg s then [qs "netns-scan"] else []).

(** The three steps leave exactly the layers whose probe succeeded, each
    ready. *)
Record built (cfg : ProcessResolverConfig) (s s' : LinuxState) : Prop := {
  bu_sd : sdOn cfg s = true -> sd_ready (ls_sd s') = true;
  bu_cg : cgOn cfg s = true -> cg_ready (ls_cg s') = true;
  bu_ns : nsOn cfg s = true -> ns_ready (ls_ns s') = true;
}.

Lemma addLayer_sd enabled tuning s :
  exists s1, addLayer enabled sdLayer (fun s => put_sd (newSockDiag tuning (sd_world (ls_sd s))) s) ([], s) =
    (if enabled && sdProbe s then [sdLayer] else [], s1) /\
  ls_cg s1 = ls_cg s /\ ls_ns s1 = ls_ns s /\ ls_selfCgroup s1 = ls_selfCgroup s /\
  (enabled && sdProbe s = true -> sd_ready (ls_sd s1) = true).
Proof.
  destruct enabled; cbn [addLayer andb]; [|by exists s]. unfold sdProbe. cbn [sdLayer liftR r_initialize sockDiagResolver put_sd ls_sd].
  unfold sd_initialize. cbn [newSockDiag sd_world sd_keyToInode]. destruct (wd_socket _) eqn:Es; cbn [negb andb]; [|by eexists].
  destruct (dumpSocketsViaFd _ kTcp ∅) as [[] m]; by eexists.
Qed.

Lemma addLayer_cg enabled tuning s0 s children :
  ls_selfCgroup s = ls_selfCgroup s0 ->
  exists s1, addLayer enabled (cgLayer s0) (fun s => put_cg (newClassifier tuning (ls_cg s)) s) (children, s) =
    (children ++ (if enabled && ls_selfCgroup s then [cgLayer s0] else []), s1) /\
  ls_sd s1 = ls_sd s /\ ls_ns s1 = ls_ns s /\ (enabled && ls_selfCgroup s = true -> cg_ready (ls_cg s1) = true).
Proof.
  intros He. destruct enabled; cbn [addLayer andb]; [|exists s; by rewrite app_nil_r].
  cbn [cgLayer liftR r_initialize cgroupResolver put_cg ls_cg]. unfold cg_initialize. rewrite He.
  destruct (ls_selfCgroup s0); cbn [negb]; eexists; [done|]. by rewrite app_nil_r.
Qed.

Lemma addLayer_ns enabled tuning s children :
  exists s1, addLayer enabled nsLayer (fun s => put_ns (newNetns tuning (ns_view (ls_ns s))) s) (children, s) =
    (children ++ (if enabled && nsProbe s then [nsLayer] else []), s1) /\
  ls_sd s1 = ls_sd s /\ ls_cg s1 = ls_cg s /\ (enabled && nsProbe s = true -> ns_ready (ls_ns s1) = true).
Proof.
  destruct enabled; cbn [addLayer andb]; [|exists s; by rewrite app_nil_r]. unfold nsProbe.
  cbn [nsLayer liftR r_initialize netnsResolver put_ns ls_ns]. unfold ns_initialize. cbn [newNetns ns_view].
  destruct (nv_selfNs (ns_view (ls_ns s))); cbn [isSome]; eexists; [done|]. by rewrite app_nil_r.
Qed.

Lemma built_tokens cfg s s' :
  built cfg s s' -> r_capabilities (CompositeResolver (layers cfg s)) s' = layerTokens cfg s.
Proof.
  intros [B1 B2 B3]. unfold layers, layerTokens.
  destruct (sdOn cfg s), (cgOn cfg s), (nsOn cfg s);
    cbn [app CompositeResolver r_capabilities foldl sdLayer cgLayer nsLayer liftR sockDiagResolver cgroupResolver netnsResolver];
    unfold sd_capabilities, cg_capabilities, ns_capabilities;
    rewrite ?B1, ?B2, ?B3 by done; vm_compute; reflexivity.
Qed.

Lemma factory_layers cfg s :
  rc_eagerness cfg <> EagerOff ->
  exists s', built cfg s s' /\
    createProcessResolver cfg s =
      (if isEmpty (layerTokens cfg s) then NullProcessResolver else CompositeResolver (layers cfg s),
       if negb (rc_processAttribution cfg) && negb (rc_containerAttribution cfg) && negb (rc_netnsScan cfg) then s else s').
Proof.
  intros He. unfold createProcessResolver. rewrite bool_decide_eq_false_2 by done. cbn [orb].
  destruct (addLayer_sd (rc_processAttribution cfg) (rc_tuning cfg) s) as (s1 & -> & Hc1 & Hn1 & Hs1 & Hr1).
  destruct (addLayer_cg (rc_processAttribution cfg && rc_containerAttribution cfg) (rc_tuning cfg) s s1
    (if rc_processAttribution cfg && sdProbe s then [sdLayer] else []) Hs1) as (s2 & -> & Hd2 & Hn2 & Hr2).
  destruct (addLayer_ns (rc_processAttribution cfg && rc_netnsScan cfg) (rc_tuning cfg) s2
    ((if rc_processAttribution cfg && sdProbe s then [sdLayer] else [])
     ++ (if rc_processAttribution cfg && rc_containerAttribution cfg && ls_selfCgroup s1 then [cgLayer s] else [])))
    as (s3 & -> & Hd3 & Hc3 & Hr3).
  assert (Hnp : nsProbe s2 = nsProbe s) by (unfold nsProbe; by rewrite Hn2, Hn1). rewrite Hs1, Hnp in *.
  assert (Hb : built cfg s s3).
  { split; unfold sdOn, cgOn, nsOn; intros Hon; [rewrite Hd3, Hd2; by apply Hr1|rewrite Hc3; by apply Hr2|by apply Hr3]. }
  exists s3. split; [done|]. pose proof (built_tokens cfg s s3 Hb) as Ht.
  destruct (_ && negb (rc_netnsScan cfg)) eqn:Eoff.
  - destruct (rc_processAttribution cfg) eqn:Ep; [done|]. unfold layerTokens, sdOn, cgOn, nsOn. by rewrite Ep.
  - rewrite <- app_assoc. match goal with |- context [CompositeResolver ?l] => change l with (layers cfg s) end.
    rewrite Ht. by destruct (isEmpty (layerTokens cfg s)).
Qed.

(** Attribution is configured off. *)
Definition factoryOff (cfg : ProcessResolverConfig) : bool := bool_decide (rc_eagerness cfg = EagerOff).

Lemma layerTokens_empty cfg s : isEmpty (layerTokens cfg s) = true -> layers cfg s = [].
Proof. unfold layerTokens, layers. by destruct (sdOn cfg s), (cgOn cfg s), (nsOn cfg s). Qed.

(** The pid the layers give for a flow: the socket table of the host first,
    the other namespaces when it has no answer. *)
Definition pidByPriority (cfg : ProcessResolverConfig) (s : LinuxState) (flow : Connection) (st : LinuxState) : Z :=
  let host := if sdOn cfg s then fst (sd_resolvePid flow (ls_sd st)) else 0%Z in
  if (0 <? host)%Z then host
  else
    let other := if nsOn cfg s then fst (ns_resolvePid flow (ls_ns st)) else 0%Z in
    if (0 <? other)%Z then other else 0%Z.

Lemma layers_resolvePid cfg s flow st :
  fst (r_resolvePid (CompositeResolver (layers cfg s)) flow st) = pidByPriority cfg s flow st.
Proof.
  unfold layers, pidByPriority.
  destruct (sdOn cfg s), (cgOn cfg s), (nsOn cfg s);
    cbn [app CompositeResolver r_resolvePid firstHit sdLayer cgLayer nsLayer liftR sockDiagResolver cgroupResolver netnsResolver fst];
    try done;
    (destruct (sd_resolvePid flow (ls_sd st)) as [p1 sd1]; cbn [fst] || idtac);
    try (destruct (0 <? p1)%Z; cbn [fst]; [done|]); cbn [put_sd put_cg ls_ns ls_cg];
    try done;
    destruct (ns_resolvePid flow (ls_ns st)) as [p2 ns1]; cbn [fst]; by destruct (0 <? p2)%Z.
Qed.

Definition containerByLayer (cfg : ProcessResolverConfig) (s : LinuxState) (pid : Z) (st : LinuxState) : list ContainerInfo :=
  if cgOn cfg s then fst (cg_resolveChain pid (ls_cg st)) else [].

Lemma layers_resolveChain cfg s pid st :
  fst (r_resolveContainerChainForPid (CompositeResolver (layers cfg s)) pid st) = containerByLayer cfg s pid st.
Proof.
  unfold layers, containerByLayer.
  destruct (sdOn cfg s), (cgOn cfg s), (nsOn cfg s);
    cbn [app CompositeResolver r_resolveContainerChainForPid firstHit sdLayer cgLayer nsLayer liftR sockDiagResolver cgroupResolver
         netnsResolver defaultChainForPid put_sd put_ns ls_cg isEmpty negb fst];
    try done; destruct (cg_resolveChain pid (ls_cg st)) as [[|x l] cg1]; done.
Qed.

(** The factory's resolver advertises exactly the layers that are configured
    and whose probe succeeded, and in every later state answers from them
    alone: a flow's process from the host's sockets first and from other
    namespaces when those have none, containers from the classifier.  With
    attribution off, or with no layer left, it answers nothing. *)
Theorem factory_exact cfg s :
  let '(r, s') := createProcessResolver cfg s in
  r_capabilities r s' = (if factoryOff cfg then [] else layerTokens cfg s) /\
  (forall flow st, fst (r_resolvePid r flow st) = if factoryOff cfg then 0%Z else pidByPriority cfg s flow st) /\
  (forall pid st, fst (r_resolveContainerChainForPid r pid st) = if factoryOff cfg then [] else containerByLayer cfg s pid st).
Proof.
  unfold factoryOff. case_bool_decide as He.
  { unfold createProcessResolver. by rewrite bool_decide_eq_true_2. }
  destruct (factory_layers cfg s He) as (s' & Hb & ->). destruct (isEmpty (layerTokens cfg s)) eqn:Et.
  - pose proof (layerTokens_empty cfg s Et) as Hl. split_and!.
    + by destruct (layerTokens cfg s).
    + intros flow st. pose proof (layers_resolvePid cfg s flow st) as Hp. by rewrite Hl in Hp.
    + intros pid st. pose proof (layers_resolveChain cfg s pid st) as Hp. by rewrite Hl in Hp.
  - split_and!; [|apply layers_resolvePid|apply layers_resolveChain].
    destruct (_ && negb (rc_netnsScan cfg)) eqn:Eoff; [|by apply built_tokens].
    exfalso. revert Et. unfold layerTokens, sdOn, cgOn, nsOn. by destruct (rc_processAttribution cfg).
Qed.
End Factory.
