(* ===== verification/DbusClient.v ===== *)
(** * The client's end of the bus: [src/backend/dbus/DBusConnectionMonitor.cpp],
      [DBusNetworkMonitor.cpp]

    The monitors of a frontend that talks to the agent: they subscribe to its
    signals, decode what arrives, and remember the wishes they sent so that a
    restart repeats them.  A message is the list of its arguments; [QtDBus]
    delivers them in order. *)

From S2P Require Import Prelude Qt StdAlgo Conn Resolver AgentConfig DbusTypes Service.

(** The arguments of a message: numbers and text, or an array of structures. *)
Inductive BusArg := ArgU32 (z : Z) | ArgU64 (z : Z) | ArgStr (s : QString) | ArgArray (l : list (list Wire)).

(** What the agent puts on the bus for its signals. *)
Definition rowsMessage (monotonicMs : Z) (rows : list ConnectionDto) : list BusArg :=
  [ArgU64 monotonicMs; ArgArray (map writeConnection rows)].
Definition statsMessage (monotonicMs : Z) (rows : list InterfaceStatsDto) : list BusArg :=
  [ArgU64 monotonicMs; ArgArray (map writeInterface rows)].

(** [arg >> list]: [None] when a structure is malformed (QtDBus aborts), the
    empty list when the argument is no array. *)
Definition extractList {A} (read : list Wire -> option A) (arg : BusArg) : option (list A) :=
  match arg with ArgArray l => mapM read l | _ => Some [] end.

(** The argument that carries the rows: the second, or the only one. *)
Definition rowsArg (args : list BusArg) : option BusArg :=
  match args with
  | _ :: a :: _ => Some a
  | [a] => Some a
  | [] => None
  end.

(** Method calls sent to the agent, and signals to the frontend. *)
Inductive ClientCall :=
| CallGetConnections
| CallGetInterfaces
| CallSetDesiredIntervalMs (ms : Z)
| CallSetDesiredAttributionEagerness (mode : QString)
| CallGetProcessDetails (pid : Z).

Inductive ClientSignal :=
| SigConnectionsUpdated (flows : list Connection)
| SigAttributionRefined (patch : list Connection)
| SigPermissionDenied (detail : QString)
| SigEagernessChanged (mode : QString)
| SigProcessDetailsReady (d : ProcessDetailsDto)
| SigStatsUpdated (stats : list InterfaceStats)
| SigCadenceChanged (ms : Z).

(* ------------------------------------------------------------------ *)
(** ** [DBusConnectionMonitor] *)

Record DBusConnectionMonitor := mkDConn {
  dc_started : bool;
  dc_desiredMs : Z;
  dc_desiredEagerness : QString;
}.
Definition newDConn : DBusConnectionMonitor := mkDConn false 0 [].

(** [int] to [quint32]. *)
Definition toU32 (z : Z) : Z := (z mod 4294967296)%Z.

Definition dc_setDesiredIntervalMs (ms : Z) (m : DBusConnectionMonitor) : DBusConnectionMonitor * list ClientCall :=
  let ms := Z.max ms 0 in
  (mkDConn (dc_started m) ms (dc_desiredEagerness m),
   if dc_started m then [CallSetDesiredIntervalMs (toU32 ms)] else []).

Definition dc_setDesiredAttributionEagerness (mode : QString) (m : DBusConnectionMonitor)
    : DBusConnectionMonitor * list ClientCall :=
  (mkDConn (dc_started m) (dc_desiredMs m) mode,
   if negb (dc_started m) then [] else [CallSetDesiredAttributionEagerness mode]).

Definition dc_start (m : DBusConnectionMonitor) : DBusConnectionMonitor * list ClientCall :=
  if dc_started m then (m, [])
  else
    let m := mkDConn true (dc_desiredMs m) (dc_desiredEagerness m) in
    let calls := [CallGetConnections] ++ (if (0 <? dc_desiredMs m)%Z then [CallSetDesiredIntervalMs (toU32 (dc_desiredMs m))] else []) in
    if negb (isEmpty (dc_desiredEagerness m)) then
      let '(m, more) := dc_setDesiredAttributionEagerness (dc_desiredEagerness m) m in (m, calls ++ more)
    else (m, calls).

Definition dc_stop (m : DBusConnectionMonitor) : DBusConnectionMonitor :=
  if negb (dc_started m) then m else mkDConn false (dc_desiredMs m) (dc_desiredEagerness m).

Definition dc_requestProcessDetails (pid : Z) : list ClientCall :=
  if (pid <=? 0)%Z then [] else [CallGetProcessDetails (toU32 pid)].

Section Receive.
Context `{QtAddrText}.

Definition decodeRows (arg : BusArg) : option (list Connection) := fromDtos <$> extractList readConnection arg.

(** The slots; [None] is an abort inside QtDBus. *)
Definition onConnectionsChanged (args : list BusArg) : option (list ClientSignal) :=
  match rowsArg args with
  | None => Some []
  | Some arg => (fun l => [SigConnectionsUpdated l]) <$> decodeRows arg
  end.

Definition onAttributionChanged (args : list BusArg) : option (list ClientSignal) :=
  match rowsArg args with
  | None => Some []
  | Some arg =>
      (fun l => if negb (isEmpty l) then [SigAttributionRefined (fromDtos l)] else []) <$> extractList readConnection arg
  end.

Definition dc_onPermissionDenied (detail : QString) : list ClientSignal := [SigPermissionDenied detail].
Definition onAttributionEagernessChanged (mode : QString) : list ClientSignal := [SigEagernessChanged mode].

(** The reply to [GetConnections]: [inl] an error, [inr] the arguments. *)
Definition onSnapshotReply (reply : QString + list BusArg) : option (list ClientSignal) :=
  match reply with
  | inl _ => Some []
  | inr [] => Some []
  | inr (arg :: _) => (fun l => [SigConnectionsUpdated l]) <$> decodeRows arg
  end.

(** The reply to [GetProcessDetails]. *)
Definition onDetailsReply (reply : QString + ProcessDetailsDto) : list ClientSignal :=
  match reply with
  | inl _ => []
  | inr d =>
      let pid := if (pd_pid d <=? int32_max)%Z then pd_pid d else 0%Z in
      [SigProcessDetailsReady (mkProcessDto pid (pd_uid d) (pd_comm d) (pd_exe d) (pd_cmdline d) (pd_cwd d)
         (pd_startTimeJiffies d))]
  end.
End Receive.

(* ------------------------------------------------------------------ *)
(** ** [DBusNetworkMonitor] *)

Record DBusNetworkMonitor := mkDNet { dn_started : bool; dn_desiredMs : Z; dn_caps : list QString }.

Definition setAgentCapabilities (caps : list QString) (m : DBusNetworkMonitor) : DBusNetworkMonitor :=
  mkDNet (dn_started m) (dn_desiredMs m) caps.

Definition dn_setDesiredIntervalMs (ms : Z) (m : DBusNetworkMonitor) : DBusNetworkMonitor * list ClientCall :=
  let ms := Z.max ms 0 in
  (mkDNet (dn_started m) ms (dn_caps m), if dn_started m then [CallSetDesiredIntervalMs (toU32 ms)] else []).

Definition dn_start (m : DBusNetworkMonitor) : DBusNetworkMonitor * list ClientCall :=
  if dn_started m then (m, [])
  else (mkDNet true (dn_desiredMs m) (dn_caps m),
        [CallGetInterfaces] ++ (if (0 <? dn_desiredMs m)%Z then [CallSetDesiredIntervalMs (toU32 (dn_desiredMs m))] else [])).

Definition dn_stop (m : DBusNetworkMonitor) : DBusNetworkMonitor :=
  if negb (dn_started m) then m else mkDNet false (dn_desiredMs m) (dn_caps m).

Definition decodeIfaceRows (arg : BusArg) : option (list InterfaceStats) := map fromInterfaceDto <$> extractList readInterface arg.

Definition onStatsChanged (args : list BusArg) : option (list ClientSignal) :=
  match rowsArg args with
  | None => Some []
  | Some arg => (fun l => [SigStatsUpdated l]) <$> decodeIfaceRows arg
  end.

(** [QVariant::toUInt] of the first argument, as an [int]. *)
Definition onAgentCadenceChanged (args : list BusArg) : list ClientSignal :=
  match args with
  | ArgU32 z :: _ => [SigCadenceChanged (if (z <=? int32_max)%Z then z else z - 4294967296)]
  | _ => []
  end.

(* ------------------------------------------------------------------ *)
(** ** From the agent's rows to the frontend's *)

Section EndToEnd.
Context `{QtAddrTextLaws}.

Lemma mapM_map_total {A B C} (w : A -> B) (f : B -> option C) (g : A -> C) l :
  (forall a, f (w a) = Some (g a)) -> mapM f (map w l) = Some (map g l).
Proof. intros Hf. induction l as [|a l IH]; [done|]. cbn [map mapM]. rewrite Hf. cbn. by rewrite IH. Qed.

Lemma fromDto_clamp d : fromDto (clampChain d) = fromDto d.
Proof. unfold fromDto, clampChain. cbn. by rewrite take_take. Qed.

Lemma extract_rows rows : extractList readConnection (ArgArray (map writeConnection rows)) = Some (map clampChain rows).
Proof.
  apply mapM_map_total. intros d. rewrite <- (app_nil_r (writeConnection d)). apply readConnection_full.
Qed.

Lemma decode_rows rows :
  Forall wire_ok rows -> decodeRows (ArgArray (map writeConnection (toDtos rows))) = Some (map wireView rows).
Proof.
  intros Hok. unfold decodeRows. rewrite extract_rows. cbn. f_equal. unfold fromDtos, toDtos. rewrite !map_map.
  apply map_ext_in. intros c Hc. rewrite fromDto_clamp. apply connection_dto_roundtrip.
  by apply (proj1 (Forall_forall _ _) Hok), list_elem_of_In.
Qed.

(** C19. What the agent publishes is what the frontend gets: rows sent as a
    snapshot (by this agent or by one older than the timestamp argument), as
    a reply or as a refinement arrive as the same flows in the same order,
    short of the executable path and command line; refinements that carry
    nothing are not passed on; interface rows arrive unchanged. *)
Theorem client_sees_agent ms rows stats :
  Forall wire_ok rows ->
  let sent := toDtos rows in let seen := map wireView rows in
  onConnectionsChanged (rowsMessage ms sent) = Some [SigConnectionsUpdated seen] /\
  onConnectionsChanged [ArgArray (map writeConnection sent)] = Some [SigConnectionsUpdated seen] /\
  onSnapshotReply (inr [ArgArray (map writeConnection sent)]) = Some [SigConnectionsUpdated seen] /\
  onAttributionChanged (rowsMessage ms sent) = Some (if isEmpty rows then [] else [SigAttributionRefined seen]) /\
  onStatsChanged (statsMessage ms (map toInterfaceDto stats)) = Some [SigStatsUpdated stats].
Proof.
  intros Hok sent seen. pose proof (decode_rows rows Hok) as Hd. fold sent seen in Hd.
  unfold onConnectionsChanged, onSnapshotReply, onAttributionChanged, onStatsChanged, rowsMessage, statsMessage, rowsArg.
  rewrite Hd. split_and!; try done.
  - unfold decodeRows in Hd. rewrite extract_rows in *. cbn in Hd |- *. injection Hd as Hd. rewrite Hd.
    unfold sent, toDtos. by destruct rows.
  - unfold decodeIfaceRows, extractList. rewrite (mapM_map_total _ _ id).
    + cbn. f_equal. do 2 f_equal. rewrite map_id, map_map. rewrite <- (map_id stats) at 2. apply map_ext. by intros [].
    + by intros [].
Qed.
End EndToEnd.

(* ------------------------------------------------------------------ *)
(** ** Wishes survive a restart *)

Inductive DcEvent := DcStart | DcStop | DcInterval (ms : Z) | DcEagerness (mode : QString).

Definition dc_step (m : DBusConnectionMonitor) (e : DcEvent) : DBusConnectionMonitor * list ClientCall :=
  match e with
  | DcStart => dc_start m
  | DcStop => (dc_stop m, [])
  | DcInterval ms => dc_setDesiredIntervalMs ms m
  | DcEagerness mode => dc_setDesiredAttributionEagerness mode m
  end.

Fixpoint dc_run (m : DBusConnectionMonitor) (es : list DcEvent) : DBusConnectionMonitor * list ClientCall :=
  match es with
  | [] => (m, [])
  | e :: es => let '(m, cs) := dc_step m e in let '(m, cs') := dc_run m es in (m, cs ++ cs')
  end.

(** What the agent last heard, and what the frontend last asked for. *)
Definition heard (acc : option Z * option QString) (c : ClientCall) : option Z * option QString :=
  match c with
  | CallSetDesiredIntervalMs ms => (Some ms, snd acc)
  | CallSetDesiredAttributionEagerness mode => (fst acc, Some mode)
  | _ => acc
  end.
Definition asked (acc : Z * QString) (e : DcEvent) : Z * QString :=
  match e with DcInterval ms => (Z.max ms 0, snd acc) | DcEagerness mode => (fst acc, mode) | _ => acc end.

(** While started, the agent has heard every wish that is not the default. *)
Definition inStep (m : DBusConnectionMonitor) (h : option Z * option QString) : Prop :=
  dc_started m = true ->
  ((0 < dc_desiredMs m)%Z -> fst h = Some (toU32 (dc_desiredMs m))) /\
  (dc_desiredEagerness m <> [] -> snd h = Some (dc_desiredEagerness m)).

Lemma dc_step_inStep m e h :
  inStep m h -> let '(m', cs) := dc_step m e in
  inStep m' (foldl heard h cs) /\ (dc_desiredMs m', dc_desiredEagerness m') = asked (dc_desiredMs m, dc_desiredEagerness m) e.
Proof.
  intros Hi. destruct e as [| |ms|mode]; cbn [dc_step asked].
  - unfold dc_start. destruct (dc_started m) eqn:Es; [done|]. cbn [dc_desiredMs dc_desiredEagerness].
    unfold dc_setDesiredAttributionEagerness. cbn [dc_started negb].
    destruct (0 <? dc_desiredMs m)%Z eqn:E0; destruct (isEmpty (dc_desiredEagerness m)) eqn:Ee; cbn [negb app foldl heard fst snd];
      (split; [|done]); intros _; cbn; (split; [intros Hpos; try done; blia|intros Hne; try done]);
      apply isEmpty_true in Ee; congruence.
  - unfold dc_stop. split; [|by destruct (dc_started m)]. destruct (dc_started m) eqn:Es; cbn [negb foldl]; [by intros ?|].
    intros Hs. congruence.
  - unfold dc_setDesiredIntervalMs. split; [|done]. intros Hs. cbn in Hs |- *. rewrite Hs. cbn. split; [done|]. by apply Hi.
  - unfold dc_setDesiredAttributionEagerness. split; [|done]. intros Hs. cbn in Hs |- *. rewrite Hs. cbn. split; [by apply Hi|done].
Qed.

(** The connection to the agent can be stopped and started at will: whenever
    it is up, the agent has last heard the interval and the eagerness the
    frontend last asked for, also when it asked while the connection was down
    (a return to the default made then is not announced: the agent's hint
    lapses by itself). *)
Theorem client_reasserts es :
  let '(m, calls) := dc_run newDConn es in
  let '(ms, mode) := foldl asked (0%Z, []) es in
  dc_desiredMs m = ms /\ dc_desiredEagerness m = mode /\
  (dc_started m = true -> (0 < ms)%Z -> fst (foldl heard (None, None) calls) = Some (toU32 ms)) /\
  (dc_started m = true -> mode <> [] -> snd (foldl heard (None, None) calls) = Some mode).
Proof.
  assert (Hg : forall es m h, inStep m h -> let '(m', cs) := dc_run m es in
    inStep m' (foldl heard h cs) /\ (dc_desiredMs m', dc_desiredEagerness m') = foldl asked (dc_desiredMs m, dc_desiredEagerness m) es).
  { clear es. intros es. induction es as [|e es IH]; intros m h Hi; cbn [dc_run foldl]; [done|].
    pose proof (dc_step_inStep m e h Hi) as Hs. destruct (dc_step m e) as [m1 cs]. destruct Hs as [H1 H2].
    pose proof (IH m1 _ H1) as Hr. destruct (dc_run m1 es) as [m2 cs']. rewrite foldl_app, <- H2. done. }
  pose proof (Hg es newDConn (None, None) ltac:(by intros ?)) as Hr. destruct (dc_run newDConn es) as [m calls].
  cbn [newDConn dc_desiredMs dc_desiredEagerness] in Hr. destruct Hr as [Hi Heq].
  destruct (foldl asked (0%Z, []) es) as [ms mode]. injection Heq as <- <-. split_and!; try done; intros Hs; by apply Hi.
Qed.

Lemma client_sees_agent_witness :
  onConnectionsChanged (rowsMessage 7 (toDtos [sampleTcp])) = Some [SigConnectionsUpdated [wireView sampleTcp]].
Proof. apply (client_sees_agent 7 [sampleTcp] []). repeat constructor; done. Defined.
