(* ===== verification/Handoff.v ===== *)
(** * The hand-off channel: [src/util/HandoffServer.{h,cpp}], [src/util/HandoffClient.{h,cpp}]

    The line protocol between the unprivileged parent and the privileged child
    it spawned.  A run of the server is a sequence of whole slot calls; the
    list of [Act]s a call returns is everything it does to the outside world:
    sockets accepted, read, written and closed, and signals emitted.

    Bytes are integers.  [QJsonDocument]'s text is Qt's: its printer and reader
    are parameters, a document is a value of [JV].  Whether
    [disconnectFromServer] completes at once ([disconnected] is delivered
    inside the call) or later is the argument [cl] of the slots; Qt documents
    that it waits only for unwritten data, so a socket that was never written
    to closes at once. *)

From S2P Require Import Prelude Qt DbusTypes.

(* ------------------------------------------------------------------ *)
(** ** Bytes *)

Abbreviation bytes := (list Z) (only parsing).

(** [left(nl)] and [mid(nl + 1)] around the first [c], if there is one. *)
Fixpoint cutAt (c : Z) (l : bytes) : option (bytes * bytes) :=
  match l with
  | [] => None
  | x :: l' =>
      if (x =? c)%Z then Some ([], l')
      else match cutAt c l' with Some (a, b) => Some (x :: a, b) | None => None end
  end.

(** [QByteArray::trimmed]. *)
Fixpoint bdrop (l : bytes) : bytes :=
  match l with x :: l' => if ascii_isSpace x then bdrop l' else l | [] => [] end.

Definition btrimmed (l : bytes) : bytes := reverse (bdrop (reverse (bdrop l))).

(** One hexadecimal digit, and [arg(w, 8, 16, '0')] of a 32-bit word. *)
Definition hexDigit (z : Z) : Z := if (z <? 10)%Z then (48 + z)%Z else (87 + z)%Z.

Fixpoint hexPad (n : nat) (w : Z) : bytes :=
  match n with O => [] | S n' => hexPad n' (w / 16) ++ [hexDigit (w mod 16)] end.

Definition makeNonce (words : list Z) : QString := concat (map (hexPad 8) words).

(* ------------------------------------------------------------------ *)
(** ** Statistics as JSON *)

Inductive JV :=
| JBool (b : bool)
| JNum (d : double)
| JStr (s : QString)
| JArr (l : list JV)
| JObj (o : list (QString * JV)).

Fixpoint qltb (a b : QString) : bool :=
  match a, b with
  | _, [] => false
  | [], _ :: _ => true
  | x :: a', y :: b' => (x <? y)%Z || ((x =? y)%Z && qltb a' b')
  end.

(** [QJsonObject] keeps its keys sorted; [insert] replaces. *)
Fixpoint jinsert (k : QString) (v : JV) (o : list (QString * JV)) : list (QString * JV) :=
  match o with
  | [] => [(k, v)]
  | (k', v') :: o' =>
      if qeqb k k' then (k, v) :: o'
      else if qltb k k' then (k, v) :: o
      else (k', v') :: jinsert k v o'
  end.

Fixpoint jvalue (o : list (QString * JV)) (k : QString) : option JV :=
  match o with
  | [] => None
  | (k', v) :: o' => if qeqb k k' then Some v else jvalue o' k
  end.

(** [toObject], [toArray], [toString], [toDouble] and [toBool] of a possibly
    undefined [QJsonValue]: the type's default when it holds something else. *)
Definition jtoObject (v : JV) : list (QString * JV) := match v with JObj o => o | _ => [] end.
Definition jtoArray (v : option JV) : list JV := match v with Some (JArr l) => l | _ => [] end.
Definition jtoString (v : option JV) : QString := match v with Some (JStr s) => s | _ => [] end.
Definition jtoDouble (v : option JV) : double := match v with Some (JNum d) => d | _ => dzero end.
Definition jtoBool (v : option JV) : bool := match v with Some (JBool b) => b | _ => false end.

(** [quint64(d)]: truncation, defined by the language for values in range. *)
Definition dtoU64 (d : double) : option Z :=
  match d with
  | S754_zero _ => Some 0%Z
  | S754_finite sx m e =>
      let t := if (0 <=? e)%Z then Z.shiftl (Zpos m) e else Z.shiftr (Zpos m) (- e) in
      if sx then if (t =? 0)%Z then Some 0%Z else None
      else if (t <? two64)%Z then Some t else None
  | _ => None
  end.

Definition encodeOne (s : InterfaceStats) : JV :=
  JObj (jinsert (qs "u") (JBool (if_isUp s))
       (jinsert (qs "l") (JBool (if_isLoopback s))
       (jinsert (qs "t") (JNum (dofZ (if_txBytes s)))
       (jinsert (qs "r") (JNum (dofZ (if_rxBytes s)))
       (jinsert (qs "n") (JStr (if_name s)) []))))).

Definition statsDoc (stats : list InterfaceStats) : JV :=
  JObj (jinsert (qs "items") (JArr (map encodeOne stats)) []).

(** A default [InterfaceStats] with the five members the channel carries. *)
Definition carried (name : QString) (rx tx : Z) (loopback up : bool) : InterfaceStats :=
  mkInterfaceStats name [] 0 [] rx tx 0 0 up loopback 0 0 0 0 0 0.

(** [None]: a conversion the language leaves undefined. *)
Definition decodeOne (v : JV) : option InterfaceStats :=
  let o := jtoObject v in
  rx ← dtoU64 (jtoDouble (jvalue o (qs "r")));
  tx ← dtoU64 (jtoDouble (jvalue o (qs "t")));
  Some (carried (jtoString (jvalue o (qs "n"))) rx tx (jtoBool (jvalue o (qs "l"))) (jtoBool (jvalue o (qs "u")))).

Class QJson := {
  toJsonCompact : JV -> bytes;
  fromJson : bytes -> option JV;     (* None: a null document *)
}.

Definition encodeStats `{QJson} (stats : list InterfaceStats) : bytes := toJsonCompact (statsDoc stats).

Definition decodeStats `{QJson} (payload : bytes) : option (list InterfaceStats) :=
  match fromJson payload with
  | Some (JObj root) => mapM decodeOne (jtoArray (jvalue root (qs "items")))
  | _ => Some []
  end.

(* ------------------------------------------------------------------ *)
(** ** The server *)

Inductive HSignal :=
| ChildReady
| ChildStats (stats : option (list InterfaceStats))
| ChildPauseState (paused : bool)
| ChildDisconnected.

Inductive Act :=
| Accept (sock : nat) (uid : Z)            (* adopted as m_client *)
| Read (sock : nat) (data : bytes)         (* readAll *)
| Write (sock : nat) (data : bytes)
| Close (sock : nat)                       (* disconnectFromServer *)
| Emit (sig : HSignal).

Record HandoffServer := mkServer {
  hs_listening : bool;                     (* m_server *)
  hs_client : option nat;                  (* m_client *)
  hs_readBuf : bytes;
  hs_socketPath : QString;
  hs_socketDir : QString;
  hs_nonce : QString;
  hs_nonceFilePath : QString;
  hs_lastError : QString;
  hs_expectedChildUid : Z;
  hs_authenticated : bool;
}.

Definition newServer : HandoffServer := mkServer false None [] [] [] [] [] [] 0 false.

Definition setSession (cl : option nat) (buf : bytes) (auth : bool) (st : HandoffServer) : HandoffServer :=
  mkServer (hs_listening st) cl buf (hs_socketPath st) (hs_socketDir st) (hs_nonce st)
    (hs_nonceFilePath st) (hs_lastError st) (hs_expectedChildUid st) auth.

(** What [listen] asks of the system. *)
Record ListenEnv := mkListenEnv {
  le_runtime : QString;                    (* RuntimeLocation, [] when unset *)
  le_runtimeExists : bool;
  le_cache : QString;                      (* GenericCacheLocation *)
  le_tempDir : QString + QString;          (* error text, or the created path *)
  le_uuid1 : QString; le_uuid2 : QString;
  le_words : list Z;
  le_nonceOpen : option QString;           (* error text *)
  le_nonceCommit : option QString;
  le_euid : Z;
  le_listen : option QString;
}.

Definition pickRuntimeDir (e : ListenEnv) : QString * QString :=
  if negb (isEmpty (le_runtime e)) && le_runtimeExists e then (le_runtime e, [])
  else if isEmpty (le_cache e) then ([], qs "no writable cache directory")
  else match le_tempDir e with
       | inl err => ([], err)
       | inr p => (p, [])
       end.

(** [QDir(dir).filePath(name)] for a relative [name]. *)
Definition filePath (dir name : QString) : QString :=
  match reverse dir with
  | 47%Z :: _ => dir ++ name
  | _ => dir ++ qs "/" ++ name
  end.

Definition listenFailed (err : QString) (dir : QString) (uid : Z) (st : HandoffServer) : HandoffServer :=
  mkServer false (hs_client st) (hs_readBuf st) [] dir [] [] err uid (hs_authenticated st).

Definition listen (e : ListenEnv) (st : HandoffServer) : QString * HandoffServer :=
  if hs_listening st then (hs_socketPath st, st)
  else
    let '(dir, pickErr) := pickRuntimeDir e in
    if isEmpty dir then
      ([], mkServer false (hs_client st) (hs_readBuf st) (hs_socketPath st) (hs_socketDir st) (hs_nonce st)
             (hs_nonceFilePath st) (qarg (qs "handoff: no safe runtime dir: %1") pickErr)
             (hs_expectedChildUid st) (hs_authenticated st))
    else
      let socketDir := if negb (prefixb (le_runtime e) dir) || isEmpty (le_runtime e) then dir else hs_socketDir st in
      let path := filePath dir (qarg (qs "qiftop-handoff-%1.sock") (le_uuid1 e)) in
      let nonce := makeNonce (le_words e) in
      let nonceFile := filePath dir (qarg (qs "qiftop-handoff-%1.nonce") (le_uuid2 e)) in
      match le_nonceOpen e, le_nonceCommit e, le_listen e with
      | Some err, _, _ =>
          ([], listenFailed (qarg (qs "handoff: cannot write nonce file: %1") err) socketDir (hs_expectedChildUid st) st)
      | None, Some err, _ =>
          ([], listenFailed (qarg (qs "handoff: cannot commit nonce file: %1") err) socketDir (hs_expectedChildUid st) st)
      | None, None, Some err => ([], listenFailed err socketDir (le_euid e) st)
      | None, None, None =>
          (path, mkServer true (hs_client st) (hs_readBuf st) path socketDir nonce nonceFile
                   (hs_lastError st) (le_euid e) (hs_authenticated st))
      end.

Definition hasChild (st : HandoffServer) : bool :=
  match hs_client st with Some _ => hs_authenticated st | None => false end.

Definition handleClientDisconnected (st : HandoffServer) : HandoffServer * list Act :=
  (setSession None [] false st, [Emit ChildDisconnected]).

(** [m_client->disconnectFromServer()], which runs [handleClientDisconnected]
    at once unless written data is still pending. *)
Definition closeClient (cl : bool) (st : HandoffServer) : HandoffServer * list Act :=
  match hs_client st with
  | None => (st, [])
  | Some s =>
      if cl || negb (hs_authenticated st)
      then let '(st', o) := handleClientDisconnected st in (st', Close s :: o)
      else (st, [Close s])
  end.

Definition rejectClient (cl : bool) (st : HandoffServer) : HandoffServer * list Act :=
  let '(st', o) := closeClient cl st in
  (setSession (hs_client st') [] (hs_authenticated st') st', o).

(** The verb and the payload of a line. *)
Definition verbOf (line : bytes) : bytes * bytes :=
  match cutAt 9 line with Some (v, p) => (v, p) | None => (line, []) end.

Section Dispatch.
Context `{QJson}.

Definition dispatch (cl : bool) (line : bytes) (st : HandoffServer) : HandoffServer * list Act :=
  if isEmpty line then (st, [])
  else
    let '(verb, payload) := verbOf line in
    if qeqb verb (qs "READY") then (st, [Emit ChildReady])
    else if qeqb verb (qs "STATS") then (st, [Emit (ChildStats (decodeStats payload))])
    else if qeqb verb (qs "PAUSED") then (st, [Emit (ChildPauseState (qeqb (btrimmed payload) (qs "1")))])
    else if qeqb verb (qs "BYE") then closeClient cl st
    else (st, []).

Definition kHello : bytes := qs "HELLO" ++ [9]%Z.
Definition kPreAuthCap : nat := 1024.
Definition kPostAuthCap : N := 1048576.

(** Does a first line authenticate? *)
Definition helloOk (nonce line : bytes) : bool :=
  prefixb kHello line && qeqb (btrimmed (drop 6 line)) nonce.

(** The line loop; [n] bounds the number of lines left in the buffer. *)
Fixpoint readLoop (n : nat) (cl : bool) (st : HandoffServer) : HandoffServer * list Act :=
  match n with
  | O => (st, [])
  | S n' =>
      match cutAt 10 (hs_readBuf st) with
      | None => (st, [])
      | Some (line, rest) =>
          let st1 := setSession (hs_client st) rest (hs_authenticated st) st in
          if negb (hs_authenticated st1) then
            if helloOk (hs_nonce st1) line
            then readLoop n' cl (setSession (hs_client st1) rest true st1)
            else rejectClient cl st1
          else
            let '(st2, o) := dispatch cl line st1 in
            let '(st3, o') := readLoop n' cl st2 in (st3, o ++ o')
      end
  end.

Definition handleReadyRead (cl : bool) (data : bytes) (st : HandoffServer) : HandoffServer * list Act :=
  match hs_client st with
  | None => (st, [])
  | Some s =>
      let buf := hs_readBuf st ++ data in
      let st1 := setSession (Some s) buf (hs_authenticated st) st in
      let '(st2, o) :=
        if negb (hs_authenticated st) && (kPreAuthCap <? length buf)%nat then rejectClient cl st1
        else if hs_authenticated st && (kPostAuthCap <? N.of_nat (length buf))%N then rejectClient cl st1
        else readLoop (S (length buf)) cl st1 in
      (st2, Read s data :: o)
  end.

(** A connection waiting in the server: its socket, the peer's uid ([None]
    when the lookup fails) and the bytes that have already arrived. *)
Record Peer := mkPeer { pe_sock : nat; pe_uid : option Z; pe_bytes : bytes }.

Definition uidAdmitted (expected uid : Z) : bool := (uid =? expected)%Z || (uid =? 0)%Z.

Definition adopt (cl : bool) (p : Peer) (uid : Z) (st : HandoffServer) : HandoffServer * list Act :=
  let st1 := setSession (Some (pe_sock p)) (hs_readBuf st) false st in
  let '(st2, o) := if isEmpty (pe_bytes p) then (st1, []) else handleReadyRead cl (pe_bytes p) st1 in
  (st2, Accept (pe_sock p) uid :: o).

Definition admitPeer (cl : bool) (p : Peer) (st : HandoffServer) : HandoffServer * list Act :=
  match pe_uid p with
  | None => (st, [Close (pe_sock p)])
  | Some uid =>
      if negb (uidAdmitted (hs_expectedChildUid st) uid) then (st, [Close (pe_sock p)])
      else
        match hs_client st with
        | None => adopt cl p uid st
        | Some s =>
            if hs_authenticated st then (st, [Close (pe_sock p)])
            else let '(st', o) := adopt cl p uid (setSession None [] false st) in (st', Close s :: o)
        end
  end.

Fixpoint handleNewConnection (cl : bool) (pending : list Peer) (st : HandoffServer) : HandoffServer * list Act :=
  match pending with
  | [] => (st, [])
  | p :: ps =>
      let '(st1, o) := admitPeer cl p st in
      let '(st2, o') := handleNewConnection cl ps st1 in (st2, o ++ o')
  end.

Definition hsend (line : bytes) (st : HandoffServer) : list Act :=
  match hs_client st with
  | Some s => if hs_authenticated st then [Write s line; Write s [10%Z]] else []
  | None => []
  end.

Definition pauseFlag (b : bool) : bytes := if b then qs "1" else qs "0".
Definition sendShow (st : HandoffServer) : list Act := hsend (qs "SHOW") st.
Definition sendPause (paused : bool) (st : HandoffServer) : list Act :=
  hsend (qs "PAUSE" ++ [9%Z] ++ pauseFlag paused) st.
Definition sendQuit (st : HandoffServer) : list Act := hsend (qs "QUIT") st.

Inductive HEvent :=
| EvNew (cl : bool) (pending : list Peer)
| EvReadyRead (cl : bool) (data : bytes)
| EvGone
| EvShow
| EvPause (paused : bool)
| EvQuit.

Definition hstep (st : HandoffServer) (e : HEvent) : HandoffServer * list Act :=
  match e with
  | EvNew cl ps => handleNewConnection cl ps st
  | EvReadyRead cl d => handleReadyRead cl d st
  | EvGone => handleClientDisconnected st
  | EvShow => (st, sendShow st)
  | EvPause b => (st, sendPause b st)
  | EvQuit => (st, sendQuit st)
  end.

Fixpoint hrun (st : HandoffServer) (es : list HEvent) : HandoffServer * list Act :=
  match es with
  | [] => (st, [])
  | e :: es' => let '(st1, o) := hstep st e in let '(st2, o') := hrun st1 es' in (st2, o ++ o')
  end.

End Dispatch.

(* ------------------------------------------------------------------ *)
(** ** The child's side *)

Inductive CAct :=
| CWrite (data : bytes)
| CRemoveNonceFile
| CShowRequested | CPauseCommand (paused : bool) | CQuitCommand | CDisconnected.

(** [hc_sock]: no socket, or one that is connected or not. *)
Record HandoffClient := mkClient { hc_sock : option bool; hc_readBuf : bytes }.

Definition newClient : HandoffClient := mkClient None [].

Record ConnectEnv := mkConnectEnv {
  ce_nonceFile : option (option bytes);   (* variable set; then the file's bytes if it opens *)
  ce_nonceVar : bytes;                    (* QIFTOP_HANDOFF_NONCE *)
  ce_connects : bool;
}.

Definition connectTo (socketPath : QString) (e : ConnectEnv) (c : HandoffClient) : bool * HandoffClient * list CAct :=
  if isEmpty socketPath then (false, c, [])
  else match hc_sock c with
  | Some up => (up, c, [])
  | None =>
      let '(fromFile, o) := match ce_nonceFile e with
                            | Some (Some content) => (btrimmed content, [CRemoveNonceFile])
                            | _ => ([], [])
                            end in
      let nonce := if isEmpty fromFile then ce_nonceVar e else fromFile in
      if isEmpty nonce then (false, c, o)
      else if negb (ce_connects e) then (false, c, o)
      else (true, mkClient (Some true) (hc_readBuf c), o ++ [CWrite (kHello ++ nonce ++ [10%Z])])
  end.

Definition csend (line : bytes) (c : HandoffClient) : list CAct :=
  match hc_sock c with Some true => [CWrite line; CWrite [10%Z]] | _ => [] end.

Definition cdispatch (line : bytes) : list CAct :=
  if isEmpty line then []
  else
    let '(verb, payload) := verbOf line in
    if qeqb verb (qs "SHOW") then [CShowRequested]
    else if qeqb verb (qs "PAUSE") then [CPauseCommand (qeqb (btrimmed payload) (qs "1"))]
    else if qeqb verb (qs "QUIT") then [CQuitCommand]
    else [].

Fixpoint clientLoop (n : nat) (buf : bytes) : bytes * list CAct :=
  match n with
  | O => (buf, [])
  | S n' =>
      match cutAt 10 buf with
      | None => (buf, [])
      | Some (line, rest) => let '(b, o) := clientLoop n' rest in (b, cdispatch line ++ o)
      end
  end.

Definition client_handleReadyRead (data : bytes) (c : HandoffClient) : HandoffClient * list CAct :=
  match hc_sock c with
  | None => (c, [])
  | Some up =>
      let buf := hc_readBuf c ++ data in
      let '(b, o) := clientLoop (S (length buf)) buf in (mkClient (Some up) b, o)
  end.

Definition client_handleDisconnected (c : HandoffClient) : HandoffClient * list CAct :=
  (mkClient (match hc_sock c with Some _ => Some false | None => None end) [], [CDisconnected]).

(** What the child says, and the line that says it. *)
Inductive ChildMsg := MReady | MStats (stats : list InterfaceStats) | MPaused (paused : bool) | MBye.

Definition msgLine `{QJson} (m : ChildMsg) : bytes :=
  match m with
  | MReady => qs "READY"
  | MStats l => qs "STATS" ++ [9%Z] ++ encodeStats l
  | MPaused b => qs "PAUSED" ++ [9%Z] ++ pauseFlag b
  | MBye => qs "BYE"
  end.

(** [sendReady], [sendStats], [sendPauseState] and [sendBye]. *)
Definition sendMsg `{QJson} (m : ChildMsg) (c : HandoffClient) : list CAct := csend (msgLine m) c.

(** ** The authorisation monitor

    The security contract of [HandoffServer.h], as an automaton over the
    server's actions.  Its state is the current session: the adopted socket
    and all bytes read from it.  A socket is adopted only for the expected uid
    or root; nothing is delivered from, or written to, a socket unless the
    first line read from it was [HELLO] with the session's nonce. *)

Definition helloFirst (nonce stream : bytes) : bool :=
  match cutAt 10 stream with Some (h, _) => helloOk nonce h | None => false end.

Definition authorised (nonce : bytes) (ses : option (nat * bytes)) : bool :=
  match ses with Some (_, stream) => helloFirst nonce stream | None => false end.

Definition mstep (nonce : bytes) (uid : Z) (ses : option (nat * bytes)) (a : Act) : option (option (nat * bytes)) :=
  match a with
  | Accept s u => if uidAdmitted uid u then Some (Some (s, [])) else None
  | Read s d =>
      match ses with
      | Some (s', stream) => if (s =? s')%nat then Some (Some (s, stream ++ d)) else None
      | None => None
      end
  | Write s d =>
      match ses with
      | Some (s', stream) => if (s =? s')%nat && helloFirst nonce stream then Some ses else None
      | None => None
      end
  | Close _ => Some ses
  | Emit ChildDisconnected => Some None
  | Emit _ => if authorised nonce ses then Some ses else None
  end.

Fixpoint mrun (nonce : bytes) (uid : Z) (ses : option (nat * bytes)) (t : list Act) : option (option (nat * bytes)) :=
  match t with
  | [] => Some ses
  | a :: t' => match mstep nonce uid ses a with Some ses' => mrun nonce uid ses' t' | None => None end
  end.

(* ------------------------------------------------------------------ *)
(** ** Bytes: lemmas *)

Lemma cutAt_Some c l a b : cutAt c l = Some (a, b) <-> l = a ++ c :: b /\ c ∉ a.
Proof.
  revert a b. induction l as [|x l IH]; intros a b; cbn.
  - split; [done|]. intros [E _]. by destruct a.
  - destruct (Z.eqb_spec x c) as [->|Hn].
    + split.
      * intros [= <- <-]. split; [done|set_solver].
      * intros [E Hc]. destruct a as [|y a]; [by injection E as ->|].
        injection E as <- _. set_solver.
    + destruct (cutAt c l) as [[a' b']|] eqn:E'.
      * destruct (proj1 (IH a' b') eq_refl) as [-> Hc]. split.
        -- intros [= <- <-]. split; [done|set_solver].
        -- intros [E Hn']. destruct a as [|y a]; [injection E; congruence|].
           injection E as <- E. assert (Some (a', b') = Some (a, b)) as [= -> ->] by (apply IH; set_solver).
           done.
      * split; [done|]. intros [E Hn']. destruct a as [|y a]; [injection E; congruence|].
        injection E as <- E. assert (@None (list Z * list Z) = Some (a, b)) by (apply IH; set_solver). done.
Qed.

Lemma cutAt_None c l : cutAt c l = None <-> c ∉ l.
Proof.
  split.
  - intros E Hc. apply list_elem_of_split in Hc as (a & b & -> ).
    induction a as [|x a IH]; cbn in E; [by rewrite Z.eqb_refl in E|].
    destruct (x =? c)%Z; [done|]. destruct (cutAt c (a ++ c :: b)) as [[??]|]; [done|]. by apply IH.
  - intros Hc. destruct (cutAt c l) as [[a b]|] eqn:E; [|done].
    apply cutAt_Some in E as [-> _]. set_solver.
Qed.

Lemma cutAt_app c a b : c ∉ a -> cutAt c (a ++ c :: b) = Some (a, b).
Proof. intros. by apply cutAt_Some. Qed.

Lemma cutAt_length c l a b : cutAt c l = Some (a, b) -> length l = S (length a + length b).
Proof. intros [-> _]%cutAt_Some. rewrite length_app. cbn. lia. Qed.

Lemma helloFirst_app nonce s d : helloFirst nonce s = true -> helloFirst nonce (s ++ d) = true.
Proof.
  unfold helloFirst. destruct (cutAt 10 s) as [[h r]|] eqn:E; [|done].
  apply cutAt_Some in E as [-> Hc]. rewrite <- app_assoc. cbn. by rewrite cutAt_app.
Qed.

Lemma mrun_app nonce uid ses t1 t2 :
  mrun nonce uid ses (t1 ++ t2) =
  match mrun nonce uid ses t1 with Some ses' => mrun nonce uid ses' t2 | None => None end.
Proof. revert ses. induction t1 as [|a t1 IH]; intros; cbn; [done|]. destruct (mstep _ _ _ _); auto. Qed.

(* ------------------------------------------------------------------ *)
(** ** The server keeps its contract *)

(** How the monitor's session and the server's members correspond. *)
Definition sessionOk (st : HandoffServer) (ses : option (nat * bytes)) : Prop :=
  match hs_client st with
  | None => hs_authenticated st = false /\ hs_readBuf st = [] /\ ses = None
  | Some s => exists stream, ses = Some (s, stream) /\
      if hs_authenticated st then helloFirst (hs_nonce st) stream = true else stream = hs_readBuf st
  end.

(** A slot's result is accepted by the monitor and the two stay in step. *)
Definition keeps (nonce : bytes) (uid : Z) (ses : option (nat * bytes)) (r : HandoffServer * list Act) : Prop :=
  hs_nonce r.1 = nonce /\ hs_expectedChildUid r.1 = uid /\
  exists ses', mrun nonce uid ses r.2 = Some ses' /\ sessionOk r.1 ses'.

Lemma keeps_nil nonce uid ses st :
  hs_nonce st = nonce -> hs_expectedChildUid st = uid -> sessionOk st ses -> keeps nonce uid ses (st, []).
Proof. intros. split_and!; [done|done|]. by exists ses. Qed.

Lemma keeps_cons nonce uid ses ses1 a st o :
  mstep nonce uid ses a = Some ses1 -> keeps nonce uid ses1 (st, o) -> keeps nonce uid ses (st, a :: o).
Proof. intros E (? & ? & ses' & Hr & ?). split_and!; [done|done|]. exists ses'. cbn in *. by rewrite E. Qed.

Lemma keeps_app nonce uid ses st1 o1 st2 o2 :
  keeps nonce uid ses (st1, o1) ->
  (forall ses1, sessionOk st1 ses1 -> hs_nonce st1 = nonce -> hs_expectedChildUid st1 = uid ->
    keeps nonce uid ses1 (st2, o2)) ->
  keeps nonce uid ses (st2, o1 ++ o2).
Proof.
  intros (? & ? & ses1 & Hr & Hs) Hk. cbn in *.
  destruct (Hk ses1) as (? & ? & ses2 & Hr2 & ?); [done..|].
  split_and!; [done|done|]. exists ses2. cbn in *. by rewrite mrun_app, Hr.
Qed.

Lemma closeClient_keeps cl st ses :
  sessionOk st ses -> keeps (hs_nonce st) (hs_expectedChildUid st) ses (closeClient cl st).
Proof.
  unfold closeClient. intros Hs. destruct (hs_client st) as [s|] eqn:Ec; [|by apply keeps_nil].
  destruct (cl || negb (hs_authenticated st)); cbn.
  - do 2 (eapply keeps_cons; [done|]). by apply keeps_nil.
  - eapply keeps_cons; [done|]. by apply keeps_nil.
Qed.

Lemma rejectClient_keeps cl st ses :
  (hs_authenticated st = false -> hs_client st <> None) -> sessionOk st ses ->
  keeps (hs_nonce st) (hs_expectedChildUid st) ses (rejectClient cl st).
Proof.
  unfold rejectClient, closeClient. intros Hc Hs.
  destruct (hs_client st) as [s|] eqn:Ec.
  - destruct (cl || negb (hs_authenticated st)) eqn:Eb; cbn.
    + do 2 (eapply keeps_cons; [done|]). by apply keeps_nil.
    + apply orb_false_iff in Eb as [_ Eb%negb_false_iff]. rewrite Ec, Eb.
      eapply keeps_cons; [done|]. apply keeps_nil; [done..|].
      unfold sessionOk in *. cbn. by rewrite Ec, Eb in *.
  - unfold sessionOk in Hs. rewrite Ec in Hs. destruct Hs as (Ha & _). by destruct Hc.
Qed.

Section Keeps.
Context `{QJson}.

Lemma dispatch_keeps cl line st ses :
  hs_authenticated st = true -> sessionOk st ses ->
  keeps (hs_nonce st) (hs_expectedChildUid st) ses (dispatch cl line st).
Proof.
  intros Ha Hs. unfold dispatch. destruct (isEmpty line); [by apply keeps_nil|].
  assert (authorised (hs_nonce st) ses = true) as Hau.
  { unfold sessionOk in Hs. rewrite Ha in Hs. destruct (hs_client st); [|by destruct Hs].
    by destruct Hs as (stream & -> & ?). }
  destruct (verbOf line) as [v p].
  repeat case_match; try (by apply keeps_nil); try (by apply closeClient_keeps);
    (eapply keeps_cons; [cbn; by rewrite Hau|by apply keeps_nil]).
Qed.

Lemma readLoop_keeps n cl st ses :
  sessionOk st ses -> keeps (hs_nonce st) (hs_expectedChildUid st) ses (readLoop n cl st).
Proof.
  revert st ses. induction n as [|n IH]; intros st ses Hs; cbn [readLoop]; [by apply keeps_nil|].
  destruct (cutAt 10 (hs_readBuf st)) as [[line rest]|] eqn:Ecut; [|by apply keeps_nil].
  cbn zeta. unfold sessionOk in Hs. destruct (hs_client st) as [s|] eqn:Ec; last first.
  { destruct Hs as (_ & Hb & _). by rewrite Hb in Ecut. }
  destruct Hs as (stream & -> & Hs). destruct (hs_authenticated st) eqn:Ha; cbn.
  - assert (sessionOk (setSession (Some s) rest true st) (Some (s, stream))) as Hs1 by (by exists stream).
    destruct (dispatch cl line _) as [st2 o] eqn:Ed.
    pose proof (dispatch_keeps cl line (setSession (Some s) rest true st) _ eq_refl Hs1) as Hd. rewrite Ed in Hd.
    destruct (readLoop n cl st2) as [st3 o'] eqn:El.
    eapply keeps_app; [exact Hd|]. intros ses1 Hs2 Hn Hu. cbn in Hn, Hu. rewrite <- Hn, <- Hu, <- El. by apply IH.
  - subst stream. destruct (helloOk (hs_nonce st) line) eqn:Eh.
    + apply (IH (setSession (Some s) rest true st) (Some (s, hs_readBuf st))).
      exists (hs_readBuf st). split; [done|]. cbn. unfold helloFirst. by rewrite Ecut.
    + unfold rejectClient, closeClient. cbn. rewrite orb_true_r. cbn.
      do 2 (eapply keeps_cons; [done|]). by apply keeps_nil.
Qed.

Lemma handleReadyRead_keeps cl d st ses :
  sessionOk st ses -> keeps (hs_nonce st) (hs_expectedChildUid st) ses (handleReadyRead cl d st).
Proof.
  intros Hs. unfold handleReadyRead. destruct (hs_client st) as [s|] eqn:Ec; [|by apply keeps_nil].
  unfold sessionOk in Hs. rewrite Ec in Hs. destruct Hs as (stream & -> & Hs).
  set (st1 := setSession (Some s) (hs_readBuf st ++ d) (hs_authenticated st) st).
  assert (sessionOk st1 (Some (s, stream ++ d))) as Hs1.
  { exists (stream ++ d). split; [done|]. cbn.
    destruct (hs_authenticated st); [by apply helloFirst_app|by subst]. }
  match goal with |- context [let '(_, _) := ?r in _] => assert (keeps (hs_nonce st) (hs_expectedChildUid st) (Some (s, stream ++ d)) r) as Hk; [|destruct r as [st2 o]] end.
  { repeat case_match; try (by apply (readLoop_keeps _ cl st1)); by apply (rejectClient_keeps cl st1). }
  eapply keeps_cons; [cbn; by rewrite Nat.eqb_refl|done].
Qed.

Lemma adopt_keeps cl p uid st ses :
  hs_readBuf st = [] -> uidAdmitted (hs_expectedChildUid st) uid = true ->
  keeps (hs_nonce st) (hs_expectedChildUid st) ses (adopt cl p uid st).
Proof.
  intros Hb Hu. unfold adopt. rewrite Hb.
  match goal with |- context [let '(_, _) := ?r in _] => assert (keeps (hs_nonce st) (hs_expectedChildUid st) (Some (pe_sock p, [])) r) as Hk; [|destruct r as [st2 o]] end.
  { assert (sessionOk (setSession (Some (pe_sock p)) [] false st) (Some (pe_sock p, []))) by (by exists []).
    case_match; [by apply keeps_nil|by apply (handleReadyRead_keeps cl _ (setSession (Some (pe_sock p)) [] false st))]. }
  eapply keeps_cons; [cbn; by rewrite Hu|done].
Qed.

Lemma admitPeer_keeps cl p st ses :
  sessionOk st ses -> keeps (hs_nonce st) (hs_expectedChildUid st) ses (admitPeer cl p st).
Proof.
  intros Hs. unfold admitPeer.
  assert (keeps (hs_nonce st) (hs_expectedChildUid st) ses (st, [Close (pe_sock p)])) as Hclose
    by (eapply keeps_cons; [done|by apply keeps_nil]).
  destruct (pe_uid p) as [uid|]; [|done]. destruct (uidAdmitted _ uid) eqn:Eu; [|done]. cbn.
  destruct (hs_client st) as [s|] eqn:Ec.
  - destruct (hs_authenticated st) eqn:Ha; [done|].
    pose proof (adopt_keeps cl p uid (setSession None [] false st) ses eq_refl Eu) as Hk.
    destruct (adopt cl p uid _) as [st' o]. by eapply keeps_cons.
  - apply adopt_keeps; [|done]. unfold sessionOk in Hs. rewrite Ec in Hs. by destruct Hs as (_ & ? & _).
Qed.

Lemma handleNewConnection_keeps cl ps st ses :
  sessionOk st ses -> keeps (hs_nonce st) (hs_expectedChildUid st) ses (handleNewConnection cl ps st).
Proof.
  revert st ses. induction ps as [|p ps IH]; intros st ses Hs; cbn; [by apply keeps_nil|].
  pose proof (admitPeer_keeps cl p st ses Hs) as Hp. destruct (admitPeer cl p st) as [st1 o].
  destruct (handleNewConnection cl ps st1) as [st2 o'] eqn:E.
  eapply keeps_app; [exact Hp|]. intros ses1 Hs1 Hn Hu. rewrite <- Hn, <- Hu, <- E. by apply IH.
Qed.

Lemma hsend_keeps line st ses :
  sessionOk st ses -> keeps (hs_nonce st) (hs_expectedChildUid st) ses (st, hsend line st).
Proof.
  intros Hs. unfold hsend. destruct (hs_client st) as [s|] eqn:Ec; [|by apply keeps_nil].
  destruct (hs_authenticated st) eqn:Ha; [|by apply keeps_nil].
  pose proof Hs as Hs'. unfold sessionOk in Hs'. rewrite Ec, Ha in Hs'. destruct Hs' as (stream & -> & Hh).
  do 2 (eapply keeps_cons; [cbn; by rewrite Nat.eqb_refl, Hh|]). by apply keeps_nil.
Qed.

Lemma hstep_keeps st e ses :
  sessionOk st ses -> keeps (hs_nonce st) (hs_expectedChildUid st) ses (hstep st e).
Proof.
  intros Hs. destruct e; cbn [hstep].
  - by apply handleNewConnection_keeps.
  - by apply handleReadyRead_keeps.
  - eapply keeps_cons; [done|]. by apply keeps_nil.
  - by apply hsend_keeps.
  - by apply hsend_keeps.
  - by apply hsend_keeps.
Qed.

Lemma hrun_keeps es st ses :
  sessionOk st ses -> keeps (hs_nonce st) (hs_expectedChildUid st) ses (hrun st es).
Proof.
  revert st ses. induction es as [|e es IH]; intros st ses Hs; cbn; [by apply keeps_nil|].
  pose proof (hstep_keeps st e ses Hs) as Hp. destruct (hstep st e) as [st1 o].
  destruct (hrun st1 es) as [st2 o'] eqn:E.
  eapply keeps_app; [exact Hp|]. intros ses1 Hs1 Hn Hu. rewrite <- Hn, <- Hu, <- E. by apply IH.
Qed.

End Keeps.

(* ------------------------------------------------------------------ *)
(** ** Counters through a double *)

Lemma digits2_pos_bound p : (2 ^ (Zpos (digits2_pos p) - 1) <= Zpos p)%Z.
Proof.
  induction p as [p IH|p IH|]; cbn [digits2_pos]; [| |done];
    rewrite Pos2Z.inj_succ; replace (Z.succ (Zpos (digits2_pos p)) - 1)%Z with (Z.succ (Zpos (digits2_pos p) - 1)) by lia;
    rewrite Z.pow_succ_r by lia; lia.
Qed.

Lemma iter_xO (m d : positive) :
  Zpos (Pos.iter xO m d) = (Zpos m * 2 ^ Zpos d)%Z /\ digits2_pos (Pos.iter xO m d) = (digits2_pos m + d)%positive.
Proof.
  induction d as [|d IH] using Pos.peano_ind; [split; cbn; lia|].
  rewrite Pos.iter_succ. destruct IH as [IH1 IH2]. split.
  - rewrite Pos2Z.inj_xO, IH1, Pos2Z.inj_succ, Z.pow_succ_r by lia. lia.
  - cbn [digits2_pos]. rewrite IH2. lia.
Qed.

(** Rounding leaves a 53-bit mantissa with an exponent in range as it is. *)
Lemma binary_round_aux_exact m e :
  Zpos (digits2_pos m) = 53%Z -> (-100 <= e <= 0)%Z ->
  binary_round_aux dprec demax false (Zpos m) e loc_Exact = S754_finite false m e.
Proof.
  intros Hd He.
  assert (fexp dprec demax (Zdigits2 (Zpos m) + e) - e = 0)%Z as Hf
    by (unfold fexp, SpecFloat.emin, dprec, demax; cbn [Zdigits2]; lia).
  unfold binary_round_aux, shr_fexp. rewrite Hf. cbn -[fexp Zdigits2 dprec demax]. rewrite Hf. cbn.
  destruct (Z.leb_spec e (demax - dprec)) as [|Hlt]; [done|unfold demax, dprec in Hlt; lia].
Qed.

Lemma dtoU64_dofZ z : (0 <= z < 2 ^ 53)%Z -> dtoU64 (dofZ z) = Some z.
Proof.
  intros Hz. destruct z as [|m|]; [done| |lia].
  pose proof (digits2_pos_bound m) as Hb.
  assert (Zpos (digits2_pos m) <= 53)%Z as Hd.
  { apply Z.nlt_ge. intros Hlt. assert (2 ^ 53 <= 2 ^ (Zpos (digits2_pos m) - 1))%Z by (apply Z.pow_le_mono_r; lia). lia. }
  assert (Zpos m < two64)%Z as Hm by (unfold two64; lia).
  unfold dofZ, binary_normalize, binary_round, shl_align.
  replace (fexp dprec demax (Zpos (digits2_pos m) + 0) - 0)%Z with (Zpos (digits2_pos m) - 53)%Z
    by (unfold fexp, SpecFloat.emin, dprec, demax; lia).
  replace (fexp dprec demax (Zpos (digits2_pos m) + 0)) with (Zpos (digits2_pos m) - 53)%Z
    by (unfold fexp, SpecFloat.emin, dprec, demax; lia).
  destruct (Zpos (digits2_pos m) - 53)%Z as [|d|d] eqn:Ed; [|lia|].
  - rewrite binary_round_aux_exact by lia. unfold dtoU64. change (0 <=? 0)%Z with true. cbv iota zeta. rewrite Z.shiftl_0_r. by apply Z.ltb_lt in Hm as ->.
  - destruct (iter_xO m d) as [Hv Hdig].
    rewrite binary_round_aux_exact by (rewrite ?Hdig; lia).
    unfold dtoU64. rewrite Hv. change (- Z.neg d)%Z with (Z.pos d).
    destruct (Z.leb_spec 0 (Z.neg d)); [lia|].
    rewrite Z.shiftr_div_pow2, Z.div_mul by lia. by apply Z.ltb_lt in Hm as ->.
Qed.

(** What the channel preserves of an interface record. *)
Definition carriedOf (s : InterfaceStats) : InterfaceStats :=
  carried (if_name s) (if_rxBytes s) (if_txBytes s) (if_isLoopback s) (if_isUp s).

Definition smallCounters (s : InterfaceStats) : Prop :=
  (0 <= if_rxBytes s < 2 ^ 53)%Z /\ (0 <= if_txBytes s < 2 ^ 53)%Z.

(** Qt's reader undoes its compact printer on this document, and the compact
    form is one line. *)
Definition jsonOk `{QJson} (stats : list InterfaceStats) : Prop :=
  fromJson (toJsonCompact (statsDoc stats)) = Some (statsDoc stats) /\ 10%Z ∉ toJsonCompact (statsDoc stats).

(** The members of an encoded record, found again under their keys. *)
Lemma encoded_members (n r t l u : JV) :
  let o := jinsert (qs "u") u (jinsert (qs "l") l (jinsert (qs "t") t (jinsert (qs "r") r (jinsert (qs "n") n [])))) in
  jvalue o (qs "n") = Some n /\ jvalue o (qs "r") = Some r /\ jvalue o (qs "t") = Some t /\
  jvalue o (qs "l") = Some l /\ jvalue o (qs "u") = Some u.
Proof. by vm_compute. Qed.

Lemma jvalue_single k v : jvalue (jinsert k v []) k = Some v.
Proof. cbn. by rewrite (proj2 (qeqb_eq k k) eq_refl). Qed.

Lemma decodeOne_encodeOne s : smallCounters s -> decodeOne (encodeOne s) = Some (carriedOf s).
Proof.
  intros [Hr Ht]. unfold decodeOne, encodeOne. cbn [jtoObject].
  edestruct encoded_members as (-> & -> & -> & -> & ->).
  unfold jtoDouble. by rewrite !dtoU64_dofZ.
Qed.

Lemma decodeStats_encodeStats `{QJson} stats :
  jsonOk stats -> Forall smallCounters stats -> decodeStats (encodeStats stats) = Some (map carriedOf stats).
Proof.
  intros [Hj _] Hs. unfold decodeStats, encodeStats. rewrite Hj. unfold statsDoc.
  rewrite jvalue_single.
  cbn [jtoArray]. apply mapM_Some. rewrite Forall2_fmap.
  clear Hj. induction Hs; constructor; auto using decodeOne_encodeOne.
Qed.

(* ------------------------------------------------------------------ *)
(** ** Framing: the lines of a stream, however it is cut into reads *)

(** The complete lines of a stream and the unfinished rest. *)
Fixpoint splitLines (l : bytes) : list bytes * bytes :=
  match l with
  | [] => ([], [])
  | x :: l' =>
      let '(ls, r) := splitLines l' in
      if (x =? 10)%Z then ([] :: ls, r)
      else match ls with [] => ([], x :: r) | h :: t => ((x :: h) :: t, r) end
  end.

Lemma splitLines_plain l : 10%Z ∉ l -> splitLines l = ([], l).
Proof.
  induction l as [|x l IH]; [done|]. intros Hn. cbn. rewrite IH by set_solver.
  destruct (Z.eqb_spec x 10); [set_solver|done].
Qed.

Lemma splitLines_line a b : 10%Z ∉ a ->
  splitLines (a ++ 10%Z :: b) = (a :: (splitLines b).1, (splitLines b).2).
Proof.
  induction a as [|x a IH]; intros Hn; cbn.
  - by destruct (splitLines b).
  - rewrite IH by set_solver. destruct (Z.eqb_spec x 10); [set_solver|done].
Qed.

Lemma splitLines_cut l :
  splitLines l = match cutAt 10 l with
                 | Some (a, b) => (a :: (splitLines b).1, (splitLines b).2)
                 | None => ([], l)
                 end.
Proof.
  destruct (cutAt 10 l) as [[a b]|] eqn:E.
  - apply cutAt_Some in E as [-> Hn]. by apply splitLines_line.
  - by apply splitLines_plain, cutAt_None.
Qed.

Lemma splitLines_rest l : 10%Z ∉ (splitLines l).2.
Proof.
  induction l as [|x l IH]; cbn; [set_solver|]. destruct (splitLines l) as [ls r]; cbn in *.
  destruct (Z.eqb_spec x 10); [done|]. destruct ls; cbn; set_solver.
Qed.

Lemma splitLines_app a b :
  splitLines (a ++ b) = ((splitLines a).1 ++ (splitLines ((splitLines a).2 ++ b)).1,
                         (splitLines ((splitLines a).2 ++ b)).2).
Proof.
  induction a as [|x a IH]; cbn; [by destruct (splitLines b)|].
  rewrite IH. destruct (splitLines a) as [ls r]; cbn.
  destruct (Z.eqb_spec x 10) as [->|Hn]; [done|].
  destruct ls as [|h t]; cbn; [|done].
  destruct (splitLines (r ++ b)) as [[|h' t'] r']; cbn; destruct (Z.eqb_spec x 10); done.
Qed.

Lemma splitLines_partial buf x ls r :
  10%Z ∉ buf -> splitLines (buf ++ x) = (ls, r) ->
  match ls with h :: _ => length buf <= length h | [] => length buf <= length r end.
Proof.
  intros Hb. rewrite splitLines_cut. destruct (cutAt 10 (buf ++ x)) as [[a b]|] eqn:E.
  - intros [= <- <-]. apply cutAt_Some in E as [E Ha].
    destruct (decide (length buf <= length a)) as [|Hlt]; [done|]. exfalso. apply Hb.
    assert (buf !! length a = Some 10%Z) as Hl; [|by eapply list_elem_of_lookup_2].
    rewrite <- (lookup_app_l buf x) by lia. rewrite E, lookup_app_r by done. by rewrite Nat.sub_diag.
  - intros [= <- <-]. rewrite length_app. lia.
Qed.

(* ------------------------------------------------------------------ *)
(** ** Delivery *)

Definition isBye (line : bytes) : bool := qeqb (verbOf line).1 (qs "BYE").

Definition lineActs `{QJson} (line : bytes) : list Act := (dispatch true line newServer).2.

Fixpoint signals (t : list Act) : list HSignal :=
  match t with
  | [] => []
  | Emit s :: t' => s :: signals t'
  | _ :: t' => signals t'
  end.

Lemma signals_app t1 t2 : signals (t1 ++ t2) = signals t1 ++ signals t2.
Proof. induction t1 as [|[] ? IH]; cbn; by rewrite ?IH. Qed.

Lemma setSession_id st : setSession (hs_client st) (hs_readBuf st) (hs_authenticated st) st = st.
Proof. by destruct st. Qed.

Section Delivery.
Context `{QJson}.

Lemma dispatch_plain cl line st : isBye line = false -> dispatch cl line st = (st, lineActs line).
Proof.
  unfold isBye, lineActs, dispatch. destruct (isEmpty line); [done|].
  destruct (verbOf line) as [v p]. cbn. intros ->. by repeat case_match.
Qed.

(** One run of the line loop handles every complete line of the buffer. *)
Lemma readLoop_auth n cl st :
  hs_authenticated st = true -> length (hs_readBuf st) < n ->
  Forall (fun l => isBye l = false) (splitLines (hs_readBuf st)).1 ->
  readLoop n cl st =
    (setSession (hs_client st) (splitLines (hs_readBuf st)).2 true st,
     concat (map lineActs (splitLines (hs_readBuf st)).1)).
Proof.
  revert st. induction n as [|n IH]; intros st Ha Hn; [lia|]. cbn [readLoop]. rewrite splitLines_cut.
  destruct (cutAt 10 (hs_readBuf st)) as [[line rest]|] eqn:E; cbn.
  - rewrite Ha. cbn. intros [Hl Hrest]%Forall_cons. rewrite dispatch_plain by done.
    apply cutAt_length in E. by rewrite IH by (cbn; auto with lia).
  - intros _. by rewrite <- Ha, setSession_id.
Qed.

Lemma readLoop_unauth n cl st :
  hs_authenticated st = false -> length (hs_readBuf st) < n ->
  readLoop n cl st =
    match cutAt 10 (hs_readBuf st) with
    | None => (st, [])
    | Some (h, rest) =>
        if helloOk (hs_nonce st) h then readLoop (Nat.pred n) cl (setSession (hs_client st) rest true st)
        else rejectClient cl (setSession (hs_client st) rest false st)
    end.
Proof.
  destruct n as [|n]; [lia|]. intros Ha _. cbn [readLoop Nat.pred].
  destruct (cutAt 10 (hs_readBuf st)) as [[h rest]|]; [|done]. cbn. by rewrite Ha.
Qed.

(** The lines still to be delivered: all, or all but the greeting. *)
Definition owed (auth : bool) (ls : list bytes) : list bytes := if auth then ls else tail ls.

Definition linesOk (auth : bool) (nonce : bytes) (ls : list bytes) : Prop :=
  if auth then Forall (fun l => isBye l = false) ls
  else exists h ls', ls = h :: ls' /\ helloOk nonce h = true /\ Forall (fun l => isBye l = false) ls'.

(** Bounds on a read and on the lines that keep both buffer caps unreached. *)
Definition fits (c : nat) (auth : bool) (ls : list bytes) : Prop :=
  Forall (fun l => (N.of_nat (length l + c) <= kPostAuthCap)%N) (owed auth ls) /\
  (auth = false -> Forall (fun l => length l + c <= kPreAuthCap) (take 1 ls)) /\
  (c <= kPreAuthCap) /\ (N.of_nat c <= kPostAuthCap)%N.

(** One read: the complete lines of buffer and data are delivered. *)
Lemma handleReadyRead_lines cl d st s ls1 r1 :
  hs_client st = Some s ->
  (if hs_authenticated st then (N.of_nat (length (hs_readBuf st ++ d)) <= kPostAuthCap)%N
   else length (hs_readBuf st ++ d) <= kPreAuthCap) ->
  splitLines (hs_readBuf st ++ d) = (ls1, r1) ->
  (ls1 <> [] \/ hs_authenticated st = true -> linesOk (hs_authenticated st) (hs_nonce st) ls1) ->
  handleReadyRead cl d st =
    (setSession (Some s) r1 (hs_authenticated st || negb (isEmpty ls1)) st,
     Read s d :: concat (map lineActs (owed (hs_authenticated st) ls1))).
Proof.
  intros Hc Hsz Hl Hok. unfold handleReadyRead. rewrite Hc.
  set (st1 := setSession (Some s) (hs_readBuf st ++ d) (hs_authenticated st) st).
  destruct (hs_authenticated st) eqn:Ha; cbn [negb andb orb owed].
  - destruct (N.ltb_spec kPostAuthCap (N.of_nat (length (hs_readBuf st ++ d)))); [lia|].
    rewrite readLoop_auth; cbn; rewrite ?Hl; [done..|lia|]. apply Hok. by right.
  - destruct (Nat.ltb_spec kPreAuthCap (length (hs_readBuf st ++ d))); [lia|].
    rewrite readLoop_unauth by (cbn; auto with lia). cbn [hs_readBuf st1 setSession Nat.pred hs_client hs_nonce].
    pose proof Hl as Hl'. rewrite splitLines_cut in Hl'.
    destruct (cutAt 10 _) as [[h rest]|] eqn:E; injection Hl' as <- <-; [|by subst st1].
    destruct Hok as (h' & ls' & [= <- <-] & -> & Hb); [by left|]. cbn.
    apply cutAt_length in E. by rewrite readLoop_auth by (cbn; auto with lia).
Qed.

Lemma owed_app auth l1 l2 : owed auth (l1 ++ l2) = owed auth l1 ++ owed (auth || negb (isEmpty l1)) l2.
Proof. by destruct auth, l1. Qed.

Lemma linesOk_app auth nonce l1 l2 :
  linesOk auth nonce (l1 ++ l2) ->
  linesOk (auth || negb (isEmpty l1)) nonce l2 /\ (l1 <> [] \/ auth = true -> linesOk auth nonce l1).
Proof.
  destruct auth; cbn.
  - intros [? ?]%Forall_app. by split.
  - destruct l1 as [|h l1]; cbn; [intros; split; [done|]; by intros [|]|].
    intros (h' & ls & [= <- <-] & Hh & [? ?]%Forall_app). split; [done|]. intros _. by exists h, l1.
Qed.

Lemma fits_app c auth l1 l2 : fits c auth (l1 ++ l2) -> fits c (auth || negb (isEmpty l1)) l2.
Proof.
  unfold fits. rewrite owed_app. intros ([_ H1]%Forall_app & H2 & H3 & H4). split_and!; [done| |done..].
  destruct auth, l1; cbn in *; done.
Qed.

(** The buffer, an unfinished line, leaves room for another read. *)
Lemma fits_room c auth ls n :
  fits c auth ls -> match ls with h :: _ => n <= length h | [] => n <= 0 end ->
  if auth then (N.of_nat (n + c) <= kPostAuthCap)%N else n + c <= kPreAuthCap.
Proof.
  intros (H1 & H2 & H3 & H4) Hn. destruct auth; cbn in H1.
  - destruct ls as [|h ls]; [|apply Forall_cons in H1 as [H1 _]]; lia.
  - specialize (H2 eq_refl). destruct ls as [|h ls]; [|apply Forall_cons in H2 as [H2 _]]; lia.
Qed.

(** Any split of the stream into reads delivers the same signals. *)
Lemma reads_deliver cl c cs st s ls :
  hs_client st = Some s -> 10%Z ∉ hs_readBuf st ->
  splitLines (hs_readBuf st ++ concat cs) = (ls, []) ->
  linesOk (hs_authenticated st) (hs_nonce st) ls -> fits c (hs_authenticated st) ls ->
  Forall (fun d => length d <= c) cs ->
  signals (hrun st (map (EvReadyRead cl) cs)).2 =
    signals (concat (map lineActs (owed (hs_authenticated st) ls))).
Proof.
  revert st ls. induction cs as [|d cs IH]; intros st ls Hc Hb Hl Hok Hfit Hlen.
  - cbn in Hl. rewrite app_nil_r, splitLines_plain in Hl by done. injection Hl as <- ?.
    destruct (hs_authenticated st); [done|]. by destruct Hok as (? & ? & ? & _).
  - apply Forall_cons in Hlen as [Hd Hlen]. cbn [concat] in Hl.
    pose proof (splitLines_partial _ _ _ _ Hb Hl) as Hpart.
    rewrite app_assoc, splitLines_app in Hl.
    destruct (splitLines (hs_readBuf st ++ d)) as [ls1 r1] eqn:E1. cbn [fst snd] in Hl.
    destruct (splitLines (r1 ++ concat cs)) as [ls2 r2] eqn:E2. cbn [fst snd] in Hl. injection Hl as <- ->.
    pose proof (splitLines_rest (hs_readBuf st ++ d)) as Hr1. rewrite E1 in Hr1. cbn in Hr1.
    cbn [map hrun hstep].
    rewrite (handleReadyRead_lines cl d st s ls1 r1); [|done| |done|].
    + specialize (IH (setSession (Some s) r1 (hs_authenticated st || negb (isEmpty ls1)) st) ls2).
      destruct (hrun _ (map (EvReadyRead cl) cs)) as [st3 o'] eqn:Er. cbn [snd] in *. cbn in IH.
      rewrite signals_app. cbn [signals]. rewrite IH; clear IH; try done.
      * by rewrite owed_app, map_app, concat_app, signals_app.
      * by apply linesOk_app in Hok as [? _].
      * by apply fits_app in Hfit.
    + pose proof (fits_room c _ _ (length (hs_readBuf st)) Hfit) as Hroom.
      rewrite length_app. destruct (hs_authenticated st), (ls1 ++ ls2); specialize (Hroom Hpart); lia.
    + by apply linesOk_app in Hok as [_ ?].
Qed.

Lemma lineActs_msg m :
  match m with MStats l => jsonOk l /\ Forall smallCounters l | MBye => False | _ => True end ->
  10%Z ∉ msgLine m /\ isBye (msgLine m) = false /\
  lineActs (msgLine m) = [Emit (match m with
                                | MReady => ChildReady
                                | MStats l => ChildStats (Some (map carriedOf l))
                                | MPaused b => ChildPauseState b
                                | MBye => ChildDisconnected
                                end)].
Proof.
  destruct m as [|l|b|]; [intros _|intros [Hj Hs]|intros _|done].
  - split_and!; [|done..]. apply cutAt_None. by vm_compute.
  - assert (verbOf (qs "STATS" ++ [9%Z] ++ encodeStats l) = (qs "STATS", encodeStats l)) as Hv.
    { unfold verbOf. cbn [app]. rewrite cutAt_app; [done|]. apply cutAt_None. by vm_compute. }
    unfold isBye, lineActs, dispatch. cbn [msgLine]. rewrite Hv. split_and!; [|done|].
    + destruct Hj as [_ Hj]. rewrite !not_elem_of_app. split_and!; [apply cutAt_None; by vm_compute..|done].
    + cbn. by rewrite decodeStats_encodeStats.
  - destruct b; (split_and!; [|done..]); apply cutAt_None; by vm_compute.
Qed.

End Delivery.

(** What the child says and what the parent's application hears. *)
Definition msgSignal (m : ChildMsg) : HSignal :=
  match m with
  | MReady => ChildReady
  | MStats l => ChildStats (Some (map carriedOf l))
  | MPaused b => ChildPauseState b
  | MBye => ChildDisconnected
  end.

(** A message other than [BYE] whose counters a double represents. *)
Definition msgOk `{QJson} (m : ChildMsg) : Prop :=
  match m with MStats l => jsonOk l /\ Forall smallCounters l | MBye => False | _ => True end.

Fixpoint written (t : list CAct) : bytes :=
  match t with
  | [] => []
  | CWrite d :: t' => d ++ written t'
  | _ :: t' => written t'
  end.

Lemma written_app t1 t2 : written (t1 ++ t2) = written t1 ++ written t2.
Proof. induction t1 as [|[] ? IH]; cbn; by rewrite ?IH, ?app_assoc. Qed.

Lemma hexDigit_plain z : (0 <= z < 16)%Z -> ascii_isSpace (hexDigit z) = false /\ hexDigit z <> 10%Z.
Proof.
  intros Hz. unfold hexDigit, ascii_isSpace.
  destruct (Z.ltb_spec z 10); (split; [|lia]); rewrite !orb_false_iff, !andb_false_iff, ?Z.leb_gt, ?Z.eqb_neq; lia.
Qed.

Lemma makeNonce_plain words : Forall (fun c => ascii_isSpace c = false /\ c <> 10%Z) (makeNonce words).
Proof.
  unfold makeNonce. apply Forall_concat, Forall_fmap, Forall_true. intros w. unfold compose.
  generalize 8. intros n. revert w. induction n as [|n IH]; intros w; cbn [hexPad]; [constructor|].
  apply Forall_app. split; [apply IH|]. apply Forall_singleton, hexDigit_plain, Z.mod_pos_bound. lia.
Qed.

Lemma length_makeNonce words : length (makeNonce words) = 8 * length words.
Proof. unfold makeNonce. induction words as [|w l IH]; [done|]. cbn [map concat]. rewrite length_app, IH. cbn. lia. Qed.

Lemma btrimmed_plain l : Forall (fun c => ascii_isSpace c = false) l -> btrimmed l = l.
Proof.
  assert (forall l, Forall (fun c => ascii_isSpace c = false) l -> bdrop l = l) as Hb.
  { intros [|c l'] Hl'; [done|]. apply Forall_cons in Hl' as [Hc _]. cbn. by rewrite Hc. }
  intros Hl. unfold btrimmed. rewrite (Hb l) by done. rewrite Hb by (by apply Forall_reverse). by rewrite reverse_involutive.
Qed.

Lemma helloOk_own nonce : btrimmed nonce = nonce -> helloOk nonce (kHello ++ nonce) = true.
Proof.
  intros Hn. unfold helloOk. rewrite (proj2 (prefixb_spec _ _)) by (by exists nonce).
  rewrite drop_app_length' by done. rewrite Hn. by apply qeqb_eq.
Qed.

Lemma splitLines_messages `{QJson} msgs :
  Forall msgOk msgs ->
  splitLines (concat (map (fun m => msgLine m ++ [10%Z]) msgs)) = (map msgLine msgs, []).
Proof.
  induction 1 as [|m msgs Hm _ IH]; [done|]. cbn [map concat]. rewrite <- app_assoc. cbn [app].
  destruct (lineActs_msg m Hm) as (Hn & _). by rewrite splitLines_line, IH.
Qed.

Lemma written_messages `{QJson} msgs buf :
  written (concat (map (fun m => sendMsg m (mkClient (Some true) buf)) msgs)) =
  concat (map (fun m => msgLine m ++ [10%Z]) msgs).
Proof.
  induction msgs as [|m msgs IH]; [done|]. cbn [map concat]. rewrite written_app, IH.
  cbn [written sendMsg csend hc_sock]. unfold sendMsg, csend. cbn [hc_sock written]. by rewrite app_nil_r.
Qed.

(** What a successful [listen] leaves. *)
Lemma listen_ready e path st :
  listen e newServer = (path, st) -> path <> [] ->
  hs_nonce st = makeNonce (le_words e) /\ hs_expectedChildUid st = le_euid e /\
  hs_client st = None /\ hs_readBuf st = [] /\ hs_authenticated st = false.
Proof.
  unfold listen. destruct (pickRuntimeDir e) as [dir err]. cbn -[qarg qs].
  destruct (isEmpty dir); [by intros [= <- <-]|].
  destruct (le_nonceOpen e); [by intros [= <- <-]|].
  destruct (le_nonceCommit e); [by intros [= <- <-]|].
  destruct (le_listen e); [by intros [= <- <-]|]. by intros [= <- <-].
Qed.

(** The child's greeting, when the nonce file holds a non-empty trimmed nonce. *)
Lemma connectTo_greets path env nonce client acts :
  ce_nonceFile env = Some (Some nonce) -> btrimmed nonce = nonce -> nonce <> [] ->
  connectTo path env newClient = (true, client, acts) ->
  client = mkClient (Some true) [] /\ written acts = kHello ++ nonce ++ [10%Z].
Proof.
  intros Hf Ht Hn. unfold connectTo. destruct (isEmpty path); [done|]. cbn [hc_sock newClient]. rewrite Hf, Ht.
  rewrite (proj2 (isEmpty_false nonce) Hn), (proj2 (isEmpty_false nonce) Hn).
  destruct (ce_connects env); [|done]. intros [= <- <-]. cbn [written app]. by rewrite app_nil_r.
Qed.

(** The lines of a child's whole stream. *)
Lemma splitLines_session `{QJson} nonce msgs :
  10%Z ∉ nonce -> Forall msgOk msgs ->
  splitLines ((kHello ++ nonce ++ [10%Z]) ++ concat (map (fun m => msgLine m ++ [10%Z]) msgs)) =
  ((kHello ++ nonce) :: map msgLine msgs, []).
Proof.
  intros Hn Hms. rewrite !app_assoc, <- (app_assoc _ [10%Z]). cbn [app].
  assert (10%Z ∉ kHello) as Hk by (apply cutAt_None; by vm_compute).
  rewrite splitLines_line by set_solver. by rewrite splitLines_messages.
Qed.

Lemma signals_messages `{QJson} msgs :
  Forall msgOk msgs -> signals (concat (map lineActs (map msgLine msgs))) = map msgSignal msgs.
Proof.
  induction 1 as [|m ms Hm _ IH]; [done|]. cbn [map concat]. rewrite signals_app, IH.
  destruct (lineActs_msg m Hm) as (_ & _ & ->). by destruct m.
Qed.

Lemma nonce_facts words :
  btrimmed (makeNonce words) = makeNonce words /\ 10%Z ∉ makeNonce words.
Proof.
  pose proof (makeNonce_plain words) as Hp. split.
  - apply btrimmed_plain. eapply Forall_impl; [exact Hp|]. naive_solver.
  - intros Hin. rewrite Forall_forall in Hp. by apply Hp in Hin as [].
Qed.

(* ------------------------------------------------------------------ *)
(** ** Theorems *)

(** C4. After a successful [listen] every run of the server satisfies the
    authorisation monitor: sockets are adopted only for the expected uid or
    root, and no signal is delivered from and no command written to a socket
    whose first line was not the session's greeting - whoever connects, in
    whatever order, with whatever bytes in whatever pieces. *)
Theorem handoff_authenticated `{QJson} e path st es :
  listen e newServer = (path, st) -> path <> [] ->
  is_Some (mrun (makeNonce (le_words e)) (le_euid e) None (hrun st es).2).
Proof.
  intros Hl Hp. destruct (listen_ready _ _ _ Hl Hp) as (Hn & Hu & Hc & Hb & Ha).
  destruct (hrun_keeps es st None) as (_ & _ & ses & Hr & _).
  - unfold sessionOk. by rewrite Hc.
  - rewrite <- Hn, <- Hu. by exists ses.
Qed.

(** End to end: a child that reads the nonce file, greets and reports is heard
    exactly - every message once, in order, byte counters included (below
    2^53) - however the stream is cut into reads of at most [c] bytes, as long
    as the greeting plus one read stays within the pre-authentication cap and
    each line plus one read within the other. *)
Theorem handoff_delivers `{QJson} e path st s uid cl c env client acts msgs reads :
  listen e newServer = (path, st) -> path <> [] -> length (le_words e) = 8 ->
  uidAdmitted (le_euid e) uid = true ->
  ce_nonceFile env = Some (Some (hs_nonce st)) ->
  connectTo path env newClient = (true, client, acts) ->
  Forall msgOk msgs ->
  concat reads = written (acts ++ concat (map (fun m => sendMsg m client) msgs)) ->
  Forall (fun d => length d <= c) reads -> 70 + c <= kPreAuthCap ->
  Forall (fun m => (N.of_nat (length (msgLine m) + c) <= kPostAuthCap)%N) msgs ->
  signals (hrun st (EvNew cl [mkPeer s (Some uid) []] :: map (EvReadyRead cl) reads)).2 = map msgSignal msgs.
Proof.
  intros Hl Hp Hw Hu Hf Hconn Hms Hreads Hlen Hpre Hpost.
  destruct (listen_ready _ _ _ Hl Hp) as (Hn & Hu' & Hc & Hb & Ha).
  destruct (nonce_facts (le_words e)) as [Ht H10]. rewrite <- Hn in Ht, H10.
  pose proof (length_makeNonce (le_words e)) as Hnl. rewrite <- Hn, Hw in Hnl.
  assert (hs_nonce st <> []) as Hne by (intros E; by rewrite E in Hnl).
  destruct (connectTo_greets _ _ _ _ _ Hf Ht Hne Hconn) as [-> Hg].
  rewrite written_app, written_messages, Hg in Hreads.
  cbn [hrun hstep handleNewConnection]. unfold admitPeer. cbn [pe_uid]. rewrite Hu', Hu, Hc. cbn [negb].
  unfold adopt. cbn [pe_bytes isEmpty pe_sock]. rewrite Hb.
  set (st1 := setSession (Some s) [] false st).
  pose proof (reads_deliver cl c reads st1 s ((kHello ++ hs_nonce st) :: map msgLine msgs)) as Hd.
  destruct (hrun st1 (map (EvReadyRead cl) reads)) as [st3 o3]. cbn [snd fst signals app] in *.
  rewrite Hd; clear Hd; [by apply signals_messages|done|set_solver| | | |done].
  - cbn [st1 hs_readBuf setSession app]. rewrite Hreads. by apply splitLines_session.
  - exists (kHello ++ hs_nonce st), (map msgLine msgs). split_and!; [done|by apply helloOk_own|].
    apply Forall_fmap. eapply Forall_impl; [exact Hms|]. intros m Hm. by apply lineActs_msg.
  - split_and!; cbn [owed tail st1 hs_authenticated setSession take].
    + by apply Forall_fmap.
    + intros _. apply Forall_singleton. rewrite length_app, Hnl. cbn. lia.
    + lia.
    + unfold kPreAuthCap, kPostAuthCap in *. lia.
Qed.

(** The pre-authentication cap is applied to everything one read returns, not
    to the unterminated first line: a correct greeting followed, in the same
    read, by enough reports closes the channel before the greeting is looked
    at, and the reports are lost. *)
Theorem greeting_with_backlog_rejected `{QJson} cl st s rest :
  hs_client st = Some s -> hs_authenticated st = false -> hs_readBuf st = [] ->
  kPreAuthCap < length (kHello ++ hs_nonce st ++ 10%Z :: rest) ->
  handleReadyRead cl (kHello ++ hs_nonce st ++ 10%Z :: rest) st =
    (setSession None [] false st,
     [Read s (kHello ++ hs_nonce st ++ 10%Z :: rest); Close s; Emit ChildDisconnected]).
Proof.
  intros Hc Ha Hb Hlen. unfold handleReadyRead. rewrite Hc, Ha, Hb. cbn [negb app andb].
  rewrite (proj2 (Nat.ltb_lt _ _) Hlen). unfold rejectClient, closeClient. cbn -[kHello]. by rewrite orb_true_r.
Qed.

(* ------------------------------------------------------------------ *)
(** ** Concrete runs *)

Definition sampleListen : ListenEnv :=
  mkListenEnv (qs "/run/user/1000") true (qs "/home/u/.cache") (inl []) (qs "a") (qs "b")
    [1; 2; 3; 4; 5; 6; 7; 4294967295]%Z None None 1000 None.

Definition sampleStats : list InterfaceStats := [carried (qs "eth0") 9007199254740991 42 false true].

(** A reader and a printer that are right about one document. *)
Definition sampleJson : QJson := {|
  toJsonCompact := fun _ => qs "{}";
  fromJson := fun _ => Some (statsDoc sampleStats);
|}.

Definition sampleServer : HandoffServer := (listen sampleListen newServer).2.

Definition sampleMsgs : list ChildMsg := [MReady; MStats sampleStats; MPaused true].

Definition sampleStream : bytes :=
  kHello ++ makeNonce (le_words sampleListen) ++ [10%Z] ++
  concat (map (fun m => @msgLine sampleJson m ++ [10%Z]) sampleMsgs).

Definition sampleReads : list bytes := [take 30 sampleStream; take 50 (drop 30 sampleStream); drop 80 sampleStream].

(** A peer without the nonce is cut off and the real child behind it is served. *)
Lemma handoff_authenticated_witness :
  is_Some (mrun (makeNonce (le_words sampleListen)) 1000 None
    (@hrun sampleJson sampleServer
      [EvNew true [mkPeer 1 (Some 1000%Z) (kHello ++ qs "guess" ++ [10%Z]); mkPeer 2 (Some 0%Z) sampleStream]; EvPause true]).2).
Proof.
  apply (@handoff_authenticated sampleJson sampleListen (listen sampleListen newServer).1 sampleServer);
    [reflexivity|by vm_compute].
Defined.

Lemma handoff_delivers_witness :
  signals (@hrun sampleJson sampleServer
    (EvNew true [mkPeer 7 (Some 0%Z) []] :: map (EvReadyRead true) sampleReads)).2 =
  [ChildReady; ChildStats (Some sampleStats); ChildPauseState true].
Proof.
  eapply (@handoff_delivers sampleJson sampleListen _ sampleServer 7 0%Z true 100
    (mkConnectEnv (Some (Some (hs_nonce sampleServer))) [] true) _ _ sampleMsgs sampleReads).
  - reflexivity.
  - by vm_compute.
  - reflexivity.
  - reflexivity.
  - reflexivity.
  - by vm_compute.
  - repeat constructor; try done; cbn; try lia. apply cutAt_None. by vm_compute.
  - by vm_compute.
  - repeat constructor; vm_compute; lia.
  - unfold kPreAuthCap. lia.
  - repeat constructor; by vm_compute.
Defined.

Lemma greeting_with_backlog_rejected_witness :
  let st := setSession (Some 7) [] false sampleServer in
  (@handleReadyRead sampleJson true (kHello ++ hs_nonce st ++ 10%Z :: replicate 1000 65%Z) st).2 =
  [Read 7 (kHello ++ hs_nonce st ++ 10%Z :: replicate 1000 65%Z); Close 7; Emit ChildDisconnected].
Proof.
  cbv zeta. rewrite (@greeting_with_backlog_rejected sampleJson true (setSession (Some 7) [] false sampleServer) 7);
    [reflexivity..|]. rewrite !length_app. cbn [length]. rewrite length_replicate. unfold kPreAuthCap. vm_compute. lia.
Defined.

(** Above 2^53 a counter arrives rounded. *)
Example counter_rounded : dtoU64 (dofZ 9007199254740993) = Some 9007199254740992%Z.
Proof. reflexivity. Qed.
