(* ===== verification/Export.v ===== *)
(** * Export: [src/util/Exporter.cpp], [src/util/Exportable.h], and the rows
      [ConnectionModel] and [NetworkModel] export

    Rows of variants become CSV (with formula injection defused) or JSON.
    The text [QVariant::toString] gives for doubles and the bytes of a JSON
    document are parameters. *)

From S2P Require Import Prelude Qt Conn DbusTypes Aggregator IfaceAgg Handoff.

Inductive ExportValue :=
| EvStr (s : QString) | EvBool (b : bool) | EvInt (z : Z) | EvULongLong (z : Z) | EvDouble (d : double)
| EvStrList (l : list QString).

(** [QVariant::toString] of the types that are no text. *)
Class VariantText := scalarText : ExportValue -> QString.

Record Exportable := mkExportable { ex_headers : list QString; ex_rows : list (list ExportValue) }.

(* ------------------------------------------------------------------ *)
(** ** CSV *)

Definition formulaChar (c : QChar) : bool :=
  (c =? 61)%Z || (c =? 43)%Z || (c =? 45)%Z || (c =? 64)%Z || (c =? 9)%Z || (c =? 13)%Z.

Definition csvSanitise (field : QString) : QString :=
  match field with
  | [] => field
  | c0 :: _ => if formulaChar c0 then 39%Z :: field else field
  end.

Definition csvQuoted (c : QChar) : bool := (c =? 44)%Z || (c =? 34)%Z || (c =? 10)%Z || (c =? 13)%Z.

(** Every double quote twice. *)
Definition doubleQuotes (s : QString) : QString := concat (map (fun c => if (c =? 34)%Z then [34; 34]%Z else [c]) s).

Definition csvEscape (raw : QString) : QString :=
  let field := csvSanitise raw in
  if negb (existsb csvQuoted field) then field else 34%Z :: doubleQuotes field ++ [34%Z].

Definition csvFlatten `{VariantText} (v : ExportValue) : QString :=
  match v with
  | EvStrList l => qjoin [32%Z] l
  | EvStr s => s
  | _ => scalarText v
  end.

Definition csvRow (fields : list QString) : QString := qjoin [44%Z] (map csvEscape fields).

(** The fields of the file, header row first. *)
Definition csvFields `{VariantText} (src : Exportable) : list (list QString) :=
  ex_headers src :: map (map csvFlatten) (ex_rows src).

Definition toCsv `{VariantText} (src : Exportable) : QString := qjoin [10%Z] (map csvRow (csvFields src)) ++ [10%Z].

(* ------------------------------------------------------------------ *)
(** ** JSON *)

Definition toJsonValue (v : ExportValue) : JV :=
  match v with
  | EvBool b => JBool b
  | EvInt z => JNum (dofZ z)
  | EvULongLong z => JStr (number z)
  | EvDouble d => JNum d
  | EvStrList l => JArr (map JStr l)
  | EvStr s => JStr s
  end.

Definition jsonRow (headers : list QString) (values : list ExportValue) : JV :=
  JObj (foldl (fun o '(h, v) => jinsert h (toJsonValue v) o) [] (combine headers values)).

Definition toJsonDoc (src : Exportable) : JV := JArr (map (jsonRow (ex_headers src)) (ex_rows src)).


Inductive SaveFault := OpenFails | WriteFails | CommitFails.

(** The result and the target's content after the call. *)
Definition save (fault : option SaveFault) (old : option (list Z)) (data : list Z) : bool * option (list Z) :=
  match fault with
  | Some _ => (false, old)
  | None => (true, Some data)
  end.

(* ------------------------------------------------------------------ *)
(** ** The exported rows *)

Section Rows.
Context `{QtAddrText} (dnsCachedName : nat -> QHostAddress -> QString).

Definition connectionHeaders : list QString :=
  map qs ["iface"; "proto"; "localAddress"; "localPort"; "remoteAddress"; "remotePort"; "remoteHostname"; "rxBytes"; "txBytes";
          "rxPackets"; "txPackets"; "rxBytesPerSec"; "txBytesPerSec"; "rxBytesPerSecRef"; "txBytesPerSecRef"; "pid"; "uid";
          "comm"; "containerRuntime"; "containerId"; "containerName"]%string.

Definition connectionRow (s : AggSettings) (r : Row) : list ExportValue :=
  let c := r_current r in
  [EvStr (c_iface c); EvStr (l4ProtoToString (c_proto c));
   EvStr (addrToString (ep_address (c_local c))); EvInt (ep_port (c_local c));
   EvStr (addrToString (ep_address (c_remote c))); EvInt (ep_port (c_remote c));
   EvStr (cachedHostname dnsCachedName s (ep_address (c_remote c)));
   EvULongLong (c_rxBytes c); EvULongLong (c_txBytes c); EvULongLong (c_rxPackets c); EvULongLong (c_txPackets c);
   EvDouble (ch_rate (r_rx r)); EvDouble (ch_rate (r_tx r)); EvDouble (rxReference s r); EvDouble (txReference s r);
   EvInt (pi_pid (c_process c)); EvInt (pi_uid (c_process c)); EvStr (pi_comm (c_process c));
   EvStr (ci_runtime (c_container c)); EvStr (ci_id (c_container c)); EvStr (ci_name (c_container c))].

Definition connectionExport (s : AggSettings) (rows : list Row) : Exportable :=
  mkExportable connectionHeaders (map (connectionRow s) rows).
End Rows.

Definition interfaceHeaders : list QString :=
  map qs ["name"; "type"; "mtu"; "addresses"; "isUp"; "isLoopback"; "rxBytes"; "txBytes"; "rxPackets"; "txPackets";
          "rxBytesPerSec"; "txBytesPerSec"]%string.

Definition interfaceRow (r : IfaceRow) : list ExportValue :=
  let s := ir_current r in
  [EvStr (if_name s); EvStr (if_type s); EvInt (if_mtu s); EvStrList (if_addresses s); EvBool (if_isUp s); EvBool (if_isLoopback s);
   EvULongLong (if_rxBytes s); EvULongLong (if_txBytes s); EvULongLong (if_rxPackets s); EvULongLong (if_txPackets s);
   EvDouble (ir_rxRate r); EvDouble (ir_txRate r)].

(* ------------------------------------------------------------------ *)
(** ** Reading CSV back (RFC 4180)

    Fields are separated by commas and records end with a line feed; a field
    that starts with a double quote runs to the matching one, a doubled quote
    inside standing for itself. *)

Inductive CsvState := AtStart | InField | InQuotes | AfterQuote.

Fixpoint csvRead (st : CsvState) (field : QString) (row : list QString) (s : QString) : list (list QString) :=
  match s with
  | [] => match st, row with AtStart, [] => [] | _, _ => [row ++ [field]] end
  | c :: r =>
      match st with
      | InQuotes => if (c =? 34)%Z then csvRead AfterQuote field row r else csvRead InQuotes (field ++ [c]) row r
      | _ =>
          if (c =? 44)%Z then csvRead AtStart [] (row ++ [field]) r
          else if (c =? 10)%Z then (row ++ [field]) :: csvRead AtStart [] [] r
          else if (c =? 34)%Z then
            match st with
            | AtStart => csvRead InQuotes field row r
            | AfterQuote => csvRead InQuotes (field ++ [c]) row r
            | _ => csvRead InField (field ++ [c]) row r
            end
          else csvRead InField (field ++ [c]) row r
      end
  end.

Lemma read_plain f st field row s :
  (st = AtStart \/ st = InField) -> existsb csvQuoted f = false ->
  exists st', (st' = AtStart \/ st' = InField) /\ csvRead st field row (f ++ s) = csvRead st' (field ++ f) row s.
Proof.
  revert st field. induction f as [|c f IH]; intros st field Hst Hf.
  { exists st. split; [done|]. by rewrite app_nil_r. }
  cbn [existsb] in Hf. apply orb_false_iff in Hf as [Hc Hf]. unfold csvQuoted in Hc.
  cbn [app csvRead]. assert (E44 : (c =? 44)%Z = false) by (by destruct (c =? 44)%Z).
  assert (E10 : (c =? 10)%Z = false) by (by destruct (c =? 44)%Z, (c =? 34)%Z, (c =? 10)%Z).
  assert (E34 : (c =? 34)%Z = false) by (by destruct (c =? 44)%Z, (c =? 34)%Z).
  rewrite E44, E10, E34. destruct (IH InField (field ++ [c]) (or_intror eq_refl) Hf) as (st' & Hst' & Heq).
  exists st'. split; [done|]. rewrite <- app_assoc in Heq. destruct Hst as [->| ->]; exact Heq.
Qed.

Lemma read_quoted f field row s :
  csvRead InQuotes field row (doubleQuotes f ++ 34%Z :: s) = csvRead AfterQuote (field ++ f) row s.
Proof.
  revert field. induction f as [|c f IH]; intros field; [by rewrite app_nil_r|]. unfold doubleQuotes in *. cbn [map concat].
  destruct (c =? 34)%Z eqn:Ec.
  - apply Z.eqb_eq in Ec as ->. cbn. rewrite IH. by rewrite <- app_assoc.
  - cbn. rewrite Ec. rewrite IH. by rewrite <- app_assoc.
Qed.

(** One written field, followed by a separator. *)
Lemma read_field f row sep s :
  (sep = 44%Z \/ sep = 10%Z) ->
  csvRead AtStart [] row (csvEscape f ++ sep :: s) =
  (if (sep =? 44)%Z then csvRead AtStart [] (row ++ [csvSanitise f]) s
   else (row ++ [csvSanitise f]) :: csvRead AtStart [] [] s).
Proof.
  intros Hsep. unfold csvEscape. destruct (existsb csvQuoted (csvSanitise f)) eqn:Eq; cbn [negb].
  - cbn [app]. cbn [csvRead]. change (34 =? 44)%Z with false. change (34 =? 10)%Z with false. change (34 =? 34)%Z with true.
    cbv iota. rewrite <- app_assoc. cbn [app]. rewrite read_quoted. cbn [app csvRead]. by destruct Hsep as [-> | ->].
  - destruct (read_plain (csvSanitise f) AtStart [] row (sep :: s) (or_introl eq_refl) Eq) as (st' & Hst & ->).
    cbn [app csvRead]. destruct Hst as [-> | ->]; by destruct Hsep as [-> | ->].
Qed.

Lemma read_row fields row s :
  fields <> [] ->
  csvRead AtStart [] row (csvRow fields ++ 10%Z :: s) = (row ++ map csvSanitise fields) :: csvRead AtStart [] [] s.
Proof.
  intros Hn. revert row. induction fields as [|f fields IH]; intros row; [done|]. unfold csvRow in *. cbn [map].
  destruct fields as [|f2 fields].
  - cbn [map qjoin]. rewrite read_field by (by right). done.
  - cbn [map] in *. change (qjoin [44%Z] (csvEscape f :: csvEscape f2 :: map csvEscape fields))
      with (csvEscape f ++ 44%Z :: qjoin [44%Z] (csvEscape f2 :: map csvEscape fields)).
    rewrite <- app_assoc. cbn [app]. rewrite read_field by (by left). change (44 =? 44)%Z with true. cbv iota.
    rewrite IH by done. by rewrite <- app_assoc.
Qed.

Lemma read_rows rows :
  Forall (fun r => r <> []) rows -> rows <> [] ->
  csvRead AtStart [] [] (qjoin [10%Z] (map csvRow rows) ++ [10%Z]) = map (map csvSanitise) rows.
Proof.
  induction 1 as [|r rows Hr Hrows IH]; intros Hn; [done|]. cbn [map]. destruct rows as [|r2 rows].
  - cbn [map qjoin]. rewrite read_row by done. done.
  - cbn [map] in *. change (qjoin [10%Z] (csvRow r :: csvRow r2 :: map csvRow rows))
      with (csvRow r ++ 10%Z :: qjoin [10%Z] (csvRow r2 :: map csvRow rows)).
    rewrite <- app_assoc. cbn [app]. rewrite read_row by done. f_equal. by apply IH.
Qed.

(** The first character of a cell. *)
Definition startsFormula (f : QString) : bool := match f with c :: _ => formulaChar c | [] => false end.

Lemma sanitise_safe f : startsFormula (csvSanitise f) = false.
Proof. destruct f as [|c f]; [done|]. cbn [csvSanitise]. by destruct (formulaChar c) eqn:E; cbn [startsFormula]; [|rewrite E]. Qed.

(** Whatever the cells contain - commas, quotes, line breaks, host names or
    process names of an attacker's choice - a reader of the exported file gets
    the cells back in place, each as exported but for the apostrophe put
    before a formula character, and no cell starts a formula. *)
Theorem csv_roundtrip `{VariantText} src :
  ex_headers src <> [] -> Forall (fun r => r <> []) (ex_rows src) ->
  let cells := csvRead AtStart [] [] (toCsv src) in
  cells = map (map csvSanitise) (csvFields src) /\ Forall (Forall (fun f => startsFormula f = false)) cells.
Proof.
  intros Hh Hr cells.
  assert (Hc : cells = map (map csvSanitise) (csvFields src)).
  { apply read_rows; [|done]. constructor; [done|]. apply Forall_fmap. eapply Forall_impl; [exact Hr|]. by intros []. }
  split; [done|]. rewrite Hc. apply Forall_fmap, Forall_forall. intros row _. cbn. apply Forall_fmap, Forall_forall.
  intros f _. apply sanitise_safe.
Qed.

(* ------------------------------------------------------------------ *)
(** ** JSON keeps counters exact *)

Lemma jvalue_jinsert k v o k' : jvalue (jinsert k v o) k' = if qeqb k' k then Some v else jvalue o k'.
Proof.
  induction o as [|[k1 v1] o IH]; cbn [jinsert jvalue]; [done|].
  destruct (qeqb k k1) eqn:E1.
  - apply qeqb_eq in E1 as <-. cbn [jvalue]. by destruct (qeqb k' k).
  - destruct (qltb k k1); cbn [jvalue]; [done|]. rewrite IH. destruct (qeqb k' k1) eqn:E2; [|done].
    apply qeqb_eq in E2 as ->. destruct (qeqb k1 k) eqn:E3; [|done]. apply qeqb_eq in E3 as ->.
    apply qeqb_neq in E1. done.
Qed.

Lemma jvalue_absent kvs o k : k ∉ kvs.*1 -> jvalue (foldl (fun o '(h, v) => jinsert h (toJsonValue v) o) o kvs) k = jvalue o k.
Proof.
  revert o. induction kvs as [|[h v] kvs IH]; intros o Hk; [done|]. cbn [foldl]. rewrite fmap_cons in Hk. cbn [fst] in Hk.
  apply not_elem_of_cons in Hk as [Hne Hk]. rewrite IH by done. rewrite jvalue_jinsert.
  destruct (qeqb k h) eqn:E; [|done]. by apply qeqb_eq in E.
Qed.

Lemma jvalue_row kvs o i h v :
  NoDup kvs.*1 -> kvs !! i = Some (h, v) ->
  jvalue (foldl (fun o '(h, v) => jinsert h (toJsonValue v) o) o kvs) h = Some (toJsonValue v).
Proof.
  revert o i. induction kvs as [|[h0 v0] kvs IH]; intros o i Hnd Hi; [done|]. rewrite fmap_cons in Hnd. cbn [fst] in Hnd.
  apply NoDup_cons in Hnd as [Hn Hnd]. cbn [foldl]. destruct i as [|i]; cbn in Hi.
  - simplify_eq. rewrite jvalue_absent by done. rewrite jvalue_jinsert. by rewrite (proj2 (qeqb_eq h h) eq_refl).
  - by eapply IH.
Qed.

Lemma combine_fst {A B} (l : list A) (k : list B) : (combine l k).*1 = take (length k) l.
Proof. revert k. induction l as [|a l IH]; intros [|b k]; cbn; [done..|]. f_equal. apply IH. Qed.

(** The member of the object for row [r] under a header. *)
Definition jsonCell (src : Exportable) (r : nat) (h : QString) : option JV :=
  match jtoArray (Some (toJsonDoc src)) !! r with Some (JObj o) => jvalue o h | _ => None end.

(** In the JSON export every cell is found under its header, and every 64-bit
    counter reads back exactly, also beyond 2^53 where a JSON number would be
    rounded. *)
Theorem json_cells_exact src r row c h v :
  NoDup (ex_headers src) -> ex_rows src !! r = Some row -> row !! c = Some v -> ex_headers src !! c = Some h ->
  jsonCell src r h = Some (toJsonValue v) /\
  (forall z, v = EvULongLong z -> (0 <= z)%Z -> exists text, jsonCell src r h = Some (JStr text) /\ parseDec text = Some z).
Proof.
  intros Hnd Hr Hc Hh.
  assert (Hcell : jsonCell src r h = Some (toJsonValue v)).
  { unfold jsonCell, toJsonDoc, jtoArray. rewrite list_lookup_fmap, Hr. cbn [fmap option_fmap option_map jsonRow].
    apply (jvalue_row _ _ c).
    - rewrite combine_fst. by eapply sublist_NoDup, sublist_take.
    - clear -Hc Hh. revert row c Hc Hh. generalize (ex_headers src) as hs.
      induction hs as [|h0 hs IH]; intros [|v0 row] [|c]; cbn; try done; [by intros [= ->] [= ->]|apply IH]. }
  split; [done|]. intros z -> Hz. exists (number z). split; [done|]. by apply parseDec_number.
Qed.

(** What the two models export has one value per header. *)
Lemma export_widths `{QtAddrText} dns s r i :
  length (connectionRow dns s r) = length connectionHeaders /\ length (interfaceRow i) = length interfaceHeaders /\
  NoDup connectionHeaders /\ NoDup interfaceHeaders.
Proof. split_and!; [done|done|apply (bool_decide_unpack _); vm_compute; exact I|apply (bool_decide_unpack _); vm_compute; exact I]. Qed.

(* ------------------------------------------------------------------ *)
(** ** Witnesses *)

#[local] Instance plainScalar : VariantText := fun v => match v with EvInt z => number z | EvULongLong z => number z | _ => [] end.

Definition exportSample : Exportable :=
  mkExportable [qs "host"; qs "bytes"] [[EvStr (qs "=cmd|A1, x"); EvULongLong 1152921504606846977]].

Lemma csv_roundtrip_witness :
  csvRead AtStart [] [] (toCsv exportSample) = [[qs "host"; qs "bytes"]; [qs "'=cmd|A1, x"; qs "1152921504606846977"]].
Proof. destruct (csv_roundtrip exportSample) as [-> _]; [discriminate|repeat constructor; discriminate|vm_compute; reflexivity]. Defined.

Lemma json_cells_exact_witness :
  exists text, jsonCell exportSample 0 (qs "bytes") = Some (JStr text) /\ parseDec text = Some 1152921504606846977%Z.
Proof.
  destruct (json_cells_exact exportSample 0 [EvStr (qs "=cmd|A1, x"); EvULongLong 1152921504606846977] 1 (qs "bytes")
    (EvULongLong 1152921504606846977)) as [_ H].
  - apply (bool_decide_unpack _). vm_compute. exact I.
  - reflexivity.
  - reflexivity.
  - reflexivity.
  - apply (H 1152921504606846977%Z eq_refl). discriminate.
Defined.
