(* ===== verification/Units.v ===== *)
(** * Byte counts as text and gauge fractions: [src/util/Units.h],
      [src/aggregate/BandwidthScale.h]

    [QString::arg] of a double in fixed notation is Qt's and is a parameter,
    as are [log10], [floor] and [pow] of the C library. *)

From S2P Require Import Prelude Qt.

Class QtNumberText := fixedText : double -> nat -> QString.

(** Truncation of a double toward zero; out of range it is undefined in the
    language and [None] here. *)
Definition dtrunc (d : double) : option Z :=
  match d with
  | S754_zero _ => Some 0%Z
  | S754_finite sx m e =>
      let t := if (0 <=? e)%Z then Z.shiftl (Zpos m) e else Z.shiftr (Zpos m) (- e) in
      if (t <? 9223372036854775808)%Z then Some (if sx then (- t)%Z else t) else None
  | _ => None
  end.

Definition kKiB : double := dofZ 1024.
Definition kMiB : double := dmul kKiB (dofZ 1024).
Definition kGiB : double := dmul kMiB (dofZ 1024).
Definition kTiB : double := dmul kGiB (dofZ 1024).

Section Format.
Context `{QtNumberText}.

Definition formatByteRate (bytesPerSec : double) : option QString :=
  if dle kGiB bytesPerSec then Some (qarg (qs "%1 GiB/s") (fixedText (ddiv bytesPerSec kGiB) 2))
  else if dle kMiB bytesPerSec then Some (qarg (qs "%1 MiB/s") (fixedText (ddiv bytesPerSec kMiB) 2))
  else if dle kKiB bytesPerSec then Some (qarg (qs "%1 KiB/s") (fixedText (ddiv bytesPerSec kKiB) 1))
  else match dtrunc bytesPerSec with
       | Some z => Some (qarg (qs "%1 B/s") (if (z <? 0)%Z then qs "-" ++ number (- z) else number z))
       | None => None
       end.

Definition formatBytes (bytes : Z) : QString :=
  let b := dofZ bytes in
  if dle kTiB b then qarg (qs "%1 TiB") (fixedText (ddiv b kTiB) 2)
  else if dle kGiB b then qarg (qs "%1 GiB") (fixedText (ddiv b kGiB) 2)
  else if dle kMiB b then qarg (qs "%1 MiB") (fixedText (ddiv b kMiB) 2)
  else if dle kKiB b then qarg (qs "%1 KiB") (fixedText (ddiv b kKiB) 1)
  else qarg (qs "%1 B") (number bytes).
End Format.

(* ------------------------------------------------------------------ *)
(** ** Gauge scale *)

Class CMath := { log10 : double -> double; dfloor : double -> double; dpow : double -> double -> double }.

Definition niceScale `{CMath} (maxRate : double) : double :=
  if dle maxRate dzero then dofZ 1024
  else
    let e := dfloor (log10 maxRate) in
    let base := dpow (dofZ 10) e in
    let m := ddiv maxRate base in
    let nice := if dle m (dofZ 1) then dofZ 1 else if dle m (dofZ 2) then dofZ 2
                else if dle m (dofZ 5) then dofZ 5 else dofZ 10 in
    dmul nice base.

(** [std::clamp]. *)
Definition dclamp (v lo hi : double) : double := if dlt v lo then lo else if dlt hi v then hi else v.

Definition gaugeFraction (value scale : double) : double :=
  if dle scale dzero then dzero else dclamp (ddiv value scale) dzero (dofZ 1).

Lemma dle_of_not_dlt a b : disnan a = false -> disnan b = false -> dlt a b = false -> dle b a = true.
Proof.
  unfold disnan, dlt, dle, deq, SFltb, SFleb, SFeqb.
  rewrite !negb_false_iff.
  destruct a as [sa|sa| |sa ma ea], b as [sb|sb| |sb mb eb]; cbn; try done;
    try (by destruct sa); try (by destruct sb); try (by destruct sa, sb).
  destruct sa, sb; cbn; try done;
    rewrite (Z.compare_antisym ea eb); destruct (Z.compare ea eb); cbn; try done;
    change (Pos.compare_cont Eq mb ma) with (Pos.compare mb ma); change (Pos.compare_cont Eq ma mb) with (Pos.compare ma mb);
    rewrite (Pos.compare_antisym ma mb); destruct (Pos.compare ma mb); done.
Qed.

(** The gauge fraction is in the unit interval whenever the rate and the scale
    are ordinary numbers. *)
Lemma gaugeFraction_unit value scale :
  disnan (ddiv value scale) = false ->
  dle dzero (gaugeFraction value scale) = true /\ dle (gaugeFraction value scale) (dofZ 1) = true.
Proof.
  intros Hn. unfold gaugeFraction, dclamp. destruct (dle scale dzero); [done|].
  destruct (dlt (ddiv value scale) dzero) eqn:E0; [done|].
  destruct (dlt (dofZ 1) (ddiv value scale)) eqn:E1; [done|].
  split; by apply dle_of_not_dlt.
Qed.
