(* ===== verification/TuiFormat.v ===== *)
(** * Terminal frontend, pure part: [src/tui/TuiFormat.h], [src/tui/TuiTheme.h],
      [src/tui/Expansion.h]

    Columns, cells, detail rows, sort orders, grouping keys and word wrapping
    of the terminal frontend, its colour themes, and the set of expanded
    entries of a keyed list.  The text of a rate whose conversion to an
    integer is undefined is a parameter. *)

From S2P Require Import Prelude StdAlgo Qt Conn DbusTypes UdpAgg Aggregator IfaceAgg Units.

(* ------------------------------------------------------------------ *)
(** ** Columns *)

Inductive View := ViewInterfaces | ViewConnections.

Inductive ColumnId :=
| ColFlow | ColRxRate | ColTxRate | ColRxTotal | ColTxTotal | ColProcess | ColContainer
| ColInterface | ColMtu | ColState | ColErrDrop.

Inductive GroupBy := GroupNone | GroupInterface | GroupProcess | GroupContainer | GroupCount.

#[global] Instance View_eq_dec : EqDecision View. Proof. solve_decision. Defined.
#[global] Instance ColumnId_eq_dec : EqDecision ColumnId. Proof. solve_decision. Defined.
#[global] Instance GroupBy_eq_dec : EqDecision GroupBy. Proof. solve_decision. Defined.

Record TuiColumn := mkColumn {
  col_id : ColumnId; col_title : QString; col_rightAlign : bool; col_fixedWidth : Z;
  col_hideable : bool; col_available : bool; col_visible : bool;
}.

Definition fixedColumn (id : ColumnId) (title : string) (right : bool) (width : Z) : TuiColumn :=
  mkColumn id (qs title) right width false true true.
Definition optionalColumn (id : ColumnId) (title : string) (width : Z) : TuiColumn :=
  mkColumn id (qs title) false width true true true.

Record OptionalColumns := mkOptional { oc_process : bool; oc_container : bool }.

Definition kRateW : Z := 11.
Definition kTotalW : Z := 11.
Definition kStateW : Z := 9.
Definition kMtuW : Z := 6.
Definition kErrW : Z := 11.
Definition kIfaceNameW : nat := 16.
Definition kProcessW : Z := 18.
Definition kContainerW : Z := 22.

Definition columnsFor (v : View) (optional : OptionalColumns) (groupBy : GroupBy) : list TuiColumn :=
  match v with
  | ViewInterfaces =>
      [fixedColumn ColInterface "Interface" false 0; fixedColumn ColRxRate "RX rate" true kRateW;
       fixedColumn ColTxRate "TX rate" true kRateW; fixedColumn ColRxTotal "RX total" true kTotalW;
       fixedColumn ColTxTotal "TX total" true kTotalW; fixedColumn ColMtu "MTU" true kMtuW;
       fixedColumn ColState "State" false kStateW; fixedColumn ColErrDrop "Err/Drop" true kErrW]
  | ViewConnections =>
      [fixedColumn ColFlow "Flow" false 0; fixedColumn ColRxRate "RX rate" true kRateW;
       fixedColumn ColTxRate "TX rate" true kRateW; fixedColumn ColRxTotal "RX total" true kTotalW;
       fixedColumn ColTxTotal "TX total" true kTotalW]
      ++ (if oc_process optional && negb (bool_decide (groupBy = GroupProcess))
          then [optionalColumn ColProcess "Process" kProcessW] else [])
      ++ (if oc_container optional && negb (bool_decide (groupBy = GroupContainer))
          then [optionalColumn ColContainer "Container" kContainerW] else [])
  end.

Definition overlayColumnsFor (v : View) : list TuiColumn :=
  match v with
  | ViewInterfaces => columnsFor v (mkOptional false false) GroupNone
  | ViewConnections => columnsFor v (mkOptional true true) GroupNone
  end.

Definition columnIdToken (id : ColumnId) : QString :=
  match id with
  | ColFlow => qs "flow" | ColRxRate => qs "rxRate" | ColTxRate => qs "txRate"
  | ColRxTotal => qs "rxTotal" | ColTxTotal => qs "txTotal" | ColProcess => qs "process"
  | ColContainer => qs "container" | ColInterface => qs "interface" | ColMtu => qs "mtu"
  | ColState => qs "state" | ColErrDrop => qs "errDrop"
  end.

Definition tokenMap : list (QString * ColumnId) :=
  [(qs "flow", ColFlow); (qs "rxRate", ColRxRate); (qs "txRate", ColTxRate); (qs "rxTotal", ColRxTotal);
   (qs "txTotal", ColTxTotal); (qs "process", ColProcess); (qs "container", ColContainer);
   (qs "interface", ColInterface); (qs "mtu", ColMtu); (qs "state", ColState); (qs "errDrop", ColErrDrop)].

Definition columnIdFromToken (token : QString) (fallback : ColumnId) : ColumnId :=
  match List.find (fun e => qeqb token (fst e)) tokenMap with
  | Some e => snd e
  | None => fallback
  end.

Definition columnIdForLegacyIndex (v : View) (idx : Z) : ColumnId :=
  match v with
  | ViewInterfaces =>
      match idx with
      | 0 => ColInterface | 1 => ColRxRate | 2 => ColTxRate | 3 => ColRxTotal | 4 => ColTxTotal
      | 5 => ColMtu | 6 => ColState | 7 => ColErrDrop | _ => ColInterface
      end%Z
  | ViewConnections =>
      match idx with
      | 0 => ColFlow | 1 => ColRxRate | 2 => ColTxRate | 3 => ColRxTotal | 4 => ColTxTotal
      | _ => ColRxRate
      end%Z
  end.

(** -1 when the field is not among the columns. *)
Definition visualIndexForColumn (cols : list TuiColumn) (field : ColumnId) : Z :=
  match list_find (fun c => col_id c = field) cols with
  | Some (i, _) => Z.of_nat i
  | None => -1
  end.

Definition operStateText (operState : Z) (isUp : bool) : QString :=
  match operState with
  | 1 => qs "absent" | 2 => qs "down" | 3 => qs "lower-dn" | 4 => qs "testing" | 5 => qs "dormant" | 6 => qs "up"
  | _ => if isUp then qs "up" else qs "down"
  end%Z.

Definition ifaceCombinedRate (r : IfaceRow) : double := dadd (ir_rxRate r) (ir_txRate r).
Definition combinedRate (r : Row) : double := dadd (ch_rate (r_rx r)) (ch_rate (r_tx r)).

(* ------------------------------------------------------------------ *)
(** ** Colour themes *)

Inductive TuiRole :=
| RoleNormal | RoleHeader | RoleTabActive | RoleTabInactive | RoleFooter | RoleSortIndicator
| RoleOutbound | RoleInbound | RoleForwarded | RoleStale | RoleAccent | RoleTitleBar
| RoleGroupHeader | RoleMenuKey | RoleCursor | RoleDetail.

#[global] Instance TuiRole_eq_dec : EqDecision TuiRole. Proof. solve_decision. Defined.

Record ThemeColor := mkThemeColor { tc_fg : Z; tc_bg : Z; tc_attr : Z }.

Record Theme := mkTheme { th_name : QString; th_roles : TuiRole -> ThemeColor; th_gaugeBg : Z }.

Definition cDefault : Z := -1.
Definition cBlack : Z := 0.
Definition cRed : Z := 1.
Definition cGreen : Z := 2.
Definition cYellow : Z := 3.
Definition cBlue : Z := 4.
Definition cMagenta : Z := 5.
Definition cCyan : Z := 6.
Definition cWhite : Z := 7.
Definition attrNone : Z := 0.
Definition attrBold : Z := 1.
Definition attrDim : Z := 2.
Definition attrReverse : Z := 4.
Definition attrUnderline : Z := 8.

(** Later entries win; a role without one keeps the default colour. *)
Definition makeTheme (name : string) (entries : list (TuiRole * ThemeColor)) (gaugeBg : Z) : Theme :=
  mkTheme (qs name)
    (fun r => foldl (fun acc '(r', c) => if bool_decide (r' = r) then c else acc)
                (mkThemeColor cDefault cDefault attrNone) entries) gaugeBg.

Definition darkTheme : Theme := makeTheme "dark"
  [(RoleHeader, mkThemeColor cBlack cYellow attrBold);
   (RoleTabActive, mkThemeColor cDefault cDefault (Z.lor attrReverse attrBold));
   (RoleTabInactive, mkThemeColor cDefault cDefault attrDim);
   (RoleFooter, mkThemeColor cDefault cDefault attrReverse);
   (RoleSortIndicator, mkThemeColor cYellow cDefault attrBold);
   (RoleOutbound, mkThemeColor cGreen cDefault attrNone);
   (RoleInbound, mkThemeColor cRed cDefault attrNone);
   (RoleForwarded, mkThemeColor cYellow cDefault attrNone);
   (RoleStale, mkThemeColor cDefault cDefault attrDim);
   (RoleAccent, mkThemeColor cBlue cDefault attrBold);
   (RoleTitleBar, mkThemeColor cWhite cBlue attrBold);
   (RoleGroupHeader, mkThemeColor cCyan cDefault attrBold);
   (RoleMenuKey, mkThemeColor cDefault cDefault (Z.lor attrReverse attrBold));
   (RoleCursor, mkThemeColor cBlack cCyan attrBold);
   (RoleDetail, mkThemeColor cCyan cDefault attrDim)] 240.

Definition lightTheme : Theme := makeTheme "light"
  [(RoleHeader, mkThemeColor cBlack cYellow attrBold);
   (RoleTabActive, mkThemeColor cDefault cDefault (Z.lor attrReverse attrBold));
   (RoleTabInactive, mkThemeColor cDefault cDefault attrDim);
   (RoleFooter, mkThemeColor cDefault cDefault attrReverse);
   (RoleSortIndicator, mkThemeColor cMagenta cDefault attrBold);
   (RoleOutbound, mkThemeColor cGreen cDefault attrBold);
   (RoleInbound, mkThemeColor cRed cDefault attrBold);
   (RoleForwarded, mkThemeColor cMagenta cDefault attrNone);
   (RoleStale, mkThemeColor cDefault cDefault attrDim);
   (RoleAccent, mkThemeColor cBlue cDefault attrBold);
   (RoleTitleBar, mkThemeColor cWhite cBlue attrBold);
   (RoleGroupHeader, mkThemeColor cBlue cDefault attrBold);
   (RoleMenuKey, mkThemeColor cDefault cDefault (Z.lor attrReverse attrBold));
   (RoleCursor, mkThemeColor cBlack cCyan attrBold);
   (RoleDetail, mkThemeColor cBlue cDefault attrDim)] 252.

Definition colorblindTheme : Theme := makeTheme "colorblind"
  [(RoleHeader, mkThemeColor cBlack cYellow attrBold);
   (RoleTabActive, mkThemeColor cDefault cDefault (Z.lor attrReverse attrBold));
   (RoleTabInactive, mkThemeColor cDefault cDefault attrDim);
   (RoleFooter, mkThemeColor cDefault cDefault attrReverse);
   (RoleSortIndicator, mkThemeColor cWhite cDefault attrBold);
   (RoleOutbound, mkThemeColor cCyan cDefault attrNone);
   (RoleInbound, mkThemeColor cMagenta cDefault attrNone);
   (RoleForwarded, mkThemeColor cYellow cDefault attrNone);
   (RoleStale, mkThemeColor cDefault cDefault attrDim);
   (RoleAccent, mkThemeColor cCyan cDefault attrBold);
   (RoleTitleBar, mkThemeColor cWhite cBlue attrBold);
   (RoleGroupHeader, mkThemeColor cCyan cDefault attrBold);
   (RoleMenuKey, mkThemeColor cDefault cDefault (Z.lor attrReverse attrBold));
   (RoleCursor, mkThemeColor cBlack cCyan attrBold);
   (RoleDetail, mkThemeColor cCyan cDefault attrDim)] 240.

Definition monoTheme : Theme := makeTheme "mono"
  [(RoleHeader, mkThemeColor cDefault cDefault attrReverse);
   (RoleTabActive, mkThemeColor cDefault cDefault (Z.lor attrReverse attrBold));
   (RoleTabInactive, mkThemeColor cDefault cDefault attrDim);
   (RoleFooter, mkThemeColor cDefault cDefault attrReverse);
   (RoleSortIndicator, mkThemeColor cDefault cDefault attrBold);
   (RoleOutbound, mkThemeColor cDefault cDefault attrNone);
   (RoleInbound, mkThemeColor cDefault cDefault attrBold);
   (RoleForwarded, mkThemeColor cDefault cDefault attrUnderline);
   (RoleStale, mkThemeColor cDefault cDefault attrDim);
   (RoleAccent, mkThemeColor cDefault cDefault attrBold);
   (RoleTitleBar, mkThemeColor cDefault cDefault (Z.lor attrReverse attrBold));
   (RoleGroupHeader, mkThemeColor cDefault cDefault (Z.lor attrBold attrUnderline));
   (RoleMenuKey, mkThemeColor cDefault cDefault (Z.lor attrReverse attrBold));
   (RoleCursor, mkThemeColor cDefault cDefault (Z.lor attrReverse attrBold));
   (RoleDetail, mkThemeColor cDefault cDefault attrDim)] (-1).

Definition builtinThemes : list Theme := [darkTheme; lightTheme; colorblindTheme; monoTheme].

Definition themeNames : list QString := map th_name builtinThemes.

(** The theme, and whether the name matched. *)
Definition themeByName `{QtUnicode} (name : QString) : Theme * bool :=
  match List.find (fun t => equalsCI (th_name t) name) builtinThemes with
  | Some t => (t, true)
  | None => (darkTheme, false)
  end.

(* ------------------------------------------------------------------ *)
(** ** Expanded entries of a keyed list *)

Section Expansion.
Definition ExpansionState := gset QString.

Definition isExpanded (key : QString) (m_open : ExpansionState) : bool := bool_decide (key ∈ m_open).
Definition expand (key : QString) (m_open : ExpansionState) : ExpansionState := {[ key ]} ∪ m_open.
Definition collapse (key : QString) (m_open : ExpansionState) : ExpansionState := m_open ∖ {[ key ]}.

Definition toggle (key : QString) (m_open : ExpansionState) : ExpansionState * bool :=
  if isExpanded key m_open then (collapse key m_open, false) else (expand key m_open, true).

Definition applyDir (key : QString) (dir : Z) (m_open : ExpansionState) : ExpansionState * bool :=
  if (0 <? dir)%Z then (expand key m_open, true)
  else if (dir <? 0)%Z then (collapse key m_open, false)
  else toggle key m_open.

Definition expansionCount (m_open : ExpansionState) : Z := Z.of_nat (size m_open).
Definition retainOnly (liveKeys : gset QString) (m_open : ExpansionState) : ExpansionState := m_open ∩ liveKeys.
End Expansion.

(* ------------------------------------------------------------------ *)
(** ** Cells *)

Definition dash : QString := [8212]%Z.                       (* an em dash *)

(** [QString::leftJustified], [QString::rightJustified]: pad, never cut. *)
Definition leftJustified (n : nat) (s : QString) : QString := s ++ replicate (n - length s) 32%Z.
Definition rightJustified (n : nat) (s : QString) : QString := replicate (n - length s) 32%Z ++ s.

Record SettingRow := mkSettingRow { sr_label : QString; sr_value : QString; sr_help : QString }.
Definition infoRow (label : string) (value : QString) : SettingRow := mkSettingRow (qs label) value [].

Section Format.
Context `{QtNumberText, QtAddrText, QtUnicode} (dnsCachedName : nat -> QHostAddress -> QString).
Context (undefinedRate : QString).

(** [util::formatByteRate]. *)
Definition rateText (d : double) : QString := default undefinedRate (formatByteRate d).

Definition mtuText (mtu : Z) : QString := if (0 <? mtu)%Z then number mtu else dash.

Definition ifaceErrs (s : InterfaceStats) : Z := u64 (if_rxErrors s + if_txErrors s).
Definition ifaceDrops (s : InterfaceStats) : Z := u64 (if_rxDropped s + if_txDropped s).

Definition ifaceNameCell (s : InterfaceStats) : QString :=
  let detail := (if if_isLoopback s then [qs "loopback"] else if isEmpty (if_type s) then [] else [if_type s])
                ++ (if isEmpty (if_addresses s) then [] else [qjoin (qs ", ") (if_addresses s)]) in
  if isEmpty detail then if_name s
  else leftJustified kIfaceNameW (if_name s) ++ dash ++ qs " " ++ qjoin (qs "  ") detail.

Definition cellsForInterface (r : IfaceRow) : list QString :=
  let s := ir_current r in
  [ifaceNameCell s; rateText (ir_rxRate r); rateText (ir_txRate r); formatBytes (if_rxBytes s); formatBytes (if_txBytes s);
   mtuText (if_mtu s); operStateText (if_operState s) (if_isUp s);
   qarg (qarg (qs "%1/%2") (number (ifaceErrs s))) (number (ifaceDrops s))].

Definition processCellText (c : Connection) : QString :=
  if processValid (c_process c) then
    let name := if isEmpty (pi_comm (c_process c)) then qarg (qs "pid %1") (number (pi_pid (c_process c)))
                else pi_comm (c_process c) in
    qarg (qarg (qs "%1 [%2]") name) (number (pi_pid (c_process c)))
  else
    match c_reason c with
    | Forwarded => dash ++ qs " forwarded " ++ dash
    | Orphaned => dash ++ qs " orphaned " ++ dash
    | NoLocalSocket => dash ++ qs " no socket " ++ dash
    | Resolved => dash
    end.

Definition containerCellText (c : Connection) : QString :=
  let ci := c_container c in
  if isEmpty (ci_runtime ci) && isEmpty (ci_name ci) && isEmpty (ci_id ci) then qs "(host)"
  else
    let display := if isEmpty (ci_name ci) then qleft 12 (ci_id ci) else ci_name ci in
    let primary := if isEmpty (ci_runtime ci) then display else ci_runtime ci ++ qs ":" ++ display in
    if 2 <=? length (c_containerChain c) then qarg (qs "%1 " ++ [9656%Z]) primary else primary.

Definition connectionFlowText (s : AggSettings) (c : Connection) : QString :=
  protoLabel s c ++ qs "  " ++ endpointText dnsCachedName s (c_local c) ++ qs " " ++ [8594%Z] ++ qs " "
  ++ endpointText dnsCachedName s (c_remote c).

Definition connectionCell (s : AggSettings) (r : Row) (id : ColumnId) : QString :=
  let c := r_current r in
  match id with
  | ColFlow => connectionFlowText s c
  | ColRxRate => rateText (ch_rate (r_rx r))
  | ColTxRate => rateText (ch_rate (r_tx r))
  | ColRxTotal => formatBytes (c_rxBytes c)
  | ColTxTotal => formatBytes (c_txBytes c)
  | ColProcess => processCellText c
  | ColContainer => containerCellText c
  | _ => []
  end.

Definition cellsForConnection (s : AggSettings) (r : Row) (columns : list TuiColumn) : list QString :=
  map (fun col => connectionCell s r (col_id col)) columns.

Definition groupHeaderCells (columns : list TuiColumn) (labelCell : QString) (rxRate txRate : double) (rxBytes txBytes : Z)
    : list QString :=
  map (fun col => match col_id col with
                  | ColFlow => labelCell
                  | ColRxRate => rateText rxRate
                  | ColTxRate => rateText txRate
                  | ColRxTotal => formatBytes rxBytes
                  | ColTxTotal => formatBytes txBytes
                  | _ => []
                  end) columns.

Definition interfaceKey (r : IfaceRow) : QString := if_name (ir_current r).
Definition connectionKey (r : Row) : QString := key (r_current r).

(* ------------------------------------------------------------------ *)
(** ** Detail panels *)

Definition orDash (s : QString) : QString := if isEmpty s then dash else s.

Definition rxTx (rx tx : Z) : QString := qarg (qarg (qs "rx %1  tx %2") (number rx)) (number tx).

Definition interfaceDetailRows (r : IfaceRow) : list SettingRow :=
  let s := ir_current r in
  [infoRow "Type" (if if_isLoopback s then qs "loopback" else orDash (if_type s));
   infoRow "Addresses" (if isEmpty (if_addresses s) then dash else qjoin (qs ", ") (if_addresses s));
   infoRow "MTU" (if (if_mtu s =? 0)%Z then dash else number (if_mtu s));
   infoRow "ifindex" (number (if_ifIndex s));
   infoRow "State" (qarg (qarg (qs "%1 (oper %2)") (operStateText (if_operState s) (if_isUp s))) (number (if_operState s)));
   infoRow "RX rate" (rateText (ir_rxRate r)); infoRow "TX rate" (rateText (ir_txRate r));
   infoRow "RX total" (formatBytes (if_rxBytes s)); infoRow "TX total" (formatBytes (if_txBytes s));
   infoRow "Packets" (rxTx (if_rxPackets s) (if_txPackets s));
   infoRow "Errors" (rxTx (if_rxErrors s) (if_txErrors s));
   infoRow "Dropped" (rxTx (if_rxDropped s) (if_txDropped s))].

Definition unattributedLabel (reason : AttributionReason) : QString :=
  match reason with
  | Forwarded => qs "(forwarded " ++ dash ++ qs " no local process)"
  | Orphaned => qs "(orphaned " ++ dash ++ qs " socket gone)"
  | NoLocalSocket => qs "(no local socket)"
  | Resolved => qs "(unattributed)"
  end.

Definition detailsValid (d : ProcessDetailsDto) : bool := (0 <? pd_pid d)%Z.

Definition rowIf (label : string) (value : QString) : list SettingRow := if isEmpty value then [] else [infoRow label value].

Definition processDetailRows (pd : option ProcessDetailsDto) : list SettingRow :=
  match pd with
  | Some d => if detailsValid d
              then rowIf "Exe" (pd_exe d) ++ rowIf "Cmdline" (pd_cmdline d) ++ rowIf "Cwd" (pd_cwd d) else []
  | None => []
  end.

Definition orQuestion (s : QString) : QString := if isEmpty s then qs "?" else s.
Definition nameOrId (ci : ContainerInfo) : QString := if isEmpty (ci_name ci) then ci_id ci else ci_name ci.

Definition directionText (d : Direction) : QString :=
  match d with Outbound => qs "outbound" | Inbound => qs "inbound" | DirUnknown => qs "unknown" end.

Definition connectionDetailRows (s : AggSettings) (r : Row) (pd : option ProcessDetailsDto) : list SettingRow :=
  let c := r_current r in
  let p := c_process c in
  let ci := c_container c in
  [infoRow "Protocol" (protoLabel s c);
   infoRow "Local" (endpointText dnsCachedName s (c_local c));
   infoRow "Remote" (endpointText dnsCachedName s (c_remote c));
   infoRow "Direction" (directionText (c_direction c));
   infoRow "Interface" (qarg (qarg (qs "%1 (ifindex %2)") (orDash (c_iface c))) (number (c_ifIndex c)))]
  ++ rowIf "TCP state" (tcpStateToString (c_tcpState c))
  ++ [infoRow "Process"
        (if processValid p
         then qarg (qarg (qarg (qs "%1 [%2] uid %3") (orQuestion (pi_comm p))) (number (pi_pid p))) (number (pi_uid p))
         else unattributedLabel (c_reason c))]
  ++ processDetailRows pd
  ++ (if containerValid ci
      then [infoRow "Container" (ci_runtime ci ++ qs " " ++ nameOrId ci ++ qs " (" ++ ci_id ci ++ qs ")")] else [])
  ++ [infoRow "RX rate" (rateText (ch_rate (r_rx r))); infoRow "TX rate" (rateText (ch_rate (r_tx r)));
      infoRow "RX total" (formatBytes (c_rxBytes c)); infoRow "TX total" (formatBytes (c_txBytes c));
      infoRow "Packets" (rxTx (c_rxPackets c) (c_txPackets c))].

(** Three NIC states: dimmed, live, idle. *)
Definition rowRoleForInterface (r : IfaceRow) : TuiRole :=
  let s := ir_current r in
  if if_isLoopback s then RoleStale
  else if negb (if_isUp s) || (if_operState s =? 2)%Z || (if_operState s =? 1)%Z then RoleStale
  else if dlt dzero (dadd (ir_rxRate r) (ir_txRate r)) then RoleOutbound
  else RoleNormal.

Definition rowRoleForConnection (s : AggSettings) (r : Row) : TuiRole :=
  if r_stale r then RoleStale
  else if aggIsForwardedFlow s (r_current r) then RoleForwarded
  else match c_direction (r_current r) with
       | Outbound => RoleOutbound
       | Inbound => RoleInbound
       | DirUnknown => RoleNormal
       end.

(* ------------------------------------------------------------------ *)
(** ** Grouping *)

Definition groupByName (g : GroupBy) : QString :=
  match g with
  | GroupInterface => qs "interface" | GroupProcess => qs "process" | GroupContainer => qs "container"
  | GroupNone | GroupCount => qs "off"
  end.

Definition anyOf (s : QString) (names : list string) : bool := existsb (fun n => qeqb s (qs n)) names.

Definition groupByFromName (name : QString) : GroupBy :=
  let n := toLower (trimmed name) in
  if anyOf n ["off"; "none"; "flat"] then GroupNone
  else if anyOf n ["interface"; "iface"; "if"] then GroupInterface
  else if anyOf n ["process"; "proc"] then GroupProcess
  else if anyOf n ["container"; "ctr"] then GroupContainer
  else GroupCount.

Definition groupSep : QChar := 1.

Definition tuiGroupKeyFor (g : GroupBy) (c : Connection) : QString :=
  match g with
  | GroupInterface => c_iface c
  | GroupProcess =>
      if processValid (c_process c)
      then qarg (qarg (qs "%1" ++ [groupSep] ++ qs "%2") (number (pi_pid (c_process c)))) (pi_comm (c_process c)) else []
  | GroupContainer =>
      if containerValid (c_container c) then ci_runtime (c_container c) ++ [groupSep] ++ ci_id (c_container c) else []
  | GroupNone | GroupCount => []
  end.

Definition tuiGroupLabelFor (g : GroupBy) (c : Connection) : QString :=
  match g with
  | GroupInterface => if isEmpty (c_iface c) then qs "(unattributed)" else c_iface c
  | GroupProcess =>
      if processValid (c_process c)
      then qarg (qarg (qs "%1 [%2]") (orQuestion (pi_comm (c_process c)))) (number (pi_pid (c_process c)))
      else qs "(unattributed)"
  | GroupContainer =>
      if containerValid (c_container c)
      then nameOrId (c_container c) ++ qs " (" ++ ci_runtime (c_container c) ++ qs ")" else qs "(no container)"
  | GroupNone | GroupCount => []
  end.

Definition groupDetailRows (mode : GroupBy) (rep : Connection) (rxRate txRate : double) (rxBytes txBytes : Z) (flowCount : Z)
    (pd : option ProcessDetailsDto) : list SettingRow :=
  let p := c_process rep in
  let ci := c_container rep in
  [infoRow "Grouping" (groupByName mode)]
  ++ match mode with
     | GroupInterface =>
         [infoRow "Interface" (qarg (qarg (qs "%1 (ifindex %2)")
            (if isEmpty (c_iface rep) then qs "(unattributed)" else c_iface rep)) (number (c_ifIndex rep)))]
     | GroupProcess =>
         if processValid p
         then [infoRow "Process" (orQuestion (pi_comm p)); infoRow "PID" (number (pi_pid p)); infoRow "UID" (number (pi_uid p))]
              ++ processDetailRows pd
         else [infoRow "Process" (qs "(unattributed)")]
     | GroupContainer =>
         if containerValid ci
         then [infoRow "Runtime" (ci_runtime ci); infoRow "Container" (nameOrId ci); infoRow "Id" (ci_id ci)]
         else [infoRow "Container" (qs "(no container)")]
     | GroupNone | GroupCount => []
     end
  ++ (if bool_decide (mode = GroupProcess) && containerValid ci
      then [infoRow "Container" (ci_runtime ci ++ qs " " ++ nameOrId ci)] else [])
  ++ [infoRow "Flows" (number flowCount); infoRow "RX rate" (rateText rxRate); infoRow "TX rate" (rateText txRate);
      infoRow "RX total" (formatBytes rxBytes); infoRow "TX total" (formatBytes txBytes)].
End Format.

(* ------------------------------------------------------------------ *)
(** ** Sort orders *)

(** Positions of a list sorted by what they hold. *)
Definition atLess {R} (less : R -> R -> bool) (rows : list R) (a b : nat) : bool :=
  match rows !! a, rows !! b with
  | Some x, Some y => less x y
  | _, _ => false
  end.

Section Sorting.
Context `{QtAddrText, QtUnicode, StdStableSort}.

Definition sortedIndices {R} (less : R -> R -> bool) (rows : list R) (descending : bool) : list nat :=
  let idx := stable_sort (atLess less rows) (seq 0 (length rows)) in
  if descending then reverse idx else idx.

Definition ifaceNum (field : ColumnId) (r : IfaceRow) : double :=
  let s := ir_current r in
  match field with
  | ColRxRate => ir_rxRate r
  | ColTxRate => ir_txRate r
  | ColRxTotal => dofZ (if_rxBytes s)
  | ColTxTotal => dofZ (if_txBytes s)
  | ColMtu => dofZ (if_mtu s)
  | ColState => dofZ (if_operState s)
  | ColErrDrop => dofZ (u64 (if_rxErrors s + if_txErrors s + if_rxDropped s + if_txDropped s))
  | _ => dzero
  end.

Definition ifaceLess (field : ColumnId) (a b : IfaceRow) : bool :=
  if bool_decide (field = ColInterface) then qlt (if_name (ir_current a)) (if_name (ir_current b))
  else dlt (ifaceNum field a) (ifaceNum field b).

Definition sortedInterfaceIndices (rows : list IfaceRow) (field : ColumnId) (descending : bool) : list nat :=
  sortedIndices (ifaceLess field) rows descending.

Definition containerSortKey (c : Connection) : QString :=
  if isEmpty (ci_name (c_container c)) then
    if isEmpty (ci_id (c_container c)) then 1%Z :: qs "(host)" else ci_id (c_container c)
  else ci_name (c_container c).

Definition connNum (field : ColumnId) (r : Row) : double :=
  match field with
  | ColRxRate => ch_rate (r_rx r)
  | ColTxRate => ch_rate (r_tx r)
  | ColRxTotal => dofZ (c_rxBytes (r_current r))
  | ColTxTotal => dofZ (c_txBytes (r_current r))
  | ColProcess => dofZ (pi_pid (c_process (r_current r)))
  | _ => dzero
  end.

Definition connLess (field : ColumnId) (a b : Row) : bool :=
  match field with
  | ColFlow => qlt (addrToString (ep_address (c_remote (r_current a)))) (addrToString (ep_address (c_remote (r_current b))))
  | ColContainer => qlt (containerSortKey (r_current a)) (containerSortKey (r_current b))
  | _ => dlt (connNum field a) (connNum field b)
  end.

Definition sortedConnectionIndices (rows : list Row) (field : ColumnId) (descending : bool) : list nat :=
  sortedIndices (connLess field) rows descending.

Record GroupSummary := mkSummary {
  gs_rxRate : double; gs_txRate : double; gs_rxBytes : Z; gs_txBytes : Z; gs_minSrc : nat; gs_label : QString;
}.

Definition minSrcLess (a b : GroupSummary) : bool := gs_minSrc a <? gs_minSrc b.

Definition aggVal (field : ColumnId) (g : GroupSummary) : double :=
  match field with
  | ColRxRate => gs_rxRate g
  | ColTxRate => gs_txRate g
  | ColRxTotal => dofZ (gs_rxBytes g)
  | ColTxTotal => dofZ (gs_txBytes g)
  | _ => dzero
  end.

Definition byLabel (field : ColumnId) : bool :=
  match field with ColFlow | ColProcess | ColContainer => true | _ => false end.

Definition groupLess (field : ColumnId) (desc : bool) (a b : GroupSummary) : bool :=
  if byLabel field then
    let la := foldCase (gs_label a) in
    let lb := foldCase (gs_label b) in
    if qeqb la lb then minSrcLess a b else if desc then qlt lb la else qlt la lb
  else
    let va := aggVal field a in
    let vb := aggVal field b in
    if deq va vb then minSrcLess a b else if desc then dlt vb va else dlt va vb.

Definition orderedGroupIndices (g : list GroupSummary) (field : ColumnId) (desc within : bool) : list nat :=
  if within then stable_sort (atLess minSrcLess g) (seq 0 (length g))
  else stable_sort (atLess (groupLess field desc) g) (seq 0 (length g)).
End Sorting.

(* ------------------------------------------------------------------ *)
(** ** Word wrapping *)

(** The inner [while]: pieces of [width] units until the rest fits.  Each
    piece consumes at least one unit, so the word's length is fuel enough. *)
Fixpoint hardBreak (fuel width : nat) (word : QString) : list QString * QString :=
  match fuel with
  | S fuel' =>
      if width <? length word
      then let '(pieces, rest) := hardBreak fuel' width (drop width word) in (take width word :: pieces, rest)
      else ([], word)
  | O => ([], word)
  end.

(** One word: the lines finished by it and the line in progress. *)
Definition wrapWord (width : nat) (st : list QString * QString) (w : QString) : list QString * QString :=
  let '(out, line) := st in
  let '(pieces, word) := hardBreak (length w) width w in
  let '(out, line) := if isEmpty pieces then (out, line)
                      else (out ++ (if isEmpty line then [] else [line]) ++ pieces, []) in
  if isEmpty line then (out, word)
  else if length line + 1 + length word <=? width then (out, line ++ 32%Z :: word)
  else (out ++ [line], word).

Definition wrapToWidth (text : QString) (width : Z) : list QString :=
  let width := Z.to_nat (Z.max 1 width) in
  if isEmpty text then [[]]
  else let '(out, line) := foldl (wrapWord width) ([], []) (qsplit 32%Z text) in out ++ [line].

(* ------------------------------------------------------------------ *)
(** ** The list of the Fields overlay *)

Definition onOff (v : bool) : QString := if v then qs "on" else qs "off".

Definition fieldRow (sortField : ColumnId) (sortDesc : bool) (c : TuiColumn) : SettingRow :=
  let marker := if bool_decide (col_id c = sortField)
                then qs "  " ++ (if sortDesc then 9660%Z :: qs " desc" else 9650%Z :: qs " asc") else [] in
  if negb (col_hideable c)
  then mkSettingRow (col_title c) (qs "fixed" ++ marker) (qarg (qs "Sort by %1. Enter sorts; r reverses.") (col_title c))
  else if negb (col_available c)
  then mkSettingRow (col_title c) (qs "unavailable")
         (qarg (qs "Requires the agent's %1 capability.")
            (if bool_decide (col_id c = ColContainer) then qs "container-attribution-wire" else qs "process-attribution-wire"))
  else mkSettingRow (col_title c) ((if col_visible c then qs "[x]" else qs "[ ]") ++ marker)
         (qarg (qs "Space shows/hides %1; Enter sorts; r reverses.") (col_title c)).

Definition fieldRows (cols : list TuiColumn) (sortField : ColumnId) (sortDesc : bool) : list SettingRow :=
  map (fieldRow sortField sortDesc) cols.

(* ------------------------------------------------------------------ *)
(** ** Lemmas: wrapping *)

Definition nonSpace (s : QString) : QString := filter (fun c => c <> 32%Z) s.

Lemma nonSpace_app a b : nonSpace (a ++ b) = nonSpace a ++ nonSpace b.
Proof. apply filter_app. Qed.

Lemma nonSpace_space s : nonSpace (32%Z :: s) = nonSpace s.
Proof. unfold nonSpace. by rewrite filter_cons_False by auto. Qed.

Lemma nonSpace_split s : nonSpace (concat (qsplit 32%Z s)) = nonSpace s.
Proof.
  rewrite <- (qjoin_split 32 s) at 2. induction (qsplit 32%Z s) as [|w l IH]; [done|].
  destruct l as [|w' l]; [cbn; by rewrite app_nil_r|].
  change (concat (w :: w' :: l)) with (w ++ concat (w' :: l)).
  change (qjoin [32%Z] (w :: w' :: l)) with (w ++ 32%Z :: qjoin [32%Z] (w' :: l)).
  by rewrite !nonSpace_app, nonSpace_space, IH.
Qed.

Lemma hardBreak_spec fuel width w :
  0 < width -> length w <= fuel ->
  let '(pieces, rest) := hardBreak fuel width w in
  Forall (fun p => length p <= width) pieces /\ length rest <= width /\ concat pieces ++ rest = w.
Proof.
  intros Hw. revert w. induction fuel as [|fuel IH]; intros w Hf; cbn [hardBreak].
  - split; [constructor|]. split; [lia|done].
  - destruct (Nat.ltb_spec width (length w)) as [Hl|Hl]; [|split; [constructor|done]].
    specialize (IH (drop width w)). destruct (hardBreak fuel width (drop width w)) as [pieces rest].
    destruct IH as (Hp & Hr & Hc); [rewrite length_drop; lia|]. split; [|split; [done|]].
    + constructor; [rewrite length_take; lia|done].
    + cbn [concat]. by rewrite <- app_assoc, Hc, take_drop.
Qed.

(** Every line is within the width and nothing but spaces is lost. *)
Definition wrapped (width : nat) (done_ : QString) (st : list QString * QString) : Prop :=
  Forall (fun l => length l <= width) (fst st) /\ length (snd st) <= width /\
  nonSpace (concat (fst st) ++ snd st) = nonSpace done_.

Lemma wrapWord_ok width done_ st w :
  0 < width -> wrapped width done_ st -> wrapped width (done_ ++ w) (wrapWord width st w).
Proof.
  intros Hw. destruct st as [out line]. intros (Ho & Hl & Hc). cbn [fst snd] in *. unfold wrapWord.
  pose proof (hardBreak_spec (length w) width w Hw (le_n _)) as Hb.
  destruct (hardBreak (length w) width w) as [pieces word]. destruct Hb as (Hp & Hr & Hcat).
  assert (He : exists out1 line1,
      (if isEmpty pieces then (out, line) else (out ++ (if isEmpty line then [] else [line]) ++ pieces, [])) = (out1, line1) /\
      Forall (fun l => length l <= width) out1 /\ length line1 <= width /\
      nonSpace (concat out1 ++ line1) = nonSpace (concat out ++ line ++ concat pieces)).
  { destruct pieces as [|p ps]; cbn [isEmpty].
    - exists out, line. cbn [concat]. by rewrite app_nil_r.
    - eexists _, _. split; [done|]. split; [|split; [cbn; lia|]].
      + rewrite !Forall_app. split; [done|]. split; [destruct line; cbn; repeat constructor; done|done].
      + rewrite app_nil_r, !concat_app. destruct line as [|c line]; cbn [isEmpty concat]; by rewrite ?app_nil_r. }
  destruct He as (out1 & line1 & -> & Ho1 & Hl1 & Hc1).
  assert (Hgoal : nonSpace (concat out1 ++ line1) ++ nonSpace word = nonSpace (done_ ++ w)).
  { rewrite Hc1, <- Hcat, !nonSpace_app, <- !app_assoc. rewrite !nonSpace_app in Hc. rewrite <- Hc, <- !app_assoc. done. }
  unfold wrapped. destruct line1 as [|c line1]; cbn [isEmpty].
  - cbn [fst snd]. split; [done|]. split; [done|]. rewrite <- Hgoal, !nonSpace_app. cbn. by rewrite app_nil_r.
  - destruct (Nat.leb_spec (length (c :: line1) + 1 + length word) width); cbn [fst snd].
    + split; [done|]. split; [rewrite length_app; cbn [length] in *; lia|].
      rewrite <- Hgoal, !nonSpace_app, nonSpace_space, app_assoc. done.
    + split; [rewrite Forall_app; by repeat constructor|]. split; [done|].
      rewrite <- Hgoal, concat_app. cbn [concat]. by rewrite app_nil_r, !nonSpace_app.
Qed.

Lemma wrapWords_ok width words done_ st :
  0 < width -> wrapped width done_ st -> wrapped width (done_ ++ concat words) (foldl (wrapWord width) st words).
Proof.
  intros Hw. revert done_ st. induction words as [|w words IH]; intros done_ st Hs; cbn [foldl concat]; [by rewrite app_nil_r|].
  rewrite app_assoc. apply IH. by apply wrapWord_ok.
Qed.

(** Wrapping fits every line into the width (at least one unit), always gives
    a line, and keeps every character that is not a space, in order. *)
Theorem wrap_fits text width :
  let lines := wrapToWidth text width in
  lines <> [] /\ Forall (fun l => (Z.of_nat (length l) <= Z.max 1 width)%Z) lines /\
  nonSpace (concat lines) = nonSpace text.
Proof.
  cbn zeta. unfold wrapToWidth. destruct text as [|c text]; cbn [isEmpty].
  { split; [done|]. split; [repeat constructor; cbn; lia|done]. }
  set (n := Z.to_nat (Z.max 1 width)).
  assert (Hw : wrapped n (concat (qsplit 32%Z (c :: text))) (foldl (wrapWord n) ([], []) (qsplit 32%Z (c :: text)))).
  { apply (wrapWords_ok n (qsplit 32%Z (c :: text)) [] ([], [])); [unfold n; lia|]. split; [constructor|]. split; [cbn; lia|done]. }
  destruct (foldl (wrapWord n) _ _) as [out line]. destruct Hw as (Ho & Hl & Hc). cbn [fst snd] in *.
  split; [by destruct out|]. split.
  - assert (Hf : Forall (fun l => length l <= n) (out ++ [line])) by (rewrite Forall_app; by repeat constructor).
    eapply Forall_impl; [exact Hf|]. cbn. intros l Hle. unfold n in Hle. lia.
  - rewrite concat_app. cbn [concat]. rewrite app_nil_r, Hc. apply nonSpace_split.
Qed.

(* ------------------------------------------------------------------ *)
(** ** Lemmas: sort orders *)

Lemma swo_on_atLess {R} (less : R -> R -> bool) (rows : list R) :
  swo_on less (fun r => r ∈ rows) -> swo_on (atLess less rows) (fun i => i ∈ seq 0 (length rows)).
Proof.
  intros Hs.
  assert (Hin : forall i, i ∈ seq 0 (length rows) -> exists r, rows !! i = Some r /\ r ∈ rows).
  { intros i Hi. apply elem_of_seq in Hi. destruct (lookup_lt_is_Some_2 rows i) as [r Hr]; [lia|].
    exists r. split; [done|]. by eapply list_elem_of_lookup_2. }
  unfold atLess. split.
  - intros i Hi. destruct (Hin i Hi) as (r & -> & Hr). by apply (swo_on_irrefl _ _ Hs).
  - intros i j k Hi Hj Hk. destruct (Hin i Hi) as (ri & -> & Hri). destruct (Hin j Hj) as (rj & -> & Hrj).
    destruct (Hin k Hk) as (rk & -> & Hrk). by apply (swo_on_trans _ _ Hs).
  - intros i j k Hi Hj Hk. destruct (Hin i Hi) as (ri & -> & Hri). destruct (Hin j Hj) as (rj & -> & Hrj).
    destruct (Hin k Hk) as (rk & -> & Hrk). by apply (swo_on_cotrans _ _ Hs).
Qed.

Section SortedLemmas.
Context `{StdStableSortLaws}.

Lemma stable_indices {R} (less : R -> R -> bool) (rows : list R) :
  swo_on less (fun r => r ∈ rows) ->
  stable_sort (atLess less rows) (seq 0 (length rows)) ≡ₚ seq 0 (length rows) /\
  StronglySorted (fun a b => atLess less rows b a = false) (stable_sort (atLess less rows) (seq 0 (length rows))).
Proof.
  intros Hs%swo_on_atLess. rewrite stable_sort_isort by done. split; [apply isort_perm|].
  apply (isort_sorted_on _ (fun i => i ∈ seq 0 (length rows))); [done|]. by apply Forall_forall.
Qed.

Lemma sortedIndices_perm {R} (less : R -> R -> bool) (rows : list R) desc :
  swo_on less (fun r => r ∈ rows) -> sortedIndices less rows desc ≡ₚ seq 0 (length rows).
Proof.
  intros Hs. destruct (stable_indices less rows Hs) as [Hp _]. unfold sortedIndices.
  destruct desc; [by rewrite reverse_Permutation|done].
Qed.

Lemma StronglySorted_reverse {A} (R : A -> A -> Prop) (l : list A) :
  StronglySorted R l -> StronglySorted (fun a b => R b a) (reverse l).
Proof.
  induction 1 as [|x l Hs IH Hx]; [constructor|]. rewrite reverse_cons. apply StronglySorted_app_2; [|done|by repeat constructor].
  intros a b Ha Hb. apply list_elem_of_singleton in Hb as ->. rewrite elem_of_reverse in Ha. rewrite Forall_forall in Hx. by apply Hx.
Qed.

Lemma sortedIndices_sorted {R} (less : R -> R -> bool) (rows : list R) (desc : bool) :
  swo_on less (fun r => r ∈ rows) ->
  StronglySorted (fun a b : nat => (if desc then atLess less rows a b else atLess less rows b a) = false)
    (sortedIndices less rows desc).
Proof.
  intros Hs. destruct (stable_indices less rows Hs) as [_ Ho]. unfold sortedIndices.
  destruct desc; [by apply StronglySorted_reverse|done].
Qed.
End SortedLemmas.

(** The rows of a table whose rates are numbers. *)
Definition numberRates (rows : list Row) : Prop :=
  Forall (fun r => disnan (ch_rate (r_rx r)) = false /\ disnan (ch_rate (r_tx r)) = false) rows.
Definition numberIfaceRates (rows : list IfaceRow) : Prop :=
  Forall (fun r => disnan (ir_rxRate r) = false /\ disnan (ir_txRate r) = false) rows.

Lemma connLess_swo `{QtAddrText} field rows : numberRates rows -> swo_on (connLess field) (fun r => r ∈ rows).
Proof.
  intros Hn. unfold numberRates in Hn. rewrite Forall_forall in Hn.
  assert (Hd : swo_on (fun a b => dlt (connNum field a) (connNum field b)) (fun r => r ∈ rows)).
  { apply swo_on_dlt. intros r Hr. destruct (Hn r Hr). destruct field; cbn [connNum]; auto with qif. }
  destruct field; try exact Hd; apply swo_swo_on; [apply (swo_qlt (fun r => addrToString (ep_address (c_remote (r_current r)))))|].
  apply (swo_qlt (fun r => containerSortKey (r_current r))).
Qed.

Lemma ifaceLess_swo field rows : numberIfaceRates rows -> swo_on (ifaceLess field) (fun r => r ∈ rows).
Proof.
  intros Hn. unfold numberIfaceRates in Hn. rewrite Forall_forall in Hn. unfold ifaceLess.
  case_bool_decide; [apply swo_swo_on, (swo_qlt (fun r => if_name (ir_current r)))|].
  apply (swo_on_dlt (ifaceNum field)). intros r Hr. destruct (Hn r Hr). destruct field; cbn [ifaceNum]; auto with qif.
Qed.
