(* ===== verification/TuiScreen.v ===== *)
(** * Terminal frontend, screen: [src/tui/Screen.{h,cpp}]

    Key decoding from the raw input bytes, and painting: [render] is the list
    of calls it makes on the terminal (text at a position in a role's
    attributes, and re-colouring of a span), from the frame and the size of the
    terminal.  Colour pair numbers are the terminal library's; the role and the
    emphasis a call is made with are kept.  What [lround] gives for a value
    that is no number is a parameter. *)

From S2P Require Import Prelude StdAlgo Qt DbusTypes UdpAgg Aggregator IfaceAgg Units TuiFormat.

(* ------------------------------------------------------------------ *)
(** ** Frames *)

Record ModalPanel := mkModal {
  mo_visible : bool; mo_selectable : bool; mo_title : QString; mo_items : list SettingRow; mo_selected : Z; mo_footer : QString;
}.
Definition noModal : ModalPanel := mkModal false true [] [] 0 [].

Record KeyHint := mkHint { kh_key : QString; kh_desc : QString }.

Record Frame := mkFrame {
  f_tabs : list QString; f_activeTab : Z; f_sourceLabel : QString; f_columns : list TuiColumn; f_sortCol : Z; f_sortDesc : bool;
  f_rows : list (list QString); f_rowRoles : list TuiRole; f_rowGauge : list double; f_scrollOffset : Z; f_cursor : Z;
  f_footer : QString; f_footerHints : list KeyHint; f_modal : ModalPanel;
}.

(* ------------------------------------------------------------------ *)
(** ** Keys

    The values of the terminal library; the sources only compare them. *)

Definition ERR : Z := -1.
Definition KEY_DOWN : Z := 258.
Definition KEY_UP : Z := 259.
Definition KEY_LEFT : Z := 260.
Definition KEY_RIGHT : Z := 261.
Definition KEY_HOME : Z := 262.
Definition KEY_BACKSPACE : Z := 263.
Definition KEY_F (n : Z) : Z := 264 + n.
Definition KEY_NPAGE : Z := 338.
Definition KEY_PPAGE : Z := 339.
Definition KEY_ENTER : Z := 343.
Definition KEY_BTAB : Z := 353.
Definition KEY_END : Z := 360.
Definition KEY_RESIZE : Z := 410.

Definition feedInput (data inbuf : list Z) : list Z := inbuf ++ data.

(** A key of four bytes: wait until the fourth is there. *)
Definition longKey (k : Z) (inbuf : list Z) : Z * list Z :=
  if length inbuf <? 4 then (ERR, inbuf) else (k, drop 4 inbuf).

Definition pollKey (inbuf : list Z) : Z * list Z :=
  match inbuf with
  | [] => (ERR, inbuf)
  | c :: rest =>
      if negb (c =? 27)%Z then (c, rest)
      else
        match rest with
        | [] => (27%Z, [])
        | b1 :: rest1 =>
            if negb (b1 =? 91)%Z && negb (b1 =? 79)%Z then (27%Z, rest)
            else
              match rest1 with
              | [] => (ERR, inbuf)
              | b2 :: rest2 =>
                  if (b2 =? 65)%Z then (KEY_UP, rest2)
                  else if (b2 =? 66)%Z then (KEY_DOWN, rest2)
                  else if (b2 =? 67)%Z then (KEY_RIGHT, rest2)
                  else if (b2 =? 68)%Z then (KEY_LEFT, rest2)
                  else if (b2 =? 72)%Z then (KEY_HOME, rest2)
                  else if (b2 =? 70)%Z then (KEY_END, rest2)
                  else if (b2 =? 53)%Z then longKey KEY_PPAGE inbuf
                  else if (b2 =? 54)%Z then longKey KEY_NPAGE inbuf
                  else if (b2 =? 49)%Z then longKey KEY_HOME inbuf
                  else if (b2 =? 52)%Z then longKey KEY_END inbuf
                  else (ERR, rest2)
              end
        end
  end.

(** The loop of the input notifier: keys until [ERR].  A key consumes a byte,
    so the length of the buffer is fuel enough ([drainKeys_fuel]). *)
Fixpoint drainKeys (fuel : nat) (inbuf : list Z) : list Z * list Z :=
  match fuel with
  | O => ([], inbuf)
  | S fuel' =>
      let '(k, inbuf') := pollKey inbuf in
      if (k =? ERR)%Z then ([], inbuf')
      else let '(ks, inbuf) := drainKeys fuel' inbuf' in (k :: ks, inbuf)
  end.

Definition readKeys (data inbuf : list Z) : list Z * list Z :=
  let buf := feedInput data inbuf in drainKeys (S (length buf)) buf.

(* ------------------------------------------------------------------ *)
(** ** Painting *)

Definition kSep : nat := 2.
Definition kNumColCap : Z := 13.
Definition spaces (n : Z) : QString := replicate (Z.to_nat n) 32%Z.
Definition len {A} (l : list A) : Z := Z.of_nat (length l).

Definition fitCell (text : QString) (width : Z) (rightAlign : bool) : QString :=
  if (width <=? 0)%Z then []
  else
    let t := if (width <? len text)%Z then take (Z.to_nat (width - 1)) text ++ [8230%Z] else text in
    let pad := (width - len t)%Z in
    if (pad <=? 0)%Z then t else if rightAlign then spaces pad ++ t else t ++ spaces pad.

(** A call on the terminal: text, or the attributes of [n] cells. *)
Inductive Draw :=
| Put (y x : Z) (text : QString) (role : TuiRole)
| Tint (y x n : Z) (role : TuiRole) (gauge emphasis : bool).

Definition bodyHeight (rows : Z) : Z := let h := (rows - 3)%Z in if (0 <? h)%Z then h else 0%Z.

Section Paint.
Context (lroundOther : Z).

(** [std::lround]: to nearest, halves away from zero. *)
Definition dlround (d : double) : Z :=
  match d with
  | S754_zero _ => 0
  | S754_finite s m e =>
      let a := if (0 <=? e)%Z then Z.shiftl (Zpos m) e else Z.shiftr (Zpos m + Z.shiftl 1 (- e - 1)) (- e) in
      if s then - a else a
  | _ => lroundOther
  end%Z.

(** The number of filled cells, and the call that fills them. *)
Definition paintGauge (y width : Z) (fraction : double) (role : TuiRole) (emphasis : bool) : Z * list Draw :=
  if (width <=? 0)%Z || dle fraction dzero then (0%Z, [])
  else
    let fill := dlround (dmul fraction (dofZ width)) in
    let fill := if (fill <=? 0)%Z then 1%Z else fill in
    let fill := Z.min fill width in
    (fill, [Tint y 0 fill role true emphasis]).

Fixpoint tabPuts (x i active : Z) (tabs : list QString) : list Draw * Z :=
  match tabs with
  | [] => ([], x)
  | t :: tabs' =>
      let label := qarg (qs " %1 ") t in
      let '(ds, x') := tabPuts (x + len label + 1) (i + 1) active tabs' in
      (Put 0 x label (if (i =? active)%Z then RoleTabActive else RoleTitleBar) :: ds, x')
  end.

Definition titleBar (f : Frame) (width : Z) : list Draw :=
  let '(ds, x) := tabPuts 0 0 (f_activeTab f) (f_tabs f) in
  let sx := (width - len (f_sourceLabel f) - 1)%Z in
  Put 0 0 (spaces width) RoleTitleBar :: ds ++ (if (x <? sx)%Z then [Put 0 sx (f_sourceLabel f) RoleTitleBar] else []).

Fixpoint hintPuts (x width : Z) (hints : list KeyHint) : list Draw :=
  match hints with
  | [] => []
  | h :: hs =>
      if (width <=? x + len (kh_key h) + 1)%Z then []
      else
        let x1 := (x + len (kh_key h))%Z in
        let lbl := if isEmpty (kh_desc h) then qs " " else qarg (qs " %1") (kh_desc h) in
        let lbl := if isEmpty hs then lbl else lbl ++ qs " " ++ [183%Z] ++ qs " " in
        let lbl := if (width <? x1 + len lbl)%Z then take (Z.to_nat (width - x1)) lbl else lbl in
        Put 1 x (kh_key h) RoleMenuKey :: Put 1 x1 lbl RoleFooter :: hintPuts (x1 + len lbl) width hs
  end.

Definition menuBar (f : Frame) (width : Z) : list Draw :=
  Put 1 0 (spaces width) RoleFooter ::
  (if isEmpty (f_footerHints f) then [Put 1 0 (fitCell (f_footer f) width false) RoleFooter]
   else hintPuts 1 width (f_footerHints f)).

(** Width of a column other than the first. *)
Definition colWidth (rows : list (list QString)) (i : nat) (c : TuiColumn) : Z :=
  if (0 <? col_fixedWidth c)%Z then col_fixedWidth c
  else
    let natural := foldl (fun w row => match row !! i with Some cell => Z.max w (len cell) | None => w end)
                     (len (col_title c)) rows in
    Z.min natural kNumColCap.

Definition colWidths (f : Frame) (width : Z) : list Z :=
  match f_columns f with
  | [] => []
  | _ :: cs =>
      let ws := imap (fun i c => colWidth (f_rows f) (S i) c) cs in
      let w0 := (width - foldl Z.add 0 ws - Z.of_nat kSep * len cs)%Z in
      Z.max w0 4 :: ws
  end.

Definition rowText (f : Frame) (width : Z) (cells : list QString) : QString :=
  let ws := colWidths f width in
  let line := qjoin (spaces (Z.of_nat kSep))
                (imap (fun i c => fitCell (default [] (cells !! i)) (default 0%Z (ws !! i)) (col_rightAlign c)) (f_columns f)) in
  if (width <? len line)%Z then take (Z.to_nat width) line else line.

Definition headerCells (f : Frame) : list QString :=
  imap (fun i c => if (Z.of_nat i =? f_sortCol f)%Z
                   then col_title c ++ 32%Z :: (if f_sortDesc f then [9660%Z] else [9650%Z]) else col_title c) (f_columns f).

Definition showMore (f : Frame) (body : Z) : bool := (1 <? body)%Z && (f_scrollOffset f + body <? len (f_rows f))%Z.
Definition dataLines (f : Frame) (body : Z) : Z := if showMore f body then (body - 1)%Z else body.
(** The iterations of the body loop. *)
Definition shownRows (f : Frame) (body : Z) : Z := Z.max 0 (Z.min (dataLines f body) (len (f_rows f) - f_scrollOffset f)).

Definition bodyRow (f : Frame) (width : Z) (i : Z) : list Draw :=
  let idx := (f_scrollOffset f + i)%Z in
  let role := default RoleNormal (f_rowRoles f !! Z.to_nat idx) in
  let frac := default dzero (f_rowGauge f !! Z.to_nat idx) in
  let y := (3 + i)%Z in
  Put y 0 (rowText f width (default [] (f_rows f !! Z.to_nat idx))) role ::
  (if (idx =? f_cursor f)%Z then
     let '(fill, ds) := paintGauge y width frac role true in
     ds ++ (if (fill <? width)%Z then [Tint y fill (width - fill) role false true] else [])
   else snd (paintGauge y width frac role false)).

Definition moreText (below : Z) : QString :=
  qarg (qs "  " ++ [8230%Z] ++ qs " +%1 more (" ++ [8595%Z] ++ qs " to scroll)") (number below).

Definition bodyPuts (f : Frame) (width height : Z) : list Draw :=
  let body := bodyHeight height in
  let shown := shownRows f body in
  let below := (len (f_rows f) - (f_scrollOffset f + shown))%Z in
  concat (map (fun i => bodyRow f width (Z.of_nat i)) (seq 0 (Z.to_nat shown)))
  ++ (if showMore f body && (0 <? below)%Z then [Put (3 + shown) 0 (fitCell (moreText below) width false) RoleStale] else []).

(* ------------------------------------------------------------------ *)
(** ** The modal panel *)

Record VLine := mkVLine { vl_label : QString; vl_value : QString; vl_labelStart : bool }.

Definition contentWidth (s : ModalPanel) : Z :=
  let w := foldl (fun w it => Z.max w (len (sr_label it) + 3 + len (sr_value it))) (len (mo_title s)) (mo_items s) in
  let w := foldl (fun w it => Z.max w (len (sr_help it))) w (mo_items s) in
  Z.max w (len (mo_footer s)).

Definition innerWidth (s : ModalPanel) (W : Z) : Z := Z.min (W - 4) (Z.max 40 (contentWidth s)).

Definition labelColumn (s : ModalPanel) (innerW : Z) : Z :=
  let maxLabel := foldl (fun w it => if isEmpty (sr_value it) then w else Z.max w (len (sr_label it))) 0%Z (mo_items s) in
  (2 + Z.min maxLabel (innerW / 2) + 2)%Z.

Definition itemLines (innerW valueColW : Z) (it : SettingRow) : list VLine :=
  if isEmpty (sr_value it) then map (fun l => mkVLine l [] true) (wrapToWidth (sr_label it) (innerW - 2))
  else imap (fun k l => mkVLine (if k =? 0 then sr_label it else []) l (k =? 0)) (wrapToWidth (sr_value it) valueColW).

Definition infoLines (s : ModalPanel) (innerW : Z) : list VLine :=
  let valueColW := Z.max 8 (innerW - labelColumn s innerW) in
  concat (map (itemLines innerW valueColW) (mo_items s)).

(** [put]: one line of the box, its text cut or padded to the inner width. *)
Definition boxText (innerW : Z) (text : QString) : QString :=
  let inner := if (innerW <? len text)%Z then take (Z.to_nat (innerW - 1)) text ++ [8230%Z] else text in
  inner ++ spaces (innerW - len inner).

Definition boxPut (x0 innerW y : Z) (text : QString) (role : TuiRole) : list Draw :=
  [Put y x0 [9474%Z] RoleAccent; Put y (x0 + 1) (boxText innerW text) role; Put y (x0 + 1 + innerW) [9474%Z] RoleAccent].

Definition infoLinePuts (x0 innerW labelColW y : Z) (vl : VLine) : list Draw :=
  if isEmpty (vl_value vl) && vl_labelStart vl then boxPut x0 innerW y (qs "  " ++ vl_label vl) RoleAccent
  else
    let row := qs "  " ++ vl_label vl in
    let row := if (len row <? labelColW)%Z then row ++ spaces (labelColW - len row)
               else if isEmpty (vl_value vl) then row else row ++ qs " " in
    boxPut x0 innerW y (row ++ vl_value vl) RoleNormal
    ++ (if vl_labelStart vl && negb (isEmpty (vl_label vl)) then [Put y (x0 + 1) (qs "  " ++ vl_label vl) RoleAccent] else []).

Definition itemPuts (x0 innerW selected y : Z) (i : nat) (it : SettingRow) : list Draw :=
  let sel := (Z.of_nat i =? selected)%Z in
  let value := qarg (qs "[%1]") (sr_value it) in
  let row := (if sel then 9656%Z :: qs " " else qs "  ") ++ sr_label it in
  let gap := (innerW - len row - len value)%Z in
  boxPut x0 innerW y ((if (0 <? gap)%Z then row ++ spaces gap else row) ++ value) (if sel then RoleTabActive else RoleNormal).

Definition topBorder (boxW : Z) (title : QString) : QString :=
  let title := qarg (qs " %1 ") title in
  let dashes := (boxW - 2 - len title)%Z in
  let '(title, dashes) := if (dashes <? 0)%Z then (take (Z.to_nat (boxW - 2)) title, 0%Z) else (title, dashes) in
  let half := (dashes / 2)%Z in
  9484%Z :: replicate (Z.to_nat half) 9472%Z ++ title ++ replicate (Z.to_nat (dashes - half)) 9472%Z ++ [9488%Z].

Definition contentLines (s : ModalPanel) (innerW : Z) : Z :=
  if mo_selectable s then len (mo_items s) else len (infoLines s innerW).
Definition boxHeight (s : ModalPanel) (innerW : Z) : Z :=
  (1 + contentLines s innerW + 1 + (if mo_selectable s then 1 else 0) + 1 + 2)%Z.

Definition renderModal (s : ModalPanel) (W H : Z) : list Draw :=
  if (W <? 20)%Z || (H <? 8)%Z then []
  else
    let innerW := innerWidth s W in
    let boxW := (innerW + 2)%Z in
    let x0 := ((W - boxW) / 2)%Z in
    let y0 := Z.max 0 ((H - boxHeight s innerW) / 2) in
    let n := contentLines s innerW in
    let yAfter := (y0 + 2 + n)%Z in
    [Put y0 x0 (topBorder boxW (mo_title s)) RoleAccent]
    ++ boxPut x0 innerW (y0 + 1) [] RoleNormal
    ++ (if mo_selectable s
        then concat (imap (fun i it => itemPuts x0 innerW (mo_selected s) (y0 + 2 + Z.of_nat i) i it) (mo_items s))
        else concat (imap (fun i vl => infoLinePuts x0 innerW (labelColumn s innerW) (y0 + 2 + Z.of_nat i) vl) (infoLines s innerW)))
    ++ boxPut x0 innerW yAfter [] RoleNormal
    ++ (if mo_selectable s
        then boxPut x0 innerW (yAfter + 1)
               (if (0 <=? mo_selected s)%Z then default [] (sr_help <$> mo_items s !! Z.to_nat (mo_selected s)) else []) RoleFooter
        else [])
    ++ (let yf := (if mo_selectable s then yAfter + 2 else yAfter + 1)%Z in
        boxPut x0 innerW yf (mo_footer s) RoleFooter
        ++ [Put (yf + 1) x0 (replicate (Z.to_nat boxW) 9472%Z) RoleAccent;
            Put (yf + 1) x0 [9492%Z] RoleAccent; Put (yf + 1) (x0 + boxW - 1) [9496%Z] RoleAccent]).

Definition render (f : Frame) (width height : Z) : list Draw :=
  if (width <? 1)%Z || (height <? 3)%Z then []
  else titleBar f width ++ menuBar f width ++ [Put 2 0 (rowText f width (headerCells f)) RoleHeader]
       ++ bodyPuts f width height ++ (if mo_visible (f_modal f) then renderModal (f_modal f) width height else []).
End Paint.

(* ------------------------------------------------------------------ *)
(** ** Lemmas: keys *)

Lemma pollKey_consumes inbuf :
  (forall b, b ∈ inbuf -> 0 <= b)%Z ->
  fst (pollKey inbuf) <> ERR -> length (snd (pollKey inbuf)) < length inbuf.
Proof.
  intros Hb. unfold pollKey, longKey.
  destruct inbuf as [|c [|b1 [|b2 rest]]]; cbn [fst snd]; [done|split_ifs; cbn; lia|split_ifs; cbn; try done; lia|].
  split_ifs; cbn [fst snd length] in *; try done; rewrite ?length_drop; cbn [length]; lia.
Qed.

Definition isBytes (l : list Z) : Prop := Forall (fun b => 0 <= b < 256)%Z l.

Lemma pollKey_suffix inbuf : exists used, inbuf = used ++ snd (pollKey inbuf).
Proof.
  unfold pollKey, longKey.
  destruct inbuf as [|c [|b1 [|b2 rest]]]; cbn [fst snd]; [by exists []|split_ifs; by exists [c]| |];
    split_ifs; cbn [fst snd];
    first [by exists [] | by exists [c] | by exists [c; b1; b2]
          | exists (take 4 (c :: b1 :: b2 :: rest)); by rewrite take_drop].
Qed.

Lemma pollKey_bytes inbuf : isBytes inbuf -> isBytes (snd (pollKey inbuf)).
Proof.
  intros Hb. destruct (pollKey_suffix inbuf) as [used Hu]. unfold isBytes in *. rewrite Hu in Hb. by apply Forall_app in Hb as [_ ?].
Qed.

(** More fuel than the buffer is long changes nothing: the loop stops on its
    own. *)
Lemma drainKeys_fuel n inbuf : isBytes inbuf -> length inbuf < n -> drainKeys n inbuf = drainKeys (S (length inbuf)) inbuf.
Proof.
  revert inbuf. induction n as [n IH] using lt_wf_ind. intros inbuf Hb Hn. destruct n as [|n]; [lia|]. cbn [drainKeys].
  pose proof (pollKey_consumes inbuf) as Hc. pose proof (pollKey_bytes inbuf Hb) as Hb'.
  destruct (pollKey inbuf) as [k inbuf']. cbn [fst snd] in *.
  destruct (Z.eqb_spec k ERR) as [->|Hk]; [done|].
  assert (Hl : length inbuf' < length inbuf).
  { apply Hc; [|done]. intros b Hin. unfold isBytes in Hb. rewrite Forall_forall in Hb. by apply Hb. }
  rewrite (IH n) by (auto; lia). destruct (decide (length inbuf = n)) as [->|Hne]; [by rewrite <- (IH n) by (auto; lia)|].
  by rewrite (IH (length inbuf)) by (auto; lia).
Qed.

(** What a terminal sends for the keys the decoder knows. *)
Inductive KeyInput := PlainByte (b : Z) | Sequence (bytes : list Z) (k : Z).

Definition knownSequences : list (list Z * Z) :=
  concat (map (fun b1 => [([27; b1; 65], KEY_UP); ([27; b1; 66], KEY_DOWN); ([27; b1; 67], KEY_RIGHT); ([27; b1; 68], KEY_LEFT);
    ([27; b1; 72], KEY_HOME); ([27; b1; 70], KEY_END); ([27; b1; 53; 126], KEY_PPAGE); ([27; b1; 54; 126], KEY_NPAGE);
    ([27; b1; 49; 126], KEY_HOME); ([27; b1; 52; 126], KEY_END)]%Z) [91; 79]%Z).

Definition inputOk (i : KeyInput) : Prop :=
  match i with
  | PlainByte b => (0 <= b < 256)%Z /\ b <> 27%Z
  | Sequence bytes k => (bytes, k) ∈ knownSequences
  end.
Definition inputBytes (i : KeyInput) : list Z := match i with PlainByte b => [b] | Sequence bytes _ => bytes end.
Definition inputKey (i : KeyInput) : Z := match i with PlainByte b => b | Sequence _ k => k end.

Lemma pollKey_input i rest : inputOk i -> pollKey (inputBytes i ++ rest) = (inputKey i, rest).
Proof.
  destruct i as [b|bytes k]; cbn [inputOk inputBytes inputKey].
  - intros [_ Hb]. cbn. by destruct (Z.eqb_spec b 27).
  - intros Hin. repeat (apply elem_of_cons in Hin as [[= -> ->]|Hin]; [done|]). by apply elem_of_nil in Hin.
Qed.

Lemma inputOk_bytes i : inputOk i -> isBytes (inputBytes i) /\ inputKey i <> ERR /\ inputBytes i <> [].
Proof.
  destruct i as [b|bytes k]; cbn [inputOk inputBytes inputKey].
  - intros [Hb Hn]. split; [constructor; [done|constructor]|]. split; [unfold ERR; lia|done].
  - intros Hin. repeat (apply elem_of_cons in Hin as [[= -> ->]|Hin]; [split; [repeat constructor; lia|split; done]|]).
    by apply elem_of_nil in Hin.
Qed.

Lemma drain_inputs n is_ :
  Forall inputOk is_ -> length (concat (map inputBytes is_)) < n ->
  drainKeys n (concat (map inputBytes is_)) = (map inputKey is_, []).
Proof.
  intros Hok. revert n. induction Hok as [|i is_ Hi Hok IH]; intros n Hn; destruct n as [|n]; try lia; [done|].
  destruct (inputOk_bytes i Hi) as (_ & Hk & He). cbn [map concat drainKeys]. rewrite pollKey_input by done.
  destruct (Z.eqb_spec (inputKey i) ERR); [done|]. rewrite IH; [done|].
  cbn [map concat] in Hn. rewrite length_app in Hn. destruct (inputBytes i); [done|]. cbn in Hn. lia.
Qed.

(** Keys typed in one burst arrive as typed: every plain byte and every
    cursor-key sequence the decoder knows comes out as its key, in order, and
    nothing stays in the buffer. *)
Theorem keys_decoded is_ :
  Forall inputOk is_ -> readKeys (concat (map inputBytes is_)) [] = (map inputKey is_, []).
Proof. intros Hok. unfold readKeys, feedInput. cbn [app]. apply drain_inputs; [done|lia]. Qed.

Lemma keys_decoded_witness : readKeys [113; 27; 91; 65; 27; 79; 54; 126]%Z [] = ([113; KEY_UP; KEY_NPAGE]%Z, []).
Proof.
  apply (keys_decoded [PlainByte 113; Sequence [27; 91; 65]%Z KEY_UP; Sequence [27; 79; 54; 126]%Z KEY_NPAGE]).
  repeat constructor; cbn; try lia; apply (bool_decide_unpack _); vm_compute; exact I.
Defined.

Definition decodable (k : Z) : Prop :=
  (k = ERR \/ 0 <= k < 256 \/ k ∈ [KEY_UP; KEY_DOWN; KEY_RIGHT; KEY_LEFT; KEY_HOME; KEY_END; KEY_PPAGE; KEY_NPAGE])%Z.

Lemma pollKey_decodable inbuf : isBytes inbuf -> decodable (fst (pollKey inbuf)).
Proof.
  intros Hb. unfold decodable, pollKey, longKey.
  destruct inbuf as [|c rest]; [by left|]. unfold isBytes in Hb. apply Forall_cons in Hb as [Hc _].
  destruct (negb (c =? 27)%Z); [by right; left|].
  destruct rest as [|b1 [|b2 rest]]; [right; left; cbn; lia|split_ifs; [right; left; cbn; lia|by left]|].
  split_ifs; cbn [fst]; try (right; left; lia); try (by left); right; right; set_solver.
Qed.

(** No input reaches the handlers written for the function keys, Shift-Tab,
    the keypad's Enter, the terminal library's Backspace, or a resize: the
    sequences of F1, F2 and Shift-Tab are dropped. *)
Theorem function_keys_undecodable inbuf :
  isBytes inbuf ->
  fst (pollKey inbuf) ∉ [KEY_F 1; KEY_F 2; KEY_BTAB; KEY_ENTER; KEY_BACKSPACE; KEY_RESIZE] /\
  readKeys [27; 79; 80]%Z [] = ([], []) /\ readKeys [27; 79; 81]%Z [] = ([], []) /\ readKeys [27; 91; 90]%Z [] = ([], []).
Proof.
  intros Hb. split; [|done]. destruct (pollKey_decodable inbuf Hb) as [->|[Hr|Hin]].
  - apply (bool_decide_unpack _). done.
  - intros Hin. repeat (apply elem_of_cons in Hin as [Hin|Hin]; [rewrite Hin in Hr; unfold KEY_F, KEY_BTAB, KEY_ENTER, KEY_BACKSPACE, KEY_RESIZE in Hr; lia|]).
    by apply elem_of_nil in Hin.
  - intros Hin'. repeat (apply elem_of_cons in Hin as [Hin|Hin];
      [rewrite Hin in Hin'; revert Hin'; apply (bool_decide_unpack _); done|]). by apply elem_of_nil in Hin.
Qed.

Lemma function_keys_undecodable_witness : fst (pollKey [27; 79; 80; 113]%Z) ∉ [KEY_F 1; KEY_F 2; KEY_BTAB; KEY_ENTER; KEY_BACKSPACE; KEY_RESIZE].
Proof. apply (function_keys_undecodable [27; 79; 80; 113]%Z). repeat constructor; lia. Defined.

(* ------------------------------------------------------------------ *)
(** ** Lemmas: painting stays on the screen *)

Lemma len_app {A} (a b : list A) : len (a ++ b) = (len a + len b)%Z.
Proof. unfold len. rewrite length_app. lia. Qed.
Lemma len_nonneg {A} (l : list A) : (0 <= len l)%Z.
Proof. unfold len. lia. Qed.
Lemma len_spaces n : len (spaces n) = Z.max 0 n.
Proof. unfold len, spaces. rewrite length_replicate. lia. Qed.
Lemma len_take {A} n (l : list A) : len (take (Z.to_nat n) l) = Z.max 0 (Z.min n (len l)).
Proof. unfold len. rewrite length_take. lia. Qed.
Lemma len_cons {A} x (l : list A) : len (x :: l) = (1 + len l)%Z.
Proof. unfold len. cbn. lia. Qed.
Lemma len_nil {A} : len ([] : list A) = 0%Z.
Proof. done. Qed.

Create HintDb len.
#[export] Hint Rewrite @len_app @len_cons @len_spaces @len_take @len_nil : len.

(** Rewriting lengths, then arithmetic. *)
Ltac lenlia := autorewrite with len in *; lia.

Lemma fitCell_len text width right : len (fitCell text width right) = Z.max 0 width.
Proof.
  unfold fitCell. destruct (Z.leb_spec width 0); [rewrite len_nil; lia|].
  destruct (Z.ltb_spec width (len text)).
  - destruct (Z.leb_spec (width - len (take (Z.to_nat (width - 1)) text ++ [8230%Z])) 0); [lenlia|destruct right; lenlia].
  - destruct (Z.leb_spec (width - len text) 0); [lia|destruct right; lenlia].
Qed.

Lemma rowText_len f width cells : (0 <= width)%Z -> (len (rowText f width cells) <= width)%Z.
Proof. intros Hw. unfold rowText. destruct (Z.ltb_spec width (len (qjoin (spaces (Z.of_nat kSep)) (imap (fun i c => fitCell (default [] (cells !! i)) (default 0%Z (colWidths f width !! i)) (col_rightAlign c)) (f_columns f))))); [lenlia|lia]. Qed.

(** A call that stays on a screen of the given size. *)
Definition inside (width height : Z) (d : Draw) : Prop :=
  match d with
  | Put y x text _ => (0 <= y < height /\ 0 <= x /\ x + len text <= width)%Z
  | Tint y x n _ _ _ => (0 <= y < height /\ 0 <= x /\ 0 <= n /\ x + n <= width)%Z
  end.

Lemma tabPuts_inside width height x i a tabs :
  (0 <= x)%Z -> (0 < height)%Z -> (snd (tabPuts x i a tabs) <= width + 1)%Z ->
  (x <= snd (tabPuts x i a tabs))%Z /\ Forall (inside width height) (fst (tabPuts x i a tabs)).
Proof.
  intros Hx Hh. revert x i Hx. induction tabs as [|t tabs IH]; intros x i Hx; cbn [tabPuts]; [cbn; by split; [lia|]|].
  pose proof (len_nonneg (qarg (qs " %1 ") t)) as Hl.
  specialize (IH (x + len (qarg (qs " %1 ") t) + 1)%Z (i + 1)%Z ltac:(lia)).
  destruct (tabPuts _ (i + 1) a tabs) as [ds x']. cbn [fst snd] in *. intros Hw. destruct (IH Hw) as [Hle Hds].
  split; [lia|]. constructor; [|done]. cbn [inside]. lia.
Qed.

Lemma titleBar_inside f width height :
  (0 <= width)%Z -> (0 < height)%Z -> (snd (tabPuts 0 0 (f_activeTab f) (f_tabs f)) <= width + 1)%Z ->
  Forall (inside width height) (titleBar f width).
Proof.
  intros Hw Hh Ht. unfold titleBar. pose proof (tabPuts_inside width height 0 0 (f_activeTab f) (f_tabs f) ltac:(lia) Hh Ht) as [Hx Hds].
  destruct (tabPuts 0 0 _ _) as [ds x]. cbn [fst snd] in *. constructor; [cbn [inside]; lenlia|]. apply Forall_app. split; [done|].
  destruct (Z.ltb_spec x (width - len (f_sourceLabel f) - 1)); repeat constructor; pose proof (len_nonneg (f_sourceLabel f)); lia.
Qed.

Lemma hintPuts_inside width height x hints :
  (0 <= x)%Z -> (1 < height)%Z -> Forall (inside width height) (hintPuts x width hints).
Proof.
  intros Hx Hh. revert x Hx. induction hints as [|h hs IH]; intros x Hx; cbn [hintPuts]; [done|].
  pose proof (len_nonneg (kh_key h)) as Hk. destruct (Z.leb_spec width (x + len (kh_key h) + 1)); [done|].
  set (lbl := if isEmpty hs then _ else _). pose proof (len_nonneg lbl) as Hl.
  destruct (Z.ltb_spec width (x + len (kh_key h) + len lbl)).
  - constructor; [cbn [inside]; lia|]. constructor; [cbn [inside]; lenlia|]. apply IH. lenlia.
  - constructor; [cbn [inside]; lia|]. constructor; [cbn [inside]; lia|]. apply IH. lia.
Qed.

Lemma menuBar_inside f width height : (0 <= width)%Z -> (1 < height)%Z -> Forall (inside width height) (menuBar f width).
Proof.
  intros Hw Hh. unfold menuBar. constructor; [cbn [inside]; lenlia|].
  destruct (isEmpty (f_footerHints f)); [|apply hintPuts_inside; lia].
  repeat constructor; try lia. rewrite fitCell_len. lia.
Qed.

Lemma paintGauge_inside o y width height fraction role emph :
  (0 <= y < height)%Z ->
  (0 <= fst (paintGauge o y width fraction role emph))%Z /\
  Forall (inside width height) (snd (paintGauge o y width fraction role emph)).
Proof.
  intros Hy. unfold paintGauge. destruct (Z.leb_spec width 0); [cbn; by split|].
  destruct (dle fraction dzero); [cbn; by split|]. cbn [orb fst snd].
  destruct (Z.leb_spec (dlround o (dmul fraction (dofZ width))) 0); (split; [lia|]); constructor; [|done| |done]; cbn [inside]; lia.
Qed.

Lemma bodyRow_inside o f width height i :
  (0 <= width)%Z -> (0 <= 3 + i < height)%Z -> Forall (inside width height) (bodyRow o f width i).
Proof.
  intros Hw Hi. unfold bodyRow. set (role := default RoleNormal _). set (frac := default dzero _).
  constructor; [cbn [inside]; set (cells := default [] _); pose proof (rowText_len f width cells Hw); lia|].
  destruct (f_scrollOffset f + i =? f_cursor f)%Z; [|by apply paintGauge_inside].
  pose proof (paintGauge_inside o (3 + i) width height frac role true Hi) as [Hf Hd].
  destruct (paintGauge o (3 + i) width frac role true) as [fill ds]. cbn [fst snd] in *.
  apply Forall_app. split; [done|]. destruct (Z.ltb_spec fill width); repeat constructor; lia.
Qed.

Lemma bodyPuts_inside o f width height :
  (0 <= width)%Z -> (3 <= height)%Z -> Forall (inside width height) (bodyPuts o f width height).
Proof.
  intros Hw Hh. unfold bodyPuts. set (body := bodyHeight height).
  assert (Hb : body = (height - 3)%Z) by (unfold body, bodyHeight; destruct (Z.ltb_spec 0 (height - 3)); lia).
  assert (Hs : (0 <= shownRows f body <= dataLines f body)%Z).
  { unfold shownRows. assert (0 <= dataLines f body)%Z by (unfold dataLines, showMore; destruct (Z.ltb_spec 1 body); cbn [andb]; [destruct (_ <? _)%Z|]; lia). lia. }
  apply Forall_app. split.
  - apply Forall_concat, Forall_map, Forall_forall. intros i Hi. apply elem_of_seq in Hi. apply bodyRow_inside; [done|].
    unfold dataLines in Hs. destruct (showMore f body); lia.
  - destruct (showMore f body) eqn:Em; cbn [andb]; [|done]. destruct (0 <? _)%Z; [|done].
    unfold dataLines in Hs. rewrite Em in Hs. repeat constructor; try lia. rewrite fitCell_len. lia.
Qed.

Lemma boxText_len innerW text : (1 <= innerW)%Z -> len (boxText innerW text) = innerW.
Proof.
  intros Hi. unfold boxText. destruct (Z.ltb_spec innerW (len text)); lenlia.
Qed.

Lemma boxPut_inside W H x0 innerW y text role :
  (1 <= innerW)%Z -> (0 <= x0)%Z -> (x0 + innerW + 2 <= W)%Z -> (0 <= y < H)%Z -> Forall (inside W H) (boxPut x0 innerW y text role).
Proof.
  intros Hi Hx Hw Hy. unfold boxPut.
  repeat (apply Forall_cons; split); [..|done]; cbn [inside]; rewrite ?boxText_len by done; lenlia.
Qed.

Lemma topBorder_len boxW title : (2 <= boxW)%Z -> len (topBorder boxW title) = boxW.
Proof.
  intros Hb. unfold topBorder. set (t := qarg (qs " %1 ") title).
  assert (Hd : forall d, (0 <= d)%Z -> (0 <= d / 2 <= d)%Z) by (intros d Hd; split; [apply Z.div_pos|apply Z.div_le_upper_bound]; lia).
  assert (Hr : forall n (c : Z), len (replicate (Z.to_nat n) c) = Z.max 0 n) by (intros; unfold len; rewrite length_replicate; lia).
  destruct (Z.ltb_spec (boxW - 2 - len t) 0).
  - cbv beta match zeta. autorewrite with len. pose proof (len_nonneg t). lia.
  - specialize (Hd (boxW - 2 - len t)%Z ltac:(lia)). cbv beta match zeta. autorewrite with len. rewrite !Hr. lia.
Qed.

(** The labels of value-bearing items leave room for their indent. *)
Definition labelsFit (s : ModalPanel) (innerW : Z) : Prop :=
  Forall (fun it => sr_value it = [] \/ (2 + len (sr_label it) <= innerW)%Z) (mo_items s).

Lemma infoLines_labels s innerW :
  labelsFit s innerW -> (4 <= innerW)%Z -> Forall (fun vl => (2 + len (vl_label vl) <= innerW)%Z) (infoLines s innerW).
Proof.
  intros Hf Hi. unfold infoLines. set (v := Z.max 8 _). apply Forall_concat, Forall_map. eapply Forall_impl; [exact Hf|].
  intros it Hit. cbn. unfold itemLines. destruct (isEmpty (sr_value it)) eqn:Ee.
  - apply Forall_map. destruct (wrap_fits (sr_label it) (innerW - 2)) as (_ & Hl & _). eapply Forall_impl; [exact Hl|].
    cbn. unfold len. intros l Hle. lia.
  - destruct Hit as [Hv|Hv]; [rewrite Hv in Ee; done|]. apply Forall_lookup. intros k vl Hk. rewrite list_lookup_imap in Hk.
    destruct (wrapToWidth _ _ !! k); [|done]. cbn in Hk. injection Hk as <-. cbn. destruct (k =? 0); [done|]. cbn. unfold len. cbn. lia.
Qed.

Lemma infoLinePuts_inside W H x0 innerW labelColW y vl :
  (1 <= innerW)%Z -> (0 <= x0)%Z -> (x0 + innerW + 2 <= W)%Z -> (0 <= y < H)%Z -> (2 + len (vl_label vl) <= innerW)%Z ->
  Forall (inside W H) (infoLinePuts x0 innerW labelColW y vl).
Proof.
  intros Hi Hx Hw Hy Hl. unfold infoLinePuts. destruct (isEmpty (vl_value vl) && vl_labelStart vl); [by apply boxPut_inside|].
  apply Forall_app. split; [by apply boxPut_inside|]. destruct (vl_labelStart vl && _); [|done].
  repeat constructor; try lia. rewrite len_app. change (len (qs "  ")) with 2%Z. lia.
Qed.

Lemma innerWidth_range s W : (20 <= W)%Z -> (16 <= innerWidth s W <= W - 4)%Z.
Proof. unfold innerWidth. lia. Qed.

Lemma Forall_concat_imap {A B} (P : B -> Prop) (f : nat -> A -> list B) (l : list A) :
  (forall i x, l !! i = Some x -> Forall P (f i x)) -> Forall P (concat (imap f l)).
Proof.
  intros Hf. apply Forall_concat, Forall_lookup. intros i y Hy. rewrite list_lookup_imap in Hy.
  destruct (l !! i) as [x|] eqn:Ex; [|done]. cbn in Hy. injection Hy as <-. by apply Hf.
Qed.

Lemma renderModal_inside s W H :
  labelsFit s (innerWidth s W) -> Forall (inside W (Z.max H (boxHeight s (innerWidth s W)))) (renderModal s W H).
Proof.
  intros Hf. unfold renderModal. destruct (Z.ltb_spec W 20) as [|HW]; [done|]. destruct (Z.ltb_spec H 8) as [|HH]; [done|]. cbn [orb].
  pose proof (innerWidth_range s W HW) as Hi. set (iw := innerWidth s W) in *. set (bh := boxHeight s iw).
  assert (Hx : (0 <= (W - (iw + 2)) / 2 /\ (W - (iw + 2)) / 2 + iw + 2 <= W)%Z) by (split; [apply Z.div_pos; lia|];
    pose proof (Z.div_le_upper_bound (W - (iw + 2)) 2 (W - (iw + 2)) ltac:(lia) ltac:(lia)); lia).
  set (x0 := ((W - (iw + 2)) / 2)%Z) in *.
  assert (Hy : (0 <= Z.max 0 ((H - bh) / 2) /\ Z.max 0 ((H - bh) / 2) + bh <= Z.max H bh)%Z).
  { split; [lia|]. destruct (Z.le_gt_cases 0 (H - bh)) as [Hle|Hgt].
    - pose proof (Z.div_le_upper_bound (H - bh) 2 (H - bh) ltac:(lia) ltac:(lia)). lia.
    - pose proof (Z.div_lt_upper_bound (H - bh) 2 0 ltac:(lia) ltac:(lia)). lia. }
  set (y0 := Z.max 0 ((H - bh) / 2)) in *. set (HB := Z.max H bh) in *. destruct Hx as [Hx0 Hx1]. destruct Hy as [Hy0 Hy1].
  assert (Hc : (0 <= contentLines s iw)%Z) by (unfold contentLines; destruct (mo_selectable s); apply len_nonneg).
  assert (Hbh : bh = (5 + contentLines s iw + (if mo_selectable s then 1 else 0))%Z) by (unfold bh, boxHeight; lia).
  assert (Hbh5 : (5 + contentLines s iw <= bh)%Z) by (rewrite Hbh; destruct (mo_selectable s); lia).
  assert (Hput : forall y t r, (y0 <= y < y0 + bh)%Z -> Forall (inside W HB) (boxPut x0 iw y t r))
    by (intros; apply boxPut_inside; lia).
  assert (Hr : forall c : Z, len (replicate (Z.to_nat (iw + 2)) c) = (iw + 2)%Z) by (intros; unfold len; rewrite length_replicate; lia).
  apply Forall_app; split; [apply Forall_cons; split; [cbn [inside]; rewrite topBorder_len by lia; lia|done]|].
  apply Forall_app; split; [apply Hput; lia|].
  apply Forall_app; split.
  { unfold contentLines in Hc, Hbh. destruct (mo_selectable s).
    - apply Forall_concat_imap. intros i it Hit. apply lookup_lt_Some in Hit. unfold itemPuts. apply Hput. unfold len in Hbh. lia.
    - apply Forall_concat_imap. intros i vl Hvl.
      pose proof (infoLines_labels s iw Hf ltac:(lia)) as Hl. rewrite Forall_lookup in Hl. specialize (Hl i vl Hvl).
      apply lookup_lt_Some in Hvl. apply infoLinePuts_inside; unfold len in Hbh; lia. }
  apply Forall_app; split; [apply Hput; lia|].
  apply Forall_app; split; [destruct (mo_selectable s); [apply Hput; lia|done]|].
  apply Forall_app; split; [apply Hput; destruct (mo_selectable s); lia|].
  repeat (apply Forall_cons; split); [..|done]; cbn [inside]; rewrite ?Hr; autorewrite with len; destruct (mo_selectable s); lia.
Qed.

(** Everything [render] writes stays on the screen, provided the tabs fit its
    first line: no text runs over the right edge, whatever the rows, hints and
    footer hold.  A modal panel whose value-bearing labels fit the box stays
    within the width too, and within the height if the box is no taller than
    the screen. *)
Theorem render_in_bounds o f width height :
  (snd (tabPuts 0 0 (f_activeTab f) (f_tabs f)) <= width + 1)%Z ->
  labelsFit (f_modal f) (innerWidth (f_modal f) width) ->
  (mo_visible (f_modal f) = true -> boxHeight (f_modal f) (innerWidth (f_modal f) width) <= height)%Z ->
  Forall (inside width height) (render o f width height).
Proof.
  intros Ht Hl Hb. unfold render. destruct (Z.ltb_spec width 1); [done|]. destruct (Z.ltb_spec height 3); [done|]. cbn [orb].
  apply Forall_app; split; [apply titleBar_inside; lia|]. apply Forall_app; split; [apply menuBar_inside; lia|].
  apply Forall_app; split; [constructor; [|done]; cbn [inside]; pose proof (rowText_len f width (headerCells f)); lia|].
  apply Forall_app; split; [apply bodyPuts_inside; lia|]. destruct (mo_visible (f_modal f)); [|done].
  pose proof (renderModal_inside (f_modal f) width height Hl) as Hm. by rewrite Z.max_l in Hm by auto.
Qed.
