(* ===== verification/TuiState.v ===== *)
(** * Terminal frontend, state of the controller: [src/tui/TuiApp.h]

    The members of [TuiApp] in five records: the persisted preferences,
    navigation, the detail overlay, the input lines, and the rest.  The
    pointers to the screen and to the two aggregators are never null in the
    program; what is read through them is an argument of the operations. *)

From S2P Require Import Prelude Qt Conn DbusTypes Filter UdpAgg Aggregator IfaceAgg Export TuiFormat TuiScreen.

(** What [saveSettings] persists. *)
Record Prefs := mkPrefs {
  pf_view : View;
  pf_ifaceSortField : ColumnId;
  pf_ifaceSortDesc : bool;
  pf_connSortField : ColumnId;
  pf_connSortDesc : bool;
  pf_gauge : bool;
  pf_dns : bool;
  pf_udpAggregate : bool;
  pf_smoothing : bool;
  pf_directionColors : bool;
  pf_sortWithinGroups : bool;
  pf_showProcess : bool;
  pf_showContainer : bool;
  pf_pollMs : Z;
  pf_eagerness : QString;
  pf_groupBy : GroupBy;
  pf_themeIdx : Z;
}.

(** Per displayed row: may the cursor rest on it, is it a group header, the
    identity of its flow and the key of its group. *)
Record RowRef := mkRef { rr_selectable : bool; rr_header : bool; rr_key : QString; rr_groupKey : QString }.

(** Cursors, viewports, folded groups; [m_cursorTargetGroup] with its validity
    flag is one option. *)
Record Nav := mkNav {
  nv_ifaceScroll : Z;
  nv_connScroll : Z;
  nv_ifaceCursor : Z;
  nv_connCursor : Z;
  nv_rowRefs : list RowRef;
  nv_collapsed : gset QString;
  nv_target : option QString;
}.

(** The target of the detail overlay, and the details fetched so far. *)
Record Detail := mkDetail {
  dt_key : QString;
  dt_view : View;
  dt_groupKey : QString;
  dt_groupBy : GroupBy;
  dt_procDetails : gmap Z ProcessDetailsDto;
  dt_requested : gset Z;
}.

(** The two input lines and the committed filter. *)
Record Edit := mkEdit {
  ed_filterEditing : bool;
  ed_filterDraft : QString;
  ed_exportPrompt : bool;
  ed_exportDraft : QString;
  ed_filterText : QString;
  ed_filterExpr : option Expr;
  ed_filterError : QString;
}.

Inductive Overlay := OvNone | OvSettings | OvFields | OvHelp | OvAbout | OvDetail.
#[global] Instance Overlay_eq_dec : EqDecision Overlay. Proof. solve_decision. Defined.

(** The last three say whether the callbacks are installed. *)
Record TuiApp := mkTuiApp {
  ta_prefs : Prefs;
  ta_nav : Nav;
  ta_detail : Detail;
  ta_edit : Edit;
  ta_overlay : Overlay;
  ta_settingsSel : Z;
  ta_fieldsSel : Z;
  ta_backendCaps : list QString;
  ta_procWire : bool;
  ta_contWire : bool;
  ta_paused : bool;
  ta_frozenIface : list IfaceRow;
  ta_frozenConn : list Row;
  ta_flashMsg : QString;
  ta_redrawPending : bool;
  ta_sourceLabel : QString;
  ta_applyPoll : bool;
  ta_askDetails : bool;
  ta_askEagerness : bool;
}.

Definition set_pf_view (v : View) (s : Prefs) : Prefs :=
  mkPrefs v (pf_ifaceSortField s) (pf_ifaceSortDesc s) (pf_connSortField s) (pf_connSortDesc s) (pf_gauge s) (pf_dns s) (pf_udpAggregate s) (pf_smoothing s) (pf_directionColors s) (pf_sortWithinGroups s) (pf_showProcess s) (pf_showContainer s) (pf_pollMs s) (pf_eagerness s) (pf_groupBy s) (pf_themeIdx s).
Definition set_pf_ifaceSortField (v : ColumnId) (s : Prefs) : Prefs :=
  mkPrefs (pf_view s) v (pf_ifaceSortDesc s) (pf_connSortField s) (pf_connSortDesc s) (pf_gauge s) (pf_dns s) (pf_udpAggregate s) (pf_smoothing s) (pf_directionColors s) (pf_sortWithinGroups s) (pf_showProcess s) (pf_showContainer s) (pf_pollMs s) (pf_eagerness s) (pf_groupBy s) (pf_themeIdx s).
Definition set_pf_ifaceSortDesc (v : bool) (s : Prefs) : Prefs :=
  mkPrefs (pf_view s) (pf_ifaceSortField s) v (pf_connSortField s) (pf_connSortDesc s) (pf_gauge s) (pf_dns s) (pf_udpAggregate s) (pf_smoothing s) (pf_directionColors s) (pf_sortWithinGroups s) (pf_showProcess s) (pf_showContainer s) (pf_pollMs s) (pf_eagerness s) (pf_groupBy s) (pf_themeIdx s).
Definition set_pf_connSortField (v : ColumnId) (s : Prefs) : Prefs :=
  mkPrefs (pf_view s) (pf_ifaceSortField s) (pf_ifaceSortDesc s) v (pf_connSortDesc s) (pf_gauge s) (pf_dns s) (pf_udpAggregate s) (pf_smoothing s) (pf_directionColors s) (pf_sortWithinGroups s) (pf_showProcess s) (pf_showContainer s) (pf_pollMs s) (pf_eagerness s) (pf_groupBy s) (pf_themeIdx s).
Definition set_pf_connSortDesc (v : bool) (s : Prefs) : Prefs :=
  mkPrefs (pf_view s) (pf_ifaceSortField s) (pf_ifaceSortDesc s) (pf_connSortField s) v (pf_gauge s) (pf_dns s) (pf_udpAggregate s) (pf_smoothing s) (pf_directionColors s) (pf_sortWithinGroups s) (pf_showProcess s) (pf_showContainer s) (pf_pollMs s) (pf_eagerness s) (pf_groupBy s) (pf_themeIdx s).
Definition set_pf_gauge (v : bool) (s : Prefs) : Prefs :=
  mkPrefs (pf_view s) (pf_ifaceSortField s) (pf_ifaceSortDesc s) (pf_connSortField s) (pf_connSortDesc s) v (pf_dns s) (pf_udpAggregate s) (pf_smoothing s) (pf_directionColors s) (pf_sortWithinGroups s) (pf_showProcess s) (pf_showContainer s) (pf_pollMs s) (pf_eagerness s) (pf_groupBy s) (pf_themeIdx s).
Definition set_pf_dns (v : bool) (s : Prefs) : Prefs :=
  mkPrefs (pf_view s) (pf_ifaceSortField s) (pf_ifaceSortDesc s) (pf_connSortField s) (pf_connSortDesc s) (pf_gauge s) v (pf_udpAggregate s) (pf_smoothing s) (pf_directionColors s) (pf_sortWithinGroups s) (pf_showProcess s) (pf_showContainer s) (pf_pollMs s) (pf_eagerness s) (pf_groupBy s) (pf_themeIdx s).
Definition set_pf_udpAggregate (v : bool) (s : Prefs) : Prefs :=
  mkPrefs (pf_view s) (pf_ifaceSortField s) (pf_ifaceSortDesc s) (pf_connSortField s) (pf_connSortDesc s) (pf_gauge s) (pf_dns s) v (pf_smoothing s) (pf_directionColors s) (pf_sortWithinGroups s) (pf_showProcess s) (pf_showContainer s) (pf_pollMs s) (pf_eagerness s) (pf_groupBy s) (pf_themeIdx s).
Definition set_pf_smoothing (v : bool) (s : Prefs) : Prefs :=
  mkPrefs (pf_view s) (pf_ifaceSortField s) (pf_ifaceSortDesc s) (pf_connSortField s) (pf_connSortDesc s) (pf_gauge s) (pf_dns s) (pf_udpAggregate s) v (pf_directionColors s) (pf_sortWithinGroups s) (pf_showProcess s) (pf_showContainer s) (pf_pollMs s) (pf_eagerness s) (pf_groupBy s) (pf_themeIdx s).
Definition set_pf_directionColors (v : bool) (s : Prefs) : Prefs :=
  mkPrefs (pf_view s) (pf_ifaceSortField s) (pf_ifaceSortDesc s) (pf_connSortField s) (pf_connSortDesc s) (pf_gauge s) (pf_dns s) (pf_udpAggregate s) (pf_smoothing s) v (pf_sortWithinGroups s) (pf_showProcess s) (pf_showContainer s) (pf_pollMs s) (pf_eagerness s) (pf_groupBy s) (pf_themeIdx s).
Definition set_pf_sortWithinGroups (v : bool) (s : Prefs) : Prefs :=
  mkPrefs (pf_view s) (pf_ifaceSortField s) (pf_ifaceSortDesc s) (pf_connSortField s) (pf_connSortDesc s) (pf_gauge s) (pf_dns s) (pf_udpAggregate s) (pf_smoothing s) (pf_directionColors s) v (pf_showProcess s) (pf_showContainer s) (pf_pollMs s) (pf_eagerness s) (pf_groupBy s) (pf_themeIdx s).
Definition set_pf_showProcess (v : bool) (s : Prefs) : Prefs :=
  mkPrefs (pf_view s) (pf_ifaceSortField s) (pf_ifaceSortDesc s) (pf_connSortField s) (pf_connSortDesc s) (pf_gauge s) (pf_dns s) (pf_udpAggregate s) (pf_smoothing s) (pf_directionColors s) (pf_sortWithinGroups s) v (pf_showContainer s) (pf_pollMs s) (pf_eagerness s) (pf_groupBy s) (pf_themeIdx s).
Definition set_pf_showContainer (v : bool) (s : Prefs) : Prefs :=
  mkPrefs (pf_view s) (pf_ifaceSortField s) (pf_ifaceSortDesc s) (pf_connSortField s) (pf_connSortDesc s) (pf_gauge s) (pf_dns s) (pf_udpAggregate s) (pf_smoothing s) (pf_directionColors s) (pf_sortWithinGroups s) (pf_showProcess s) v (pf_pollMs s) (pf_eagerness s) (pf_groupBy s) (pf_themeIdx s).
Definition set_pf_pollMs (v : Z) (s : Prefs) : Prefs :=
  mkPrefs (pf_view s) (pf_ifaceSortField s) (pf_ifaceSortDesc s) (pf_connSortField s) (pf_connSortDesc s) (pf_gauge s) (pf_dns s) (pf_udpAggregate s) (pf_smoothing s) (pf_directionColors s) (pf_sortWithinGroups s) (pf_showProcess s) (pf_showContainer s) v (pf_eagerness s) (pf_groupBy s) (pf_themeIdx s).
Definition set_pf_eagerness (v : QString) (s : Prefs) : Prefs :=
  mkPrefs (pf_view s) (pf_ifaceSortField s) (pf_ifaceSortDesc s) (pf_connSortField s) (pf_connSortDesc s) (pf_gauge s) (pf_dns s) (pf_udpAggregate s) (pf_smoothing s) (pf_directionColors s) (pf_sortWithinGroups s) (pf_showProcess s) (pf_showContainer s) (pf_pollMs s) v (pf_groupBy s) (pf_themeIdx s).
Definition set_pf_groupBy (v : GroupBy) (s : Prefs) : Prefs :=
  mkPrefs (pf_view s) (pf_ifaceSortField s) (pf_ifaceSortDesc s) (pf_connSortField s) (pf_connSortDesc s) (pf_gauge s) (pf_dns s) (pf_udpAggregate s) (pf_smoothing s) (pf_directionColors s) (pf_sortWithinGroups s) (pf_showProcess s) (pf_showContainer s) (pf_pollMs s) (pf_eagerness s) v (pf_themeIdx s).
Definition set_pf_themeIdx (v : Z) (s : Prefs) : Prefs :=
  mkPrefs (pf_view s) (pf_ifaceSortField s) (pf_ifaceSortDesc s) (pf_connSortField s) (pf_connSortDesc s) (pf_gauge s) (pf_dns s) (pf_udpAggregate s) (pf_smoothing s) (pf_directionColors s) (pf_sortWithinGroups s) (pf_showProcess s) (pf_showContainer s) (pf_pollMs s) (pf_eagerness s) (pf_groupBy s) v.

Definition set_nv_ifaceScroll (v : Z) (s : Nav) : Nav :=
  mkNav v (nv_connScroll s) (nv_ifaceCursor s) (nv_connCursor s) (nv_rowRefs s) (nv_collapsed s) (nv_target s).
Definition set_nv_connScroll (v : Z) (s : Nav) : Nav :=
  mkNav (nv_ifaceScroll s) v (nv_ifaceCursor s) (nv_connCursor s) (nv_rowRefs s) (nv_collapsed s) (nv_target s).
Definition set_nv_ifaceCursor (v : Z) (s : Nav) : Nav :=
  mkNav (nv_ifaceScroll s) (nv_connScroll s) v (nv_connCursor s) (nv_rowRefs s) (nv_collapsed s) (nv_target s).
Definition set_nv_connCursor (v : Z) (s : Nav) : Nav :=
  mkNav (nv_ifaceScroll s) (nv_connScroll s) (nv_ifaceCursor s) v (nv_rowRefs s) (nv_collapsed s) (nv_target s).
Definition set_nv_rowRefs (v : list RowRef) (s : Nav) : Nav :=
  mkNav (nv_ifaceScroll s) (nv_connScroll s) (nv_ifaceCursor s) (nv_connCursor s) v (nv_collapsed s) (nv_target s).
Definition set_nv_collapsed (v : gset QString) (s : Nav) : Nav :=
  mkNav (nv_ifaceScroll s) (nv_connScroll s) (nv_ifaceCursor s) (nv_connCursor s) (nv_rowRefs s) v (nv_target s).
Definition set_nv_target (v : option QString) (s : Nav) : Nav :=
  mkNav (nv_ifaceScroll s) (nv_connScroll s) (nv_ifaceCursor s) (nv_connCursor s) (nv_rowRefs s) (nv_collapsed s) v.

Definition set_dt_key (v : QString) (s : Detail) : Detail :=
  mkDetail v (dt_view s) (dt_groupKey s) (dt_groupBy s) (dt_procDetails s) (dt_requested s).
Definition set_dt_view (v : View) (s : Detail) : Detail :=
  mkDetail (dt_key s) v (dt_groupKey s) (dt_groupBy s) (dt_procDetails s) (dt_requested s).
Definition set_dt_groupKey (v : QString) (s : Detail) : Detail :=
  mkDetail (dt_key s) (dt_view s) v (dt_groupBy s) (dt_procDetails s) (dt_requested s).
Definition set_dt_groupBy (v : GroupBy) (s : Detail) : Detail :=
  mkDetail (dt_key s) (dt_view s) (dt_groupKey s) v (dt_procDetails s) (dt_requested s).
Definition set_dt_procDetails (v : gmap Z ProcessDetailsDto) (s : Detail) : Detail :=
  mkDetail (dt_key s) (dt_view s) (dt_groupKey s) (dt_groupBy s) v (dt_requested s).
Definition set_dt_requested (v : gset Z) (s : Detail) : Detail :=
  mkDetail (dt_key s) (dt_view s) (dt_groupKey s) (dt_groupBy s) (dt_procDetails s) v.

Definition set_ed_filterEditing (v : bool) (s : Edit) : Edit :=
  mkEdit v (ed_filterDraft s) (ed_exportPrompt s) (ed_exportDraft s) (ed_filterText s) (ed_filterExpr s) (ed_filterError s).
Definition set_ed_filterDraft (v : QString) (s : Edit) : Edit :=
  mkEdit (ed_filterEditing s) v (ed_exportPrompt s) (ed_exportDraft s) (ed_filterText s) (ed_filterExpr s) (ed_filterError s).
Definition set_ed_exportPrompt (v : bool) (s : Edit) : Edit :=
  mkEdit (ed_filterEditing s) (ed_filterDraft s) v (ed_exportDraft s) (ed_filterText s) (ed_filterExpr s) (ed_filterError s).
Definition set_ed_exportDraft (v : QString) (s : Edit) : Edit :=
  mkEdit (ed_filterEditing s) (ed_filterDraft s) (ed_exportPrompt s) v (ed_filterText s) (ed_filterExpr s) (ed_filterError s).
Definition set_ed_filterText (v : QString) (s : Edit) : Edit :=
  mkEdit (ed_filterEditing s) (ed_filterDraft s) (ed_exportPrompt s) (ed_exportDraft s) v (ed_filterExpr s) (ed_filterError s).
Definition set_ed_filterExpr (v : option Expr) (s : Edit) : Edit :=
  mkEdit (ed_filterEditing s) (ed_filterDraft s) (ed_exportPrompt s) (ed_exportDraft s) (ed_filterText s) v (ed_filterError s).
Definition set_ed_filterError (v : QString) (s : Edit) : Edit :=
  mkEdit (ed_filterEditing s) (ed_filterDraft s) (ed_exportPrompt s) (ed_exportDraft s) (ed_filterText s) (ed_filterExpr s) v.

Definition set_ta_prefs (v : Prefs) (s : TuiApp) : TuiApp :=
  mkTuiApp v (ta_nav s) (ta_detail s) (ta_edit s) (ta_overlay s) (ta_settingsSel s) (ta_fieldsSel s) (ta_backendCaps s) (ta_procWire s) (ta_contWire s) (ta_paused s) (ta_frozenIface s) (ta_frozenConn s) (ta_flashMsg s) (ta_redrawPending s) (ta_sourceLabel s) (ta_applyPoll s) (ta_askDetails s) (ta_askEagerness s).
Definition set_ta_nav (v : Nav) (s : TuiApp) : TuiApp :=
  mkTuiApp (ta_prefs s) v (ta_detail s) (ta_edit s) (ta_overlay s) (ta_settingsSel s) (ta_fieldsSel s) (ta_backendCaps s) (ta_procWire s) (ta_contWire s) (ta_paused s) (ta_frozenIface s) (ta_frozenConn s) (ta_flashMsg s) (ta_redrawPending s) (ta_sourceLabel s) (ta_applyPoll s) (ta_askDetails s) (ta_askEagerness s).
Definition set_ta_detail (v : Detail) (s : TuiApp) : TuiApp :=
  mkTuiApp (ta_prefs s) (ta_nav s) v (ta_edit s) (ta_overlay s) (ta_settingsSel s) (ta_fieldsSel s) (ta_backendCaps s) (ta_procWire s) (ta_contWire s) (ta_paused s) (ta_frozenIface s) (ta_frozenConn s) (ta_flashMsg s) (ta_redrawPending s) (ta_sourceLabel s) (ta_applyPoll s) (ta_askDetails s) (ta_askEagerness s).
Definition set_ta_edit (v : Edit) (s : TuiApp) : TuiApp :=
  mkTuiApp (ta_prefs s) (ta_nav s) (ta_detail s) v (ta_overlay s) (ta_settingsSel s) (ta_fieldsSel s) (ta_backendCaps s) (ta_procWire s) (ta_contWire s) (ta_paused s) (ta_frozenIface s) (ta_frozenConn s) (ta_flashMsg s) (ta_redrawPending s) (ta_sourceLabel s) (ta_applyPoll s) (ta_askDetails s) (ta_askEagerness s).
Definition set_ta_overlay (v : Overlay) (s : TuiApp) : TuiApp :=
  mkTuiApp (ta_prefs s) (ta_nav s) (ta_detail s) (ta_edit s) v (ta_settingsSel s) (ta_fieldsSel s) (ta_backendCaps s) (ta_procWire s) (ta_contWire s) (ta_paused s) (ta_frozenIface s) (ta_frozenConn s) (ta_flashMsg s) (ta_redrawPending s) (ta_sourceLabel s) (ta_applyPoll s) (ta_askDetails s) (ta_askEagerness s).
Definition set_ta_settingsSel (v : Z) (s : TuiApp) : TuiApp :=
  mkTuiApp (ta_prefs s) (ta_nav s) (ta_detail s) (ta_edit s) (ta_overlay s) v (ta_fieldsSel s) (ta_backendCaps s) (ta_procWire s) (ta_contWire s) (ta_paused s) (ta_frozenIface s) (ta_frozenConn s) (ta_flashMsg s) (ta_redrawPending s) (ta_sourceLabel s) (ta_applyPoll s) (ta_askDetails s) (ta_askEagerness s).
Definition set_ta_fieldsSel (v : Z) (s : TuiApp) : TuiApp :=
  mkTuiApp (ta_prefs s) (ta_nav s) (ta_detail s) (ta_edit s) (ta_overlay s) (ta_settingsSel s) v (ta_backendCaps s) (ta_procWire s) (ta_contWire s) (ta_paused s) (ta_frozenIface s) (ta_frozenConn s) (ta_flashMsg s) (ta_redrawPending s) (ta_sourceLabel s) (ta_applyPoll s) (ta_askDetails s) (ta_askEagerness s).
Definition set_ta_backendCaps (v : list QString) (s : TuiApp) : TuiApp :=
  mkTuiApp (ta_prefs s) (ta_nav s) (ta_detail s) (ta_edit s) (ta_overlay s) (ta_settingsSel s) (ta_fieldsSel s) v (ta_procWire s) (ta_contWire s) (ta_paused s) (ta_frozenIface s) (ta_frozenConn s) (ta_flashMsg s) (ta_redrawPending s) (ta_sourceLabel s) (ta_applyPoll s) (ta_askDetails s) (ta_askEagerness s).
Definition set_ta_procWire (v : bool) (s : TuiApp) : TuiApp :=
  mkTuiApp (ta_prefs s) (ta_nav s) (ta_detail s) (ta_edit s) (ta_overlay s) (ta_settingsSel s) (ta_fieldsSel s) (ta_backendCaps s) v (ta_contWire s) (ta_paused s) (ta_frozenIface s) (ta_frozenConn s) (ta_flashMsg s) (ta_redrawPending s) (ta_sourceLabel s) (ta_applyPoll s) (ta_askDetails s) (ta_askEagerness s).
Definition set_ta_contWire (v : bool) (s : TuiApp) : TuiApp :=
  mkTuiApp (ta_prefs s) (ta_nav s) (ta_detail s) (ta_edit s) (ta_overlay s) (ta_settingsSel s) (ta_fieldsSel s) (ta_backendCaps s) (ta_procWire s) v (ta_paused s) (ta_frozenIface s) (ta_frozenConn s) (ta_flashMsg s) (ta_redrawPending s) (ta_sourceLabel s) (ta_applyPoll s) (ta_askDetails s) (ta_askEagerness s).
Definition set_ta_paused (v : bool) (s : TuiApp) : TuiApp :=
  mkTuiApp (ta_prefs s) (ta_nav s) (ta_detail s) (ta_edit s) (ta_overlay s) (ta_settingsSel s) (ta_fieldsSel s) (ta_backendCaps s) (ta_procWire s) (ta_contWire s) v (ta_frozenIface s) (ta_frozenConn s) (ta_flashMsg s) (ta_redrawPending s) (ta_sourceLabel s) (ta_applyPoll s) (ta_askDetails s) (ta_askEagerness s).
Definition set_ta_frozenIface (v : list IfaceRow) (s : TuiApp) : TuiApp :=
  mkTuiApp (ta_prefs s) (ta_nav s) (ta_detail s) (ta_edit s) (ta_overlay s) (ta_settingsSel s) (ta_fieldsSel s) (ta_backendCaps s) (ta_procWire s) (ta_contWire s) (ta_paused s) v (ta_frozenConn s) (ta_flashMsg s) (ta_redrawPending s) (ta_sourceLabel s) (ta_applyPoll s) (ta_askDetails s) (ta_askEagerness s).
Definition set_ta_frozenConn (v : list Row) (s : TuiApp) : TuiApp :=
  mkTuiApp (ta_prefs s) (ta_nav s) (ta_detail s) (ta_edit s) (ta_overlay s) (ta_settingsSel s) (ta_fieldsSel s) (ta_backendCaps s) (ta_procWire s) (ta_contWire s) (ta_paused s) (ta_frozenIface s) v (ta_flashMsg s) (ta_redrawPending s) (ta_sourceLabel s) (ta_applyPoll s) (ta_askDetails s) (ta_askEagerness s).
Definition set_ta_flashMsg (v : QString) (s : TuiApp) : TuiApp :=
  mkTuiApp (ta_prefs s) (ta_nav s) (ta_detail s) (ta_edit s) (ta_overlay s) (ta_settingsSel s) (ta_fieldsSel s) (ta_backendCaps s) (ta_procWire s) (ta_contWire s) (ta_paused s) (ta_frozenIface s) (ta_frozenConn s) v (ta_redrawPending s) (ta_sourceLabel s) (ta_applyPoll s) (ta_askDetails s) (ta_askEagerness s).
Definition set_ta_redrawPending (v : bool) (s : TuiApp) : TuiApp :=
  mkTuiApp (ta_prefs s) (ta_nav s) (ta_detail s) (ta_edit s) (ta_overlay s) (ta_settingsSel s) (ta_fieldsSel s) (ta_backendCaps s) (ta_procWire s) (ta_contWire s) (ta_paused s) (ta_frozenIface s) (ta_frozenConn s) (ta_flashMsg s) v (ta_sourceLabel s) (ta_applyPoll s) (ta_askDetails s) (ta_askEagerness s).
Definition set_ta_sourceLabel (v : QString) (s : TuiApp) : TuiApp :=
  mkTuiApp (ta_prefs s) (ta_nav s) (ta_detail s) (ta_edit s) (ta_overlay s) (ta_settingsSel s) (ta_fieldsSel s) (ta_backendCaps s) (ta_procWire s) (ta_contWire s) (ta_paused s) (ta_frozenIface s) (ta_frozenConn s) (ta_flashMsg s) (ta_redrawPending s) v (ta_applyPoll s) (ta_askDetails s) (ta_askEagerness s).
Definition set_ta_applyPoll (v : bool) (s : TuiApp) : TuiApp :=
  mkTuiApp (ta_prefs s) (ta_nav s) (ta_detail s) (ta_edit s) (ta_overlay s) (ta_settingsSel s) (ta_fieldsSel s) (ta_backendCaps s) (ta_procWire s) (ta_contWire s) (ta_paused s) (ta_frozenIface s) (ta_frozenConn s) (ta_flashMsg s) (ta_redrawPending s) (ta_sourceLabel s) v (ta_askDetails s) (ta_askEagerness s).
Definition set_ta_askDetails (v : bool) (s : TuiApp) : TuiApp :=
  mkTuiApp (ta_prefs s) (ta_nav s) (ta_detail s) (ta_edit s) (ta_overlay s) (ta_settingsSel s) (ta_fieldsSel s) (ta_backendCaps s) (ta_procWire s) (ta_contWire s) (ta_paused s) (ta_frozenIface s) (ta_frozenConn s) (ta_flashMsg s) (ta_redrawPending s) (ta_sourceLabel s) (ta_applyPoll s) v (ta_askEagerness s).
Definition set_ta_askEagerness (v : bool) (s : TuiApp) : TuiApp :=
  mkTuiApp (ta_prefs s) (ta_nav s) (ta_detail s) (ta_edit s) (ta_overlay s) (ta_settingsSel s) (ta_fieldsSel s) (ta_backendCaps s) (ta_procWire s) (ta_contWire s) (ta_paused s) (ta_frozenIface s) (ta_frozenConn s) (ta_flashMsg s) (ta_redrawPending s) (ta_sourceLabel s) (ta_applyPoll s) (ta_askDetails s) v.

Definition defaultPrefs : Prefs :=
  mkPrefs ViewConnections ColInterface false ColRxRate true true false true true true true true true 1000 [] GroupNone 0.

Definition newTuiApp (sourceLabel : QString) : TuiApp :=
  mkTuiApp defaultPrefs (mkNav 0 0 0 0 [] ∅ None) (mkDetail [] ViewConnections [] GroupNone ∅ ∅)
    (mkEdit false [] false [] [] None []) OvNone 0 0 [] false false false [] [] [] false sourceLabel false false false.

(** Updates of a part. *)
Definition onPrefs (f : Prefs -> Prefs) (st : TuiApp) : TuiApp := set_ta_prefs (f (ta_prefs st)) st.
Definition onNav (f : Nav -> Nav) (st : TuiApp) : TuiApp := set_ta_nav (f (ta_nav st)) st.
Definition onDetail (f : Detail -> Detail) (st : TuiApp) : TuiApp := set_ta_detail (f (ta_detail st)) st.
Definition onEdit (f : Edit -> Edit) (st : TuiApp) : TuiApp := set_ta_edit (f (ta_edit st)) st.

(* ------------------------------------------------------------------ *)
(** ** Effects and steps *)

Inductive AggOp := AggUdpByPeer (b : bool) | AggSmoothing (ms : Z) | AggHostnames (b : bool) | AggPollInterval (ms : Z).

Inductive TuiEffect :=
| StartRedrawTimer
| StartFlashTimer
| StartSmoothTimer
| StopSmoothTimer
| SetSmoothInterval (ms : Z)
| SetTheme (idx : Z)
| ShutdownScreen
| QuitApp
| CallAggregator (op : AggOp)
| RequestDetails (pid : Z)
| RequestEagerness (mode : QString)
| ApplyPollMs (ms : Z)
| SaveFile (path : QString) (rows : Exportable)
| WriteSettings (p : Prefs).

(** A piece of a handler. *)
Definition Step := TuiApp -> TuiApp * list TuiEffect.

Definition andThen (f g : Step) : Step := fun st =>
  let '(st, e1) := f st in let '(st, e2) := g st in (st, e1 ++ e2).
Definition skip : Step := fun st => (st, []).
Definition update (f : TuiApp -> TuiApp) : Step := fun st => (f st, []).
Definition emit (es : list TuiEffect) : Step := fun st => (st, es).
Definition when (b : TuiApp -> bool) (f g : Step) : Step := fun st => if b st then f st else g st.

Declare Scope step_scope.
Delimit Scope step_scope with step.
Bind Scope step_scope with Step.
Infix ">>>" := andThen (at level 60, right associativity) : step_scope.

(** A step keeps a property. *)
Definition keeps (P : TuiApp -> Prop) (f : Step) : Prop := forall st, P st -> P (fst (f st)).

Lemma keeps_andThen P f g : keeps P f -> keeps P g -> keeps P (andThen f g).
Proof.
  intros Hf Hg st Hp. unfold andThen. specialize (Hf st Hp). destruct (f st) as [st1 e1]. cbn [fst] in Hf.
  specialize (Hg st1 Hf). by destruct (g st1).
Qed.
Lemma fst_andThen f g st : fst (andThen f g st) = fst (g (fst (f st))).
Proof. unfold andThen. destruct (f st) as [st1 e1]. cbn. by destruct (g st1). Qed.
Lemma keeps_skip P : keeps P skip.
Proof. by intros st. Qed.
Lemma keeps_emit P es : keeps P (emit es).
Proof. by intros st. Qed.
Lemma keeps_when P b f g : keeps P f -> keeps P g -> keeps P (when b f g).
Proof. intros Hf Hg st Hp. unfold when. destruct (b st); auto. Qed.
Lemma keeps_update (P : TuiApp -> Prop) f : (forall st, P st -> P (f st)) -> keeps P (update f).
Proof. by intros Hf st Hp; apply Hf. Qed.

Create HintDb tui.
#[export] Hint Resolve keeps_andThen keeps_skip keeps_emit keeps_when : tui.

(** A goal about the state after a step follows from the step's lemma. *)
Ltac by_keeps :=
  match goal with
  | |- ?P (fst (?f ?s)) => let Hk := fresh in assert (Hk : keeps P f) by auto 12 with tui; by apply Hk
  end.
