(* ===== verification/TuiControl.v ===== *)
(** * Terminal frontend, controller: [src/tui/TuiApp.cpp]

    Keys, overlays, the input lines, folding, on-demand details and exports as
    steps on the state of [TuiState]; [buildFrame] is in [TuiFrame].  What a
    step reads from outside (the aggregators' rows, the clock, the file system,
    the size of the terminal) is the record [TuiEnv]. *)

From S2P Require Import Prelude StdAlgo Qt Conn DbusTypes Filter UdpAgg Aggregator IfaceAgg Units Export TuiFormat TuiScreen TuiState.
Local Open Scope step_scope.

Record TuiEnv := mkTuiEnv {
  te_iface : InterfaceAggregator;
  te_agg : Aggregator;
  te_rows : Z;                         (* terminal height *)
  te_stampMs : QString;                (* now, as yyyyMMdd-HHmmss-zzz *)
  te_stamp : QString;                  (* now, as yyyyMMdd-HHmmss *)
  te_exists : QString -> bool;         (* QDir::current().exists *)
  te_absolute : QString -> QString;    (* QDir::current().absoluteFilePath *)
  te_dirSize : nat;                    (* entries of the current directory *)
  te_save : QString -> option QString; (* error of util::exporter::save *)
  te_escalates : bool;                 (* platform::settingsWriteWouldEscalate *)
}.

Definition anyKey (key : Z) (keys : list Z) : bool := existsb (Z.eqb key) keys.
Definition isEnter (key : Z) : bool := anyKey key [10; 13; KEY_ENTER]%Z.

Definition kRedrawThrottleMs : Z := 33.
Definition kFlashMs : Z := 4000.

(** [std::clamp] on integers. *)
Definition clampZ (v lo hi : Z) : Z := if (v <? lo)%Z then lo else if (hi <? v)%Z then hi else v.

Definition isView (v : View) (st : TuiApp) : bool := bool_decide (pf_view (ta_prefs st) = v).
Definition onInterfaces : TuiApp -> bool := isView ViewInterfaces.

Definition requestRedraw : Step := fun st =>
  if ta_redrawPending st then (st, []) else (set_ta_redrawPending true st, [StartRedrawTimer]).

Definition onDataChanged : Step := when ta_paused skip requestRedraw.

Definition flashMessage (msg : QString) : Step :=
  update (set_ta_flashMsg msg) >>> emit [StartFlashTimer] >>> requestRedraw.

(** The rows the views show: the frozen copies while paused. *)
Definition shownIfaceRows (env : TuiEnv) (st : TuiApp) : list IfaceRow :=
  if ta_paused st then ta_frozenIface st else ia_rows (te_iface env).
Definition shownConnRows (env : TuiEnv) (st : TuiApp) : list Row :=
  if ta_paused st then ta_frozenConn st else ag_rows (te_agg env).

(* ------------------------------------------------------------------ *)
(** ** Columns and sort fields *)

Definition currentSortField (st : TuiApp) : ColumnId :=
  if onInterfaces st then pf_ifaceSortField (ta_prefs st) else pf_connSortField (ta_prefs st).
Definition setCurrentSortField (id : ColumnId) (st : TuiApp) : TuiApp :=
  onPrefs (fun p => if bool_decide (pf_view p = ViewInterfaces) then set_pf_ifaceSortField id p else set_pf_connSortField id p) st.
Definition currentSortDesc (st : TuiApp) : bool :=
  if onInterfaces st then pf_ifaceSortDesc (ta_prefs st) else pf_connSortDesc (ta_prefs st).
Definition flipSortDesc (st : TuiApp) : TuiApp :=
  onPrefs (fun p => if bool_decide (pf_view p = ViewInterfaces) then set_pf_ifaceSortDesc (negb (pf_ifaceSortDesc p)) p
                    else set_pf_connSortDesc (negb (pf_connSortDesc p)) p) st.

Definition effectiveOptionalColumns (st : TuiApp) : OptionalColumns :=
  let p := ta_prefs st in
  if isView ViewConnections st
  then mkOptional (ta_procWire st && pf_showProcess p && negb (bool_decide (pf_groupBy p = GroupProcess)))
                  (ta_contWire st && pf_showContainer p && negb (bool_decide (pf_groupBy p = GroupContainer)))
  else mkOptional false false.

Definition activeColumns (st : TuiApp) : list TuiColumn :=
  columnsFor (pf_view (ta_prefs st)) (effectiveOptionalColumns st) (pf_groupBy (ta_prefs st)).

Definition annotate (available visible : bool) (c : TuiColumn) : TuiColumn :=
  mkColumn (col_id c) (col_title c) (col_rightAlign c) (col_fixedWidth c) (col_hideable c) available visible.

Definition overlayColumns (st : TuiApp) : list TuiColumn :=
  map (fun c => match col_id c with
                | ColProcess => annotate (ta_procWire st) (pf_showProcess (ta_prefs st)) c
                | ColContainer => annotate (ta_contWire st) (pf_showContainer (ta_prefs st)) c
                | _ => c
                end) (overlayColumnsFor (pf_view (ta_prefs st))).

Definition cycleSortField (st : TuiApp) : TuiApp :=
  let cols := activeColumns st in
  if isEmpty cols then st
  else
    let idx := Z.max 0 (Z.rem (visualIndexForColumn cols (currentSortField st) + 1) (Z.of_nat (length cols))) in
    match cols !! Z.to_nat idx with
    | Some c => setCurrentSortField (col_id c) st
    | None => st
    end.

Definition toggleOptionalColumn (id : ColumnId) (st : TuiApp) : TuiApp :=
  match id with
  | ColProcess => onPrefs (fun p => set_pf_showProcess (negb (pf_showProcess p)) p) st
  | ColContainer => onPrefs (fun p => set_pf_showContainer (negb (pf_showContainer p)) p) st
  | _ => st
  end.

(* ------------------------------------------------------------------ *)
(** ** The cursor *)

Definition currentCursor (st : TuiApp) : Z := if onInterfaces st then nv_ifaceCursor (ta_nav st) else nv_connCursor (ta_nav st).
Definition setCurrentCursor (c : Z) (st : TuiApp) : TuiApp :=
  if onInterfaces st then onNav (set_nv_ifaceCursor c) st else onNav (set_nv_connCursor c) st.

Definition refAt (refs : list RowRef) (i : Z) : option RowRef := if (i <? 0)%Z then None else refs !! Z.to_nat i.
Definition selectableAt (refs : list RowRef) (i : Z) : bool := match refAt refs i with Some r => rr_selectable r | None => false end.
Definition inRows (refs : list RowRef) (i : Z) : bool := (0 <=? i)%Z && (i <? len refs)%Z.

(** [while (in range && !selectable) p += step]; a step leaves the range after
    at most as many moves as there are rows. *)
Fixpoint scanRow (fuel : nat) (step : Z) (refs : list RowRef) (p : Z) : Z :=
  match fuel with
  | O => p
  | S fuel' => if inRows refs p && negb (selectableAt refs p) then scanRow fuel' step refs (p + step)%Z else p
  end.
Definition scan (step : Z) (refs : list RowRef) (p : Z) : Z := scanRow (S (length refs)) step refs p.

(** The loop over [remaining]; every round moves at least one row, so it ends
    at an edge after as many rounds as there are rows. *)
Fixpoint advanceRows (fuel : nat) (step : Z) (refs : list RowRef) (remaining pos : Z) : Z :=
  match fuel with
  | O => pos
  | S fuel' =>
      if (0 <? remaining)%Z then
        let next := scan step refs (pos + step)%Z in
        if inRows refs next then advanceRows fuel' step refs (remaining - 1) next else pos
      else pos
  end.

Definition movedCursor (delta : Z) (refs : list RowRef) (cursor : Z) : Z :=
  if (len refs <=? 0)%Z then 0%Z
  else
    let step := if (0 <=? delta)%Z then 1%Z else (-1)%Z in
    let pos := advanceRows (S (length refs)) step refs (Z.abs delta) (clampZ cursor 0 (len refs - 1)) in
    if selectableAt refs pos then pos
    else
      let p := scan step refs pos in
      let p := if inRows refs p then p else scan (- step) refs pos in
      if inRows refs p then p else pos.

Definition moveCursor (delta : Z) : Step :=
  update (fun st => setCurrentCursor (movedCursor delta (nv_rowRefs (ta_nav st)) (currentCursor st)) st) >>> requestRedraw.

Definition cursorRef (st : TuiApp) : option RowRef := refAt (nv_rowRefs (ta_nav st)) (currentCursor st).
Definition cursorOnHeader (st : TuiApp) : bool := match cursorRef st with Some r => rr_header r | None => false end.

(* ------------------------------------------------------------------ *)
(** ** Folding groups *)

Definition grouped (st : TuiApp) : bool := isView ViewConnections st && negb (bool_decide (pf_groupBy (ta_prefs st) = GroupNone)).

Definition fold (gk : QString) (st : TuiApp) : TuiApp :=
  onNav (fun n => set_nv_target (Some gk) (set_nv_collapsed ({[ gk ]} ∪ nv_collapsed n) n)) st.
Definition unfold_ (gk : QString) (st : TuiApp) : TuiApp := onNav (fun n => set_nv_collapsed (nv_collapsed n ∖ {[ gk ]}) n) st.
Definition isCollapsed (gk : QString) (st : TuiApp) : bool := bool_decide (gk ∈ nv_collapsed (ta_nav st)).

Definition collapseAtCursor : Step := fun st =>
  if negb (grouped st) then (st, [])
  else match cursorRef st with
       | Some r => if isCollapsed (rr_groupKey r) st then (st, []) else (update (fold (rr_groupKey r)) >>> requestRedraw) st
       | None => (st, [])
       end.

Definition expandAtCursor : Step := fun st =>
  if negb (grouped st) then (st, [])
  else match cursorRef st with
       | Some r => if rr_header r && isCollapsed (rr_groupKey r) st
                   then (update (unfold_ (rr_groupKey r)) >>> requestRedraw) st else (st, [])
       | None => (st, [])
       end.

Definition toggleCollapseAtCursor : Step := fun st =>
  if negb (grouped st) then (st, [])
  else match cursorRef st with
       | Some r =>
           if rr_header r
           then ((if isCollapsed (rr_groupKey r) st then update (unfold_ (rr_groupKey r)) else update (fold (rr_groupKey r)))
                 >>> requestRedraw) st
           else (st, [])
       | None => (st, [])
       end.

(* ------------------------------------------------------------------ *)
(** ** Details *)

Section Control.
Context `{QtUnicode, QtAddrText, QtRegex, QtToDouble, StdStableSort} (dnsCachedName : nat -> QHostAddress -> QString).

Definition ensureProcessDetails (pid : Z) : Step := fun st =>
  if (pid <=? 0)%Z || negb (ta_askDetails st) then (st, [])
  else if bool_decide (is_Some (dt_procDetails (ta_detail st) !! pid)) || bool_decide (pid ∈ dt_requested (ta_detail st)) then (st, [])
  else (onDetail (fun d => set_dt_requested ({[ pid ]} ∪ dt_requested d) d) st, [RequestDetails pid]).

Definition onProcessDetails (d : ProcessDetailsDto) : Step := fun st =>
  if (pd_pid d <=? 0)%Z then (st, [])
  else (update (onDetail (fun dt => set_dt_requested (dt_requested dt ∖ {[ pd_pid d ]})
                                      (set_dt_procDetails (<[pd_pid d := d]> (dt_procDetails dt)) dt)))
        >>> when (fun st => bool_decide (ta_overlay st = OvDetail)) requestRedraw skip) st.

(** The pid whose details a flow's panel needs, if it is attributed. *)
Definition warmPid (r : option Row) : Step :=
  match r with
  | Some r => if processValid (c_process (r_current r)) then ensureProcessDetails (pi_pid (c_process (r_current r))) else skip
  | None => skip
  end.

Definition openDetail (env : TuiEnv) : Step := fun st =>
  match cursorRef st with
  | Some r =>
      if negb (rr_selectable r) || isEmpty (rr_key r) then (st, [])
      else
        (update (onDetail (fun d => set_dt_key (rr_key r) (set_dt_view (pf_view (ta_prefs st))
                                      (set_dt_groupKey [] (set_dt_groupBy GroupNone d)))))
         >>> update (set_ta_overlay OvDetail)
         >>> (if isView ViewConnections st
              then warmPid (List.find (fun row => qeqb (connectionKey row) (rr_key r)) (shownConnRows env st)) else skip)
         >>> requestRedraw) st
  | None => (st, [])
  end.

Definition openGroupDetail (env : TuiEnv) : Step := fun st =>
  if negb (grouped st) then (st, [])
  else
    match refAt (nv_rowRefs (ta_nav st)) (nv_connCursor (ta_nav st)) with
    | Some r =>
        if negb (rr_header r) then (st, [])
        else
          let g := pf_groupBy (ta_prefs st) in
          (update (onDetail (fun d => set_dt_groupKey (rr_groupKey r) (set_dt_groupBy g (set_dt_view ViewConnections d))))
           >>> update (set_ta_overlay OvDetail)
           >>> (if bool_decide (g = GroupProcess)
                then warmPid (List.find (fun row => qeqb (tuiGroupKeyFor g (r_current row)) (rr_groupKey r)
                                                    && processValid (c_process (r_current row))) (shownConnRows env st))
                else skip)
           >>> requestRedraw) st
    | None => (st, [])
    end.

Definition closeDetail (st : TuiApp) : TuiApp :=
  onDetail (fun d => set_dt_groupKey [] (set_dt_groupBy GroupNone d)) (set_ta_overlay OvNone st).

(** The panel follows the cursor to the row it lands on. *)
Definition retarget (st : TuiApp) : TuiApp :=
  match cursorRef st with
  | Some r =>
      if rr_selectable r then
        if rr_header r
        then onDetail (fun d => set_dt_key [] (set_dt_groupKey (rr_groupKey r) (set_dt_groupBy (pf_groupBy (ta_prefs st)) d))) st
        else onDetail (fun d => set_dt_key (rr_key r) (set_dt_groupKey [] (set_dt_groupBy GroupNone d))) st
      else st
  | None => st
  end.

Definition handleDetailKey (key : Z) : Step :=
  if anyKey key [106; KEY_DOWN; 107; KEY_UP]%Z
  then moveCursor (if anyKey key [106; KEY_DOWN]%Z then 1 else -1) >>> update retarget >>> requestRedraw
  else if (key =? KEY_RESIZE)%Z then requestRedraw
  else update closeDetail >>> requestRedraw.

Definition handleInfoKey (key : Z) : Step :=
  if (key =? KEY_RESIZE)%Z then requestRedraw else update (set_ta_overlay OvNone) >>> requestRedraw.

(* ------------------------------------------------------------------ *)
(** ** Export *)

Definition tuiEndpointText (e : Endpoint) : QString :=
  let host := addrToString (ep_address e) in
  qarg (qarg (if isIPv6 e then qs "[%1]:%2" else qs "%1:%2") host) (number (ep_port e)).

Definition connExportRow (r : Row) : list ExportValue :=
  let c := r_current r in
  let p := c_process c in
  [EvStr (l4ProtoToString (c_proto c)); EvStr (tuiEndpointText (c_local c)); EvStr (tuiEndpointText (c_remote c)); EvStr (c_iface c);
   EvDouble (ch_raw (r_rx r)); EvDouble (ch_raw (r_tx r)); EvULongLong (c_rxBytes c); EvULongLong (c_txBytes c);
   EvStr (if processValid p then pi_comm p else []); EvInt (if processValid p then pi_pid p else 0);
   EvInt (if processValid p then pi_uid p else 0); EvStr (ci_runtime (c_container c));
   EvStr (if containerValid (c_container c) then nameOrId (c_container c) else [])].

Definition connExportHeaders : list QString :=
  map qs ["proto"; "local"; "remote"; "iface"; "rx_rate"; "tx_rate"; "rx_bytes"; "tx_bytes"; "comm"; "pid"; "uid";
          "container_runtime"; "container"]%string.

Definition connRowsExportable (rows : list Row) : Exportable := mkExportable connExportHeaders (map connExportRow rows).

Definition ifaceExportRow (r : IfaceRow) : list ExportValue :=
  let s := ir_current r in
  [EvStr (if_name s); EvInt (if if_isUp s then 1 else 0); EvDouble (ir_rxRate r); EvDouble (ir_txRate r);
   EvULongLong (if_rxBytes s); EvULongLong (if_txBytes s)].

Definition ifaceExportHeaders : list QString := map qs ["iface"; "up"; "rx_rate"; "tx_rate"; "rx_bytes"; "tx_bytes"]%string.

Definition ifaceRowsExportable (rows : list IfaceRow) : Exportable := mkExportable ifaceExportHeaders (map ifaceExportRow rows).

(** The flows a view shows, in display order: sorted, then filtered. *)
Definition filterContext (s : AggSettings) (r : Row) : FContext :=
  let c := r_current r in
  mkFContext c (ch_rate (r_rx r)) (ch_rate (r_tx r)) (cachedHostname dnsCachedName s (ep_address (c_local c)))
    (cachedHostname dnsCachedName s (ep_address (c_remote c))).

Definition rowMatches (s : AggSettings) (expr : option Expr) (rows : list Row) (i : nat) : bool :=
  match expr with
  | None => true
  | Some _ => match rows !! i with Some r => filterMatches expr (filterContext s r) | None => false end
  end.

Definition displayedConnectionIndices (rows : list Row) (s : AggSettings) (field : ColumnId) (desc : bool) (expr : option Expr)
    : list nat :=
  filter (fun i => rowMatches s expr rows i = true) (sortedConnectionIndices rows field desc).

Definition rowsForIndices (rows : list Row) (idx : list nat) : list Row := omap (fun i => rows !! i) idx.

Definition matchedIndices (env : TuiEnv) (st : TuiApp) : list nat :=
  displayedConnectionIndices (shownConnRows env st) (ag_settings (te_agg env)) (pf_connSortField (ta_prefs st))
    (pf_connSortDesc (ta_prefs st)) (ed_filterExpr (ta_edit st)).

(** The search for a free name.  [None] stands for a loop that has not ended;
    one more round than the directory has entries is enough. *)
Fixpoint freeName (env : TuiEnv) (baseName stamp : QString) (fuel : nat) (n : Z) : option QString :=
  match fuel with
  | O => None
  | S fuel' =>
      let name := qarg (baseName ++ qs "-" ++ stamp ++ qs "-%3.csv") (number n) in
      if te_exists env name then freeName env baseName stamp fuel' (n + 1) else Some (te_absolute env name)
  end.

Definition uniqueExportPath (env : TuiEnv) (baseName stamp : QString) : option QString :=
  let name := baseName ++ qs "-" ++ stamp ++ qs ".csv" in
  if te_exists env name then freeName env baseName stamp (S (te_dirSize env)) 1 else Some (te_absolute env name).

Definition exportBase (st : TuiApp) : QString := if onInterfaces st then qs "qiftop-interfaces" else qs "qiftop-connections".

Definition exportRows (env : TuiEnv) (st : TuiApp) : Exportable :=
  if onInterfaces st then ifaceRowsExportable (shownIfaceRows env st)
  else connRowsExportable (rowsForIndices (shownConnRows env st) (matchedIndices env st)).

(** [QFileInfo(path).fileName()]. *)
Definition fileName (path : QString) : QString := List.last (qsplit 47%Z path) [].

Definition exportCurrentView (env : TuiEnv) (explicitPath : QString) : Step := fun st =>
  let ex := exportRows env st in
  let path := if isEmpty explicitPath then uniqueExportPath env (exportBase st) (te_stampMs env)
              else Some (if existsb (Z.eqb 46) (fileName explicitPath) then explicitPath else explicitPath ++ qs ".csv") in
  match path with
  | None => (st, [])
  | Some path =>
      (emit [SaveFile path ex]
       >>> flashMessage (match te_save env path with
                         | None => qarg (qarg (qs "Exported %1 rows to %2") (number (len (ex_rows ex)))) path
                         | Some err => qarg (qs "Export failed: %1") err
                         end)) st
  end.

Definition promptExportFilename (env : TuiEnv) : Step :=
  update (fun st => onEdit (fun e => set_ed_exportPrompt true (set_ed_exportDraft (exportBase st ++ qs "-" ++ te_stamp env ++ qs ".csv") e)) st)
  >>> requestRedraw.

Definition isPrintable (key : Z) : bool := (32 <=? key)%Z && (key <? 127)%Z.
Definition isBackspace (key : Z) : bool := anyKey key [KEY_BACKSPACE; 127; 8]%Z.

Definition handleExportKey (env : TuiEnv) (key : Z) : Step :=
  if (key =? 27)%Z then update (onEdit (fun e => set_ed_exportDraft [] (set_ed_exportPrompt false e))) >>> requestRedraw
  else if isEnter key then
    update (onEdit (set_ed_exportPrompt false))
    >>> (fun st => let draft := trimmed (ed_exportDraft (ta_edit st)) in
                   if isEmpty draft then (st, []) else exportCurrentView env draft st)
    >>> update (onEdit (set_ed_exportDraft [])) >>> requestRedraw
  else if isBackspace key then update (onEdit (fun e => set_ed_exportDraft (chop 1 (ed_exportDraft e)) e)) >>> requestRedraw
  else if (key =? KEY_RESIZE)%Z then requestRedraw
  else if isPrintable key then update (onEdit (fun e => set_ed_exportDraft (ed_exportDraft e ++ [key]) e)) >>> requestRedraw
  else skip.

(* ------------------------------------------------------------------ *)
(** ** The filter line *)

Definition commitFilter (st : TuiApp) : TuiApp :=
  let draft := trimmed (ed_filterDraft (ta_edit st)) in
  let res := parse draft in
  if isEmpty (res_error res)
  then onNav (set_nv_connScroll 0)
         (onEdit (fun e => set_ed_filterEditing false (set_ed_filterText draft (set_ed_filterExpr (res_expr res)
                             (set_ed_filterError [] e)))) st)
  else onEdit (set_ed_filterError (res_error res)) st.

Definition handleFilterKey (key : Z) : Step :=
  if (key =? 27)%Z then
    update (onEdit (fun e => set_ed_filterDraft (ed_filterText e) (set_ed_filterError [] (set_ed_filterEditing false e)))) >>> requestRedraw
  else if isEnter key then update commitFilter >>> requestRedraw
  else if isBackspace key then
    update (onEdit (fun e => set_ed_filterError [] (set_ed_filterDraft (chop 1 (ed_filterDraft e)) e))) >>> requestRedraw
  else if (key =? KEY_RESIZE)%Z then requestRedraw
  else if isPrintable key then
    update (onEdit (fun e => set_ed_filterError [] (set_ed_filterDraft (ed_filterDraft e ++ [key]) e))) >>> requestRedraw
  else skip.

(* ------------------------------------------------------------------ *)
(** ** Settings *)

Definition applyAggregatorSettings : Step := fun st =>
  let p := ta_prefs st in
  (st, [CallAggregator (AggUdpByPeer (pf_udpAggregate p)); CallAggregator (AggSmoothing (if pf_smoothing p then 300 else 0));
        CallAggregator (AggHostnames (pf_dns p))]).

Definition applyPollInterval : Step := fun st =>
  let ms := pf_pollMs (ta_prefs st) in
  (st, [CallAggregator (AggPollInterval ms); SetSmoothInterval (Z.max 100 (Z.quot ms 4))]
       ++ (if ta_applyPoll st then [ApplyPollMs ms] else [])).

Definition setPollApplier : Step := update (set_ta_applyPoll true) >>> applyPollInterval.

Definition setBackendInfo (caps : list QString) : Step :=
  update (fun st => set_ta_contWire (bool_decide (qs "container-attribution-wire" ∈ caps))
                      (set_ta_procWire (bool_decide (qs "process-attribution-wire" ∈ caps)) (set_ta_backendCaps caps st)))
  >>> requestRedraw.

Definition saveSettings (env : TuiEnv) : Step := fun st =>
  if te_escalates env then (st, []) else (st, [WriteSettings (ta_prefs st)]).

Inductive SettingId :=
| SetThemeItem | SetGroup | SetPoll | SetGauge | SetColours | SetDns | SetUdp | SetSmooth | SetWithin | SetProcess | SetContainer.

Definition settingItems : list SettingId :=
  [SetThemeItem; SetGroup; SetPoll; SetGauge; SetColours; SetDns; SetUdp; SetSmooth; SetWithin; SetProcess; SetContainer].

Definition nextTheme (dir : Z) (i : Z) : Z :=
  let n := len builtinThemes in Z.rem (i + (if (0 <=? dir)%Z then 1 else n - 1)) n.

Definition groupCode (g : GroupBy) : Z :=
  match g with GroupNone => 0 | GroupInterface => 1 | GroupProcess => 2 | GroupContainer => 3 | GroupCount => 4 end.
Definition groupOfCode (z : Z) : GroupBy :=
  match z with 0 => GroupNone | 1 => GroupInterface | 2 => GroupProcess | 3 => GroupContainer | _ => GroupCount end%Z.
Definition nextGroup (dir : Z) (g : GroupBy) : GroupBy :=
  groupOfCode (Z.rem (groupCode g + (if (0 <=? dir)%Z then 1 else 3)) 4).

Definition adjustSetting (id : SettingId) (dir : Z) : Step :=
  match id with
  | SetThemeItem =>
      update (onPrefs (fun p => set_pf_themeIdx (nextTheme dir (pf_themeIdx p)) p)) >>> (fun st => (st, [SetTheme (pf_themeIdx (ta_prefs st))]))
  | SetGroup =>
      update (onPrefs (fun p => set_pf_groupBy (nextGroup dir (pf_groupBy p)) p)) >>> update (onNav (set_nv_connScroll 0))
  | SetPoll =>
      update (onPrefs (fun p => set_pf_pollMs (clampZ (pf_pollMs p + dir * 250) 100 10000) p)) >>> applyPollInterval
  | SetGauge => update (onPrefs (fun p => set_pf_gauge (negb (pf_gauge p)) p))
  | SetColours => update (onPrefs (fun p => set_pf_directionColors (negb (pf_directionColors p)) p))
  | SetDns => update (onPrefs (fun p => set_pf_dns (negb (pf_dns p)) p))
  | SetUdp => update (onPrefs (fun p => set_pf_udpAggregate (negb (pf_udpAggregate p)) p))
  | SetSmooth => update (onPrefs (fun p => set_pf_smoothing (negb (pf_smoothing p)) p))
  | SetWithin => update (onPrefs (fun p => set_pf_sortWithinGroups (negb (pf_sortWithinGroups p)) p)) >>> requestRedraw
  | SetProcess => update (toggleOptionalColumn ColProcess) >>> requestRedraw
  | SetContainer => update (toggleOptionalColumn ColContainer) >>> requestRedraw
  end.

Definition activate (dir : Z) : Step :=
  (fun st => match (if (0 <=? ta_settingsSel st)%Z then settingItems !! Z.to_nat (ta_settingsSel st) else None) with
             | Some id => adjustSetting id dir st
             | None => (st, [])
             end) >>> applyAggregatorSettings.

Definition handleSettingsKey (key : Z) : Step :=
  let n := len settingItems in
  if anyKey key [83; 113; 81; 27]%Z then update (set_ta_overlay OvNone) >>> requestRedraw
  else if anyKey key [KEY_UP; 107]%Z then update (fun st => set_ta_settingsSel (Z.rem (ta_settingsSel st - 1 + n) n) st) >>> requestRedraw
  else if anyKey key [KEY_DOWN; 106]%Z then update (fun st => set_ta_settingsSel (Z.rem (ta_settingsSel st + 1) n) st) >>> requestRedraw
  else if anyKey key [KEY_LEFT; 104]%Z then activate (-1) >>> requestRedraw
  else if anyKey key [KEY_RIGHT; 108; 32]%Z || isEnter key then activate 1 >>> requestRedraw
  else if (key =? KEY_RESIZE)%Z then requestRedraw
  else skip.

Definition capabilityToken (id : ColumnId) : QString :=
  if bool_decide (id = ColContainer) then qs "container-attribution-wire" else qs "process-attribution-wire".

Definition handleFieldsKey (key : Z) : Step := fun st =>
  let cols := overlayColumns st in
  let n := len cols in
  if (n =? 0)%Z then (update (set_ta_overlay OvNone) >>> requestRedraw) st
  else
    let sel := clampZ (ta_fieldsSel st) 0 (n - 1) in
    let st := set_ta_fieldsSel sel st in
    match cols !! Z.to_nat sel with
    | None => (st, [])
    | Some c =>
        (if anyKey key [102; 70; 113; 81; 27]%Z then update (set_ta_overlay OvNone) >>> requestRedraw
         else if anyKey key [KEY_UP; 107]%Z then update (set_ta_fieldsSel (Z.rem (sel - 1 + n) n)) >>> requestRedraw
         else if anyKey key [KEY_DOWN; 106]%Z then update (set_ta_fieldsSel (Z.rem (sel + 1) n)) >>> requestRedraw
         else if (key =? 32)%Z then
           (if col_hideable c && col_available c then update (toggleOptionalColumn (col_id c))
            else if col_hideable c then
              flashMessage (col_title c ++ qs " needs the backend's " ++ capabilityToken (col_id c) ++ qs " capability")
            else skip) >>> requestRedraw
         else if isEnter key then
           (if bool_decide (currentSortField st = col_id c) then update flipSortDesc else update (setCurrentSortField (col_id c)))
           >>> requestRedraw
         else if anyKey key [114; 82; KEY_LEFT; KEY_RIGHT]%Z then update flipSortDesc >>> requestRedraw
         else if (key =? KEY_RESIZE)%Z then requestRedraw
         else skip) st
    end.

Definition eagernessOrder : list QString := [[]; qs "off"; qs "balanced"; qs "eager"].

Definition cycleAttributionEagerness (env : TuiEnv) : Step := fun st =>
  if negb (bool_decide (qs "attribution-eagerness-hints" ∈ ta_backendCaps st))
  then flashMessage (qs "Attribution eagerness needs an agent that advertises it") st
  else
    let idx := match list_find (fun s => s = pf_eagerness (ta_prefs st)) eagernessOrder with Some (i, _) => i | None => 0 end in
    let value := default [] (eagernessOrder !! (S idx mod 4)) in
    let wire := if isEmpty value then qs "default" else value in
    (update (onPrefs (set_pf_eagerness value))
     >>> emit (if ta_askEagerness st then [RequestEagerness wire] else [])
     >>> flashMessage (qarg (qs "Attribution eagerness: %1") wire)
     >>> saveSettings env >>> requestRedraw) st.

(* ------------------------------------------------------------------ *)
(** ** The main key table *)

Definition intMaxHalf : Z := 1073741823.              (* std::numeric_limits<int>::max() / 2 *)

Definition togglePause (env : TuiEnv) : Step := fun st =>
  if ta_paused st
  then (set_ta_frozenConn [] (set_ta_frozenIface [] (set_ta_paused false st)), [StartSmoothTimer])
  else (set_ta_frozenConn (ag_rows (te_agg env)) (set_ta_frozenIface (ia_rows (te_iface env)) (set_ta_paused true st)), [StopSmoothTimer]).

Definition cycleGroup (st : TuiApp) : TuiApp :=
  onNav (fun n => set_nv_collapsed ∅ (set_nv_connCursor 0 n)) (onPrefs (fun p => set_pf_groupBy (nextGroup 1 (pf_groupBy p)) p) st).

Definition otherView (v : View) : View := match v with ViewInterfaces => ViewConnections | ViewConnections => ViewInterfaces end.

Definition clearFilter (st : TuiApp) : TuiApp :=
  onNav (set_nv_connCursor 0) (onEdit (fun e => set_ed_filterExpr None (set_ed_filterText [] e)) st).

Definition openFields (st : TuiApp) : TuiApp :=
  set_ta_overlay OvFields (set_ta_fieldsSel (Z.max 0 (visualIndexForColumn (overlayColumns st) (currentSortField st))) st).

Definition mainKey (env : TuiEnv) (key : Z) : Step :=
  let bodyH := Z.max 1 (bodyHeight (te_rows env)) in
  if anyKey key [113; 81]%Z then emit [ShutdownScreen; QuitApp]
  else if anyKey key [83; KEY_F 2]%Z then update (set_ta_overlay OvSettings) >>> requestRedraw
  else if anyKey key [102; 70]%Z then update openFields >>> requestRedraw
  else if anyKey key [63; KEY_F 1]%Z then update (set_ta_overlay OvHelp) >>> requestRedraw
  else if anyKey key [97; 65]%Z then update (set_ta_overlay OvAbout) >>> requestRedraw
  else if anyKey key [101; 69]%Z then cycleAttributionEagerness env >>> requestRedraw
  else if anyKey key [112; 80]%Z then togglePause env >>> requestRedraw
  else if (key =? 119)%Z then exportCurrentView env [] >>> requestRedraw
  else if (key =? 87)%Z then promptExportFilename env >>> requestRedraw
  else if (key =? 47)%Z then
    update (onEdit (fun e => set_ed_filterDraft (ed_filterText e) (set_ed_filterEditing true e))) >>> requestRedraw
  else if (key =? 27)%Z then
    when (fun st => isEmpty (ed_filterText (ta_edit st))) skip (update clearFilter >>> requestRedraw)
  else if anyKey key [9; KEY_BTAB]%Z then update (onPrefs (fun p => set_pf_view (otherView (pf_view p)) p)) >>> requestRedraw
  else if (key =? 49)%Z then update (onPrefs (set_pf_view ViewInterfaces)) >>> requestRedraw
  else if (key =? 50)%Z then update (onPrefs (set_pf_view ViewConnections)) >>> requestRedraw
  else if (key =? 115)%Z then update cycleSortField >>> requestRedraw
  else if anyKey key [114; 82]%Z then update flipSortDesc >>> requestRedraw
  else if anyKey key [122; 90]%Z then
    update (onPrefs (fun p => set_pf_themeIdx (nextTheme 1 (pf_themeIdx p)) p))
    >>> (fun st => (st, [SetTheme (pf_themeIdx (ta_prefs st))])) >>> requestRedraw
  else if (key =? 103)%Z then update cycleGroup >>> requestRedraw
  else if anyKey key [107; KEY_UP]%Z then moveCursor (-1) >>> requestRedraw
  else if anyKey key [106; KEY_DOWN]%Z then moveCursor 1 >>> requestRedraw
  else if anyKey key [71; KEY_END]%Z then moveCursor intMaxHalf >>> requestRedraw
  else if (key =? 4)%Z then moveCursor (Z.quot bodyH 2) >>> requestRedraw
  else if (key =? 21)%Z then moveCursor (Z.quot (- bodyH) 2) >>> requestRedraw
  else if anyKey key [KEY_PPAGE; 2]%Z then moveCursor (- bodyH) >>> requestRedraw
  else if anyKey key [KEY_NPAGE; 6]%Z then moveCursor bodyH >>> requestRedraw
  else if (key =? KEY_HOME)%Z then moveCursor (- intMaxHalf) >>> requestRedraw
  else if isEnter key then when cursorOnHeader (openGroupDetail env) (openDetail env) >>> requestRedraw
  else if (key =? 32)%Z then when cursorOnHeader toggleCollapseAtCursor (openDetail env) >>> requestRedraw
  else if anyKey key [108; KEY_RIGHT]%Z then when cursorOnHeader expandAtCursor (openDetail env) >>> requestRedraw
  else if anyKey key [104; KEY_LEFT]%Z then collapseAtCursor >>> requestRedraw
  else if (key =? KEY_RESIZE)%Z then requestRedraw
  else skip.

Definition handleKey (env : TuiEnv) (key : Z) : Step := fun st =>
  match ta_overlay st with
  | OvSettings => handleSettingsKey key st
  | OvFields => handleFieldsKey key st
  | OvHelp | OvAbout => handleInfoKey key st
  | OvDetail => handleDetailKey key st
  | OvNone =>
      if ed_filterEditing (ta_edit st) then handleFilterKey key st
      else if ed_exportPrompt (ta_edit st) then handleExportKey env key st
      else mainKey env key st
  end.
End Control.
