(* ===== verification/TuiFrame.v ===== *)
(** * Terminal frontend, frames: [TuiApp::buildFrame] and [TuiApp::buildModal]

    The four lists [buildFrame] appends to for every displayed row (the plan,
    the roles, the rates, the row references) are one list of records. *)

From S2P Require Import Prelude StdAlgo Qt Conn DbusTypes Filter UdpAgg Aggregator.
From S2P Require Import IfaceAgg Units Export TuiFormat TuiScreen TuiState TuiControl.

(** [src]: the row it shows, [None] for a group header.  [sum]: what it adds
    to the total throughput; members of a group add nothing of their own. *)
Record DispRow := mkDisp {
  dr_src : option nat; dr_indent : bool; dr_groupCells : list QString; dr_role : TuiRole; dr_rate : double;
  dr_sum : option (double * double); dr_ref : RowRef;
}.

Definition rowAtIdx (rows : list Row) (i : nat) : Row := default (newRow emptyConnection 0) (rows !! i).

Section Frame.
Context `{QtNumberText, QtUnicode, QtAddrText, QtRegex, QtToDouble, StdStableSort, CMath}.
Context (dnsCachedName : nat -> QHostAddress -> QString) (undefinedRate : QString).

(* ------------------------------------------------------------------ *)
(** ** The rows of a view *)

Definition ifaceDisp (rows : list IfaceRow) (i : nat) : list DispRow :=
  match rows !! i with
  | Some r => [mkDisp (Some i) false [] (rowRoleForInterface r) (ifaceCombinedRate r) (Some (ir_rxRate r, ir_txRate r))
                 (mkRef true false (interfaceKey r) [])]
  | None => []
  end.

Definition planInterfaces (env : TuiEnv) (st : TuiApp) : list DispRow :=
  let rows := shownIfaceRows env st in
  concat (map (ifaceDisp rows)
    (sortedInterfaceIndices rows (pf_ifaceSortField (ta_prefs st)) (pf_ifaceSortDesc (ta_prefs st)))).

(** Direction colours can be switched off; stale rows are marked all the same. *)
Definition connRole (s : AggSettings) (colours : bool) (r : Row) : TuiRole :=
  if colours then rowRoleForConnection s r else if r_stale r then RoleStale else RoleNormal.

Definition flowDisp (s : AggSettings) (colours : bool) (rows : list Row) (group : option QString) (i : nat) : DispRow :=
  let r := rowAtIdx rows i in
  mkDisp (Some i) (bool_decide (is_Some group)) [] (connRole s colours r) (combinedRate r)
    (if group then None else Some (ch_rate (r_rx r), ch_rate (r_tx r))) (mkRef true false (connectionKey r) (default [] group)).

(** Buckets in the order their keys are first seen. *)
Fixpoint addToBucket (k : QString) (i : nat) (bs : list (QString * list nat)) : list (QString * list nat) :=
  match bs with
  | [] => [(k, [i])]
  | (k', m) :: bs' => if qeqb k' k then (k', m ++ [i]) :: bs' else (k', m) :: addToBucket k i bs'
  end.

Definition bucketRows (g : GroupBy) (rows : list Row) (matched : list nat) : list (QString * list nat) :=
  foldl (fun bs i => addToBucket (tuiGroupKeyFor g (r_current (rowAtIdx rows i))) i bs) [] matched.

Definition summaryOf (g : GroupBy) (rows : list Row) (members : list nat) : GroupSummary :=
  let first := List.hd 0 members in
  mkSummary
    (foldl (fun acc i => dadd acc (ch_rate (r_rx (rowAtIdx rows i)))) dzero members)
    (foldl (fun acc i => dadd acc (ch_rate (r_tx (rowAtIdx rows i)))) dzero members)
    (foldl (fun acc i => u64 (acc + c_rxBytes (r_current (rowAtIdx rows i)))) 0%Z members)
    (foldl (fun acc i => u64 (acc + c_txBytes (r_current (rowAtIdx rows i)))) 0%Z members)
    (foldl Nat.min first members)
    (tuiGroupLabelFor g (r_current (rowAtIdx rows first))).

(** A folded group is its header alone. *)
Definition groupDisp (env : TuiEnv) (st : TuiApp) (columns : list TuiColumn) (rows : list Row) (b : QString * list nat) (gs : GroupSummary)
    : list DispRow :=
  let '(k, members) := b in
  let collapsed := isCollapsed k st in
  let marker := if collapsed then [9656%Z] else [9662%Z] in
  let label := qarg (marker ++ qs " " ++ gs_label gs ++ qs "  (%3)") (number (len members)) in
  mkDisp None false (groupHeaderCells undefinedRate columns label (gs_rxRate gs) (gs_txRate gs) (gs_rxBytes gs) (gs_txBytes gs))
    RoleGroupHeader (dadd (gs_rxRate gs) (gs_txRate gs)) (Some (gs_rxRate gs, gs_txRate gs)) (mkRef true true [] k)
  :: (if collapsed then []
      else map (flowDisp (ag_settings (te_agg env)) (pf_directionColors (ta_prefs st)) rows (Some k)) members).

Definition planGroups (env : TuiEnv) (st : TuiApp) (columns : list TuiColumn) (matched : list nat) : list DispRow :=
  let p := ta_prefs st in
  let rows := shownConnRows env st in
  let buckets := bucketRows (pf_groupBy p) rows matched in
  let summaries := map (fun b => summaryOf (pf_groupBy p) rows (snd b)) buckets in
  concat (map (fun oi => match buckets !! oi, summaries !! oi with
                         | Some b, Some gs => groupDisp env st columns rows b gs
                         | _, _ => []
                         end)
    (orderedGroupIndices summaries (pf_connSortField p) (pf_connSortDesc p) (pf_sortWithinGroups p))).

Definition planConnections (env : TuiEnv) (st : TuiApp) (columns : list TuiColumn) : list DispRow :=
  let p := ta_prefs st in
  let matched := matchedIndices dnsCachedName env st in
  if bool_decide (pf_groupBy p = GroupNone)
  then map (flowDisp (ag_settings (te_agg env)) (pf_directionColors p) (shownConnRows env st) None) matched
  else planGroups env st columns matched.

(** The columns; grouped, the first one names the grouping. *)
Definition frameColumns (st : TuiApp) : list TuiColumn :=
  match activeColumns st with
  | c :: cs =>
      if grouped st
      then mkColumn (col_id c) (qs "Flow " ++ [183%Z] ++ qs " by " ++ groupByName (pf_groupBy (ta_prefs st))) (col_rightAlign c)
             (col_fixedWidth c) (col_hideable c) (col_available c) (col_visible c) :: cs
      else c :: cs
  | [] => []
  end.

Definition plan (env : TuiEnv) (st : TuiApp) : list DispRow :=
  if onInterfaces st then planInterfaces env st else planConnections env st (frameColumns st).

(* ------------------------------------------------------------------ *)
(** ** Cursor and viewport *)

(** Onto the header of the group just folded. *)
Definition snapToTarget (target : option QString) (refs : list RowRef) (cursor : Z) : Z :=
  match target with
  | Some gk => match list_find (fun r => rr_header r = true /\ rr_groupKey r = gk) refs with
               | Some (i, _) => Z.of_nat i
               | None => cursor
               end
  | None => cursor
  end.

(** Onto a row the cursor may rest on: below first, else above. *)
Definition snapToSelectable (refs : list RowRef) (cursor : Z) : Z :=
  if selectableAt refs cursor then cursor
  else
    let dn := scan 1 refs cursor in
    let up := scan (-1) refs cursor in
    if (dn <? len refs)%Z then dn else if (0 <=? up)%Z then up else cursor.

Definition followScroll (body total cursor scroll : Z) : Z :=
  if (0 <? body)%Z then
    let scroll := if (cursor <? scroll)%Z then cursor
                  else if (scroll + body <=? cursor)%Z then (cursor - body + 1)%Z else scroll in
    let top := Z.max 0 (total - body) in
    let scroll := clampZ scroll 0 top in
    if (1 <? body)%Z && (scroll + body <? total)%Z && (scroll + body - 1 <=? cursor)%Z
    then clampZ (cursor - body + 2) 0 top else scroll
  else scroll.

(** Cursor, scroll offset, and the cursor the frame shows (-1 for none). *)
Definition placeCursor (body : Z) (target : option QString) (refs : list RowRef) (cursor scroll : Z) : Z * Z * Z :=
  let total := len refs in
  let cursor := snapToTarget target refs cursor in
  if (total <=? 0)%Z then (0, 0, -1)%Z
  else
    let cursor := snapToSelectable refs (clampZ cursor 0 (total - 1)) in
    (cursor, followScroll body total cursor scroll, cursor).

Definition currentScroll (st : TuiApp) : Z := if onInterfaces st then nv_ifaceScroll (ta_nav st) else nv_connScroll (ta_nav st).
Definition setCurrentScroll (v : Z) (st : TuiApp) : TuiApp :=
  if onInterfaces st then onNav (set_nv_ifaceScroll v) st else onNav (set_nv_connScroll v) st.

(* ------------------------------------------------------------------ *)
(** ** Cells of a planned row *)

Definition indentCells (indent : bool) (cells : list QString) : list QString :=
  match cells with
  | c :: cs => if indent then (qs "  " ++ c) :: cs else cells
  | [] => []
  end.

Definition formatRow (env : TuiEnv) (st : TuiApp) (columns : list TuiColumn) (d : DispRow) : list QString :=
  match dr_src d with
  | None => dr_groupCells d
  | Some i =>
      indentCells (dr_indent d)
        (if onInterfaces st
         then match shownIfaceRows env st !! i with Some r => cellsForInterface undefinedRate r | None => [] end
         else cellsForConnection dnsCachedName undefinedRate (ag_settings (te_agg env)) (rowAtIdx (shownConnRows env st) i) columns)
  end.

(** Only the rows of the viewport are formatted; the others are empty. *)
Definition formatVisible (env : TuiEnv) (st : TuiApp) (columns : list TuiColumn) (body scroll : Z) (rows : list DispRow) : list (list QString) :=
  let total := len rows in
  let fmtBegin := if (0 <? body)%Z then Z.max 0 scroll else 0%Z in
  let fmtEnd := if (0 <? body)%Z then Z.min total (scroll + body) else total in
  imap (fun i d => if (Z.of_nat i <? fmtBegin)%Z || (fmtEnd <=? Z.of_nat i)%Z then [] else formatRow env st columns d) rows.

(* ------------------------------------------------------------------ *)
(** ** Footer *)

Definition hint (k d : string) : KeyHint := mkHint (qs k) (qs d).
Definition barCursor : QString := [9608%Z].

Definition filterHints (text : QString) : list KeyHint :=
  [mkHint (qs "filter:") text; hint "/" "edit"; hint "Esc" "clear"; hint "q" "quit"; hint "?" "help"].

Definition mainHints (st : TuiApp) : list KeyHint :=
  let hs := [hint "q" "quit"; hint "Tab" "view"; hint "jk" "move"; mkHint [8629%Z] (qs "details"); hint "s" "sort"; hint "f" "fields";
             hint "g" "group"; hint "/" "filter"; hint "p" "pause"; hint "w" "export"; hint "S" "settings"; hint "?" "help"] in
  let hs := if bool_decide (pf_groupBy (ta_prefs st) = GroupNone) then hs else take 7 hs ++ hint "h/l" "fold" :: drop 7 hs in
  if bool_decide (qs "attribution-eagerness-hints" ∈ ta_backendCaps st)
  then take (length hs - 1) hs ++ hint "e" "attr" :: drop (length hs - 1) hs else hs.

Definition footerOf (st : TuiApp) : QString * list KeyHint :=
  let e := ta_edit st in
  if ed_filterEditing e then
    ((if isEmpty (ed_filterError e)
      then qs " /" ++ ed_filterDraft e ++ barCursor ++ qs "   (Enter apply " ++ [183%Z] ++ qs " Esc cancel)"
      else qs " /" ++ ed_filterDraft e ++ barCursor ++ qs "   ! " ++ ed_filterError e), [])
  else if ed_exportPrompt e then
    (qs " save as: " ++ ed_exportDraft e ++ barCursor ++ qs "   (Enter save " ++ [183%Z] ++ qs " Esc cancel)", [])
  else if negb (isEmpty (ta_flashMsg st)) then (qs " " ++ ta_flashMsg st, [])
  else if negb (isEmpty (ed_filterText e)) then ([], filterHints (ed_filterText e))
  else ([], mainHints st).

(* ------------------------------------------------------------------ *)
(** ** The modal panel *)

Record AboutInfo := mkAbout {
  ab_name : QString; ab_version : QString; ab_qt : QString; ab_os : QString; ab_kernelType : QString; ab_kernelVersion : QString;
  ab_arch : QString; ab_host : QString; ab_cols : Z; ab_rows : Z; ab_color256 : bool; ab_hasColor : bool;
}.

Definition kRepoUrl : QString := qs "https://github.com/TheCleaners/qiftop".

Definition settingLabel (id : SettingId) : QString :=
  qs match id with
     | SetThemeItem => "Theme" | SetGroup => "Group connections" | SetPoll => "Poll interval" | SetGauge => "Bandwidth gauge"
     | SetColours => "Direction colours" | SetDns => "Resolve hostnames" | SetUdp => "Aggregate UDP by peer"
     | SetSmooth => "Rate smoothing" | SetWithin => "Sort within groups" | SetProcess => "Process column"
     | SetContainer => "Container column"
     end%string.

Definition leftRight : QString := [8592%Z] ++ qs "/" ++ [8594%Z].

Definition settingHelp (id : SettingId) : QString :=
  match id with
  | SetThemeItem => qs "Colour palette. " ++ leftRight ++ qs " cycles dark / light / colourblind / mono."
  | SetGroup => qs "Group flows by interface / process / container (or off). Also: g."
  | SetPoll => qs "Refresh cadence. " ++ leftRight ++ qs " adjusts by 250 ms (100 ms " ++ [8211%Z] ++ qs " 10 s)."
  | SetGauge => qs "Row-spanning background bar scaled to the loudest flow (iftop-style)."
  | SetColours => qs "Tint rows by flow direction (outbound / inbound / forwarded)."
  | SetDns => qs "Reverse-DNS lookups for peer addresses (async, cached)."
  | SetUdp => qs "Collapse a peer's UDP flows into one row instead of per-port."
  | SetSmooth => qs "EMA-smooth the displayed rates so they ease between polls."
  | SetWithin => qs "When grouped, sort rows inside each group and keep the group order fixed; off = order groups by their total."
  | SetProcess => qs "Show the Process column (comm[pid], or the reason a flow has no local process). Needs an attribution-capable agent. Also: f."
  | SetContainer => qs "Show the Container column (runtime:name). Needs a container-attribution-capable agent. Also: f."
  end.

Definition settingValue (st : TuiApp) (id : SettingId) : QString :=
  let p := ta_prefs st in
  match id with
  | SetThemeItem => default [] (th_name <$> builtinThemes !! Z.to_nat (pf_themeIdx p))
  | SetGroup => groupByName (pf_groupBy p)
  | SetPoll => qarg (qs "%1 ms") (number (pf_pollMs p))
  | SetGauge => onOff (pf_gauge p)
  | SetColours => onOff (pf_directionColors p)
  | SetDns => onOff (pf_dns p)
  | SetUdp => onOff (pf_udpAggregate p)
  | SetSmooth => onOff (pf_smoothing p)
  | SetWithin => onOff (pf_sortWithinGroups p)
  | SetProcess => if ta_procWire st then onOff (pf_showProcess p) else qs "unavailable"
  | SetContainer => if ta_contWire st then onOff (pf_showContainer p) else qs "unavailable"
  end.

Definition settingRows (st : TuiApp) : list SettingRow :=
  map (fun id => mkSettingRow (settingLabel id) (settingValue st id) (settingHelp id)) settingItems.

Definition upDown : QString := [8593; 8595]%Z.
Definition sepDot : QString := qs " " ++ [183%Z] ++ qs " ".
Definition helpRow (k : QString) (d : QString) : SettingRow := mkSettingRow k d [].

Definition helpRows : list SettingRow :=
  [helpRow (qs "Tab / 1 / 2") (qs "Switch view (Interfaces / Connections)");
   helpRow (upDown ++ qs " / j k") (qs "Move the current-line cursor");
   helpRow (qs "Enter") (qs "On a flow: open the detail inspector. On a group header: open the group-info window (process/container details, aggregate)");
   helpRow (qs "Space") (qs "On a flow: detail inspector. On a group header: fold / unfold");
   helpRow (qs "PgUp/PgDn ^F/^B ^U/^D") (qs "Page up/down (^F/^B)" ++ sepDot ++ qs "half page (^U/^D)");
   helpRow (qs "Home/End  G") (qs "Jump to top / bottom");
   helpRow (qs "s") (qs "Cycle the sort field");
   helpRow (qs "f") (qs "Fields: sort and show/hide the Process / Container columns. Unattributed Process cells show the forwarded / orphaned / no-socket reason.");
   helpRow (qs "r") (qs "Reverse the sort order");
   helpRow (qs "/") (qs "Filter connections (mini-language; Esc clears)");
   helpRow (qs "g") (qs "Group connections by interface / process / container");
   helpRow (qs "h/" ++ [8592%Z] ++ qs "  l/" ++ [8594%Z]) (qs "Collapse / expand the group under the cursor (when grouped)");
   helpRow (qs "p") (qs "Pause / resume live updates");
   helpRow (qs "w") (qs "Write/export the current view to an auto-named CSV file");
   helpRow (qs "W") (qs "Export to a CSV file, prompting for the filename");
   helpRow (qs "z") (qs "Cycle the colour theme");
   helpRow (qs "e") (qs "Cycle the agent's attribution eagerness (default / off / balanced / eager) " ++ dash ++ qs " needs an agent that advertises it");
   helpRow (qs "S / F2") (qs "Settings (gauge, DNS, smoothing" ++ [8230%Z] ++ qs ")");
   helpRow (qs "? / F1") (qs "This help");
   helpRow (qs "a") (qs "About (app & system info)");
   helpRow (qs "q") (qs "Quit");
   helpRow [] [];
   helpRow (qs "Online docs: " ++ kRepoUrl) []].

Definition helpModal : ModalPanel :=
  mkModal true false (qs "Help " ++ dash ++ qs " key bindings") helpRows 0 (qs "any key / Esc closes").

Definition aboutRow (label : string) (value : QString) : SettingRow := mkSettingRow (leftJustified 12 (qs label)) value [].

Definition aboutModal (a : AboutInfo) (sourceLabel : QString) : ModalPanel :=
  let name := if isEmpty (ab_name a) then qs "nqiftop" else ab_name a in
  let mode := if ab_color256 a then qs "256-colour" else if ab_hasColor a then qs "8-colour" else qs "monochrome" in
  mkModal true false (qs "About " ++ name)
    [aboutRow "Application" (name ++ qs " " ++ ab_version a); aboutRow "libqiftop" (ab_version a); aboutRow "Source" sourceLabel;
     aboutRow "Qt" (ab_qt a); aboutRow "OS" (ab_os a); aboutRow "Kernel" (ab_kernelType a ++ qs " " ++ ab_kernelVersion a);
     aboutRow "Arch" (ab_arch a); aboutRow "Host" (ab_host a);
     aboutRow "Terminal" (number (ab_cols a) ++ [215%Z] ++ number (ab_rows a) ++ qs ", " ++ mode);
     aboutRow "Project" kRepoUrl] 0 (qs "any key / Esc closes" ++ sepDot ++ qs "iftop-style net monitor").

Definition detailsFor (st : TuiApp) (c : Connection) : option ProcessDetailsDto :=
  if processValid (c_process c) then dt_procDetails (ta_detail st) !! pi_pid (c_process c) else None.

Definition detailFooter : QString := upDown ++ qs " next/prev" ++ sepDot ++ qs "any other key closes".
Definition detailPanel (title : QString) (items : list SettingRow) : ModalPanel := mkModal true false title items 0 detailFooter.
Definition goneRow : list SettingRow := [mkSettingRow (qs "(no longer present)") [] []].

(** The aggregate of a group's live members, and its first one. *)
Definition groupMembers (g : GroupBy) (k : QString) (rows : list Row) : list Row :=
  filter (fun r => tuiGroupKeyFor g (r_current r) = k) rows.

Definition groupPanel (st : TuiApp) (g : GroupBy) (members : list Row) : ModalPanel :=
  match members with
  | [] => detailPanel (qs "Group") goneRow
  | r0 :: _ =>
      let rep := r_current r0 in
      detailPanel (qs "Group " ++ dash ++ qs " " ++ tuiGroupLabelFor g rep)
        (groupDetailRows undefinedRate g rep
           (foldl (fun acc r => dadd acc (ch_rate (r_rx r))) dzero members) (foldl (fun acc r => dadd acc (ch_rate (r_tx r))) dzero members)
           (foldl (fun acc r => u64 (acc + c_rxBytes (r_current r))) 0%Z members)
           (foldl (fun acc r => u64 (acc + c_txBytes (r_current r))) 0%Z members) (len members)
           (if bool_decide (g = GroupProcess) then detailsFor st rep else None))
  end.

(** The panel of a row, found again by its key. *)
Definition rowPanel (env : TuiEnv) (st : TuiApp) (v : View) (k : QString) : ModalPanel :=
  match v with
  | ViewInterfaces =>
      match List.find (fun r => qeqb (interfaceKey r) k) (shownIfaceRows env st) with
      | Some r => detailPanel (qs "Interface " ++ dash ++ qs " " ++ if_name (ir_current r)) (interfaceDetailRows undefinedRate r)
      | None => detailPanel (qs "Detail") goneRow
      end
  | ViewConnections =>
      match List.find (fun r => qeqb (connectionKey r) k) (shownConnRows env st) with
      | Some r => detailPanel (qs "Connection " ++ dash ++ qs " " ++ protoLabel (ag_settings (te_agg env)) (r_current r))
                    (connectionDetailRows dnsCachedName undefinedRate (ag_settings (te_agg env)) r (detailsFor st (r_current r)))
      | None => detailPanel (qs "Detail") goneRow
      end
  end.

Definition detailModal (env : TuiEnv) (st : TuiApp) : ModalPanel :=
  let d := ta_detail st in
  if negb (isEmpty (dt_groupKey d))
  then groupPanel st (dt_groupBy d) (groupMembers (dt_groupBy d) (dt_groupKey d) (shownConnRows env st))
  else rowPanel env st (dt_view d) (dt_key d).

Definition buildModal (env : TuiEnv) (about : AboutInfo) (st : TuiApp) : ModalPanel :=
  match ta_overlay st with
  | OvNone => noModal
  | OvDetail => detailModal env st
  | OvSettings => mkModal true true (qs "Settings") (settingRows st) (ta_settingsSel st)
      (upDown ++ qs " move" ++ sepDot ++ [8592%Z] ++ qs "/" ++ [8594%Z] ++ qs "/Space change" ++ sepDot ++ qs "S/Esc close")
  | OvFields => mkModal true true (qs "Fields") (fieldRows (overlayColumns st) (currentSortField st) (currentSortDesc st)) (ta_fieldsSel st)
      (upDown ++ qs " move" ++ sepDot ++ qs "Space show/hide" ++ sepDot ++ qs "Enter sort" ++ sepDot ++ qs "r reverse" ++ sepDot ++ qs "f/Esc close")
  | OvHelp => helpModal
  | OvAbout => aboutModal about (ta_sourceLabel st)
  end.

(* ------------------------------------------------------------------ *)
(** ** The frame *)

Definition kSumW : nat := 12.

Definition addSum (side : double * double -> double) (acc : double) (d : DispRow) : double :=
  match dr_sum d with Some s => dadd acc (side s) | None => acc end.

Definition maxRate (rows : list DispRow) : double := foldl (fun m d => dmax m (dr_rate d)) dzero rows.

Definition summaryText (st : TuiApp) (rows : list DispRow) : QString :=
  let scale := niceScale (maxRate rows) in
  let src := if ta_paused st then [9208%Z] ++ qs " PAUSED " ++ [183%Z] ++ qs " " ++ ta_sourceLabel st else ta_sourceLabel st in
  [931%Z] ++ qs " " ++ rightJustified kSumW (rateText undefinedRate (foldl (addSum fst) dzero rows)) ++ [8595%Z] ++ qs " "
  ++ rightJustified kSumW (rateText undefinedRate (foldl (addSum snd) dzero rows)) ++ [8593%Z] ++ qs " " ++ [183%Z] ++ qs " " ++ [8804%Z]
  ++ leftJustified kSumW (rateText undefinedRate scale) ++ qs " " ++ [183%Z] ++ qs " " ++ src.

Definition buildFrame (env : TuiEnv) (about : AboutInfo) (st : TuiApp) : Frame * TuiApp :=
  let columns := frameColumns st in
  let rows := plan env st in
  let refs := map dr_ref rows in
  let body := bodyHeight (te_rows env) in
  let '(cursor, scroll, shown) := placeCursor body (nv_target (ta_nav st)) refs (currentCursor st) (currentScroll st) in
  let '(footer, hints) := footerOf st in
  (mkFrame [qs "Interfaces"; qs "Connections"] (if onInterfaces st then 0 else 1) (summaryText st rows) columns
     (visualIndexForColumn columns (currentSortField st)) (currentSortDesc st)
     (formatVisible env st columns body scroll rows) (map dr_role rows)
     (if pf_gauge (ta_prefs st) then map (fun d => gaugeFraction (dr_rate d) (niceScale (maxRate rows))) rows else [])
     scroll shown footer hints (buildModal env about st),
   onNav (fun n => set_nv_target None (set_nv_rowRefs refs n)) (setCurrentScroll scroll (setCurrentCursor cursor st))).

Definition doRedraw (env : TuiEnv) (about : AboutInfo) (st : TuiApp) : Frame * TuiApp :=
  buildFrame env about (set_ta_redrawPending false st).
End Frame.
