(* ===== verification/TuiPrefs.v ===== *)
(** * Terminal frontend, persisted preferences and start-up:
      [TuiApp::loadSettings], [TuiApp::saveSettings], the constructor

    [QSettings] keeps variants in memory and text in the file; both are read
    back through [toInt], [toBool] and [toString].  The text of an integer is
    parsed by Qt, a parameter with the round trip of [QString::number]. *)

From S2P Require Import Prelude StdAlgo Qt Conn DbusTypes Filter UdpAgg Aggregator.
From S2P Require Import IfaceAgg Units Export TuiFormat TuiScreen TuiState TuiControl.
Local Open Scope step_scope.

(* ------------------------------------------------------------------ *)
(** ** Stored values *)

Inductive SVal := SInt (z : Z) | SBool (b : bool) | SStr (s : QString).

Class QtIntText := intOfText : QString -> option Z.
Class QtIntTextLaws `{QtIntText} : Prop :=
  intOfText_number : forall z, (- 2147483648 <= z <= int32_max)%Z -> intOfText (number z) = Some z.

#[global] Instance decimalIntText : QtIntText := fun s =>
  match s with
  | c :: r => if (c =? 45)%Z then (fun z => - z)%Z <$> parseDec r else parseDec s
  | [] => None
  end.

Lemma decimalIntText_nonneg z : (0 <= z)%Z -> decimalIntText (number z) = Some z.
Proof.
  intros Hz. unfold decimalIntText. pose proof (parseDec_number z Hz) as Hp. pose proof (number_digits z Hz) as Hd.
  destruct (number z) as [|c r] eqn:En; [discriminate Hp|]. apply Forall_cons in Hd as [Hc _].
  destruct (Z.eqb_spec c 45) as [->|]; [discriminate Hc|done].
Qed.

#[global] Instance decimalIntText_laws : @QtIntTextLaws decimalIntText.
Proof.
  intros z _. destruct (Z.le_gt_cases 0 z) as [Hz|Hz]; [by apply decimalIntText_nonneg|].
  unfold intOfText. assert (He : number z = 45%Z :: number (- z)).
  { unfold number. destruct (Z.ltb_spec z 0); [|lia]. destruct (Z.ltb_spec (- z) 0); [lia|done]. }
  rewrite He. cbn [decimalIntText]. unfold decimalIntText. cbn [Z.eqb]. rewrite (parseDec_number (- z)) by lia. cbn. f_equal. lia.
Qed.

(** What comes back from the file: text. *)
Definition stored (v : SVal) : SVal :=
  match v with
  | SInt z => SStr (number z)
  | SBool b => SStr (if b then qs "true" else qs "false")
  | SStr s => SStr s
  end.

Section Variants.
Context `{QtUnicode, QtIntText}.

Definition toInt (v : SVal) : Z :=
  match v with SInt z => z | SBool b => if b then 1 else 0 | SStr s => default 0%Z (intOfText s) end.
(** False for the empty text, [0] and [false] in any case. *)
Definition toBool (v : SVal) : bool :=
  match v with
  | SInt z => negb (z =? 0)%Z
  | SBool b => b
  | SStr s => let l := toLower s in negb (isEmpty l || qeqb l (qs "0") || qeqb l (qs "false"))
  end.
Definition toString (v : SVal) : QString :=
  match v with SInt z => number z | SBool b => if b then qs "true" else qs "false" | SStr s => s end.

(* ------------------------------------------------------------------ *)
(** ** Saving and loading *)

Notation SettingsStore := (gmap QString SVal).

Definition viewCode (v : View) : Z := match v with ViewInterfaces => 0 | ViewConnections => 1 end.

Definition savedEntries (p : Prefs) : list (QString * SVal) :=
  [(qs "view", SInt (viewCode (pf_view p)));
   (qs "ifaceSortField", SStr (columnIdToken (pf_ifaceSortField p))); (qs "ifaceSortDesc", SBool (pf_ifaceSortDesc p));
   (qs "connSortField", SStr (columnIdToken (pf_connSortField p))); (qs "connSortDesc", SBool (pf_connSortDesc p));
   (qs "gauge", SBool (pf_gauge p)); (qs "dns", SBool (pf_dns p)); (qs "udpAggregate", SBool (pf_udpAggregate p));
   (qs "smoothing", SBool (pf_smoothing p)); (qs "directionColors", SBool (pf_directionColors p));
   (qs "sortWithinGroups", SBool (pf_sortWithinGroups p)); (qs "showProcessColumn", SBool (pf_showProcess p));
   (qs "showContainerColumn", SBool (pf_showContainer p)); (qs "pollMs", SInt (pf_pollMs p));
   (qs "attributionEagerness", SStr (pf_eagerness p)); (qs "groupBy", SInt (groupCode (pf_groupBy p)));
   (qs "theme", SStr (default [] (th_name <$> builtinThemes !! Z.to_nat (pf_themeIdx p))))].

(** Written over what the store already holds. *)
Definition writeSettings (p : Prefs) (s : SettingsStore) : SettingsStore :=
  foldl (fun s '(k, v) => <[k := v]> s) s (savedEntries p).

Definition intAt (s : SettingsStore) (k : string) (dflt : Z) : Z := match s !! qs k with Some v => toInt v | None => dflt end.
Definition boolAt (s : SettingsStore) (k : string) (dflt : bool) : bool := match s !! qs k with Some v => toBool v | None => dflt end.
Definition stringAt (s : SettingsStore) (k : string) (dflt : QString) : QString :=
  match s !! qs k with Some v => toString v | None => dflt end.

(** The theme whose name matches, the current one when none does. *)
Definition themeIndexFor (name : QString) (current : Z) : Z :=
  match list_find (fun t => equalsCI (th_name t) name = true) builtinThemes with
  | Some (i, _) => Z.of_nat i
  | None => current
  end.

(** Legacy positional sort column first, then the token. *)
Definition sortFieldAt (s : SettingsStore) (v : View) (legacy token : string) (dflt : ColumnId) : ColumnId :=
  let idx := intAt s legacy (-1) in
  columnIdFromToken (stringAt s token []) (if (0 <=? idx)%Z then columnIdForLegacyIndex v idx else dflt).

Definition validField (v : View) (fallback field : ColumnId) : ColumnId :=
  if (visualIndexForColumn (overlayColumnsFor v) field <? 0)%Z then fallback else field.

Definition groupOfStored (g : Z) : GroupBy := if (0 <=? g)%Z && (g <? 4)%Z then groupOfCode g else GroupNone.

Definition loadSettings (s : SettingsStore) (p : Prefs) : Prefs :=
  let theme := stringAt s "theme" [] in
  mkPrefs (if (intAt s "view" (viewCode (pf_view p)) =? 0)%Z then ViewInterfaces else ViewConnections)
    (validField ViewInterfaces ColInterface (sortFieldAt s ViewInterfaces "ifaceSortCol" "ifaceSortField" (pf_ifaceSortField p)))
    (boolAt s "ifaceSortDesc" (pf_ifaceSortDesc p))
    (validField ViewConnections ColRxRate (sortFieldAt s ViewConnections "connSortCol" "connSortField" (pf_connSortField p)))
    (boolAt s "connSortDesc" (pf_connSortDesc p))
    (boolAt s "gauge" (pf_gauge p)) (boolAt s "dns" (pf_dns p)) (boolAt s "udpAggregate" (pf_udpAggregate p))
    (boolAt s "smoothing" (pf_smoothing p)) (boolAt s "directionColors" (pf_directionColors p))
    (boolAt s "sortWithinGroups" (pf_sortWithinGroups p)) (boolAt s "showProcessColumn" (pf_showProcess p))
    (boolAt s "showContainerColumn" (pf_showContainer p)) (clampZ (intAt s "pollMs" (pf_pollMs p)) 100 10000)
    (stringAt s "attributionEagerness" (pf_eagerness p)) (groupOfStored (intAt s "groupBy" (groupCode (pf_groupBy p))))
    (if isEmpty theme then pf_themeIdx p else themeIndexFor theme (pf_themeIdx p)).

(* ------------------------------------------------------------------ *)
(** ** Start-up: command-line options over saved values *)

Record CliOptions := mkCli { cli_theme : QString; cli_pollMs : Z; cli_view : QString; cli_group : QString }.

Definition startsWithChar (c : QChar) (s : QString) : bool := match s with x :: _ => (x =? c)%Z | [] => false end.

Definition overrideView (name : QString) (v : View) : View :=
  if isEmpty name then v
  else let n := toLower (trimmed name) in
       if startsWithChar 105 n then ViewInterfaces else if startsWithChar 99 n then ViewConnections else v.

Definition overrideGroup (name : QString) (g : GroupBy) : GroupBy :=
  if isEmpty name then g
  else let g' := groupByFromName name in if bool_decide (g' = GroupCount) then g else g'.

Definition overridePrefs (o : CliOptions) (p : Prefs) : Prefs :=
  set_pf_themeIdx (if isEmpty (cli_theme o) then pf_themeIdx p else themeIndexFor (cli_theme o) (pf_themeIdx p))
  (set_pf_pollMs (if (0 <? cli_pollMs o)%Z then clampZ (cli_pollMs o) 100 10000 else pf_pollMs p)
  (set_pf_view (overrideView (cli_view o) (pf_view p))
  (set_pf_groupBy (overrideGroup (cli_group o) (pf_groupBy p)) p))).

(** [main]: a poll interval that is no number or below 100 is taken as 1000,
    and passed on only if the option was given. *)
Definition cliPollMs (given : option QString) : Z :=
  match given with
  | Some text => match intOfText text with Some ms => if (ms <? 100)%Z then 1000%Z else ms | None => 1000%Z end
  | None => 0%Z
  end.

Definition startApp (s : SettingsStore) (o : CliOptions) (sourceLabel : QString) : TuiApp * list TuiEffect :=
  (update (onPrefs (fun p => overridePrefs o (loadSettings s p)))
   >>> (fun st => (st, [SetTheme (pf_themeIdx (ta_prefs st))]))
   >>> applyAggregatorSettings
   >>> (fun st => (st, [SetSmoothInterval (Z.max 100 (Z.quot (pf_pollMs (ta_prefs st)) 4)); StartSmoothTimer]))
   >>> requestRedraw) (newTuiApp sourceLabel).
End Variants.

(* ------------------------------------------------------------------ *)
(** ** Well-formed preferences *)

Definition fieldOf (v : View) (id : ColumnId) : Prop := id ∈ map col_id (overlayColumnsFor v).

#[global] Instance fieldOf_dec v id : Decision (fieldOf v id). Proof. unfold fieldOf. apply _. Defined.

Record prefs_ok (p : Prefs) : Prop := {
  po_iface : fieldOf ViewInterfaces (pf_ifaceSortField p);
  po_conn : fieldOf ViewConnections (pf_connSortField p);
  po_poll : (100 <= pf_pollMs p <= 10000)%Z;
  po_group : pf_groupBy p <> GroupCount;
  po_theme : (0 <= pf_themeIdx p < len builtinThemes)%Z;
}.

Lemma visualIndex_nonneg cols id : (0 <= visualIndexForColumn cols id)%Z <-> id ∈ map col_id cols.
Proof.
  unfold visualIndexForColumn. destruct (list_find _ cols) as [[i c]|] eqn:Ef.
  - apply list_find_Some in Ef as (Hc & Hid & _). split; [|lia]. intros _. apply list_elem_of_fmap. exists c. split; [done|].
    by eapply list_elem_of_lookup_2.
  - apply list_find_None in Ef. split; [lia|]. intros (c & -> & Hc)%list_elem_of_fmap. rewrite Forall_forall in Ef. by destruct (Ef c Hc).
Qed.

Lemma validField_ok v fallback id : fieldOf v fallback -> fieldOf v (validField v fallback id).
Proof.
  intros Hf. unfold validField. destruct (Z.ltb_spec (visualIndexForColumn (overlayColumnsFor v) id) 0); [done|].
  by apply visualIndex_nonneg.
Qed.

Lemma validField_id v fallback id : fieldOf v id -> validField v fallback id = id.
Proof.
  intros Hf. unfold validField. apply visualIndex_nonneg in Hf. destruct (Z.ltb_spec (visualIndexForColumn (overlayColumnsFor v) id) 0); [lia|done].
Qed.

Lemma clampZ_range v lo hi : (lo <= hi)%Z -> (lo <= clampZ v lo hi <= hi)%Z.
Proof. intros Hl. unfold clampZ. destruct (Z.ltb_spec v lo); [lia|]. destruct (Z.ltb_spec hi v); lia. Qed.

Lemma clampZ_id v lo hi : (lo <= v <= hi)%Z -> clampZ v lo hi = v.
Proof. intros Hl. unfold clampZ. destruct (Z.ltb_spec v lo); [lia|]. destruct (Z.ltb_spec hi v); lia. Qed.

Lemma themeIndexFor_range `{QtUnicode} name i : (0 <= i < len builtinThemes)%Z -> (0 <= themeIndexFor name i < len builtinThemes)%Z.
Proof.
  intros Hi. unfold themeIndexFor. destruct (list_find _ builtinThemes) as [[j t]|] eqn:Ef; [|done].
  apply list_find_Some in Ef as (Hj & _). apply lookup_lt_Some in Hj. unfold len. lia.
Qed.

Lemma defaultPrefs_ok : prefs_ok defaultPrefs.
Proof. split; cbn; try lia; try done; apply (bool_decide_unpack _); vm_compute; exact I. Qed.

Lemma column_token_roundtrip id fallback : columnIdFromToken (columnIdToken id) fallback = id.
Proof. by destruct id. Qed.

Lemma groupCode_roundtrip g : g <> GroupCount -> groupOfStored (groupCode g) = g.
Proof. by destruct g. Qed.

(** Membership in a literal list. *)
Ltac list_mem := solve [unfold savedEntries; repeat first [by left | right]].

Section Loading.
Context `{QtUnicode, QtIntText}.

Lemma loadSettings_ok s p : prefs_ok p -> prefs_ok (loadSettings s p).
Proof.
  intros [Hi Hc Hp Hg Ht]. split; cbn [loadSettings pf_ifaceSortField pf_connSortField pf_pollMs pf_groupBy pf_themeIdx].
  - apply validField_ok. apply (bool_decide_unpack _). vm_compute. exact I.
  - apply validField_ok. apply (bool_decide_unpack _). vm_compute. exact I.
  - by apply clampZ_range.
  - unfold groupOfStored. destruct (Z.leb_spec 0 (intAt s "groupBy" (groupCode (pf_groupBy p)))); cbn [andb]; [|done].
    destruct (Z.ltb_spec (intAt s "groupBy" (groupCode (pf_groupBy p))) 4); [|done].
    assert (Hcase : (intAt s "groupBy" (groupCode (pf_groupBy p)) ∈ [0; 1; 2; 3])%Z).
    { rewrite !elem_of_cons. lia. }
    repeat (apply elem_of_cons in Hcase as [->|Hcase]; [done|]). by apply elem_of_nil in Hcase.
  - destruct (isEmpty _); [done|by apply themeIndexFor_range].
Qed.

Lemma overridePrefs_ok o p : prefs_ok p -> prefs_ok (overridePrefs o p).
Proof.
  intros [Hi Hc Hp Hg Ht]. split; cbn; try done.
  - destruct (0 <? cli_pollMs o)%Z; [by apply clampZ_range|done].
  - unfold overrideGroup. destruct (isEmpty _); [done|]. by case_bool_decide.
  - destruct (isEmpty _); [done|by apply themeIndexFor_range].
Qed.

(** Whatever the settings file and the command line hold, start-up ends with
    sort fields of their views, a poll interval within 100 ms and 10 s, a
    grouping mode and a theme that exist. *)
Theorem start_prefs_ok s o label : prefs_ok (ta_prefs (fst (startApp s o label))).
Proof. apply overridePrefs_ok, loadSettings_ok, defaultPrefs_ok. Qed.

Context `{!QtUnicodeLaws, !QtIntTextLaws}.

Lemma toBool_stored b : toBool (stored (SBool b)) = b.
Proof. cbn [stored toBool]. rewrite toLower_ascii by (destruct b; by repeat constructor). by destruct b. Qed.

Lemma toInt_stored z : (- 2147483648 <= z <= int32_max)%Z -> toInt (stored (SInt z)) = z.
Proof. intros Hz. cbn [stored toInt]. by rewrite intOfText_number. Qed.

Lemma themeIndexFor_name i t : builtinThemes !! i = Some t -> themeIndexFor (th_name t) 0 = Z.of_nat i /\ forall c, themeIndexFor (th_name t) c = Z.of_nat i.
Proof.
  intros Hi. enough (Hc : forall c, themeIndexFor (th_name t) c = Z.of_nat i) by (by split).
  intros c. unfold themeIndexFor. assert (Hf : list_find (fun t' => equalsCI (th_name t') (th_name t) = true) builtinThemes = Some (i, t)); [|by rewrite Hf].
  apply list_find_Some. split; [done|]. unfold equalsCI. split; [by apply qeqb_eq|].
  assert (Ha : forall t', t' ∈ builtinThemes -> foldCase (th_name t') = th_name t').
  { intros t' Hin. rewrite foldCase_ascii; unfold builtinThemes in Hin;
      repeat (apply elem_of_cons in Hin as [->|Hin]; [vm_compute; by repeat constructor|]); by apply elem_of_nil in Hin. }
  intros j t' Hj Hji. rewrite !Ha by (by eapply list_elem_of_lookup_2). rewrite qeqb_eq. intros He.
  destruct i as [|[|[|[|i]]]]; [| | | |done]; injection Hi as <-; destruct j as [|[|[|[|j]]]]; try lia; injection Hj as <-; discriminate He.
Qed.

(** The file holds what was written, whatever it held before. *)
Lemma written_lookup p s k v :
  (k, v) ∈ savedEntries p -> (stored <$> writeSettings p s) !! k = Some (stored v).
Proof.
  intros Hin. rewrite lookup_fmap.
  assert (Hd : NoDup (map fst (savedEntries p))) by (apply (bool_decide_unpack _); vm_compute; exact I).
  exact (f_equal (fmap stored) (foldl_insert_lookup (savedEntries p) s k v Hd Hin)).
Qed.

Lemma int_written p s k z dflt :
  (qs k, SInt z) ∈ savedEntries p -> (- 2147483648 <= z <= int32_max)%Z -> intAt (stored <$> writeSettings p s) k dflt = z.
Proof. intros Hin Hz. unfold intAt. rewrite (written_lookup p s (qs k) _ Hin). by apply toInt_stored. Qed.

Lemma bool_written p s k b dflt : (qs k, SBool b) ∈ savedEntries p -> boolAt (stored <$> writeSettings p s) k dflt = b.
Proof. intros Hin. unfold boolAt. rewrite (written_lookup p s (qs k) _ Hin). apply toBool_stored. Qed.

Lemma string_written p s k t dflt : (qs k, SStr t) ∈ savedEntries p -> stringAt (stored <$> writeSettings p s) k dflt = t.
Proof. intros Hin. unfold stringAt. by rewrite (written_lookup p s (qs k) _ Hin). Qed.

(** Preferences survive a restart: saved into any settings file (one with
    values of an older version included) and read back as text, they come out
    as they were, whatever the defaults are. *)
Theorem settings_roundtrip p s p0 : prefs_ok p -> loadSettings (stored <$> writeSettings p s) p0 = p.
Proof.
  intros [Hi Hc Hp Hg Ht]. unfold loadSettings, sortFieldAt.
  rewrite (int_written p s "view" (viewCode (pf_view p))) by (list_mem || (unfold int32_max; destruct (pf_view p); cbn; lia)).
  rewrite (string_written p s "ifaceSortField" (columnIdToken (pf_ifaceSortField p))) by list_mem.
  rewrite (string_written p s "connSortField" (columnIdToken (pf_connSortField p))) by list_mem.
  rewrite !column_token_roundtrip, !validField_id by done.
  rewrite (bool_written p s "ifaceSortDesc" (pf_ifaceSortDesc p)), (bool_written p s "connSortDesc" (pf_connSortDesc p)),
    (bool_written p s "gauge" (pf_gauge p)), (bool_written p s "dns" (pf_dns p)), (bool_written p s "udpAggregate" (pf_udpAggregate p)),
    (bool_written p s "smoothing" (pf_smoothing p)), (bool_written p s "directionColors" (pf_directionColors p)),
    (bool_written p s "sortWithinGroups" (pf_sortWithinGroups p)), (bool_written p s "showProcessColumn" (pf_showProcess p)),
    (bool_written p s "showContainerColumn" (pf_showContainer p)) by list_mem.
  rewrite (int_written p s "pollMs" (pf_pollMs p)) by (list_mem || (unfold int32_max; lia)). rewrite clampZ_id by done.
  rewrite (string_written p s "attributionEagerness" (pf_eagerness p)) by list_mem.
  rewrite (int_written p s "groupBy" (groupCode (pf_groupBy p))) by (list_mem || (unfold int32_max; destruct (pf_groupBy p); cbn; lia)).
  rewrite groupCode_roundtrip by done.
  destruct (builtinThemes !! Z.to_nat (pf_themeIdx p)) as [t|] eqn:Et; [|apply lookup_ge_None in Et; unfold len in Ht; lia].
  rewrite (string_written p s "theme" (th_name t)) by (unfold savedEntries; rewrite Et; list_mem).
  assert (Hne : isEmpty (th_name t) = false).
  { apply list_elem_of_lookup_2 in Et. unfold builtinThemes in Et.
    repeat (apply elem_of_cons in Et as [->|Et]; [done|]). by apply elem_of_nil in Et. }
  rewrite Hne. destruct (themeIndexFor_name _ _ Et) as [_ ->]. rewrite Z2Nat.id by lia. by destruct p as [[]].
Qed.
End Loading.

Definition samplePrefs : Prefs :=
  set_pf_groupBy GroupProcess (set_pf_connSortField ColContainer (set_pf_themeIdx 2 (set_pf_pollMs 250 defaultPrefs))).

Lemma settings_roundtrip_witness :
  loadSettings (stored <$> writeSettings samplePrefs {[ qs "connSortCol" := SInt 3 ]}) defaultPrefs = samplePrefs.
Proof.
  apply settings_roundtrip. split; cbn; try lia; try done; apply (bool_decide_unpack _); vm_compute; exact I.
Defined.
