(* ===== verification/TuiProofs.v ===== *)
(** * Terminal frontend: frames

    What [buildFrame] gives: parallel lists of one length, a cell per column in
    every visible row, a cursor that rests on a row and a viewport around it,
    so that the screen paints the row under the cursor. *)

From S2P Require Import Prelude StdAlgo Qt Conn DbusTypes Filter UdpAgg Aggregator IfaceAgg.
From S2P Require Import Units Export TuiFormat TuiScreen TuiState TuiControl TuiFrame TuiPrefs.

(* ------------------------------------------------------------------ *)
(** ** The viewport *)

Lemma refAt_lookup refs i : (0 <= i)%Z -> refAt refs i = refs !! Z.to_nat i.
Proof. intros Hi. unfold refAt. destruct (Z.ltb_spec i 0); [lia|done]. Qed.

Lemma selectableAt_all refs i :
  Forall (fun r => rr_selectable r = true) refs -> (0 <= i < len refs)%Z -> selectableAt refs i = true.
Proof.
  intros Hs Hi. unfold selectableAt. rewrite refAt_lookup by lia. unfold len in Hi.
  destruct (lookup_lt_is_Some_2 refs (Z.to_nat i)) as [r Hr]; [lia|]. rewrite Hr. rewrite Forall_lookup in Hs. by eapply Hs.
Qed.

(** The viewport follows the cursor: within the list, around the cursor, and
    with the last line spared when it will announce more rows below. *)
Lemma followScroll_spec body total cursor scroll :
  (0 < body)%Z -> (0 <= cursor < total)%Z ->
  let s := followScroll body total cursor scroll in
  (0 <= s <= Z.max 0 (total - body))%Z /\ (s <= cursor < s + body)%Z /\ (1 < body -> s + body < total -> cursor < s + body - 1)%Z.
Proof.
  intros Hb Hc. cbn zeta. unfold followScroll. destruct (Z.ltb_spec 0 body); [|lia].
  set (s0 := if (cursor <? scroll)%Z then _ else _).
  assert (Hs0 : (s0 <= cursor < s0 + body)%Z).
  { unfold s0. destruct (Z.ltb_spec cursor scroll); [lia|]. destruct (Z.leb_spec (scroll + body) cursor); lia. }
  set (top := Z.max 0 (total - body)).
  pose proof (clampZ_range s0 0 top ltac:(lia)) as Hr.
  assert (Hin : (clampZ s0 0 top <= cursor < clampZ s0 0 top + body)%Z).
  { unfold clampZ in *. destruct (Z.ltb_spec s0 0); [lia|]. destruct (Z.ltb_spec top s0); lia. }
  set (s1 := clampZ s0 0 top) in *.
  destruct (Z.ltb_spec 1 body) as [H1|H1]; cbn [andb]; [|lia].
  destruct (Z.ltb_spec (s1 + body) total) as [H2|H2]; cbn [andb]; [|lia].
  destruct (Z.leb_spec (s1 + body - 1) cursor) as [H3|H3]; [|lia].
  unfold clampZ. destruct (Z.ltb_spec (cursor - body + 2) 0); [lia|]. destruct (Z.ltb_spec top (cursor - body + 2)); lia.
Qed.

Lemma snapToTarget_range target refs cursor :
  snapToTarget target refs cursor = cursor \/ (0 <= snapToTarget target refs cursor < len refs)%Z.
Proof.
  unfold snapToTarget. destruct target as [gk|]; [|by left]. destruct (list_find _ refs) as [[i r]|] eqn:Ef; [|by left].
  right. apply list_find_Some in Ef as (Hi & _). apply lookup_lt_Some in Hi. unfold len. lia.
Qed.

Lemma snapToSelectable_all refs cursor :
  Forall (fun r => rr_selectable r = true) refs -> (0 <= cursor < len refs)%Z -> snapToSelectable refs cursor = cursor.
Proof. intros Hs Hc. unfold snapToSelectable. by rewrite selectableAt_all. Qed.

(** What [placeCursor] promises of the cursor and the scroll offset. *)
Definition placed (body : Z) (n cursor scroll shown : Z) : Prop :=
  if (n <=? 0)%Z then (cursor = 0 /\ scroll = 0 /\ shown = -1)%Z
  else (0 <= cursor < n)%Z /\ shown = cursor /\
       ((0 < body)%Z -> (0 <= scroll <= Z.max 0 (n - body))%Z /\ (scroll <= cursor < scroll + body)%Z /\
                        (1 < body -> scroll + body < n -> cursor < scroll + body - 1)%Z).

Lemma placeCursor_spec body target refs cursor scroll :
  Forall (fun r => rr_selectable r = true) refs ->
  let '(c, s, shown) := placeCursor body target refs cursor scroll in placed body (len refs) c s shown.
Proof.
  intros Hs. unfold placeCursor, placed. destruct (Z.leb_spec (len refs) 0); [done|].
  set (c0 := snapToTarget target refs cursor).
  pose proof (clampZ_range c0 0 (len refs - 1) ltac:(lia)) as Hc.
  rewrite snapToSelectable_all by (done || lia). split; [lia|]. split; [done|]. intros Hb. apply followScroll_spec; lia.
Qed.

(* ------------------------------------------------------------------ *)
(** ** Buckets *)

Section Plan.
Context `{QtNumberText, QtUnicode, QtAddrText, QtRegex, QtToDouble, StdStableSort, CMath}.
Context (dnsCachedName : nat -> QHostAddress -> QString) (undefinedRate : QString).

Lemma planGroups_forall (P : DispRow -> Prop) env st columns matched :
  (forall rows b gs, Forall P (groupDisp undefinedRate env st columns rows b gs)) ->
  Forall P (planGroups undefinedRate env st columns matched).
Proof.
  intros Hg. unfold planGroups. apply Forall_concat, Forall_map, Forall_forall. intros oi _.
  destruct (_ !! oi) as [b|]; [|done]. destruct (_ !! oi) as [gs|]; [|done]. apply Hg.
Qed.

Lemma plan_forall (P : DispRow -> Prop) env st :
  (forall i, Forall P (ifaceDisp (shownIfaceRows env st) i)) ->
  (forall s colours rows g i, P (flowDisp s colours rows g i)) ->
  (forall rows b gs, Forall P (groupDisp undefinedRate env st (frameColumns st) rows b gs)) ->
  Forall P (plan dnsCachedName undefinedRate env st).
Proof.
  intros Hi Hf Hg. unfold plan. destruct (onInterfaces st).
  - unfold planInterfaces. apply Forall_concat, Forall_map, Forall_forall. auto.
  - unfold planConnections. case_bool_decide; [|by apply planGroups_forall]. apply Forall_map, Forall_forall. auto.
Qed.

Lemma plan_selectable env st : Forall (fun r => rr_selectable r = true) (map dr_ref (plan dnsCachedName undefinedRate env st)).
Proof.
  apply Forall_map. apply (plan_forall (fun d => rr_selectable (dr_ref d) = true)).
  - intros i. unfold ifaceDisp. destruct (_ !! i); by repeat constructor.
  - done.
  - intros rows [k m] gs. unfold groupDisp. constructor; [done|]. destruct (isCollapsed k st); [done|]. apply Forall_map, Forall_forall. done.
Qed.

Lemma length_frameColumns st : length (frameColumns st) = length (activeColumns st).
Proof. unfold frameColumns. destruct (activeColumns st); [done|]. by destruct (grouped st). Qed.

Lemma indentCells_length b cells : length (indentCells b cells) = length cells.
Proof. destruct cells; [done|]. by destruct b. Qed.

(** A row of the plan formats to one cell per column. *)
Lemma formatRow_cells env st :
  Forall (fun d => length (formatRow dnsCachedName undefinedRate env st (frameColumns st) d) = length (frameColumns st))
    (plan dnsCachedName undefinedRate env st).
Proof.
  unfold plan. destruct (onInterfaces st) eqn:Ev.
  - assert (Hcols : length (frameColumns st) = 8).
    { rewrite length_frameColumns. unfold activeColumns. unfold onInterfaces, isView in Ev. apply bool_decide_eq_true in Ev. by rewrite Ev. }
    unfold planInterfaces. apply Forall_concat, Forall_map, Forall_forall. intros i _. unfold ifaceDisp.
    destruct (shownIfaceRows env st !! i) as [r|] eqn:Er; [|done]. constructor; [|done].
    unfold formatRow. cbn [dr_src dr_indent]. rewrite Ev, Er, indentCells_length. by rewrite Hcols.
  - assert (Hflow : forall s colours rows g i,
      length (formatRow dnsCachedName undefinedRate env st (frameColumns st) (flowDisp s colours rows g i)) = length (frameColumns st)).
    { intros. unfold formatRow. cbn [dr_src flowDisp dr_indent]. rewrite Ev, indentCells_length. apply length_map. }
    unfold planConnections. case_bool_decide; [apply Forall_map, Forall_forall; auto|].
    apply planGroups_forall. intros rows [k m] gs. unfold groupDisp. constructor; [apply length_map|].
    destruct (isCollapsed k st); [done|]. apply Forall_map, Forall_forall. intros i _. apply Hflow.
Qed.

(** Row [i] is in the part of the list the viewport shows. *)
Definition inViewport (body scroll : Z) (i : nat) : Prop := (body <= 0)%Z \/ (scroll <= Z.of_nat i < scroll + body)%Z.

Lemma formatVisible_lookup env st columns body scroll rows i d :
  rows !! i = Some d -> inViewport body scroll i ->
  formatVisible dnsCachedName undefinedRate env st columns body scroll rows !! i =
  Some (formatRow dnsCachedName undefinedRate env st columns d).
Proof.
  intros Hd Hv. unfold formatVisible. rewrite list_lookup_imap, Hd. cbn [fmap option_fmap option_map]. f_equal.
  apply lookup_lt_Some in Hd. unfold inViewport in Hv. unfold len.
  destruct (Z.ltb_spec 0 body).
  - destruct (Z.ltb_spec (Z.of_nat i) (Z.max 0 scroll)); [lia|]. destruct (Z.leb_spec (Z.min (Z.of_nat (length rows)) (scroll + body)) (Z.of_nat i)); [lia|done].
  - destruct (Z.ltb_spec (Z.of_nat i) 0); [lia|]. destruct (Z.leb_spec (Z.of_nat (length rows)) (Z.of_nat i)); [lia|done].
Qed.

(** A frame is consistent: rows, roles and row references are one list's
    images, the gauge is off or has an entry per row; every row in the
    viewport has exactly the cells that formatting all rows would give it, one
    per column; the cursor rests on a row and the viewport contains it. *)
Lemma frame_shape env about st :
  let '(f, st') := buildFrame dnsCachedName undefinedRate env about st in
  let rows := plan dnsCachedName undefinedRate env st in
  let body := bodyHeight (te_rows env) in
  length (f_rows f) = length rows /\ f_rowRoles f = map dr_role rows /\ nv_rowRefs (ta_nav st') = map dr_ref rows /\
  (f_rowGauge f = [] \/ length (f_rowGauge f) = length rows) /\
  (forall i d, rows !! i = Some d -> inViewport body (f_scrollOffset f) i ->
     f_rows f !! i = Some (formatRow dnsCachedName undefinedRate env st (f_columns f) d) /\
     length (formatRow dnsCachedName undefinedRate env st (f_columns f) d) = length (f_columns f)) /\
  placed body (len rows) (currentCursor st') (f_scrollOffset f) (f_cursor f).
Proof.
  unfold buildFrame. set (rows := plan dnsCachedName undefinedRate env st).
  pose proof (placeCursor_spec (bodyHeight (te_rows env)) (nv_target (ta_nav st)) (map dr_ref rows) (currentCursor st) (currentScroll st)
    (plan_selectable env st)) as Hp.
  destruct (placeCursor _ _ _ _ _) as [[cursor scroll] shown]. destruct (footerOf st) as [footer hints].
  cbn [f_rows f_rowRoles f_rowGauge f_scrollOffset f_columns f_cursor].
  split; [unfold formatVisible; apply length_imap|]. split; [done|].
  split; [unfold onNav; cbn; done|].
  split; [destruct (pf_gauge (ta_prefs st)); [right; apply length_map|by left]|].
  split.
  { intros i d Hd Hv. split; [by apply formatVisible_lookup|].
    pose proof (formatRow_cells env st) as Hc. rewrite Forall_lookup in Hc. exact (Hc i d Hd). }
  assert (Hcur : currentCursor (onNav (fun n => set_nv_target None (set_nv_rowRefs (map dr_ref rows) n))
      (setCurrentScroll scroll (setCurrentCursor cursor st))) = cursor).
  { unfold setCurrentScroll, setCurrentCursor, currentCursor, onInterfaces, isView.
    destruct (bool_decide (pf_view (ta_prefs st) = ViewInterfaces)) eqn:E1; cbn;
      rewrite E1; cbn; rewrite E1; done. }
  rewrite Hcur. unfold len in Hp. by rewrite length_map in Hp.
Qed.

Lemma bodyRow_drawn o f width height i :
  (1 <= width)%Z -> (3 <= height)%Z -> (0 <= i < shownRows f (bodyHeight height))%Z ->
  forall d, d ∈ bodyRow o f width i -> d ∈ render o f width height.
Proof.
  intros Hw Hh Hi d Hd. unfold render. destruct (Z.ltb_spec width 1); [lia|]. destruct (Z.ltb_spec height 3); [lia|]. cbn [orb].
  rewrite !elem_of_app. right. right. right. left. unfold bodyPuts. rewrite elem_of_app. left.
  apply list_elem_of_In, in_concat. exists (bodyRow o f width i). split; [|by apply list_elem_of_In].
  apply in_map_iff. exists (Z.to_nat i). rewrite Z2Nat.id by lia. split; [done|]. apply in_seq. lia.
Qed.

(** C40. The row under the cursor is always painted, in full and in its role's
    colours: on any terminal with room for a row, whatever the list, the
    scroll position and the key that moved the cursor. *)
Theorem cursor_row_drawn o env about st width :
  (1 <= width)%Z -> (4 <= te_rows env)%Z -> plan dnsCachedName undefinedRate env st <> [] ->
  let '(f, st') := buildFrame dnsCachedName undefinedRate env about st in
  exists d y, plan dnsCachedName undefinedRate env st !! Z.to_nat (currentCursor st') = Some d /\
    (3 <= y < te_rows env)%Z /\
    Put y 0 (rowText f width (formatRow dnsCachedName undefinedRate env st (f_columns f) d)) (dr_role d)
      ∈ render o f width (te_rows env).
Proof.
  intros Hw Hr Hne. pose proof (frame_shape env about st) as Hf.
  destruct (buildFrame dnsCachedName undefinedRate env about st) as [f st'].
  set (rows := plan dnsCachedName undefinedRate env st) in *. cbn zeta in Hf. destruct Hf as (Hn & Hroles & _ & _ & Hcells & Hp).
  set (body := bodyHeight (te_rows env)) in *.
  assert (Hb : body = (te_rows env - 3)%Z) by (unfold body, bodyHeight; destruct (Z.ltb_spec 0 (te_rows env - 3)); lia).
  unfold placed in Hp. assert (Hl : (0 < len rows)%Z) by (unfold len; destruct rows; [done|cbn; lia]).
  destruct (Z.leb_spec (len rows) 0); [lia|]. destruct Hp as (Hc & Hshown & Hp). destruct Hp as (Hs & Hin & Hmore); [lia|].
  set (c := currentCursor st') in *. destruct (lookup_lt_is_Some_2 rows (Z.to_nat c)) as [d Hd]; [unfold len in Hc; lia|].
  exists d, (3 + (c - f_scrollOffset f))%Z. split; [done|]. split; [lia|].
  destruct (Hcells (Z.to_nat c) d Hd) as [Hrow _]; [right; lia|].
  apply (bodyRow_drawn o f width (te_rows env) (c - f_scrollOffset f)); [lia|lia| |].
  - fold body. assert (Hlen : len (f_rows f) = len rows) by (unfold len; by rewrite Hn).
    unfold shownRows, dataLines, showMore. rewrite Hlen. destruct (Z.ltb_spec 1 body); cbn [andb]; [|lia].
    destruct (Z.ltb_spec (f_scrollOffset f + body) (len rows)); lia.
  - unfold bodyRow. replace (f_scrollOffset f + (c - f_scrollOffset f))%Z with c by lia.
    rewrite Hrow, Hroles, list_lookup_fmap, Hd. left.
Qed.
End Plan.
