(* ===== verification/TuiGroups.v ===== *)
(** * Terminal frontend: grouping

    Every displayed flow is in exactly one group, and with sorting kept within
    groups the order of the groups does not depend on how rows are sorted. *)

From S2P Require Import Prelude StdAlgo Qt Conn DbusTypes Filter UdpAgg Aggregator IfaceAgg.
From S2P Require Import Units Export TuiFormat TuiScreen TuiState TuiControl TuiFrame.

Lemma filter_none {A} (P : A -> Prop) `{forall x, Decision (P x)} (l : list A) : Forall (fun x => ~ P x) l -> filter P l = [].
Proof. induction 1; [done|]. by rewrite filter_cons_False. Qed.

Section Buckets.
Context (g : GroupBy) (rows : list Row).

Definition keyOfRow (i : nat) : QString := tuiGroupKeyFor g (r_current (rowAtIdx rows i)).

(** What the buckets of the rows seen so far are. *)
Record buckets_ok (seen : list nat) (bs : list (QString * list nat)) : Prop := {
  bo_nodup : NoDup (map fst bs);
  bo_members : forall k m, (k, m) ∈ bs -> m = filter (fun i => keyOfRow i = k) seen /\ m <> [];
  bo_keys : forall i, i ∈ seen -> keyOfRow i ∈ map fst bs;
}.

Lemma addToBucket_keys k i bs :
  map fst (addToBucket k i bs) = if bool_decide (k ∈ map fst bs) then map fst bs else map fst bs ++ [k].
Proof.
  induction bs as [|[k' m] bs IH]; cbn [addToBucket map fst]; [done|].
  destruct (qeqb k' k) eqn:E.
  - apply qeqb_eq in E as ->. cbn [map fst]. by rewrite bool_decide_eq_true_2 by left.
  - apply qeqb_neq in E. cbn [map fst]. rewrite IH. destruct (decide (k ∈ map fst bs)) as [Hk|Hk].
    + rewrite (bool_decide_eq_true_2 _ Hk). by rewrite bool_decide_eq_true_2 by (by right).
    + rewrite (bool_decide_eq_false_2 _ Hk). rewrite bool_decide_eq_false_2; [done|]. rewrite elem_of_cons. naive_solver.
Qed.

Lemma addToBucket_elem k i bs k' m :
  (k', m) ∈ addToBucket k i bs ->
  (k' <> k /\ (k', m) ∈ bs) \/ (k' = k /\ exists m0, m = m0 ++ [i] /\ ((k, m0) ∈ bs \/ (m0 = [] /\ k ∉ map fst bs))) \/ (k', m) ∈ bs /\ k ∈ map fst bs /\ k' = k /\ ~ NoDup (map fst bs).
Proof.
  induction bs as [|[k1 m1] bs IH]; cbn [addToBucket map fst].
  - intros [[= -> ->]|Hin]%elem_of_cons; [|by apply elem_of_nil in Hin]. right. left. split; [done|]. exists []. split; [done|]. right. split; [done|]. apply not_elem_of_nil.
  - destruct (qeqb k1 k) eqn:E.
    + apply qeqb_eq in E as ->. intros [[= -> ->]|Hin]%elem_of_cons.
      * right. left. split; [done|]. exists m1. split; [done|]. left. left.
      * destruct (decide (k' = k)) as [->|Hne]; [|left; split; [done|by right]].
        right. right. split; [by right|]. split; [left|]. split; [done|]. intros Hd. apply NoDup_cons in Hd as [Hk _].
        apply Hk, list_elem_of_fmap. by exists (k, m).
    + apply qeqb_neq in E. intros [[= -> ->]|Hin]%elem_of_cons; [left; split; [done|left]|].
      destruct (IH Hin) as [[Hne Hb]|[(-> & m0 & -> & Hm)|(Hb & Hk & -> & Hd)]].
      * left. split; [done|by right].
      * right. left. split; [done|]. exists m0. split; [done|]. destruct Hm as [Hb|[-> Hk]]; [left; by right|].
        right. split; [done|]. apply not_elem_of_cons. split; [by apply not_eq_sym|done].
      * right. right. split; [by right|]. split; [by right|]. split; [done|]. intros Hd'. apply Hd. by apply NoDup_cons in Hd' as [_ ?].
Qed.

Lemma addToBucket_ok seen bs i :
  buckets_ok seen bs -> buckets_ok (seen ++ [i]) (addToBucket (keyOfRow i) i bs).
Proof.
  intros [Hd Hm Hk]. split.
  - rewrite addToBucket_keys. destruct (decide (keyOfRow i ∈ map fst bs)) as [Hi|Hi].
    + by rewrite (bool_decide_eq_true_2 _ Hi).
    + rewrite (bool_decide_eq_false_2 _ Hi). apply NoDup_app. split; [done|]. split; [|apply NoDup_singleton].
      intros x Hx ->%list_elem_of_singleton. done.
  - intros k m Hin. rewrite filter_app. destruct (addToBucket_elem _ _ _ _ _ Hin) as [[Hne Hb]|[(-> & m0 & -> & Hm0)|(_ & _ & _ & Hn)]]; [| |done].
    + destruct (Hm k m Hb) as [-> He]. rewrite (filter_cons_False _ i []) by congruence. by rewrite app_nil_r.
    + rewrite (filter_cons_True _ i []) by done. split; [|by destruct m0]. f_equal. destruct Hm0 as [Hb|[-> Hnk]]; [by apply Hm|].
      symmetry. apply filter_none, Forall_forall. intros j Hj He. apply Hnk. rewrite <- He. by apply Hk.
  - intros j Hj. rewrite addToBucket_keys. apply elem_of_app in Hj as [Hj|Hj%list_elem_of_singleton]; [|subst j]; case_bool_decide; rewrite ?elem_of_app, ?list_elem_of_singleton; auto.
Qed.

Lemma bucketRows_ok matched : buckets_ok matched (bucketRows g rows matched).
Proof.
  unfold bucketRows. change matched with ([] ++ matched) at 1.
  assert (H0 : buckets_ok [] []) by (split; [constructor|intros k m Hin; by apply elem_of_nil in Hin|intros i Hi; by apply elem_of_nil in Hi]).
  revert H0. generalize (@nil (QString * list nat)) as bs. generalize (@nil nat) as seen.
  induction matched as [|i matched IH]; intros seen bs Hb; cbn [foldl]; [by rewrite app_nil_r|].
  change (i :: matched) with ([i] ++ matched). rewrite app_assoc. apply IH. by apply addToBucket_ok.
Qed.

(** The smallest source position of each group. *)
Definition minOf (m : list nat) : nat := foldl Nat.min (List.hd 0 m) m.

Lemma foldl_min a m : foldl Nat.min a m <= a /\ (forall x, x ∈ m -> foldl Nat.min a m <= x) /\ (foldl Nat.min a m = a \/ foldl Nat.min a m ∈ m).
Proof.
  revert a. induction m as [|y m IH]; intros a; cbn [foldl].
  - split; [lia|]. split; [intros x Hx; by apply elem_of_nil in Hx|by left].
  - destruct (IH (Nat.min a y)) as (H1 & H2 & H3). split; [lia|]. split.
    + intros x [->|Hx]%elem_of_cons; [lia|auto].
    + destruct H3 as [->|H3]; [|right; by right]. destruct (Nat.min_spec a y) as [[_ ->]|[_ ->]]; [by left|right; by left].
Qed.

Lemma minOf_spec m : m <> [] -> minOf m ∈ m /\ forall x, x ∈ m -> minOf m <= x.
Proof.
  destruct m as [|y m]; [done|]. intros _. unfold minOf. cbn [List.hd].
  destruct (foldl_min y (y :: m)) as (_ & H2 & [H3|H3]); [rewrite H3 in *|]; split; auto; left.
Qed.

Definition minSrcs (matched : list nat) : list nat := map (fun b => minOf (snd b)) (bucketRows g rows matched).

Lemma minSrcs_elem matched x :
  x ∈ minSrcs matched <-> x ∈ matched /\ forall j, j ∈ matched -> keyOfRow j = keyOfRow x -> x <= j.
Proof.
  destruct (bucketRows_ok matched) as [Hd Hm Hk]. unfold minSrcs. rewrite list_elem_of_fmap. split.
  - intros ([k m] & -> & Hb). cbn [snd]. destruct (Hm k m Hb) as [-> Hne]. destruct (minOf_spec _ Hne) as [Hin Hle].
    set (x := minOf _) in *. apply list_elem_of_filter in Hin as [Hkx Hx]. split; [done|]. intros j Hj Hkj. apply Hle.
    apply list_elem_of_filter. split; congruence.
  - intros [Hx Hle]. pose proof (Hk x Hx) as Hin. apply list_elem_of_fmap in Hin as ([k m] & Hkx & Hb). exists (k, m). split; [|done].
    cbn [fst snd] in *. destruct (Hm k m Hb) as [-> Hne]. destruct (minOf_spec _ Hne) as [Hin Hmin].
    set (y := minOf _) in *. apply list_elem_of_filter in Hin as [Hky Hy]. apply Nat.le_antisymm; [apply Hle; [done|congruence]|].
    apply Hmin, list_elem_of_filter. by rewrite Hkx.
Qed.

(** A group's key is the key of its first row. *)
Lemma minSrc_key matched k m : (k, m) ∈ bucketRows g rows matched -> keyOfRow (minOf m) = k.
Proof.
  intros Hb. destruct (bo_members _ _ (bucketRows_ok matched) k m Hb) as [-> Hne].
  destruct (minOf_spec _ Hne) as [Hin _]. by apply list_elem_of_filter in Hin as [? _].
Qed.

Lemma minSrcs_NoDup matched : NoDup (minSrcs matched).
Proof.
  pose proof (bo_nodup _ _ (bucketRows_ok matched)) as Hd. unfold minSrcs.
  assert (He : map fst (bucketRows g rows matched) = map keyOfRow (map (fun b => minOf (snd b)) (bucketRows g rows matched))).
  { rewrite map_map. apply map_ext_in. intros [k m] Hin. symmetry. apply (minSrc_key matched). by apply list_elem_of_In. }
  rewrite He in Hd. by apply NoDup_fmap_1 in Hd.
Qed.

Lemma minSrcs_perm m1 m2 : m1 ≡ₚ m2 -> minSrcs m1 ≡ₚ minSrcs m2.
Proof.
  intros Hp. apply NoDup_Permutation; [apply minSrcs_NoDup..|]. intros x. rewrite !minSrcs_elem. by setoid_rewrite Hp.
Qed.

(** Every displayed row is in exactly one group. *)
Lemma buckets_partition matched : concat (map snd (bucketRows g rows matched)) ≡ₚ matched.
Proof.
  unfold bucketRows. change matched with ([] ++ matched) at 2.
  assert (H0 : concat (map snd ([] : list (QString * list nat))) ≡ₚ ([] : list nat)) by done.
  revert H0. generalize (@nil (QString * list nat)) as bs. generalize (@nil nat) as seen.
  induction matched as [|i matched IH]; intros seen bs Hb; cbn [foldl]; [by rewrite app_nil_r|].
  change (i :: matched) with ([i] ++ matched). rewrite app_assoc. apply IH. rewrite <- Hb. generalize (tuiGroupKeyFor g (r_current (rowAtIdx rows i))) as k. clear.
  intros k. induction bs as [|[k' m] bs IH]; cbn [addToBucket map snd concat]; [done|].
  destruct (qeqb k' k); cbn [map snd concat]; [by rewrite <- !app_assoc, (Permutation_app_comm [i])|]. by rewrite IH, app_assoc.
Qed.

Section Order.
Context `{QtUnicode, StdStableSortLaws}.

(** The keys of the groups in display order. *)
Definition groupOrder (matched : list nat) (field : ColumnId) (desc within : bool) : list QString :=
  let buckets := bucketRows g rows matched in
  omap (fun oi => fst <$> buckets !! oi)
    (orderedGroupIndices (map (fun b => summaryOf g rows (snd b)) buckets) field desc within).

Lemma swo_minSrc P : swo_on minSrcLess P.
Proof.
  apply swo_swo_on. unfold minSrcLess. split; intros *; rewrite ?Nat.ltb_lt; try lia. apply Nat.ltb_irrefl.
Qed.

Lemma omap_index {A B} (l : list A) (f : A -> B) (idx : list nat) :
  Forall (fun i => i < length l) idx -> omap (fun i => f <$> l !! i) idx = map f (omap (fun i => l !! i) idx).
Proof.
  induction 1 as [|i idx Hi Hf IH]; [done|]. cbn [omap list_omap]. destruct (lookup_lt_is_Some_2 l i Hi) as [x Hx]. rewrite Hx. cbn. by f_equal.
Qed.

Lemma omap_seq_all {A} (l : list A) : omap (fun i => l !! i) (seq 0 (length l)) = l.
Proof.
  induction l as [|x l IH] using rev_ind; [done|]. rewrite length_app, Nat.add_1_r, seq_S, omap_app.
  rewrite (list_omap_ext _ (fun i => l !! i) _ (seq 0 (length l))).
  - rewrite IH. cbn. rewrite lookup_app_r by lia. by rewrite Nat.sub_diag.
  - apply Forall2_same_length_lookup. split; [done|]. intros j a b Ha Hb. rewrite Ha in Hb. injection Hb as <-.
    apply lookup_seq in Ha as [-> Hj]. by apply lookup_app_l.
Qed.

(** The groups' first positions, in display order, are sorted. *)
Lemma order_minSrcs matched field desc :
  let buckets := bucketRows g rows matched in
  let idx := orderedGroupIndices (map (fun b => summaryOf g rows (snd b)) buckets) field desc true in
  idx ≡ₚ seq 0 (length buckets) /\
  StronglySorted le (map (fun b => minOf (snd b)) (omap (fun i => buckets !! i) idx)).
Proof.
  cbn zeta. set (buckets := bucketRows g rows matched). unfold orderedGroupIndices. set (ss := map _ buckets).
  destruct (stable_indices minSrcLess ss (swo_minSrc _)) as [Hp Hs].
  assert (Hlen : length ss = length buckets) by apply length_map. rewrite Hlen in *. split; [done|].
  assert (Hin : Forall (fun i => i < length buckets) (stable_sort (atLess minSrcLess ss) (seq 0 (length buckets)))).
  { apply Forall_forall. intros i Hi. rewrite Hp in Hi. apply elem_of_seq in Hi. lia. }
  revert Hs Hin. generalize (stable_sort (atLess minSrcLess ss) (seq 0 (length buckets))) as idx. clear Hp.
  induction idx as [|i idx IH]; intros Hs Hin; [constructor|]. apply StronglySorted_inv in Hs as [Hs Hi]. apply Forall_cons in Hin as [Hib Hin].
  cbn [omap list_omap]. destruct (lookup_lt_is_Some_2 buckets i Hib) as [b Hb]. rewrite Hb. cbn [map]. constructor; [by apply IH|].
  apply Forall_forall. intros x Hx. apply list_elem_of_fmap in Hx as (b' & -> & Hb'). apply list_elem_of_omap in Hb' as (j & Hj & Hb').
  rewrite Forall_forall in Hi. specialize (Hi j Hj). unfold atLess, ss in Hi. rewrite !list_lookup_fmap, Hb, Hb' in Hi. cbn in Hi.
  unfold minSrcLess in Hi. cbn in Hi. apply Nat.ltb_ge in Hi. exact Hi.
Qed.

(** The order of the groups of the same flows is the same. *)
Lemma frozen_order m1 m2 f1 f2 d1 d2 :
  m1 ≡ₚ m2 -> groupOrder m1 f1 d1 true = groupOrder m2 f2 d2 true.
Proof.
  intros Hp.
  assert (Hkeys : forall m f d, exists ms, groupOrder m f d true = map keyOfRow ms /\ ms ≡ₚ minSrcs m /\ StronglySorted le ms).
  { intros m f d. destruct (order_minSrcs m f d) as [Hperm Hsort]. set (buckets := bucketRows g rows m) in *.
    set (idx := orderedGroupIndices _ f d true) in *.
    eexists. split; [|split; [|exact Hsort]].
    - unfold groupOrder. fold buckets. fold idx. rewrite omap_index.
      + rewrite map_map. apply map_ext_in. intros [k mem] Hin. symmetry. apply (minSrc_key m). apply list_elem_of_In in Hin.
        apply list_elem_of_omap in Hin as (j & _ & Hj). by eapply list_elem_of_lookup_2.
      + apply Forall_forall. intros i Hi. rewrite Hperm in Hi. apply elem_of_seq in Hi. lia.
    - unfold minSrcs. fold buckets. rewrite Hperm. by rewrite omap_seq_all. }
  destruct (Hkeys m1 f1 d1) as (s1 & -> & Hp1 & Hs1). destruct (Hkeys m2 f2 d2) as (s2 & -> & Hp2 & Hs2).
  f_equal. apply (StronglySorted_unique le); [done|done|]. by rewrite Hp1, Hp2, (minSrcs_perm m1 m2).
Qed.
End Order.
End Buckets.

Section Resort.
Context `{QtNumberText, QtUnicode, QtAddrText, QtRegex, QtToDouble, StdStableSortLaws, CMath}.
Context (dnsCachedName : nat -> QHostAddress -> QString) (undefinedRate : QString).

Lemma displayed_perm rows s f1 d1 f2 d2 e :
  numberRates rows ->
  displayedConnectionIndices dnsCachedName rows s f1 d1 e ≡ₚ displayedConnectionIndices dnsCachedName rows s f2 d2 e.
Proof.
  intros Hn. unfold displayedConnectionIndices, sortedConnectionIndices.
  by rewrite !sortedIndices_perm by (by apply connLess_swo).
Qed.

(** The keys of the group headers of a plan, top to bottom. *)
Definition headerKeys (ds : list DispRow) : list QString :=
  omap (fun d => if rr_header (dr_ref d) then Some (rr_groupKey (dr_ref d)) else None) ds.

Lemma headerKeys_app a b : headerKeys (a ++ b) = headerKeys a ++ headerKeys b.
Proof. apply omap_app. Qed.

Lemma headerKeys_flows env st rows k members :
  headerKeys (map (flowDisp (ag_settings (te_agg env)) (pf_directionColors (ta_prefs st)) rows (Some k)) members) = [].
Proof. by induction members. Qed.

Lemma headerKeys_groupDisp env st columns rows k m gs :
  headerKeys (groupDisp undefinedRate env st columns rows (k, m) gs) = [k].
Proof.
  unfold groupDisp. destruct (isCollapsed k st); [done|]. pose proof (headerKeys_flows env st rows k m) as Hf.
  unfold headerKeys in *. cbn [omap list_omap dr_ref rr_header rr_groupKey]. by rewrite Hf.
Qed.

Lemma headerKeys_planGroups env st columns matched :
  headerKeys (planGroups undefinedRate env st columns matched) =
  groupOrder (pf_groupBy (ta_prefs st)) (shownConnRows env st) matched (pf_connSortField (ta_prefs st)) (pf_connSortDesc (ta_prefs st))
    (pf_sortWithinGroups (ta_prefs st)).
Proof.
  unfold planGroups, groupOrder. set (buckets := bucketRows _ _ matched). set (ss := map _ buckets).
  induction (orderedGroupIndices ss _ _ _) as [|oi idx IH]; [done|]. cbn [map concat omap list_omap].
  rewrite headerKeys_app, IH. unfold ss. rewrite list_lookup_fmap. destruct (buckets !! oi) as [[k m]|]; [|done].
  cbn [fmap option_fmap option_map]. by rewrite headerKeys_groupDisp.
Qed.

Definition setConnSort (field : ColumnId) (desc : bool) (st : TuiApp) : TuiApp :=
  onPrefs (fun p => set_pf_connSortField field (set_pf_connSortDesc desc p)) st.

(** With sorting within groups, choosing another sort column or direction
    never shuffles the groups: the headers stay where they were, top to
    bottom. *)
Theorem resort_keeps_groups env st field desc :
  grouped st = true -> pf_sortWithinGroups (ta_prefs st) = true -> numberRates (shownConnRows env st) ->
  headerKeys (plan dnsCachedName undefinedRate env (setConnSort field desc st)) = headerKeys (plan dnsCachedName undefinedRate env st).
Proof.
  intros Hg Hw Hn. unfold grouped, isView in Hg. apply andb_true_iff in Hg as [Hv Hgb]. apply bool_decide_eq_true in Hv.
  apply negb_true_iff, bool_decide_eq_false in Hgb.
  assert (Hplan : forall st', pf_view (ta_prefs st') = ViewConnections -> pf_groupBy (ta_prefs st') <> GroupNone ->
    headerKeys (plan dnsCachedName undefinedRate env st') = groupOrder (pf_groupBy (ta_prefs st')) (shownConnRows env st')
      (matchedIndices dnsCachedName env st') (pf_connSortField (ta_prefs st')) (pf_connSortDesc (ta_prefs st'))
      (pf_sortWithinGroups (ta_prefs st'))).
  { intros st' Hv' Hg'. unfold plan, onInterfaces, isView. rewrite Hv'. rewrite bool_decide_eq_false_2 by done.
    unfold planConnections. rewrite bool_decide_eq_false_2 by done. apply headerKeys_planGroups. }
  rewrite !Hplan by done. cbn. rewrite Hw. apply frozen_order; [apply _|]. unfold matchedIndices. cbn. by apply displayed_perm.
Qed.
End Resort.
