(* ===== verification/TuiRun.v ===== *)
(** * Terminal frontend: whole runs

    The events of the controller as one step function, and the invariant of
    every state a run reaches. *)

From S2P Require Import Prelude StdAlgo Qt Conn DbusTypes Filter UdpAgg Aggregator IfaceAgg Units.
From S2P Require Import Export TuiFormat TuiScreen TuiState TuiControl TuiFrame TuiPrefs TuiProofs.
Local Open Scope step_scope.

(* ------------------------------------------------------------------ *)
(** ** Events *)

Inductive TuiEvent :=
| TuiKey (key : Z)
| TuiData                                       (* a change signal of an aggregator *)
| TuiRedraw                                     (* the redraw timer *)
| TuiFlashOver                                  (* the flash timer *)
| TuiDetails (d : ProcessDetailsDto)
| TuiBackend (caps : list QString)
| TuiInstall (details eagerness : bool).        (* the requesters set by main *)

Section Run.
Context `{QtNumberText, QtUnicode, QtAddrText, QtRegex, QtToDouble, StdStableSort, CMath}.
Context (dnsCachedName : nat -> QHostAddress -> QString) (undefinedRate : QString).

Definition tui_step (env : TuiEnv) (about : AboutInfo) (ev : TuiEvent) : Step :=
  match ev with
  | TuiKey key => handleKey dnsCachedName env key
  | TuiData => onDataChanged
  | TuiRedraw => update (fun st => snd (doRedraw dnsCachedName undefinedRate env about st))
  | TuiFlashOver => update (set_ta_flashMsg []) >>> requestRedraw
  | TuiDetails d => onProcessDetails d
  | TuiBackend caps => setBackendInfo caps
  | TuiInstall details eagerness =>
      update (fun st => set_ta_askEagerness (eagerness || ta_askEagerness st) (set_ta_askDetails (details || ta_askDetails st) st))
      >>> setPollApplier
  end.

(** A run: every step sees an environment of its own. *)
Inductive tui_reachable `{QtIntText} : TuiApp -> Prop :=
| tr_start s o label : tui_reachable (fst (startApp s o label))
| tr_step env about ev st : tui_reachable st -> tui_reachable (fst (tui_step env about ev st)).

(* ------------------------------------------------------------------ *)
(** ** The invariant *)

Record details_ok (d : Detail) : Prop := {
  do_cached : forall pid x, dt_procDetails d !! pid = Some x -> pd_pid x = pid /\ (0 < pid)%Z;
  do_requested : forall pid, pid ∈ dt_requested d -> (0 < pid)%Z /\ dt_procDetails d !! pid = None;
}.

Record nav_ok (n : Nav) : Prop := {
  no_ifaceCursor : (0 <= nv_ifaceCursor n)%Z;
  no_connCursor : (0 <= nv_connCursor n)%Z;
  no_ifaceScroll : (0 <= nv_ifaceScroll n)%Z;
  no_connScroll : (0 <= nv_connScroll n)%Z;
  no_selectable : Forall (fun r => rr_selectable r = true) (nv_rowRefs n);
}.

Definition idle (e : Edit) : bool := negb (ed_filterEditing e) && negb (ed_exportPrompt e).

Record tui_ok (st : TuiApp) : Prop := {
  ok_prefs : prefs_ok (ta_prefs st);
  ok_nav : nav_ok (ta_nav st);
  ok_details : details_ok (ta_detail st);
  ok_filter : res_error (parse (ed_filterText (ta_edit st))) = [] /\
              ed_filterExpr (ta_edit st) = res_expr (parse (ed_filterText (ta_edit st)));
  ok_lines : ed_filterEditing (ta_edit st) && ed_exportPrompt (ta_edit st) = false;
  ok_overlay : ta_overlay st <> OvNone -> idle (ta_edit st) = true;
  ok_settingsSel : (0 <= ta_settingsSel st < len settingItems)%Z;
  ok_fieldsSel : (0 <= ta_fieldsSel st)%Z;
  ok_wires : ta_procWire st = bool_decide (qs "process-attribution-wire" ∈ ta_backendCaps st) /\
             ta_contWire st = bool_decide (qs "container-attribution-wire" ∈ ta_backendCaps st);
  ok_frozen : ta_paused st = false -> ta_frozenIface st = [] /\ ta_frozenConn st = [];
}.

Lemma ok_onPrefs f st : (forall p, prefs_ok p -> prefs_ok (f p)) -> tui_ok st -> tui_ok (onPrefs f st).
Proof. intros Hf [Hp ? ? ? ? ? ? ? ? ?]. split; try done. by apply Hf. Qed.
Lemma ok_onNav f st : (forall n, nav_ok n -> nav_ok (f n)) -> tui_ok st -> tui_ok (onNav f st).
Proof. intros Hf [? Hn ? ? ? ? ? ? ? ?]. split; try done. by apply Hf. Qed.
Lemma ok_onDetail f st : (forall d, details_ok d -> details_ok (f d)) -> tui_ok st -> tui_ok (onDetail f st).
Proof. intros Hf [? ? Hd ? ? ? ? ? ? ?]. split; try done. by apply Hf. Qed.

(** States in which neither input line is open. *)
Definition tui_idle (st : TuiApp) : Prop := tui_ok st /\ idle (ta_edit st) = true.

Lemma idle_onPrefs f : (forall p, prefs_ok p -> prefs_ok (f p)) -> keeps tui_idle (update (onPrefs f)).
Proof. intros Hf st [Hok Hi]. split; [by apply ok_onPrefs|done]. Qed.
Lemma idle_onNav f : (forall n, nav_ok n -> nav_ok (f n)) -> keeps tui_idle (update (onNav f)).
Proof. intros Hf st [Hok Hi]. split; [by apply ok_onNav|done]. Qed.
Lemma idle_onDetail f : (forall d, details_ok d -> details_ok (f d)) -> keeps tui_idle (update (onDetail f)).
Proof. intros Hf st [Hok Hi]. split; [by apply ok_onDetail|done]. Qed.
Lemma idle_overlay o : keeps tui_idle (update (set_ta_overlay o)).
Proof. intros st [[] Hi]. by split; [split|]. Qed.

(** Two properties every handler's closing steps keep. *)
Lemma ok_redraw : keeps tui_ok requestRedraw.
Proof. intros st Hok. unfold requestRedraw. destruct (ta_redrawPending st); [done|]. by destruct Hok; split. Qed.
Lemma idle_redraw : keeps tui_idle requestRedraw.
Proof. intros st [Hok Hi]. split; [by apply ok_redraw|]. unfold requestRedraw. by destruct (ta_redrawPending st). Qed.
Lemma ok_flash msg : keeps tui_ok (flashMessage msg).
Proof.
  unfold flashMessage. repeat apply keeps_andThen; [|apply keeps_emit|apply ok_redraw].
  intros st Hok. by destruct Hok; split.
Qed.
Lemma idle_flash msg : keeps tui_idle (flashMessage msg).
Proof.
  unfold flashMessage. repeat apply keeps_andThen; [|apply keeps_emit|apply idle_redraw].
  intros st [Hok Hi]. split; [by destruct Hok; split|done].
Qed.
Hint Resolve idle_redraw idle_flash idle_overlay : tui.

(* ------------------------------------------------------------------ *)
(** ** The cursor *)

Lemma scanRow_bounds fuel step refs p : inRows refs (scanRow fuel step refs p) = true -> (0 <= scanRow fuel step refs p < len refs)%Z.
Proof. unfold inRows. blia. Qed.

Lemma advanceRows_range fuel step refs remaining pos :
  (0 <= pos < len refs)%Z -> (0 <= advanceRows fuel step refs remaining pos < len refs)%Z.
Proof.
  revert remaining pos. induction fuel as [|fuel IH]; intros remaining pos Hp; cbn [advanceRows]; [done|].
  destruct (0 <? remaining)%Z; [|done]. destruct (inRows refs (scan step refs (pos + step))) eqn:E; [|done].
  apply IH. by apply scanRow_bounds in E.
Qed.

Lemma movedCursor_range delta refs cursor :
  (0 <= movedCursor delta refs cursor)%Z /\ (0 < len refs -> movedCursor delta refs cursor < len refs)%Z.
Proof.
  unfold movedCursor. destruct (Z.leb_spec (len refs) 0); [lia|]. set (step := if (0 <=? delta)%Z then _ else _).
  pose proof (clampZ_range cursor 0 (len refs - 1) ltac:(lia)) as Hc.
  pose proof (advanceRows_range (S (length refs)) step refs (Z.abs delta) (clampZ cursor 0 (len refs - 1)) ltac:(lia)) as Ha.
  set (pos := advanceRows _ _ _ _ _) in *. destruct (selectableAt refs pos); [lia|].
  destruct (inRows refs (scan step refs pos)) eqn:E1.
  - rewrite E1. apply scanRow_bounds in E1. unfold scan. lia.
  - destruct (inRows refs (scan (- step) refs pos)) eqn:E2; [|lia]. apply scanRow_bounds in E2. unfold scan. lia.
Qed.

Lemma cursor_set_ok c st : (0 <= c)%Z -> tui_ok st -> tui_ok (setCurrentCursor c st).
Proof. intros Hc Hok. unfold setCurrentCursor. destruct (onInterfaces st); (apply ok_onNav; [|done]); by intros n []. Qed.

Lemma idle_moveCursor delta : keeps tui_idle (moveCursor delta).
Proof.
  unfold moveCursor. apply keeps_andThen; [|apply idle_redraw]. intros st [Hok Hi]. split.
  - apply cursor_set_ok; [apply movedCursor_range|done].
  - cbn [update fst]. unfold setCurrentCursor. by destruct (onInterfaces st).
Qed.
Hint Resolve idle_moveCursor : tui.

(* ------------------------------------------------------------------ *)
(** ** Folding and details *)

Lemma idle_fold gk : keeps tui_idle (update (fold gk)).
Proof. apply idle_onNav. by intros n []. Qed.
Lemma idle_unfold gk : keeps tui_idle (update (unfold_ gk)).
Proof. apply idle_onNav. by intros n []. Qed.
Hint Resolve idle_fold idle_unfold : tui.

Lemma idle_collapse : keeps tui_idle collapseAtCursor.
Proof. intros st Hi. unfold collapseAtCursor. repeat case_match; try done. by apply keeps_andThen; auto with tui. Qed.
Lemma idle_expand : keeps tui_idle expandAtCursor.
Proof. intros st Hi. unfold expandAtCursor. repeat case_match; try done. by apply keeps_andThen; auto with tui. Qed.
Lemma idle_toggle : keeps tui_idle toggleCollapseAtCursor.
Proof. intros st Hi. unfold toggleCollapseAtCursor. repeat case_match; try done; by apply keeps_andThen; auto with tui. Qed.
Hint Resolve idle_collapse idle_expand idle_toggle : tui.

Lemma idle_ensure pid : keeps tui_idle (ensureProcessDetails pid).
Proof.
  intros st Hi. unfold ensureProcessDetails. destruct (Z.leb_spec pid 0); [done|]. destruct (negb (ta_askDetails st)); [done|]. cbn [orb].
  destruct (decide (is_Some (dt_procDetails (ta_detail st) !! pid))) as [Hs|Hs]; [by rewrite bool_decide_eq_true_2|].
  rewrite (bool_decide_eq_false_2 _ Hs). cbn [orb]. case_bool_decide; [done|]. cbn [fst]. destruct Hi as [Hok Hi]. split; [|done].
  destruct Hok as [? ? [Hc Hr] ? ? ? ? ? ? ?]. split; try done. split; cbn; [done|]. intros q [->%elem_of_singleton|Hq]%elem_of_union; [|by apply Hr].
  split; [lia|]. by apply eq_None_not_Some.
Qed.
Hint Resolve idle_ensure : tui.

Lemma idle_warm r : keeps tui_idle (warmPid r).
Proof. unfold warmPid. destruct r as [r|]; [|apply keeps_skip]. destruct (processValid _); auto with tui. Qed.
Hint Resolve idle_warm : tui.

Lemma idle_openDetail env : keeps tui_idle (openDetail env).
Proof.
  intros st Hi. unfold openDetail. destruct (cursorRef st) as [r|]; [|done]. destruct (_ || _); [done|].
  apply keeps_andThen; [apply idle_onDetail; by intros d []|apply keeps_andThen; [auto with tui|]|done].
  apply keeps_andThen; [destruct (isView ViewConnections st); auto with tui|auto with tui].
Qed.

Lemma idle_openGroup env : keeps tui_idle (openGroupDetail env).
Proof.
  intros st Hi. unfold openGroupDetail. destruct (negb (grouped st)); [done|]. destruct (refAt _ _) as [r|]; [|done].
  destruct (negb (rr_header r)); [done|].
  apply keeps_andThen; [apply idle_onDetail; by intros d []|apply keeps_andThen; [auto with tui|]|done].
  apply keeps_andThen; [case_bool_decide; auto with tui|auto with tui].
Qed.
Hint Resolve idle_openDetail idle_openGroup : tui.

Lemma idle_retarget : keeps tui_idle (update retarget).
Proof.
  intros st Hi. cbn [update fst]. unfold retarget. destruct Hi as [Hok Hi].
  repeat case_match; (split; [|done]); try done; (apply ok_onDetail; [by intros d []|done]).
Qed.
Lemma idle_closeDetail : keeps tui_idle (update closeDetail).
Proof.
  intros st Hi. cbn [update fst]. unfold closeDetail. destruct (idle_overlay OvNone st Hi) as [Hok Hi'].
  split; [|done]. apply ok_onDetail; [by intros d []|done].
Qed.
Hint Resolve idle_retarget idle_closeDetail : tui.

Lemma idle_detailKey key : keeps tui_idle (handleDetailKey key).
Proof. unfold handleDetailKey. repeat case_match; auto 12 with tui. Qed.
Lemma idle_infoKey key : keeps tui_idle (handleInfoKey key).
Proof. unfold handleInfoKey. repeat case_match; auto with tui. Qed.

(* ------------------------------------------------------------------ *)
(** ** Preferences *)

Lemma nextTheme_range dir i : (0 <= i < len builtinThemes)%Z -> (0 <= nextTheme dir i < len builtinThemes)%Z.
Proof.
  intros Hi. change (len builtinThemes) with 4%Z in *. unfold nextTheme. change (len builtinThemes) with 4%Z. cbn zeta.
  destruct (0 <=? dir)%Z; apply Z.rem_bound_pos; lia.
Qed.

Lemma nextGroup_ok dir g : g <> GroupCount -> nextGroup dir g <> GroupCount.
Proof. unfold nextGroup. destruct (0 <=? dir)%Z, g; done. Qed.

Lemma prefs_theme dir p : prefs_ok p -> prefs_ok (set_pf_themeIdx (nextTheme dir (pf_themeIdx p)) p).
Proof. intros []. split; try done. by apply nextTheme_range. Qed.
Lemma prefs_group dir p : prefs_ok p -> prefs_ok (set_pf_groupBy (nextGroup dir (pf_groupBy p)) p).
Proof. intros []. split; try done. by apply nextGroup_ok. Qed.
Lemma prefs_poll v p : prefs_ok p -> prefs_ok (set_pf_pollMs (clampZ v 100 10000) p).
Proof. intros []. split; try done. by apply clampZ_range. Qed.

Lemma idle_applyPoll : keeps tui_idle applyPollInterval.
Proof. by intros st Hi. Qed.
Lemma idle_applyAgg : keeps tui_idle applyAggregatorSettings.
Proof. by intros st Hi. Qed.
Lemma idle_save env : keeps tui_idle (saveSettings env).
Proof. intros st Hi. unfold saveSettings. by destruct (te_escalates env). Qed.
Hint Resolve idle_applyPoll idle_applyAgg idle_save : tui.

Lemma idle_toggleColumn id : keeps tui_idle (update (toggleOptionalColumn id)).
Proof. destruct id; try (by intros st Hi); by (apply idle_onPrefs; intros p []). Qed.
Lemma idle_flipSort : keeps tui_idle (update flipSortDesc).
Proof. apply idle_onPrefs. intros p []. by case_bool_decide. Qed.
Hint Resolve idle_toggleColumn idle_flipSort : tui.

Lemma idle_setTheme : keeps tui_idle (fun st => (st, [SetTheme (pf_themeIdx (ta_prefs st))])).
Proof. by intros st Hi. Qed.
Hint Resolve idle_setTheme : tui.

Lemma idle_adjust id dir : keeps tui_idle (adjustSetting id dir).
Proof.
  destruct id; cbn [adjustSetting]; auto 8 with tui;
    try (by (apply idle_onPrefs; intros p [])); apply keeps_andThen; auto with tui.
  - apply idle_onPrefs, prefs_theme.
  - apply idle_onPrefs, prefs_group.
  - apply idle_onNav. by intros n [].
  - apply idle_onPrefs. intros p. apply prefs_poll.
  - apply idle_onPrefs. by intros p [].
Qed.

Lemma idle_activate dir : keeps tui_idle (activate dir).
Proof.
  unfold activate. apply keeps_andThen; [|auto with tui]. intros st Hi.
  destruct (if (0 <=? ta_settingsSel st)%Z then _ else _); [by apply idle_adjust|done].
Qed.
Hint Resolve idle_activate : tui.

Lemma idle_settingsSel f :
  (forall st, tui_ok st -> 0 <= f st < len settingItems)%Z -> keeps tui_idle (update (fun st => set_ta_settingsSel (f st) st)).
Proof. intros Hf st [Hok Hi]. specialize (Hf st Hok). split; [by destruct Hok; split|done]. Qed.

Lemma idle_settingsKey key : keeps tui_idle (handleSettingsKey key).
Proof.
  unfold handleSettingsKey. repeat case_match; auto 8 with tui; (apply keeps_andThen; [|auto with tui]);
    apply idle_settingsSel; intros st Hok; pose proof (ok_settingsSel _ Hok); apply Z.rem_bound_pos; lia.
Qed.

Lemma idle_fieldsSel v : (0 <= v)%Z -> keeps tui_idle (update (set_ta_fieldsSel v)).
Proof. intros Hv st [Hok Hi]. split; [by destruct Hok; split|done]. Qed.

(** The columns of the Fields overlay are fields of the current view. *)
Lemma overlayColumns_ids st : map col_id (overlayColumns st) = map col_id (overlayColumnsFor (pf_view (ta_prefs st))).
Proof. unfold overlayColumns. rewrite map_map. apply map_ext. intros c. destruct (col_id c) eqn:E; cbn; congruence. Qed.

Lemma set_field_ok id st : fieldOf (pf_view (ta_prefs st)) id -> tui_idle st -> tui_idle (setCurrentSortField id st).
Proof.
  intros Hf [Hok Hi]. split; [|done]. unfold setCurrentSortField.
  destruct (pf_view (ta_prefs st)) eqn:Ev; destruct Hok as [[] ? ? ? ? ? ? ? ? ?]; split; try done; cbn; rewrite Ev; cbn; by split.
Qed.

Lemma active_ids st : Forall (fun c => fieldOf (pf_view (ta_prefs st)) (col_id c)) (activeColumns st).
Proof.
  unfold activeColumns, fieldOf, columnsFor. destruct (pf_view (ta_prefs st)).
  - repeat constructor; apply (bool_decide_unpack _); vm_compute; exact I.
  - destruct (_ && _), (_ && _); repeat constructor; apply (bool_decide_unpack _); vm_compute; exact I.
Qed.

Lemma idle_cycleSort : keeps tui_idle (update cycleSortField).
Proof.
  intros st Hi. cbn [update fst]. unfold cycleSortField. destruct (isEmpty (activeColumns st)); [done|].
  destruct (_ !! _) as [c|] eqn:Ec; [|done]. apply set_field_ok; [|done].
  pose proof (active_ids st) as Ha. rewrite Forall_lookup in Ha. by eapply Ha.
Qed.
Hint Resolve idle_cycleSort : tui.

Lemma idle_fieldsKey key : keeps tui_idle (handleFieldsKey key).
Proof.
  intros st Hi. unfold handleFieldsKey. destruct (Z.eqb_spec (len (overlayColumns st)) 0) as [|Hn]; [by apply (keeps_andThen tui_idle); auto with tui|].
  pose proof (len_nonneg (overlayColumns st)) as Hl. set (n := len (overlayColumns st)) in *.
  pose proof (clampZ_range (ta_fieldsSel st) 0 (n - 1) ltac:(lia)) as Hsel. set (sel := clampZ _ _ _) in *.
  assert (Hi1 : tui_idle (set_ta_fieldsSel sel st)) by (apply (idle_fieldsSel sel); [lia|done]).
  destruct (overlayColumns st !! Z.to_nat sel) as [c|] eqn:Ec; [|done].
  assert (Hc : fieldOf (pf_view (ta_prefs (set_ta_fieldsSel sel st))) (col_id c)).
  { unfold fieldOf. cbn. rewrite <- overlayColumns_ids. apply list_elem_of_fmap. exists c. split; [done|]. by eapply list_elem_of_lookup_2. }
  revert Hi1 Hc. generalize (set_ta_fieldsSel sel st) as st1. intros st1 Hi1 Hc.
  assert (Hup : forall v, (0 <= v)%Z -> keeps tui_idle (update (set_ta_fieldsSel v) >>> requestRedraw))
    by (intros; apply keeps_andThen; [by apply idle_fieldsSel|auto with tui]).
  repeat case_match; try by_keeps; try (apply Hup; [apply Z.rem_nonneg; lia|done]).
  rewrite fst_andThen. by apply idle_redraw, set_field_ok.
Qed.

Lemma idle_eagerness env : keeps tui_idle (cycleAttributionEagerness env).
Proof.
  intros st Hi. unfold cycleAttributionEagerness. destruct (negb _); [by_keeps|].
  set (value := default [] _). clearbody value.
  assert (Hp : keeps tui_idle (update (onPrefs (set_pf_eagerness value)))) by (apply idle_onPrefs; by intros p []).
  by_keeps.
Qed.

Lemma idle_pause env : keeps tui_idle (togglePause env).
Proof. intros st [Hok Hi]. unfold togglePause. destruct (ta_paused st); (split; [|done]); destruct Hok; by split. Qed.

Lemma idle_cycleGroup : keeps tui_idle (update cycleGroup).
Proof.
  intros st [Hok Hi]. split; [|done]. cbn [update fst]. unfold cycleGroup.
  apply ok_onNav; [by intros n []|]. apply ok_onPrefs; [apply prefs_group|done].
Qed.

Lemma parse_empty : parse [] = mkParseResult None [] (-1).
Proof. done. Qed.

Lemma idle_clearFilter : keeps tui_idle (update clearFilter).
Proof.
  intros st [Hok Hi]. split; [|done]. cbn [update fst]. unfold clearFilter. apply ok_onNav; [by intros n []|].
  destruct Hok. split; try done.
Qed.

Lemma idle_openFields : keeps tui_idle (update openFields).
Proof.
  intros st Hi. cbn [update fst]. unfold openFields. apply (idle_overlay OvFields). apply (idle_fieldsSel (Z.max 0 _)); [lia|done].
Qed.

Lemma idle_view v : keeps tui_idle (update (onPrefs (set_pf_view v))).
Proof. apply idle_onPrefs. by intros p []. Qed.
Lemma idle_otherView : keeps tui_idle (update (onPrefs (fun p => set_pf_view (otherView (pf_view p)) p))).
Proof. apply idle_onPrefs. by intros p []. Qed.
Lemma idle_nextTheme : keeps tui_idle (update (onPrefs (fun p => set_pf_themeIdx (nextTheme 1 (pf_themeIdx p)) p))).
Proof. apply idle_onPrefs, prefs_theme. Qed.

Lemma idle_export env path : keeps tui_idle (exportCurrentView dnsCachedName env path).
Proof. intros st Hi. unfold exportCurrentView. destruct (if isEmpty path then _ else _); [by_keeps|done]. Qed.
Hint Resolve idle_eagerness idle_pause idle_cycleGroup idle_clearFilter idle_openFields idle_view idle_otherView idle_nextTheme idle_export : tui.

(* ------------------------------------------------------------------ *)
(** ** The input lines *)

(** While no overlay is open the lines can be edited freely, as long as the
    committed filter stays what its text parses to. *)
Definition tui_plain (st : TuiApp) : Prop := tui_ok st /\ ta_overlay st = OvNone.

Lemma plain_onEdit f :
  (forall e, ed_filterText (f e) = ed_filterText e /\ ed_filterExpr (f e) = ed_filterExpr e /\
             (ed_filterEditing e && ed_exportPrompt e = false -> ed_filterEditing (f e) && ed_exportPrompt (f e) = false)) ->
  keeps tui_plain (update (onEdit f)).
Proof.
  intros Hf st [[? ? ? Hfl Hl ? ? ? ? ?] Ho]. destruct (Hf (ta_edit st)) as (Ht & He & Hm). split; [|done].
  split; try done; cbn; rewrite ?Ht, ?He; auto.
Qed.

Lemma plain_redraw : keeps tui_plain requestRedraw.
Proof. intros st [Hok Ho]. split; [by apply ok_redraw|]. unfold requestRedraw. by destruct (ta_redrawPending st). Qed.
Lemma plain_flash msg : keeps tui_plain (flashMessage msg).
Proof.
  intros st [Hok Ho]. split; [by apply ok_flash|]. unfold flashMessage. rewrite !fst_andThen. unfold requestRedraw. cbn.
  by destruct (ta_redrawPending st).
Qed.
Hint Resolve plain_redraw plain_flash : tui.

Lemma plain_export env path : keeps tui_plain (exportCurrentView dnsCachedName env path).
Proof. intros st Hi. unfold exportCurrentView. destruct (if isEmpty path then _ else _); [by_keeps|done]. Qed.

Lemma plain_commit : keeps tui_plain (update commitFilter).
Proof.
  intros st [Hok Ho]. cbn [update fst]. unfold commitFilter. destruct (isEmpty (res_error (parse (trimmed (ed_filterDraft (ta_edit st)))))) eqn:E.
  - apply isEmpty_true in E. split; [|done]. apply ok_onNav; [by intros n []|]. destruct Hok. split; try done.
  - apply plain_onEdit; [done|by split].
Qed.

(** Closing a line, or changing its text, never opens the other. *)
Ltac edit_step := apply plain_onEdit; intros e; cbn; repeat split; try done; intros; rewrite ?andb_false_r, ?andb_false_l; done.

Lemma plain_exportKey env key : keeps tui_plain (handleExportKey dnsCachedName env key).
Proof.
  unfold handleExportKey. repeat case_match; auto with tui; repeat (apply keeps_andThen; [|auto with tui]); try edit_step.
  intros st Hi. destruct (isEmpty _); [done|by apply plain_export].
Qed.

Lemma plain_filterKey key : keeps tui_plain (handleFilterKey key).
Proof.
  unfold handleFilterKey. repeat case_match; auto with tui; (apply keeps_andThen; [|auto with tui]); try edit_step. apply plain_commit.
Qed.

(* ------------------------------------------------------------------ *)
(** ** Keys and events *)

Lemma startLine_ok f st :
  (forall e, ed_filterText (f e) = ed_filterText e /\ ed_filterExpr (f e) = ed_filterExpr e /\
             (idle e = true -> ed_filterEditing (f e) && ed_exportPrompt (f e) = false)) ->
  tui_idle st -> ta_overlay st = OvNone -> tui_ok (onEdit f st).
Proof.
  intros Hf [[? ? ? Hfl Hl ? ? ? ? ?] Hi] Ho. destruct (Hf (ta_edit st)) as (Ht & He & Hm).
  split; try done; cbn; rewrite ?Ht, ?He; auto.
Qed.

Lemma mainKey_ok env key st : tui_idle st -> ta_overlay st = OvNone -> tui_ok (fst (mainKey dnsCachedName env key st)).
Proof.
  intros Hi Ho. enough (tui_idle (fst (mainKey dnsCachedName env key st)) \/ tui_ok (fst (mainKey dnsCachedName env key st))) as [[]|]; [done..|].
  unfold mainKey. repeat (match goal with |- context [if ?b then _ else _] => destruct b end; [try (left; by_keeps)|]); try (left; by_keeps).
  - right. unfold promptExportFilename. rewrite !fst_andThen. apply ok_redraw, ok_redraw. cbn [update fst].
    apply startLine_ok; [|done|done]. intros e. cbn. repeat split. unfold idle. intros Hid.
    by destruct (ed_filterEditing e).
  - right. rewrite fst_andThen. apply ok_redraw. cbn [update fst]. apply startLine_ok; [|done|done].
    intros e. cbn. repeat split. unfold idle. intros Hid. destruct (ed_exportPrompt e); [by rewrite andb_false_r in Hid|done].
Qed.

Lemma handleKey_ok env key st : tui_ok st -> tui_ok (fst (handleKey dnsCachedName env key st)).
Proof.
  intros Hok. pose proof (ok_overlay _ Hok) as Ho. unfold handleKey. destruct (ta_overlay st) eqn:Eo;
    try (assert (Hi : tui_idle st) by (split; [done|by apply Ho])).
  - destruct (ed_filterEditing (ta_edit st)) eqn:Ef; [by apply plain_filterKey|].
    destruct (ed_exportPrompt (ta_edit st)) eqn:Ep; [by apply plain_exportKey|].
    apply mainKey_ok; [|done]. split; [done|]. unfold idle. by rewrite Ef, Ep.
  - by apply idle_settingsKey.
  - by apply idle_fieldsKey.
  - by apply idle_infoKey.
  - by apply idle_infoKey.
  - by apply idle_detailKey.
Qed.

Lemma buildFrame_ok env about st : tui_ok st -> tui_ok (snd (buildFrame dnsCachedName undefinedRate env about st)).
Proof.
  intros Hok. pose proof (frame_shape dnsCachedName undefinedRate env about st) as Hf. revert Hf.
  pose proof (placeCursor_spec (bodyHeight (te_rows env)) (nv_target (ta_nav st))
    (map dr_ref (plan dnsCachedName undefinedRate env st)) (currentCursor st) (currentScroll st)
    (plan_selectable dnsCachedName undefinedRate env st)) as Hp.
  unfold buildFrame. destruct (placeCursor _ _ _ _ _) as [[c s] shown] eqn:Epl. destruct (footerOf st). intros _. cbn [snd].
  assert (Hcs : (0 <= c /\ (0 <= s))%Z).
  { unfold placed in Hp. destruct (Z.leb_spec (len (map dr_ref (plan dnsCachedName undefinedRate env st))) 0); [lia|].
    destruct Hp as (Hc & _ & Hb). split; [lia|]. destruct (Z.le_gt_cases (bodyHeight (te_rows env)) 0) as [Hz|Hz]; [|destruct (Hb ltac:(lia)); lia].
    unfold placeCursor in Epl. destruct (Z.leb_spec (len (map dr_ref (plan dnsCachedName undefinedRate env st))) 0); [lia|]. injection Epl as _ <- _. unfold followScroll.
    destruct (Z.ltb_spec 0 (bodyHeight (te_rows env))); [lia|]. destruct Hok as [? [] ? ? ? ? ? ? ? ?]. unfold currentScroll. by destruct (onInterfaces st). }
  apply ok_onNav; [intros n []; split; try done; apply plan_selectable|].
  unfold setCurrentScroll. destruct (onInterfaces _); (apply ok_onNav; [intros n []; split; cbn; (done || lia)|]); apply cursor_set_ok; (done || lia).
Qed.

Lemma tui_step_ok env about ev st : tui_ok st -> tui_ok (fst (tui_step env about ev st)).
Proof.
  intros Hok. destruct ev as [key| | | |d|caps|de ea]; cbn [tui_step].
  - by apply handleKey_ok.
  - unfold onDataChanged, when. destruct (ta_paused st); [done|by apply ok_redraw].
  - cbn [update fst]. unfold doRedraw. apply buildFrame_ok. by destruct Hok; split.
  - rewrite fst_andThen. apply ok_redraw. by destruct Hok; split.
  - unfold onProcessDetails. destruct (Z.leb_spec (pd_pid d) 0) as [|Hd]; [done|]. rewrite fst_andThen.
    assert (Hst : tui_ok (onDetail (fun dt => set_dt_requested (dt_requested dt ∖ {[ pd_pid d ]})
        (set_dt_procDetails (<[pd_pid d := d]> (dt_procDetails dt)) dt)) st)).
    { apply ok_onDetail; [|done]. intros dt [Hc Hr]. split; cbn.
      - intros pid x Hx. destruct (decide (pid = pd_pid d)) as [->|Hne]; [rewrite lookup_insert_eq in Hx; by injection Hx as <-|].
        rewrite lookup_insert_ne in Hx by done. by apply Hc.
      - intros pid [Hin Hne%not_elem_of_singleton]%elem_of_difference. rewrite lookup_insert_ne by done. by apply Hr. }
    cbn [update fst]. unfold when. case_bool_decide; [by apply ok_redraw|done].
  - unfold setBackendInfo. rewrite fst_andThen. apply ok_redraw. by destruct Hok; split.
  - unfold setPollApplier. rewrite !fst_andThen. by destruct Hok; split.
Qed.

Lemma startApp_ok `{QtIntText} s o label : tui_ok (fst (startApp s o label)).
Proof.
  pose proof (start_prefs_ok s o label) as Hp. unfold startApp in *. rewrite !fst_andThen in *.
  apply ok_redraw. unfold requestRedraw in Hp. cbn in Hp. by split.
Qed.

End Run.
