(* ===== verification/TuiTheorems.v ===== *)
(** * Terminal frontend: pause, export, and departures from the comments *)

From S2P Require Import Prelude StdAlgo Qt Conn DbusTypes Filter UdpAgg Aggregator IfaceAgg Units.
From S2P Require Import Export TuiFormat TuiScreen TuiState TuiControl TuiFrame TuiPrefs TuiProofs TuiRun.
Local Open Scope step_scope.

Section Theorems.
Context `{QtNumberText, QtUnicode, QtAddrText, QtRegex, QtToDouble, StdStableSort, CMath}.
Context (dnsCachedName : nat -> QHostAddress -> QString) (undefinedRate : QString).

(* ------------------------------------------------------------------ *)
(** ** Pause *)

(** A paused frame shows the frozen rows: it does not depend on what the
    aggregators hold by now, so nothing moves under the cursor while data keeps
    arriving. *)
Theorem paused_frame_frozen env1 env2 about st :
  ta_paused st = true -> ag_settings (te_agg env1) = ag_settings (te_agg env2) -> te_rows env1 = te_rows env2 ->
  buildFrame dnsCachedName undefinedRate env1 about st = buildFrame dnsCachedName undefinedRate env2 about st.
Proof.
  intros Hp Hs Hr.
  assert (Hi : shownIfaceRows env1 st = shownIfaceRows env2 st) by (unfold shownIfaceRows; by rewrite Hp).
  assert (Hc : shownConnRows env1 st = shownConnRows env2 st) by (unfold shownConnRows; by rewrite Hp).
  assert (Hm : matchedIndices dnsCachedName env1 st = matchedIndices dnsCachedName env2 st) by (unfold matchedIndices; by rewrite Hc, Hs).
  assert (Hg : forall cols rows b gs, groupDisp undefinedRate env1 st cols rows b gs = groupDisp undefinedRate env2 st cols rows b gs)
    by (intros; unfold groupDisp; by rewrite Hs).
  assert (Hplan : plan dnsCachedName undefinedRate env1 st = plan dnsCachedName undefinedRate env2 st).
  { unfold plan, planInterfaces, planConnections, planGroups. rewrite Hi, Hc, Hm, Hs. destruct (onInterfaces st); [done|].
    case_bool_decide; [done|]. f_equal. apply map_ext. intros oi. repeat case_match; auto. }
  assert (Hf : forall cols b s rows, formatVisible dnsCachedName undefinedRate env1 st cols b s rows = formatVisible dnsCachedName undefinedRate env2 st cols b s rows).
  { intros. unfold formatVisible. apply imap_ext. intros i d _. unfold formatRow. by rewrite Hi, Hc, Hs. }
  assert (Hmod : buildModal dnsCachedName undefinedRate env1 about st = buildModal dnsCachedName undefinedRate env2 about st).
  { unfold buildModal, detailModal, rowPanel. by rewrite Hi, Hc, Hs. }
  unfold buildFrame. rewrite Hplan, Hr, Hmod. destruct (placeCursor _ _ _ _ _) as [[? ?] ?], (footerOf st). by rewrite Hf.
Qed.

(* ------------------------------------------------------------------ *)
(** ** Export *)

(** The flows of a flat plan, top to bottom. *)
Definition flowsOf (rows : list Row) (ds : list DispRow) : list Row := omap (fun d => dr_src d ≫= fun i => rows !! i) ds.

Definition ungroup (st : TuiApp) : TuiApp := onPrefs (set_pf_groupBy GroupNone) st.

(** The exported flows are those of the flat list, filtered and sorted as
    displayed: grouping and folding neither hide nor reorder a record. *)
Theorem export_is_flat_view env st :
  pf_view (ta_prefs st) = ViewConnections ->
  exportRows dnsCachedName env st =
  connRowsExportable (flowsOf (shownConnRows env st) (plan dnsCachedName undefinedRate env (ungroup st))).
Proof.
  intros Hv. unfold exportRows, plan, onInterfaces, isView. cbn [ungroup onPrefs ta_prefs set_ta_prefs set_pf_groupBy pf_view pf_groupBy].
  cbn. rewrite Hv. rewrite bool_decide_eq_false_2 by done. unfold planConnections. cbn. f_equal. unfold rowsForIndices, flowsOf.
  change (matchedIndices dnsCachedName env (ungroup st)) with (matchedIndices dnsCachedName env st).
  induction (matchedIndices dnsCachedName env st) as [|i l IH]; [done|]. cbn [map omap list_omap flowDisp dr_src mbind option_bind].
  by rewrite IH.
Qed.

(** The current directory: a finite set of names. *)
Definition directory (env : TuiEnv) (names : gset QString) : Prop :=
  (forall n, te_exists env n = true <-> n ∈ names) /\ size names <= te_dirSize env.

Definition exportName (baseName stamp : QString) (n : Z) : QString := baseName ++ qs "-" ++ stamp ++ qs "-" ++ number n ++ qs ".csv".

Lemma exportName_arg baseName stamp n :
  noPct baseName -> noPct stamp -> qarg (baseName ++ qs "-" ++ stamp ++ qs "-%3.csv") (number n) = exportName baseName stamp n.
Proof.
  intros Hb Hs. unfold exportName. rewrite qarg_prefix by done. rewrite qarg_prefix by (unfold noPct; cbn; set_solver).
  rewrite qarg_prefix by done. do 3 f_equal.
Qed.

Lemma exportName_inj baseName stamp a b : (0 <= a)%Z -> (0 <= b)%Z -> exportName baseName stamp a = exportName baseName stamp b -> a = b.
Proof.
  intros Ha Hb He. unfold exportName in He. do 4 apply app_inv_head in He. apply app_inv_tail in He. by apply number_inj.
Qed.

Lemma freeName_spec env baseName stamp fuel n :
  noPct baseName -> noPct stamp -> (0 <= n)%Z ->
  match freeName env baseName stamp fuel n with
  | Some p => exists name, p = te_absolute env name /\ te_exists env name = false
  | None => forall k, k < fuel -> te_exists env (exportName baseName stamp (n + Z.of_nat k)) = true
  end.
Proof.
  intros Hb Hs. revert n. induction fuel as [|fuel IH]; intros n Hn; cbn [freeName]; [lia|]. rewrite exportName_arg by done.
  destruct (te_exists env (exportName baseName stamp n)) eqn:E; [|by eexists].
  specialize (IH (n + 1)%Z ltac:(lia)). destruct (freeName env baseName stamp fuel (n + 1)); [done|].
  intros [|k] Hk; [by rewrite Z.add_0_r|]. replace (n + Z.of_nat (S k))%Z with (n + 1 + Z.of_nat k)%Z by lia. apply IH. lia.
Qed.

(** The search for a name to export to ends, with a name that is not taken: an
    automatic export never overwrites a file. *)
Theorem export_name_fresh env names baseName stamp :
  directory env names -> noPct baseName -> noPct stamp ->
  exists name, uniqueExportPath env baseName stamp = Some (te_absolute env name) /\ name ∉ names.
Proof.
  intros [Hex Hsize] Hb Hs. assert (Hfree : forall n, te_exists env n = false -> n ∉ names) by (intros n Hn Hin; apply Hex in Hin; congruence).
  unfold uniqueExportPath. destruct (te_exists env (baseName ++ qs "-" ++ stamp ++ qs ".csv")) eqn:E; [|eexists; split; [done|by apply Hfree]].
  pose proof (freeName_spec env baseName stamp (S (te_dirSize env)) 1 Hb Hs ltac:(lia)) as Hf.
  destruct (freeName _ _ _ _ 1) as [p|]; [destruct Hf as (name & -> & Hn); exists name; split; [done|by apply Hfree]|]. exfalso.
  set (l := map (fun k => exportName baseName stamp (1 + Z.of_nat k)) (seq 0 (S (te_dirSize env)))).
  assert (Hd : NoDup l).
  { apply NoDup_fmap_2_strong; [|apply NoDup_seq]. intros x y _ _ Hxy. apply exportName_inj in Hxy; lia. }
  assert (Hsub : (list_to_set l : gset QString) ⊆ names).
  { intros n Hn. apply elem_of_list_to_set in Hn. apply list_elem_of_fmap in Hn as (k & -> & Hk). apply elem_of_seq in Hk. apply Hex, Hf. lia. }
  apply subseteq_size in Hsub. rewrite size_list_to_set in Hsub by done. unfold l in Hsub. rewrite length_map, length_seq in Hsub. lia.
Qed.

(* ------------------------------------------------------------------ *)
(** ** Departures *)

(** Enter on the header of the unattributed group does not show the group: its
    key is empty, which the panel takes for no group at all, and it falls back
    on the row inspected last. *)
Theorem unattributed_group_detail env st r :
  grouped st = true -> cursorRef st = Some r -> rr_header r = true -> rr_groupKey r = [] ->
  let st' := fst (openGroupDetail env st) in
  ta_overlay st' = OvDetail /\
  detailModal dnsCachedName undefinedRate env st' = rowPanel dnsCachedName undefinedRate env st' ViewConnections (dt_key (ta_detail st)).
Proof.
  intros Hg Hr Hh Hk. cbn zeta. unfold openGroupDetail. rewrite Hg. cbn [negb].
  assert (Hc : refAt (nv_rowRefs (ta_nav st)) (nv_connCursor (ta_nav st)) = Some r).
  { unfold grouped, isView in Hg. apply andb_true_iff in Hg as [Hv _]. apply bool_decide_eq_true in Hv.
    unfold cursorRef, currentCursor, onInterfaces, isView in Hr. by rewrite Hv in Hr. }
  rewrite Hc, Hh. cbn [negb]. rewrite !fst_andThen. set (warm := if bool_decide _ then _ else _).
  assert (Hw : keeps (fun s => ta_overlay s = OvDetail /\ dt_groupKey (ta_detail s) = [] /\ dt_view (ta_detail s) = ViewConnections /\
      dt_key (ta_detail s) = dt_key (ta_detail st)) warm).
  { intros s Hs. unfold warm, warmPid, ensureProcessDetails. repeat case_match; done. }
  assert (Hrd : forall s, ta_overlay (fst (requestRedraw s)) = ta_overlay s /\ ta_detail (fst (requestRedraw s)) = ta_detail s)
    by (intros s; unfold requestRedraw; by destruct (ta_redrawPending s)).
  set (s0 := fst (update (set_ta_overlay OvDetail) _)). set (s1 := fst (warm s0)).
  assert (H0' : ta_overlay s1 = OvDetail /\ dt_groupKey (ta_detail s1) = [] /\ dt_view (ta_detail s1) = ViewConnections /\
      dt_key (ta_detail s1) = dt_key (ta_detail st)) by (apply (Hw s0); repeat split; exact Hk).
  destruct H0' as (E1 & E2 & E3 & E4).
  destruct (Hrd s1) as [Ho Hd]. rewrite Ho. split; [done|]. unfold detailModal. by rewrite Hd, E2, E3, E4.
Qed.

(** Changing the grouping in the Settings panel keeps the folded groups and the
    cursor, unlike the key for it, which clears both; the groups without an
    owner have the same empty key in every mode, so they stay folded. *)
Theorem settings_regroup_keeps_folds dir st :
  let st1 := fst (adjustSetting SetGroup dir st) in
  nv_collapsed (ta_nav st1) = nv_collapsed (ta_nav st) /\ nv_connCursor (ta_nav st1) = nv_connCursor (ta_nav st) /\
  nv_collapsed (ta_nav (cycleGroup st)) = ∅ /\ nv_connCursor (ta_nav (cycleGroup st)) = 0%Z /\
  (forall g c, processValid (c_process c) = false -> containerValid (c_container c) = false -> c_iface c = [] -> tuiGroupKeyFor g c = []).
Proof.
  cbn zeta. cbn [adjustSetting]. rewrite fst_andThen. repeat split; try done.
  intros g c Hp Hc Hi. destruct g; cbn; rewrite ?Hp, ?Hc, ?Hi; done.
Qed.

Lemma infoLines_enough s innerW : (length (mo_items s) <= length (infoLines s innerW))%nat.
Proof.
  unfold infoLines. set (v := Z.max 8 _). induction (mo_items s) as [|it its IH]; [done|]. cbn [map concat length]. rewrite length_app.
  enough (1 <= length (itemLines innerW v it)) by lia. unfold itemLines. destruct (isEmpty (sr_value it)).
  - rewrite length_map. destruct (wrap_fits (sr_label it) (innerW - 2)) as [Hne _]. destruct (wrapToWidth _ _); [done|cbn; lia].
  - rewrite length_imap. destruct (wrap_fits (sr_value it) v) as [Hne _]. destruct (wrapToWidth _ _); [done|cbn; lia].
Qed.

(** The help does not fit a terminal of fewer than 28 lines, however wide: the
    end of the panel is painted below the screen, and any key closes it. *)
Theorem help_never_fits W Hh :
  (20 <= W)%Z -> (8 <= Hh < 28)%Z ->
  exists y x text role, Put y x text role ∈ renderModal helpModal W Hh /\ (Hh <= y)%Z.
Proof.
  intros HW HH. unfold renderModal. destruct (Z.ltb_spec W 20); [lia|]. destruct (Z.ltb_spec Hh 8); [lia|]. cbn [orb].
  set (iw := innerWidth helpModal W).
  assert (Hn : (23 <= contentLines helpModal iw)%Z).
  { unfold contentLines. cbn [mo_selectable helpModal]. pose proof (infoLines_enough helpModal iw) as Hl.
    change (length (mo_items helpModal)) with 23 in Hl. unfold len. lia. }
  do 4 eexists. rewrite !elem_of_app. split.
  - right. right. right. right. right. right. right. left.
  - cbn [mo_selectable helpModal].
    assert (0 <= Z.max 0 ((Hh - boxHeight helpModal iw) / 2))%Z by lia. lia.
Qed.
End Theorems.
