(* ===== verification/TuiSamples.v ===== *)
(** * Terminal frontend: the theorems at concrete inputs

    A table of three flows, two of them without an owner, on a small
    terminal. *)

From S2P Require Import Prelude StdAlgo Qt Conn DbusTypes Filter FilterEval UdpAgg Aggregator IfaceAgg Units Export.
From S2P Require Import TuiFormat TuiScreen TuiState TuiControl TuiFrame TuiPrefs TuiProofs TuiGroups TuiRun TuiTheorems.

(** Executable stand-ins for number text and the C library's mathematics. *)
#[local] Instance wholeText : QtNumberText := fun d _ => match dtrunc d with Some z => number z | None => qs "?" end.
#[local] Instance wholeMath : CMath := {|
  log10 := fun d => match dtrunc d with Some z => dofZ (Z.of_nat (length (number z)) - 1) | None => d end;
  dfloor := fun d => match dtrunc d with Some z => dofZ z | None => d end;
  dpow := fun a b => match dtrunc a, dtrunc b with Some x, Some y => dofZ (x ^ y) | _, _ => a end;
|}.

Definition noNames (r : nat) (a : QHostAddress) : QString := [].

Definition flowOn (iface : string) (port pid rx : Z) : Connection :=
  mkConnection (mkEndpoint (AddrV4 167772162) port) (mkEndpoint (AddrV4 16843009) 443) Tcp rx 0 1 0 (qs iface) 2 Outbound
    Established (if (pid =? 0)%Z then NoLocalSocket else Resolved) (mkProcessInfo pid (qs "curl") [] [] 1000) noContainer [].

Definition tuiRows : list Row := [newRow (flowOn "eth1" 40001 0 5) 0; newRow (flowOn "eth0" 40002 42 9) 0; newRow (flowOn "eth1" 40003 0 7) 0].

Definition tuiAgg : Aggregator :=
  let a := newAggregator (32768, 60999)%Z in mkAgg tuiRows (ag_keyToIdx a) (ag_prev a) 0 (ag_udpAgg a) (ag_settings a).

Definition takenName : QString := qs "qiftop-connections-1.csv".
Definition tuiEnv : TuiEnv :=
  mkTuiEnv newIfaceAgg tuiAgg 24 (qs "1") (qs "1") (fun n => qeqb n takenName) (fun n => qs "/tmp/" ++ n) 1 (fun _ => None) false.
Definition tuiEnvLater : TuiEnv :=
  mkTuiEnv newIfaceAgg (ag_set_rows [] tuiAgg) 24 (qs "1") (qs "1") (fun n => qeqb n takenName) (fun n => qs "/tmp/" ++ n) 1 (fun _ => None) false.
Definition tuiAbout : AboutInfo := mkAbout [] (qs "1") (qs "6") [] [] [] [] [] 80 24 true true.

Definition runKeys (keys : list Z) (st : TuiApp) : TuiApp :=
  foldl (fun st k => fst (tui_step noNames [] tuiEnv tuiAbout TuiRedraw (fst (tui_step noNames [] tuiEnv tuiAbout (TuiKey k) st)))) st keys.

Definition tuiStart : TuiApp := fst (startApp ∅ (mkCli [] 0 [] []) (qs "agent")).

Definition runAt (keys : list Z) : TuiApp := runKeys keys tuiStart.

(** Grouped by process: the two flows without an owner form one group; and the
    same display with the cursor on its header. *)
Definition byProcess : TuiApp := Eval vm_compute in runAt [103; 103; 71]%Z.
Definition pausedTui : TuiApp := Eval vm_compute in runAt [112]%Z.
Definition onFirstHeader : TuiApp := Eval vm_compute in onNav (set_nv_connCursor 0) byProcess.

Lemma runKeys_reachable keys st : tui_reachable noNames [] st -> tui_reachable noNames [] (runKeys keys st).
Proof. revert st. induction keys as [|k keys IH]; intros st Hr; [done|]. cbn [runKeys foldl]. apply IH. by do 2 apply tr_step. Qed.

Lemma byProcess_run : byProcess = runAt [103; 103; 71]%Z.
Proof. vm_compute. reflexivity. Qed.


Lemma cursor_row_drawn_witness :
  let '(f, st') := buildFrame noNames [] tuiEnv tuiAbout byProcess in
  exists d y, plan noNames [] tuiEnv byProcess !! Z.to_nat (currentCursor st') = Some d /\ (3 <= y < te_rows tuiEnv)%Z /\
    Put y 0 (rowText f 80 (formatRow noNames [] tuiEnv byProcess (f_columns f) d)) (dr_role d) ∈ render 0 f 80 (te_rows tuiEnv).
Proof. apply cursor_row_drawn; [lia|cbn; lia|vm_compute; discriminate]. Defined.

Lemma resort_keeps_groups_witness :
  headerKeys (plan noNames [] tuiEnv (setConnSort ColFlow false byProcess)) = headerKeys (plan noNames [] tuiEnv byProcess).
Proof.
  apply resort_keeps_groups; [vm_compute; reflexivity..|].
  change (shownConnRows tuiEnv byProcess) with tuiRows. repeat constructor; vm_compute; reflexivity.
Defined.

Lemma paused_frame_frozen_witness :
  buildFrame noNames [] tuiEnv tuiAbout pausedTui = buildFrame noNames [] tuiEnvLater tuiAbout pausedTui.
Proof. apply paused_frame_frozen; [vm_compute; reflexivity|reflexivity|reflexivity]. Defined.

Lemma export_is_flat_view_witness : length (ex_rows (exportRows noNames tuiEnv byProcess)) = 3.
Proof. rewrite (export_is_flat_view noNames [] tuiEnv byProcess) by (vm_compute; reflexivity). vm_compute. reflexivity. Defined.

Lemma export_name_fresh_witness :
  exists name, uniqueExportPath tuiEnv (qs "qiftop-connections") (qs "1") = Some (te_absolute tuiEnv name) /\ name ∉ ({[ takenName ]} : gset QString).
Proof.
  apply export_name_fresh.
  - split; [|vm_compute; apply le_n]. intros n. change (te_exists tuiEnv n) with (qeqb n takenName). rewrite qeqb_eq, elem_of_singleton. reflexivity.
  - apply (bool_decide_unpack _). vm_compute. exact I.
  - apply (bool_decide_unpack _). vm_compute. exact I.
Defined.

Lemma unattributed_group_detail_witness :
  mo_items (detailModal noNames [] tuiEnv (fst (openGroupDetail tuiEnv onFirstHeader))) = goneRow.
Proof.
  destruct (unattributed_group_detail noNames [] tuiEnv onFirstHeader (mkRef true true [] []))
    as [_ ->]; vm_compute; reflexivity.
Defined.

Lemma help_never_fits_witness : exists y x text role, Put y x text role ∈ renderModal helpModal 80 24 /\ (24 <= y)%Z.
Proof. apply help_never_fits; lia. Defined.

Lemma render_in_bounds_witness :
  Forall (inside 80 24) (render 0 (fst (buildFrame noNames [] tuiEnv tuiAbout byProcess)) 80 24).
Proof.
  apply render_in_bounds; [vm_compute; discriminate|constructor|vm_compute; discriminate].
Defined.
