(* ===== verification/GroupProxy.v ===== *)
(** * The grouping model: [src/ui/ConnectionGroupProxy.{h,cpp}]

    A two-level tree over the flat flow table: one top-level row per interface,
    container or process, the flows below it.  The source model is a list of
    rows; an event changes it and runs the slot the source's signal is
    connected to.  [Sig] lists what the proxy announces, in order; a pair of
    [begin]/[end] calls is one signal, carrying what a view reads back when the
    bracket closes.

    [std::sort] and [QVariant::compare] are the library's; so is the text of
    numbers and of user names. *)

From S2P Require Import Prelude Qt StdAlgo Conn Units.

Inductive ViewMode := Flat | ByInterface | ByContainer | ByProcess.
#[global] Instance ViewMode_eq_dec : EqDecision ViewMode. Proof. solve_decision. Defined.

Inductive Role :=
| DisplayRole | ToolTipRole | FontRole
| SortRole | ConnectionRole | RxRateRole | TxRateRole | GroupChipsRole
| IsIPv6Role | ProtoTextRole | ProtoRole | LocalTextRole | RemoteTextRole | IsStaleRole | IfaceNameRole | DirectionRole
| HostnameLocalRole | HostnameRemoteRole | ProcessPidRole | ProcessCommRole
| ContainerRuntimeRole | ContainerIdRole | ContainerNameRole | ContainerChainRole
| GaugeFractionRole | GaugeDarkColorRole | ForegroundRole | BackgroundRole | TextAlignmentRole
| OtherRole (n : Z).
#[global] Instance Role_eq_dec : EqDecision Role. Proof. solve_decision. Defined.

Inductive Column :=
| ColIface | ColFlow | ColRxRate | ColTxRate | ColRxTotal | ColTxTotal | ColRxMax | ColTxMax
| ColProcess | ColContainer.

Definition columns : list Column :=
  [ColIface; ColFlow; ColRxRate; ColTxRate; ColRxTotal; ColTxTotal; ColRxMax; ColTxMax; ColProcess; ColContainer].

Inductive QVariant :=
| VInvalid
| VString (s : QString)
| VInt (z : Z)
| VULongLong (z : Z)
| VDouble (d : double)
| VChips (l : list (QString * QString))
| VFont (bold italic : bool)
| VBool (b : bool)
| VColor (r g b : Z)
| VConnection (c : Connection)
| VStringList (l : list QString).

Class QtVariant := {
  variantCompare : QVariant -> QVariant -> option comparison;   (* None: unordered *)
  variantToDouble : QVariant -> double;
}.

(** A row of the source: the flow, its smoothed rates, and what the source's
    [data] answers for a column and a role. *)
Record SrcRow := mkSrcRow {
  sr_conn : Connection;
  sr_rxRate : double;
  sr_txRate : double;
  sr_data : Z -> Role -> QVariant;
}.

Record Group := mkGroup { g_key : QString; g_label : QString; g_rows : list nat }.

Definition setRows (rows : list nat) (g : Group) : Group := mkGroup (g_key g) (g_label g) rows.
Definition setLabel (l : QString) (g : Group) : Group := mkGroup (g_key g) l (g_rows g).

(** [ProcessDetails] of the cache the window fills. *)
Record CachedDetails := mkCached {
  cd_pid : Z; cd_uid : Z; cd_comm : QString; cd_exe : QString; cd_cmdline : QString; cd_cwd : QString;
  cd_startTimeJiffies : Z;
}.

Definition cd_valid (d : CachedDetails) : bool := (0 <? cd_pid d)%Z.

Inductive SortOrder := Ascending | Descending.
#[global] Instance SortOrder_eq_dec : EqDecision SortOrder. Proof. solve_decision. Defined.

Record GroupProxy := mkProxy {
  gp_src : option (list SrcRow);          (* m_src and what it holds *)
  gp_mode : ViewMode;
  gp_groups : list Group;
  gp_srcIndex : gmap nat (nat * nat);
  gp_sortColumn : Z;
  gp_sortOrder : SortOrder;
  gp_sortWithin : bool;
  gp_showDetails : bool;
}.

Definition newProxy : GroupProxy := mkProxy None Flat [] ∅ (-1) Ascending true true.

Definition setSrc (src : option (list SrcRow)) (st : GroupProxy) : GroupProxy :=
  mkProxy src (gp_mode st) (gp_groups st) (gp_srcIndex st) (gp_sortColumn st) (gp_sortOrder st) (gp_sortWithin st) (gp_showDetails st).
Definition setMode (m : ViewMode) (st : GroupProxy) : GroupProxy :=
  mkProxy (gp_src st) m (gp_groups st) (gp_srcIndex st) (gp_sortColumn st) (gp_sortOrder st) (gp_sortWithin st) (gp_showDetails st).
Definition setGroups (gs : list Group) (st : GroupProxy) : GroupProxy :=
  mkProxy (gp_src st) (gp_mode st) gs (gp_srcIndex st) (gp_sortColumn st) (gp_sortOrder st) (gp_sortWithin st) (gp_showDetails st).
Definition setIndex (ix : gmap nat (nat * nat)) (st : GroupProxy) : GroupProxy :=
  mkProxy (gp_src st) (gp_mode st) (gp_groups st) ix (gp_sortColumn st) (gp_sortOrder st) (gp_sortWithin st) (gp_showDetails st).
Definition setSort (col : Z) (o : SortOrder) (st : GroupProxy) : GroupProxy :=
  mkProxy (gp_src st) (gp_mode st) (gp_groups st) (gp_srcIndex st) col o (gp_sortWithin st) (gp_showDetails st).
Definition setWithin (b : bool) (st : GroupProxy) : GroupProxy :=
  mkProxy (gp_src st) (gp_mode st) (gp_groups st) (gp_srcIndex st) (gp_sortColumn st) (gp_sortOrder st) b (gp_showDetails st).
Definition setDetails (b : bool) (st : GroupProxy) : GroupProxy :=
  mkProxy (gp_src st) (gp_mode st) (gp_groups st) (gp_srcIndex st) (gp_sortColumn st) (gp_sortOrder st) (gp_sortWithin st) b.

(** What the proxy announces.  [parent]: [None] for top-level rows, else the
    group's row.  An insertion carries the number of children of each new
    row. *)
Inductive Sig :=
| ModelReset (shape : list nat)
| RowsInserted (parent : option nat) (first : nat) (kids : list nat)
| RowsRemoved (parent : option nat) (first last : nat)
| DataChanged (parent : option nat) (first last : nat) (firstCol lastCol : Z) (roles : list Role)
| LayoutChanged (shape : list nat).

(* ------------------------------------------------------------------ *)
(** ** Keys and labels of a flow *)

Definition groupKeyFor (m : ViewMode) (c : Connection) : QString :=
  match m with
  | Flat => []
  | ByInterface => if isEmpty (c_iface c) then qs "(unattributed)" else c_iface c
  | ByContainer =>
      let ci := c_container c in
      if negb (isEmpty (ci_id ci)) then ci_runtime ci ++ qs "/" ++ ci_id ci
      else if negb (isEmpty (ci_name ci)) then ci_runtime ci ++ qs "/" ++ ci_name ci
      else qs "(host)"
  | ByProcess =>
      let p := c_process c in
      if (0 <? pi_pid p)%Z then qarg (qarg (qs "%1/%2") (number (pi_pid p))) (pi_comm p)
      else qs "(unattributed)"
  end.

Definition groupLabelFor (m : ViewMode) (c : Connection) : QString :=
  match m with
  | Flat => []
  | ByInterface => if isEmpty (c_iface c) then qs "(unattributed)" else c_iface c
  | ByContainer =>
      let ci := c_container c in
      if isEmpty (ci_id ci) && isEmpty (ci_name ci) then qs "(host)"
      else
        let display := if negb (isEmpty (ci_name ci)) then ci_name ci else qleft 12 (ci_id ci) in
        if isEmpty (ci_runtime ci) then display else ci_runtime ci ++ qs ": " ++ display
  | ByProcess =>
      let p := c_process c in
      if (0 <? pi_pid p)%Z then
        let name := if isEmpty (pi_comm p) then qarg (qs "pid %1") (number (pi_pid p)) else pi_comm p in
        qarg (qarg (qs "%1  [pid %2]") name) (number (pi_pid p))
      else qs "(unattributed)"
  end.

(** [connectionAt]: the default flow when the row does not exist. *)
Definition connectionAt (src : list SrcRow) (r : nat) : Connection :=
  match src !! r with Some row => sr_conn row | None => emptyConnection end.

Definition keyAt (m : ViewMode) (src : list SrcRow) (r : nat) : QString := groupKeyFor m (connectionAt src r).
Definition labelAt (m : ViewMode) (src : list SrcRow) (r : nat) : QString := groupLabelFor m (connectionAt src r).

Definition newGroup (m : ViewMode) (src : list SrcRow) (r : nat) : Group :=
  mkGroup (keyAt m src r) (labelAt m src r) [r].

(** Position of the first group with a key. *)
Fixpoint findKey (k : QString) (gs : list Group) : option nat :=
  match gs with
  | [] => None
  | g :: gs' => if qeqb (g_key g) k then Some 0 else S <$> findKey k gs'
  end.

(* ------------------------------------------------------------------ *)
(** ** Group headers *)

Section Headers.
Context `{QtNumberText, QtVariant}.
Variable userNameForUid : Z -> QString.
Variable details : option (Z -> option CachedDetails).    (* m_details *)

Definition dsum (l : list double) : double := foldl dadd dzero l.

Definition rateSum (rate : SrcRow -> double) (src : list SrcRow) (g : Group) : double :=
  dsum (map (fun r => match src !! r with Some row => rate row | None => dzero end) (g_rows g)).

Definition byteSum (bytes : Connection -> Z) (src : list SrcRow) (g : Group) : Z :=
  foldl (fun acc r => u64 (acc + bytes (connectionAt src r))) 0%Z (g_rows g).

Definition colNumber (c : Column) : Z :=
  match c with
  | ColIface => 0 | ColFlow => 1 | ColRxRate => 2 | ColTxRate => 3 | ColRxTotal => 4 | ColTxTotal => 5
  | ColRxMax => 6 | ColTxMax => 7 | ColProcess => 8 | ColContainer => 9
  end.

Definition columnOf (z : Z) : option Column := if (z <? 0)%Z then None else columns !! Z.to_nat z.

Definition sumMaxRefs (src : list SrcRow) (c : Column) (g : Group) : double :=
  dsum (map (fun r => match src !! r with
                      | Some row => variantToDouble (sr_data row (colNumber c) SortRole)
                      | None => variantToDouble VInvalid
                      end) (g_rows g)).

Definition firstFlow (src : list SrcRow) (g : Group) : Connection :=
  match g_rows g with r :: _ => connectionAt src r | [] => emptyConnection end.

Definition detailsMatchFlow (d : CachedDetails) (c : Connection) : bool :=
  isEmpty (pi_comm (c_process c)) || isEmpty (cd_comm d) || qeqb (cd_comm d) (pi_comm (c_process c)).

(** The cached details that still describe the flow's process. *)
Definition liveDetails (c : Connection) : option CachedDetails :=
  match details with
  | Some cache =>
      match cache (pi_pid (c_process c)) with
      | Some d => if cd_valid d && detailsMatchFlow d c then Some d else None
      | None => None
      end
  | None => None
  end.

Definition inContainer (c : Connection) : bool :=
  negb (isEmpty (ci_runtime (c_container c))) || negb (isEmpty (ci_id (c_container c))).

Definition ellipsis : QString := [8230]%Z.
Definition emDash : QString := [8212]%Z.
Definition middleDot : QString := qs "  " ++ [183]%Z ++ qs "  ".

Definition flowCount (n : nat) : QString :=
  qarg (qarg (qs "%1 flow%2") (number (Z.of_nat n))) (if (n =? 1)%nat then [] else qs "s").

Definition groupChips (showDetails : bool) (m : ViewMode) (src : list SrcRow) (g : Group) : list (QString * QString) :=
  if isEmpty (g_rows g) then []
  else
    let c := firstFlow src g in
    let p := c_process c in
    let ci := c_container c in
    (match m with
     | ByProcess =>
         (if isEmpty (pi_comm p) then [] else [(pi_comm p, qs "process")]) ++
         (if (0 <? pi_pid p)%Z && showDetails then
            let user := if inContainer c then [] else userNameForUid (pi_uid p) in
            [(qarg (qs "pid %1") (number (pi_pid p)), qs "pid");
             (if isEmpty user then qarg (qs "uid %1") (number (pi_uid p))
              else qarg (qarg (qs "%1 (uid %2)") user) (number (pi_uid p)), qs "user")] ++
            match liveDetails c with
            | Some d =>
                if isEmpty (cd_cmdline d) then []
                else [(if (60 <? length (cd_cmdline d))%nat then qleft 57 (cd_cmdline d) ++ ellipsis else cd_cmdline d,
                       qs "cmdline")]
            | None => []
            end
          else [])
     | ByContainer =>
         let primary := if isEmpty (ci_name ci) then g_label g
                        else if isEmpty (ci_runtime ci) then ci_name ci
                        else ci_runtime ci ++ qs ": " ++ ci_name ci in
         (primary, qs "container") ::
         (if showDetails && negb (isEmpty (ci_id ci)) then [(qarg (qs "id %1") (qleft 12 (ci_id ci)), qs "id")] else [])
     | ByInterface => [(g_label g, qs "iface")]
     | Flat => []
     end) ++ [(flowCount (length (g_rows g)), qs "count")].

Definition groupDetailInline (showDetails : bool) (m : ViewMode) (src : list SrcRow) (g : Group) : QString :=
  qjoin middleDot (map fst (groupChips showDetails m src g)).

(** [QString::toHtmlEscaped]. *)
Fixpoint htmlEscaped (s : QString) : QString :=
  match s with
  | [] => []
  | c :: s' =>
      (if (c =? 60)%Z then qs "&lt;" else if (c =? 62)%Z then qs "&gt;"
       else if (c =? 38)%Z then qs "&amp;" else if (c =? 34)%Z then qs "&quot;" else [c]) ++ htmlEscaped s'
  end.

Definition line (prefix value : QString) : list QString :=
  if isEmpty value then [] else [prefix ++ htmlEscaped value].

Definition tooltipLines (m : ViewMode) (src : list SrcRow) (g : Group) : list QString :=
  let c := firstFlow src g in
  let p := c_process c in
  let ci := c_container c in
  match m with
  | ByProcess =>
      if (0 <? pi_pid p)%Z then
        let user := if inContainer c then [] else userNameForUid (pi_uid p) in
        line (qs "Process: ") (pi_comm p) ++
        [qarg (qs "PID: %1") (number (pi_pid p));
         if isEmpty user then qarg (qs "User: uid %1") (number (pi_uid p))
         else qarg (qarg (qs "User: %1 (uid %2)") (htmlEscaped user)) (number (pi_uid p))] ++
        match liveDetails c with
        | Some d => line (qs "Exe: ") (cd_exe d) ++ line (qs "Cmdline: ") (cd_cmdline d) ++ line (qs "Cwd: ") (cd_cwd d)
        | None => []
        end
      else []
  | ByContainer =>
      if negb (isEmpty (ci_id ci)) || negb (isEmpty (ci_name ci)) then
        line (qs "Runtime: ") (ci_runtime ci) ++ line (qs "Name: ") (ci_name ci) ++ line (qs "ID: ") (ci_id ci)
      else []
  | ByInterface => [qs "Interface: " ++ htmlEscaped (g_label g)]
  | Flat => []
  end.

Definition groupDetailTooltip (showDetails : bool) (m : ViewMode) (src : list SrcRow) (g : Group) : QString :=
  if negb showDetails || isEmpty (g_rows g) then []
  else
    let lines := tooltipLines m src g in
    if isEmpty lines then []
    else qs "<qt>" ++ qjoin (qs "<br>") (lines ++ [flowCount (length (g_rows g))]) ++ qs "</qt>".

(** [None] where the language leaves the result undefined (a rate that no
    integer can hold). *)
Definition textOf (t : option QString) : option QVariant := VString <$> t.

Definition aggregateDisplay (showDetails : bool) (m : ViewMode) (src : list SrcRow) (g : Group) (col : Column) : option QVariant :=
  match col with
  | ColIface => Some (VString (qarg (qarg (qs "%1  [%2]") (g_label g)) (number (Z.of_nat (length (g_rows g))))))
  | ColFlow => Some (VString (groupDetailInline showDetails m src g))
  | ColRxRate => textOf (formatByteRate (rateSum sr_rxRate src g))
  | ColTxRate => textOf (formatByteRate (rateSum sr_txRate src g))
  | ColRxTotal => Some (VString (formatBytes (byteSum c_rxBytes src g)))
  | ColTxTotal => Some (VString (formatBytes (byteSum c_txBytes src g)))
  | ColRxMax | ColTxMax =>
      let v := sumMaxRefs src col g in
      if dlt dzero v then textOf (formatByteRate v) else Some (VString emDash)
  | ColProcess | ColContainer => Some (VString emDash)
  end.

Definition aggregateSort (src : list SrcRow) (g : Group) (col : Column) : QVariant :=
  match col with
  | ColIface => VString (g_label g)
  | ColFlow => VInt (Z.of_nat (length (g_rows g)))
  | ColRxRate => VDouble (rateSum sr_rxRate src g)
  | ColTxRate => VDouble (rateSum sr_txRate src g)
  | ColRxTotal => VULongLong (byteSum c_rxBytes src g)
  | ColTxTotal => VULongLong (byteSum c_txBytes src g)
  | ColRxMax | ColTxMax => VDouble (sumMaxRefs src col g)
  | ColProcess | ColContainer => VString []
  end.

Definition aggregateData (showDetails : bool) (m : ViewMode) (src : list SrcRow) (g : Group) (column : Z) (role : Role) : option QVariant :=
  match role with
  | DisplayRole => match columnOf column with Some col => aggregateDisplay showDetails m src g col | None => Some VInvalid end
  | SortRole => Some (match columnOf column with Some col => aggregateSort src g col | None => VInvalid end)
  | ToolTipRole => Some (VString (groupDetailTooltip showDetails m src g))
  | GroupChipsRole => Some (VChips (groupChips showDetails m src g))
  | RxRateRole => Some (VDouble (rateSum sr_rxRate src g))
  | TxRateRole => Some (VDouble (rateSum sr_txRate src g))
  | FontRole => Some (VFont true false)
  | _ => Some VInvalid
  end.
End Headers.

(* ------------------------------------------------------------------ *)
(** ** Sorting *)

Section Operations.
Context `{QtVariant, StdFullSort}.

(** [cmpVariant]. *)
Definition cmpVariant (o : SortOrder) (a b : QVariant) : bool :=
  match variantCompare a b with
  | Some Eq => false
  | r => let less := bool_decide (r = Some Lt) in
         match o with Ascending => less | Descending => negb less end
  end.

Definition sortValue (src : list SrcRow) (col : Z) (r : nat) : QVariant :=
  match src !! r with Some row => sr_data row col SortRole | None => VInvalid end.

Definition rowLess (src : list SrcRow) (col : Z) (o : SortOrder) (lhs rhs : nat) : bool :=
  cmpVariant o (sortValue src col lhs) (sortValue src col rhs).

Definition groupSortValue (src : list SrcRow) (col : Z) (g : Group) : QVariant :=
  match columnOf col with Some c => aggregateSort src g c | None => VInvalid end.

Definition groupLess (src : list SrcRow) (col : Z) (o : SortOrder) (lhs rhs : Group) : bool :=
  cmpVariant o (groupSortValue src col lhs) (groupSortValue src col rhs).

Definition sortChildren (src : list SrcRow) (col : Z) (o : SortOrder) (g : Group) : Group :=
  setRows (std_sort (rowLess src col o) (g_rows g)) g.

Definition sortGroups (src : list SrcRow) (st : GroupProxy) (gs : list Group) : list Group :=
  let gs1 := map (sortChildren src (gp_sortColumn st) (gp_sortOrder st)) gs in
  if gp_sortWithin st then gs1
  else std_sort (groupLess src (gp_sortColumn st) (gp_sortOrder st)) gs1.

Definition applyCurrentSort (src : list SrcRow) (st : GroupProxy) : GroupProxy :=
  if (gp_sortColumn st <? 0)%Z || bool_decide (gp_mode st = Flat) || isEmpty (gp_groups st) then st
  else setGroups (sortGroups src st (gp_groups st)) st.

(** ** The reverse index *)

Definition indexGroup (ix : gmap nat (nat * nat)) (gi : nat) (g : Group) : gmap nat (nat * nat) :=
  foldl (fun m '(ci, r) => <[r := (gi, ci)]> m) ix (imap pair (g_rows g)).

Definition srcIndexOf (gs : list Group) : gmap nat (nat * nat) :=
  foldl (fun m '(gi, g) => indexGroup m gi g) ∅ (imap pair gs).

Definition refreshSrcIndex (st : GroupProxy) : GroupProxy :=
  setIndex (if bool_decide (gp_mode st = Flat) then ∅ else srcIndexOf (gp_groups st)) st.

(** ** Model indexes: row, column and internal id ([None] is [kTopLevelId]) *)

Record MIdx := mkIdx { ix_row : nat; ix_col : Z; ix_id : option nat }.

Definition kids (gs : list Group) : list nat := map (fun g => length (g_rows g)) gs.

(** The tree a view sees: the number of children of every top-level row. *)
Definition shape (st : GroupProxy) : list nat :=
  match gp_mode st with
  | Flat => match gp_src st with Some src => replicate (length src) 0 | None => [] end
  | _ => kids (gp_groups st)
  end.

Definition lastCol : Z := 9.                        (* columnCount() - 1 *)

Definition headerChanged (gi : nat) : Sig := DataChanged None gi gi 0 lastCol [].

(** [resortGroupsPreservingIndexes]. *)
Definition sameOrder (a b : list Group) : bool :=
  bool_decide (map (fun g => (g_key g, g_rows g)) a = map (fun g => (g_key g, g_rows g)) b).

Definition resortGroups (st : GroupProxy) : GroupProxy * list Sig * bool :=
  match gp_src st with
  | None => (st, [], false)
  | Some src =>
      if (gp_sortColumn st <? 0)%Z || bool_decide (gp_mode st = Flat) || isEmpty (gp_groups st) then (st, [], false)
      else
        let sorted := sortGroups src st (gp_groups st) in
        if sameOrder sorted (gp_groups st) then (st, [], false)
        else let st' := refreshSrcIndex (setGroups sorted st) in (st', [LayoutChanged (shape st')], true)
  end.

(** The identity of a persistent index: its group's key and, for a flow, the
    source row. *)
Definition identityOf (gs : list Group) (p : MIdx) : option (QString * option nat) :=
  match ix_id p with
  | None => match gs !! ix_row p with Some g => Some (g_key g, None) | None => None end
  | Some gi =>
      match gs !! gi with
      | Some g => match g_rows g !! ix_row p with Some r => Some (g_key g, Some r) | None => None end
      | None => None
      end
  end.

(** Where a re-sort sends a persistent index: the entry of [newList]. *)
Definition remapIndex (old new : list Group) (newIx : gmap nat (nat * nat)) (p : MIdx) : option MIdx :=
  match identityOf old p with
  | None => None
  | Some (k, rowId) =>
      if isEmpty k then None
      else match findKey k new with
           | None => None
           | Some gi =>
               match rowId with
               | None => Some (mkIdx gi (ix_col p) None)
               | Some r => match newIx !! r with
                           | Some (gi', ci) => Some (mkIdx ci (ix_col p) (Some gi'))
                           | None => None
                           end
               end
           end
  end.

(* ------------------------------------------------------------------ *)
(** ** Rebuilding *)

(** One source row of [rebuild]'s loop. *)
Definition addRow (m : ViewMode) (src : list SrcRow) (gs : list Group) (r : nat) : list Group :=
  match findKey (keyAt m src r) gs with
  | Some gi => alter (fun g => setRows (g_rows g ++ [r]) g) gi gs
  | None => gs ++ [newGroup m src r]
  end.

Definition rebuildGroups (m : ViewMode) (src : list SrcRow) : list Group :=
  foldl (addRow m src) [] (seq 0 (length src)).

Definition rebuild (st : GroupProxy) : GroupProxy :=
  let st0 := setIndex ∅ (setGroups [] st) in
  match gp_src st with
  | Some src =>
      if bool_decide (gp_mode st = Flat) then st0
      else refreshSrcIndex (applyCurrentSort src (setGroups (rebuildGroups (gp_mode st) src) st0))
  | None => st0
  end.

Definition onSourceReset (st : GroupProxy) : GroupProxy * list Sig :=
  let st' := rebuild st in (st', [ModelReset (shape st')]).

(* ------------------------------------------------------------------ *)
(** ** Insertion *)

Definition shiftUp (first count : nat) (gs : list Group) : list Group :=
  map (fun g => setRows (map (fun r => if (first <=? r)%nat then r + count else r) (g_rows g)) g) gs.

Definition insertRow (m : ViewMode) (src : list SrcRow) (gs : list Group) (r : nat) : list Group * list Sig :=
  match findKey (keyAt m src r) gs with
  | Some gi =>
      let childRow := match gs !! gi with Some g => length (g_rows g) | None => 0 end in
      (alter (fun g => setRows (g_rows g ++ [r]) g) gi gs,
       [RowsInserted (Some gi) childRow [0]; headerChanged gi])
  | None => (gs ++ [newGroup m src r], [RowsInserted None (length gs) [1]])
  end.

Fixpoint insertRows (m : ViewMode) (src : list SrcRow) (gs : list Group) (rs : list nat) : list Group * list Sig :=
  match rs with
  | [] => (gs, [])
  | r :: rs' =>
      let '(gs1, o) := insertRow m src gs r in
      let '(gs2, o') := insertRows m src gs1 rs' in (gs2, o ++ o')
  end.

(** The source gained [count] rows at [first]; [src] is its content after. *)
Definition onSourceRowsInserted (src : list SrcRow) (first count : nat) (st : GroupProxy) : GroupProxy * list Sig :=
  let st0 := setSrc (Some src) st in
  match gp_mode st with
  | Flat => (st0, [RowsInserted None first (replicate count 0)])
  | m =>
      let '(gs, o) := insertRows m src (shiftUp first count (gp_groups st)) (seq first count) in
      let '(st2, o', _) := resortGroups (refreshSrcIndex (setGroups gs st0)) in (st2, o ++ o')
  end.

(* ------------------------------------------------------------------ *)
(** ** Removal *)

Fixpoint indexOfRow (r : nat) (l : list nat) : option nat :=
  match l with
  | [] => None
  | x :: l' => if (x =? r)%nat then Some 0 else S <$> indexOfRow r l'
  end.

(** The first group that lists a row, and where. *)
Fixpoint locateRow (r : nat) (gs : list Group) : option (nat * nat) :=
  match gs with
  | [] => None
  | g :: gs' =>
      match indexOfRow r (g_rows g) with
      | Some ci => Some (0, ci)
      | None => match locateRow r gs' with Some (gi, ci) => Some (S gi, ci) | None => None end
      end
  end.

Definition groupEmptyAt (gi : nat) (gs : list Group) : bool :=
  match gs !! gi with Some g => isEmpty (g_rows g) | None => true end.

Definition keyOfGroup (gi : nat) (gs : list Group) : list QString :=
  match gs !! gi with Some g => [g_key g] | None => [] end.

(** The loop over the removed rows: groups, emptied groups, touched keys. *)
Fixpoint removeRows (gs : list Group) (emptied : list nat) (touched : list QString) (rs : list nat)
  : list Group * list nat * list QString * list Sig :=
  match rs with
  | [] => (gs, emptied, touched, [])
  | r :: rs' =>
      match locateRow r gs with
      | None => removeRows gs emptied touched rs'
      | Some (gi, ci) =>
          let gs1 := alter (fun g => setRows (delete ci (g_rows g)) g) gi gs in
          let '(emptied1, touched1) :=
            if groupEmptyAt gi gs1
            then (if bool_decide (gi ∈ emptied) then emptied else emptied ++ [gi], touched)
            else (emptied, keyOfGroup gi gs1 ++ touched) in
          let '(gs2, e2, t2, o) := removeRows gs1 emptied1 touched1 rs' in
          (gs2, e2, t2, RowsRemoved (Some gi) ci ci :: o)
      end
  end.

Definition shiftDown (last count : nat) (gs : list Group) : list Group :=
  map (fun g => setRows (map (fun r => if (last <? r)%nat then r - count else r) (g_rows g)) g) gs.

(** [std::sort] of distinct row numbers, largest first. *)
Definition sortDescending (l : list nat) : list nat := isort (fun a b => (b <? a)%nat) l.

Definition dropGroups (gs : list Group) (descending : list nat) : list Group :=
  foldl (fun acc gi => delete gi acc) gs descending.

Definition touchedSignals (gs : list Group) (touched : list QString) : list Sig :=
  concat (imap (fun gi g => if bool_decide (g_key g ∈ touched) then [headerChanged gi] else []) gs).

(** The source lost [count] rows from [first]; [src] is its content after. *)
Definition onSourceRowsRemoved (src : list SrcRow) (first count : nat) (st : GroupProxy) : GroupProxy * list Sig :=
  let st0 := setSrc (Some src) st in
  match gp_mode st with
  | Flat => (st0, [RowsRemoved None first (first + count - 1)])
  | _ =>
      let '(gs1, emptied, touched, o1) := removeRows (gp_groups st) [] [] (seq first count) in
      let gs2 := shiftDown (first + count - 1) count gs1 in
      let order := sortDescending emptied in
      let gs3 := dropGroups gs2 order in
      let st1 := refreshSrcIndex (setGroups gs3 st0) in
      let '(st2, o2, _) := resortGroups st1 in
      (st2, o1 ++ map (fun gi => RowsRemoved None gi gi) order ++ touchedSignals gs3 touched ++ o2)
  end.

(* ------------------------------------------------------------------ *)
(** ** Changed data *)

(** The first half of a move: out of the current group. *)
Definition detachRow (gi ci : nat) (gs : list Group) : list Group * list Sig :=
  let gs1 := alter (fun g => setRows (delete ci (g_rows g)) g) gi gs in
  if groupEmptyAt gi gs1
  then (delete gi gs1, [RowsRemoved (Some gi) ci ci; RowsRemoved None gi gi])
  else (gs1, [RowsRemoved (Some gi) ci ci; headerChanged gi]).

Definition regroupSourceRow (src : list SrcRow) (r : nat) (st : GroupProxy) : GroupProxy * list Sig * bool :=
  let m := gp_mode st in
  let newKey := keyAt m src r in
  match gp_srcIndex st !! r with
  | Some (gi, ci) =>
      match gp_groups st !! gi with
      | Some g =>
          if qeqb (g_key g) newKey then
            let newLabel := labelAt m src r in
            if qeqb (g_label g) newLabel then (st, [], false)
            else (setGroups (alter (setLabel newLabel) gi (gp_groups st)) st, [headerChanged gi], false)
          else
            let '(gs1, o1) := detachRow gi ci (gp_groups st) in
            let '(gs2, o2) := insertRow m src gs1 r in
            (refreshSrcIndex (setGroups gs2 st), o1 ++ o2, true)
      | None =>
          let '(gs2, o2) := insertRow m src (gp_groups st) r in
          (refreshSrcIndex (setGroups gs2 st), o2, true)
      end
  | None =>
      let '(gs2, o2) := insertRow m src (gp_groups st) r in
      (refreshSrcIndex (setGroups gs2 st), o2, true)
  end.

Fixpoint regroupRows (src : list SrcRow) (rs : list nat) (st : GroupProxy) : GroupProxy * list Sig * bool :=
  match rs with
  | [] => (st, [], false)
  | r :: rs' =>
      let '(st1, o1, b1) := regroupSourceRow src r st in
      let '(st2, o2, b2) := regroupRows src rs' st1 in (st2, o1 ++ o2, b1 || b2)
  end.

(** [forwardSourceDataChanged]; the order of the group repaints is the hash
    set's and is taken to be ascending here. *)
Definition forwardSourceDataChanged (first last : nat) (c1 c2 : Z) (roles : list Role) (st : GroupProxy) : list Sig :=
  let rows := seq first (S last - first) in
  omap (fun r => match gp_srcIndex st !! r with
                 | Some (gi, ci) => Some (DataChanged (Some gi) ci ci c1 c2 roles)
                 | None => None
                 end) rows ++
  omap (fun gi => if bool_decide (Exists (fun r => fst <$> gp_srcIndex st !! r = Some gi) rows)
                  then Some (DataChanged None gi gi c1 c2 roles) else None)
       (seq 0 (length (gp_groups st))).

(** The source's rows [first..last] changed; [src] is its content after. *)
Definition onSourceDataChanged (src : list SrcRow) (first last : nat) (c1 c2 : Z) (roles : list Role) (st : GroupProxy)
  : GroupProxy * list Sig :=
  let st0 := setSrc (Some src) st in
  match gp_mode st with
  | Flat => (st0, [DataChanged None first last c1 c2 roles])
  | _ =>
      let '(st1, o1) :=
        if isEmpty roles || bool_decide (ConnectionRole ∈ roles) then
          let '(sta, oa, moved) := regroupRows src (seq first (S last - first)) st0 in
          if moved then let '(stb, ob, _) := resortGroups sta in (stb, oa ++ ob) else (sta, oa)
        else (st0, []) in
      (st1, o1 ++ forwardSourceDataChanged first last c1 c2 roles st1)
  end.

(* ------------------------------------------------------------------ *)
(** ** Settings and sorting *)

(** [setViewMode]; the source re-sorts itself with its signals blocked, [src']
    is its order after. *)
Definition setViewMode (m : ViewMode) (src' : list SrcRow) (st : GroupProxy) : GroupProxy * list Sig :=
  if bool_decide (m = gp_mode st) then (st, [])
  else
    let st1 := setMode m (match gp_src st with Some _ => setSrc (Some src') st | None => st end) in
    let st2 := rebuild st1 in (st2, [ModelReset (shape st2)]).

Definition setSourceModel (src : option (list SrcRow)) (st : GroupProxy) : GroupProxy * list Sig :=
  let st' := rebuild (setSrc src st) in (st', [ModelReset (shape st')]).

(** The source announced a new layout of its own, [src'] after. *)
Definition onSourceLayoutChanged (src' : list SrcRow) (st : GroupProxy) : GroupProxy * list Sig :=
  let st0 := setSrc (Some src') st in
  match gp_mode st with
  | Flat => (st0, [LayoutChanged (shape st0)])
  | _ => onSourceReset st0
  end.

(** [sort]; in flat mode the source sorts, [src'] is its order after. *)
Definition sort (column : Z) (o : SortOrder) (src' : list SrcRow) (st : GroupProxy) : GroupProxy * list Sig :=
  let st1 := setSort column o st in
  match gp_src st with
  | None => (st1, [])
  | Some _ =>
      match gp_mode st with
      | Flat => let st2 := setSrc (Some src') st1 in (st2, [LayoutChanged (shape st2)])
      | _ => let '(st2, out, _) := resortGroups st1 in (st2, out)
      end
  end.

Definition setSortWithinGroups (on : bool) (st : GroupProxy) : GroupProxy * list Sig :=
  if Bool.eqb (gp_sortWithin st) on then (st, [])
  else let '(st', out, _) := resortGroups (setWithin on st) in (st', out).

Definition setShowGroupDetails (on : bool) (st : GroupProxy) : GroupProxy * list Sig :=
  if Bool.eqb (gp_showDetails st) on then (st, [])
  else
    let st' := setDetails on st in
    if bool_decide (gp_mode st = Flat) || isEmpty (gp_groups st) then (st', [])
    else (st', [DataChanged None 0 (length (gp_groups st) - 1) 0 lastCol []]).

Definition refreshGroupTooltips (st : GroupProxy) : list Sig :=
  if bool_decide (gp_mode st = Flat) || isEmpty (gp_groups st) then []
  else [DataChanged None 0 (length (gp_groups st) - 1) 0 lastCol [DisplayRole; GroupChipsRole; ToolTipRole]].

(* ------------------------------------------------------------------ *)
(** ** The item-model interface *)

Definition rowCount (parent : option MIdx) (st : GroupProxy) : nat :=
  match gp_mode st with
  | Flat => match parent with Some _ => 0 | None => match gp_src st with Some src => length src | None => 0 end end
  | _ =>
      match parent with
      | None => length (gp_groups st)
      | Some p =>
          match ix_id p with
          | Some _ => 0
          | None => match gp_groups st !! ix_row p with Some g => length (g_rows g) | None => 0 end
          end
      end
  end.

Definition gindex (row : nat) (column : Z) (parent : option MIdx) (st : GroupProxy) : option MIdx :=
  if (column <? 0)%Z then None
  else match gp_mode st with
  | Flat =>
      match parent, gp_src st with
      | None, Some src => if (row <? length src)%nat then Some (mkIdx row column None) else None
      | _, _ => None
      end
  | _ =>
      match parent with
      | None => if (row <? length (gp_groups st))%nat then Some (mkIdx row column None) else None
      | Some p =>
          match ix_id p with
          | Some _ => None
          | None =>
              match gp_groups st !! ix_row p with
              | Some g => if (row <? length (g_rows g))%nat then Some (mkIdx row column (Some (ix_row p))) else None
              | None => None
              end
          end
      end
  end.

Definition gparent (child : MIdx) (st : GroupProxy) : option MIdx :=
  match gp_mode st with
  | Flat => None
  | _ => match ix_id child with Some gi => Some (mkIdx gi 0 None) | None => None end
  end.

Definition isGroupIndex (p : MIdx) (st : GroupProxy) : bool :=
  negb (bool_decide (gp_mode st = Flat)) && bool_decide (ix_id p = None).

(** [mapToSource] and [mapFromSource]: the source's row and column. *)
Definition mapToSource (p : MIdx) (st : GroupProxy) : option (nat * Z) :=
  match gp_src st with
  | None => None
  | Some src =>
      match gp_mode st with
      | Flat => if (ix_row p <? length src)%nat then Some (ix_row p, ix_col p) else None
      | _ =>
          match ix_id p with
          | None => None
          | Some gi =>
              match gp_groups st !! gi with
              | Some g => match g_rows g !! ix_row p with
                          | Some r => if (r <? length src)%nat then Some (r, ix_col p) else None
                          | None => None
                          end
              | None => None
              end
          end
      end
  end.

Definition mapFromSource (r : nat) (col : Z) (st : GroupProxy) : option MIdx :=
  match gp_src st with
  | None => None
  | Some src =>
      match gp_mode st with
      | Flat => gindex r col None st
      | _ => match gp_srcIndex st !! r with
             | Some (gi, ci) => Some (mkIdx ci col (Some gi))
             | None => None
             end
      end
  end.

Definition representativePid (p : MIdx) (st : GroupProxy) : Z :=
  match gp_mode st, gp_src st, ix_id p with
  | ByProcess, Some src, None =>
      match gp_groups st !! ix_row p with
      | Some g => if isEmpty (g_rows g) then 0%Z else pi_pid (c_process (firstFlow src g))
      | None => 0%Z
      end
  | _, _, _ => 0%Z
  end.
End Operations.

(** [data]: flows are forwarded to the source, group rows are aggregated. *)
Definition gdata `{QtNumberText, QtVariant} (userNameForUid : Z -> QString) (details : option (Z -> option CachedDetails))
    (p : MIdx) (role : Role) (st : GroupProxy) : option QVariant :=
  match gp_src st with
  | None => Some VInvalid
  | Some src =>
      if bool_decide (gp_mode st = Flat) || negb (bool_decide (ix_id p = None)) then
        Some (match mapToSource p st with
              | Some (r, c) => match src !! r with Some row => sr_data row c role | None => VInvalid end
              | None => VInvalid
              end)
      else
        match gp_groups st !! ix_row p with
        | Some g => aggregateData userNameForUid details (gp_showDetails st) (gp_mode st) src g (ix_col p) role
        | None => Some VInvalid
        end
  end.
