(* ===== verification/GroupProxyProofs.v ===== *)
(** * Correctness of the grouping model

    In grouped mode the groups are exactly the classes of source rows with the
    same key, the reverse index is exact, a view that replays the structural
    signals has the tree's shape, and a re-sort carries every persistent index
    to the row it denoted. *)

From S2P Require Import Prelude Qt StdAlgo Conn Units GroupProxy.

(* ------------------------------------------------------------------ *)
(** ** Lists *)

Lemma alter_middle {A} (f : A -> A) (l1 l2 : list A) x : alter f (length l1) (l1 ++ x :: l2) = l1 ++ f x :: l2.
Proof. induction l1 as [|y l1 IH]; [done|]. cbn. f_equal. exact IH. Qed.

Lemma lookup_split {A} (l : list A) i x :
  l !! i = Some x -> exists l1 l2, l = l1 ++ x :: l2 /\ length l1 = i.
Proof. intros Hx. apply list_elem_of_split_length in Hx as (l1 & l2 & -> & ->). eauto. Qed.

Lemma delete_lookup_perm {A} (l : list A) i x : l !! i = Some x -> l ≡ₚ x :: delete i l.
Proof. intros Hx. by apply delete_Permutation in Hx. Qed.

Lemma seq_split n k c : k + c <= n -> seq 0 n = seq 0 k ++ seq k c ++ seq (k + c) (n - (k + c)).
Proof.
  intros. rewrite <- seq_app. replace n with (k + (c + (n - (k + c)))) at 1 by lia. by rewrite seq_app.
Qed.

(* ------------------------------------------------------------------ *)
(** ** Groups as classes of rows *)

Definition rowsOf (gs : list Group) : list nat := concat (map g_rows gs).
Definition keysOf (gs : list Group) : list QString := map g_key gs.

(** [gs] partitions the rows [L] by key, except that a row in [dirty] may be
    listed under a key it no longer has. *)
Record groupsOk (m : ViewMode) (src : list SrcRow) (dirty : nat -> Prop) (L : list nat) (gs : list Group) : Prop := {
  go_keys : NoDup (keysOf gs);
  go_full : Forall (fun g => g_rows g <> []) gs;
  go_rows : rowsOf gs ≡ₚ L;
  go_class : forall g r, g ∈ gs -> r ∈ g_rows g -> dirty r \/ keyAt m src r = g_key g;
}.

Definition clean : nat -> Prop := fun _ => False.

Lemma rowsOf_app a b : rowsOf (a ++ b) = rowsOf a ++ rowsOf b.
Proof. unfold rowsOf. by rewrite map_app, concat_app. Qed.

Lemma elem_of_rowsOf r gs : r ∈ rowsOf gs <-> exists g, g ∈ gs /\ r ∈ g_rows g.
Proof.
  unfold rowsOf. induction gs as [|g gs IH]; cbn [map concat]; [split; [set_solver|intros (? & ? & _); set_solver]|].
  rewrite elem_of_app, IH. setoid_rewrite elem_of_cons. naive_solver.
Qed.

Lemma findKey_Some k gs gi :
  findKey k gs = Some gi -> exists g, gs !! gi = Some g /\ g_key g = k.
Proof.
  revert gi. induction gs as [|g gs IH]; intros gi; cbn; [done|].
  destruct (qeqb (g_key g) k) eqn:E.
  - intros [= <-]. exists g. split; [done|]. by apply qeqb_eq.
  - destruct (findKey k gs) as [gi'|]; [|done]. intros [= <-]. by apply IH.
Qed.

Lemma findKey_None k gs : findKey k gs = None <-> k ∉ keysOf gs.
Proof.
  induction gs as [|g gs IH]; cbn; [set_solver|].
  destruct (qeqb (g_key g) k) eqn:E.
  - apply qeqb_eq in E. split; [done|]. unfold keysOf in *. set_solver.
  - apply qeqb_neq in E. destruct (findKey k gs) as [gi'|].
    + split; [done|]. intros Hn. exfalso. apply not_elem_of_cons in Hn as [_ Hn]. by apply IH in Hn.
    + split; [|done]. intros _. apply not_elem_of_cons. split; [done|]. by apply IH.
Qed.

Lemma findKey_lookup gs gi g :
  NoDup (keysOf gs) -> gs !! gi = Some g -> findKey (g_key g) gs = Some gi.
Proof.
  intros Hnd Hg. destruct (findKey (g_key g) gs) as [gi'|] eqn:E.
  - apply findKey_Some in E as (g' & Hg' & Hk). f_equal.
    eapply (NoDup_lookup (keysOf gs)); [done|..]; unfold keysOf; rewrite list_lookup_fmap.
    + by rewrite Hg'.
    + rewrite Hg. cbn. by rewrite Hk.
  - exfalso. apply findKey_None in E. apply E. unfold keysOf. apply list_elem_of_fmap.
    exists g. split; [done|]. by eapply list_elem_of_lookup_2.
Qed.

(** Replacing the rows of one group. *)
Lemma keysOf_setRows l1 l2 g rows : keysOf (l1 ++ setRows rows g :: l2) = keysOf (l1 ++ g :: l2).
Proof. unfold keysOf. by rewrite !map_app. Qed.

Lemma groupsOk_nil m src dirty : groupsOk m src dirty [] [].
Proof. split; [constructor|done|done|set_solver]. Qed.

Lemma groupsOk_perm m src dirty L L' gs : L ≡ₚ L' -> groupsOk m src dirty L gs -> groupsOk m src dirty L' gs.
Proof. intros HL [? ? Hr ?]. split; [done..| |done]. by rewrite Hr. Qed.

Lemma groupsOk_weaken m src (d d' : nat -> Prop) L gs :
  (forall r, r ∈ L -> d r -> d' r) -> groupsOk m src d L gs -> groupsOk m src d' L gs.
Proof.
  intros Hd [? ? Hr Hc]. split; [done..|]. intros g r Hg Hrg. destruct (Hc g r Hg Hrg); [left|by right].
  apply Hd; [|done]. rewrite <- Hr. apply elem_of_rowsOf. eauto.
Qed.

(** Adding a row to the group of its key. *)
Lemma insertRow_ok m src dirty L gs r :
  groupsOk m src dirty L gs -> groupsOk m src dirty (r :: L) (insertRow m src gs r).1.
Proof.
  intros [Hk Hf Hr Hc]. unfold insertRow. destruct (findKey (keyAt m src r) gs) as [gi|] eqn:E; cbn.
  - apply findKey_Some in E as (g & Hg & Hkey). apply lookup_split in Hg as (l1 & l2 & -> & <-).
    rewrite alter_middle. split.
    + by rewrite keysOf_setRows.
    + apply Forall_app in Hf as [? Hf]. apply Forall_cons in Hf as [? ?].
      apply Forall_app. split; [done|]. apply Forall_cons. split; [|done]. cbn. by destruct (g_rows g).
    + rewrite <- Hr. rewrite !rowsOf_app. unfold rowsOf. cbn. solve_Permutation.
    + intros g' r' Hg' Hr'. apply elem_of_app in Hg' as [Hg'|Hg']; [apply Hc; set_solver|].
      apply elem_of_cons in Hg' as [->|Hg']; [|apply Hc; set_solver]. cbn in *.
      apply elem_of_app in Hr' as [Hr'|Hr']; [apply Hc; set_solver|]. apply list_elem_of_singleton in Hr' as ->. by right.
  - apply findKey_None in E. split.
    + unfold keysOf. rewrite map_app. cbn. apply NoDup_app. split_and!; [done| |apply NoDup_singleton].
      intros k Hk'. unfold keysOf in E. set_solver.
    + apply Forall_app. split; [done|]. by apply Forall_singleton.
    + rewrite rowsOf_app, Hr. unfold rowsOf. cbn. by rewrite Permutation_app_comm.
    + intros g' r' Hg' Hr'. apply elem_of_app in Hg' as [Hg'|Hg']; [by apply Hc|]. apply list_elem_of_singleton in Hg' as ->.
      cbn in Hr'. apply list_elem_of_singleton in Hr' as ->. by right.
Qed.

Lemma insertRows_ok m src dirty L gs rs :
  groupsOk m src dirty L gs -> groupsOk m src dirty (rs ++ L) (insertRows m src gs rs).1.
Proof.
  revert L gs. induction rs as [|r rs IH]; intros L gs Hok; [done|]. cbn.
  pose proof (insertRow_ok m src dirty L gs r Hok) as H1.
  destruct (insertRow m src gs r) as [gs1 o1]. cbn in H1. specialize (IH _ _ H1).
  destruct (insertRows m src gs1 rs) as [gs2 o2]. cbn in *.
  eapply groupsOk_perm; [|exact IH]. by rewrite Permutation_middle.
Qed.

Lemma rebuildGroups_ok m src dirty : groupsOk m src dirty (seq 0 (length src)) (rebuildGroups m src).
Proof.
  unfold rebuildGroups.
  enough (forall rs L gs, groupsOk m src dirty L gs -> groupsOk m src dirty (rs ++ L) (foldl (addRow m src) gs rs)) as Hg.
  { eapply groupsOk_perm; [|apply (Hg _ []), groupsOk_nil]. by rewrite app_nil_r. }
  induction rs as [|r rs IH]; intros L gs Hok; [done|]. cbn.
  eapply groupsOk_perm; [|apply IH; pose proof (insertRow_ok m src dirty L gs r Hok) as Hi]; last first.
  - unfold insertRow in Hi. unfold addRow. destruct (findKey _ _); exact Hi.
  - by rewrite Permutation_middle.
Qed.

(* ------------------------------------------------------------------ *)
(** ** A view that follows the signals

    The view keeps the number of children of every top-level row.  A signal is
    legal only for rows that exist; a layout change may only reorder. *)

Inductive replay : list nat -> Sig -> list nat -> Prop :=
| R_reset v s : replay v (ModelReset s) s
| R_layout v s : s ≡ₚ v -> replay v (LayoutChanged s) s
| R_insert v f ks : f <= length v -> ks <> [] ->
    replay v (RowsInserted None f ks) (take f v ++ ks ++ drop f v)
| R_insert_child v gi n f ks : v !! gi = Some n -> f <= n -> ks <> [] ->
    replay v (RowsInserted (Some gi) f ks) (<[gi := n + length ks]> v)
| R_remove v f l : f <= l -> l < length v ->
    replay v (RowsRemoved None f l) (take f v ++ drop (S l) v)
| R_remove_child v gi n f l : v !! gi = Some n -> f <= l -> l < n ->
    replay v (RowsRemoved (Some gi) f l) (<[gi := n - (S l - f)]> v)
| R_data v f l c1 c2 roles : f <= l -> l < length v -> replay v (DataChanged None f l c1 c2 roles) v
| R_data_child v gi n f l c1 c2 roles : v !! gi = Some n -> f <= l -> l < n ->
    replay v (DataChanged (Some gi) f l c1 c2 roles) v.

Inductive replays : list nat -> list Sig -> list nat -> Prop :=
| Rs_nil v : replays v [] v
| Rs_cons v s v1 o v2 : replay v s v1 -> replays v1 o v2 -> replays v (s :: o) v2.

Lemma replays_app v o1 v1 o2 v2 : replays v o1 v1 -> replays v1 o2 v2 -> replays v (o1 ++ o2) v2.
Proof. induction 1; cbn; [done|]. intros. econstructor; eauto. Qed.

Lemma replays_one v s v' : replay v s v' -> replays v [s] v'.
Proof. intros. econstructor; [done|constructor]. Qed.

Lemma replay_header v gi : gi < length v -> replay v (headerChanged gi) v.
Proof. intros. by constructor. Qed.

Lemma length_kids gs : length (kids gs) = length gs.
Proof. unfold kids. by rewrite length_map. Qed.

Lemma kids_app a b : kids (a ++ b) = kids a ++ kids b.
Proof. unfold kids. by rewrite map_app. Qed.

Lemma kids_middle l1 g l2 n rows :
  length rows = n -> <[length l1 := n]> (kids (l1 ++ g :: l2)) = kids (l1 ++ setRows rows g :: l2).
Proof.
  intros <-. rewrite !kids_app. cbn. rewrite <- (length_kids l1). by rewrite insert_app_r_alt, Nat.sub_diag.
Qed.

Lemma kids_lookup l1 g l2 : kids (l1 ++ g :: l2) !! length l1 = Some (length (g_rows g)).
Proof. rewrite kids_app, lookup_app_r by (by rewrite length_kids). by rewrite length_kids, Nat.sub_diag. Qed.

Lemma insertRow_replays m src gs r :
  replays (kids gs) (insertRow m src gs r).2 (kids (insertRow m src gs r).1).
Proof.
  unfold insertRow. destruct (findKey _ gs) as [gi|] eqn:E; cbn.
  - apply findKey_Some in E as (g & Hg & _). rewrite Hg.
    apply lookup_split in Hg as (l1 & l2 & -> & <-). rewrite alter_middle.
    econstructor; [apply R_insert_child; [apply kids_lookup|done|done]|].
    rewrite (kids_middle l1 g l2 _ (g_rows g ++ [r])) by (by rewrite length_app).
    apply replays_one, replay_header. rewrite length_kids, length_app. cbn. lia.
  - apply replays_one. rewrite kids_app.
    replace (kids gs ++ kids [newGroup m src r]) with (take (length gs) (kids gs) ++ [1] ++ drop (length gs) (kids gs)).
    + constructor; [by rewrite length_kids|done].
    + rewrite take_ge, drop_ge by (by rewrite length_kids). by rewrite app_nil_r.
Qed.

Lemma insertRows_replays m src gs rs :
  replays (kids gs) (insertRows m src gs rs).2 (kids (insertRows m src gs rs).1).
Proof.
  revert gs. induction rs as [|r rs IH]; intros gs; cbn; [constructor|].
  pose proof (insertRow_replays m src gs r) as H1. destruct (insertRow m src gs r) as [gs1 o1]. cbn in H1.
  specialize (IH gs1). destruct (insertRows m src gs1 rs) as [gs2 o2]. cbn in *. by eapply replays_app.
Qed.

(* ------------------------------------------------------------------ *)
(** ** Renumbering *)

Definition renumber (f : nat -> nat) (gs : list Group) : list Group := map (fun g => setRows (map f (g_rows g)) g) gs.

Lemma rowsOf_renumber f gs : rowsOf (renumber f gs) = map f (rowsOf gs).
Proof.
  unfold rowsOf, renumber. induction gs as [|g gs IH]; [done|]. cbn. rewrite IH. by rewrite map_app.
Qed.

Lemma renumber_ok m src src' dirty f L gs :
  (forall r, r ∈ L -> ~ dirty r -> keyAt m src' (f r) = keyAt m src r) -> (forall r, r ∈ L -> dirty r -> False) ->
  groupsOk m src dirty L gs -> groupsOk m src' clean (map f L) (renumber f gs).
Proof.
  intros Hf Hd [Hk Hn Hr Hc]. split.
  - unfold keysOf, renumber in *. by rewrite map_map.
  - apply Forall_fmap. eapply Forall_impl; [exact Hn|]. intros g Hg Hnil. apply Hg. by apply map_eq_nil in Hnil.
  - rewrite rowsOf_renumber. by rewrite Hr.
  - intros g' r' Hg' Hr'. apply list_elem_of_fmap in Hg' as (g & -> & Hg). cbn in Hr'.
    apply list_elem_of_fmap in Hr' as (r & -> & Hrg). right.
    assert (r ∈ L) as HL by (rewrite <- Hr; apply elem_of_rowsOf; eauto).
    rewrite Hf; [|done|intros Hdr; exact (Hd r HL Hdr)]. cbn. destruct (Hc g r Hg Hrg) as [Hdr|]; [destruct (Hd r HL Hdr)|done].
Qed.

Lemma kids_renumber f gs : kids (renumber f gs) = kids gs.
Proof. unfold kids, renumber. rewrite map_map. apply map_ext. intros. cbn. by rewrite length_map. Qed.

(* ------------------------------------------------------------------ *)
(** ** Sorting *)

Section Sorting.
Context `{QtVariant, StdFullSortLaws}.

(** The source's sort values are ordered, so that [std::sort] is defined. *)
Definition orderly (src : list SrcRow) : Prop :=
  forall col o,
    swo_on (rowLess src col o) (fun r => r < length src) /\
    swo_on (groupLess src col o) (fun g => Forall (fun r => r < length src) (g_rows g)).

Lemma groupsOk_reorder m src dirty L gs gs' : gs ≡ₚ gs' -> groupsOk m src dirty L gs -> groupsOk m src dirty L gs'.
Proof.
  intros Hp [Hk Hf Hr Hc]. split.
  - unfold keysOf. by rewrite <- Hp.
  - by rewrite <- Hp.
  - unfold rowsOf in *. rewrite <- Hr. rewrite Hp. done.
  - intros g r Hg. apply Hc. by rewrite Hp.
Qed.

Lemma sortChildren_perm src col o g :
  orderly src -> Forall (fun r => r < length src) (g_rows g) -> g_rows (sortChildren src col o g) ≡ₚ g_rows g.
Proof.
  intros Ho Hg. cbn. apply std_sort_perm. eapply swo_on_impl; [|apply (Ho col o)].
  intros r Hr. by apply (proj1 (Forall_forall _ _) Hg).
Qed.

Lemma groupsOk_bound m src dirty L gs :
  Forall (fun r => r < length src) L -> groupsOk m src dirty L gs ->
  forall g, g ∈ gs -> Forall (fun r => r < length src) (g_rows g).
Proof.
  intros HL [_ _ Hr _] g Hg. apply Forall_forall. intros r Hrg. apply (proj1 (Forall_forall _ _) HL).
  rewrite <- Hr. apply elem_of_rowsOf. eauto.
Qed.

Lemma sortGroups_ok m src dirty L gs st :
  orderly src -> Forall (fun r => r < length src) L ->
  groupsOk m src dirty L gs -> groupsOk m src dirty L (sortGroups src st gs).
Proof.
  intros Ho HL Hok. pose proof Hok as [Hk Hf Hr Hc].
  pose proof (groupsOk_bound _ _ _ _ _ HL Hok) as Hin.
  set (gs1 := map (sortChildren src (gp_sortColumn st) (gp_sortOrder st)) gs).
  assert (groupsOk m src dirty L gs1) as Hok1.
  { split.
    - unfold keysOf, gs1. by rewrite map_map.
    - apply Forall_fmap, Forall_forall. intros g Hg. unfold compose.
      pose proof (sortChildren_perm src (gp_sortColumn st) (gp_sortOrder st) g Ho (Hin g Hg)) as Hp.
      rewrite Forall_forall in Hf. specialize (Hf g Hg). intros E. rewrite E in Hp.
      by apply Permutation_nil_l in Hp.
    - rewrite <- Hr. unfold rowsOf, gs1. clear -Ho Hin H1. induction gs as [|g gs IH]; [done|].
      cbn [map concat]. rewrite IH by (intros; apply Hin; set_solver).
      by rewrite sortChildren_perm by (auto; apply Hin; set_solver).
    - intros g' r Hg' Hr'. apply list_elem_of_fmap in Hg' as (g & -> & Hg).
      rewrite sortChildren_perm in Hr' by auto. exact (Hc g r Hg Hr'). }
  unfold sortGroups. fold gs1. destruct (gp_sortWithin st); [done|].
  eapply groupsOk_reorder; [|exact Hok1]. symmetry. apply std_sort_perm.
  eapply swo_on_impl; [|apply (Ho (gp_sortColumn st) (gp_sortOrder st))].
  intros g' Hg'. cbn. apply list_elem_of_fmap in Hg' as (g & -> & Hg).
  rewrite sortChildren_perm by auto. by apply Hin.
Qed.

Lemma sortGroups_kids m src dirty L gs st :
  orderly src -> Forall (fun r => r < length src) L -> groupsOk m src dirty L gs ->
  kids (sortGroups src st gs) ≡ₚ kids gs.
Proof.
  intros Ho HL Hok. pose proof Hok as [Hk Hf Hr Hc].
  pose proof (groupsOk_bound _ _ _ _ _ HL Hok) as Hin.
  assert (kids (map (sortChildren src (gp_sortColumn st) (gp_sortOrder st)) gs) = kids gs) as Hkids.
  { unfold kids. rewrite map_map. apply map_ext_in. intros g Hg%list_elem_of_In.
    by rewrite (sortChildren_perm src (gp_sortColumn st) (gp_sortOrder st) g Ho (Hin g Hg)). }
  unfold sortGroups. destruct (gp_sortWithin st); [by rewrite Hkids|].
  rewrite <- Hkids. apply Permutation_map, std_sort_perm.
  eapply swo_on_impl; [|apply (Ho (gp_sortColumn st) (gp_sortOrder st))].
  intros g' Hg'. cbn. apply list_elem_of_fmap in Hg' as (g & -> & Hg).
  rewrite sortChildren_perm by auto. by apply Hin.
Qed.
End Sorting.

(* ------------------------------------------------------------------ *)
(** ** Removal *)

(** [groupsOk] while groups may be empty. *)
Definition partOk (m : ViewMode) (src : list SrcRow) (dirty : nat -> Prop) (L : list nat) (gs : list Group) : Prop :=
  NoDup (keysOf gs) /\ rowsOf gs ≡ₚ L /\
  forall g r, g ∈ gs -> r ∈ g_rows g -> dirty r \/ keyAt m src r = g_key g.

Lemma groupsOk_part m src dirty L gs :
  groupsOk m src dirty L gs <-> partOk m src dirty L gs /\ Forall (fun g => g_rows g <> []) gs.
Proof. split; [intros []|intros [(? & ? & ?) ?]]; by repeat split. Qed.

Lemma indexOfRow_Some r l ci : indexOfRow r l = Some ci -> l !! ci = Some r.
Proof.
  revert ci. induction l as [|x l IH]; intros ci; cbn; [done|].
  destruct (Nat.eqb_spec x r) as [->|]; [by intros [= <-]|].
  destruct (indexOfRow r l); [|done]. intros [= <-]. by apply IH.
Qed.

Lemma indexOfRow_None r l : indexOfRow r l = None -> r ∉ l.
Proof.
  induction l as [|x l IH]; cbn; [set_solver|]. destruct (Nat.eqb_spec x r) as [->|]; [done|].
  destruct (indexOfRow r l); [done|]. intros _. set_solver.
Qed.

Lemma locateRow_spec r gs :
  match locateRow r gs with
  | Some (gi, ci) => exists g, gs !! gi = Some g /\ g_rows g !! ci = Some r
  | None => r ∉ rowsOf gs
  end.
Proof.
  induction gs as [|g gs IH]; cbn; [set_solver|].
  destruct (indexOfRow r (g_rows g)) as [ci|] eqn:E.
  - exists g. split; [done|]. by apply indexOfRow_Some.
  - destruct (locateRow r gs) as [[gi ci]|]; [done|].
    apply indexOfRow_None in E. unfold rowsOf in *. cbn. set_solver.
Qed.

(** Taking one row out of its group. *)
Lemma takeOut_ok m src dirty L gs gi ci g r :
  partOk m src dirty L gs -> gs !! gi = Some g -> g_rows g !! ci = Some r ->
  exists L', L ≡ₚ r :: L' /\
    partOk m src dirty L' (alter (fun g => setRows (delete ci (g_rows g)) g) gi gs).
Proof.
  intros (Hk & Hr & Hc) Hg Hci. apply lookup_split in Hg as (l1 & l2 & -> & <-). rewrite alter_middle.
  exists (rowsOf (l1 ++ setRows (delete ci (g_rows g)) g :: l2)). split; [|split_and!].
  - rewrite <- Hr, !rowsOf_app. unfold rowsOf. cbn. rewrite (delete_lookup_perm _ _ _ Hci) at 1. solve_Permutation.
  - by rewrite keysOf_setRows.
  - done.
  - intros g' r' Hg' Hr'. apply elem_of_app in Hg' as [Hg'|Hg']; [apply Hc; set_solver|].
    apply elem_of_cons in Hg' as [->|Hg']; [|apply Hc; set_solver]. cbn in *.
    apply (Hc g r'); [set_solver|]. rewrite (delete_lookup_perm _ _ _ Hci). by apply elem_of_cons; right.
Qed.

Lemma takeOut_replay gs gi ci g r :
  gs !! gi = Some g -> g_rows g !! ci = Some r ->
  replay (kids gs) (RowsRemoved (Some gi) ci ci) (kids (alter (fun g => setRows (delete ci (g_rows g)) g) gi gs)).
Proof.
  intros Hg Hci. apply lookup_split in Hg as (l1 & l2 & -> & <-). rewrite alter_middle.
  rewrite <- (kids_middle l1 g l2 (length (g_rows g) - (S ci - ci))).
  - apply R_remove_child; [apply kids_lookup|done|by eapply lookup_lt_Some].
  - rewrite length_delete by (by eexists). lia.
Qed.

(** The emptied groups are exactly the ones without rows. *)
Definition emptiedSpec (gs : list Group) (e : list nat) : Prop :=
  NoDup e /\ forall gi, gi ∈ e <-> exists g, gs !! gi = Some g /\ g_rows g = [].

Definition noteEmptied (gi : nat) (gs1 : list Group) (e : list nat) : list nat :=
  if groupEmptyAt gi gs1 then if bool_decide (gi ∈ e) then e else e ++ [gi] else e.

Lemma noteEmptied_spec gs gi ci g e :
  emptiedSpec gs e -> gs !! gi = Some g -> g_rows g <> [] ->
  emptiedSpec (alter (fun g => setRows (delete ci (g_rows g)) g) gi gs)
    (noteEmptied gi (alter (fun g => setRows (delete ci (g_rows g)) g) gi gs) e).
Proof.
  intros [Hnd He] Hg Hne. unfold noteEmptied, groupEmptyAt. rewrite list_lookup_alter_eq, Hg. cbn.
  assert (gi ∉ e) as Hgi by (intros (g' & Hg' & ?)%He; congruence).
  assert (forall gj, gj <> gi -> (gj ∈ e <-> exists g', alter (fun g => setRows (delete ci (g_rows g)) g) gi gs !! gj = Some g' /\ g_rows g' = [])) as Hoth.
  { intros gj Hj. rewrite He. by rewrite list_lookup_alter_ne by done. }
  destruct (isEmpty (delete ci (g_rows g))) eqn:Em.
  - rewrite bool_decide_false by done. split.
    + apply NoDup_app. split_and!; [done|set_solver|apply NoDup_singleton].
    + intros gj. destruct (decide (gj = gi)) as [->|Hj]; [|rewrite <- Hoth by done; set_solver].
      split; [intros _|set_solver]. rewrite list_lookup_alter_eq, Hg. cbn. eexists. split; [done|]. by apply isEmpty_true.
  - split; [done|]. intros gj. destruct (decide (gj = gi)) as [->|Hj]; [|by apply Hoth].
    split; [done|]. rewrite list_lookup_alter_eq, Hg. cbn. intros (g' & [= <-] & E). cbn in E. by rewrite E in Em.
Qed.

Lemma removeRows_ok m src dirty L gs e t rs :
  partOk m src dirty L gs -> emptiedSpec gs e -> NoDup L -> NoDup rs -> Forall (fun r => r ∈ L) rs ->
  let '(gs', e', _, o) := removeRows gs e t rs in
  (exists L', L ≡ₚ rs ++ L' /\ partOk m src dirty L' gs') /\ emptiedSpec gs' e' /\ length gs' = length gs /\
  replays (kids gs) o (kids gs').
Proof.
  revert L gs e t. induction rs as [|r rs IH]; intros L gs e t Hok He HL Hrs Hin; cbn.
  { split_and!; [by exists L|done|done|constructor]. }
  apply NoDup_cons in Hrs as [Hr Hrs]. apply Forall_cons in Hin as [HrL Hin].
  pose proof (locateRow_spec r gs) as Hloc. destruct (locateRow r gs) as [[gi ci]|]; last first.
  { exfalso. apply Hloc. destruct Hok as (_ & -> & _). done. }
  destruct Hloc as (g & Hg & Hci).
  destruct (takeOut_ok _ _ _ _ _ _ _ _ _ Hok Hg Hci) as (L1 & HL1 & Hok1).
  pose proof (takeOut_replay _ _ _ _ _ Hg Hci) as Hrep.
  assert (g_rows g <> []) as Hne by (by intros E; rewrite E in Hci).
  pose proof (noteEmptied_spec gs gi ci g e He Hg Hne) as He1.
  set (gs1 := alter _ gi gs) in *. rewrite HL1 in HL. apply NoDup_cons in HL as [HrL1 HL].
  assert (Forall (fun r => r ∈ L1) rs) as Hin1.
  { rewrite Forall_forall in *. intros x Hx. specialize (Hin x Hx). rewrite HL1 in Hin. set_solver. }
  set (p := if groupEmptyAt gi gs1 then _ else _).
  assert (p.1 = noteEmptied gi gs1 e) as Hp by (unfold p, noteEmptied; by destruct (groupEmptyAt gi gs1)).
  destruct p as [e1 t1]. cbn in Hp. subst e1.
  specialize (IH L1 gs1 _ t1 Hok1 He1 HL Hrs Hin1).
  destruct (removeRows gs1 _ t1 rs) as [[[gs2 e2] t2] o2].
  destruct IH as ((L' & HL' & Hok2) & He2 & Hlen & Hrep2). split_and!; [|done| |by econstructor].
  - exists L'. split; [|done]. rewrite HL1, HL'. done.
  - rewrite Hlen. unfold gs1. by rewrite length_alter.
Qed.

(** Dropping the empty groups, largest row first. *)
Definition fullGroup (g : Group) : Prop := g_rows g <> [].
#[global] Instance fullGroup_dec g : Decision (fullGroup g).
Proof. unfold fullGroup. apply _. Defined.

Lemma dropGroups_filter gs l :
  StronglySorted (fun a b => b < a) l ->
  (forall gi, gi ∈ l <-> exists g, gs !! gi = Some g /\ g_rows g = []) ->
  dropGroups gs l = filter fullGroup gs /\
  replays (kids gs) (map (fun gi => RowsRemoved None gi gi) l) (kids (filter fullGroup gs)).
Proof.
  intros Hs. revert gs. induction Hs as [|i l Hs IH Hi]; intros gs Hl; cbn.
  - assert (filter fullGroup gs = gs) as ->; [|split; [done|constructor]].
    apply filter_all. apply Forall_forall. intros g [gi Hgi]%list_elem_of_lookup E.
    assert (gi ∈ []) as Hx by (apply Hl; eauto). set_solver.
  - assert (exists g, gs !! i = Some g /\ g_rows g = []) as (g & Hg & Hgn) by (apply Hl; set_solver).
    apply lookup_split in Hg as (a & b & -> & <-). rewrite delete_middle.
    assert (filter fullGroup b = b) as Hb.
    { apply filter_all, Forall_forall. intros h [j Hj]%list_elem_of_lookup E.
      assert (length a + S j ∈ length a :: l) as Hx.
      { apply Hl. exists h. split; [|done]. rewrite lookup_app_r by lia. by replace (length a + S j - length a) with (S j) by lia. }
      apply elem_of_cons in Hx as [|Hx]; [lia|]. rewrite Forall_forall in Hi. specialize (Hi _ Hx). lia. }
    destruct (IH (a ++ b)) as [IH1 IH2].
    { intros gi. transitivity (gi ∈ length a :: l /\ gi <> length a).
      - rewrite elem_of_cons. rewrite Forall_forall in Hi. split; [|naive_solver].
        intros Hx. specialize (Hi _ Hx). split; [by right|lia].
      - rewrite Hl. split.
        + intros [(h & Hh & E) Hne]. exists h. split; [|done].
          destruct (decide (gi < length a)); [by rewrite lookup_app_l in *|].
          rewrite lookup_app_r in Hh by lia. destruct (gi - length a) as [|j] eqn:Ej; [lia|]. cbn in Hh. exfalso.
          assert (h ∈ filter fullGroup b) as [Hx _]%list_elem_of_filter by (rewrite Hb; by eapply list_elem_of_lookup_2). done.
        + intros (h & Hh & E). destruct (decide (gi < length a)) as [Hlt|].
          * split; [|lia]. exists h. by rewrite lookup_app_l in *.
          * exfalso. rewrite lookup_app_r in Hh by lia.
            assert (h ∈ filter fullGroup b) as [Hx _]%list_elem_of_filter by (rewrite Hb; by eapply list_elem_of_lookup_2). done. }
    rewrite filter_app, filter_cons_False by (intros Hx; by apply Hx).
    rewrite <- filter_app. split; [done|]. econstructor; [|exact IH2].
    replace (kids (a ++ b)) with (take (length a) (kids (a ++ g :: b)) ++ drop (S (length a)) (kids (a ++ g :: b))).
    + constructor; [done|]. rewrite length_kids, length_app. cbn. lia.
    + rewrite !kids_app. cbn. rewrite take_app_length' by (by rewrite length_kids).
      rewrite drop_app_ge by (rewrite length_kids; lia). rewrite length_kids. by replace (S (length a) - length a) with 1 by lia.
Qed.

(** A move's first half. *)
Lemma detachRow_ok m src dirty L gs gi ci g r :
  groupsOk m src dirty L gs -> gs !! gi = Some g -> g_rows g !! ci = Some r ->
  exists L', L ≡ₚ r :: L' /\ groupsOk m src dirty L' (detachRow gi ci gs).1 /\
    replays (kids gs) (detachRow gi ci gs).2 (kids (detachRow gi ci gs).1).
Proof.
  intros [Hok Hfull]%groupsOk_part Hg Hci.
  destruct (takeOut_ok _ _ _ _ _ _ _ _ _ Hok Hg Hci) as (L' & HL & Hok1).
  pose proof (takeOut_replay _ _ _ _ _ Hg Hci) as Hrep. exists L'. split; [done|].
  unfold detachRow. set (gs1 := alter _ gi gs) in *.
  assert (gs1 !! gi = Some (setRows (delete ci (g_rows g)) g)) as Hg1 by (unfold gs1; by rewrite list_lookup_alter_eq, Hg).
  unfold groupEmptyAt. rewrite Hg1. cbn [g_rows setRows].
  apply lookup_split in Hg as (l1 & l2 & -> & <-). unfold gs1 in *. rewrite alter_middle in *. clear gs1.
  apply Forall_app in Hfull as [Hf1 [Hf0 Hf2]%Forall_cons].
  destruct (isEmpty (delete ci (g_rows g))) eqn:Em; cbn [fst snd].
  - apply isEmpty_true in Em. rewrite delete_middle. split.
    + destruct Hok1 as (Hk & Hr & Hc). split.
      * unfold keysOf in *. rewrite map_app in *. cbn in Hk. apply NoDup_app in Hk as (? & Hd & [? ?]%NoDup_cons).
        apply NoDup_app. split_and!; [done| |done]. intros k Hx Hy. eapply Hd; [exact Hx|]. by apply elem_of_cons; right.
      * by apply Forall_app.
      * rewrite <- Hr. rewrite !rowsOf_app. unfold rowsOf. cbn. by rewrite Em.
      * intros g' r' Hg'. apply Hc. set_solver.
    + econstructor; [exact Hrep|]. apply replays_one.
      replace (kids (l1 ++ l2)) with (take (length l1) (kids (l1 ++ setRows (delete ci (g_rows g)) g :: l2)) ++
        drop (S (length l1)) (kids (l1 ++ setRows (delete ci (g_rows g)) g :: l2))).
      * constructor; [done|]. rewrite length_kids, length_app. cbn. lia.
      * rewrite !kids_app. cbn. rewrite take_app_length' by (by rewrite length_kids).
        rewrite drop_app_ge by (rewrite length_kids; lia). rewrite length_kids. by replace (S (length l1) - length l1) with 1 by lia.
  - apply isEmpty_false in Em. split.
    + apply groupsOk_part. split; [done|]. apply Forall_app. split; [done|]. by apply Forall_cons.
    + econstructor; [exact Hrep|]. apply replays_one, replay_header. rewrite length_kids, length_app. cbn. lia.
Qed.

(* ------------------------------------------------------------------ *)
(** ** The reverse index *)

Lemma indexGroup_lookup ix gi g r v :
  NoDup (g_rows g) ->
  indexGroup ix gi g !! r = Some v <->
  (exists ci, g_rows g !! ci = Some r /\ v = (gi, ci)) \/ (r ∉ g_rows g /\ ix !! r = Some v).
Proof.
  unfold indexGroup. generalize (g_rows g). intros l. induction l as [|x l IH] using rev_ind; intros Hnd.
  - cbn. split; [intros; right; split; [set_solver|done]|]. intros [(ci & Hci & _)|[_ ?]]; [by rewrite lookup_nil in Hci|done].
  - apply NoDup_app in Hnd as (Hnd & Hx & _). specialize (IH Hnd).
    rewrite imap_app, foldl_app. cbn. rewrite Nat.add_0_r. destruct (decide (x = r)) as [->|Hne].
    + rewrite lookup_insert_eq. split.
      * intros [= <-]. left. exists (length l). split; [|done]. by rewrite list_lookup_middle.
      * intros [(ci & Hci & ->)|[Hn _]]; [|set_solver]. do 2 f_equal.
        destruct (decide (ci < length l)) as [Hlt|].
        -- rewrite lookup_app_l in Hci by done. exfalso. eapply (Hx r); [by eapply list_elem_of_lookup_2|set_solver].
        -- apply lookup_lt_Some in Hci. rewrite length_app in Hci. cbn in Hci. lia.
    + rewrite lookup_insert_ne by done. rewrite IH. split.
      * intros [(ci & Hci & ->)|[Hn ?]]; [left; exists ci; split; [by apply lookup_app_l_Some|done]|right; set_solver].
      * intros [(ci & Hci & ->)|[Hn ?]]; [|right; set_solver]. left. exists ci. split; [|done].
        apply lookup_app_Some in Hci as [?|[_ Hci]]; [done|]. apply list_lookup_singleton_Some in Hci as [_ ?]. congruence.
Qed.

Lemma srcIndexOf_snoc gs g : srcIndexOf (gs ++ [g]) = indexGroup (srcIndexOf gs) (length gs) g.
Proof. unfold srcIndexOf. rewrite imap_app, foldl_app. cbn. by rewrite Nat.add_0_r. Qed.

Lemma srcIndexOf_lookup gs r gi ci :
  NoDup (rowsOf gs) ->
  srcIndexOf gs !! r = Some (gi, ci) <-> exists g, gs !! gi = Some g /\ g_rows g !! ci = Some r.
Proof.
  revert gi ci. induction gs as [|g gs IH] using rev_ind; intros gi ci Hnd.
  - cbn. rewrite lookup_empty. split; [done|]. intros (g & Hg & _). by rewrite lookup_nil in Hg.
  - rewrite rowsOf_app in Hnd. apply NoDup_app in Hnd as (Hnd & Hd & Hndg).
    unfold rowsOf in Hndg, Hd. cbn in Hndg, Hd. rewrite app_nil_r in Hndg.
    rewrite srcIndexOf_snoc, indexGroup_lookup, IH by done. split.
    + intros [(ci' & Hci & [= -> ->])|[Hn (g' & Hg' & Hci)]].
      * exists g. split; [by rewrite list_lookup_middle|done].
      * exists g'. split; [by apply lookup_app_l_Some|done].
    + intros (g' & Hg' & Hci). apply lookup_app_Some in Hg' as [Hg'|[Hge Hg']].
      * right. split; [|eauto]. intros Hr. eapply (Hd r); [|by rewrite app_nil_r].
        apply elem_of_rowsOf. exists g'. split; [by eapply list_elem_of_lookup_2|by eapply list_elem_of_lookup_2].
      * left. apply list_lookup_singleton_Some in Hg' as [Hz ->]. exists ci. split; [done|]. f_equal. lia.
Qed.

(* ------------------------------------------------------------------ *)
(** ** The state *)

(** The grouped state over source [src], rows [L], with possibly [dirty] rows. *)
Record stOk (m : ViewMode) (src : list SrcRow) (dirty : nat -> Prop) (L : list nat) (st : GroupProxy) : Prop := {
  so_mode : gp_mode st = m;
  so_grouped : m <> Flat;
  so_src : gp_src st = Some src;
  so_groups : groupsOk m src dirty L (gp_groups st);
  so_index : gp_srcIndex st = srcIndexOf (gp_groups st);
}.

Lemma shape_grouped m src dirty L st : stOk m src dirty L st -> shape st = kids (gp_groups st).
Proof. intros [Hm Hg _ _ _]. unfold shape. by destruct (gp_mode st); subst. Qed.

Lemma refresh_ok m src dirty L st :
  gp_mode st = m -> m <> Flat -> gp_src st = Some src -> groupsOk m src dirty L (gp_groups st) ->
  stOk m src dirty L (refreshSrcIndex st).
Proof. intros. split; try done. cbn. rewrite bool_decide_false; [done|congruence]. Qed.

Lemma rows_nodup m src dirty L gs : NoDup L -> groupsOk m src dirty L gs -> NoDup (rowsOf gs).
Proof. intros HL [_ _ -> _]. done. Qed.

(** One row of [onSourceDataChanged]. *)
Lemma regroup_ok m src dirty L st r :
  stOk m src dirty L st -> NoDup L -> r ∈ L ->
  let '(st', o, _) := regroupSourceRow src r st in
  stOk m src (fun x => dirty x /\ x <> r) L st' /\ replays (kids (gp_groups st)) o (kids (gp_groups st')).
Proof.
  intros [Hm Hnf Hsrc Hok Hix] HL HrL. pose proof (rows_nodup _ _ _ _ _ HL Hok) as Hnd.
  assert (exists gi ci g, gp_srcIndex st !! r = Some (gi, ci) /\ gp_groups st !! gi = Some g /\ g_rows g !! ci = Some r)
    as (gi & ci & g & Eix & Hg & Hci).
  { assert (r ∈ rowsOf (gp_groups st)) as Hr by (by rewrite (go_rows _ _ _ _ _ Hok)).
    apply elem_of_rowsOf in Hr as (g & [gi Hgi]%list_elem_of_lookup & [ci Hci]%list_elem_of_lookup).
    exists gi, ci, g. split_and!; [|done..]. rewrite Hix. apply srcIndexOf_lookup; eauto. }
  unfold regroupSourceRow. rewrite Eix, Hg, Hm.
  destruct (qeqb (g_key g) (keyAt m src r)) eqn:Ek.
  - apply qeqb_eq in Ek.
    assert (groupsOk m src (fun x => dirty x /\ x <> r) L (gp_groups st)) as Hok'.
    { destruct Hok as [Hk Hf Hr Hc]. split; [done..|]. intros g' r' Hg' Hr'. destruct (decide (r' = r)) as [->|].
      - right. apply list_elem_of_lookup in Hg' as [gj Hgj], Hr' as [cj Hcj].
        assert (srcIndexOf (gp_groups st) !! r = Some (gj, cj)) as E by (apply srcIndexOf_lookup; eauto).
        rewrite <- Hix, Eix in E. injection E as <- <-. congruence.
      - destruct (Hc g' r' Hg' Hr'); auto. }
    destruct (qeqb (g_label g) _); [split; [by split|constructor]|].
    pose proof (proj1 (lookup_lt_is_Some _ _) (ex_intro _ _ Hg)) as Hlt.
    apply lookup_split in Hg as (l1 & l2 & Hgs & <-).
    split; [|].
    + split; try done; cbn.
      * destruct Hok' as [Hk Hf Hr Hc]. rewrite Hgs in *. rewrite alter_middle. split.
        -- unfold keysOf in *. by rewrite !map_app in *.
        -- rewrite Forall_app, Forall_cons in *. naive_solver.
        -- rewrite <- Hr. unfold rowsOf. by rewrite !map_app.
        -- intros g' r' Hg' Hr'. apply elem_of_app in Hg' as [Hg'|Hg']; [apply Hc; set_solver|].
           apply elem_of_cons in Hg' as [->|Hg']; [|apply Hc; set_solver]. apply (Hc g r'); [set_solver|done].
      * rewrite Hix, Hgs, alter_middle. unfold srcIndexOf. rewrite !imap_app, !foldl_app. done.
    + cbn. rewrite Hgs, alter_middle. replace (kids (l1 ++ setLabel _ g :: l2)) with (kids (l1 ++ g :: l2)) by (by rewrite !kids_app).
      apply replays_one, replay_header. rewrite length_kids, length_app. cbn. lia.
  - destruct (detachRow_ok _ _ _ _ _ _ _ _ _ Hok Hg Hci) as (L' & HL' & Hok1 & Hrep1).
    destruct (detachRow gi ci (gp_groups st)) as [gs1 o1]. cbn in Hok1, Hrep1.
    assert (groupsOk m src (fun x => dirty x /\ x <> r) L' gs1) as Hok1'.
    { eapply groupsOk_weaken; [|exact Hok1]. intros x Hx Hdx. split; [done|]. intros ->.
      rewrite HL' in HL. by apply NoDup_cons in HL as [? _]. }
    pose proof (insertRow_ok m src _ _ gs1 r Hok1') as Hok2. pose proof (insertRow_replays m src gs1 r) as Hrep2.
    destruct (insertRow m src gs1 r) as [gs2 o2]. cbn in Hok2, Hrep2. split.
    + apply refresh_ok; cbn; try done. by eapply groupsOk_perm.
    + cbn. by eapply replays_app.
Qed.

Lemma regroupRows_ok m src dirty L st rs :
  stOk m src dirty L st -> NoDup L -> Forall (fun r => r ∈ L) rs ->
  let '(st', o, _) := regroupRows src rs st in
  stOk m src (fun x => dirty x /\ x ∉ rs) L st' /\ replays (kids (gp_groups st)) o (kids (gp_groups st')).
Proof.
  revert dirty st. induction rs as [|r rs IH]; intros dirty st Hok HL Hin; cbn.
  - split; [|constructor]. destruct Hok as [? ? ? Hg ?]. split; try done.
    eapply groupsOk_weaken; [|exact Hg]. set_solver.
  - apply Forall_cons in Hin as [Hr Hin]. pose proof (regroup_ok _ _ _ _ _ r Hok HL Hr) as H1.
    destruct (regroupSourceRow src r st) as [[st1 o1] b1]. destruct H1 as [H1 R1].
    specialize (IH _ st1 H1 HL Hin). destruct (regroupRows src rs st1) as [[st2 o2] b2]. destruct IH as [H2 R2].
    split; [|by eapply replays_app]. destruct H2 as [? ? ? Hg ?]. split; try done.
    eapply groupsOk_weaken; [|exact Hg]. set_solver.
Qed.

(* ------------------------------------------------------------------ *)
(** ** The slots *)

Section Slots.
Context `{QtVariant, StdFullSortLaws}.

Lemma resort_ok m src L st :
  orderly src -> Forall (fun r => r < length src) L -> stOk m src clean L st ->
  let '(st', o, _) := resortGroups st in
  stOk m src clean L st' /\ replays (kids (gp_groups st)) o (kids (gp_groups st')) /\ gp_sortWithin st' = gp_sortWithin st.
Proof.
  intros Ho HL Hok. pose proof Hok as [Hm Hnf Hsrc Hg Hix]. unfold resortGroups. rewrite Hsrc.
  destruct ((gp_sortColumn st <? 0)%Z || _ || _); [split_and!; [done|constructor|done]|].
  destruct (sameOrder _ _); [split_and!; [done|constructor|done]|].
  assert (stOk m src clean L (refreshSrcIndex (setGroups (sortGroups src st (gp_groups st)) st))) as Hok'.
  { apply refresh_ok; try done. by apply sortGroups_ok. }
  split_and!; [done| |done]. rewrite (shape_grouped _ _ _ _ _ Hok'). apply replays_one. constructor.
  by eapply sortGroups_kids.
Qed.

Lemma applySort_ok m src L st :
  orderly src -> Forall (fun r => r < length src) L -> gp_mode st = m -> groupsOk m src clean L (gp_groups st) ->
  groupsOk m src clean L (gp_groups (applyCurrentSort src st)).
Proof.
  intros. unfold applyCurrentSort. destruct ((gp_sortColumn st <? 0)%Z || _ || _); [done|]. by apply sortGroups_ok.
Qed.

Definition allRows (src : list SrcRow) : list nat := seq 0 (length src).

Lemma allRows_bound src : Forall (fun r => r < length src) (allRows src).
Proof. apply Forall_forall. intros r Hr. unfold allRows in Hr. apply elem_of_seq in Hr. lia. Qed.

Lemma allRows_nodup src : NoDup (allRows src).
Proof. apply NoDup_seq. Qed.

Lemma elem_of_allRows r src : r ∈ allRows src <-> r < length src.
Proof. unfold allRows. rewrite elem_of_seq. lia. Qed.

Lemma rebuild_ok src st :
  gp_src st = Some src -> gp_mode st <> Flat -> orderly src ->
  stOk (gp_mode st) src clean (allRows src) (rebuild st).
Proof.
  intros Hs Hm Ho. unfold rebuild. rewrite Hs, bool_decide_false by done.
  set (st1 := setGroups (rebuildGroups (gp_mode st) src) (setIndex ∅ (setGroups [] st))).
  assert (gp_mode (applyCurrentSort src st1) = gp_mode st /\ gp_src (applyCurrentSort src st1) = Some src) as [E1 E2].
  { unfold applyCurrentSort. by destruct ((gp_sortColumn st1 <? 0)%Z || _ || _). }
  apply refresh_ok; [done..|]. apply applySort_ok; [done|apply allRows_bound|done|apply rebuildGroups_ok].
Qed.

(** *** Source rows around an insertion, a removal, a change *)

Definition shiftRow (first count r : nat) : nat := if (first <=? r)%nat then r + count else r.

Lemma insertedRows first count n :
  first <= n -> seq first count ++ map (shiftRow first count) (seq 0 n) ≡ₚ seq 0 (n + count).
Proof.
  intros. rewrite (seq_split n first (n - first)), (seq_split (n + count) first count) by lia.
  replace (n - (first + (n - first))) with 0 by lia. cbn [seq]. rewrite app_nil_r, map_app.
  assert (map (shiftRow first count) (seq 0 first) = seq 0 first) as ->.
  { rewrite <- map_id. apply map_ext_in. intros r Hr%list_elem_of_In%elem_of_seq. unfold shiftRow.
    destruct (Nat.leb_spec first r); lia. }
  assert (map (shiftRow first count) (seq first (n - first)) = seq (first + count) (n + count - (first + count))) as ->.
  { replace (n + count - (first + count)) with (n - first) by lia. rewrite (Nat.add_comm first), <- fmap_add_seq.
    apply map_ext_in. intros r Hr%list_elem_of_In%elem_of_seq. unfold shiftRow. destruct (Nat.leb_spec first r); lia. }
  solve_Permutation.
Qed.

Lemma keyAt_inserted m src rows first r :
  first <= length src ->
  keyAt m (take first src ++ rows ++ drop first src) (shiftRow first (length rows) r) = keyAt m src r.
Proof.
  intros Hf. unfold keyAt, connectionAt, shiftRow. destruct (Nat.leb_spec first r).
  - rewrite lookup_app_r by (rewrite length_take; lia). rewrite lookup_app_r by (rewrite length_take; lia).
    rewrite lookup_drop, length_take. by replace (first + (r + length rows - first `min` length src - length rows)) with r by lia.
  - rewrite lookup_app_l by (rewrite length_take; lia). by rewrite lookup_take_lt.
Qed.

Lemma inserted_ok m src rows first st :
  stOk m src clean (allRows src) st -> first <= length src ->
  orderly (take first src ++ rows ++ drop first src) ->
  let src' := take first src ++ rows ++ drop first src in
  let '(st', o) := onSourceRowsInserted src' first (length rows) st in
  stOk m src' clean (allRows src') st' /\ replays (shape st) o (shape st').
Proof.
  intros Hok Hf Ho src'. pose proof Hok as [Hm Hnf Hsrc Hg Hix].
  assert (length src' = length src + length rows) as Hlen
    by (unfold src'; rewrite !length_app, length_take, length_drop; lia).
  pose proof (renumber_ok m src src' clean (shiftRow first (length rows)) (allRows src) (gp_groups st)
    ltac:(intros; by apply keyAt_inserted) ltac:(done) Hg) as Hg1.
  change (renumber (shiftRow first (length rows)) (gp_groups st)) with (shiftUp first (length rows) (gp_groups st)) in Hg1.
  pose proof (insertRows_ok m src' clean _ _ (seq first (length rows)) Hg1) as Hg2.
  pose proof (insertRows_replays m src' (shiftUp first (length rows) (gp_groups st)) (seq first (length rows))) as R2.
  change (shiftUp first (length rows) (gp_groups st)) with (renumber (shiftRow first (length rows)) (gp_groups st)) in R2 at 1.
  rewrite kids_renumber in R2.
  unfold onSourceRowsInserted. rewrite Hm. destruct (insertRows m src' _ _) as [gs o1] eqn:Ei.
  replace (match m with Flat => _ | _ => _ end) with
    (let '(st2, o', _) := resortGroups (refreshSrcIndex (setGroups gs (setSrc (Some src') st))) in (st2, o1 ++ o'))
    by (by destruct m; rewrite ?Ei).
  cbn in Hg2, R2.
  assert (stOk m src' clean (allRows src') (refreshSrcIndex (setGroups gs (setSrc (Some src') st)))) as Hok1.
  { apply refresh_ok; try done. eapply groupsOk_perm; [|exact Hg2]. unfold allRows. rewrite Hlen. by apply insertedRows. }
  pose proof (resort_ok m src' _ _ Ho (allRows_bound _) Hok1) as Hre.
  destruct (resortGroups _) as [[st2 o2] b]. destruct Hre as (Hok2 & R3 & _). split; [done|].
  rewrite (shape_grouped _ _ _ _ _ Hok), (shape_grouped _ _ _ _ _ Hok2). by eapply replays_app.
Qed.

Definition downRow (last count r : nat) : nat := if (last <? r)%nat then r - count else r.

Lemma renumber_filter f gs : filter fullGroup (renumber f gs) = renumber f (filter fullGroup gs).
Proof.
  induction gs as [|g gs IH]; [done|].
  change (renumber f (g :: gs)) with (setRows (map f (g_rows g)) g :: renumber f gs).
  rewrite !filter_cons, IH.
  destruct (decide (fullGroup (setRows (map f (g_rows g)) g))) as [E|E], (decide (fullGroup g)) as [E'|E']; try done.
  - destruct E'. intros En. apply E. cbn. by rewrite En.
  - destruct E. intros En. apply E'. by apply map_eq_nil in En.
Qed.

Lemma filterFull_ok m src dirty L gs : partOk m src dirty L gs -> groupsOk m src dirty L (filter fullGroup gs).
Proof.
  intros (Hk & Hr & Hc). split.
  - clear -Hk. unfold keysOf in *. induction gs as [|g gs IH]; [done|]. cbn in Hk. apply NoDup_cons in Hk as [Hg Hk].
    rewrite filter_cons. case_decide; [|by apply IH]. cbn. apply NoDup_cons. split; [|by apply IH].
    intros (g' & E & Hg')%list_elem_of_fmap. apply list_elem_of_filter in Hg' as [_ Hg']. apply Hg. rewrite E.
    by apply list_elem_of_fmap_2.
  - apply Forall_forall. intros g [Hx _]%list_elem_of_filter. done.
  - rewrite <- Hr. clear. unfold rowsOf. induction gs as [|g gs IH]; [done|]. rewrite filter_cons.
    case_decide as E; cbn; rewrite IH; [done|]. destruct (decide (g_rows g = [])) as [->|]; [done|]. by destruct E.
  - intros g r [_ Hg]%list_elem_of_filter. by apply Hc.
Qed.

Lemma sortDescending_spec l :
  NoDup l -> StronglySorted (fun a b => b < a) (sortDescending l) /\ sortDescending l ≡ₚ l.
Proof.
  intros Hnd. unfold sortDescending. set (lt := fun a b : nat => (b <? a)%nat).
  assert (swo lt) as Hlt by (split; unfold lt; intros *; rewrite ?Nat.ltb_lt, ?Nat.ltb_irrefl; try done; lia).
  assert (isort lt l ≡ₚ l) as Hp by apply isort_perm. split; [|done].
  pose proof (isort_sorted lt Hlt l) as Hs. rewrite <- Hp in Hnd.
  clear Hp. induction Hs as [|x r Hs IH Hx]; [constructor|]. apply NoDup_cons in Hnd as [Hnx Hnd].
  constructor; [by apply IH|].
  apply Forall_forall. intros y Hy. rewrite Forall_forall in Hx. specialize (Hx y Hy). unfold lt in Hx.
  apply Nat.ltb_ge in Hx. assert (x <> y) by (by intros ->). lia.
Qed.

Lemma touchedSignals_replays gs t : replays (kids gs) (touchedSignals gs t) (kids gs).
Proof.
  unfold touchedSignals. enough (forall (f : nat -> nat) gs0, (forall i, i < length gs0 -> f i < length gs) ->
    replays (kids gs) (concat (imap (fun gi g => if bool_decide (g_key g ∈ t) then [headerChanged (f gi)] else []) gs0)) (kids gs)) as Hg
    by (apply (Hg (fun i => i)); done).
  intros f gs0. revert f. induction gs0 as [|g gs0 IH]; intros f Hf; cbn; [constructor|].
  eapply replays_app; [|apply (IH (fun i => f (S i))); intros i Hi; apply Hf; cbn; lia].
  case_bool_decide; [|constructor]. apply replays_one, replay_header. rewrite length_kids. apply Hf. cbn. lia.
Qed.

Lemma removedRows first count n L' :
  first + count <= n -> 0 < count -> seq 0 n ≡ₚ seq first count ++ L' ->
  map (downRow (first + count - 1) count) L' ≡ₚ seq 0 (n - count) /\
  Forall (fun r => r < first \/ first + count <= r < n) L'.
Proof.
  intros Hn Hc HL. rewrite (seq_split n first count) in HL by lia.
  assert (seq 0 first ++ seq (first + count) (n - (first + count)) ≡ₚ L') as HL'.
  { apply (Permutation_app_inv_l (seq first count)). rewrite <- HL. solve_Permutation. }
  split.
  - rewrite <- HL', map_app. rewrite (seq_split (n - count) first (n - count - first)) by lia.
    replace (n - count - (first + (n - count - first))) with 0 by lia. cbn [seq]. rewrite app_nil_r.
    apply Permutation_app.
    + erewrite map_ext_in; [by rewrite map_id|]. intros r Hr%list_elem_of_In%elem_of_seq. unfold downRow.
      destruct (Nat.ltb_spec (first + count - 1) r); lia.
    + replace (first + count) with (count + first) at 2 by lia. rewrite <- fmap_add_seq.
      change (Nat.add count <$> seq first (n - (first + count))) with (map (Nat.add count) (seq first (n - (first + count)))). rewrite map_map. erewrite map_ext_in.
      * rewrite map_id. by replace (n - (first + count)) with (n - count - first) by lia.
      * intros r Hr%list_elem_of_In%elem_of_seq. unfold downRow. destruct (Nat.ltb_spec (first + count - 1) (count + r)); lia.
  - rewrite <- HL'. apply Forall_app. split; apply Forall_forall; intros r Hr%elem_of_seq; lia.
Qed.

Lemma keyAt_removed m src first count r :
  first + count <= length src -> 0 < count -> r < first \/ first + count <= r < length src ->
  keyAt m (take first src ++ drop (first + count) src) (downRow (first + count - 1) count r) = keyAt m src r.
Proof.
  intros Hf Hc Hr. unfold keyAt, connectionAt, downRow. destruct (Nat.ltb_spec (first + count - 1) r).
  - rewrite lookup_app_r by (rewrite length_take; lia). rewrite lookup_drop, length_take.
    by replace (first + count + (r - count - first `min` length src)) with r by lia.
  - rewrite lookup_app_l by (rewrite length_take; lia). by rewrite lookup_take_lt by lia.
Qed.

Lemma removed_ok m src first count st :
  stOk m src clean (allRows src) st -> first + count <= length src -> 0 < count ->
  orderly (take first src ++ drop (first + count) src) ->
  let src' := take first src ++ drop (first + count) src in
  let '(st', o) := onSourceRowsRemoved src' first count st in
  stOk m src' clean (allRows src') st' /\ replays (shape st) o (shape st').
Proof.
  intros Hok Hf Hc Ho src'. pose proof Hok as [Hm Hnf Hsrc Hg Hix].
  assert (length src' = length src - count) as Hlen by (unfold src'; rewrite length_app, length_take, length_drop; lia).
  apply groupsOk_part in Hg as [Hg Hfull].
  pose proof (removeRows_ok m src clean (allRows src) (gp_groups st) [] [] (seq first count) Hg) as Hrem.
  assert (emptiedSpec (gp_groups st) []) as He0.
  { split; [constructor|]. intros gi. split; [set_solver|]. intros (g & Hgi & E). rewrite Forall_forall in Hfull.
    exfalso. apply (Hfull g); [by eapply list_elem_of_lookup_2|done]. }
  specialize (Hrem He0 (allRows_nodup _) (NoDup_seq _ _)).
  assert (Forall (fun r => r ∈ allRows src) (seq first count)) as Hin
    by (apply Forall_forall; intros r Hr%elem_of_seq; apply elem_of_allRows; lia).
  specialize (Hrem Hin). unfold onSourceRowsRemoved. rewrite Hm.
  destruct (removeRows (gp_groups st) [] [] (seq first count)) as [[[gs1 e] t] o1].
  destruct Hrem as ((L' & HL' & Hp) & [Hnde He] & Hlen1 & R1).
  destruct (removedRows first count (length src) L' Hf Hc HL') as [HL2 Hbound].
  set (f := downRow (first + count - 1) count) in *.
  change (shiftDown (first + count - 1) count gs1) with (renumber f gs1).
  destruct (sortDescending_spec e Hnde) as [Hsd Hpd].
  destruct (dropGroups_filter (renumber f gs1) (sortDescending e) Hsd) as [Hdrop R2].
  { intros gi. rewrite Hpd, He. unfold renumber. rewrite list_lookup_fmap. split.
    - intros (g & -> & E). eexists. split; [done|]. cbn. by rewrite E.
    - intros (g' & Hg' & E). destruct (gs1 !! gi) as [g|]; [|done]. injection Hg' as <-. exists g. split; [done|].
      by apply map_eq_nil in E. }
  rewrite kids_renumber in R2. rewrite Hdrop, renumber_filter in *.
  assert (groupsOk m src' clean (allRows src') (renumber f (filter fullGroup gs1))) as Hg3.
  { eapply groupsOk_perm; [|eapply (renumber_ok m src src' clean f L')].
    - unfold allRows. rewrite Hlen. exact HL2.
    - intros r Hr _. rewrite Forall_forall in Hbound. by apply keyAt_removed; auto.
    - done.
    - by apply filterFull_ok. }
  set (gs3 := renumber f (filter fullGroup gs1)) in *.
  replace (match m with Flat => _ | _ => _ end) with
    (let '(st2, o2, _) := resortGroups (refreshSrcIndex (setGroups gs3 (setSrc (Some src') st))) in
     (st2, o1 ++ map (fun gi => RowsRemoved None gi gi) (sortDescending e) ++ touchedSignals gs3 t ++ o2))
    by (by destruct m).
  assert (stOk m src' clean (allRows src') (refreshSrcIndex (setGroups gs3 (setSrc (Some src') st)))) as Hok1
    by (by apply refresh_ok).
  pose proof (resort_ok m src' _ _ Ho (allRows_bound _) Hok1) as Hre.
  destruct (resortGroups _) as [[st2 o2] b]. destruct Hre as (Hok2 & R3 & _). split; [done|].
  rewrite (shape_grouped _ _ _ _ _ Hok), (shape_grouped _ _ _ _ _ Hok2).
  eapply replays_app; [exact R1|]. eapply replays_app; [exact R2|]. eapply replays_app; [apply touchedSignals_replays|].
  exact R3.
Qed.

Lemma replays_all v o : Forall (fun s => replay v s v) o -> replays v o v.
Proof. induction 1; econstructor; eauto. Qed.

Lemma forward_replays m src dirty L st first last c1 c2 roles :
  stOk m src dirty L st -> NoDup L ->
  replays (kids (gp_groups st)) (forwardSourceDataChanged first last c1 c2 roles st) (kids (gp_groups st)).
Proof.
  intros [_ _ _ Hg Hix] HL. pose proof (rows_nodup _ _ _ _ _ HL Hg) as Hnd.
  apply replays_all. unfold forwardSourceDataChanged. apply Forall_app. split; apply Forall_forall; intros s Hs.
  - apply list_elem_of_omap in Hs as (r & _ & Hs). destruct (gp_srcIndex st !! r) as [[gi ci]|] eqn:E; [|done].
    injection Hs as <-. rewrite Hix in E. apply srcIndexOf_lookup in E as (g & Hgi & Hci); [|done].
    apply (R_data_child _ _ (length (g_rows g))); [|done|by eapply lookup_lt_Some].
    unfold kids. by rewrite list_lookup_fmap, Hgi.
  - apply list_elem_of_omap in Hs as (gi & Hgi%elem_of_seq & Hs). case_bool_decide; [|done]. injection Hs as <-.
    constructor; [done|]. rewrite length_kids. lia.
Qed.

Lemma keyAt_changed m src rows first r :
  first + length rows <= length src ->
  (r < first \/ first + length rows <= r \/
   map sr_conn rows = map sr_conn (take (length rows) (drop first src))) ->
  keyAt m (take first src ++ rows ++ drop (first + length rows) src) r = keyAt m src r.
Proof.
  intros Hf Hr. unfold keyAt, connectionAt. f_equal.
  set (src' := take first src ++ rows ++ drop (first + length rows) src).
  enough (sr_conn <$> src' !! r = sr_conn <$> src !! r) as Heq.
  { destruct (src' !! r), (src !! r); cbn in Heq; congruence. }
  destruct (decide (r < first)) as [|Hge1].
  { unfold src'. rewrite lookup_app_l by (rewrite length_take; lia). by rewrite lookup_take_lt by lia. }
  destruct (decide (first + length rows <= r)) as [|Hlt].
  { unfold src'. rewrite lookup_app_r by (rewrite length_take; lia). rewrite lookup_app_r by (rewrite length_take; lia).
    rewrite lookup_drop, length_take. by replace (first + length rows + (r - first `min` length src - length rows)) with r by lia. }
  destruct Hr as [?|[?|Hr]]; [lia..|]. unfold src'.
  rewrite lookup_app_r by (rewrite length_take; lia). rewrite lookup_app_l by (rewrite length_take; lia).
  rewrite length_take, <- list_lookup_fmap. change (sr_conn <$> rows) with (map sr_conn rows). rewrite Hr.
  change (map sr_conn) with (fmap (M := list) sr_conn). rewrite list_lookup_fmap, lookup_take_lt by lia.
  rewrite lookup_drop. by replace (first + (r - first `min` length src)) with r by lia.
Qed.

Lemma data_ok m src rows first c1 c2 roles st :
  stOk m src clean (allRows src) st -> first + length rows <= length src -> rows <> [] ->
  (roles <> [] -> ConnectionRole ∉ roles -> map sr_conn rows = map sr_conn (take (length rows) (drop first src))) ->
  orderly (take first src ++ rows ++ drop (first + length rows) src) ->
  let src' := take first src ++ rows ++ drop (first + length rows) src in
  let '(st', o) := onSourceDataChanged src' first (first + length rows - 1) c1 c2 roles st in
  stOk m src' clean (allRows src') st' /\ replays (shape st) o (shape st').
Proof.
  intros Hok Hf Hne Hroles Ho src'. pose proof Hok as [Hm Hnf Hsrc Hg Hix].
  assert (length rows <> 0) as Hlr by (by destruct rows).
  assert (length src' = length src) as Hlen by (unfold src'; rewrite !length_app, length_take, length_drop; lia).
  assert (allRows src' = allRows src) as Hall by (unfold allRows; by rewrite Hlen).
  set (last := first + length rows - 1). set (span := seq first (S last - first)).
  (* the groups before the slot, seen from the changed source *)
  assert (stOk m src' (fun x => x ∈ span /\ keyAt m src' x <> keyAt m src x) (allRows src') (setSrc (Some src') st)) as Hok0.
  { split; try done. cbn. rewrite Hall. destruct Hg as [Hk Hfu Hr Hc]. split; try done.
    intros g r Hgg Hrr. destruct (Hc g r Hgg Hrr) as [[]|E]. destruct (decide (r ∈ span)) as [Hin|Hin].
    - destruct (decide (keyAt m src' r = keyAt m src r)) as [E'|]; [right; congruence|by left].
    - right. rewrite <- E. apply keyAt_changed; [done|].
      unfold span, last in Hin. rewrite elem_of_seq in Hin. lia. }
  set (mid := if isEmpty roles || bool_decide (ConnectionRole ∈ roles) then
          let '(sta, oa, moved) := regroupRows src' span (setSrc (Some src') st) in
          if moved then let '(stb, ob, _) := resortGroups sta in (stb, oa ++ ob) else (sta, oa)
        else (setSrc (Some src') st, [])).
  assert (let '(st1, o1) := mid in stOk m src' clean (allRows src') st1 /\
    replays (kids (gp_groups st)) o1 (kids (gp_groups st1))) as Hmid.
  { unfold mid. destruct (isEmpty roles || bool_decide (ConnectionRole ∈ roles)) eqn:Er.
    - assert (Forall (fun r => r ∈ allRows src') span) as Hin.
      { apply Forall_forall. intros r. unfold span, last. rewrite elem_of_seq, elem_of_allRows. lia. }
      pose proof (regroupRows_ok _ _ _ _ _ span Hok0 (allRows_nodup _) Hin) as Hre.
      destruct (regroupRows src' span _) as [[sta oa] moved]. destruct Hre as [Ha Ra].
      assert (stOk m src' clean (allRows src') sta) as Ha'.
      { destruct Ha as [? ? ? Hga ?]. split; try done. eapply groupsOk_weaken; [|exact Hga].
        intros r _ [[? _] ?]. done. }
      destruct moved; [|done].
      pose proof (resort_ok m src' _ _ Ho (allRows_bound _) Ha') as Hre.
      destruct (resortGroups sta) as [[stb ob] b]. destruct Hre as (Hb & Rb & _). split; [done|]. by eapply replays_app.
    - apply orb_false_iff in Er as [Er1%isEmpty_false Er2%bool_decide_eq_false].
      split; [|constructor]. destruct Hok0 as [? ? ? Hg0 ?]. split; try done.
      eapply groupsOk_weaken; [|exact Hg0]. intros r _ [_ Hx]. apply Hx. apply keyAt_changed; [done|]. auto. }
  unfold onSourceDataChanged. rewrite Hm. fold last. fold span. fold mid.
  destruct mid as [st1 o1]. destruct Hmid as [H1' R1].
  replace (match m with Flat => _ | _ => _ end) with (st1, o1 ++ forwardSourceDataChanged first last c1 c2 roles st1)
    by (by destruct m).
  split; [done|]. rewrite (shape_grouped _ _ _ _ _ Hok), (shape_grouped _ _ _ _ _ H1').
  eapply replays_app; [exact R1|]. eapply forward_replays; [done|apply allRows_nodup].
Qed.

End Slots.

(* ------------------------------------------------------------------ *)
(** ** Tooltips cannot carry markup of their own *)

Lemma arg_pieces_chars s p : p ∈ arg_pieces s ->
  match p with PLit c => c ∈ s | PMark _ raw => forall c, c ∈ raw -> c ∈ s end.
Proof.
  induction s as [s IH] using (induction_ltof1 _ length). unfold ltof in IH.
  destruct s as [|c s]; cbn [arg_pieces]; [set_solver|].
  assert (forall s', length s' < length (c :: s) -> (forall x, x ∈ s' -> x ∈ c :: s) -> p ∈ arg_pieces s' ->
    match p with PLit x => x ∈ c :: s | PMark _ raw => forall x, x ∈ raw -> x ∈ c :: s end) as Hrec.
  { intros s' Hlen Hsub Hp. specialize (IH s' Hlen Hp). destruct p; auto. }
  destruct (c =? 37)%Z.
  - destruct s as [|x1 s1]; [intros ->%list_elem_of_singleton; set_solver|]. destruct (isDigit x1).
    + destruct s1 as [|x2 s2]; [intros ->%list_elem_of_singleton; set_solver|]. destruct (isDigit x2).
      * intros [->|Hp]%elem_of_cons; [set_solver|]. apply (Hrec s2); [cbn; lia|set_solver|done].
      * intros [->|Hp]%elem_of_cons; [set_solver|]. apply (Hrec (x2 :: s2)); [cbn; lia|set_solver|done].
    + intros [->|Hp]%elem_of_cons; [set_solver|]. apply (Hrec (x1 :: s1)); [cbn; lia|set_solver|done].
  - intros [->|Hp]%elem_of_cons; [set_solver|]. apply (Hrec s); [cbn; lia|set_solver|done].
Qed.

(** Substitution brings in no character of its own. *)
Lemma qarg_no_char c s x : c ∉ s -> c ∉ x -> c ∉ qarg s x.
Proof.
  intros Hs Hx. unfold qarg. destruct (min_marker (arg_pieces s)) as [m|]; [|done].
  intros Hin. apply list_elem_of_In, in_flat_map in Hin as (p & Hp%list_elem_of_In & Hc%list_elem_of_In).
  pose proof (arg_pieces_chars s p Hp) as Hch. destruct p as [y|n raw]; cbn in Hc.
  - apply list_elem_of_singleton in Hc as ->. done.
  - destruct (n =? m)%Z; [done|]. by apply Hs, Hch.
Qed.

Lemma htmlEscaped_no_lt s : 60%Z ∉ htmlEscaped s.
Proof.
  induction s as [|c s IH]; cbn [htmlEscaped]; [set_solver|]. apply not_elem_of_app. split; [|done].
  destruct (Z.eqb_spec c 60); [by apply (bool_decide_unpack _); vm_compute|].
  repeat case_match; try (by apply (bool_decide_unpack _); vm_compute). set_solver.
Qed.

Definition plainText (s : QString) : Prop := 60%Z ∉ s.

Ltac plain_const := apply (bool_decide_unpack _); by vm_compute.

Lemma line_plain prefix v : plainText prefix -> Forall plainText (line prefix v).
Proof.
  intros Hp. unfold line. destruct (isEmpty v); [constructor|]. apply Forall_singleton.
  apply not_elem_of_app. split; [done|apply htmlEscaped_no_lt].
Qed.

Lemma number_plain z : (0 <= z)%Z -> plainText (number z).
Proof. intros. by apply number_no_char. Qed.

(** Whatever a process, container or account is called, the tooltip of its
    group is the fixed frame around lines that contain no opening bracket. *)
Theorem tooltip_markup_fixed `{QtNumberText} users details sd m src g :
  (forall r, (0 <= pi_uid (c_process (connectionAt src r)))%Z) ->
  groupDetailTooltip users details sd m src g = [] \/
  exists lines, groupDetailTooltip users details sd m src g = qs "<qt>" ++ qjoin (qs "<br>") lines ++ qs "</qt>" /\
    Forall plainText lines.
Proof.
  intros Huid. unfold groupDetailTooltip. destruct (negb sd || isEmpty (g_rows g)); [by left|].
  destruct (isEmpty (tooltipLines users details m src g)); [by left|]. right. eexists. split; [done|].
  assert (0 <= pi_uid (c_process (firstFlow src g)))%Z as Hu.
  { unfold firstFlow. destruct (g_rows g); [done|apply Huid]. }
  apply Forall_app. split; last first.
  { apply Forall_singleton. unfold flowCount, plainText. apply qarg_no_char; [apply qarg_no_char; [plain_const|apply number_plain; lia]|].
    case_match; [set_solver|plain_const]. }
  unfold tooltipLines. destruct m; [constructor| | |].
  - apply Forall_singleton. apply not_elem_of_app. split; [plain_const|apply htmlEscaped_no_lt].
  - case_match; [|constructor]. rewrite !Forall_app. split_and!; apply line_plain; plain_const.
  - destruct (Z.ltb_spec 0 (pi_pid (c_process (firstFlow src g)))); [|constructor]. rewrite !Forall_app. split_and!.
    + apply line_plain; plain_const.
    + repeat constructor.
      * apply qarg_no_char; [plain_const|apply number_plain; lia].
      * case_match; [apply qarg_no_char; [plain_const|by apply number_plain]|].
        apply qarg_no_char; [apply qarg_no_char; [plain_const|apply htmlEscaped_no_lt]|by apply number_plain].
    + case_match; [|constructor]. rewrite !Forall_app. split_and!; apply line_plain; plain_const.
Qed.

Lemma tooltip_markup_fixed_witness :
  let src := [mkSrcRow (set_process (mkProcessInfo 7 (qs "<b>x</b>") [] [] 0) emptyConnection) dzero dzero (fun _ _ => VInvalid)] in
  let g := mkGroup (qs "7") (qs "x") [0] in
  groupDetailTooltip (fun _ => []) None true ByProcess src g = [] \/
  exists lines, groupDetailTooltip (fun _ => []) None true ByProcess src g = qs "<qt>" ++ qjoin (qs "<br>") lines ++ qs "</qt>" /\
    Forall plainText lines.
Proof.
  cbv zeta. apply (@tooltip_markup_fixed (fun _ _ => [])). intros [|r]; vm_compute; discriminate.
Defined.
