(* ===== verification/GroupProxyRun.v ===== *)
(** * The grouping model over its whole life

    Source signals, mode changes and sort clicks as events; what holds in every
    reachable state, what a view that follows the signals sees, and what
    becomes of the view's persistent indexes. *)

From S2P Require Import Prelude Qt StdAlgo Conn Units GroupProxy GroupProxyProofs.

Inductive GEvent :=
| GSource (src : option (list SrcRow))
| GReset (src : list SrcRow)
| GInserted (first : nat) (rows : list SrcRow)
| GRemoved (first count : nat)
| GData (first : nat) (rows : list SrcRow) (c1 c2 : Z) (roles : list Role)
| GLayout (src' : list SrcRow)
| GMode (m : ViewMode) (src' : list SrcRow)
| GSort (col : Z) (o : SortOrder) (src' : list SrcRow)
| GWithin (on : bool)
| GDetails (on : bool).

Section Run.
Context `{QtVariant, StdFullSortLaws}.

(** The source's rows after an event. *)
Definition spliced (src : list SrcRow) (first : nat) (rows : list SrcRow) (dropped : nat) : list SrcRow :=
  take first src ++ rows ++ drop (first + dropped) src.

Definition gstep (st : GroupProxy) (e : GEvent) : GroupProxy * list Sig :=
  match e, gp_src st with
  | GSource src, _ => setSourceModel src st
  | GMode m src', _ => setViewMode m src' st
  | GSort col o src', _ => sort col o src' st
  | GWithin on, _ => setSortWithinGroups on st
  | GDetails on, _ => setShowGroupDetails on st
  | GReset src', Some _ => onSourceReset (setSrc (Some src') st)
  | GInserted first rows, Some src => onSourceRowsInserted (spliced src first rows 0) first (length rows) st
  | GRemoved first count, Some src => onSourceRowsRemoved (spliced src first [] count) first count st
  | GData first rows c1 c2 roles, Some src =>
      onSourceDataChanged (spliced src first rows (length rows)) first (first + length rows - 1) c1 c2 roles st
  | GLayout src', Some _ => onSourceLayoutChanged src' st
  | _, None => (st, [])
  end.

(** What a source model guarantees of its signals, and that its sort values
    are ordered. *)
Definition legal (st : GroupProxy) (e : GEvent) : Prop :=
  match e, gp_src st with
  | GSource (Some src'), _ => orderly src'
  | GReset src', _ => orderly src'
  | GInserted first rows, Some src => first <= length src /\ rows <> [] /\ orderly (spliced src first rows 0)
  | GRemoved first count, Some src => first + count <= length src /\ 0 < count /\ orderly (spliced src first [] count)
  | GData first rows _ _ roles, Some src =>
      first + length rows <= length src /\ rows <> [] /\ orderly (spliced src first rows (length rows)) /\
      (roles <> [] -> ConnectionRole ∉ roles -> map sr_conn rows = map sr_conn (take (length rows) (drop first src)))
  | GLayout src', Some src => length src' = length src /\ orderly src'
  | GMode _ src', Some src => length src' = length src /\ orderly src'
  | GSort _ _ src', Some src => length src' = length src /\ orderly src'
  | _, _ => True
  end.

Fixpoint grun (st : GroupProxy) (es : list GEvent) : GroupProxy * list Sig :=
  match es with
  | [] => (st, [])
  | e :: es' => let '(st1, o) := gstep st e in let '(st2, o') := grun st1 es' in (st2, o ++ o')
  end.

Fixpoint legalRun (st : GroupProxy) (es : list GEvent) : Prop :=
  match es with
  | [] => True
  | e :: es' => legal st e /\ legalRun (gstep st e).1 es'
  end.

Definition proxyOk (st : GroupProxy) : Prop :=
  match gp_src st with
  | None => gp_groups st = [] /\ gp_srcIndex st = ∅
  | Some src =>
      orderly src /\
      match gp_mode st with
      | Flat => gp_groups st = [] /\ gp_srcIndex st = ∅
      | m => stOk m src clean (allRows src) st
      end
  end.

Lemma proxyOk_grouped src st :
  gp_src st = Some src -> gp_mode st <> Flat ->
  proxyOk st <-> orderly src /\ stOk (gp_mode st) src clean (allRows src) st.
Proof. intros Hs Hm. unfold proxyOk. rewrite Hs. by destruct (gp_mode st). Qed.

(** A slot's result: the invariant, and signals a view can replay. *)
Definition good (st : GroupProxy) (r : GroupProxy * list Sig) : Prop :=
  proxyOk r.1 /\ replays (shape st) r.2 (shape r.1).

Lemma rebuild_proxyOk st : match gp_src st with Some src => orderly src | None => True end -> proxyOk (rebuild st).
Proof.
  intros Ho. unfold proxyOk. destruct (gp_src st) as [src|] eqn:Es.
  - destruct (decide (gp_mode st = Flat)) as [Em|Em].
    + unfold rebuild. rewrite Es, bool_decide_true by done. cbn. by rewrite Es, Em.
    + pose proof (rebuild_ok src st Es Em Ho) as Hok. rewrite (so_src _ _ _ _ _ Hok), (so_mode _ _ _ _ _ Hok).
      split; [done|]. by destruct (gp_mode st).
  - unfold rebuild. by rewrite Es; cbn; rewrite Es.
Qed.

Lemma reset_good st st1 :
  match gp_src st1 with Some src => orderly src | None => True end -> good st (rebuild st1, [ModelReset (shape (rebuild st1))]).
Proof. intros. split; [by apply rebuild_proxyOk|]. apply replays_one. constructor. Qed.

(** Slots that end in a re-sort and change nothing the groups depend on. *)
Lemma resort_good st st1 :
  proxyOk st1 -> shape st1 = shape st -> good st (let '(st', o, _) := resortGroups st1 in (st', o)).
Proof.
  intros Hok Hsh. destruct (gp_src st1) as [src|] eqn:Es; last first.
  { unfold resortGroups. rewrite Es. split; [done|]. cbn. rewrite Hsh. constructor. }
  destruct (decide (gp_mode st1 = Flat)) as [Em|Em].
  { unfold resortGroups. rewrite Es, (bool_decide_true (gp_mode st1 = Flat)) by done. rewrite orb_true_r. cbn.
    split; [done|]. cbn. rewrite Hsh. constructor. }
  apply (proxyOk_grouped src st1 Es Em) in Hok as [Ho Hok].
  pose proof (resort_ok _ _ _ _ Ho (allRows_bound _) Hok) as Hr. unfold good. rewrite <- Hsh, (shape_grouped _ _ _ _ _ Hok).
  destruct (resortGroups st1) as [[st' o] b]. destruct Hr as (Hok' & Hr & _).
  split; cbn; [|by rewrite (shape_grouped _ _ _ _ _ Hok')].
  apply (proxyOk_grouped src); [apply Hok'|rewrite (so_mode _ _ _ _ _ Hok'); done|].
  by rewrite (so_mode _ _ _ _ _ Hok').
Qed.

Lemma replicate_splice first count n (x : nat) :
  first <= n -> take first (replicate n x) ++ replicate count x ++ drop first (replicate n x) = replicate (n + count) x.
Proof.
  intros. rewrite take_replicate, drop_replicate, <- !replicate_add. f_equal. lia.
Qed.

Lemma flat_ok src' st :
  gp_mode st = Flat -> gp_groups st = [] -> gp_srcIndex st = ∅ -> orderly src' -> proxyOk (setSrc (Some src') st).
Proof. intros Hm Hg Hi Ho. unfold proxyOk. cbn. by rewrite Hm. Qed.

Lemma flat_shape src st : gp_mode st = Flat -> gp_src st = Some src -> shape st = replicate (length src) 0.
Proof. intros Hm Hs. unfold shape. by rewrite Hm, Hs. Qed.

Lemma flat_layout src src' st :
  gp_mode st = Flat -> gp_src st = Some src -> gp_groups st = [] -> gp_srcIndex st = ∅ ->
  length src' = length src -> orderly src' -> good st (setSrc (Some src') st, [LayoutChanged (shape (setSrc (Some src') st))]).
Proof.
  intros Hm Hs Hg Hi Hl Ho. split; [by apply flat_ok|]. cbn. apply replays_one. constructor.
  rewrite (flat_shape src st), (flat_shape src' (setSrc (Some src') st)) by done. by rewrite Hl.
Qed.

(** Each event of a flat proxy. *)
Lemma flat_event src st e :
  proxyOk st -> gp_src st = Some src -> gp_mode st = Flat -> legal st e ->
  match e with
  | GInserted _ _ | GRemoved _ _ | GData _ _ _ _ _ | GLayout _ | GSort _ _ _ => True
  | _ => False
  end -> good st (gstep st e).
Proof.
  intros Hok Hs Hm Hl He. unfold proxyOk in Hok. rewrite Hs, Hm in Hok. destruct Hok as (Ho & Hg & Hi).
  unfold legal, gstep in *. rewrite Hs in *. destruct e as [| |first rows|first count|first rows c1 c2 roles|src'| |col o src'| |]; try done.
  - destruct Hl as (Hf & Hne & Ho'). unfold onSourceRowsInserted. rewrite Hm. split; [by apply flat_ok|]. cbn [fst snd].
    apply replays_one. rewrite (flat_shape src st Hm Hs), (flat_shape (spliced src first rows 0)) by done.
    replace (length (spliced src first rows 0)) with (length src + length rows)
      by (unfold spliced; rewrite !length_app, length_take, length_drop; lia).
    rewrite <- (replicate_splice first) by done. constructor; [by rewrite length_replicate|]. by destruct rows.
  - destruct Hl as (Hf & Hc & Ho'). unfold onSourceRowsRemoved. rewrite Hm. split; [by apply flat_ok|]. cbn [fst snd].
    apply replays_one. rewrite (flat_shape src st Hm Hs), (flat_shape (spliced src first [] count)) by done.
    replace (replicate (length (spliced src first [] count)) 0) with
      (take first (replicate (length src) 0) ++ drop (S (first + count - 1)) (replicate (length src) 0)).
    + constructor; [lia|]. rewrite length_replicate. lia.
    + rewrite take_replicate, drop_replicate, <- replicate_add. f_equal. unfold spliced.
      rewrite !length_app, length_take, length_drop. cbn. lia.
  - destruct Hl as (Hf & Hne & Ho' & _). unfold onSourceDataChanged. rewrite Hm. split; [by apply flat_ok|]. cbn [fst snd].
    rewrite (flat_shape src st Hm Hs), (flat_shape (spliced src first rows (length rows))) by done.
    replace (length (spliced src first rows (length rows))) with (length src)
      by (unfold spliced; rewrite !length_app, length_take, length_drop; lia).
    apply replays_one. assert (length rows <> 0) by (by destruct rows). constructor; rewrite ?length_replicate; lia.
  - destruct Hl as [Hlen Ho']. unfold onSourceLayoutChanged. rewrite Hm. by eapply flat_layout.
  - destruct Hl as [Hlen Ho']. unfold sort. rewrite Hs, Hm.
    by apply (flat_layout src src' (setSort col o st)).
Qed.

(** Each source event of a grouped proxy. *)
Lemma grouped_event src st e :
  proxyOk st -> gp_src st = Some src -> gp_mode st <> Flat -> legal st e ->
  match e with GInserted _ _ | GRemoved _ _ | GData _ _ _ _ _ | GLayout _ => True | _ => False end ->
  good st (gstep st e).
Proof.
  intros Hok Hs Hm Hl He. apply (proxyOk_grouped src st Hs Hm) in Hok as [Ho Hok].
  assert (forall src' r, orderly src' -> stOk (gp_mode st) src' clean (allRows src') r.1 ->
    replays (shape st) r.2 (shape r.1) -> good st r) as Hfin.
  { intros src' r Ho' Hok' Hr. split; [|done]. apply (proxyOk_grouped src'); [apply Hok'| |];
      rewrite (so_mode _ _ _ _ _ Hok'); done. }
  unfold legal, gstep in *. rewrite Hs in *. destruct e as [| |first rows|first count|first rows c1 c2 roles|src'| | | |]; try done.
  - destruct Hl as (Hf & Hne & Ho'). unfold spliced in *. rewrite Nat.add_0_r in *.
    pose proof (inserted_ok _ src rows first st Hok Hf Ho') as Hr. cbv zeta in Hr.
    destruct (onSourceRowsInserted _ _ _ st) as [st' out]. destruct Hr as [Hr1 Hr2]. by apply (Hfin _ (st', out) Ho' Hr1 Hr2).
  - destruct Hl as (Hf & Hc & Ho'). unfold spliced in *. cbn [app] in *.
    pose proof (removed_ok _ src first count st Hok Hf Hc Ho') as Hr. cbv zeta in Hr.
    destruct (onSourceRowsRemoved _ _ _ st) as [st' out]. destruct Hr as [Hr1 Hr2]. by apply (Hfin _ (st', out) Ho' Hr1 Hr2).
  - destruct Hl as (Hf & Hne & Ho' & Hroles). unfold spliced in *.
    pose proof (data_ok _ src rows first c1 c2 roles st Hok Hf Hne Hroles Ho') as Hr. cbv zeta in Hr.
    destruct (onSourceDataChanged _ _ _ _ _ _ st) as [st' out]. destruct Hr as [Hr1 Hr2]. by apply (Hfin _ (st', out) Ho' Hr1 Hr2).
  - destruct Hl as [Hlen Ho']. unfold onSourceLayoutChanged, onSourceReset.
    replace (match gp_mode st with Flat => _ | _ => _ end) with
      (rebuild (setSrc (Some src') st), [ModelReset (shape (rebuild (setSrc (Some src') st)))]) by (by destruct (gp_mode st)).
    by apply reset_good.
Qed.

Lemma setSort_ok col o st : proxyOk st -> proxyOk (setSort col o st) /\ shape (setSort col o st) = shape st.
Proof.
  intros Hok. split; [|done]. unfold proxyOk in *. cbn. destruct (gp_src st); [|done]. destruct Hok as [Ho Hok].
  split; [done|]. destruct (gp_mode st) eqn:Em; [done|..]; destruct Hok as [Hm Hnf Hs Hg Hix]; by split.
Qed.

Lemma setWithin_ok b st : proxyOk st -> proxyOk (setWithin b st) /\ shape (setWithin b st) = shape st.
Proof.
  intros Hok. split; [|done]. unfold proxyOk in *. cbn. destruct (gp_src st); [|done]. destruct Hok as [Ho Hok].
  split; [done|]. destruct (gp_mode st) eqn:Em; [done|..]; destruct Hok as [Hm Hnf Hs Hg Hix]; by split.
Qed.

Lemma setDetails_ok b st : proxyOk st -> proxyOk (setDetails b st) /\ shape (setDetails b st) = shape st.
Proof.
  intros Hok. split; [|done]. unfold proxyOk in *. cbn. destruct (gp_src st); [|done]. destruct Hok as [Ho Hok].
  split; [done|]. destruct (gp_mode st) eqn:Em; [done|..]; destruct Hok as [Hm Hnf Hs Hg Hix]; by split.
Qed.

Lemma good_nil st : proxyOk st -> good st (st, []).
Proof. intros. split; [done|constructor]. Qed.

Lemma settings_event st e :
  proxyOk st -> legal st e ->
  match e with GMode _ _ | GWithin _ | GDetails _ | GSource _ | GReset _ => True | GSort _ _ _ => gp_src st = None \/ gp_mode st <> Flat | _ => False end ->
  good st (gstep st e).
Proof.
  intros Hok Hl He. unfold gstep. destruct e as [src'|src'| | | | |m src'|col o src'|b|b]; try done.
  - apply reset_good. cbn. by destruct src'.
  - destruct (gp_src st) as [src|] eqn:Es; [by apply reset_good|by apply good_nil].
  - unfold setViewMode. case_bool_decide; [by apply good_nil|]. apply reset_good. unfold legal in Hl.
    destruct (gp_src st) as [src|] eqn:Es; cbn; rewrite ?Es; [by destruct Hl|done].
  - destruct (setSort_ok col o st Hok) as [Hok1 Hsh]. unfold sort. destruct (gp_src st) as [src|] eqn:Es; last first.
    { split; [done|]. cbn. rewrite Hsh. constructor. }
    destruct He as [|Hm]; [done|]. pose proof (resort_good st (setSort col o st) Hok1 Hsh) as Hg.
    destruct (gp_mode st); [done|..]; exact Hg.
  - unfold setSortWithinGroups. destruct (Bool.eqb _ _); [by apply good_nil|].
    destruct (setWithin_ok b st Hok) as [Hok1 Hsh]. by apply resort_good.
  - unfold setShowGroupDetails. destruct (Bool.eqb _ _); [by apply good_nil|].
    destruct (setDetails_ok b st Hok) as [Hok1 Hsh].
    destruct (bool_decide (gp_mode st = Flat) || isEmpty (gp_groups st)) eqn:Eb.
    { split; [done|]. cbn [snd fst]. rewrite Hsh. constructor. }
    apply orb_false_iff in Eb as [Em%bool_decide_eq_false Ee%isEmpty_false].
    split; [done|]. cbn [snd fst]. rewrite Hsh. apply replays_one.
    assert (shape st = kids (gp_groups st)) as -> by (unfold shape; by destruct (gp_mode st)).
    constructor; [lia|]. rewrite length_kids. destruct (gp_groups st); [done|]. cbn. lia.
Qed.

Lemma gstep_good st e : proxyOk st -> legal st e -> good st (gstep st e).
Proof.
  intros Hok Hl. destruct (gp_src st) as [src|] eqn:Es; last first.
  { destruct e; try (by apply settings_event; auto); unfold gstep; rewrite Es; by apply good_nil. }
  destruct (decide (gp_mode st = Flat)) as [Em|Em].
  - destruct e; try (by apply settings_event; auto); by apply (flat_event src).
  - destruct e; try (by apply settings_event; auto); by apply (grouped_event src).
Qed.

Lemma grun_good es st : proxyOk st -> legalRun st es -> good st (grun st es).
Proof.
  revert st. induction es as [|e es IH]; intros st Hok Hl; cbn; [by apply good_nil|].
  destruct Hl as [Hl Hes]. destruct (gstep_good st e Hok Hl) as [Hok1 R1].
  destruct (gstep st e) as [st1 o]. cbn in *. destruct (IH st1 Hok1 Hes) as [Hok2 R2].
  destruct (grun st1 es) as [st2 o']. split; [done|]. cbn in *. by eapply replays_app.
Qed.

(* ------------------------------------------------------------------ *)
(** ** Theorems *)

(** C25. In every state reached by a source that keeps its contract, the proxy is
    well formed - in a grouped mode its groups are exactly the classes of
    source rows with equal keys, none empty, and the reverse index is exact -
    and a view that replays the announced inserts, removals and layout changes
    finds every one of them legal and ends with the tree's shape. *)
Theorem group_run_ok es :
  legalRun newProxy es ->
  proxyOk (grun newProxy es).1 /\ replays [] (grun newProxy es).2 (shape (grun newProxy es).1).
Proof. intros Hl. by apply grun_good. Qed.

(** The groups as a map from key to the set of its rows. *)
Definition content (gs : list Group) : gmap QString (gset nat) :=
  list_to_map (map (fun g => (g_key g, list_to_set (g_rows g))) gs).

Lemma content_spec m src gs k (X : gset nat) :
  groupsOk m src clean (allRows src) gs ->
  content gs !! k = Some X <->
  (exists r, r < length src /\ keyAt m src r = k) /\ X = filter (fun r => keyAt m src r = k) (list_to_set (allRows src)).
Proof.
  intros [Hk Hf Hr Hc]. unfold content.
  assert (forall g, g ∈ gs -> list_to_set (g_rows g) = filter (fun r => keyAt m src r = g_key g) (list_to_set (allRows src) : gset nat)) as Hset.
  { intros g Hg. apply set_eq. intros r. rewrite elem_of_filter, !elem_of_list_to_set. split.
    - intros Hrg. destruct (Hc g r Hg Hrg) as [[]|E]. split; [done|]. rewrite <- Hr. apply elem_of_rowsOf. eauto.
    - intros [E Hin]. rewrite <- Hr in Hin. apply elem_of_rowsOf in Hin as (g' & Hg' & Hrg').
      destruct (Hc g' r Hg' Hrg') as [[]|E']. rewrite E in E'.
      apply list_elem_of_lookup in Hg as [i Hi], Hg' as [j Hj].
      assert (i = j) as ->; [|congruence].
      eapply (NoDup_lookup (keysOf gs)); [done|..]; unfold keysOf; rewrite list_lookup_fmap; [by rewrite Hi|].
      rewrite Hj. cbn. by rewrite <- E'. }
  rewrite <- elem_of_list_to_map by (by rewrite <- list_fmap_compose).
  rewrite list_elem_of_fmap. split.
  - intros (g & [= -> ->] & Hg). split; [|by apply Hset].
    rewrite Forall_forall in Hf. specialize (Hf g Hg). destruct (g_rows g) as [|r l] eqn:E; [done|].
    assert (r ∈ g_rows g) as Hrg by (rewrite E; set_solver). exists r. split.
    + apply elem_of_allRows. rewrite <- Hr. apply elem_of_rowsOf. eauto.
    + destruct (Hc g r Hg Hrg) as [[]|]. done.
  - intros [(r & Hlt & E) ->]. apply elem_of_allRows in Hlt. rewrite <- Hr in Hlt.
    apply elem_of_rowsOf in Hlt as (g & Hg & Hrg). destruct (Hc g r Hg Hrg) as [[]|E']. exists g. split; [|done].
    rewrite Hset by done. by rewrite <- E', E.
Qed.

(** C26. Incremental maintenance is rebuilding: after any run the groups hold the
    same keys and the same rows under each as a rebuild from the source. *)
Theorem groups_are_rebuild es src :
  legalRun newProxy es -> gp_src (grun newProxy es).1 = Some src -> gp_mode (grun newProxy es).1 <> Flat ->
  content (gp_groups (grun newProxy es).1) = content (rebuildGroups (gp_mode (grun newProxy es).1) src).
Proof.
  intros Hl Hs Hm. destruct (grun_good es newProxy) as [Hok _]; [done..|].
  apply (proxyOk_grouped src _ Hs Hm) in Hok as [_ [_ _ _ Hg _]].
  apply map_eq. intros k. apply option_eq. intros X.
  rewrite (content_spec _ _ _ _ _ Hg), (content_spec _ _ _ _ _ (rebuildGroups_ok _ src clean)). done.
Qed.

(** [mapToSource] and [mapFromSource] are inverse on the rows of flows. *)
Theorem mapToSource_mapFromSource st p r c :
  proxyOk st -> (gp_mode st = Flat -> ix_id p = None) -> (0 <= c)%Z ->
  mapToSource p st = Some (r, c) <-> mapFromSource r c st = Some p.
Proof.
  intros Hok Hid Hc. unfold mapToSource, mapFromSource. destruct (gp_src st) as [src|] eqn:Es; [|done].
  destruct (decide (gp_mode st = Flat)) as [Em|Em].
  - unfold gindex. rewrite Em, Es, (proj2 (Z.ltb_ge c 0)) by done. specialize (Hid Em).
    destruct p as [row col id]. cbn [ix_row ix_col ix_id] in *. subst id. split.
    + destruct (Nat.ltb_spec row (length src)); [|done]. intros [= ? ?]; subst. by rewrite (proj2 (Nat.ltb_lt _ _)) by done.
    + destruct (Nat.ltb_spec r (length src)); [|done]. intros [= ? ?]; subst. by rewrite (proj2 (Nat.ltb_lt _ _)) by done.
  - apply (proxyOk_grouped src st Es Em) in Hok as [_ [_ _ _ Hg Hix]].
    pose proof (rows_nodup _ _ _ _ _ (allRows_nodup src) Hg) as Hnd.
    assert (forall gi ci, gp_srcIndex st !! r = Some (gi, ci) <->
      exists g, gp_groups st !! gi = Some g /\ g_rows g !! ci = Some r) as Hlk by (intros; rewrite Hix; by apply srcIndexOf_lookup).
    transitivity (exists gi, ix_id p = Some gi /\ ix_col p = c /\ gp_srcIndex st !! r = Some (gi, ix_row p)).
    + transitivity (match ix_id p with Some gi => match gp_groups st !! gi with Some g => match g_rows g !! ix_row p with
        Some r' => if (r' <? length src)%nat then Some (r', ix_col p) else None | None => None end | None => None end | None => None end = Some (r, c)).
      { by destruct (gp_mode st). }
      split.
      * destruct (ix_id p) as [gi|]; [|done]. destruct (gp_groups st !! gi) as [g|] eqn:Egi; [|done].
        destruct (g_rows g !! ix_row p) as [r'|] eqn:Er; [|done]. destruct (r' <? length src)%nat; [|done].
        intros [= -> ->]. exists gi. split_and!; [done..|]. apply Hlk. eauto.
      * intros (gi & -> & <- & Hx). apply Hlk in Hx as (g & Hgi & Hrr). rewrite Hgi, Hrr.
        assert (r < length src) as Hlt.
        { apply elem_of_allRows. rewrite <- (go_rows _ _ _ _ _ Hg). apply elem_of_rowsOf.
          exists g. split; by eapply list_elem_of_lookup_2. }
        by apply Nat.ltb_lt in Hlt as ->.
    + transitivity (match gp_srcIndex st !! r with Some (gi, ci) => Some (mkIdx ci c (Some gi)) | None => None end = Some p); last first.
      { by destruct (gp_mode st). }
      destruct p as [row col id]. cbn. split.
      * intros (gi & -> & -> & ->). done.
      * destruct (gp_srcIndex st !! r) as [[gi ci]|]; [|done]. intros [= <- <- <-]. eauto.
Qed.

Lemma groupKey_nonempty m c : m <> Flat -> groupKeyFor m c <> [].
Proof.
  intros Hm. destruct m; cbn -[qs qarg number]; [done| | |].
  - destruct (isEmpty (c_iface c)) eqn:E; [done|by apply isEmpty_false].
  - repeat case_match; try done; by destruct (ci_runtime (c_container c)).
  - destruct (Z.ltb_spec 0 (pi_pid (c_process c))); [|done].
    assert (qarg (qs "%1/%2") (number (pi_pid (c_process c))) = number (pi_pid (c_process c)) ++ qs "/%2") as -> by reflexivity.
    rewrite qarg_prefix by (apply noPct_number; lia). intros [_ E]%app_eq_nil. revert E. by apply qarg_nonempty.
Qed.

(** A re-sort announces its layout change with every persistent index carried
    to the same group, and for a flow to the same source row. *)
Theorem resort_preserves_indexes st st' o p id :
  proxyOk st -> resortGroups st = (st', o, true) -> identityOf (gp_groups st) p = Some id ->
  exists p', remapIndex (gp_groups st) (gp_groups st') (gp_srcIndex st') p = Some p' /\
    identityOf (gp_groups st') p' = Some id /\ ix_col p' = ix_col p.
Proof.
  intros Hok Hre Hid. destruct (gp_src st) as [src|] eqn:Es; [|by unfold resortGroups in Hre; rewrite Es in Hre].
  destruct (decide (gp_mode st = Flat)) as [Em|Em].
  { unfold resortGroups in Hre. rewrite Es, (bool_decide_true (gp_mode st = Flat)), orb_true_r in Hre by done. done. }
  apply (proxyOk_grouped src st Es Em) in Hok as [Ho Hok].
  pose proof (resort_ok _ _ _ _ Ho (allRows_bound _) Hok) as Hr. rewrite Hre in Hr. destruct Hr as (Hok' & _ & _).
  destruct Hok as [_ _ _ Hg _], Hok' as [_ _ _ Hg' Hix'].
  pose proof (rows_nodup _ _ _ _ _ (allRows_nodup src) Hg') as Hnd'.
  (* the group of [id] and a row of it *)
  assert (exists g r, g ∈ gp_groups st /\ r ∈ g_rows g /\ id.1 = g_key g /\ (id.2 = None \/ id.2 = Some r)) as (g & r & Hgin & Hrin & Hk & Hr2).
  { unfold identityOf in Hid. destruct (ix_id p) as [gi|].
    - destruct (gp_groups st !! gi) as [g|] eqn:E; [|done]. destruct (g_rows g !! ix_row p) as [r|] eqn:E2; [|done].
      injection Hid as <-. exists g, r. split_and!; [by eapply list_elem_of_lookup_2..|done|by right].
    - destruct (gp_groups st !! ix_row p) as [g|] eqn:E; [|done]. injection Hid as <-.
      pose proof (list_elem_of_lookup_2 _ _ _ E) as Hgin. pose proof (go_full _ _ _ _ _ Hg) as Hf. rewrite Forall_forall in Hf.
      specialize (Hf g Hgin). destruct (g_rows g) as [|r l] eqn:El; [done|]. exists g, r. rewrite El. split_and!; [done|set_solver|done|by left]. }
  (* the same row in the new groups *)
  assert (r ∈ rowsOf (gp_groups st')) as Hr'.
  { rewrite (go_rows _ _ _ _ _ Hg'), <- (go_rows _ _ _ _ _ Hg). apply elem_of_rowsOf. eauto. }
  apply elem_of_rowsOf in Hr' as (g' & [gi Hgi]%list_elem_of_lookup & [ci Hci]%list_elem_of_lookup).
  assert (g_key g' = g_key g) as Hkk.
  { destruct (go_class _ _ _ _ _ Hg g r Hgin Hrin) as [[]|<-].
    destruct (go_class _ _ _ _ _ Hg' g' r) as [[]|<-]; [by eapply list_elem_of_lookup_2..|done]. }
  assert (findKey (g_key g) (gp_groups st') = Some gi) as Hf by (rewrite <- Hkk; apply findKey_lookup; [apply Hg'|done]).
  assert (gp_srcIndex st' !! r = Some (gi, ci)) as Hlk by (rewrite Hix'; apply srcIndexOf_lookup; eauto).
  assert (isEmpty (g_key g) = false) as Hne.
  { apply isEmpty_false. destruct (go_class _ _ _ _ _ Hg g r Hgin Hrin) as [[]|<-]. by apply groupKey_nonempty. }
  unfold remapIndex. rewrite Hid. destruct id as [k rid]. cbn in Hk, Hr2. subst k. rewrite Hne, Hf.
  destruct Hr2 as [->| ->].
  - eexists. split; [done|]. split; [|done]. unfold identityOf. cbn. by rewrite Hgi, Hkk.
  - rewrite Hlk. eexists. split; [done|]. split; [|done]. unfold identityOf. cbn. by rewrite Hgi, Hci, Hkk.
Qed.

(** The loop over one removed row that was alone in its group. *)
Lemma removeRows_last a g0 b r :
  NoDup (rowsOf (a ++ g0 :: b)) -> g_rows g0 = [r] ->
  removeRows (a ++ g0 :: b) [] [] (seq r 1) =
    (a ++ setRows [] g0 :: b, [length a], [], [RowsRemoved (Some (length a)) 0 0]).
Proof.
  intros Hnd Hg0. cbn [seq removeRows]. pose proof (locateRow_spec r (a ++ g0 :: b)) as Hloc.
  destruct (locateRow r (a ++ g0 :: b)) as [[gj cj]|]; last first.
  { exfalso. apply Hloc. rewrite rowsOf_app. unfold rowsOf. cbn. rewrite Hg0. set_solver. }
  destruct Hloc as (g & Hgj & Hcj).
  assert (srcIndexOf (a ++ g0 :: b) !! r = Some (gj, cj)) as E1 by (apply srcIndexOf_lookup; eauto).
  assert (srcIndexOf (a ++ g0 :: b) !! r = Some (length a, 0)) as E2.
  { apply srcIndexOf_lookup; [done|]. exists g0. by rewrite list_lookup_middle, Hg0. }
  rewrite E1 in E2. injection E2 as -> ->. rewrite alter_middle, Hg0. unfold groupEmptyAt.
  by rewrite list_lookup_middle by done.
Qed.

Lemma touchedSignals_none gs : touchedSignals gs [] = [].
Proof.
  unfold touchedSignals. enough (forall (h : nat -> nat) gs0,
    concat (imap (fun gi (g : Group) => if bool_decide (g_key g ∈ []) then [headerChanged (h gi)] else []) gs0) = []) as Hx
    by (apply (Hx (fun i => i))).
  intros h gs0. revert h. induction gs0 as [|g gs0 IH]; intros h; cbn; [done|].
  rewrite bool_decide_false by set_solver. apply (IH (fun i => h (S i))).
Qed.


End Run.

(* ------------------------------------------------------------------ *)
(** ** Concrete runs *)

Definition variantRank (v : QVariant) : Z := match v with VInt z | VULongLong z => z | _ => 0%Z end.

#[global] Instance rankVariant : QtVariant := {|
  variantCompare a b := Some (Z.compare (variantRank a) (variantRank b));
  variantToDouble v := dofZ (variantRank v);
|}.

Lemma cmpVariant_rank o a b :
  cmpVariant o a b = match o with
                     | Ascending => (variantRank a <? variantRank b)%Z
                     | Descending => (variantRank b <? variantRank a)%Z
                     end.
Proof.
  unfold cmpVariant. cbn. destruct (Z.compare_spec (variantRank a) (variantRank b)); destruct o; cbn;
    symmetry; rewrite ?Z.ltb_lt, ?Z.ltb_ge; lia.
Qed.

Lemma rank_orderly src : orderly src.
Proof.
  intros col o.
  assert (forall A (h : A -> QVariant) P, swo_on (fun x y => cmpVariant o (h x) (h y)) P) as Hh.
  { intros A h P. split; intros *; rewrite !cmpVariant_rank; destruct o; rewrite ?Z.ltb_lt, ?Z.ltb_irrefl; try done; lia. }
  split; apply Hh.
Qed.

(** Flows of three processes. *)
Definition flowOf (pid : Z) (bytes : Z) : SrcRow :=
  mkSrcRow (set_process (mkProcessInfo pid (qs "proc") [] [] 0) emptyConnection) dzero dzero
    (fun _ role => match role with SortRole => VInt bytes | _ => VInvalid end).

Definition sampleEvents : list GEvent :=
  [GSource (Some [flowOf 1 10; flowOf 2 20]); GMode ByProcess [flowOf 1 10; flowOf 2 20];
   GInserted 1 [flowOf 3 5; flowOf 2 30]; GSort 2 Descending [flowOf 1 10; flowOf 3 5; flowOf 2 30; flowOf 2 20];
   GData 0 [flowOf 3 99] 0 9 []; GRemoved 2 1].

(** The decidable part of [legal]. *)
Definition legalb (st : GroupProxy) (e : GEvent) : bool :=
  match e, gp_src st with
  | GInserted first rows, Some src => (first <=? length src)%nat && negb (isEmpty rows)
  | GRemoved first count, Some src => (first + count <=? length src)%nat && (0 <? count)%nat
  | GData first rows _ _ roles, Some src =>
      (first + length rows <=? length src)%nat && negb (isEmpty rows) && isEmpty roles
  | GLayout src', Some src | GMode _ src', Some src | GSort _ _ src', Some src => (length src' =? length src)%nat
  | _, _ => true
  end.

Fixpoint legalRunb (st : GroupProxy) (es : list GEvent) : bool :=
  match es with
  | [] => true
  | e :: es' => legalb st e && legalRunb (gstep st e).1 es'
  end.

Lemma legalRunb_sound es st : legalRunb st es = true -> legalRun st es.
Proof.
  revert st. induction es as [|e es IH]; intros st; [done|]. cbn [legalRunb legalRun]. intros [Hl Hr]%andb_true_iff.
  split; [|by apply IH]. unfold legalb, legal in *.
  destruct e as [[src'|]| | | | | | | | |], (gp_src st); try done; rewrite ?andb_true_iff, ?negb_true_iff, ?Nat.leb_le, ?Nat.ltb_lt, ?Nat.eqb_eq, ?isEmpty_false, ?isEmpty_true in Hl;
    try (apply rank_orderly); split_and?; try apply rank_orderly; naive_solver.
Qed.

Lemma sampleEvents_legal : legalRun newProxy sampleEvents.
Proof. apply legalRunb_sound. by vm_compute. Qed.

Lemma group_run_ok_witness :
  proxyOk (grun newProxy sampleEvents).1 /\ replays [] (grun newProxy sampleEvents).2 [1; 2].
Proof.
  replace [1; 2] with (shape (grun newProxy sampleEvents).1) by (vm_compute; reflexivity).
  exact (group_run_ok sampleEvents sampleEvents_legal).
Defined.

Lemma groups_are_rebuild_witness :
  content (gp_groups (grun newProxy sampleEvents).1) =
  content (rebuildGroups ByProcess [flowOf 3 99; flowOf 3 5; flowOf 2 20]).
Proof.
  replace ByProcess with (gp_mode (grun newProxy sampleEvents).1) by (vm_compute; reflexivity).
  apply (groups_are_rebuild sampleEvents [flowOf 3 99; flowOf 3 5; flowOf 2 20] sampleEvents_legal); vm_compute; [reflexivity|discriminate].
Defined.

Lemma mapToSource_mapFromSource_witness :
  mapFromSource 1 4 (grun newProxy sampleEvents).1 = Some (mkIdx 1 4 (Some 1)).
Proof.
  apply (mapToSource_mapFromSource (grun newProxy sampleEvents).1 (mkIdx 1 4 (Some 1)) 1 4).
  - apply (grun_good sampleEvents newProxy); [done|apply sampleEvents_legal].
  - vm_compute. discriminate.
  - lia.
  - vm_compute. reflexivity.
Defined.

(** A state whose order a click changes. *)
Definition sortedBefore : GroupProxy := (grun newProxy (take 3 sampleEvents)).1.
Definition clicked : GroupProxy := setWithin false (setSort 1 Descending sortedBefore).

Lemma clicked_ok : proxyOk clicked.
Proof.
  assert (legalRun newProxy (take 3 sampleEvents)) as Hl by (apply legalRunb_sound; by vm_compute).
  assert (proxyOk newProxy) as H0 by done.
  exact (proj1 (setWithin_ok false _ (proj1 (setSort_ok 1 Descending sortedBefore (proj1 (grun_good _ newProxy H0 Hl)))))).
Qed.

Lemma resort_preserves_indexes_witness :
  exists p', remapIndex (gp_groups clicked) (gp_groups (resortGroups clicked).1.1) (gp_srcIndex (resortGroups clicked).1.1)
      (mkIdx 1 0 (Some 1)) = Some p' /\
    identityOf (gp_groups (resortGroups clicked).1.1) p' = Some (qs "2/proc", Some 2) /\ ix_col p' = 0%Z.
Proof.
  apply (resort_preserves_indexes clicked (resortGroups clicked).1.1 (resortGroups clicked).1.2 (mkIdx 1 0 (Some 1)) (qs "2/proc", Some 2)).
  - apply clicked_ok.
  - vm_compute. reflexivity.
  - vm_compute. reflexivity.
Defined.

(** Groups of pids 1, 2 and 3; the only flow of pid 1 ends. *)
Definition threeGroups : GroupProxy :=
  (grun newProxy [GSource (Some [flowOf 1 1; flowOf 2 2; flowOf 3 3]); GMode ByProcess [flowOf 1 1; flowOf 2 2; flowOf 3 3]]).1.

Lemma threeGroups_ok : proxyOk threeGroups.
Proof.
  assert (proxyOk newProxy) as H0 by done.
  refine (proj1 (grun_good _ newProxy H0 _)). apply legalRunb_sound. by vm_compute.
Qed.

