(* ===== verification/BsdResolver.v ===== *)
(** * BSD backends: socket owners and interface counters

    [src/backend/bsd/BsdFlowKey.h], [BsdSocketResolver.{h,cpp}] and
    [BsdNetworkWorker.cpp], [BsdNetworkMonitor.cpp].

    The kernel's tables are arguments: the answers of [sysctl], [getifaddrs]
    and [jail_get].  Records of system headers ([kinfo_pcb], [kinfo_file],
    [kinfo_proc], [if_data]) carry the members the code reads; their layout in
    a buffer belongs to the system, so decoding one is a parameter. *)

From S2P Require Import Prelude Qt Conn DbusTypes SockDump.

(* ------------------------------------------------------------------ *)
(** ** Flow keys *)

Section Keys.
Context `{QtAddrText}.

Definition flowKeyExact (proto : L4Proto) (local remote : Endpoint) : QString :=
  qarg (qarg (qarg (qarg (qarg (qs "%1|%2.%3|%4.%5")
    (number (protoInt proto)))
    (addrToString (ep_address local))) (number (ep_port local)))
    (addrToString (ep_address remote))) (number (ep_port remote)).

Definition flowKeyLocal (proto : L4Proto) (local : Endpoint) : QString :=
  qarg (qarg (qarg (qs "%1|%2.%3") (number (protoInt proto)))
    (addrToString (ep_address local))) (number (ep_port local)).
End Keys.

(* ------------------------------------------------------------------ *)
(** ** [suckMib]: reading a table whose size is not known

    One answer per call of [sysctl]: failure, or [ENOMEM] with the size it
    leaves behind, or success with the bytes it wrote and the size.  The first
    call probes with a null buffer. *)

Inductive SysctlAnswer :=
| ScError
| ScNoMem (sz : nat)
| ScOk (data : list Z) (sz : nat).

(** What the system answers to a buffer of [cap] bytes holding [sz], in the
    [n]th call; [None] for the null buffer of the probe. *)
Definition Sysctl := nat -> option nat -> SysctlAnswer.

Definition resized (buf : list Z) (sz : nat) : list Z := take sz buf ++ replicate (sz - length buf) 0%Z.

(** The loop; [None]: still running after [fuel] calls. *)
Fixpoint suckLoop (fuel : nat) (sysctl : Sysctl) (n : nat) (buf : list Z) : option (list Z) :=
  match fuel with
  | 0 => None
  | S fuel =>
      let old := if isEmpty buf then None else Some (length buf) in
      match sysctl n old with
      | ScError => Some []
      | ScNoMem sz => suckLoop fuel sysctl (S n) (resized buf sz)
      | ScOk data sz =>
          match old with
          | Some _ => Some (resized (data ++ drop (length data) buf) sz)
          | None => if (sz =? 0)%nat then Some [] else suckLoop fuel sysctl (S n) (resized buf sz)
          end
      end
  end.

Definition suckMib (fuel : nat) (sysctl : Sysctl) : option (list Z) := suckLoop fuel sysctl 0 [].

(* ------------------------------------------------------------------ *)
(** ** Socket addresses and the kernel's records *)

Inductive SockAddr :=
| SaInet (addr port : Z)
| SaInet6 (addr port : Z)
| SaLink
| SaOther.

Definition endpointFromSockaddr (sa : option SockAddr) : Endpoint :=
  match sa with
  | Some (SaInet a p) => mkEndpoint (AddrV4 a) p
  | Some (SaInet6 a p) => mkEndpoint (AddrV6 a []) p
  | _ => mkEndpoint AddrNull 0
  end.

(** NetBSD. *)
Record KProc2 := mkKProc2 { p2_pid : Z; p2_ruid : Z; p2_comm : QString }.
Record KFile2 := mkKFile2 { f2_socket : bool; f2_fdata : Z; f2_pid : Z }.
Record KPcb := mkKPcb { pcb_sockaddr : Z; pcb_src : SockAddr; pcb_dst : SockAddr }.

(** FreeBSD. *)
Record KProc := mkKProc { kp_pid : Z; kp_ruid : Z; kp_comm : QString; kp_jid : Z }.
Record KFile := mkKFile {
  kf_socket : bool;             (* kf_type == KF_TYPE_SOCKET *)
  kf_inet : bool;               (* kf_sock_domain is AF_INET or AF_INET6 *)
  kf_protocol : Z;
  kf_local : SockAddr;
  kf_peer : SockAddr;
}.

Record BsdAttribution := mkBsdAttr { ba_process : ProcessInfo; ba_container : ContainerInfo }.
Definition noBsdAttribution : BsdAttribution := mkBsdAttr noProcess noContainer.

Record BsdSocketResolver := mkBsdResolver {
  br_exact : gmap QString BsdAttribution;
  br_local : gmap QString BsdAttribution;
}.
Definition newBsdResolver : BsdSocketResolver := mkBsdResolver ∅ ∅.

Section Resolver.
Context `{QtAddrText}.

Definition bsdLookup (proto : L4Proto) (local remote : Endpoint) (r : BsdSocketResolver) : BsdAttribution :=
  match br_exact r !! flowKeyExact proto local remote with
  | Some a => a
  | None => default noBsdAttribution (br_local r !! flowKeyLocal proto local)
  end.

(** One socket with its owner: the loop body both systems share. *)
Definition stamp (proto : L4Proto) (local remote : Endpoint) (attr : BsdAttribution) (r : BsdSocketResolver) : BsdSocketResolver :=
  if addrIsNull (ep_address local) then r
  else
    let exact :=
      if negb (addrIsNull (ep_address remote)) && negb (ep_port remote =? 0)%Z
      then <[flowKeyExact proto local remote := attr]> (br_exact r) else br_exact r in
    let lk := flowKeyLocal proto local in
    mkBsdResolver exact (if bool_decide (is_Some (br_local r !! lk)) then br_local r else <[lk := attr]> (br_local r)).

Definition buildPidInfo (procs : list KProc2) : gmap Z ProcessInfo :=
  foldl (fun out p => <[p2_pid p := mkProcessInfo (p2_pid p) (p2_comm p) [] [] (p2_ruid p)]> out) ∅ procs.

Definition buildSocketPid (files : list KFile2) : gmap Z Z :=
  foldl (fun out f =>
    if negb (f2_socket f) || (f2_fdata f =? 0)%Z || (f2_pid f =? 0)%Z then out else <[f2_fdata f := f2_pid f]> out) ∅ files.

Definition stampPcb (pidInfo : gmap Z ProcessInfo) (socketPid : gmap Z Z) (proto : L4Proto)
    (r : BsdSocketResolver) (pcb : KPcb) : BsdSocketResolver :=
  match socketPid !! pcb_sockaddr pcb ≫= (pidInfo !!.) with
  | None => r
  | Some info =>
      stamp proto (endpointFromSockaddr (Some (pcb_src pcb))) (endpointFromSockaddr (Some (pcb_dst pcb)))
        (mkBsdAttr info noContainer) r
  end.

(** The four lists, in the order of [kLists]; [None] when the name is unknown
    to the system. *)
Definition refreshNetBSD (procs : list KProc2) (files : list KFile2) (tcp udp tcp6 udp6 : option (list KPcb)) : BsdSocketResolver :=
  let pidInfo := buildPidInfo procs in
  let socketPid := buildSocketPid files in
  foldl (fun r pl => foldl (stampPcb pidInfo socketPid (fst pl)) r (default [] (snd pl)))
    newBsdResolver [(Tcp, tcp); (Udp, udp); (Tcp, tcp6); (Udp, udp6)].

(* ------------------------------------------------------------------ *)
(** ** FreeBSD: records of varying size in one buffer *)

(** [while (p + sizeof(int) <= end)]: the first member of a record is its size.
    Reading a record touches [size] bytes, the size of the structure the code
    was compiled with; [None]: a read past the end of the buffer. *)
Fixpoint strideLoop {A} (fuel : nat) (size : nat) (decode : list Z -> A) (buf : list Z) (off : Z) : option (list A) :=
  match fuel with
  | 0 => Some []
  | S fuel =>
      if (off + 4 <=? Z.of_nat (length buf))%Z then
        sz ← readLe buf off 4;
        if (toInt32 sz <=? 0)%Z then Some []
        else
          rec ← readBytes buf off size;
          rest ← strideLoop fuel size decode buf (off + toInt32 sz);
          Some (decode rec :: rest)
      else Some []
  end.

Definition strideWalk {A} (size : nat) (decode : list Z -> A) (buf : list Z) : option (list A) :=
  strideLoop (S (length buf)) size decode buf 0.

Definition procAttribution (jailNames : gmap Z QString) (p : KProc) : BsdAttribution :=
  mkBsdAttr (mkProcessInfo (kp_pid p) (kp_comm p) [] [] (kp_ruid p))
    (if (0 <? kp_jid p)%Z then mkContainerInfo (qs "jail") (number (kp_jid p)) (default [] (jailNames !! kp_jid p))
     else noContainer).

(** [jail_get] with [lastjid]: the jails in the order it walks them. *)
Definition jailTable (jails : list (Z * QString)) : gmap Z QString := foldl (fun m j => <[fst j := snd j]> m) ∅ jails.

Definition buildPidAttr (jailNames : gmap Z QString) (procs : list KProc) : gmap Z BsdAttribution :=
  foldl (fun m p => <[kp_pid p := procAttribution jailNames p]> m) ∅ procs.

Definition kfProto (f : KFile) : option L4Proto :=
  if (kf_protocol f =? kTcp)%Z then Some Tcp else if (kf_protocol f =? kUdp)%Z then Some Udp else None.

Definition stampFile (attr : BsdAttribution) (r : BsdSocketResolver) (f : KFile) : BsdSocketResolver :=
  if negb (kf_socket f) || negb (kf_inet f) then r
  else match kfProto f with
       | None => r
       | Some proto => stamp proto (endpointFromSockaddr (Some (kf_local f))) (endpointFromSockaddr (Some (kf_peer f))) attr r
       end.

Context `{QHashOrder} (sizeofProc sizeofFile : nat) (decodeProc : list Z -> KProc) (decodeFile : list Z -> KFile).

(** [fileBuf pid]: the descriptors of the process, read inside the loop. *)
Definition refreshFreeBSD (jails : list (Z * QString)) (procBuf : list Z) (fileBuf : Z -> list Z) : option BsdSocketResolver :=
  procs ← strideWalk sizeofProc decodeProc procBuf;
  foldl (fun acc e =>
    r ← acc;
    files ← strideWalk sizeofFile decodeFile (fileBuf (fst e));
    Some (foldl (stampFile (snd e)) r files))
  (Some newBsdResolver) (hash_iter (buildPidAttr (jailTable jails) procs)).
End Resolver.

(* ------------------------------------------------------------------ *)
(** ** Interface counters: [BsdNetworkWorker] *)

Inductive IfMedia := IFT_ETHER | IFT_LOOP | IFT_L2VLAN | IFT_BRIDGE | IFT_GIF | IFT_TUNNEL | IFT_IEEE80211 | IFT_PPP | IFT_other.
Inductive LinkState := LINK_STATE_UP | LINK_STATE_DOWN | LINK_STATE_UNKNOWN.

Definition classifyType (ifiType : IfMedia) (isLoopback : bool) : QString :=
  if isLoopback then qs "loopback"
  else match ifiType with
       | IFT_ETHER => qs "ethernet" | IFT_LOOP => qs "loopback" | IFT_L2VLAN => qs "vlan" | IFT_BRIDGE => qs "bridge"
       | IFT_GIF => qs "gif" | IFT_TUNNEL => qs "tunnel" | IFT_IEEE80211 => qs "wifi" | IFT_PPP => qs "ppp"
       | IFT_other => qs "other"
       end.

Definition operStateFromLink (linkState : LinkState) : Z :=
  match linkState with LINK_STATE_UP => 6 | LINK_STATE_DOWN => 2 | LINK_STATE_UNKNOWN => 0 end.

Record IfData := mkIfData {
  ifd_type : IfMedia; ifd_mtu : Z; ifd_ibytes : Z; ifd_obytes : Z; ifd_ipackets : Z; ifd_opackets : Z;
  ifd_link : LinkState; ifd_ierrors : Z; ifd_oerrors : Z; ifd_iqdrops : Z;
}.

(** One element of the list [getifaddrs] returns.  The netmask is the bits the
    code reads where the address of the entry's family sits. *)
Record IfAddr := mkIfAddr {
  ifa_name : option QString; ifa_addr : option SockAddr; ifa_netmask : option Z;
  ifa_up : bool; ifa_loopback : bool; ifa_data : option IfData;
}.

(** [while (m & top) { ++prefix; m <<= 1; }] on a word of [w] bits. *)
Fixpoint leadingOnes (fuel : nat) (w : Z) (m : Z) : Z :=
  match fuel with
  | 0 => 0
  | S fuel => if Z.testbit m (w - 1) then (1 + leadingOnes fuel w (Z.shiftl m 1 mod 2 ^ w))%Z else 0
  end.

(** The [i]th byte of an IPv6 address, the first one the most significant. *)
Definition s6_addr (a : Z) (i : nat) : Z := (Z.shiftr a (8 * (15 - Z.of_nat i)) mod 256)%Z.

Definition prefixOf4 (mask : Z) : Z := leadingOnes 33 32 mask.
Definition prefixOf6 (mask : Z) : Z := foldl (fun acc i => (acc + leadingOnes 9 8 (s6_addr mask i))%Z) 0%Z (seq 0 16).

Definition isLinkLocal6 (a : Z) : bool := (s6_addr a 0 =? 254)%Z && (Z.land (s6_addr a 1) 192 =? 128)%Z.

Section Network.
Context (inet_ntop : QHostAddress -> QString) (if_nametoindex : QString -> Z).

Definition cidrFromSockaddr (addr : option SockAddr) (mask : option Z) : QString :=
  let withPrefix (a : QHostAddress) (prefix : option Z) :=
    match prefix with Some p => inet_ntop a ++ qarg (qs "/%1") (number p) | None => inet_ntop a end in
  match addr with
  | Some (SaInet a _) => withPrefix (AddrV4 a) (prefixOf4 <$> mask)
  | Some (SaInet6 a _) => if isLinkLocal6 a then [] else withPrefix (AddrV6 a []) (prefixOf6 <$> mask)
  | _ => []
  end.

Definition isHostFamily (sa : SockAddr) : bool := match sa with SaInet _ _ | SaInet6 _ _ => true | _ => false end.
Definition isLinkFamily (sa : SockAddr) : bool := match sa with SaLink => true | _ => false end.

(** First pass: the host addresses of each interface. *)
Definition addAddr (m : gmap QString (list QString)) (i : IfAddr) : gmap QString (list QString) :=
  match ifa_addr i, ifa_name i with
  | Some sa, Some name =>
      if isHostFamily sa then
        let cidr := cidrFromSockaddr (Some sa) (ifa_netmask i) in
        if isEmpty cidr then m else <[name := default [] (m !! name) ++ [cidr]]> m
      else m
  | _, _ => m
  end.

Definition addrsByName (ifap : list IfAddr) : gmap QString (list QString) := foldl addAddr ∅ ifap.

Definition u32 (z : Z) : Z := (z mod 4294967296)%Z.

(** Second pass: one record per link-layer entry. *)
Definition bsdStatsOf (addrs : gmap QString (list QString)) (i : IfAddr) : option InterfaceStats :=
  sa ← ifa_addr i; name ← ifa_name i; d ← ifa_data i;
  if isLinkFamily sa then
    Some (mkInterfaceStats name (classifyType (ifd_type d) (ifa_loopback i)) (u32 (ifd_mtu d)) (default [] (addrs !! name))
      (ifd_ibytes d) (ifd_obytes d) (ifd_ipackets d) (ifd_opackets d) (ifa_up i) (ifa_loopback i)
      (if_nametoindex name) (operStateFromLink (ifd_link d)) (ifd_ierrors d) (ifd_oerrors d) (ifd_iqdrops d) 0)
  else None.

(** [poll]: nothing is emitted when [getifaddrs] fails or finds nothing. *)
Definition bsdPoll (ifap : option (list IfAddr)) : option (list InterfaceStats) :=
  match ifap with
  | None | Some [] => None
  | Some l => Some (omap (bsdStatsOf (addrsByName l)) l)
  end.
End Network.

(** The polling timer of both workers: [Some (interval, active)] once started. *)
Definition BsdTimer := option (Z * bool).
Definition kBsdPollIntervalMs : Z := 1000.

Definition bsdSetPollIntervalMs (ms : Z) (t : BsdTimer) : BsdTimer :=
  match t with
  | None => None
  | Some (iv, active) => if (ms <=? 0)%Z then Some (iv, false) else Some (ms, true)
  end.

Definition bsdNetCapabilities : list QString := map qs ["ifindex"; "oper-state"; "link-errors"].
Definition bsdConnCapabilities (freebsd : bool) : list QString :=
  map qs ["iana-proto"; "direction-on-wire"; "process-attribution-wire"] ++
  (if freebsd then [qs "container-attribution-wire"] else []).

(* ------------------------------------------------------------------ *)
(** ** Keys identify flows *)

Definition endpoint_ok (e : Endpoint) : Prop := plainIP (ep_address e) = true /\ (0 <= ep_port e)%Z.

Section KeyProofs.
Context `{QtAddrTextLaws}.

Lemma flowKeyLocal_text p l :
  endpoint_ok l -> flowKeyLocal p l = number (protoInt p) ++ 124%Z :: addrToString (ep_address l) ++ 46%Z :: number (ep_port l).
Proof.
  intros [Ha Hp]. unfold flowKeyLocal. pose proof (protoInt_nonneg p).
  set (pp := number (protoInt p)). set (la := addrToString (ep_address l)). set (lp := number (ep_port l)).
  assert (noPct pp) by (by apply noPct_number). assert (noPct la) by (by apply addr_noPct).
  change (qarg (qs "%1|%2.%3") pp) with (pp ++ qs "|%2.%3"). rewrite !(qarg_prefix pp) by done.
  change (qarg (qs "|%2.%3") la) with (124%Z :: la ++ qs ".%3"). rewrite !(qarg_cons 124), !(qarg_prefix la) by done.
  change (qarg (qs ".%3") lp) with (46%Z :: lp ++ []). by rewrite app_nil_r.
Qed.

Lemma flowKeyExact_text p l r :
  endpoint_ok l -> endpoint_ok r ->
  flowKeyExact p l r = flowKeyLocal p l ++ 124%Z :: addrToString (ep_address r) ++ 46%Z :: number (ep_port r).
Proof.
  intros Hl [Ha Hp]. rewrite flowKeyLocal_text by done. destruct Hl as [Hla Hlp]. unfold flowKeyExact. pose proof (protoInt_nonneg p).
  set (pp := number (protoInt p)). set (la := addrToString (ep_address l)). set (lp := number (ep_port l)).
  set (ra := addrToString (ep_address r)). set (rp := number (ep_port r)).
  assert (noPct pp) by (by apply noPct_number). assert (noPct la) by (by apply addr_noPct).
  assert (noPct lp) by (by apply noPct_number). assert (noPct ra) by (by apply addr_noPct).
  change (qarg (qs "%1|%2.%3|%4.%5") pp) with (pp ++ qs "|%2.%3|%4.%5"). rewrite !(qarg_prefix pp) by done.
  change (qarg (qs "|%2.%3|%4.%5") la) with (124%Z :: la ++ qs ".%3|%4.%5"). rewrite !(qarg_cons 124), !(qarg_prefix la) by done.
  change (qarg (qs ".%3|%4.%5") lp) with (46%Z :: lp ++ qs "|%4.%5"). rewrite !(qarg_cons 46), !(qarg_prefix lp) by done.
  change (qarg (qs "|%4.%5") ra) with (124%Z :: ra ++ qs ".%5"). rewrite !(qarg_cons 124), !(qarg_prefix ra) by done.
  change (qarg (qs ".%5") rp) with (46%Z :: rp ++ []). rewrite app_nil_r. by rewrite <- !app_assoc, <- !app_comm_cons, <- !app_assoc.
Qed.

Lemma pipe_split a b x y : 124%Z ∉ a -> 124%Z ∉ b -> a ++ 124%Z :: x = b ++ 124%Z :: y -> a = b /\ x = y.
Proof.
  intros Ha Hb He. pose proof (f_equal (qsplit 124) He) as Hs. rewrite !qsplit_app in Hs by done. injection Hs as -> _.
  split; [done|]. by simplify_eq.
Qed.

Lemma endpoint_text_inj a b :
  endpoint_ok a -> endpoint_ok b ->
  addrToString (ep_address a) ++ 46%Z :: number (ep_port a) = addrToString (ep_address b) ++ 46%Z :: number (ep_port b) -> a = b.
Proof.
  intros [Ha Hpa] [Hb Hpb] He. apply dotted_inj in He as [He Hp]; [|done|done].
  apply addrToString_inj in He; [|done|done]. destruct a, b; cbn in *. by subst.
Qed.

Lemma flowKeyLocal_inj p q a b : endpoint_ok a -> endpoint_ok b -> flowKeyLocal p a = flowKeyLocal q b -> p = q /\ a = b.
Proof.
  intros Ha Hb. rewrite !flowKeyLocal_text by done. intros He.
  apply pipe_split in He as [Hp He]; [|apply number_no_char; [apply protoInt_nonneg|done]..].
  apply number_inj in Hp; [|apply protoInt_nonneg..]. split; [|by apply endpoint_text_inj].
  rewrite <- (protoOfInt_Int p), <- (protoOfInt_Int q). by rewrite Hp.
Qed.

Lemma flowKeyExact_inj p q a b c d :
  endpoint_ok a -> endpoint_ok b -> endpoint_ok c -> endpoint_ok d ->
  flowKeyExact p a b = flowKeyExact q c d -> p = q /\ a = c /\ b = d.
Proof.
  intros Ha Hb Hc Hd. rewrite !flowKeyExact_text, !flowKeyLocal_text by done. rewrite <- !app_assoc, <- !app_comm_cons. intros He.
  apply pipe_split in He as [Hp He]; [|apply number_no_char; [apply protoInt_nonneg|done]..].
  apply number_inj in Hp; [|apply protoInt_nonneg..].
  apply pipe_split in He as [Hl Hr]; [|apply dot_no_pipe; by destruct Ha, Hc..].
  split; [rewrite <- (protoOfInt_Int p), <- (protoOfInt_Int q); by rewrite Hp|].
  split; by apply endpoint_text_inj.
Qed.
End KeyProofs.

(* ------------------------------------------------------------------ *)
(** ** Whose socket it is: the tables against the sockets themselves *)

(** A socket of the kernel's tables with the process that holds it. *)
Record OwnedSocket := mkOwned { os_proto : L4Proto; os_local : Endpoint; os_remote : Endpoint; os_attr : BsdAttribution }.

Definition unset (e : Endpoint) : Prop := ep_address e = AddrNull.
Definition owned_ok (s : OwnedSocket) : Prop :=
  (unset (os_local s) \/ endpoint_ok (os_local s)) /\ (unset (os_remote s) \/ endpoint_ok (os_remote s)).

Definition ownsFlow (p : L4Proto) (l r : Endpoint) (s : OwnedSocket) : bool :=
  bool_decide (os_proto s = p) && bool_decide (os_local s = l) && bool_decide (os_remote s = r) && negb (ep_port r =? 0)%Z.
Definition ownsLocal (p : L4Proto) (l : Endpoint) (s : OwnedSocket) : bool :=
  bool_decide (os_proto s = p) && bool_decide (os_local s = l).

(** The owner of a flow: the last socket connected to the peer, else the first
    one bound to the local end. *)
Definition owner (socks : list OwnedSocket) (p : L4Proto) (l r : Endpoint) : BsdAttribution :=
  match last (filter (fun s => ownsFlow p l r s = true) socks) with
  | Some s => os_attr s
  | None => default noBsdAttribution (os_attr <$> head (filter (fun s => ownsLocal p l s = true) socks))
  end.

Section Owner.
Context `{QtAddrTextLaws}.

Definition stampOne (r : BsdSocketResolver) (s : OwnedSocket) : BsdSocketResolver :=
  stamp (os_proto s) (os_local s) (os_remote s) (os_attr s) r.
Definition stampAll (r : BsdSocketResolver) (socks : list OwnedSocket) : BsdSocketResolver := foldl stampOne r socks.

Lemma endpoint_ok_set e : endpoint_ok e -> addrIsNull (ep_address e) = false.
Proof. intros [Hp _]. by destruct e as [[] ?]. Qed.

Lemma stampOne_exact r s p l m :
  owned_ok s -> endpoint_ok l -> endpoint_ok m ->
  br_exact (stampOne r s) !! flowKeyExact p l m =
  if ownsFlow p l m s then Some (os_attr s) else br_exact r !! flowKeyExact p l m.
Proof.
  intros [Hsl Hsr] Hl Hm. unfold stampOne, stamp, ownsFlow.
  pose proof (endpoint_ok_set l Hl) as Hln. pose proof (endpoint_ok_set m Hm) as Hmn.
  destruct (addrIsNull (ep_address (os_local s))) eqn:El.
  { rewrite (bool_decide_eq_false_2 (os_local s = l)) by congruence. by rewrite andb_false_r. }
  assert (Hlo : endpoint_ok (os_local s)) by (destruct Hsl as [Hu|]; [by rewrite Hu in El|done]). cbn [br_exact].
  destruct (addrIsNull (ep_address (os_remote s))) eqn:Er; cbn [negb andb].
  { rewrite (bool_decide_eq_false_2 (os_remote s = m)) by congruence. by rewrite andb_false_r. }
  assert (Hro : endpoint_ok (os_remote s)) by (destruct Hsr as [Hu|]; [by rewrite Hu in Er|done]).
  destruct (Z.eqb_spec (ep_port (os_remote s)) 0) as [Ez|Ez]; cbn [negb].
  { case_bool_decide; [|done]. case_bool_decide; [|done]. case_bool_decide as Hrm; [|done]. subst m. by rewrite Ez. }
  case_bool_decide as Hp; cbn [andb]; [case_bool_decide as Hll; cbn [andb]; [case_bool_decide as Hrr; cbn [andb]|]|].
  - subst p l m. destruct (Z.eqb_spec (ep_port (os_remote s)) 0); [done|]. by rewrite lookup_insert_eq.
  - rewrite lookup_insert_ne; [done|]. intros He. apply flowKeyExact_inj in He as (_ & _ & He); done.
  - rewrite lookup_insert_ne; [done|]. intros He. apply flowKeyExact_inj in He as (_ & He & _); done.
  - rewrite lookup_insert_ne; [done|]. intros He. apply flowKeyExact_inj in He as (He & _ & _); done.
Qed.

Lemma stampOne_local r s p l :
  owned_ok s -> endpoint_ok l ->
  br_local (stampOne r s) !! flowKeyLocal p l =
  match br_local r !! flowKeyLocal p l with
  | Some a => Some a
  | None => if ownsLocal p l s then Some (os_attr s) else None
  end.
Proof.
  intros [Hsl _] Hl. unfold stampOne, stamp, ownsLocal. pose proof (endpoint_ok_set l Hl) as Hln.
  destruct (addrIsNull (ep_address (os_local s))) eqn:El.
  { rewrite (bool_decide_eq_false_2 (os_local s = l)) by congruence. rewrite andb_false_r. by destruct (br_local r !! _). }
  assert (Hlo : endpoint_ok (os_local s)) by (destruct Hsl as [Hu|]; [by rewrite Hu in El|done]). cbn [br_local].
  destruct (decide (os_proto s = p /\ os_local s = l)) as [[<- <-]|Hne].
  - rewrite !(bool_decide_eq_true_2 (_ = _)) by done. cbn [andb]. case_bool_decide as Hs.
    + destruct Hs as [a ->]. done.
    + rewrite lookup_insert_eq. destruct (br_local r !! _) eqn:E; [exfalso; eauto|done].
  - assert (bool_decide (os_proto s = p) && bool_decide (os_local s = l) = false) as ->
      by (apply andb_false_iff; rewrite !bool_decide_eq_false; destruct (decide (os_proto s = p)); [right|left]; [by intros Hx; apply Hne|done]).
    assert (flowKeyLocal (os_proto s) (os_local s) <> flowKeyLocal p l)
      by (intros He; apply flowKeyLocal_inj in He as [? ?]; [by apply Hne|done|done]).
    case_bool_decide; [|rewrite lookup_insert_ne by done]; by destruct (br_local r !! flowKeyLocal p l).
Qed.

Lemma stampAll_exact r socks p l m :
  Forall owned_ok socks -> endpoint_ok l -> endpoint_ok m ->
  br_exact (stampAll r socks) !! flowKeyExact p l m =
  match last (filter (fun s => ownsFlow p l m s = true) socks) with
  | Some s => Some (os_attr s) | None => br_exact r !! flowKeyExact p l m
  end.
Proof.
  intros Hok Hl Hm. revert r. induction Hok as [|s socks Hs _ IH]; intros r; [done|]. cbn [stampAll foldl].
  fold (stampAll (stampOne r s) socks). rewrite IH, filter_cons, stampOne_exact by done.
  destruct (ownsFlow p l m s); [rewrite decide_True by done|by rewrite decide_False by done].
  rewrite last_cons. by destruct (last _).
Qed.

Lemma stampAll_local r socks p l :
  Forall owned_ok socks -> endpoint_ok l ->
  br_local (stampAll r socks) !! flowKeyLocal p l =
  match br_local r !! flowKeyLocal p l with
  | Some a => Some a | None => os_attr <$> head (filter (fun s => ownsLocal p l s = true) socks)
  end.
Proof.
  intros Hok Hl. revert r. induction Hok as [|s socks Hs _ IH]; intros r; [by cbn; destruct (br_local r !! flowKeyLocal p l)|]. cbn [stampAll foldl].
  fold (stampAll (stampOne r s) socks). rewrite IH, filter_cons, stampOne_local by done.
  destruct (br_local r !! flowKeyLocal p l); [done|].
  destruct (ownsLocal p l s); [by rewrite decide_True by done|by rewrite decide_False by done].
Qed.

Lemma stampAll_owner socks p l m :
  Forall owned_ok socks -> endpoint_ok l -> endpoint_ok m ->
  bsdLookup p l m (stampAll newBsdResolver socks) = owner socks p l m.
Proof.
  intros Hok Hl Hm. unfold bsdLookup, owner. rewrite stampAll_exact, stampAll_local by done. cbn [newBsdResolver br_exact br_local].
  rewrite !lookup_empty. by destruct (last _).
Qed.
End Owner.

(** The sockets the NetBSD tables describe: a protocol control block whose
    socket some process has open, and whose process is known. *)
Definition pcbSocket (procs : list KProc2) (files : list KFile2) (proto : L4Proto) (pcb : KPcb) : option OwnedSocket :=
  info ← buildSocketPid files !! pcb_sockaddr pcb ≫= (buildPidInfo procs !!.);
  Some (mkOwned proto (endpointFromSockaddr (Some (pcb_src pcb))) (endpointFromSockaddr (Some (pcb_dst pcb))) (mkBsdAttr info noContainer)).

Definition netbsdSockets (procs : list KProc2) (files : list KFile2) (tcp udp tcp6 udp6 : option (list KPcb)) : list OwnedSocket :=
  concat (map (fun pl => omap (pcbSocket procs files (fst pl)) (default [] (snd pl)))
    [(Tcp, tcp); (Udp, udp); (Tcp, tcp6); (Udp, udp6)]).

(** Addresses and ports as the kernel stores them. *)
Definition sockaddr_ok (sa : SockAddr) : Prop :=
  match sa with SaInet a p | SaInet6 a p => (0 <= a)%Z /\ (0 <= p)%Z | _ => True end.
Definition pcb_ok (b : KPcb) : Prop := sockaddr_ok (pcb_src b) /\ sockaddr_ok (pcb_dst b).

Lemma endpoint_sockaddr_ok sa :
  sockaddr_ok sa -> unset (endpointFromSockaddr (Some sa)) \/ endpoint_ok (endpointFromSockaddr (Some sa)).
Proof.
  destruct sa; cbn; intros Hs; [right|right|by left|by left]; (split; cbn; [apply Z.leb_le|]; tauto).
Qed.

Lemma stampPcb_fold `{QtAddrText} procs files proto r pcbs :
  foldl (stampPcb (buildPidInfo procs) (buildSocketPid files) proto) r pcbs =
  stampAll r (omap (pcbSocket procs files proto) pcbs).
Proof.
  revert r. induction pcbs as [|b pcbs IH]; intros r; [done|]. cbn [foldl omap list_omap]. rewrite IH. clear IH. unfold stampPcb, pcbSocket.
  destruct (buildSocketPid files !! pcb_sockaddr b ≫= (buildPidInfo procs !!.)) as [info|]; [|done].
  cbn [mbind option_bind]. by cbn [stampAll foldl].
Qed.

Lemma stampAll_app `{QtAddrText} r a b : stampAll r (a ++ b) = stampAll (stampAll r a) b.
Proof. apply foldl_app. Qed.

Lemma pcb_sockets_ok procs files proto pcbs : Forall pcb_ok pcbs -> Forall owned_ok (omap (pcbSocket procs files proto) pcbs).
Proof.
  intros Hb. apply Forall_forall. intros s Hs. apply list_elem_of_omap in Hs as (b & Hin & Hs). rewrite Forall_forall in Hb.
  destruct (Hb b Hin) as [H1 H2]. unfold pcbSocket in Hs. destruct (buildSocketPid files !! pcb_sockaddr b ≫= (buildPidInfo procs !!.)) as [info|]; [|done].
  cbn in Hs. injection Hs as <-.
  split; by apply endpoint_sockaddr_ok.
Qed.

(** The process a flow is given holds a socket with the flow's local end: a
    pid is never made up. *)
Lemma owner_holds socks p l r :
  pi_pid (ba_process (owner socks p l r)) <> 0%Z ->
  exists s, s ∈ socks /\ os_attr s = owner socks p l r /\ os_proto s = p /\ os_local s = l.
Proof.
  unfold owner. destruct (last (filter _ socks)) as [s|] eqn:El.
  - intros _. apply last_Some_elem_of in El. apply list_elem_of_filter in El as [Ho Hs]. exists s. split; [done|]. split; [done|].
    unfold ownsFlow in Ho. rewrite !andb_true_iff, !bool_decide_eq_true in Ho. tauto.
  - destruct (head _) as [s|] eqn:Eh; [|intros Hn; by destruct Hn]. intros _. assert (Hs : s ∈ filter (fun s => ownsLocal p l s = true) socks)
      by (by apply head_Some_elem_of).
    apply list_elem_of_filter in Hs as [Ho Hs]. exists s. split; [done|]. split; [done|].
    unfold ownsLocal in Ho. rewrite !andb_true_iff, !bool_decide_eq_true in Ho. tauto.
Qed.

(** After a refresh on NetBSD the resolver answers for a flow what the kernel's
    tables say: the process of a socket connected to that peer (the last one
    listed), otherwise the process of the first socket on the local end, and
    nobody when no socket has that local end; so a named process holds a socket
    of the flow's protocol on the flow's local end. *)
Theorem netbsd_owner `{QtAddrTextLaws} procs files tcp udp tcp6 udp6 p l r :
  Forall (fun o => Forall pcb_ok (default [] o)) [tcp; udp; tcp6; udp6] -> endpoint_ok l -> endpoint_ok r ->
  let a := bsdLookup p l r (refreshNetBSD procs files tcp udp tcp6 udp6) in
  let socks := netbsdSockets procs files tcp udp tcp6 udp6 in
  a = owner socks p l r /\
  (pi_pid (ba_process a) <> 0%Z -> exists s, s ∈ socks /\ os_attr s = a /\ os_proto s = p /\ os_local s = l).
Proof.
  intros Hok Hl Hr a socks. enough (Ha : a = owner socks p l r) by (split; [done|rewrite Ha; apply owner_holds]).
  unfold a, socks. rewrite <- stampAll_owner; [|unfold netbsdSockets; cbn [map concat]|done|done].
  - unfold refreshNetBSD, netbsdSockets. cbn [foldl map concat fst snd]. by rewrite !stampPcb_fold, !stampAll_app.
  - rewrite !Forall_cons in Hok. destruct Hok as (?&?&?&?&?). rewrite !Forall_app. cbn [fst snd].
    repeat split; try (by apply pcb_sockets_ok); done.
Qed.


(** The sockets the FreeBSD tables describe. *)
Definition fileSocket (attr : BsdAttribution) (f : KFile) : option OwnedSocket :=
  if negb (kf_socket f) || negb (kf_inet f) then None
  else proto ← kfProto f;
       Some (mkOwned proto (endpointFromSockaddr (Some (kf_local f))) (endpointFromSockaddr (Some (kf_peer f))) attr).

Definition file_ok (f : KFile) : Prop := sockaddr_ok (kf_local f) /\ sockaddr_ok (kf_peer f).

Lemma stampFile_fold `{QtAddrText} attr r files : foldl (stampFile attr) r files = stampAll r (omap (fileSocket attr) files).
Proof.
  revert r. induction files as [|f files IH]; intros r; [done|]. cbn [foldl omap list_omap]. rewrite IH. clear IH. unfold stampFile, fileSocket.
  destruct (negb (kf_socket f) || negb (kf_inet f)); [done|]. by destruct (kfProto f).
Qed.

Lemma file_sockets_ok attr files : Forall file_ok files -> Forall owned_ok (omap (fileSocket attr) files).
Proof.
  intros Hf. apply Forall_forall. intros s Hs. apply list_elem_of_omap in Hs as (f & Hin & Hs). rewrite Forall_forall in Hf.
  destruct (Hf f Hin) as [H1 H2]. unfold fileSocket in Hs. destruct (negb (kf_socket f) || negb (kf_inet f)); [done|].
  destruct (kfProto f) as [proto|]; [|done]. cbn in Hs. injection Hs as <-. split; by apply endpoint_sockaddr_ok.
Qed.

Section FreeBSD.
Context `{QtAddrTextLaws, QHashOrderLaws} (sizeofProc sizeofFile : nat) (decodeProc : list Z -> KProc) (decodeFile : list Z -> KFile).
Hypothesis decodeFile_ok : forall b, file_ok (decodeFile b).

Definition filesOf (fileBuf : Z -> list Z) (pid : Z) : list KFile := default [] (strideWalk sizeofFile decodeFile (fileBuf pid)).

Definition freebsdSockets (jails : list (Z * QString)) (procs : list KProc) (fileBuf : Z -> list Z) : list OwnedSocket :=
  concat (map (fun e => omap (fileSocket (snd e)) (filesOf fileBuf (fst e))) (hash_iter (buildPidAttr (jailTable jails) procs))).

Lemma freebsd_fold fileBuf es r0 r :
  foldl (fun acc e => r ← acc; files ← strideWalk sizeofFile decodeFile (fileBuf (fst e)); Some (foldl (stampFile (snd e)) r files))
    r0 es = Some r ->
  exists r1, r0 = Some r1 /\ r = stampAll r1 (concat (map (fun e => omap (fileSocket (snd e)) (filesOf fileBuf (fst e))) es)).
Proof.
  revert r0. induction es as [|e es IH]; intros r0; cbn [foldl map concat].
  - intros ->. by exists r.
  - intros Hf. apply IH in Hf as (r1 & Hr1 & ->). destruct r0 as [r0|]; [|done]. cbn [mbind option_bind] in Hr1. exists r0. split; [done|].
    destruct (strideWalk sizeofFile decodeFile (fileBuf (fst e))) as [fs|] eqn:Ew; [|done]. cbn in Hr1. injection Hr1 as <-.
    assert (filesOf fileBuf (fst e) = fs) as -> by (unfold filesOf; by rewrite Ew).
    by rewrite stampAll_app, stampFile_fold.
Qed.

Lemma filesOf_ok fileBuf pid : Forall file_ok (filesOf fileBuf pid).
Proof.
  unfold filesOf, strideWalk. generalize (S (length (fileBuf pid))) 0%Z. intros fuel.
  induction fuel as [|fuel IH]; intros off; cbn [strideLoop]; [constructor|]. destruct (_ <=? _)%Z; [|constructor].
  destruct (readLe _ _ _) as [sz|]; [|constructor]. cbn. destruct (toInt32 sz <=? 0)%Z; [constructor|].
  destruct (readBytes _ _ _) as [b|]; [|constructor]. cbn. specialize (IH (off + toInt32 sz)%Z).
  destruct (strideLoop _ _ _ _ _) as [rest|]; cbn in *; [|constructor]. constructor; [apply decodeFile_ok|done].
Qed.

(** On FreeBSD as well the resolver answers what the kernel's tables say, for
    whatever processes and descriptors the refresh reads: a named process is
    one whose own descriptor table has a socket on the flow's local end. *)
Theorem freebsd_owner jails procBuf fileBuf r p l m :
  refreshFreeBSD sizeofProc sizeofFile decodeProc decodeFile jails procBuf fileBuf = Some r -> endpoint_ok l -> endpoint_ok m ->
  exists procs, strideWalk sizeofProc decodeProc procBuf = Some procs /\
    let a := bsdLookup p l m r in
    a = owner (freebsdSockets jails procs fileBuf) p l m /\
    (pi_pid (ba_process a) <> 0%Z ->
     exists pr f, pr ∈ procs /\ a = procAttribution (jailTable jails) pr /\ f ∈ filesOf fileBuf (kp_pid pr) /\
       endpointFromSockaddr (Some (kf_local f)) = l).
Proof.
  unfold refreshFreeBSD. intros Hr Hl Hm. destruct (strideWalk _ decodeProc procBuf) as [procs|]; [|done]. cbn [mbind option_bind] in Hr.
  exists procs. split; [done|]. apply freebsd_fold in Hr as (r1 & [= <-] & ->). fold (freebsdSockets jails procs fileBuf).
  set (socks := freebsdSockets jails procs fileBuf).
  assert (Hok : Forall owned_ok socks).
  { unfold socks, freebsdSockets. apply Forall_concat, Forall_fmap, Forall_true. intros e. apply file_sockets_ok, filesOf_ok. }
  cbn zeta. rewrite stampAll_owner by done. split; [done|]. intros Hpid.
  destruct (owner_holds socks p l m Hpid) as (s & Hs & Ha & _ & Hsl). unfold socks, freebsdSockets in Hs.
  apply list_elem_of_In, in_concat in Hs as (ss & Hss & Hs). apply list_elem_of_In in Hss, Hs.
  apply list_elem_of_fmap in Hss as ([pid attr] & -> & He). cbn [fst snd] in Hs.
  apply list_elem_of_omap in Hs as (f & Hf & Hfs). apply elem_of_hash_iter in He.
  assert (Hp : exists pr, pr ∈ procs /\ kp_pid pr = pid /\ attr = procAttribution (jailTable jails) pr).
  { revert He. unfold buildPidAttr. clear. induction procs as [|x procs IH] using rev_ind; [done|]. rewrite foldl_app. cbn [foldl].
    destruct (decide (kp_pid x = pid)) as [<-|Hne].
    - rewrite lookup_insert_eq. intros [= <-]. exists x. split; [set_solver|done].
    - rewrite lookup_insert_ne by done. intros (pr & Hin & ?)%IH. exists pr. split; [set_solver|done]. }
  destruct Hp as (pr & Hpr & <- & ->). exists pr, f. split; [done|].
  unfold fileSocket in Hfs. destruct (_ || _); [done|]. destruct (kfProto f); [|done]. cbn in Hfs. injection Hfs as <-. by cbn in *.
Qed.
End FreeBSD.

(* ------------------------------------------------------------------ *)
(** ** Reading a growing table *)

(** The table's bytes at the time of each call.  A buffer that is too small is
    answered with [ENOMEM]; what the size then says differs: NetBSD gives the
    size needed, FreeBSD the amount copied, that is the size of the buffer. *)
Definition netbsdSysctl (t : nat -> list Z) : Sysctl := fun n old =>
  match old with
  | None => ScOk [] (length (t n))
  | Some cap => if length (t n) <=? cap then ScOk (t n) (length (t n)) else ScNoMem (length (t n))
  end.

Definition freebsdSysctl (t : nat -> list Z) : Sysctl := fun n old =>
  match old with
  | None => ScOk [] (length (t n))
  | Some cap => if length (t n) <=? cap then ScOk (t n) (length (t n)) else ScNoMem cap
  end.

Lemma length_resized buf sz : length (resized buf sz) = sz.
Proof. unfold resized. rewrite length_app, length_take, length_replicate. lia. Qed.

Lemma resized_prefix data rest : resized (data ++ rest) (length data) = data.
Proof.
  unfold resized. rewrite take_app_length, length_app.
  replace (length data - (length data + length rest)) with 0 by lia. by rewrite app_nil_r.
Qed.

Lemma isEmpty_length {A} (l : list A) : 0 < length l -> isEmpty l = false.
Proof. by destruct l; cbn; [lia|]. Qed.

Lemma suckLoop_reads t k fuel n buf :
  (forall m, k <= m -> length (t (S m)) <= length (t m)) ->
  n <= k -> k < n + fuel -> length buf = length (t n) -> 0 < length buf ->
  exists m, suckLoop fuel (netbsdSysctl t) (S n) buf = Some (t m).
Proof.
  intros Ht. revert n buf. induction fuel as [|fuel IH]; intros n buf Hn Hf Hb Hp; [lia|]. cbn [suckLoop].
  rewrite isEmpty_length by done. unfold netbsdSysctl. destruct (Nat.leb_spec (length (t (S n))) (length buf)).
  - exists (S n). f_equal. apply resized_prefix.
  - fold (netbsdSysctl t). destruct (decide (n = k)) as [->|]; [pose proof (Ht k ltac:(lia)); lia|].
    apply IH; [lia|lia|apply length_resized|rewrite length_resized; lia].
Qed.

(** Where a buffer that is too small is answered with the size needed, reading
    a table ends as soon as the table has stopped growing, after at most two
    more calls, with the table as it was at one moment. *)
Theorem suckMib_reads t k :
  (forall m, k <= m -> length (t (S m)) <= length (t m)) -> exists m, suckMib (k + 2) (netbsdSysctl t) = Some (t m).
Proof.
  intros Ht. unfold suckMib. replace (k + 2) with (S (S k)) by lia. cbn [suckLoop isEmpty]. unfold netbsdSysctl at 1.
  destruct (Nat.eqb_spec (length (t 0)) 0) as [H0|H0].
  - exists 0. f_equal. by destruct (t 0).
  - apply (suckLoop_reads t k (S k) 0); [done|lia|lia|apply length_resized|rewrite length_resized; lia].
Qed.

(** Where it is answered with the amount copied, a table that has grown since
    the probe is never read: the buffer keeps its size and the loop does not
    end. *)
Theorem suckMib_stuck t fuel :
  t 0 <> [] -> (forall n, 0 < n -> length (t 0) < length (t n)) -> suckMib fuel (freebsdSysctl t) = None.
Proof.
  intros H0 Ht. unfold suckMib. destruct fuel as [|fuel]; [done|]. cbn [suckLoop isEmpty]. unfold freebsdSysctl at 1.
  assert (Hp : 0 < length (t 0)) by (destruct (t 0); [done|cbn; lia]).
  destruct (Nat.eqb_spec (length (t 0)) 0); [lia|].
  assert (Hl : forall n buf, 0 < n -> length buf = length (t 0) -> suckLoop fuel (freebsdSysctl t) n buf = None).
  { clear n. induction fuel as [|fuel IH]; intros n buf Hn Hb; [done|]. cbn [suckLoop]. rewrite isEmpty_length by lia.
    unfold freebsdSysctl at 1. pose proof (Ht n Hn). destruct (Nat.leb_spec (length (t n)) (length buf)); [lia|].
    apply IH; [lia|by rewrite length_resized]. }
  apply Hl; [lia|apply length_resized].
Qed.

(* ------------------------------------------------------------------ *)
(** ** Walking records of varying size *)

Definition record_ok (size : nat) (r : list Z) : Prop :=
  readLe r 0 4 = Some (Z.of_nat (length r)) /\ 4 <= size <= length r /\ (Z.of_nat (length r) <= int32_max)%Z.

Lemma readBytes_app pre r tail n :
  n <= length r -> readBytes (pre ++ r ++ tail) (Z.of_nat (length pre)) n = Some (take n r).
Proof.
  intros Hn. unfold readBytes. rewrite !length_app.
  assert ((0 <=? Z.of_nat (length pre))%Z && (Z.of_nat (length pre) + Z.of_nat n <=? Z.of_nat (length pre + (length r + length tail)))%Z = true) as ->
    by (rewrite andb_true_iff, !Z.leb_le; lia).
  f_equal. rewrite Nat2Z.id, drop_app_length. rewrite take_app_le by lia. done.
Qed.

Lemma readLe_app pre r tail n z : readLe r 0 n = Some z -> readLe (pre ++ r ++ tail) (Z.of_nat (length pre)) n = Some z.
Proof.
  intros Hr. assert (Hl : n <= length r) by (apply readLe_Some_range in Hr; lia).
  unfold readLe in *. rewrite readBytes_app by done. revert Hr. pose proof (readBytes_app [] r [] n Hl) as Hb.
  rewrite app_nil_l, app_nil_r in Hb. change (Z.of_nat (length [])) with 0%Z in Hb. by rewrite Hb.
Qed.

Lemma toInt32_small n : (Z.of_nat n <= int32_max)%Z -> toInt32 (Z.of_nat n) = Z.of_nat n.
Proof. intros. unfold toInt32. destruct (Z.leb_spec (Z.of_nat n) int32_max); lia. Qed.

Lemma strideLoop_records {A} size (decode : list Z -> A) recs fuel pre tail :
  Forall (record_ok size) recs -> length recs <= fuel ->
  strideLoop fuel size decode (pre ++ concat recs ++ tail) (Z.of_nat (length pre)) =
  (rest ← strideLoop (fuel - length recs) size decode (pre ++ concat recs ++ tail) (Z.of_nat (length (pre ++ concat recs)));
   Some (map (fun r => decode (take size r)) recs ++ rest)).
Proof.
  intros Hok. revert fuel pre. induction Hok as [|r recs Hr _ IH]; intros fuel pre Hf.
  - cbn [concat length map app]. rewrite app_nil_r, Nat.sub_0_r. by destruct (strideLoop _ _ _ _ _).
  - cbn [length] in *. destruct fuel as [|fuel]; [lia|]. cbn [concat]. rewrite <- app_assoc. destruct Hr as (Hsz & Hsize & Hmax).
    change (strideLoop (S fuel)) with (fun size (decode : list Z -> A) buf off => strideLoop (S fuel) size decode buf off). cbn beta.
    cbn [strideLoop]. rewrite !length_app.
    destruct (Z.leb_spec (Z.of_nat (length pre) + 4) (Z.of_nat (length pre + (length r + (length (concat recs) + length tail))))); [|lia].
    rewrite (readLe_app pre r (concat recs ++ tail) 4 _ Hsz). cbn [mbind option_bind]. rewrite toInt32_small by done.
    destruct (Z.leb_spec (Z.of_nat (length r)) 0); [lia|]. rewrite readBytes_app by lia. cbn [mbind option_bind].
    replace (Z.of_nat (length pre) + Z.of_nat (length r))%Z with (Z.of_nat (length (pre ++ r))) by (rewrite length_app; lia).
    rewrite (app_assoc pre r). rewrite IH by lia. cbn [Nat.sub]. rewrite <- !app_assoc. cbn [map].
    rewrite !length_app. by destruct (strideLoop _ _ _ _ _).
Qed.

Lemma concat_records size recs : Forall (record_ok size) recs -> length recs <= length (concat recs).
Proof. induction 1 as [|r recs (_ & Hs & _) _ IH]; [done|]. cbn [concat length]. rewrite length_app. lia. Qed.

(** The walk over a table of whole records yields each of them, in order. *)
Theorem stride_whole_records {A} size (decode : list Z -> A) recs :
  Forall (record_ok size) recs -> strideWalk size decode (concat recs) = Some (map (fun r => decode (take size r)) recs).
Proof.
  intros Hok. unfold strideWalk. pose proof (concat_records size recs Hok). rewrite <- (app_nil_l (concat recs)) at 2.
  rewrite <- (app_nil_r (concat recs)) at 2. change 0%Z with (Z.of_nat (@length Z [])). rewrite strideLoop_records by (done || lia).
  rewrite !app_nil_l, !app_nil_r. destruct (S (length (concat recs)) - length recs) eqn:E; [lia|]. cbn [strideLoop].
  rewrite (proj2 (Z.leb_gt _ _)) by lia. cbn. by rewrite app_nil_r.
Qed.

(** A record cut short after its size is read past the end of the buffer: the
    loop only makes sure that the size itself is there. *)
Theorem stride_overread {A} size (decode : list Z -> A) recs tail z :
  Forall (record_ok size) recs -> readLe tail 0 4 = Some z -> (0 < toInt32 z)%Z -> length tail < size ->
  strideWalk size decode (concat recs ++ tail) = None.
Proof.
  intros Hok Hz Hpos Hlt. unfold strideWalk. pose proof (concat_records size recs Hok).
  assert (Hl : 4 <= length tail) by (apply readLe_Some_range in Hz; lia).
  rewrite <- (app_nil_l (concat recs ++ tail)) at 2. change 0%Z with (Z.of_nat (@length Z [])).
  rewrite strideLoop_records by (done || (rewrite length_app; lia)). rewrite !app_nil_l, length_app.
  destruct (S (length (concat recs) + length tail) - length recs) eqn:E; [lia|]. cbn [strideLoop]. rewrite length_app.
  rewrite (proj2 (Z.leb_le _ _)) by lia.
  pose proof (readLe_app (concat recs) tail [] 4 z Hz) as Hr. rewrite app_nil_r in Hr. rewrite Hr. cbn [mbind option_bind].
  destruct (Z.leb_spec (toInt32 z) 0); [lia|]. unfold readBytes. rewrite length_app.
  destruct (_ && _) eqn:Eb; [|done]. rewrite andb_true_iff, !Z.leb_le in Eb. lia.
Qed.

(* ------------------------------------------------------------------ *)
(** ** Interfaces *)

(** The netmask of a prefix of [n] bits in a word of [w]. *)
Definition netmask (w n : Z) : Z := (2 ^ w - 2 ^ (w - n))%Z.

(** The length printed after an address is the prefix length of its mask. *)
Lemma prefix_exact :
  (forall n, (0 <= n <= 32)%Z -> prefixOf4 (netmask 32 n) = n) /\ (forall n, (0 <= n <= 128)%Z -> prefixOf6 (netmask 128 n) = n).
Proof.
  assert (H4 : forallb (fun i => (prefixOf4 (netmask 32 (Z.of_nat i)) =? Z.of_nat i)%Z) (seq 0 33) = true) by (vm_compute; reflexivity).
  assert (H6 : forallb (fun i => (prefixOf6 (netmask 128 (Z.of_nat i)) =? Z.of_nat i)%Z) (seq 0 129) = true) by (vm_compute; reflexivity).
  rewrite forallb_forall in H4, H6.
  split; intros n Hn; [specialize (H4 (Z.to_nat n))|specialize (H6 (Z.to_nat n))]; rewrite in_seq, Z2Nat.id, Z.eqb_eq in *; lia.
Qed.

Section NetworkProofs.
Context (inet_ntop : QHostAddress -> QString) (if_nametoindex : QString -> Z).

(** The printed host address of an entry of the interface [name]. *)
Definition hostAddress (name : QString) (i : IfAddr) : option QString :=
  sa ← ifa_addr i; nm ← ifa_name i;
  let cidr := cidrFromSockaddr inet_ntop (Some sa) (ifa_netmask i) in
  if bool_decide (nm = name) && isHostFamily sa && negb (isEmpty cidr) then Some cidr else None.

Definition linkName (i : IfAddr) : option QString :=
  sa ← ifa_addr i; nm ← ifa_name i; d ← ifa_data i; if isLinkFamily sa then Some nm else None.

Lemma addrsByName_lookup name l :
  default [] (addrsByName inet_ntop l !! name) = omap (hostAddress name) l.
Proof.
  unfold addrsByName. induction l as [|i l IH] using rev_ind; [done|].
  rewrite foldl_app, omap_app. cbn [foldl omap list_omap]. rewrite <- IH. clear IH.
  generalize (foldl (addAddr inet_ntop) ∅ l). intros m. unfold addAddr, hostAddress.
  destruct (ifa_addr i) as [sa|], (ifa_name i) as [nm|]; cbn [mbind option_bind]; rewrite ?app_nil_r; try done.
  destruct (isHostFamily sa); rewrite ?andb_true_r, ?andb_false_r; cbn [andb]; [|by rewrite app_nil_r].
  destruct (isEmpty _); cbn [negb]; rewrite ?andb_true_r, ?andb_false_r; [by rewrite app_nil_r|].
  case_bool_decide as Hn; [subst nm; by rewrite lookup_insert_eq|]. rewrite lookup_insert_ne by done. by rewrite app_nil_r.
Qed.

(** A poll reports every interface that has link-layer counters exactly once
    per link entry, in the system's order, each with precisely its own host
    addresses in the order the system lists them. *)
Theorem bsd_poll_interfaces i l :
  exists out, bsdPoll inet_ntop if_nametoindex (Some (i :: l)) = Some out /\
    map if_name out = omap linkName (i :: l) /\
    Forall (fun s => if_addresses s = omap (hostAddress (if_name s)) (i :: l)) out.
Proof.
  set (l' := i :: l). exists (omap (bsdStatsOf if_nametoindex (addrsByName inet_ntop l')) l'). split; [done|]. split.
  - induction l' as [|j l' IH] using rev_ind; [done|]. clear IH. generalize (addrsByName inet_ntop (l' ++ [j])). intros m.
    induction (l' ++ [j]) as [|x xs IH]; [done|]. cbn [omap list_omap]. unfold bsdStatsOf at 1, linkName at 1.
    destruct (ifa_addr x) as [sa|]; cbn [mbind option_bind]; [|done]. destruct (ifa_name x); cbn [mbind option_bind]; [|done].
    destruct (ifa_data x); cbn [mbind option_bind]; [|done]. destruct (isLinkFamily sa); [|done]. cbn [map if_name]. by rewrite IH.
  - apply Forall_forall. intros s Hs. apply list_elem_of_omap in Hs as (x & _ & Hs). unfold bsdStatsOf in Hs.
    destruct (ifa_addr x) as [sa|]; [|done]. destruct (ifa_name x) as [nm|]; [|done]. destruct (ifa_data x) as [d|]; [|done].
    cbn [mbind option_bind] in Hs. destruct (isLinkFamily sa); [|done]. injection Hs as <-. cbn [if_addresses if_name]. apply addrsByName_lookup.
Qed.
End NetworkProofs.

(* ------------------------------------------------------------------ *)
(** ** Witnesses *)

Definition bsdLocal : Endpoint := mkEndpoint (AddrV4 167772162) 53.
Definition bsdPeer : Endpoint := mkEndpoint (AddrV4 16843009) 443.
Definition bsdProcs : list KProc2 := [mkKProc2 10 0 (qs "resolver"); mkKProc2 20 1000 (qs "client")].
Definition bsdFiles : list KFile2 := [mkKFile2 true 7 10; mkKFile2 true 8 20; mkKFile2 false 9 20].
(** Two processes share the local end; only the second is connected. *)
Definition bsdPcbs : list KPcb :=
  [mkKPcb 7 (SaInet 167772162 53) (SaInet 0 0); mkKPcb 8 (SaInet 167772162 53) (SaInet 16843009 443)].

Lemma netbsd_owner_witness :
  pi_comm (ba_process (bsdLookup Udp bsdLocal bsdPeer (refreshNetBSD bsdProcs bsdFiles None (Some bsdPcbs) None None))) = qs "client" /\
  pi_comm (ba_process (bsdLookup Udp bsdLocal (mkEndpoint (AddrV4 1) 9) (refreshNetBSD bsdProcs bsdFiles None (Some bsdPcbs) None None))) = qs "resolver".
Proof.
  assert (Hok : Forall (fun o => Forall pcb_ok (default [] o)) [None; Some bsdPcbs; None; None])
    by (repeat constructor; cbn; try lia).
  split.
  - destruct (netbsd_owner bsdProcs bsdFiles None (Some bsdPcbs) None None Udp bsdLocal bsdPeer) as [-> _]; [done|by split|by split|].
    vm_compute. reflexivity.
  - destruct (netbsd_owner bsdProcs bsdFiles None (Some bsdPcbs) None None Udp bsdLocal (mkEndpoint (AddrV4 1) 9)) as [-> _];
      [done|by split|by split|]. vm_compute. reflexivity.
Defined.

(** One byte at the probe, two from then on. *)
Definition grownTable (n : nat) : list Z := match n with 0 => [1%Z] | _ => [1%Z; 2%Z] end.

Lemma suckMib_reads_witness : exists m, suckMib 3 (netbsdSysctl grownTable) = Some (grownTable m).
Proof. apply (suckMib_reads grownTable 1). intros [|m] Hm; cbn; lia. Defined.

Lemma suckMib_stuck_witness : suckMib 100 (freebsdSysctl grownTable) = None.
Proof. apply suckMib_stuck; [done|]. intros [|n] Hn; cbn; lia. Defined.

Definition shortRecord : list Z := [4; 0; 0; 0]%Z.
Lemma stride_whole_records_witness : strideWalk 4 leZ (concat [shortRecord; shortRecord]) = Some [4; 4]%Z.
Proof.
  rewrite (stride_whole_records 4 leZ [shortRecord; shortRecord]); [reflexivity|].
  repeat (apply Forall_cons; split); [..|by apply Forall_nil]; (split; [reflexivity|unfold int32_max; cbn; lia]).
Defined.

Lemma stride_overread_witness : strideWalk 8 leZ ([8; 0; 0; 0; 1; 1; 1; 1] ++ shortRecord)%Z = None.
Proof.
  apply (stride_overread 8 leZ [[8; 0; 0; 0; 1; 1; 1; 1]%Z] shortRecord 4);
    [apply Forall_cons; split; [split; [reflexivity|unfold int32_max; cbn; lia]|by apply Forall_nil]|reflexivity|reflexivity|cbn; lia].
Defined.

(** One process with one socket, whatever the record: it stands for the system's
    layout. *)
Definition sampleFile (b : list Z) : KFile := mkKFile true true kUdp (SaInet 167772162 53) (SaInet 16843009 443).
Definition sampleProc (b : list Z) : KProc := mkKProc 20 1000 (qs "client") 3.

Lemma freebsd_owner_witness :
  exists r, refreshFreeBSD 4 4 sampleProc sampleFile [(3%Z, qs "web")] shortRecord (fun _ => shortRecord) = Some r /\
    ci_name (ba_container (bsdLookup Udp bsdLocal bsdPeer r)) = qs "web".
Proof.
  destruct (refreshFreeBSD 4 4 sampleProc sampleFile [(3%Z, qs "web")] shortRecord (fun _ => shortRecord)) as [r|] eqn:Er; [|done].
  exists r. split; [done|].
  destruct (freebsd_owner 4 4 sampleProc sampleFile ltac:(intros; split; cbn; lia) _ _ _ r Udp bsdLocal bsdPeer Er) as (procs & Hp & -> & _);
    [by split|by split|]. vm_compute in Hp. injection Hp as <-. vm_compute. reflexivity.
Defined.
