(* ===== verification/BsdCapture.v ===== *)
(** * BSD backends: the packet capture

    [src/backend/bsd/BsdConnectionWorker.{h,cpp}]: link and network headers of
    a captured packet, the table of flows with its cap and its expiry, the
    periodic snapshot.

    libpcap, [getifaddrs], [sysctl] and the clock answer through arguments.  A
    read outside the captured bytes is [OutOfBounds]. *)

From S2P Require Import Prelude Qt StdAlgo Conn Heuristics SockDump IfaceAgg Conntrack BsdResolver.

(* ------------------------------------------------------------------ *)
(** ** Reading headers *)

Inductive Parse (A : Type) := OutOfBounds | Ignored | Parsed (a : A).
Arguments OutOfBounds {A}.
Arguments Ignored {A}.
Arguments Parsed {A} a.

Definition pbind {A B} (p : Parse A) (f : A -> Parse B) : Parse B :=
  match p with OutOfBounds => OutOfBounds | Ignored => Ignored | Parsed a => f a end.
Definition fetch {A} (o : option A) : Parse A := match o with Some a => Parsed a | None => OutOfBounds end.

Declare Scope parse_scope.
Delimit Scope parse_scope with parse.
Notation "x <- p ;; q" := (pbind p (fun x => q)) (at level 100, p at next level, right associativity) : parse_scope.
Notation "'unless' b ;; q" := (if b then Ignored else q) (at level 100, b at next level, right associativity) : parse_scope.
Local Open Scope parse_scope.

Inductive Datalink := DLT_EN10MB | DLT_NULL | DLT_LOOP | DLT_other.

(** Where the network header starts. *)
Definition ipOffset (dl : Datalink) (data : list Z) : Parse Z :=
  let caplen := Z.of_nat (length data) in
  match dl with
  | DLT_EN10MB =>
      unless (caplen <? 14)%Z ;;
      ethertype <- fetch (readBe data 12 2) ;;
      if (ethertype =? 33024)%Z then
        unless (caplen <? 18)%Z ;;
        inner <- fetch (readBe data 16 2) ;;
        unless negb (inner =? 2048)%Z && negb (inner =? 34525)%Z ;; Parsed 18%Z
      else
        unless negb (ethertype =? 2048)%Z && negb (ethertype =? 34525)%Z ;; Parsed 14%Z
  | DLT_NULL | DLT_LOOP => Parsed 4%Z
  | DLT_other => Parsed 0%Z
  end.

Record IpHeader := mkIp { ip_src : QHostAddress; ip_dst : QHostAddress; ip_proto : Z; ip_l4off : Z }.

Definition ipHeader (data : list Z) (off : Z) : Parse IpHeader :=
  let ipAvail := (Z.of_nat (length data) - off)%Z in
  b0 <- fetch (readBe data off 1) ;;
  let version := Z.shiftr b0 4 in
  if (version =? 4)%Z then
    unless (ipAvail <? 20)%Z ;;
    let ihl := (Z.land b0 15 * 4)%Z in
    unless (ihl <? 20)%Z || (ipAvail <? ihl)%Z ;;
    proto <- fetch (readBe data (off + 9) 1) ;;
    src <- fetch (readBe data (off + 12) 4) ;;
    dst <- fetch (readBe data (off + 16) 4) ;;
    Parsed (mkIp (AddrV4 src) (AddrV4 dst) proto (off + ihl))
  else if (version =? 6)%Z then
    unless (ipAvail <? 40)%Z ;;
    proto <- fetch (readBe data (off + 6) 1) ;;
    src <- fetch (readBe data (off + 8) 16) ;;
    dst <- fetch (readBe data (off + 24) 16) ;;
    Parsed (mkIp (AddrV6 src []) (AddrV6 dst []) proto (off + 40))
  else Ignored.

(** [readPorts]; without four bytes of transport header the ports stay 0. *)
Definition readPorts (data : list Z) (l4off : Z) : Parse (Z * Z) :=
  let caplen := Z.of_nat (length data) in
  if (l4off <? caplen)%Z && negb (caplen - l4off <? 4)%Z then
    sport <- fetch (readBe data l4off 2) ;;
    dport <- fetch (readBe data (l4off + 2) 2) ;;
    Parsed (sport, dport)
  else Parsed (0%Z, 0%Z).

Definition hasPorts (p : L4Proto) : bool := match p with Tcp | Udp => true | _ => false end.

(** SYN set and ACK clear. *)
Definition pureSynFlags (flags : Z) : bool := Z.testbit flags 1 && negb (Z.testbit flags 4).

Definition synOf (data : list Z) (proto : L4Proto) (l4off : Z) : Parse bool :=
  match proto with
  | Tcp => if (l4off + 14 <=? Z.of_nat (length data))%Z then flags <- fetch (readBe data (l4off + 13) 1) ;; Parsed (pureSynFlags flags)
           else Parsed false
  | _ => Parsed false
  end.

Record Segment := mkSegment { sg_proto : L4Proto; sg_src : Endpoint; sg_dst : Endpoint; sg_pureSyn : bool }.

Definition parsePacket (dl : Datalink) (data : list Z) : Parse Segment :=
  off <- ipOffset dl data ;;
  unless (Z.of_nat (length data) <=? off)%Z ;;
  h <- ipHeader data off ;;
  let proto := fromIanaProto (ip_proto h) in
  ports <- (if hasPorts proto then readPorts data (ip_l4off h) else Parsed (0%Z, 0%Z)) ;;
  syn <- synOf data proto (ip_l4off h) ;;
  Parsed (mkSegment proto (mkEndpoint (ip_src h) (fst ports)) (mkEndpoint (ip_dst h) (snd ports)) syn).

(* ------------------------------------------------------------------ *)
(** ** The flow table *)

Record CaptureHandle := mkHandle { ch_fd : Z; ch_datalink : Datalink; ch_iface : QString; ch_ifIndex : Z }.

Record FlowAcc := mkFlowAcc {
  fa_local : Endpoint; fa_remote : Endpoint; fa_proto : L4Proto;
  fa_rxBytes : Z; fa_txBytes : Z; fa_rxPackets : Z; fa_txPackets : Z;
  fa_iface : QString; fa_ifIndex : Z; fa_lastSeenMs : Z; fa_observedDir : Direction;
}.

Record BsdWorker := mkBsdWorker {
  bw_handles : list CaptureHandle;
  bw_flows : gmap QString FlowAcc;
  bw_localAddrs : gset QHostAddress;
  bw_loopbackAddrs : gset QHostAddress;
  bw_ephLow : Z;
  bw_ephHigh : Z;
  bw_timer : BsdTimer;
  bw_warned : bool;
  bw_flowCapWarned : bool;
  bw_resolver : BsdSocketResolver;
}.

Definition newBsdWorker : BsdWorker := mkBsdWorker [] ∅ ∅ ∅ 49152 65535 None false false newBsdResolver.

Definition setFlows (f : gmap QString FlowAcc) (w : BsdWorker) : BsdWorker :=
  mkBsdWorker (bw_handles w) f (bw_localAddrs w) (bw_loopbackAddrs w) (bw_ephLow w) (bw_ephHigh w) (bw_timer w) (bw_warned w) (bw_flowCapWarned w) (bw_resolver w).
Definition setHandles (h : list CaptureHandle) (w : BsdWorker) : BsdWorker :=
  mkBsdWorker h (bw_flows w) (bw_localAddrs w) (bw_loopbackAddrs w) (bw_ephLow w) (bw_ephHigh w) (bw_timer w) (bw_warned w) (bw_flowCapWarned w) (bw_resolver w).
Definition setHost (l lo : gset QHostAddress) (low high : Z) (w : BsdWorker) : BsdWorker :=
  mkBsdWorker (bw_handles w) (bw_flows w) l lo low high (bw_timer w) (bw_warned w) (bw_flowCapWarned w) (bw_resolver w).
Definition setTimer (t : BsdTimer) (w : BsdWorker) : BsdWorker :=
  mkBsdWorker (bw_handles w) (bw_flows w) (bw_localAddrs w) (bw_loopbackAddrs w) (bw_ephLow w) (bw_ephHigh w) t (bw_warned w) (bw_flowCapWarned w) (bw_resolver w).
Definition setWarned (b : bool) (w : BsdWorker) : BsdWorker :=
  mkBsdWorker (bw_handles w) (bw_flows w) (bw_localAddrs w) (bw_loopbackAddrs w) (bw_ephLow w) (bw_ephHigh w) (bw_timer w) b (bw_flowCapWarned w) (bw_resolver w).
Definition setCapWarned (b : bool) (w : BsdWorker) : BsdWorker :=
  mkBsdWorker (bw_handles w) (bw_flows w) (bw_localAddrs w) (bw_loopbackAddrs w) (bw_ephLow w) (bw_ephHigh w) (bw_timer w) (bw_warned w) b (bw_resolver w).
Definition setResolver (r : BsdSocketResolver) (w : BsdWorker) : BsdWorker :=
  mkBsdWorker (bw_handles w) (bw_flows w) (bw_localAddrs w) (bw_loopbackAddrs w) (bw_ephLow w) (bw_ephHigh w) (bw_timer w) (bw_warned w) (bw_flowCapWarned w) r.

Definition kFlowTtlMs : Z := 30000.
Definition kMaxFlows : Z := 16384.
Definition kSnapshotCap : Z := 4096.

Section Worker.
Context `{QtAddrText}.

Definition endpointGreater (a b : Endpoint) : bool :=
  if negb (ep_port a =? ep_port b)%Z then (ep_port b <? ep_port a)%Z
  else qlt (addrToString (ep_address b)) (addrToString (ep_address a)).

Definition isHostAddr (w : BsdWorker) (a : QHostAddress) : bool :=
  bool_decide (a ∈ bw_localAddrs w) || bool_decide (a ∈ bw_loopbackAddrs w).

(** Local end, remote end, and whether the packet is sent. *)
Definition orientSegment (w : BsdWorker) (s : Segment) : Endpoint * Endpoint * bool :=
  let ls := isHostAddr w (ep_address (sg_src s)) in
  let ld := isHostAddr w (ep_address (sg_dst s)) in
  if ls && negb ld then (sg_src s, sg_dst s, true)
  else if ld && negb ls then (sg_dst s, sg_src s, false)
  else if endpointGreater (sg_src s) (sg_dst s) then (sg_src s, sg_dst s, true)
  else (sg_dst s, sg_src s, false).

Definition newFlow (h : CaptureHandle) (proto : L4Proto) (local remote : Endpoint) : FlowAcc :=
  mkFlowAcc local remote proto 0 0 0 0 (ch_iface h) (ch_ifIndex h) 0 DirUnknown.

Definition accumulate (isTx : bool) (wireLen nowMs : Z) (dir : option Direction) (a : FlowAcc) : FlowAcc :=
  mkFlowAcc (fa_local a) (fa_remote a) (fa_proto a)
    (if isTx then fa_rxBytes a else u64 (fa_rxBytes a + wireLen)) (if isTx then u64 (fa_txBytes a + wireLen) else fa_txBytes a)
    (if isTx then fa_rxPackets a else u64 (fa_rxPackets a + 1)) (if isTx then u64 (fa_txPackets a + 1) else fa_txPackets a)
    (fa_iface a) (fa_ifIndex a) nowMs (default (fa_observedDir a) dir).

(** What a handshake packet says, when exactly one end is this host. *)
Definition observed (w : BsdWorker) (s : Segment) : option Direction :=
  let ls := isHostAddr w (ep_address (sg_src s)) in
  let ld := isHostAddr w (ep_address (sg_dst s)) in
  if sg_pureSyn s && xorb ls ld then Some (if ls then Outbound else Inbound) else None.

Definition accountSegment (h : CaptureHandle) (s : Segment) (wireLen nowMs : Z) (w : BsdWorker) : BsdWorker :=
  let '(local, remote, isTx) := orientSegment w s in
  let key := flowKeyExact (sg_proto s) local remote in
  let bump a := setFlows (<[key := accumulate isTx wireLen nowMs (observed w s) a]> (bw_flows w)) w in
  match bw_flows w !! key with
  | Some a => bump a
  | None =>
      if (kMaxFlows <=? Z.of_nat (size (bw_flows w)))%Z then setCapWarned true w
      else bump (newFlow h (sg_proto s) local remote)
  end.

(** A captured packet: the bytes kept and the length on the wire. *)
Record Packet := mkPacket { pk_data : list Z; pk_wireLen : Z }.

(** [None]: a read past the captured bytes. *)
Definition handlePacket (h : CaptureHandle) (p : Packet) (nowMs : Z) (w : BsdWorker) : option BsdWorker :=
  match parsePacket (ch_datalink h) (pk_data p) with
  | OutOfBounds => None
  | Ignored => Some w
  | Parsed s => Some (accountSegment h s (pk_wireLen p) nowMs w)
  end.

(** [onReadable]: the packets waiting on the handle with that descriptor, each
    with the time it is handled. *)
Definition onReadable (fd : Z) (packets : list (Packet * Z)) (w : BsdWorker) : option BsdWorker :=
  match List.find (fun h => (ch_fd h =? fd)%Z) (bw_handles w) with
  | None => Some w
  | Some h => foldl (fun acc pt => w ← acc; handlePacket h (fst pt) (snd pt) w) (Some w) packets
  end.

(* ------------------------------------------------------------------ *)
(** ** Host state and captures *)

(** The answers of one refresh: the interface list and the ephemeral range. *)
Record HostAnswers := mkHostAnswers { ha_ifaddrs : option (list IfAddr); ha_portFirst : option Z; ha_portLast : option Z }.

Definition addHostAddr (acc : gset QHostAddress * gset QHostAddress) (i : IfAddr) : gset QHostAddress * gset QHostAddress :=
  let add a := if ifa_loopback i then (fst acc, {[ a ]} ∪ snd acc) else ({[ a ]} ∪ fst acc, snd acc) in
  match ifa_addr i with
  | Some (SaInet a _) => add (AddrV4 a)
  | Some (SaInet6 a _) => add (AddrV6 a [])
  | _ => acc
  end.

(** [static_cast<quint16>] of a positive answer. *)
Definition portBound (answer : option Z) (old : Z) : Z :=
  match answer with Some v => if (0 <? v)%Z then (v mod 65536)%Z else old | None => old end.

Definition refreshLocalState (ha : HostAnswers) (w : BsdWorker) : BsdWorker :=
  let '(l, lo) := foldl addHostAddr (∅, ∅) (default [] (ha_ifaddrs ha)) in
  setHost l lo (portBound (ha_portFirst ha) (bw_ephLow w)) (portBound (ha_portLast ha) (bw_ephHigh w)) w.

(** [pcap_create] to [pcap_get_selectable_fd] on one interface: descriptor,
    link type and interface index, or nothing. *)
Definition PcapOpen := QString -> option (Z * Datalink * Z).

Definition openOne (open : PcapOpen) (acc : gset QString * list CaptureHandle) (i : IfAddr) : gset QString * list CaptureHandle :=
  match ifa_name i, ifa_addr i with
  | Some name, Some SaLink =>
      if negb (ifa_up i) || bool_decide (name ∈ fst acc) then acc
      else ({[ name ]} ∪ fst acc,
            match open name with
            | Some (fd, dl, idx) => snd acc ++ [mkHandle fd dl name idx]
            | None => snd acc
            end)
  | _, _ => acc
  end.

Definition openCaptures (ifap : option (list IfAddr)) (open : PcapOpen) (w : BsdWorker) : BsdWorker :=
  setHandles (snd (foldl (openOne open) (∅, bw_handles w) (default [] ifap))) w.

(* ------------------------------------------------------------------ *)
(** ** Snapshots *)

Inductive BsdSignal := BsdConnectionsUpdated (conns : list Connection) | BsdAccountingUnavailable.

Context `{QHashOrder, StdSort}.

Definition flowConnection (w : BsdWorker) (a : FlowAcc) : Connection :=
  let c := mkConnection (fa_local a) (fa_remote a) (fa_proto a) (fa_rxBytes a) (fa_txBytes a) (fa_rxPackets a) (fa_txPackets a)
             (fa_iface a) (fa_ifIndex a) DirUnknown TcpNone Resolved noProcess noContainer [] in
  let dir := if bool_decide (fa_observedDir a = DirUnknown)
             then inferDirection (bw_localAddrs w) (bw_loopbackAddrs w) c (bw_ephLow w) (bw_ephHigh w) else fa_observedDir a in
  let attr := bsdLookup (fa_proto a) (fa_local a) (fa_remote a) (bw_resolver w) in
  set_container (ba_container attr) (set_process (ba_process attr) (set_direction dir c)).

Definition flowExpired (nowMs : Z) (a : FlowAcc) : bool := (kFlowTtlMs <? nowMs - fa_lastSeenMs a)%Z.

Definition moreTraffic (a b : Connection) : bool := (u64 (c_rxBytes b + c_txBytes b) <? u64 (c_rxBytes a + c_txBytes a))%Z.

Definition bsdCap (out : list Connection) : list Connection :=
  if (kSnapshotCap <? Z.of_nat (length out))%Z
  then take (Z.to_nat kSnapshotCap) (partial_sort moreTraffic (Z.to_nat kSnapshotCap) out) else out.

(** [emitSnapshot] with the resolver the refresh builds. *)
Definition emitSnapshot (ha : HostAnswers) (resolver : BsdSocketResolver) (nowMs : Z) (w : BsdWorker) : BsdWorker * list BsdSignal :=
  let w := setResolver resolver (refreshLocalState ha w) in
  let live := filter (fun e => flowExpired nowMs (snd e) = false) (hash_iter (bw_flows w)) in
  let w' := setFlows (filter (fun e => flowExpired nowMs (snd e) = false) (bw_flows w)) w in
  let w' := if bw_flowCapWarned w' && (Z.of_nat (size (bw_flows w')) <? kMaxFlows)%Z then setCapWarned false w' else w' in
  (w', [BsdConnectionsUpdated (bsdCap (map (fun e => flowConnection w (snd e)) live))]).

Definition bsdStart (ha ha' : HostAnswers) (open : PcapOpen) (resolver : BsdSocketResolver) (nowMs : Z) (w : BsdWorker) : BsdWorker * list BsdSignal :=
  let w := openCaptures (ha_ifaddrs ha) open (refreshLocalState ha w) in
  if isEmpty (bw_handles w) && negb (bw_warned w)
  then (setWarned true w, [BsdAccountingUnavailable; BsdConnectionsUpdated []])
  else emitSnapshot ha' resolver nowMs (setTimer (Some (kBsdPollIntervalMs, true)) w).

Definition bsdStop (w : BsdWorker) : BsdWorker := setFlows ∅ (setHandles [] (setTimer None w)).

(** The two monitors: a thread each, with these workers in it. *)
Definition BsdConnectionMonitor := ThreadMonitor BsdWorker.
Definition bsdConnectionCall (ha ha' : HostAnswers) (open : PcapOpen) (resolver : BsdSocketResolver) (nowMs : Z) :
    BsdConnectionMonitor -> MonitorCall -> option BsdConnectionMonitor :=
  tm_call (fun w => fst (bsdStart ha ha' open resolver nowMs w)) (fun ms w => setTimer (bsdSetPollIntervalMs ms (bw_timer w)) w).

Definition BsdNetworkMonitor := ThreadMonitor BsdTimer.
Definition bsdNetworkCall : BsdNetworkMonitor -> MonitorCall -> option BsdNetworkMonitor :=
  tm_call (fun _ => Some (kBsdPollIntervalMs, true)) bsdSetPollIntervalMs.
End Worker.

(* ------------------------------------------------------------------ *)
(** ** Parsing stays inside the packet *)

Lemma fetch_be {B} data off n (k : Z -> Parse B) :
  (0 <= off)%Z -> (off + Z.of_nat n <= Z.of_nat (length data))%Z ->
  exists z, readBe data off n = Some z /\ pbind (fetch (readBe data off n)) k = k z.
Proof. intros Ho Hl. destruct (readBe_in data off n Ho Hl) as [z Hz]. exists z. by rewrite Hz. Qed.

(** Take the next read when it is inside the buffer. *)
Ltac read_step :=
  match goal with
  | |- context [pbind (fetch (readBe ?d ?o ?n)) ?k] =>
      let z := fresh "z" in let Hz := fresh "Hz" in
      destruct (fetch_be d o n k) as (z & Hz & ->); [lia|lia|]
  end.

Definition inside_packet {A} (P : A -> Prop) (p : Parse A) : Prop :=
  match p with OutOfBounds => False | Ignored => True | Parsed a => P a end.

Lemma ipOffset_inside dl data : inside_packet (fun off => 0 <= off <= 18)%Z (ipOffset dl data).
Proof.
  unfold ipOffset. destruct dl; try (unfold inside_packet; lia). destruct (Z.ltb_spec (Z.of_nat (length data)) 14); [done|]. read_step.
  destruct (z =? 33024)%Z.
  - destruct (Z.ltb_spec (Z.of_nat (length data)) 18); [done|]. read_step. destruct (_ && _); [done|]. unfold inside_packet; cbn [ip_l4off]; lia.
  - destruct (_ && _); [done|]. unfold inside_packet; cbn [ip_l4off]; lia.
Qed.

Lemma ipHeader_inside data off :
  (0 <= off < Z.of_nat (length data))%Z -> inside_packet (fun h => 0 <= ip_l4off h <= Z.of_nat (length data))%Z (ipHeader data off).
Proof.
  intros Ho. unfold ipHeader. read_step. destruct (_ =? 4)%Z.
  - destruct (Z.ltb_spec (Z.of_nat (length data) - off) 20); [done|]. assert (0 <= Z.land z 15)%Z by (apply Z.land_nonneg; right; lia).
    destruct (Z.ltb_spec (Z.land z 15 * 4) 20); [done|]. destruct (Z.ltb_spec (Z.of_nat (length data) - off) (Z.land z 15 * 4)); [done|].
    cbn [orb]. do 3 read_step. unfold inside_packet; cbn [ip_l4off]; lia.
  - destruct (_ =? 6)%Z; [|done]. destruct (Z.ltb_spec (Z.of_nat (length data) - off) 40); [done|]. do 3 read_step. unfold inside_packet; cbn [ip_l4off]; lia.
Qed.

Lemma inside_bind {A B} (P : A -> Prop) (Q : B -> Prop) p k :
  inside_packet P p -> (forall a, P a -> inside_packet Q (k a)) -> inside_packet Q (pbind p k).
Proof. destruct p; cbn; auto. Qed.

Lemma parsePacket_inside dl data : inside_packet (fun _ => True) (parsePacket dl data).
Proof.
  unfold parsePacket. eapply inside_bind; [apply ipOffset_inside|]. intros off Hoff. cbn beta in *.
  destruct (Z.leb_spec (Z.of_nat (length data)) off); [done|].
  eapply inside_bind; [apply ipHeader_inside; lia|]. intros h Hh. cbn beta in *.
  apply (inside_bind (fun _ => True)).
  - destruct (hasPorts _); [|done]. unfold readPorts. destruct (Z.ltb_spec (ip_l4off h) (Z.of_nat (length data))); [|done].
    destruct (Z.ltb_spec (Z.of_nat (length data) - ip_l4off h) 4); [done|]. cbn [negb andb]. do 2 read_step. done.
  - intros ports _. apply (inside_bind (fun _ => True)); [|done]. unfold synOf. destruct (fromIanaProto _); try done.
    destruct (Z.leb_spec (ip_l4off h + 14) (Z.of_nat (length data))); [|done]. read_step. done.
Qed.

(** No packet, however short or malformed, makes the capture read outside the
    bytes it was handed; such packets change nothing. *)
Theorem handlePacket_safe `{QtAddrText} h p nowMs w : is_Some (handlePacket h p nowMs w).
Proof.
  unfold handlePacket. pose proof (parsePacket_inside (ch_datalink h) (pk_data p)) as Hi.
  by destruct (parsePacket _ _).
Qed.

(* ------------------------------------------------------------------ *)
(** ** Both directions are one flow *)

Definition reply (s : Segment) : Segment := mkSegment (sg_proto s) (sg_dst s) (sg_src s) (sg_pureSyn s).
Definition segment_ok (s : Segment) : Prop := endpoint_ok (sg_src s) /\ endpoint_ok (sg_dst s).

Section Accounting.
Context `{QtAddrTextLaws}.

Lemma endpointGreater_total a b :
  endpoint_ok a -> endpoint_ok b -> a <> b -> endpointGreater a b = negb (endpointGreater b a).
Proof.
  intros [Ha _] [Hb _] Hne. unfold endpointGreater. rewrite (Z.eqb_sym (ep_port b)).
  destruct (Z.eqb_spec (ep_port a) (ep_port b)) as [Hp|Hp]; cbn [negb].
  - destruct (qlt_total (addrToString (ep_address a)) (addrToString (ep_address b))) as [He|[Hl|Hl]].
    + apply addrToString_inj in He; [|done|done]. destruct a, b; cbn in *; congruence.
    + rewrite Hl. cbn. destruct (qlt _ (addrToString (ep_address a))) eqn:Hq; [|done].
      pose proof (qlt_trans _ _ _ Hl Hq) as Hc. by rewrite qlt_irrefl in Hc.
    + rewrite Hl. cbn. destruct (qlt (addrToString (ep_address a)) _) eqn:Hq; [|done].
      pose proof (qlt_trans _ _ _ Hl Hq) as Hc. by rewrite qlt_irrefl in Hc.
  - destruct (Z.ltb_spec (ep_port b) (ep_port a)), (Z.ltb_spec (ep_port a) (ep_port b)); cbn; lia || done.
Qed.

(** A packet and the answer to it belong to the same flow, seen from the same
    end and counted in opposite directions, whether or not either end is this
    host. *)
Theorem reply_same_flow w s :
  segment_ok s -> sg_src s <> sg_dst s ->
  let '(local, remote, isTx) := orientSegment w s in orientSegment w (reply s) = (local, remote, negb isTx).
Proof.
  intros [Hs Hd] Hne. unfold orientSegment, reply. cbn [sg_src sg_dst].
  destruct (isHostAddr w (ep_address (sg_src s))), (isHostAddr w (ep_address (sg_dst s))); cbn [andb negb]; try done.
  all: rewrite (endpointGreater_total (sg_dst s)) by done; by destruct (endpointGreater (sg_src s) (sg_dst s)).
Qed.

(* ------------------------------------------------------------------ *)
(** ** Counting *)

(** A parsed packet with its wire length and the time it is handled. *)
Definition Arrival : Type := Segment * Z * Z.

Definition accountAll (h : CaptureHandle) (arrivals : list Arrival) (w : BsdWorker) : BsdWorker :=
  foldl (fun w a => accountSegment h (fst (fst a)) (snd (fst a)) (snd a) w) w arrivals.

Definition flowKey (w : BsdWorker) (s : Segment) : QString :=
  let '(local, remote, _) := orientSegment w s in flowKeyExact (sg_proto s) local remote.
Definition sent (w : BsdWorker) (s : Segment) : bool := snd (orientSegment w s).

(** Wire bytes of the arrivals of a flow in one direction. *)
Definition traffic (w : BsdWorker) (k : QString) (tx : bool) (arrivals : list Arrival) : Z :=
  foldl (fun n a => if bool_decide (flowKey w (fst (fst a)) = k) && Bool.eqb (sent w (fst (fst a))) tx then (n + snd (fst a))%Z else n) 0%Z arrivals.

Definition rx_of (o : option FlowAcc) : Z := match o with Some a => fa_rxBytes a | None => 0 end.
Definition tx_of (o : option FlowAcc) : Z := match o with Some a => fa_txBytes a | None => 0 end.

(** The host's addresses decide the orientation; counting keeps them. *)
Definition sameHost (w w' : BsdWorker) : Prop := bw_localAddrs w' = bw_localAddrs w /\ bw_loopbackAddrs w' = bw_loopbackAddrs w.

Lemma orient_sameHost w w' s : sameHost w w' -> orientSegment w' s = orientSegment w s.
Proof. intros [Hl Hlo]. unfold orientSegment, isHostAddr. by rewrite Hl, Hlo. Qed.

Lemma accountSegment_host h s n t w : sameHost w (accountSegment h s n t w).
Proof. unfold accountSegment. destruct (orientSegment w s) as [[l r] tx]. destruct (bw_flows w !! _); [done|]. by destruct (_ <=? _)%Z. Qed.

(** One packet: its flow is credited unless it is new and the table is full;
    the other flows stay as they are. *)
Lemma accountSegment_flows h s n t w k :
  let w' := accountSegment h s n t w in
  let full := (kMaxFlows <=? Z.of_nat (size (bw_flows w)))%Z in
  bw_flows w' !! k =
    if bool_decide (flowKey w s = k) then
      match bw_flows w !! k with
      | Some a => Some (accumulate (sent w s) n t (observed w s) a)
      | None => if full then None else
          let '(l, r, tx) := orientSegment w s in Some (accumulate tx n t (observed w s) (newFlow h (sg_proto s) l r))
      end
    else bw_flows w !! k.
Proof.
  cbn zeta. unfold accountSegment, flowKey, sent. destruct (orientSegment w s) as [[l r] tx]. cbn [snd]. case_bool_decide as Hk.
  - subst k. destruct (bw_flows w !! _) eqn:El.
    + cbn. by rewrite lookup_insert_eq.
    + destruct (_ <=? _)%Z; [done|]. cbn. by rewrite lookup_insert_eq.
  - destruct (bw_flows w !! flowKeyExact _ _ _); [cbn; by rewrite lookup_insert_ne|].
    destruct (_ <=? _)%Z; [done|]. cbn. by rewrite lookup_insert_ne.
Qed.

Lemma accountSegment_size h s n t w :
  (Z.of_nat (size (bw_flows w)) <= kMaxFlows)%Z -> (Z.of_nat (size (bw_flows (accountSegment h s n t w))) <= kMaxFlows)%Z.
Proof.
  intros Hs. unfold accountSegment. destruct (orientSegment w s) as [[l r] tx]. destruct (bw_flows w !! _) eqn:El.
  - cbn. rewrite map_size_insert_Some; [done|by eexists].
  - destruct (Z.leb_spec kMaxFlows (Z.of_nat (size (bw_flows w)))); [done|]. cbn. rewrite map_size_insert_None by done. lia.
Qed.

Lemma traffic_snoc w k tx arrivals a :
  traffic w k tx (arrivals ++ [a]) =
  (traffic w k tx arrivals + if bool_decide (flowKey w (fst (fst a)) = k) && Bool.eqb (sent w (fst (fst a))) tx then snd (fst a) else 0)%Z.
Proof. unfold traffic. rewrite foldl_app. cbn [foldl]. destruct (_ && _); lia. Qed.

(** What the table owes its flows after some arrivals. *)
Definition credited (w w' : BsdWorker) (arrivals : list Arrival) : Prop :=
  forall k a, bw_flows w' !! k = Some a ->
    fa_rxBytes a = u64 (rx_of (bw_flows w !! k) + traffic w k false arrivals) /\
    fa_txBytes a = u64 (tx_of (bw_flows w !! k) + traffic w k true arrivals).

Definition counters_ok (w : BsdWorker) : Prop :=
  map_Forall (fun _ a => in_u64 (fa_rxBytes a) /\ in_u64 (fa_txBytes a)) (bw_flows w).

Definition tableSize (w : BsdWorker) : Z := Z.of_nat (size (bw_flows w)).

Record accounted (w w' : BsdWorker) (arrivals : list Arrival) : Prop := {
  ac_host : sameHost w w';
  ac_size : (tableSize w' <= kMaxFlows)%Z;
  ac_keeps : forall k, is_Some (bw_flows w !! k) -> is_Some (bw_flows w' !! k);
  ac_credited : credited w w' arrivals;
  ac_absent : forall k tx, bw_flows w' !! k = None -> (tableSize w' < kMaxFlows)%Z -> traffic w k tx arrivals = 0%Z;
  ac_present : forall a, a ∈ arrivals -> is_Some (bw_flows w' !! flowKey w (fst (fst a))) \/ tableSize w' = kMaxFlows;
}.

Lemma accounted_nil w : counters_ok w -> (tableSize w <= kMaxFlows)%Z -> accounted w w [].
Proof.
  intros Hc Hs. split; [done|done|done| |done|set_solver]. intros k a Hk. rewrite Hk. destruct (Hc k a Hk) as [Hr Ht].
  cbn. rewrite !Z.add_0_r. by rewrite !u64_small.
Qed.

Lemma accountSegment_mono h s n t w k : is_Some (bw_flows w !! k) -> is_Some (bw_flows (accountSegment h s n t w) !! k).
Proof. intros [a Ha]. rewrite accountSegment_flows. case_bool_decide; [|by eexists]. rewrite Ha. by eexists. Qed.

Lemma accountSegment_grows h s n t w : (tableSize w <= tableSize (accountSegment h s n t w))%Z.
Proof.
  unfold accountSegment, tableSize. destruct (orientSegment w s) as [[l r] tx]. destruct (bw_flows w !! _) eqn:El.
  - cbn. rewrite map_size_insert_Some; [done|by eexists].
  - destruct (_ <=? _)%Z; [done|]. cbn. rewrite map_size_insert_None by done. lia.
Qed.

Lemma flowKey_sameHost w w' s : sameHost w w' -> flowKey w' s = flowKey w s.
Proof. intros Hh. unfold flowKey. by rewrite (orient_sameHost w w'). Qed.
Lemma sent_sameHost w w' s : sameHost w w' -> sent w' s = sent w s.
Proof. intros Hh. unfold sent. by rewrite (orient_sameHost w w'). Qed.

Lemma credited_step h s n t w w' arrivals :
  accounted w w' arrivals -> credited w (accountSegment h s n t w') (arrivals ++ [(s, n, t)]).
Proof.
  intros [Hh Hs Hk Hc Ha Hp] k a. rewrite accountSegment_flows, !traffic_snoc. cbn [fst snd].
  rewrite (flowKey_sameHost w w'), (sent_sameHost w w') by done. case_bool_decide as He; cbn [andb].
  2: { rewrite !Z.add_0_r. apply Hc. }
  destruct (bw_flows w' !! k) as [a0|] eqn:El.
  - intros [= <-]. destruct (Hc k a0 El) as [Hr Ht]. unfold accumulate. cbn [fa_rxBytes fa_txBytes]. rewrite Hr, Ht.
    destruct (sent w s); cbn [Bool.eqb]; rewrite ?u64_add_l, ?Z.add_0_r, ?Z.add_assoc; done.
  - destruct (Z.leb_spec kMaxFlows (Z.of_nat (size (bw_flows w')))) as [|Hroom]; [done|].
    assert (Hno : bw_flows w !! k = None).
    { destruct (bw_flows w !! k) eqn:Ew; [|done]. destruct (Hk k) as [x Hx]; [by eexists|]. congruence. }
    assert (Ht : forall tx, traffic w k tx arrivals = 0%Z) by (intros tx; by apply Ha).
    rewrite Hno. cbn [rx_of tx_of]. rewrite !Ht. rewrite <- (sent_sameHost w w') by done. unfold sent.
    destruct (orientSegment w' s) as [[l r] tx]. cbn [snd]. intros [= <-]. unfold accumulate, newFlow. cbn [fa_rxBytes fa_txBytes].
    by destruct tx; cbn [Bool.eqb]; rewrite ?Z.add_0_l.
Qed.

Lemma accounted_step h s n t w w' arrivals :
  accounted w w' arrivals -> accounted w (accountSegment h s n t w') (arrivals ++ [(s, n, t)]).
Proof.
  intros Hacc. pose proof (credited_step h s n t w w' arrivals Hacc) as Hc'. destruct Hacc as [Hh Hs Hk Hc Ha Hp].
  pose proof (accountSegment_host h s n t w') as Hh'. pose proof (accountSegment_grows h s n t w') as Hg.
  assert (Hs' : (tableSize (accountSegment h s n t w') <= kMaxFlows)%Z) by (by apply accountSegment_size).
  split; [|done| |done| |].
  - destruct Hh, Hh'. split; congruence.
  - intros k Hkk. by apply accountSegment_mono, Hk.
  - intros k tx Hnone Hlt. rewrite traffic_snoc. cbn [fst snd].
    assert (Hn' : bw_flows w' !! k = None).
    { destruct (bw_flows w' !! k) eqn:Ew; [|done].
      destruct (accountSegment_mono h s n t w' k) as [x Hx]; [by eexists|]. congruence. }
    rewrite (Ha k tx) by (done || lia). case_bool_decide as He; [|done]. exfalso. revert Hnone.
    rewrite accountSegment_flows, (flowKey_sameHost w w') by done. rewrite bool_decide_eq_true_2 by done. rewrite Hn'.
    unfold tableSize in Hg, Hlt. destruct (Z.leb_spec kMaxFlows (Z.of_nat (size (bw_flows w')))); [lia|].
    by destruct (orientSegment w' s) as [[? ?] ?].
  - intros a [Hin|Hin%list_elem_of_singleton]%elem_of_app.
    + destruct (Hp a Hin) as [Hsome|Hfull]; [left; by apply accountSegment_mono|right; lia].
    + subst a. cbn [fst snd]. rewrite accountSegment_flows, (flowKey_sameHost w w') by done. rewrite bool_decide_eq_true_2 by done.
      destruct (bw_flows w' !! _); [left; by eexists|].
      destruct (Z.leb_spec kMaxFlows (Z.of_nat (size (bw_flows w')))) as [Hle|]; [right; unfold tableSize in *; lia|].
      left. destruct (orientSegment w' s) as [[? ?] ?]. by eexists.
Qed.

Lemma accountAll_accounted h arrivals w :
  counters_ok w -> (tableSize w <= kMaxFlows)%Z -> accounted w (accountAll h arrivals w) arrivals.
Proof.
  intros Hc Hs. induction arrivals as [|[[s n] t] arrivals IH] using rev_ind; [by apply accounted_nil|].
  unfold accountAll. rewrite foldl_app. by apply accounted_step.
Qed.

(** Whatever arrives, the table stays within its cap and never forgets a flow;
    a flow it holds has been credited, in each direction, with exactly the
    bytes of all its packets (up to the wrap of the 64-bit counter), and only
    once the cap is reached can a packet's flow be missing. *)
Theorem accounting_exact h arrivals w :
  counters_ok w -> (tableSize w <= kMaxFlows)%Z ->
  let w' := accountAll h arrivals w in
  (tableSize w' <= kMaxFlows)%Z /\
  (forall k, is_Some (bw_flows w !! k) -> is_Some (bw_flows w' !! k)) /\
  credited w w' arrivals /\
  (forall a, a ∈ arrivals -> is_Some (bw_flows w' !! flowKey w (fst (fst a))) \/ tableSize w' = kMaxFlows).
Proof. intros Hc Hs. by destruct (accountAll_accounted h arrivals w Hc Hs). Qed.
End Accounting.

(* ------------------------------------------------------------------ *)
(** ** The worker's life *)

Inductive BsdEvent :=
| BeStart (ha ha' : HostAnswers) (open : PcapOpen) (resolver : BsdSocketResolver) (nowMs : Z)
| BeReadable (fd : Z) (packets : list (Packet * Z))
| BeTick (ha : HostAnswers) (resolver : BsdSocketResolver) (nowMs : Z)
| BeSetPoll (ms : Z)
| BeStop.

Section Run.
Context `{QtAddrText, QHashOrder, StdSort}.

Definition bw_step (w : BsdWorker) (e : BsdEvent) : option (BsdWorker * list BsdSignal) :=
  match e with
  | BeStart ha ha' open resolver nowMs => Some (bsdStart ha ha' open resolver nowMs w)
  | BeReadable fd packets => w' ← onReadable fd packets w; Some (w', [])
  | BeTick ha resolver nowMs => Some (emitSnapshot ha resolver nowMs w)
  | BeSetPoll ms => Some (setTimer (bsdSetPollIntervalMs ms (bw_timer w)) w, [])
  | BeStop => Some (bsdStop w, [])
  end.

Fixpoint bw_run (w : BsdWorker) (es : list BsdEvent) : option (BsdWorker * list BsdSignal) :=
  match es with
  | [] => Some (w, [])
  | e :: es =>
      ws ← bw_step w e;
      ws' ← bw_run (fst ws) es;
      Some (fst ws', snd ws ++ snd ws')
  end.
End Run.

Definition bytes_ok (l : list Z) : Prop := Forall (fun b => 0 <= b < 256)%Z l.
Definition packet_ok (p : Packet) : Prop := bytes_ok (pk_data p).
Definition event_ok (e : BsdEvent) : Prop :=
  match e with BeReadable _ packets => Forall (fun pt => packet_ok (fst pt)) packets | _ => True end.

(** An entry of the table under its key. *)
Definition entry_ok `{QtAddrText} (k : QString) (a : FlowAcc) : Prop :=
  k = flowKeyExact (fa_proto a) (fa_local a) (fa_remote a) /\
  endpoint_ok (fa_local a) /\ endpoint_ok (fa_remote a) /\ in_u16 (ep_port (fa_local a)) /\ in_u16 (ep_port (fa_remote a)) /\
  in_u64 (fa_rxBytes a) /\ in_u64 (fa_txBytes a) /\ in_u64 (fa_rxPackets a) /\ in_u64 (fa_txPackets a).

Record bw_ok `{QtAddrText} (w : BsdWorker) : Prop := {
  bo_size : (tableSize w <= kMaxFlows)%Z;
  bo_entries : map_Forall entry_ok (bw_flows w);
}.

(** What a snapshot promises its receivers. *)
Definition flowOf (c : Connection) : L4Proto * Endpoint * Endpoint := (c_proto c, c_local c, c_remote c).
Definition signal_ok (s : BsdSignal) : Prop :=
  match s with
  | BsdConnectionsUpdated conns => (Z.of_nat (length conns) <= kSnapshotCap)%Z /\ Forall conn_wf conns /\ NoDup (map flowOf conns)
  | BsdAccountingUnavailable => True
  end.

Lemma beZ_snoc bs b : beZ (bs ++ [b]) = (256 * beZ bs + b)%Z.
Proof. unfold beZ. by rewrite foldl_app. Qed.

Lemma beZ_range bs : bytes_ok bs -> (0 <= beZ bs < 256 ^ Z.of_nat (length bs))%Z.
Proof.
  induction bs as [|b bs IH] using rev_ind; intros Hb; [cbn; lia|]. apply Forall_app in Hb as [Hb Hx]. apply Forall_cons_1 in Hx as [Hx _]. cbn beta in Hx.
  rewrite beZ_snoc, length_app. cbn [length]. rewrite Nat2Z.inj_add, Z.pow_add_r by lia. specialize (IH Hb). change (256 ^ Z.of_nat 1)%Z with 256%Z. lia.
Qed.

Lemma readBe_range data off n z : bytes_ok data -> readBe data off n = Some z -> (0 <= z < 256 ^ Z.of_nat n)%Z.
Proof.
  intros Hb. unfold readBe, readBytes. destruct (_ && _) eqn:E; [|done]. intros [= <-].
  rewrite andb_true_iff, !Z.leb_le in E. destruct E as [E0 E].
  pose proof (beZ_range (take n (drop (Z.to_nat off) data))) as Hr. rewrite length_take, length_drop in Hr.
  replace (n `min` (length data - Z.to_nat off)) with n in Hr by lia. apply Hr. by apply Forall_take, Forall_drop.
Qed.

(** The reads of a parse, each with its range. *)
Ltac parse_reads :=
  repeat match goal with
  | Hp : pbind (fetch (readBe ?d ?o ?n)) _ = Parsed _ |- _ =>
      let z := fresh "z" in let Hz := fresh "Hz" in
      destruct (readBe d o n) as [z|] eqn:Hz; [cbn [fetch pbind] in Hp; apply readBe_range in Hz; [cbn in Hz|done]|done]
  | Hp : (if ?b then Ignored else _) = Parsed _ |- _ => destruct b; [done|]
  end.

Lemma ipHeader_plain data off h :
  bytes_ok data -> ipHeader data off = Parsed h -> plainIP (ip_src h) = true /\ plainIP (ip_dst h) = true.
Proof.
  intros Hb. unfold ipHeader. intros Hp. parse_reads. destruct (_ =? 4)%Z; [|destruct (_ =? 6)%Z; [|done]]; parse_reads.
  all: injection Hp as <-; cbn; rewrite !Z.leb_le; lia.
Qed.

Lemma readPorts_range data off p : bytes_ok data -> readPorts data off = Parsed p -> in_u16 (fst p) /\ in_u16 (snd p).
Proof.
  intros Hb. unfold readPorts. destruct (_ && _); intros Hp; parse_reads; injection Hp as <-; cbn; unfold in_u16; lia.
Qed.

Lemma parsePacket_ok dl data s :
  bytes_ok data -> parsePacket dl data = Parsed s ->
  endpoint_ok (sg_src s) /\ endpoint_ok (sg_dst s) /\ in_u16 (ep_port (sg_src s)) /\ in_u16 (ep_port (sg_dst s)).
Proof.
  intros Hb. unfold parsePacket. destruct (ipOffset dl data) as [| |off]; [done|done|]. cbn [pbind]. intros Hp. parse_reads.
  destruct (ipHeader data off) as [| |h] eqn:Eh; [done|done|]. cbn [pbind] in Hp. apply ipHeader_plain in Eh as [Hs Hd]; [|done].
  destruct (if hasPorts _ then _ else _) as [| |ports] eqn:Ep; [done|done|]. cbn [pbind] in Hp.
  assert (Hr : in_u16 (fst ports) /\ in_u16 (snd ports)).
  { destruct (hasPorts _); [by eapply readPorts_range|]. injection Ep as <-. by cbn; unfold in_u16. }
  destruct (synOf _ _ _); [done|done|]. injection Hp as <-. unfold endpoint_ok, in_u16 in *. cbn. intuition lia.
Qed.

Section RunProofs.
Context `{QtAddrTextLaws, QHashOrderLaws, StdSortLaws}.

Lemma accumulate_ok k tx n t d a : entry_ok k a -> entry_ok k (accumulate tx n t d a).
Proof.
  intros (-> & Hl & Hr & Hpl & Hpr & Hc1 & Hc2 & Hc3 & Hc4). unfold entry_ok, accumulate. cbn. repeat (split; [done|]).
  destruct tx; (split; [|split; [|split]]); first [done|apply u64_range].
Qed.

Lemma orient_ends w s : let '(l, r, tx) := orientSegment w s in (l, r) = (sg_src s, sg_dst s) \/ (l, r) = (sg_dst s, sg_src s).
Proof. unfold orientSegment. do 2 (destruct (_ && _); [auto|]). destruct (endpointGreater _ _); auto. Qed.

Lemma accountSegment_ok h s n t w :
  endpoint_ok (sg_src s) -> endpoint_ok (sg_dst s) -> in_u16 (ep_port (sg_src s)) -> in_u16 (ep_port (sg_dst s)) ->
  bw_ok w -> bw_ok (accountSegment h s n t w).
Proof.
  intros Hs Hd Hps Hpd [Hsz He]. split; [by apply accountSegment_size|]. unfold accountSegment. pose proof (orient_ends w s) as Ho.
  destruct (orientSegment w s) as [[l r] tx]. destruct (bw_flows w !! _) as [a|] eqn:El; [|destruct (_ <=? _)%Z; [done|]].
  - cbn. apply map_Forall_insert_2; [apply accumulate_ok; by apply (He _ a)|done].
  - cbn. apply map_Forall_insert_2; [apply accumulate_ok|done]. unfold entry_ok, newFlow. cbn.
    assert (Hz : in_u64 0) by (unfold in_u64, two64; lia). destruct Ho as [[= -> ->]|[= -> ->]]; repeat (split; [done|]); done.
Qed.

Lemma handlePacket_ok h p t w w' : packet_ok p -> bw_ok w -> handlePacket h p t w = Some w' -> bw_ok w'.
Proof.
  intros Hp Hw. unfold handlePacket. destruct (parsePacket _ _) as [| |s] eqn:E; [done|by intros [= <-]|]. intros [= <-].
  apply parsePacket_ok in E as (?&?&?&?); [|done]. by apply accountSegment_ok.
Qed.

Lemma onReadable_ok fd packets w :
  Forall (fun pt => packet_ok (fst pt)) packets -> bw_ok w -> exists w', onReadable fd packets w = Some w' /\ bw_ok w'.
Proof.
  intros Hp. unfold onReadable. destruct (List.find _ _) as [h|]; [|by eexists]. revert w.
  induction Hp as [|[p t] packets Hp _ IH]; intros w Hw; [by eexists|]. cbn [foldl mbind option_bind fst snd].
  destruct (handlePacket_safe h p t w) as [w1 Hw1]. rewrite Hw1. apply IH. by eapply handlePacket_ok.
Qed.

Lemma refresh_flows ha w : bw_flows (refreshLocalState ha w) = bw_flows w.
Proof. unfold refreshLocalState. by destruct (foldl _ _ _). Qed.

Lemma flowConnection_wf w k a : entry_ok k a -> conn_wf (flowConnection w a) /\ flowOf (flowConnection w a) = (fa_proto a, fa_local a, fa_remote a).
Proof. intros (-> & Hl & Hr & Hpl & Hpr & Hc1 & Hc2 & Hc3 & Hc4). split; [by split|done]. Qed.

Lemma moreTraffic_swo : swo moreTraffic.
Proof. apply (swo_measure_gt (fun c => u64 (c_rxBytes c + c_txBytes c))). Qed.

Lemma bsdCap_spec out :
  (Z.of_nat (length (bsdCap out)) <= kSnapshotCap)%Z /\ exists dropped, out ≡ₚ bsdCap out ++ dropped.
Proof.
  unfold bsdCap. destruct (Z.ltb_spec kSnapshotCap (Z.of_nat (length out))).
  - rewrite length_take. split; [unfold kSnapshotCap; lia|]. eexists (drop _ (partial_sort moreTraffic _ out)).
    rewrite take_drop. symmetry. apply partial_sort_perm, moreTraffic_swo.
  - split; [lia|]. exists []. by rewrite app_nil_r.
Qed.

(** The flows that go into a snapshot. *)
Definition liveFlows (nowMs : Z) (w : BsdWorker) : list (QString * FlowAcc) :=
  filter (fun e => flowExpired nowMs (snd e) = false) (hash_iter (bw_flows w)).

Lemma liveFlows_ok nowMs w :
  bw_ok w -> Forall (fun e => entry_ok (fst e) (snd e)) (liveFlows nowMs w) /\ NoDup (map fst (liveFlows nowMs w)).
Proof.
  intros [_ He]. split.
  - apply Forall_forall. intros [k a] Hin. apply list_elem_of_filter in Hin as [_ Hin]. apply elem_of_hash_iter in Hin. by apply He.
  - unfold liveFlows. pose proof (hash_iter_NoDup (bw_flows w)) as Hd. revert Hd. generalize (hash_iter (bw_flows w)).
    induction l as [|e l IH]; [done|]. cbn [fmap list_fmap]. rewrite NoDup_cons. intros [Hn Hd]. rewrite filter_cons.
    destruct (decide _); [|by apply IH]. cbn [map]. constructor; [|by apply IH]. intros Hin. apply Hn.
    apply list_elem_of_fmap in Hin as (x & -> & Hx). apply list_elem_of_filter in Hx as [_ Hx]. by apply list_elem_of_fmap_2.
Qed.

Lemma snapshot_ok ha resolver nowMs w :
  bw_ok w -> bw_ok (fst (emitSnapshot ha resolver nowMs w)) /\ Forall signal_ok (snd (emitSnapshot ha resolver nowMs w)).
Proof.
  intros Hw. unfold emitSnapshot. set (w1 := setResolver resolver (refreshLocalState ha w)).
  assert (Hf : bw_flows w1 = bw_flows w) by apply refresh_flows. assert (Hw1 : bw_ok w1) by (destruct Hw; split; unfold tableSize; by rewrite Hf).
  cbn [fst snd]. split.
  - set (w2 := setFlows _ w1). enough (Hw2 : bw_ok w2) by (destruct (_ && _); [destruct Hw2; by split|done]). destruct Hw1 as [Hs He]. split.
    + unfold tableSize, w2 in *. cbn. etrans; [|done]. apply inj_le, map_size_filter.
    + cbn. intros k a Hk. apply map_lookup_filter_Some in Hk as [Hk _]. by apply He.
  - fold (liveFlows nowMs w1). destruct (liveFlows_ok nowMs w1 Hw1) as [Hl Hd]. apply Forall_singleton. cbn.
    set (out := map _ (liveFlows nowMs w1)). destruct (bsdCap_spec out) as [Hlen [dropped Hp]]. split; [done|].
    assert (Hwf : Forall conn_wf out).
    { apply Forall_fmap. eapply Forall_impl; [done|]. intros e He. apply (flowConnection_wf w1 _ _ He). }
    assert (Hnd : NoDup (map flowOf out)).
    { unfold out. rewrite map_map. apply (NoDup_fmap_1 (fun f => let '(p, l, r) := f in flowKeyExact p l r)).
      replace (_ <$> map _ _) with (map fst (liveFlows nowMs w1)); [done|].
      change (?f <$> ?l) with (map f l). rewrite map_map. apply map_ext_in. intros e Hin. rewrite Forall_forall in Hl.
      apply list_elem_of_In, Hl in Hin. destruct (flowConnection_wf w1 _ _ Hin) as [_ ->]. by destruct Hin. }
    rewrite Hp in Hwf. apply Forall_app in Hwf as [Hwf _]. split; [done|].
    rewrite Hp, map_app in Hnd. by apply NoDup_app in Hnd as [Hnd _].
Qed.

Lemma bw_step_ok w e : event_ok e -> bw_ok w -> exists w' sigs, bw_step w e = Some (w', sigs) /\ bw_ok w' /\ Forall signal_ok sigs.
Proof.
  intros He Hw. destruct e as [ha ha' open resolver now|fd packets|ha resolver now|ms|]; cbn [bw_step].
  - unfold bsdStart. set (w1 := openCaptures _ _ _).
    assert (Hw1 : bw_ok w1) by (destruct Hw; split; unfold tableSize, w1, openCaptures; cbn; by rewrite refresh_flows).
    destruct (_ && _).
    + do 2 eexists. split; [done|]. split; [by destruct Hw1|]. repeat constructor. unfold kSnapshotCap. cbn. lia.
    + destruct (snapshot_ok ha' resolver now (setTimer (Some (kBsdPollIntervalMs, true)) w1)) as [H1' H2']; [by destruct Hw1|].
      do 2 eexists. split; [apply f_equal, surjective_pairing|]. done.
  - destruct (onReadable_ok fd packets w He Hw) as (w' & -> & Hw'). do 2 eexists. split; [done|]. by split.
  - destruct (snapshot_ok ha resolver now w Hw) as [H1' H2']. do 2 eexists. split; [apply f_equal, surjective_pairing|]. done.
  - do 2 eexists. split; [done|]. split; [by destruct Hw|done].
  - do 2 eexists. split; [done|]. split; [|done]. split; [unfold tableSize, kMaxFlows; cbn; rewrite map_size_empty; lia|by cbn].
Qed.

(** C24. Over any life of the capture worker, with any packets: no read leaves a
    packet, the table stays within 16384 flows, every entry sits under the key
    of its own flow with counters of 64 bits, and every snapshot holds at most
    4096 flows, well-formed and without two rows for the same flow. *)
Theorem bsd_worker_run_ok es :
  Forall event_ok es -> exists w sigs, bw_run newBsdWorker es = Some (w, sigs) /\ bw_ok w /\ Forall signal_ok sigs.
Proof.
  intros Hes. assert (Hw : bw_ok newBsdWorker) by (split; [unfold tableSize, kMaxFlows; cbn; rewrite map_size_empty; lia|by cbn]).
  revert Hw. generalize newBsdWorker. induction Hes as [|e es He _ IH]; intros w Hw; [by exists w, []|]. cbn [bw_run].
  destruct (bw_step_ok w e He Hw) as (w1 & s1 & -> & Hw1 & Hs1). cbn [mbind option_bind fst snd].
  destruct (IH w1 Hw1) as (w2 & s2 & -> & Hw2 & Hs2). cbn [mbind option_bind fst snd]. do 2 eexists. split; [done|]. split; [done|].
  by apply Forall_app.
Qed.
End RunProofs.

(* ------------------------------------------------------------------ *)
(** ** What is read is what was sent *)

(** An IPv4 packet as RFC 791 lays it out, on each link type.  [v4_mid]: type
    of service, total length, identification, flags and fragment offset, time
    to live. *)
Record V4Packet := mkV4 {
  v4_mid : list Z; v4_proto : Z; v4_checksum : list Z; v4_src : Z; v4_dst : Z; v4_options : list Z; v4_payload : list Z;
}.

Definition v4Header (p : V4Packet) : list Z :=
  [64 + (5 + Z.of_nat (length (v4_options p)) / 4)]%Z ++ v4_mid p ++ [v4_proto p] ++ v4_checksum p
  ++ beBytes 4 (v4_src p) ++ beBytes 4 (v4_dst p) ++ v4_options p.

Definition linkHeader (dl : Datalink) (mac : list Z) : list Z :=
  match dl with DLT_EN10MB => mac ++ beBytes 2 2048 | DLT_NULL | DLT_LOOP => take 4 mac | DLT_other => [] end.

Definition v4Frame (dl : Datalink) (mac : list Z) (p : V4Packet) : list Z := linkHeader dl mac ++ v4Header p ++ v4_payload p.

Record v4_ok (p : V4Packet) : Prop := {
  vo_mid : length (v4_mid p) = 8;
  vo_checksum : length (v4_checksum p) = 2;
  vo_options : exists n, length (v4_options p) = 4 * n /\ n <= 10;
  vo_proto : (0 <= v4_proto p < 256)%Z;
  vo_src : (0 <= v4_src p < 2 ^ 32)%Z;
  vo_dst : (0 <= v4_dst p < 2 ^ 32)%Z;
}.

Lemma length_beBytes n z : length (beBytes n z) = n.
Proof. revert z. induction n as [|n IH]; intros z; [done|]. cbn. rewrite length_app, IH. cbn. lia. Qed.

Lemma beZ_beBytes n z : (0 <= z < 256 ^ Z.of_nat n)%Z -> beZ (beBytes n z) = z.
Proof.
  revert z. induction n as [|n IH]; intros z Hz; [cbn in *; lia|]. cbn [beBytes]. rewrite beZ_snoc.
  rewrite Z.shiftr_div_pow2 by lia. change (Z.land z 255) with (Z.land z (Z.ones 8)). rewrite Z.land_ones by lia. change (2 ^ 8)%Z with 256%Z.
  rewrite Nat2Z.inj_succ, Z.pow_succ_r in Hz by lia. rewrite IH; [pose proof (Z.div_mod z 256); lia|].
  split; [apply Z.div_pos; lia|]. apply Z.div_lt_upper_bound; lia.
Qed.

Lemma readBe_at pre n z post off data :
  data = pre ++ beBytes n z ++ post -> off = Z.of_nat (length pre) -> (0 <= z < 256 ^ Z.of_nat n)%Z -> readBe data off n = Some z.
Proof.
  intros -> -> Hz. unfold readBe, readBytes. rewrite !length_app, length_beBytes. rewrite (proj2 (andb_true_iff _ _)) by (rewrite !Z.leb_le; lia).
  rewrite Nat2Z.id, drop_app_length, take_app_length' by (by rewrite length_beBytes). cbn. by rewrite beZ_beBytes.
Qed.

Lemma beBytes_byte b : (0 <= b < 256)%Z -> beBytes 1 b = [b].
Proof. intros Hb. cbn. change 255%Z with (Z.ones 8). rewrite Z.land_ones by lia. by rewrite Z.mod_small. Qed.

(** Where a field of a known layout is. *)
Ltac laid_out :=
  match goal with
  | |- _ = Z.of_nat _ => repeat (rewrite length_app || cbn [length]); rewrite ?length_beBytes; lia
  | |- (_ <= _ < _)%Z => cbn; lia
  | |- _ = _ => rewrite ?beBytes_byte by lia; repeat progress (cbn [app tl]; rewrite <- ?app_assoc); done
  end.

Lemma v4Header_length p : v4_ok p -> length (v4Header p) = 20 + length (v4_options p).
Proof. intros []. unfold v4Header. rewrite !length_app, !length_beBytes. cbn. lia. Qed.

Lemma ipHeader_v4 link p : v4_ok p ->
  ipHeader (link ++ v4Header p ++ v4_payload p) (Z.of_nat (length link)) =
  Parsed (mkIp (AddrV4 (v4_src p)) (AddrV4 (v4_dst p)) (v4_proto p) (Z.of_nat (length (link ++ v4Header p)))).
Proof.
  intros Hp. pose proof (v4Header_length p Hp) as Hlen. destruct Hp as [Hm Hc (n & Hn & Hn10) Hpr Hs Hd].
  assert (Hdiv : (Z.of_nat (length (v4_options p)) / 4 = Z.of_nat n)%Z) by (rewrite Hn, Nat2Z.inj_mul, Z.mul_comm; by rewrite Z.div_mul).
  set (b0 := (64 + (5 + Z.of_nat n))%Z).
  assert (Hhd : v4Header p = b0 :: (v4_mid p ++ v4_proto p :: v4_checksum p ++ beBytes 4 (v4_src p) ++ beBytes 4 (v4_dst p) ++ v4_options p)).
  { unfold v4Header. by rewrite Hdiv. }
  unfold ipHeader. set (data := link ++ v4Header p ++ v4_payload p).
  assert (Hl : (Z.of_nat (length data) - Z.of_nat (length link) = 20 + 4 * Z.of_nat n + Z.of_nat (length (v4_payload p)))%Z).
  { unfold data. rewrite !length_app, Hlen, Hn. lia. }
  rewrite Hl, (readBe_at link 1 b0 (tail (v4Header p) ++ v4_payload p)) by (unfold data; rewrite ?Hhd; unfold b0; laid_out).
  cbn [fetch pbind].
  assert (Hv : Z.shiftr b0 4 = 4%Z) by (rewrite Z.shiftr_div_pow2 by lia; unfold b0; symmetry; apply (Z.div_unique _ _ _ (5 + Z.of_nat n)); lia).
  assert (Hi : Z.land b0 15 = (5 + Z.of_nat n)%Z).
  { change 15%Z with (Z.ones 4). rewrite Z.land_ones by lia. symmetry. apply (Z.mod_unique _ _ 4); unfold b0; lia. }
  rewrite Hv, Hi. change (4 =? 4)%Z with true. cbn iota.
  destruct (Z.ltb_spec (20 + 4 * Z.of_nat n + Z.of_nat (length (v4_payload p))) 20); [lia|].
  rewrite (proj2 (orb_false_iff _ _)) by (rewrite !Z.ltb_ge; lia).
  rewrite (readBe_at (link ++ b0 :: v4_mid p) 1 (v4_proto p) (v4_checksum p ++ beBytes 4 (v4_src p) ++ beBytes 4 (v4_dst p) ++ v4_options p ++ v4_payload p))
    by (unfold data; rewrite ?Hhd; laid_out).
  cbn [fetch pbind].
  rewrite (readBe_at (link ++ b0 :: v4_mid p ++ v4_proto p :: v4_checksum p) 4 (v4_src p) (beBytes 4 (v4_dst p) ++ v4_options p ++ v4_payload p))
    by (unfold data; rewrite ?Hhd; laid_out).
  cbn [fetch pbind].
  rewrite (readBe_at (link ++ b0 :: v4_mid p ++ v4_proto p :: v4_checksum p ++ beBytes 4 (v4_src p)) 4 (v4_dst p) (v4_options p ++ v4_payload p))
    by (unfold data; rewrite ?Hhd; laid_out).
  cbn [fetch pbind]. do 3 f_equal. rewrite length_app, Hlen, Hn. lia.
Qed.

Lemma readBe_byte data i b : data !! i = Some b -> readBe data (Z.of_nat i) 1 = Some b.
Proof.
  intros Hi. pose proof (lookup_lt_Some _ _ _ Hi). unfold readBe, readBytes.
  rewrite (proj2 (andb_true_iff _ _)) by (rewrite !Z.leb_le; lia). rewrite Nat2Z.id. by rewrite (drop_S _ _ _ Hi).
Qed.

Lemma ipOffset_frame dl mac p : length mac = 12 -> 0 < length (v4Header p) ->
  ipOffset dl (v4Frame dl mac p) = Parsed (Z.of_nat (length (linkHeader dl mac))).
Proof.
  intros Hmac Hlen. destruct dl; cbn [ipOffset]; [|cbn [linkHeader]; by rewrite length_take, Hmac..|done].
  assert (Hd : v4Frame DLT_EN10MB mac p = mac ++ beBytes 2 2048 ++ v4Header p ++ v4_payload p) by (unfold v4Frame; cbn [linkHeader]; by rewrite <- app_assoc).
  rewrite (readBe_at mac 2 2048 (v4Header p ++ v4_payload p)) by (rewrite ?Hd; laid_out).
  destruct (Z.ltb_spec (Z.of_nat (length (v4Frame DLT_EN10MB mac p))) 14) as [Hl|_].
  { rewrite Hd, !length_app, length_beBytes in Hl. lia. }
  cbn. by rewrite length_app, Hmac.
Qed.

(** The SYN bit of a TCP header whose first four bytes are the ports. *)
Definition synBit (proto : L4Proto) (rest : list Z) : bool :=
  match proto, rest !! 9 with Tcp, Some flags => pureSynFlags flags | _, _ => false end.

(** On every link type, with any options and any type of service, length,
    identification, fragment offset and time to live: the segment read is the
    one the packet carries. *)
Theorem v4_frame_roundtrip dl mac p sport dport rest :
  v4_ok p -> length mac = 12 -> hasPorts (fromIanaProto (v4_proto p)) = true ->
  v4_payload p = beBytes 2 sport ++ beBytes 2 dport ++ rest -> in_u16 sport -> in_u16 dport ->
  parsePacket dl (v4Frame dl mac p) =
    Parsed (mkSegment (fromIanaProto (v4_proto p)) (mkEndpoint (AddrV4 (v4_src p)) sport) (mkEndpoint (AddrV4 (v4_dst p)) dport)
              (synBit (fromIanaProto (v4_proto p)) rest)).
Proof.
  intros Hp Hmac Hports Hpay Hs Hd. unfold in_u16 in *. pose proof (v4Header_length p Hp) as Hlen. unfold parsePacket.
  rewrite ipOffset_frame by (done || lia). cbn [pbind]. set (link := linkHeader dl mac).
  assert (Hdata : v4Frame dl mac p = (link ++ v4Header p) ++ beBytes 2 sport ++ beBytes 2 dport ++ rest) by (unfold v4Frame; rewrite Hpay; by rewrite <- app_assoc).
  assert (Hn : Z.of_nat (length (v4Frame dl mac p)) = (Z.of_nat (length (link ++ v4Header p)) + 4 + Z.of_nat (length rest))%Z).
  { rewrite Hdata, !length_app, !length_beBytes. lia. }
  destruct (Z.leb_spec (Z.of_nat (length (v4Frame dl mac p))) (Z.of_nat (length link))); [rewrite Hn, length_app in *; lia|].
  unfold v4Frame at 1. rewrite ipHeader_v4 by done. cbn [pbind ip_proto ip_l4off ip_src ip_dst]. fold link. rewrite Hports. unfold readPorts. rewrite Hn.
  rewrite (proj2 (andb_true_iff _ _)) by (rewrite negb_true_iff, Z.ltb_lt, Z.ltb_ge; lia).
  rewrite (readBe_at (link ++ v4Header p) 2 sport (beBytes 2 dport ++ rest)) by (rewrite ?Hdata; laid_out). cbn [fetch pbind].
  rewrite (readBe_at ((link ++ v4Header p) ++ beBytes 2 sport) 2 dport rest) by (rewrite ?Hdata; laid_out). cbn [fetch pbind fst snd].
  enough (Hsyn : synOf (v4Frame dl mac p) (fromIanaProto (v4_proto p)) (Z.of_nat (length (link ++ v4Header p))) = Parsed (synBit (fromIanaProto (v4_proto p)) rest)).
  { by rewrite Hsyn. }
  unfold synOf, synBit. destruct (fromIanaProto (v4_proto p)); try done. rewrite Hn. destruct (rest !! 9) as [flags|] eqn:E9.
  - pose proof (lookup_lt_Some _ _ _ E9). destruct (Z.leb_spec (Z.of_nat (length (link ++ v4Header p)) + 14) (Z.of_nat (length (link ++ v4Header p)) + 4 + Z.of_nat (length rest))); [|lia].
    replace (Z.of_nat (length (link ++ v4Header p)) + 13)%Z with (Z.of_nat (length (link ++ v4Header p) + (2 + (2 + 9)))) by lia.
    rewrite (readBe_byte _ _ flags); [done|]. rewrite Hdata, lookup_app_r by lia.
    rewrite Nat.add_comm, Nat.add_sub. by rewrite !lookup_app_r by (rewrite length_beBytes; lia).
  - apply lookup_ge_None in E9. destruct (Z.leb_spec (Z.of_nat (length (link ++ v4Header p)) + 14) (Z.of_nat (length (link ++ v4Header p)) + 4 + Z.of_nat (length rest))); [lia|done].
Qed.

(* ------------------------------------------------------------------ *)
(** ** Fragments, and witnesses *)

Definition capHost : list IfAddr :=
  [mkIfAddr (Some (qs "em0")) (Some SaLink) None true false None; mkIfAddr (Some (qs "em0")) (Some (SaInet 167772162 0)) None true false None].
Definition capAnswers : HostAnswers := mkHostAnswers (Some capHost) None None.
Definition capOpen : PcapOpen := fun name => Some (7%Z, DLT_other, 1%Z).
Definition capPeer : Endpoint := mkEndpoint (AddrV4 16843009) 53.

(** The two fragments of one UDP datagram from port 5353 to port 53, by their
    flags and offset. *)
Definition fragment (flags : Z) (payload : list Z) : V4Packet :=
  mkV4 ([0; 0; 0; 9; 9] ++ beBytes 2 flags ++ [64])%Z 17 [0; 0]%Z 167772162 16843009 [] payload.
Definition firstFragment : V4Packet := fragment 8192 (beBytes 2 5353 ++ beBytes 2 53 ++ [0; 30; 0; 0]%Z).
Definition lastFragment : V4Packet := fragment 1 [71; 69; 84; 32; 47; 10]%Z.
Definition asPacket (p : V4Packet) : Packet := mkPacket (v4Frame DLT_other [] p) (Z.of_nat (length (v4Frame DLT_other [] p))).

Definition capLife : list BsdEvent :=
  [BeStart capAnswers capAnswers capOpen newBsdResolver 1000; BeReadable 7 [(asPacket firstFragment, 1100%Z); (asPacket lastFragment, 1200%Z)];
   BeTick capAnswers newBsdResolver 2000].

Definition portsSeen (s : BsdSignal) : list (Z * Z) :=
  match s with BsdConnectionsUpdated l => map (fun c => (ep_port (c_local c), ep_port (c_remote c))) l | _ => [] end.

Lemma bytes_checked l : forallb (fun b => (0 <=? b) && (b <? 256))%Z l = true -> Forall (fun b => 0 <= b < 256)%Z l.
Proof. intros Hl%Is_true_true. eapply Forall_impl; [by apply forallb_True|]. cbn. intros b Hb. apply Is_true_true in Hb. lia. Qed.

Lemma bsd_worker_run_ok_witness :
  exists w sigs, bw_run newBsdWorker capLife = Some (w, sigs) /\ Forall signal_ok sigs /\ concat (map portsSeen sigs) <> [].
Proof.
  destruct (bsd_worker_run_ok capLife) as (w & sigs & Hr & _ & Hs).
  { apply Forall_cons; split; [done|]. apply Forall_cons; split; [|by apply Forall_cons].
    unfold event_ok, packet_ok, bytes_ok. do 2 (apply Forall_cons; split; [by apply bytes_checked|]). by apply Forall_nil. }
  exists w, sigs. split; [done|]. split; [done|]. vm_compute in Hr. injection Hr as _ <-. by vm_compute.
Defined.

(** The fragment offset is never looked at: the later fragments of a datagram
    are counted under flows whose ports are the first bytes of their data. *)
Theorem fragment_becomes_flow :
  exists w sigs, bw_run newBsdWorker capLife = Some (w, sigs) /\
    concat (map portsSeen sigs) ≡ₚ [(5353, 53); (18245, 21536)]%Z /\ (18245 = 256 * 71 + 69)%Z.
Proof. do 2 eexists. split; [vm_compute; reflexivity|]. split; [vm_compute|done]. by repeat constructor || apply perm_swap. Qed.

Lemma v4_frame_roundtrip_witness :
  parsePacket DLT_EN10MB (v4Frame DLT_EN10MB (repeat 1%Z 12) firstFragment) =
    Parsed (mkSegment Udp (mkEndpoint (AddrV4 167772162) 5353) (mkEndpoint (AddrV4 16843009) 53) false).
Proof.
  apply (v4_frame_roundtrip DLT_EN10MB (repeat 1%Z 12) firstFragment 5353 53 [0; 30; 0; 0]%Z); try done; [|by unfold in_u16..].
  split; [done|done|exists 0; split; [done|lia]|cbn; lia..].
Defined.

Definition capSegment : Segment := mkSegment Udp (mkEndpoint (AddrV4 167772162) 5353) capPeer false.

Lemma reply_same_flow_witness :
  let '(local, remote, isTx) := orientSegment newBsdWorker capSegment in orientSegment newBsdWorker (reply capSegment) = (local, remote, negb isTx).
Proof. apply reply_same_flow; [by repeat split|done]. Defined.

Definition capHandle : CaptureHandle := mkHandle 7 DLT_other (qs "em0") 1.
Lemma accounting_exact_witness :
  exists k, (tx_of (bw_flows (accountAll capHandle [(capSegment, 60, 1); (reply capSegment, 90, 2); (capSegment, 40, 3)]%Z newBsdWorker) !! k),
             rx_of (bw_flows (accountAll capHandle [(capSegment, 60, 1); (reply capSegment, 90, 2); (capSegment, 40, 3)]%Z newBsdWorker) !! k)) = (100, 90)%Z.
Proof.
  destruct (accounting_exact capHandle [(capSegment, 60, 1); (reply capSegment, 90, 2); (capSegment, 40, 3)]%Z newBsdWorker) as (_ & _ & Hc & Ha);
    [by intros k a|by vm_compute|].
  exists (flowKey newBsdWorker capSegment). destruct (Ha (capSegment, 60, 1)%Z) as [Hk|Hk]; [apply list_elem_of_here| |vm_compute in Hk; done].
  destruct Hk as [a Hk]. pose proof Hk as Hk'. apply Hc in Hk' as [Hr Ht]. cbn [fst] in *.
  rewrite Hk. cbn [tx_of rx_of]. rewrite Hr, Ht. vm_compute. reflexivity.
Defined.
