(* ===== verification/CheckTool.v ===== *)
(** * The monitoring check: [src/tools/check-qiftop/main.cpp]

    A plug-in for Nagios-like schedulers: options, thresholds with units, two
    samples from the agent, one line of text and an exit code.

    The clients of the agent's two services are the environment: the signals
    they deliver and the time-out arrive as events.  The aggregators behind
    them are the modelled ones. *)

From S2P Require Import Prelude Qt StdAlgo Conn DbusTypes Filter Units UdpAgg Aggregator IfaceAgg.
From S2P Require Import TuiPrefs.

(** [QString::arg] with several arguments: the distinct markers in increasing
    order take the arguments, all at once. *)
Definition markers (ps : list piece) : list Z :=
  filter (fun n => existsb (fun p => match p with PMark m _ => (m =? n)%Z | _ => false end) ps = true) (seqZ 0 100).
Definition rank (l : list Z) (n : Z) : nat := length (filter (fun m => (m < n)%Z) l).
Definition qargs (s : QString) (xs : list QString) : QString :=
  let ps := arg_pieces s in
  List.flat_map (fun p => match p with PLit c => [c] | PMark n raw => default raw (xs !! rank (markers ps) n) end) ps.

(* ------------------------------------------------------------------ *)
(** ** Options *)

Inductive ExitCode := ExitOk | ExitWarning | ExitCritical | ExitUnknown.
Inductive MetricPart := MetricRx | MetricTx | MetricTotal.

Record Options := mkOptions {
  op_part : MetricPart;
  op_metricArg : QString;
  op_iface : QString;
  op_filter : QString;
  op_warning : double;
  op_critical : double;
  op_haveWarning : bool;
  op_haveCritical : bool;
  op_sessionBus : bool;
  op_timeoutSec : Z;
  op_intervalMs : Z;
}.

Definition defaultOptions : Options :=
  mkOptions MetricTotal (qs "rate_total") [] [] dzero dzero false false false 5 1000.

Definition op_set_metric (p : MetricPart) (a : QString) (o : Options) : Options :=
  mkOptions p a (op_iface o) (op_filter o) (op_warning o) (op_critical o) (op_haveWarning o) (op_haveCritical o) (op_sessionBus o) (op_timeoutSec o) (op_intervalMs o).
Definition op_set_iface (s : QString) (o : Options) : Options :=
  mkOptions (op_part o) (op_metricArg o) s (op_filter o) (op_warning o) (op_critical o) (op_haveWarning o) (op_haveCritical o) (op_sessionBus o) (op_timeoutSec o) (op_intervalMs o).
Definition op_set_filter (s : QString) (o : Options) : Options :=
  mkOptions (op_part o) (op_metricArg o) (op_iface o) s (op_warning o) (op_critical o) (op_haveWarning o) (op_haveCritical o) (op_sessionBus o) (op_timeoutSec o) (op_intervalMs o).
Definition op_set_warning (d : double) (o : Options) : Options :=
  mkOptions (op_part o) (op_metricArg o) (op_iface o) (op_filter o) d (op_critical o) true (op_haveCritical o) (op_sessionBus o) (op_timeoutSec o) (op_intervalMs o).
Definition op_set_critical (d : double) (o : Options) : Options :=
  mkOptions (op_part o) (op_metricArg o) (op_iface o) (op_filter o) (op_warning o) d (op_haveWarning o) true (op_sessionBus o) (op_timeoutSec o) (op_intervalMs o).
Definition op_set_session (o : Options) : Options :=
  mkOptions (op_part o) (op_metricArg o) (op_iface o) (op_filter o) (op_warning o) (op_critical o) (op_haveWarning o) (op_haveCritical o) true (op_timeoutSec o) (op_intervalMs o).
Definition op_set_timeout (n : Z) (o : Options) : Options :=
  mkOptions (op_part o) (op_metricArg o) (op_iface o) (op_filter o) (op_warning o) (op_critical o) (op_haveWarning o) (op_haveCritical o) (op_sessionBus o) n (op_intervalMs o).
Definition op_set_interval (n : Z) (o : Options) : Options :=
  mkOptions (op_part o) (op_metricArg o) (op_iface o) (op_filter o) (op_warning o) (op_critical o) (op_haveWarning o) (op_haveCritical o) (op_sessionBus o) (op_timeoutSec o) n.

(** [QString::toInt(&ok)] is [intOfText]. *)
Section Options.
Context `{QtUnicode, QtToDouble, QtIntText}.

Definition compacted (s : QString) : QString := filter (fun c => isSpace c = false) s.

Definition rateSuffixes : list (QString * Z) :=
  [ (qs "tib", 1099511627776); (qs "tb", 1000000000000); (qs "ti", 1099511627776); (qs "t", 1000000000000);
    (qs "gib", 1073741824); (qs "gb", 1000000000); (qs "gi", 1073741824); (qs "g", 1000000000);
    (qs "mib", 1048576); (qs "mb", 1000000); (qs "mi", 1048576); (qs "m", 1000000);
    (qs "kib", 1024); (qs "kb", 1000); (qs "ki", 1024); (qs "k", 1000);
    (qs "bytes", 1); (qs "byte", 1); (qs "b", 1) ]%Z.

(** [s.endsWith(suf)], case-sensitive. *)
Definition endsWith (s suf : QString) : bool := prefixb (reverse suf) (reverse s).

Definition parseByteRate (input : QString) : option double :=
  let s := compacted (trimmed input) in
  if isEmpty s then None
  else
    let s := if endsWithCI s (qs "/s") then chop 2 s else s in
    let lower := toLower s in
    let '(s, multiplier) :=
      match List.find (fun e => endsWith lower (fst e)) rateSuffixes with
      | Some (suf, m) => (chop (length suf) s, dofZ m)
      | None => (s, dofZ 1)
      end in
    match qToDouble s with
    | None => None
    | Some n => if dlt n dzero then None else Some (dmul n multiplier)
    end.

Definition oneOf (m : QString) (names : list QString) : bool := existsb (qeqb m) names.
Definition parseMetric (metric : QString) : option MetricPart :=
  let m := toLower (trimmed metric) in
  if oneOf m [qs "rate_in"; qs "rx_rate"; qs "rate_rx"; qs "rx"; qs "in"] then Some MetricRx
  else if oneOf m [qs "rate_out"; qs "tx_rate"; qs "rate_tx"; qs "tx"; qs "out"] then Some MetricTx
  else if oneOf m [qs "rate_total"; qs "total_rate"; qs "rate"; qs "total"] then Some MetricTotal
  else None.

(** The error text, or the options. *)
Abbreviation Result := (QString + Options)%type.

Definition missingValue (arg : QString) : Result := inl (qarg (qs "missing value for %1") arg).

(** What an option with value [v] does. *)
Inductive ValueOption := VoMetric | VoIface | VoFilter | VoWarning | VoCritical | VoTimeout | VoInterval.

Definition valueOption (arg : QString) : option ValueOption :=
  if qeqb arg (qs "--metric") then Some VoMetric
  else if qeqb arg (qs "--iface") then Some VoIface
  else if qeqb arg (qs "--filter") then Some VoFilter
  else if qeqb arg (qs "--warning") then Some VoWarning
  else if qeqb arg (qs "--critical") then Some VoCritical
  else if qeqb arg (qs "--timeout") then Some VoTimeout
  else if qeqb arg (qs "--interval-ms") then Some VoInterval
  else None.

Definition positiveInt (v : QString) : option Z :=
  match intOfText v with Some n => if (n <=? 0)%Z then None else Some n | None => None end.

Definition applyValue (vo : ValueOption) (v : QString) (o : Options) : Result :=
  match vo with
  | VoMetric =>
      match parseMetric v with
      | None => inl (qarg (qs "unknown metric '%1'") v)
      | Some p => inr (op_set_metric p v o)
      end
  | VoIface => inr (op_set_iface (trimmed v) o)
  | VoFilter => inr (op_set_filter v o)
  | VoWarning =>
      match parseByteRate v with
      | None => inl (qarg (qs "invalid warning threshold '%1'") v)
      | Some d => inr (op_set_warning d o)
      end
  | VoCritical =>
      match parseByteRate v with
      | None => inl (qarg (qs "invalid critical threshold '%1'") v)
      | Some d => inr (op_set_critical d o)
      end
  | VoTimeout => match positiveInt v with None => inl (qs "invalid timeout") | Some n => inr (op_set_timeout n o) end
  | VoInterval => match positiveInt v with None => inl (qs "invalid interval") | Some n => inr (op_set_interval n o) end
  end.

Fixpoint optionLoop (args : list QString) (o : Options) : Result :=
  match args with
  | [] => inr o
  | arg :: rest =>
      if qeqb arg (qs "--session") then optionLoop rest (op_set_session o)
      else match valueOption arg with
           | None => inl (qarg (qs "unknown argument '%1'") arg)
           | Some vo =>
               match rest with
               | [] => missingValue arg
               | v :: rest => match applyValue vo v o with inl e => inl e | inr o => optionLoop rest o end
               end
           end
  end.

Definition checkOptions (o : Options) : Result :=
  if negb (op_haveWarning o) || negb (op_haveCritical o) then inl (qs "--warning and --critical are required")
  else if dlt (op_critical o) (op_warning o) then inl (qs "--critical must be greater than or equal to --warning")
  else if negb (isEmpty (op_iface o)) && negb (isEmpty (op_filter o))
  then inl (qs "--iface and --filter are mutually exclusive; use --filter iface=<name> for flow checks")
  else inr o.

(** [args] starts with the program's name. *)
Definition parseOptions (args : list QString) : Result :=
  match optionLoop (tail args) defaultOptions with inl e => inl e | inr o => checkOptions o end.
End Options.

(* ------------------------------------------------------------------ *)
(** ** The line of text *)

Definition metricText (p : MetricPart) : QString :=
  match p with MetricRx => qs "rx" | MetricTx => qs "tx" | MetricTotal => qs "total" end.
Definition perfLabel (p : MetricPart) : QString := metricText p ++ qs "_rate".
Definition metricValue (p : MetricPart) (rx tx : double) : double :=
  match p with MetricRx => rx | MetricTx => tx | MetricTotal => dadd rx tx end.

Definition stateText (c : ExitCode) : QString :=
  match c with ExitOk => qs "OK" | ExitWarning => qs "WARNING" | ExitCritical => qs "CRITICAL" | ExitUnknown => qs "UNKNOWN" end.

Definition statusFor (value warning critical : double) : ExitCode :=
  if dle critical value then ExitCritical else if dle warning value then ExitWarning else ExitOk.

(** What a check says: code, message, value. *)
Abbreviation Report := (ExitCode * QString * double)%type.

Record Check (A : Type) := mkCheck { ck_samples : Z; ck_finished : bool; ck_agg : A; ck_printed : list QString; ck_exit : option ExitCode }.
Arguments mkCheck {A}. Arguments ck_samples {A}. Arguments ck_finished {A}. Arguments ck_agg {A}. Arguments ck_printed {A}. Arguments ck_exit {A}.

(** The signals of the client and the time-out; [S] is what a snapshot holds.
    Only the flow check listens for denied permissions. *)
Inductive CheckEvent (S : Type) := CeSample (nowMs : Z) (snapshot : list S) | CePermissionDenied (detail : QString) | CeTimeout.
Arguments CeSample {S}. Arguments CePermissionDenied {S}. Arguments CeTimeout {S}.

(** What the process prints and returns.  [Waiting]: the event loop still runs. *)
Inductive Outcome := Exited (lines : list QString) (code : ExitCode) | Waiting (lines : list QString).
Section Tool.
Context `{QtUnicode, QtAddrText, QtRegex, QtToDouble, QtIntText, QtNumberText, QHashOrder, StdSort}.

Definition perfNumber (value : double) : QString := fixedText (dmax dzero value) 0.

Definition perfdata (part : MetricPart) (value warning critical : double) : QString :=
  qargs (qs " | %1=%2B/s;%3;%4;0") [perfLabel part; perfNumber value; perfNumber warning; perfNumber critical].

Definition nagiosLine (code : ExitCode) (message : QString) (part : MetricPart) (value warning critical : double)
    (includePerfdata : bool) : QString :=
  qargs (qs "QIFTOP %1 - %2") [stateText code; message]
  ++ (if includePerfdata then perfdata part value warning critical else []) ++ [10%Z].

(* ------------------------------------------------------------------ *)
(** ** A check *)

Definition newCheck {A} (agg : A) : Check A := mkCheck 0 false agg [] None.

(** The lambda [finish]. *)
Definition finish {A} (o : Options) (r : Report) (k : Check A) : Check A :=
  let '(code, message, value) := r in
  if ck_finished k then k
  else mkCheck (ck_samples k) true (ck_agg k)
         (ck_printed k ++ [nagiosLine code message (op_part o) value (op_warning o) (op_critical o) true]) (Some code).

Definition measured (o : Options) (subject : QString) (value : double) : option Report :=
  text ← formatByteRate value;
  Some (statusFor value (op_warning o) (op_critical o), qargs (qs "%1 %2 %3") [subject; metricText (op_part o); text], value).

Definition flowSubject (o : Options) : QString :=
  if isEmpty (op_filter o) then qs "flows" else qarg (qs "flows[%1]") (op_filter o).

Definition matchingRate (expr : option Expr) (acc : double * double) (r : Row) : double * double :=
  if filterMatches expr (mkFContext (r_current r) (ch_raw (r_rx r)) (ch_raw (r_tx r)) [] [])
  then (dadd (fst acc) (ch_raw (r_rx r)), dadd (snd acc) (ch_raw (r_tx r))) else acc.

Definition flowReport (o : Options) (expr : option Expr) (agg : Aggregator) : option Report :=
  let '(rx, tx) := foldl (matchingRate expr) (dzero, dzero) (ag_rows agg) in
  measured o (flowSubject o) (metricValue (op_part o) rx tx).

Definition ifaceReport (o : Options) (agg : InterfaceAggregator) : option Report :=
  match List.find (fun r => qeqb (if_name (ir_current r)) (op_iface o)) (ia_rows agg) with
  | None => Some (ExitUnknown, qarg (qs "interface '%1' not found") (op_iface o), dzero)
  | Some r => measured o (op_iface o) (metricValue (op_part o) (ir_rxRate r) (ir_txRate r))
  end.

(** One event; the aggregator's slot was connected first and runs first.
    [None]: a conversion that the language leaves undefined. *)
Definition check_step {A S} (o : Options) (update : Z -> list S -> A -> A) (report : A -> option Report) (what : QString) (hearsDenied : bool)
    (k : Check A) (e : CheckEvent S) : option (Check A) :=
  match e with
  | CeSample nowMs snapshot =>
      let k := mkCheck (ck_samples k + 1) (ck_finished k) (update nowMs snapshot (ck_agg k)) (ck_printed k) (ck_exit k) in
      if (ck_samples k <? 2)%Z || ck_finished k then Some k
      else r ← report (ck_agg k); Some (finish o r k)
  | CePermissionDenied detail =>
      Some (if hearsDenied then finish o (ExitUnknown, qarg (qs "permission denied: %1") detail, dzero) k else k)
  | CeTimeout => Some (finish o (ExitUnknown, what, dzero) k)
  end.

Definition check_run {A S} (o : Options) (update : Z -> list S -> A -> A) (report : A -> option Report) (what : QString) (hearsDenied : bool)
    (agg : A) (es : list (CheckEvent S)) : option (Check A) :=
  foldl (fun k e => k ← k; check_step o update report what hearsDenied k e) (Some (newCheck agg)) es.

Definition flowTimeoutText : QString := qs "timed out waiting for qiftop-agent connection data".
Definition ifaceTimeoutText : QString := qs "timed out waiting for qiftop-agent interface data".

(** [opts.timeoutSec * 1000] in [int]; [None] where it overflows. *)
Definition timeoutMs (o : Options) : option Z :=
  let ms := (op_timeoutSec o * 1000)%Z in if (ms <=? int32_max)%Z then Some ms else None.

Definition outcomeOf {A} (k : Check A) : Outcome :=
  match ck_exit k with Some c => Exited (ck_printed k) c | None => Waiting (ck_printed k) end.

Definition flowCheck (ports : Z * Z) (o : Options) (expr : option Expr) (es : list (CheckEvent Connection)) : option (Check Aggregator) :=
  check_run o (fun nowMs conns a => fst (updateConnections nowMs conns a)) (flowReport o expr) flowTimeoutText true
    (setPollIntervalMs (op_intervalMs o) (newAggregator ports)) es.

Definition ifaceCheck (o : Options) (es : list (CheckEvent InterfaceStats)) : option (Check InterfaceAggregator) :=
  check_run o (fun nowMs stats a => fst (updateStats nowMs stats a)) (ifaceReport o) ifaceTimeoutText false newIfaceAgg es.

(** [main]: the events of the monitor the options select. *)
Definition checkMain (ports : Z * Z) (args : list QString) (flows : list (CheckEvent Connection)) (ifaces : list (CheckEvent InterfaceStats))
    : option Outcome :=
  match parseOptions args with
  | inl err => Some (Exited [nagiosLine ExitUnknown err MetricTotal dzero dzero dzero false] ExitUnknown)
  | inr o =>
      if isEmpty (op_iface o) then
        let f := parse (op_filter o) in
        if negb (isEmpty (res_error f))
        then Some (Exited [nagiosLine ExitUnknown (qarg (qarg (qs "invalid filter at column %1: %2") (number (res_errorPos f + 1))) (res_error f))
                             (op_part o) dzero (op_warning o) (op_critical o) true] ExitUnknown)
        else _ ← timeoutMs o; k ← flowCheck ports o (res_expr f) flows; Some (outcomeOf k)
      else _ ← timeoutMs o; k ← ifaceCheck o ifaces; Some (outcomeOf k)
  end.
End Tool.

(* ------------------------------------------------------------------ *)
(** ** The first decisive event decides *)

Lemma qargs_line a b : qargs (qs "QIFTOP %1 - %2") [a; b] = qs "QIFTOP " ++ a ++ qs " - " ++ b.
Proof. transitivity (qs "QIFTOP " ++ a ++ qs " - " ++ b ++ []); [reflexivity|]. by rewrite app_nil_r. Qed.
Lemma qargs_perf a b c d : qargs (qs " | %1=%2B/s;%3;%4;0") [a; b; c; d] = qs " | " ++ a ++ qs "=" ++ b ++ qs "B/s;" ++ c ++ qs ";" ++ d ++ qs ";0".
Proof. reflexivity. Qed.
Lemma qargs_message a b c : qargs (qs "%1 %2 %3") [a; b; c] = a ++ qs " " ++ b ++ qs " " ++ c.
Proof. transitivity (a ++ qs " " ++ b ++ qs " " ++ c ++ []); [reflexivity|]. by rewrite app_nil_r. Qed.

Definition isSample {S} (e : CheckEvent S) : bool := match e with CeSample _ _ => true | _ => false end.
Definition sampleCount {S} (es : list (CheckEvent S)) : Z := Z.of_nat (length (filter (fun e => isSample e = true) es)).

(** Whether event [e], after [es], settles the check: a time-out, a refusal the
    check listens for, or the second sample. *)
Definition decisive {S} (hearsDenied : bool) (es : list (CheckEvent S)) (e : CheckEvent S) : bool :=
  match e with
  | CeSample _ _ => (1 <=? sampleCount es)%Z
  | CePermissionDenied _ => hearsDenied
  | CeTimeout => true
  end.
Fixpoint undecidedFrom {S} (hearsDenied : bool) (pre es : list (CheckEvent S)) : bool :=
  match es with [] => true | e :: es => negb (decisive hearsDenied pre e) && undecidedFrom hearsDenied (pre ++ [e]) es end.
Definition undecided {S} (hearsDenied : bool) (es : list (CheckEvent S)) : bool := undecidedFrom hearsDenied [] es.

Section Decision.
Context `{QtNumberText} {A S : Type} (o : Options) (update : Z -> list S -> A -> A) (report : A -> option Report) (what : QString) (hearsDenied : bool).

Abbreviation run := (check_run o update report what hearsDenied).
Abbreviation step := (check_step o update report what hearsDenied).

Definition aggOf (agg : A) (es : list (CheckEvent S)) : A :=
  foldl (fun a e => match e with CeSample nowMs s => update nowMs s a | _ => a end) agg es.

(** What the deciding event says. *)
Definition verdict (agg : A) (e : CheckEvent S) : option Report :=
  match e with
  | CeSample _ _ => report agg
  | CePermissionDenied detail => Some (ExitUnknown, qarg (qs "permission denied: %1") detail, dzero)
  | CeTimeout => Some (ExitUnknown, what, dzero)
  end.

Definition lineOf (r : Report) : QString :=
  nagiosLine (fst (fst r)) (snd (fst r)) (op_part o) (snd r) (op_warning o) (op_critical o) true.

Lemma sampleCount_snoc es e : sampleCount (es ++ [e]) = (sampleCount es + (if isSample (S := S) e then 1 else 0))%Z.
Proof. unfold sampleCount. rewrite filter_app, length_app. rewrite filter_cons, filter_nil. destruct (decide _), (isSample e); cbn; congruence || lia. Qed.

Lemma aggOf_snoc agg es e : aggOf agg (es ++ [e]) = match e with CeSample nowMs s => update nowMs s (aggOf agg es) | _ => aggOf agg es end.
Proof. unfold aggOf. by rewrite foldl_app. Qed.

Lemma run_snoc agg es e : run agg (es ++ [e]) = (k ← run agg es; step k e).
Proof. unfold check_run. by rewrite foldl_app. Qed.

Lemma undecidedFrom_app pre es e :
  undecidedFrom hearsDenied pre (es ++ [e]) = undecidedFrom hearsDenied pre es && negb (decisive (S := S) hearsDenied (pre ++ es) e).
Proof.
  revert pre. induction es as [|e' es IH]; intros pre; cbn [app undecidedFrom]; [by rewrite app_nil_r, andb_true_r|].
  rewrite IH, <- app_assoc. cbn [app]. by rewrite andb_assoc.
Qed.

(** Until then nothing is printed and the loop goes on. *)
Lemma run_undecided agg es :
  undecided hearsDenied es = true -> run agg es = Some (mkCheck (sampleCount es) false (aggOf agg es) [] None).
Proof.
  unfold undecided. induction es as [|e es IH] using rev_ind; intros Hu; [done|].
  rewrite undecidedFrom_app, andb_true_iff, negb_true_iff in Hu. destruct Hu as [Hu Hd]. cbn [app] in Hd.
  rewrite run_snoc, IH by done. cbn [mbind option_bind]. rewrite sampleCount_snoc, aggOf_snoc.
  destruct e as [nowMs s|detail|]; cbn [check_step decisive isSample ck_samples ck_finished ck_agg ck_printed ck_exit] in *; [|by rewrite Hd, Z.add_0_r|done].
  apply Z.leb_gt in Hd. destruct (Z.ltb_spec (sampleCount es + 1) 2); [done|lia].
Qed.

(** From then on nothing changes. *)
Lemma run_finished k es : ck_finished k = true ->
  foldl (fun k e => k ← k; step k e) (Some k) es =
    Some (mkCheck (ck_samples k + sampleCount es) true (aggOf (ck_agg k) es) (ck_printed k) (ck_exit k)).
Proof.
  revert k. induction es as [|e es IH] using rev_ind; intros k Hk.
  { cbn. destruct k; cbn in *. subst. by rewrite Z.add_0_r. }
  rewrite foldl_app. cbn [foldl]. rewrite IH by done. cbn [mbind option_bind]. rewrite sampleCount_snoc, aggOf_snoc.
  destruct e as [nowMs s|detail|]; cbn [check_step isSample ck_samples ck_finished ck_agg ck_printed ck_exit finish].
  - rewrite orb_true_r. by rewrite Z.add_assoc.
  - rewrite Z.add_0_r. by destruct hearsDenied.
  - by rewrite Z.add_0_r.
Qed.

Lemma run_decided agg pre e post :
  undecided hearsDenied pre = true -> decisive hearsDenied pre e = true ->
  run agg (pre ++ e :: post) =
    (r ← verdict (aggOf agg (pre ++ [e])) e;
     Some (mkCheck (sampleCount (pre ++ e :: post)) true (aggOf agg (pre ++ e :: post)) [lineOf r] (Some (fst (fst r))))).
Proof.
  intros Hu Hd. replace (pre ++ e :: post) with ((pre ++ [e]) ++ post) by (by rewrite <- app_assoc).
  unfold check_run. rewrite foldl_app. change (foldl _ (Some (newCheck agg)) (pre ++ [e])) with (run agg (pre ++ [e])).
  rewrite run_snoc, run_undecided by done. cbn [mbind option_bind]. rewrite aggOf_snoc.
  assert (Happ : forall (a : A) n r, ck_finished (finish o r (mkCheck n false a [] None)) = true /\
    finish o r (mkCheck n false a [] None) = mkCheck n true a [lineOf r] (Some (fst (fst r)))).
  { intros a n [[code msg] v]. by split. }
  assert (Hcount : (sampleCount (pre ++ [e]) + sampleCount post = sampleCount ((pre ++ [e]) ++ post))%Z).
  { unfold sampleCount. rewrite (filter_app _ (pre ++ [e])), length_app. lia. }
  assert (Hagg : aggOf (aggOf agg (pre ++ [e])) post = aggOf agg ((pre ++ [e]) ++ post)) by (unfold aggOf; by rewrite (foldl_app _ (pre ++ [e]))).
  rewrite sampleCount_snoc in Hcount. rewrite aggOf_snoc in Hagg.
  destruct e as [nowMs s|detail|]; cbn [check_step verdict decisive isSample ck_samples ck_finished ck_agg ck_printed ck_exit] in *.
  - rewrite orb_false_r. apply Z.leb_le in Hd. destruct (Z.ltb_spec (sampleCount pre + 1) 2); [lia|].
    destruct (report _) as [r|]; cbn [mbind option_bind].
    + destruct (Happ (update nowMs s (aggOf agg pre)) (sampleCount pre + 1)%Z r) as [Hf Heq]. rewrite run_finished by exact Hf. rewrite Heq.
      cbn [ck_samples ck_agg ck_printed ck_exit]. by rewrite Hcount, Hagg.
    + clear. induction post as [|e post IH]; [done|]. cbn [foldl mbind option_bind]. apply IH.
  - rewrite Z.add_0_r in Hcount. match goal with |- context [if hearsDenied then ?a else ?b] => replace (if hearsDenied then a else b) with a by (by rewrite Hd) end.
    destruct (Happ (aggOf agg pre) (sampleCount pre) (ExitUnknown, qarg (qs "permission denied: %1") detail, dzero)) as [Hf Heq].
    rewrite run_finished by exact Hf. rewrite Heq. cbn [ck_samples ck_agg ck_printed ck_exit mbind option_bind]. by rewrite Hcount, Hagg.
  - rewrite Z.add_0_r in Hcount. destruct (Happ (aggOf agg pre) (sampleCount pre) (ExitUnknown, what, dzero)) as [Hf Heq].
    rewrite run_finished by exact Hf. rewrite Heq. cbn [ck_samples ck_agg ck_printed ck_exit mbind option_bind]. by rewrite Hcount, Hagg.
Qed.
End Decision.

Lemma undecided_split {S} hears (es : list (CheckEvent S)) :
  undecided hears es = false -> exists pre e post, es = pre ++ e :: post /\ undecided hears pre = true /\ decisive hears pre e = true.
Proof.
  unfold undecided. induction es as [|e es IH] using rev_ind; [done|]. rewrite undecidedFrom_app. cbn [app].
  destruct (undecidedFrom hears [] es) eqn:Eu; cbn [andb].
  - rewrite negb_false_iff. intros Hd. by exists es, e, [].
  - intros _. destruct (IH eq_refl) as (pre & e' & post & -> & Hp & Hd). exists pre, e', (post ++ [e]). by rewrite <- app_assoc.
Qed.

Lemma timeout_decides {S} hears (es : list (CheckEvent S)) : CeTimeout ∈ es -> undecided hears es = false.
Proof.
  unfold undecided. generalize (@nil (CheckEvent S)). induction es as [|e es IH]; intros pre; [by rewrite elem_of_nil|].
  rewrite elem_of_cons. cbn [undecidedFrom]. intros [<-|Hin]; [done|]. by rewrite IH, andb_false_r.
Qed.

Section Outcome.
Context `{QtUnicode, QtAddrText, QtRegex, QtToDouble, QtIntText, QtNumberText, QHashOrder, StdSort}.

(** A check prints nothing until it is settled.  The second sample, a refusal
    the check listens for or the time-out, whichever is first, settles it:
    one line with its verdict, on the aggregator as it is then, and the exit
    code of that line.  Whatever comes later changes neither. *)
Theorem first_event_decides {A S} o (update : Z -> list S -> A -> A) report what hears agg pre e post :
  undecided hears pre = true ->
  outcomeOf <$> check_run o update report what hears agg pre = Some (Waiting []) /\
  (decisive hears pre e = true ->
   outcomeOf <$> check_run o update report what hears agg (pre ++ e :: post) =
     (r ← verdict report what (aggOf update agg (pre ++ [e])) e; Some (Exited [lineOf o r] (fst (fst r))))).
Proof.
  intros Hu. split; [by rewrite run_undecided|]. intros Hd. rewrite run_decided by done. by destruct (verdict _ _ _ _).
Qed.

(** A line with its state. *)
Definition says (line : QString) (c : ExitCode) : Prop := exists rest, line = qs "QIFTOP " ++ stateText c ++ qs " - " ++ rest ++ [10%Z].

Lemma nagiosLine_says c msg part v w cr b : says (nagiosLine c msg part v w cr b) c.
Proof. unfold nagiosLine. rewrite qargs_line. eexists (msg ++ if b then perfdata part v w cr else []). by rewrite <- !app_assoc. Qed.

#[local] Opaque nagiosLine.

(** What an outcome has to be: one line saying the code, or silence as long
    as no time-out fired. *)
Definition outcome_ok (timedOut : Prop) (out : Outcome) : Prop :=
  match out with Exited lines c => exists line, lines = [line] /\ says line c | Waiting lines => lines = [] /\ ~ timedOut end.

Lemma run_outcome_ok {A S} o (update : Z -> list S -> A -> A) report what hears agg es k :
  check_run o update report what hears agg es = Some k -> outcome_ok (CeTimeout ∈ es) (outcomeOf k).
Proof.
  destruct (undecided hears es) eqn:Eu.
  - rewrite run_undecided by done. intros [= <-]. cbn. split; [done|]. intros Ht. by rewrite timeout_decides in Eu.
  - destruct (undecided_split _ _ Eu) as (pre & e & post & -> & Hp & Hd). rewrite run_decided by done.
    destruct (verdict _ _ _ _) as [r|]; [|discriminate]. intros [= <-]. cbn [outcomeOf outcome_ok ck_exit ck_printed]. exists (lineOf o r). split; [reflexivity|]. unfold lineOf. apply nagiosLine_says.
Qed.

Lemma qarg_text c t x : c <> 37%Z -> qarg (c :: t) x <> [].
Proof. intros Hc. change (c :: t) with ([c] ++ t). rewrite qarg_prefix; [done|]. unfold noPct. set_solver. Qed.

(** An argument error has a text. *)
Lemma applyValue_error vo v o e : applyValue vo v o = inl e -> e <> [].
Proof.
  destruct vo; cbn [applyValue]; try (destruct (parseMetric v)); try (destruct (parseByteRate v)); try (destruct (positiveInt v));
    try discriminate; intros [= <-]; (apply qarg_text; done) || done.
Qed.

Lemma optionLoop_error args : forall o e, optionLoop args o = inl e -> e <> [].
Proof.
  induction args as [args IH] using (induction_ltof1 _ (@length QString)). unfold ltof in IH.
  destruct args as [|arg rest]; [done|]. intros o e. cbn [optionLoop]. destruct (qeqb arg _); [apply IH; cbn; lia|].
  destruct (valueOption arg) as [vo|]; [|intros [= <-]; by apply qarg_text].
  destruct rest as [|v rest]; [intros [= <-]; by apply qarg_text|]. destruct (applyValue vo v o) eqn:Ea; [intros [= <-]; by eapply applyValue_error|].
  apply IH. cbn. lia.
Qed.

Lemma parseOptions_error args e : parseOptions args = inl e -> e <> [].
Proof.
  unfold parseOptions. destruct (optionLoop _ _) eqn:El; [intros [= <-]; by eapply optionLoop_error|].
  unfold checkOptions. destruct (_ || _); [by intros [= <-]|]. destruct (dlt _ _); [by intros [= <-]|]. destruct (_ && _); [by intros [= <-]|done].
Qed.

End Outcome.

(* ------------------------------------------------------------------ *)
(** ** Options and thresholds *)

Section OptionProofs.
Context `{QtUnicodeLaws, QtToDouble, QtIntTextLaws}.

Definition isDigitOrLower (c : QChar) : bool := isDigit c || ((97 <=? c) && (c <=? 122))%Z.

Lemma plain_ascii s : forallb isDigitOrLower s = true -> Forall isAscii s.
Proof.
  intros Hs%Is_true_true. apply forallb_True in Hs. eapply Forall_impl; [done|]. cbn. intros c Hc%Is_true_true.
  unfold isDigitOrLower, isDigit, isAscii in *. lia.
Qed.

Lemma plain_noSpace s : forallb isDigitOrLower s = true -> Forall (fun c => isSpace c = false) s.
Proof.
  intros Hs. pose proof (plain_ascii s Hs) as Ha. apply Is_true_true, forallb_True in Hs. rewrite Forall_forall in Ha.
  apply Forall_forall. intros c Hc. rewrite isSpace_ascii by (by apply Ha). rewrite Forall_forall in Hs. specialize (Hs c Hc). apply Is_true_true in Hs.
  unfold isDigitOrLower, isDigit, ascii_isSpace in *. lia.
Qed.

Lemma plain_lower s : forallb isDigitOrLower s = true -> toLower s = s.
Proof.
  intros Hs. rewrite toLower_ascii by (by apply plain_ascii). apply Is_true_true, forallb_True in Hs.
  induction Hs as [|c s Hc _ IH]; [done|]. cbn. rewrite IH. f_equal. apply Is_true_true in Hc.
  unfold isDigitOrLower, isDigit, ascii_lower in *. destruct ((65 <=? c)%Z && (c <=? 90)%Z) eqn:E; lia.
Qed.

Lemma dropSpaces_plain c s : isSpace c = false -> dropSpaces (c :: s) = c :: s.
Proof. intros Hc. cbn. by rewrite Hc. Qed.

Lemma trimmed_id a b s t : a :: s = t ++ [b] -> isSpace a = false -> isSpace b = false -> trimmed (a :: s) = a :: s.
Proof.
  intros He Ha Hb. unfold trimmed. rewrite dropSpaces_plain by done. rewrite He, reverse_snoc, dropSpaces_plain, <- reverse_snoc by done.
  apply reverse_involutive.
Qed.

Lemma trimmed_noSpace s : Forall (fun c => isSpace c = false) s -> trimmed s = s.
Proof.
  intros Hs. destruct s as [|a s]; [done|]. destruct (exists_last (l := a :: s)) as (t & b & He); [done|]. apply (trimmed_id a b s t He).
  - by apply Forall_cons_1 in Hs as [Ha _].
  - rewrite He in Hs. apply Forall_app in Hs as [_ Hb]. by apply Forall_cons_1 in Hb as [Hb _].
Qed.

(** The suffix found is the one written, since a digit stands before it. *)
Lemma find_suffix rest d suf m :
  isDigit d = true -> (suf, m) ∈ rateSuffixes -> List.find (fun e => endsWith ((rest ++ [d]) ++ suf) (fst e)) rateSuffixes = Some (suf, m).
Proof.
  intros Hd Hin. unfold endsWith. rewrite reverse_app, reverse_app. change (reverse [d]) with [d]. generalize (reverse rest). intros r.
  assert (Hc : d ∈ seqZ 48 10) by (apply elem_of_seqZ; unfold isDigit in Hd; lia).
  change (seqZ 48 10) with [48; 49; 50; 51; 52; 53; 54; 55; 56; 57]%Z in Hc.
  unfold rateSuffixes in Hin. repeat (apply elem_of_cons in Hin as [Hin|Hin]; [injection Hin as -> ->|]); [..|by apply elem_of_nil in Hin].
  all: repeat (apply elem_of_cons in Hc as [->|Hc]); [..|by apply elem_of_nil in Hc]; reflexivity.
Qed.

Lemma dofZ_sign n : (0 <= n)%Z -> dlt (dofZ n) dzero = false.
Proof.
  intros Hn. unfold dofZ, binary_normalize. destruct n as [|p|p]; [done| |lia]. unfold binary_round. destruct (shl_align _ _ _) as [mz ez].
  unfold binary_round_aux. destruct (shr_fexp _ _ _ _ _) as [mrs e']. destruct (shr_fexp _ _ _ _ _) as [mrs'' e''].
  destruct (shr_m mrs''); [done| |done]. by destruct (_ <=? _)%Z.
Qed.

Lemma suffix_plain suf m : (suf, m) ∈ rateSuffixes -> forallb isDigitOrLower suf = true.
Proof.
  unfold rateSuffixes. intros Hin. repeat (apply elem_of_cons in Hin as [Hin|Hin]; [injection Hin as -> ->; reflexivity|]). by apply elem_of_nil in Hin.
Qed.

Lemma digits_plain n : (0 <= n)%Z -> forallb isDigitOrLower (number n) = true.
Proof.
  intros Hn. pose proof (number_digits n Hn) as Hd. apply Is_true_true, forallb_True. eapply Forall_impl; [done|]. cbn. intros c Hc.
  apply Is_true_true. unfold isDigitOrLower. by rewrite Hc.
Qed.

Lemma compacted_plain s : forallb isDigitOrLower s = true -> compacted s = s.
Proof. intros Hs. apply filter_all. by apply plain_noSpace. Qed.

(** The core: digits and a unit. *)
Lemma rate_of_text digits suf m n :
  digits <> [] -> Forall (fun c => isDigit c = true) digits -> qToDouble digits = Some (dofZ n) -> (0 <= n)%Z -> (suf, m) ∈ rateSuffixes ->
  (let '(s, multiplier) :=
     match List.find (fun e => endsWith (toLower (digits ++ suf)) (fst e)) rateSuffixes with
     | Some (suf', m') => (chop (length suf') (digits ++ suf), dofZ m')
     | None => (digits ++ suf, dofZ 1)
     end in
   match qToDouble s with None => None | Some n => if dlt n dzero then None else Some (dmul n multiplier) end) = Some (dmul (dofZ n) (dofZ m)).
Proof.
  intros Hne Hdig Hd Hn Hs. assert (Hp : forallb isDigitOrLower digits = true).
  { apply Is_true_true, forallb_True. eapply Forall_impl; [done|]. cbn. intros c Hc. apply Is_true_true. unfold isDigitOrLower. by rewrite Hc. }
  rewrite plain_lower by (rewrite forallb_app, Hp; by eapply suffix_plain). destruct (exists_last Hne) as (rest & d & ->).
  apply Forall_app in Hdig as [_ Hd1]. apply Forall_cons_1 in Hd1 as [Hd1 _]. rewrite (find_suffix rest d suf m) by done.
  unfold chop. rewrite length_app, Nat.add_sub, take_app_length. by rewrite Hd, dofZ_sign.
Qed.

Lemma slash_ascii : Forall isAscii (qs "/s").
Proof. change (qs "/s") with [47; 115]%Z. unfold isAscii. repeat (apply Forall_cons; split; [lia|]). by apply Forall_nil. Qed.

Lemma endsWithCI_plain s : forallb isDigitOrLower s = true -> endsWithCI s (qs "/s") = false.
Proof.
  intros Hs. unfold endsWithCI. rewrite !foldCase_ascii by (first [by apply plain_ascii|by apply slash_ascii]).
  rewrite <- (toLower_ascii s) by (by apply plain_ascii). rewrite plain_lower by done. destruct (prefixb _ _) eqn:E; [|done]. apply prefixb_spec in E as [t Ht].
  assert (Hin : 47%Z ∈ s). { apply elem_of_reverse. rewrite Ht. vm_compute (reverse _). set_solver. }
  apply Is_true_true, forallb_True in Hs. rewrite Forall_forall in Hs. specialize (Hs _ Hin). by apply Is_true_true in Hs.
Qed.

Lemma endsWithCI_slash s : Forall isAscii s -> endsWithCI (s ++ qs "/s") (qs "/s") = true.
Proof.
  intros Hs. pose proof slash_ascii as Hq.
  unfold endsWithCI. rewrite !foldCase_ascii by (done || by apply Forall_app). rewrite map_app, reverse_app. apply prefixb_spec. eauto.
Qed.

(** A decimal threshold with any of the units, with or without a space before
    it and with the time base, means that many bytes per second. *)
Theorem threshold_units n suf m :
  (0 <= n)%Z -> qToDouble (number n) = Some (dofZ n) -> (suf, m) ∈ rateSuffixes ->
  parseByteRate (number n ++ qs " " ++ suf ++ qs "/s") = Some (dmul (dofZ n) (dofZ m)) /\
  parseByteRate (number n ++ suf) = Some (dmul (dofZ n) (dofZ m)).
Proof.
  intros Hn Hd Hs. pose proof (digits_plain n Hn) as Hp. pose proof (suffix_plain _ _ Hs) as Hps. pose proof (number_digits n Hn) as Hdig.
  assert (Hplain : forallb isDigitOrLower (number n ++ suf) = true) by (rewrite forallb_app; by rewrite Hp, Hps).
  assert (Hne : number n <> []) by (intros En; pose proof (parseDec_number n Hn) as Hz; by rewrite En in Hz).
  pose proof (plain_noSpace _ Hplain) as Hsp. assert (Hslash : Forall (fun c => isSpace c = false) (qs "/s")).
  { change (qs "/s") with [47; 115]%Z. repeat (apply Forall_cons; split; [by rewrite isSpace_ascii by (unfold isAscii; lia)|]). by apply Forall_nil. }
  split; unfold parseByteRate.
  - destruct (number n) as [|a r] eqn:En; [done|]. rewrite <- app_comm_cons.
    rewrite (trimmed_id a 115 (r ++ qs " " ++ suf ++ qs "/s") ((a :: r) ++ qs " " ++ suf ++ qs "/")).
    2: by rewrite <- !app_assoc. 2: by apply Forall_cons_1 in Hsp as [Hsp _]. 2: by rewrite isSpace_ascii by (unfold isAscii; lia).
    rewrite app_comm_cons, <- En in *.
    assert (Hc : compacted (number n ++ qs " " ++ suf ++ qs "/s") = (number n ++ suf) ++ qs "/s").
    { unfold compacted. rewrite !filter_app. apply Forall_app in Hsp as [H1' H2']. rewrite (filter_all _ (number n)), (filter_all _ suf), (filter_all _ (qs "/s")) by done. change (qs " ") with [32%Z].
      rewrite filter_cons_False; [by rewrite filter_nil, <- app_assoc|]. by rewrite isSpace_ascii by (unfold isAscii; lia). }
    rewrite Hc. destruct ((number n ++ suf) ++ qs "/s") as [|x xs] eqn:Ex; [by destruct (number n)|]. cbn [isEmpty]. rewrite <- Ex.
    rewrite endsWithCI_slash by (by apply plain_ascii). assert (Hch : chop 2 ((number n ++ suf) ++ qs "/s") = number n ++ suf).
    { unfold chop. change 2 with (length (qs "/s")). by rewrite length_app, Nat.add_sub, take_app_length. }
    rewrite Hch. by apply rate_of_text.
  - rewrite trimmed_noSpace, compacted_plain by done. assert (Hemp : isEmpty (number n ++ suf) = false) by (by destruct (number n)). rewrite Hemp.
    rewrite endsWithCI_plain by done. by apply rate_of_text.
Qed.

(** Options a command line can ask for, with the texts of its thresholds. *)
Record options_ok (wt ct : QString) (o : Options) : Prop := {
  oo_metric : parseMetric (op_metricArg o) = Some (op_part o);
  oo_iface : trimmed (op_iface o) = op_iface o;
  oo_warning : parseByteRate wt = Some (op_warning o);
  oo_critical : parseByteRate ct = Some (op_critical o);
  oo_order : dlt (op_critical o) (op_warning o) = false;
  oo_have : op_haveWarning o = true /\ op_haveCritical o = true;
  oo_timeout : (0 < op_timeoutSec o <= int32_max)%Z;
  oo_interval : (0 < op_intervalMs o <= int32_max)%Z;
  oo_one : op_iface o = [] \/ op_filter o = [];
}.

Definition commandLine (wt ct : QString) (o : Options) : list QString :=
  [qs "check-qiftop"; qs "--metric"; op_metricArg o; qs "--iface"; op_iface o; qs "--filter"; op_filter o; qs "--warning"; wt; qs "--critical"; ct;
   qs "--timeout"; number (op_timeoutSec o); qs "--interval-ms"; number (op_intervalMs o)] ++ (if op_sessionBus o then [qs "--session"] else []).

Lemma positiveInt_number n : (0 < n <= int32_max)%Z -> positiveInt (number n) = Some n.
Proof. intros Hn. unfold positiveInt. rewrite intOfText_number by (unfold int32_max in *; lia). destruct (Z.leb_spec n 0); [lia|done]. Qed.

Lemma optionLoop_value arg vo v rest o :
  qeqb arg (qs "--session") = false -> valueOption arg = Some vo ->
  optionLoop (arg :: v :: rest) o = match applyValue vo v o with inl e => inl e | inr o => optionLoop rest o end.
Proof. intros Hs Hv. cbn [optionLoop]. by rewrite Hs, Hv. Qed.

(** The options a command line was written for are the options it gives. *)
Theorem options_roundtrip wt ct o : options_ok wt ct o -> parseOptions (commandLine wt ct o) = inr o.
Proof.
  intros [Hm Hi Hw Hc Ho [Hhw Hhc] Ht Hn H1']. unfold parseOptions, commandLine. cbn [app tl].
  rewrite (optionLoop_value _ VoMetric) by reflexivity. cbn [applyValue]. rewrite Hm.
  rewrite (optionLoop_value _ VoIface) by reflexivity. cbn [applyValue]. rewrite Hi.
  rewrite (optionLoop_value _ VoFilter) by reflexivity. cbn [applyValue].
  rewrite (optionLoop_value _ VoWarning) by reflexivity. cbn [applyValue]. rewrite Hw.
  rewrite (optionLoop_value _ VoCritical) by reflexivity. cbn [applyValue]. rewrite Hc.
  rewrite (optionLoop_value _ VoTimeout) by reflexivity. cbn [applyValue]. rewrite positiveInt_number by done.
  rewrite (optionLoop_value _ VoInterval) by reflexivity. cbn [applyValue]. rewrite positiveInt_number by done.
  destruct o as [part arg iface filt w c hw hc session t n]. cbn in Hhw, Hhc, Ho, H1'. subst hw hc.
  assert (Hand : negb (isEmpty iface) && negb (isEmpty filt) = false) by (destruct H1' as [-> | ->]; [done|by rewrite andb_false_r]).
  unfold checkOptions. destruct session; cbn [op_sessionBus optionLoop];
    [change (qeqb (qs "--session") (qs "--session")) with true|]; cbn -[dlt isEmpty]; by rewrite Ho, Hand.
Qed.
End OptionProofs.

(* ------------------------------------------------------------------ *)
(** ** Where the check does less than it says *)

Section Findings.
Context `{QtUnicodeLaws, QtToDouble, QtIntText, QtNumberText}.

(** [QString::toDouble] reads nan: then both thresholds are accepted and no
    value reaches them. *)
Theorem nan_threshold_never_alarms :
  qToDouble (qs "nan") = Some S754_nan ->
  exists o, parseOptions [qs "check-qiftop"; qs "--warning"; qs "nan"; qs "--critical"; qs "nan"] = inr o /\
    forall value, statusFor value (op_warning o) (op_critical o) = ExitOk.
Proof.
  intros Hn. assert (Hp : parseByteRate (qs "nan") = Some S754_nan).
  { assert (Hplain : forallb isDigitOrLower (qs "nan") = true) by reflexivity.
    unfold parseByteRate. rewrite trimmed_noSpace, compacted_plain by (done || by apply plain_noSpace). cbn [isEmpty qs].
    change [110; 97; 110]%Z with (qs "nan"). rewrite endsWithCI_plain, plain_lower by done.
    replace (List.find _ rateSuffixes) with (@None (QString * Z)) by (by vm_compute). by rewrite Hn. }
  eexists. split.
  - unfold parseOptions. cbn [tl]. rewrite (optionLoop_value _ VoWarning) by reflexivity. cbn [applyValue]. rewrite Hp.
    rewrite (optionLoop_value _ VoCritical) by reflexivity. cbn [applyValue]. rewrite Hp. reflexivity.
  - intros value. cbn. unfold statusFor. destruct value; done.
Qed.

(** A time-out of more than 2147483 seconds is accepted, and then multiplied
    beyond the range of [int]. *)
Theorem timeout_overflows n o :
  (2147483 < n <= int32_max)%Z -> intOfText (number n) = Some n ->
  exists o', optionLoop [qs "--timeout"; number n] o = inr o' /\ timeoutMs o' = None.
Proof.
  intros Hn Ht. rewrite (optionLoop_value _ VoTimeout) by reflexivity. cbn [applyValue]. unfold positiveInt. rewrite Ht.
  destruct (Z.leb_spec n 0); [lia|]. eexists. split; [reflexivity|]. unfold timeoutMs. cbn. destruct (Z.leb_spec (n * 1000) int32_max); [unfold int32_max in *; lia|done].
Qed.

(** The bars in a line; the first one ends the text for the scheduler. *)
Definition bars (s : QString) : nat := length (filter (fun c => c = 124%Z) s).

Lemma bars_app a b : bars (a ++ b) = bars a + bars b.
Proof. unfold bars. by rewrite filter_app, length_app. Qed.

(** The filter is copied into the text: when it has a bar, as an alternation
    in a pattern has, the line has more than one. *)
Theorem filter_bar_breaks_perfdata o value r :
  124%Z ∈ op_filter o -> measured o (flowSubject o) value = Some r -> 2 <= bars (lineOf o r).
Proof.
  intros Hbar. unfold measured. destruct (formatByteRate value) as [t|]; [|discriminate]. intros [= <-]. unfold lineOf. cbn [fst snd].
  unfold nagiosLine, perfdata. rewrite qargs_line, qargs_message, qargs_perf, !bars_app. change (bars (qs " | ")) with 1.
  enough (Hs : 1 <= bars (flowSubject o)) by lia.
  assert (Hin : 124%Z ∈ flowSubject o).
  { unfold flowSubject. destruct (op_filter o) as [|c f] eqn:Ef; [by apply elem_of_nil in Hbar|]. cbn [isEmpty]. rewrite <- Ef in *.
    change (qs "flows[%1]") with (qs "flows[" ++ qs "%1]"). rewrite qarg_prefix by (unfold noPct; vm_compute (qs _); set_solver).
    rewrite elem_of_app. right. change (qarg (qs "%1]") (op_filter o)) with (op_filter o ++ qs "]"). set_solver. }
  apply elem_of_Permutation in Hin as [l Hl]. unfold bars. rewrite Hl, filter_cons_True by done. cbn. lia.
Qed.
End Findings.

(* ------------------------------------------------------------------ *)
(** ** Witnesses *)

#[local] Instance wholeText : QtNumberText := fun d _ => match dtrunc d with Some z => number z | None => qs "inf" end.
#[local] Instance literalToDouble : QtToDouble := fun s => if qeqb s (qs "nan") then Some S754_nan else dofZ <$> parseDec s.
#[local] Instance infixRegex : QtRegex := {| rxIsValid _ := true; rxErrorString _ := []; rxHasMatch pat s := infixb pat s |}.

Lemma threshold_units_witness : parseByteRate (qs "20 kib/s") = Some (dofZ 20480).
Proof.
  destruct (threshold_units 20 (qs "kib") 1024) as [Hp _]; [lia|by vm_compute| |].
  { unfold rateSuffixes. do 12 (apply elem_of_cons; right). apply elem_of_cons. by left. }
  change (qs "20 kib/s") with (number 20 ++ qs " " ++ qs "kib" ++ qs "/s"). rewrite Hp. by vm_compute.
Defined.

Definition sampleOptions : Options :=
  mkOptions MetricRx (qs "rx") (qs "eth0") [] (dofZ 1000) (dofZ 2000) true true true 5 500.
Lemma options_roundtrip_witness : parseOptions (commandLine (qs "1k") (qs "2k") sampleOptions) = inr sampleOptions.
Proof.
  apply options_roundtrip. split; try (by vm_compute); by right.
Defined.

Lemma nan_threshold_never_alarms_witness :
  exists o, parseOptions [qs "check-qiftop"; qs "--warning"; qs "nan"; qs "--critical"; qs "nan"] = inr o /\
    statusFor (dofZ 1000000) (op_warning o) (op_critical o) = ExitOk.
Proof. destruct nan_threshold_never_alarms as (o & Ho & Hs); [by vm_compute|]. exists o. split; [exact Ho|apply Hs]. Defined.

Lemma timeout_overflows_witness :
  exists o', optionLoop [qs "--timeout"; number 3000000] defaultOptions = inr o' /\ timeoutMs o' = None.
Proof. apply timeout_overflows; [unfold int32_max; lia|by vm_compute]. Defined.

Definition barOptions : Options := op_set_filter (qs "comm~a|b") sampleOptions.
Lemma filter_bar_breaks_perfdata_witness :
  exists r, measured barOptions (flowSubject barOptions) (dofZ 10) = Some r /\ 2 <= bars (lineOf barOptions r).
Proof.
  destruct (measured barOptions (flowSubject barOptions) (dofZ 10)) as [r|] eqn:Er; [|by vm_compute in Er].
  exists r. split; [done|]. apply (filter_bar_breaks_perfdata barOptions (dofZ 10) r); [|exact Er].
  unfold barOptions. cbn. do 6 (apply elem_of_cons; right). apply elem_of_cons. by left.
Defined.

Definition eth0 (rx : Z) : InterfaceStats := sampleIface "eth0" rx.
Definition ifaceSamples : list (CheckEvent InterfaceStats) := [CeSample 1000 [eth0 0]; CeSample 2000 [eth0 1500]; CeTimeout].

(** 1500 bytes in one second are over the warning of 1000. *)
Lemma first_event_decides_witness :
  outcomeOf <$> ifaceCheck sampleOptions ifaceSamples = Some (Exited [qs "QIFTOP WARNING - eth0 rx 1 KiB/s | rx_rate=1500B/s;1000;2000;0" ++ [10%Z]] ExitWarning).
Proof.
  unfold ifaceCheck.
  destruct (first_event_decides sampleOptions (fun nowMs stats a => fst (updateStats nowMs stats a)) (ifaceReport sampleOptions) ifaceTimeoutText false newIfaceAgg
              [CeSample 1000 [eth0 0]] (CeSample 2000 [eth0 1500]) [CeTimeout]) as [_ Hd]; [by vm_compute|].
  change ifaceSamples with ([CeSample 1000 [eth0 0]] ++ CeSample 2000 [eth0 1500] :: [CeTimeout]). rewrite Hd by (by vm_compute). by vm_compute.
Defined.

Definition checkArgs : list QString := map qs ["check-qiftop"; "--iface"; "eth0"; "--metric"; "rx"; "--warning"; "1k"; "--critical"; "2k"].
