(* ===== verification/GuiModel.v ===== *)
(** * The item models and filters of the graphical interface

    [src/ui/ConnectionModel.{h,cpp}] and [src/ui/NetworkModel.{h,cpp}]: what a
    cell answers for each role, and the aggregators' signals turned into the
    item-model protocol; [src/ui/ConnectionFilterProxy.{h,cpp}] and
    [src/ui/InterfaceFilterProxy.{h,cpp}]: which rows pass.

    The palette is an argument, as is the DNS cache; [QSortFilterProxyModel]
    is Qt's, so that a filter is its acceptance predicate and the requests to
    apply it again.  [None] stands for a conversion that the language leaves
    undefined. *)

From S2P Require Import Prelude Qt StdAlgo Conn Heuristics DbusTypes Filter Units UdpAgg Aggregator AggregatorProofs AggregatorRun.
From S2P Require Import IfaceAgg GroupProxy CheckTool.

(** The application's palette: whether the base colour is dark, and the text
    colour of disabled items. *)
Record Palette := mkPalette { pal_dark : bool; pal_disabledText : Z * Z * Z }.

Definition themed (p : Palette) (dark light : Z * Z * Z) : QVariant :=
  let '(r, g, b) := if pal_dark p then dark else light in VColor r g b.

(* ------------------------------------------------------------------ *)
(** ** The flow model *)

Record ConnectionModel := mkConnModel {
  cm_agg : Aggregator;
  cm_tintRowByDirection : bool;
  cm_gaugeEnabled : bool;
  cm_showContainerChainInTooltip : bool;
}.

Definition newConnModel (range : Z * Z) : ConnectionModel := mkConnModel (newAggregator range) false false true.

Definition kGaugeWarmupSamples : Z := 4.

Definition ifaceOrDash (s : QString) : QString := if isEmpty s then emDash else s.
Definition orQuery (s : QString) : QString := if isEmpty s then qs "?" else htmlEscaped s.

Definition containerDisplay (ci : ContainerInfo) : QString :=
  if negb (isEmpty (ci_name ci)) then ci_name ci else qleft 12 (ci_id ci).
Definition containerShort (ci : ContainerInfo) : QString :=
  if isEmpty (ci_runtime ci) then containerDisplay ci else qargs (qs "%1:%2") [ci_runtime ci; containerDisplay ci].
Definition hostContainer (ci : ContainerInfo) : bool := isEmpty (ci_runtime ci) && isEmpty (ci_name ci) && isEmpty (ci_id ci).

Definition processText (c : Connection) : QString :=
  let p := c_process c in
  if (0 <? pi_pid p)%Z then
    let name := if isEmpty (pi_comm p) then qarg (qs "pid %1") (number (pi_pid p)) else pi_comm p in
    qarg (qarg (qs "%1  [%2]") name) (number (pi_pid p))
  else match c_reason c with
       | Forwarded => emDash ++ qs " forwarded " ++ emDash
       | Orphaned => emDash ++ qs " orphaned " ++ emDash
       | NoLocalSocket => emDash ++ qs " no socket " ++ emDash
       | Resolved => emDash
       end.

Definition containerText (c : Connection) : QString :=
  let ci := c_container c in
  if hostContainer ci then qs "(host)"
  else if 2 <=? length (c_containerChain c) then qarg (qs "%1  " ++ [9656%Z]) (containerShort ci) else containerShort ci.

Definition processToolTip (c : Connection) : QString :=
  let p := c_process c in
  if (pi_pid p <=? 0)%Z then
    match c_reason c with
    | Forwarded => qs "Forwarded flow " ++ emDash ++ qs " routed/NAT through this host; neither endpoint is local, so there is no local process to attribute."
    | Orphaned => qs "Orphaned flow " ++ emDash ++ qs " the TCP connection is tearing down and its socket is already gone, so it has no owning process."
    | NoLocalSocket => qs "No local socket " ++ emDash ++ qs " the owning socket wasn't found (a closed UDP flow still in conntrack, a kernel socket, or a process in a namespace the resolver can't reach)."
    | Resolved => qs "Unattributed flow"
    end
  else
    qarg (qarg (qarg (qs "<qt>pid: %1<br>comm: %2<br>uid: %3<br><br>Right-click " ++ [8594%Z] ++ qs " Details for cmdline / exe / cwd</qt>")
                (number (pi_pid p))) (orQuery (pi_comm p))) (number (pi_uid p)).

Definition chainLine (ci : ContainerInfo) : QString :=
  qargs (qs "<br>&nbsp;&nbsp;" ++ [8226%Z] ++ qs " %1:%2") [orQuery (ci_runtime ci); htmlEscaped (containerDisplay ci)].

Definition containerToolTip (showChain : bool) (c : Connection) : QString :=
  let ci := c_container c in
  if hostContainer ci then qs "Host process (no container)"
  else
    let s := qargs (qs "runtime: %1<br>id: %2<br>name: %3") [orQuery (ci_runtime ci); orQuery (ci_id ci); orQuery (ci_name ci)] in
    let s := if (2 <=? length (c_containerChain c)) && showChain
             then s ++ qs "<br><br>Nesting (outer " ++ [8594%Z] ++ qs " inner):" ++ concat (map chainLine (c_containerChain c)) else s in
    qarg (qs "<qt>%1</qt>") s.

(** [qBound(lo, v, hi)]: [qMax(lo, qMin(hi, v))]. *)
Definition qBound (lo v hi : double) : double :=
  let m := if dlt hi v then hi else v in if dlt lo m then m else lo.

Definition rowGauge (s : AggSettings) (r : Row) : double :=
  if (r_samples r <? kGaugeWarmupSamples)%Z then dzero
  else
    let ref := dadd (rxReference s r) (txReference s r) in
    if dle ref dzero then dzero else qBound dzero (ddiv (dadd (ch_rate (r_rx r)) (ch_rate (r_tx r))) ref) (dofZ 1).

Definition alignLeft : QVariant := VInt 129.    (* Qt::AlignLeft | Qt::AlignVCenter *)
Definition alignRight : QVariant := VInt 130.

Section Model.
Context `{QtUnicode, QtAddrText, QtRegex, QtToDouble, QtNumberText, CMath, QHashOrder, StdSort} (dnsCachedName : nat -> QHostAddress -> QString).

Definition maxText (r : Row) (reference : double) : option QString :=
  if (r_samples r <? kGaugeWarmupSamples)%Z then Some emDash
  else if dlt dzero reference then formatByteRate reference else Some emDash.

Definition flowText (s : AggSettings) (c : Connection) : QString :=
  qargs (qs "%1  %2 " ++ [8594%Z] ++ qs " %3") [protoLabel s c; endpointText dnsCachedName s (c_local c); endpointText dnsCachedName s (c_remote c)].

Definition displayText (s : AggSettings) (r : Row) (col : Column) : option QString :=
  let c := r_current r in
  match col with
  | ColIface => Some (ifaceOrDash (c_iface c))
  | ColFlow => Some (flowText s c)
  | ColRxRate => formatByteRate (ch_rate (r_rx r))
  | ColTxRate => formatByteRate (ch_rate (r_tx r))
  | ColRxTotal => Some (formatBytes (c_rxBytes c))
  | ColTxTotal => Some (formatBytes (c_txBytes c))
  | ColRxMax => maxText r (rxReference s r)
  | ColTxMax => maxText r (txReference s r)
  | ColProcess => Some (processText c)
  | ColContainer => Some (containerText c)
  end.

Definition connSortValue (s : AggSettings) (r : Row) (col : Column) : QVariant :=
  let c := r_current r in
  match col with
  | ColIface => VString (c_iface c)
  | ColFlow => VString (addrToString (ep_address (c_remote c)))
  | ColRxRate => VDouble (ch_rate (r_rx r))
  | ColTxRate => VDouble (ch_rate (r_tx r))
  | ColRxTotal => VULongLong (c_rxBytes c)
  | ColTxTotal => VULongLong (c_txBytes c)
  | ColRxMax => VDouble (rxReference s r)
  | ColTxMax => VDouble (txReference s r)
  | ColProcess => VULongLong (u64 (pi_pid (c_process c)))
  | ColContainer =>
      let ci := c_container c in
      VString (if negb (isEmpty (ci_name ci)) then ci_name ci else if negb (isEmpty (ci_id ci)) then ci_id ci else 1%Z :: qs "(host)")
  end.

(** The colours of a direction: forwarded, outbound, inbound. *)
Definition byDirection {A} (s : AggSettings) (c : Connection) (forwarded outbound inbound : A) : option A :=
  if aggIsForwardedFlow s c then Some forwarded
  else match c_direction c with Outbound => Some outbound | Inbound => Some inbound | _ => None end.

Definition gaugeColor (p : Palette) (m : ConnectionModel) (c : Connection) : QVariant :=
  let grey := themed p (90, 90, 90)%Z (190, 190, 190)%Z in
  if cm_tintRowByDirection m
  then default grey (byDirection (ag_settings (cm_agg m)) c (themed p (130, 110, 40)%Z (235, 215, 130)%Z)
                       (themed p (60, 130, 60)%Z (170, 220, 170)%Z) (themed p (140, 60, 60)%Z (240, 180, 180)%Z))
  else grey.

Definition backgroundColor (p : Palette) (m : ConnectionModel) (c : Connection) : QVariant :=
  if cm_tintRowByDirection m then
    default VInvalid
      (if cm_gaugeEnabled m
       then byDirection (ag_settings (cm_agg m)) c (themed p (45, 40, 22)%Z (252, 248, 230)%Z)
              (themed p (28, 50, 28)%Z (235, 250, 235)%Z) (themed p (50, 28, 28)%Z (252, 235, 235)%Z)
       else byDirection (ag_settings (cm_agg m)) c (themed p (60, 52, 28)%Z (248, 240, 200)%Z)
              (themed p (36, 70, 36)%Z (220, 245, 220)%Z) (themed p (70, 36, 36)%Z (250, 220, 220)%Z))
  else VInvalid.

Definition foregroundColor (p : Palette) (r : Row) (col : option Column) : QVariant :=
  let c := r_current r in
  if r_stale r then let '(x, y, z) := pal_disabledText p in VColor x y z
  else match col with
       | Some ColProcess =>
           if (pi_pid (c_process c) <=? 0)%Z then
             match c_reason c with
             | Forwarded => themed p (120, 170, 235)%Z (40, 100, 190)%Z
             | Orphaned => themed p (215, 170, 90)%Z (160, 110, 20)%Z
             | NoLocalSocket => themed p (150, 150, 150)%Z (120, 120, 120)%Z
             | Resolved => VInvalid
             end
           else VInvalid
       | _ => VInvalid
       end.

(** [data] of a row of the table. *)
Definition rowData (p : Palette) (m : ConnectionModel) (r : Row) (column : Z) (role : Role) : option QVariant :=
  let s := ag_settings (cm_agg m) in
  let c := r_current r in
  let col := columnOf column in
  match role with
  | DisplayRole => match col with Some k => VString <$> displayText s r k | None => Some VInvalid end
  | SortRole => Some (match col with Some k => connSortValue s r k | None => VInvalid end)
  | IsIPv6Role => Some (VBool (isIPv6 (c_local c) || isIPv6 (c_remote c)))
  | ProtoTextRole => Some (VString (protoLabel s c))
  | ProtoRole => Some (VInt (protoInt (c_proto c)))
  | LocalTextRole => Some (VString (endpointText dnsCachedName s (c_local c)))
  | RemoteTextRole => Some (VString (endpointText dnsCachedName s (c_remote c)))
  | IsStaleRole => Some (VBool (r_stale r))
  | IfaceNameRole => Some (VString (c_iface c))
  | DirectionRole => Some (VInt (directionInt (c_direction c)))
  | ConnectionRole => Some (VConnection c)
  | RxRateRole => Some (VDouble (ch_rate (r_rx r)))
  | TxRateRole => Some (VDouble (ch_rate (r_tx r)))
  | HostnameLocalRole => Some (VString (cachedHostname dnsCachedName s (ep_address (c_local c))))
  | HostnameRemoteRole => Some (VString (cachedHostname dnsCachedName s (ep_address (c_remote c))))
  | ProcessPidRole => Some (VInt (pi_pid (c_process c)))
  | ProcessCommRole => Some (VString (pi_comm (c_process c)))
  | ContainerRuntimeRole => Some (VString (ci_runtime (c_container c)))
  | ContainerIdRole => Some (VString (ci_id (c_container c)))
  | ContainerNameRole => Some (VString (ci_name (c_container c)))
  | ContainerChainRole => Some (VStringList (map containerShort (c_containerChain c)))
  | ToolTipRole =>
      Some (match col with
            | Some ColProcess => VString (processToolTip c)
            | Some ColContainer => VString (containerToolTip (cm_showContainerChainInTooltip m) c)
            | _ => VInvalid
            end)
  | GaugeFractionRole => Some (if cm_gaugeEnabled m then VDouble (rowGauge s r) else VInvalid)
  | GaugeDarkColorRole => Some (if cm_gaugeEnabled m then gaugeColor p m c else VInvalid)
  | FontRole => Some (VFont false (r_stale r))
  | ForegroundRole => Some (foregroundColor p r col)
  | BackgroundRole => Some (backgroundColor p m c)
  | TextAlignmentRole => Some (match col with Some ColFlow | Some ColIface => alignLeft | _ => alignRight end)
  | GroupChipsRole | OtherRole _ => Some VInvalid
  end.

(** [data(index, role)] of a top-level index. *)
Definition connData (p : Palette) (m : ConnectionModel) (row column : Z) (role : Role) : option QVariant :=
  match rowAt (cm_agg m) row with None => Some VInvalid | Some r => rowData p m r column role end.

Definition connRowCount (m : ConnectionModel) : Z := Z.of_nat (length (ag_rows (cm_agg m))).
End Model.

Definition columnTitle (col : Column) : QString :=
  match col with
  | ColIface => qs "Iface" | ColFlow => qs "Flow" | ColRxRate => qs "RX rate" | ColTxRate => qs "TX rate"
  | ColRxTotal => qs "RX total" | ColTxTotal => qs "TX total" | ColRxMax => qs "Max RX" | ColTxMax => qs "Max TX"
  | ColProcess => qs "Process" | ColContainer => qs "Container"
  end.
Definition connHeader (section : Z) (horizontal : bool) (role : Role) : QVariant :=
  if negb horizontal || negb (bool_decide (role = DisplayRole)) then VInvalid
  else match columnOf section with Some col => VString (columnTitle col) | None => VInvalid end.

(* ------------------------------------------------------------------ *)
(** ** Aggregator signals as item-model signals *)

Inductive ModelSignal :=
| BeginInsertRows (first last : Z) | EndInsertRows
| BeginRemoveRows (first last : Z) | EndRemoveRows
| BeginResetModel | EndResetModel
| ModelDataChanged (first last : Z) (firstCol lastCol : Z) (roles : list Role).

Definition lastConnColumn : Z := 9.

(** The lambdas of the constructor.  [n] is the row count when one runs; an
    open bracket will change it by [k]. *)
Fixpoint connSignals (n k : Z) (sigs : list AggSignal) : list ModelSignal :=
  match sigs with
  | [] => []
  | rowsAboutToBeInserted a b :: sigs => BeginInsertRows a b :: connSignals n (b - a + 1) sigs
  | rowsInserted :: sigs => EndInsertRows :: connSignals (n + k) 0 sigs
  | rowsAboutToBeRemoved a b :: sigs => BeginRemoveRows a b :: connSignals n (- (b - a + 1)) sigs
  | rowsRemoved :: sigs => EndRemoveRows :: connSignals (n + k) 0 sigs
  | rowsUpdated a b :: sigs => ModelDataChanged a b 0 lastConnColumn [] :: connSignals n k sigs
  | viewDataChanged :: sigs =>
      (if (0 <? n)%Z then [ModelDataChanged 0 (n - 1) 0 lastConnColumn []] else []) ++ connSignals n k sigs
  | _ :: sigs => connSignals n k sigs
  end.

Inductive ConnModelEvent :=
| CmAggregator (ev : AggEvent)
| CmSetTintRowByDirection (v : bool)
| CmSetThroughputGaugeEnabled (v : bool)
| CmSetShowContainerChainInTooltip (v : bool).

Definition repaint (n : Z) (roles : list Role) : list ModelSignal :=
  if (0 <? n)%Z then [ModelDataChanged 0 (n - 1) 0 lastConnColumn roles] else [].

Section ModelRun.
Context `{QtAddrText, QHashOrder}.

Definition setTintRowByDirection (v : bool) (m : ConnectionModel) : ConnectionModel * list ModelSignal :=
  if Bool.eqb v (cm_tintRowByDirection m) then (m, [])
  else (mkConnModel (cm_agg m) v (cm_gaugeEnabled m) (cm_showContainerChainInTooltip m), repaint (connRowCount m) [BackgroundRole]).

Definition setThroughputGaugeEnabled (v : bool) (m : ConnectionModel) : ConnectionModel * list ModelSignal :=
  if Bool.eqb v (cm_gaugeEnabled m) then (m, [])
  else (mkConnModel (cm_agg m) (cm_tintRowByDirection m) v (cm_showContainerChainInTooltip m), repaint (connRowCount m) []).

Definition connModelStep (m : ConnectionModel) (e : ConnModelEvent) : ConnectionModel * list ModelSignal :=
  match e with
  | CmAggregator ev =>
      let '(a, sigs) := agg_step (cm_agg m) ev in
      (mkConnModel a (cm_tintRowByDirection m) (cm_gaugeEnabled m) (cm_showContainerChainInTooltip m),
       connSignals (connRowCount m) 0 sigs)
  | CmSetTintRowByDirection v => setTintRowByDirection v m
  | CmSetThroughputGaugeEnabled v => setThroughputGaugeEnabled v m
  | CmSetShowContainerChainInTooltip v => (mkConnModel (cm_agg m) (cm_tintRowByDirection m) (cm_gaugeEnabled m) v, [])
  end.

Fixpoint connModelRun (m : ConnectionModel) (es : list ConnModelEvent) : ConnectionModel * list ModelSignal :=
  match es with
  | [] => (m, [])
  | e :: es => let '(m1, o1) := connModelStep m e in let '(m2, o2) := connModelRun m1 es in (m2, o1 ++ o2)
  end.
End ModelRun.

(* ------------------------------------------------------------------ *)
(** ** The interface model *)

Inductive NetColumn := NcName | NcRxRate | NcTxRate | NcRxTotal | NcTxTotal | NcStatus.
Definition netColumns : list NetColumn := [NcName; NcRxRate; NcTxRate; NcRxTotal; NcTxTotal; NcStatus].
Definition netColumnOf (z : Z) : option NetColumn := if (z <? 0)%Z then None else netColumns !! Z.to_nat z.

Inductive NetRole := NrDisplay | NrSort | NrTextAlignment | NrIsLoopback | NrIsUp | NrGaugeFraction | NrGaugeDarkColor | NrDetails | NrOther (n : Z).
#[global] Instance NetRole_eq_dec : EqDecision NetRole. Proof. solve_decision. Defined.

Record NetworkModel := mkNetModel { nm_agg : InterfaceAggregator; nm_gaugeEnabled : bool }.
Definition newNetModel : NetworkModel := mkNetModel newIfaceAgg false.

Section NetModel.
Context `{QtNumberText, CMath, StdSort}.

Definition viewScale (rows : list IfaceRow) : double :=
  niceScale (foldl (fun mx r => if if_isLoopback (ir_current r) then mx else dmax mx (dadd (ir_rxRate r) (ir_txRate r))) dzero rows).

Definition netDetails (s : InterfaceStats) : QString :=
  qjoin (qs ", ")
    ((if isEmpty (if_type s) then [] else [if_type s])
     ++ (if (0 <? if_mtu s)%Z then [qarg (qs "MTU %1") (number (if_mtu s))] else [])
     ++ (if isEmpty (if_addresses s) then [] else [qjoin (qs ", ") (if_addresses s)])).

Definition netDisplay (r : IfaceRow) (col : NetColumn) : option QString :=
  match col with
  | NcName => Some (if_name (ir_current r))
  | NcRxRate => formatByteRate (ir_rxRate r)
  | NcTxRate => formatByteRate (ir_txRate r)
  | NcRxTotal => Some (formatBytes (if_rxBytes (ir_current r)))
  | NcTxTotal => Some (formatBytes (if_txBytes (ir_current r)))
  | NcStatus => Some (if if_isLoopback (ir_current r) then qs "loopback" else if if_isUp (ir_current r) then qs "up" else qs "down")
  end.

Definition netSort (r : IfaceRow) (col : NetColumn) : QVariant :=
  match col with
  | NcName => VString (if_name (ir_current r))
  | NcRxRate => VDouble (ir_rxRate r)
  | NcTxRate => VDouble (ir_txRate r)
  | NcRxTotal => VULongLong (if_rxBytes (ir_current r))
  | NcTxTotal => VULongLong (if_txBytes (ir_current r))
  | NcStatus => VInt (if if_isUp (ir_current r) then 1 else 0)
  end.

Definition netRowData (p : Palette) (m : NetworkModel) (r : IfaceRow) (column : Z) (role : NetRole) : option QVariant :=
  let col := netColumnOf column in
  match role with
  | NrDisplay => match col with Some k => VString <$> netDisplay r k | None => Some VInvalid end
  | NrSort => Some (match col with Some k => netSort r k | None => VInvalid end)
  | NrTextAlignment => Some (match col with Some NcName | Some NcStatus => alignLeft | _ => alignRight end)
  | NrIsLoopback => Some (VBool (if_isLoopback (ir_current r)))
  | NrIsUp => Some (VBool (if_isUp (ir_current r)))
  | NrGaugeFraction =>
      Some (if nm_gaugeEnabled m
            then VDouble (gaugeFraction (dadd (ir_rxRate r) (ir_txRate r)) (viewScale (ia_rows (nm_agg m)))) else VInvalid)
  | NrGaugeDarkColor => Some (if nm_gaugeEnabled m then themed p (90, 90, 90)%Z (190, 190, 190)%Z else VInvalid)
  | NrDetails => Some (VString (netDetails (ir_current r)))
  | NrOther _ => Some VInvalid
  end.

Definition netData (p : Palette) (m : NetworkModel) (row column : Z) (role : NetRole) : option QVariant :=
  if (row <? 0)%Z then Some VInvalid
  else match ia_rows (nm_agg m) !! Z.to_nat row with None => Some VInvalid | Some r => netRowData p m r column role end.

Definition netSignal (sig : IfaceSignal) : ModelSignal :=
  match sig with
  | aboutToReset => BeginResetModel
  | didReset => EndResetModel
  | rowsChanged a b => ModelDataChanged a b 0 5 []
  end.

Definition netUpdateStats (nowMs : Z) (stats : list InterfaceStats) (m : NetworkModel) : NetworkModel * list ModelSignal :=
  let '(a, sigs) := updateStats nowMs stats (nm_agg m) in (mkNetModel a (nm_gaugeEnabled m), map netSignal sigs).

Definition netSetThroughputGaugeEnabled (v : bool) (m : NetworkModel) : NetworkModel * list ModelSignal :=
  if Bool.eqb v (nm_gaugeEnabled m) then (m, [])
  else (mkNetModel (nm_agg m) v,
        let n := Z.of_nat (length (ia_rows (nm_agg m))) in if (0 <? n)%Z then [ModelDataChanged 0 (n - 1) 0 5 []] else []).
End NetModel.

Definition netColumnTitle (col : NetColumn) : QString :=
  match col with
  | NcName => qs "Interface" | NcRxRate => qs "RX rate" | NcTxRate => qs "TX rate"
  | NcRxTotal => qs "RX total" | NcTxTotal => qs "TX total" | NcStatus => qs "Status"
  end.
Definition netHeader (section : Z) (horizontal : bool) (role : NetRole) : QVariant :=
  if negb horizontal || negb (bool_decide (role = NrDisplay)) then VInvalid
  else match netColumnOf section with Some col => VString (netColumnTitle col) | None => VInvalid end.

(* ------------------------------------------------------------------ *)
(** ** Filters *)

(** [QVariant]'s conversions, on the variants the models answer with. *)
Definition vToBool (v : QVariant) : bool := match v with VBool b => b | _ => false end.
Definition vToInt (v : QVariant) : Z := match v with VInt z => z | _ => 0 end.
Definition vToString (v : QVariant) : QString := match v with VString s => s | _ => [] end.
Definition vToDouble (v : QVariant) : double := match v with VDouble d => d | _ => dzero end.
Definition vToConnection (v : QVariant) : Connection := match v with VConnection c => c | _ => emptyConnection end.

Record ConnectionFilterProxy := mkConnFilter {
  cf_showIPv6 : bool; cf_showTcp : bool; cf_showUdp : bool;
  cf_visibleIfaces : gset QString;
  cf_exprText : QString; cf_exprError : QString; cf_expr : option Expr;
}.
Definition newConnFilter : ConnectionFilterProxy := mkConnFilter true true true ∅ [] [] None.

Section Filters.
Context `{QtUnicode, QtAddrText, QtRegex, QtToDouble}.

(** The setters; [true]: [invalidateFilter()]. *)
Definition setShowIPv6 (show : bool) (f : ConnectionFilterProxy) : ConnectionFilterProxy * bool :=
  if Bool.eqb (cf_showIPv6 f) show then (f, false)
  else (mkConnFilter show (cf_showTcp f) (cf_showUdp f) (cf_visibleIfaces f) (cf_exprText f) (cf_exprError f) (cf_expr f), true).
Definition setShowTcp (show : bool) (f : ConnectionFilterProxy) : ConnectionFilterProxy * bool :=
  if Bool.eqb (cf_showTcp f) show then (f, false)
  else (mkConnFilter (cf_showIPv6 f) show (cf_showUdp f) (cf_visibleIfaces f) (cf_exprText f) (cf_exprError f) (cf_expr f), true).
Definition setShowUdp (show : bool) (f : ConnectionFilterProxy) : ConnectionFilterProxy * bool :=
  if Bool.eqb (cf_showUdp f) show then (f, false)
  else (mkConnFilter (cf_showIPv6 f) (cf_showTcp f) show (cf_visibleIfaces f) (cf_exprText f) (cf_exprError f) (cf_expr f), true).
Definition setVisibleIfaces (ifaces : gset QString) (f : ConnectionFilterProxy) : ConnectionFilterProxy * bool :=
  if bool_decide (cf_visibleIfaces f = ifaces) then (f, false)
  else (mkConnFilter (cf_showIPv6 f) (cf_showTcp f) (cf_showUdp f) ifaces (cf_exprText f) (cf_exprError f) (cf_expr f), true).

(** The error text for the user, too. *)
Definition setFilterExpression (expr : QString) (f : ConnectionFilterProxy) : ConnectionFilterProxy * bool * QString :=
  if qeqb expr (cf_exprText f) then (f, false, cf_exprError f)
  else
    let res := parse (trimmed expr) in
    (mkConnFilter (cf_showIPv6 f) (cf_showTcp f) (cf_showUdp f) (cf_visibleIfaces f) expr (res_error res) (res_expr res), true, res_error res).

(** [filterAcceptsRow]; [data] is what the source answers for column 0 of the row. *)
Definition connAccepts (f : ConnectionFilterProxy) (data : Role -> QVariant) : bool :=
  let proto := vToInt (data ProtoRole) in
  if negb (cf_showIPv6 f) && vToBool (data IsIPv6Role) then false
  else if negb (cf_showTcp f) && (proto =? protoInt Tcp)%Z then false
  else if negb (cf_showUdp f) && (proto =? protoInt Udp)%Z then false
  else if negb (bool_decide (cf_visibleIfaces f = ∅)) && negb (bool_decide (vToString (data IfaceNameRole) ∈ cf_visibleIfaces f)) then false
  else match cf_expr f with
       | None => true
       | Some _ =>
           filterMatches (cf_expr f)
             (mkFContext (vToConnection (data ConnectionRole)) (vToDouble (data RxRateRole)) (vToDouble (data TxRateRole))
                (vToString (data HostnameLocalRole)) (vToString (data HostnameRemoteRole)))
       end.
End Filters.

Record InterfaceFilterProxy := mkIfaceFilter { if_showLoopback : bool; if_showDown : bool }.
Definition newIfaceFilter : InterfaceFilterProxy := mkIfaceFilter false true.

Definition setShowLoopback (show : bool) (f : InterfaceFilterProxy) : InterfaceFilterProxy * bool :=
  if Bool.eqb (if_showLoopback f) show then (f, false) else (mkIfaceFilter show (if_showDown f), true).
Definition setShowDown (show : bool) (f : InterfaceFilterProxy) : InterfaceFilterProxy * bool :=
  if Bool.eqb (if_showDown f) show then (f, false) else (mkIfaceFilter (if_showLoopback f) show, true).
Definition ifaceAccepts (f : InterfaceFilterProxy) (data : NetRole -> QVariant) : bool :=
  if negb (if_showLoopback f) && vToBool (data NrIsLoopback) then false
  else if negb (if_showDown f) && negb (vToBool (data NrIsUp)) then false
  else true.

(* ------------------------------------------------------------------ *)
(** ** The gauge behind a row *)

(** The header of the view: total length, scroll offset, sections as position
    and size. *)
Record Header := mkHeader { hd_length : Z; hd_offset : Z; hd_sections : list (Z * Z) }.
Definition sectionViewportPosition (h : Header) (col : nat) : Z := match hd_sections h !! col with Some (x, _) => (x - hd_offset h)%Z | None => 0%Z end.
Definition sectionSize (h : Header) (col : nat) : Z := match hd_sections h !! col with Some (_, w) => w | None => 0%Z end.

Inductive Fill := FillCell (color : QVariant) | FillLeft (width : Z) (color : QVariant).

Definition dhalf : double := ddiv (dofZ 1) (dofZ 2).
(** [qRound] of a number that is not negative. *)
Definition qRound (d : double) : option Z := dtrunc (dadd d dhalf).

Definition vIsValid (v : QVariant) : bool := match v with VInvalid => false | _ => true end.
Definition paintedFraction (fraction : QVariant) : double := qBound dzero (vToDouble fraction) (dofZ 1).

(** [paintGaugeBackground]: the rectangles filled, left-aligned in the cell,
    and whether the cell's background is now painted.  [header]: [None] when
    the view is neither a table nor a tree. *)
Definition paintGaugeBackground (selected : bool) (header : option Header) (col : nat) (background fraction darkColor : QVariant)
    : option (list Fill * bool) :=
  if selected then Some ([], false)
  else
    let painted := vIsValid background in
    let base := if painted then [FillCell background] else [] in
    if negb (vIsValid fraction) then Some (base, painted)
    else if dle (paintedFraction fraction) dzero then Some (base, painted)
    else if negb (vIsValid darkColor) then Some (base, painted)
    else match header with
         | None => Some (base, painted)
         | Some h =>
             if (hd_length h <=? 0)%Z then Some (base, painted)
             else
               boundaryRow ← qRound (dmul (paintedFraction fraction) (dofZ (hd_length h)));
               let boundaryCell := (boundaryRow - sectionViewportPosition h col)%Z in
               if (boundaryCell <=? 0)%Z then Some (base, painted)
               else Some (base ++ [if (boundaryCell <? sectionSize h col)%Z then FillLeft boundaryCell darkColor else FillCell darkColor], true)
         end.

(* ------------------------------------------------------------------ *)
(** ** The item-model protocol *)

(** A view that follows the flow model: its row count, and the bracket that is
    open.  [None]: a signal the protocol does not allow. *)
Inductive ViewState := VsIdle (n : Z) | VsInserting (n k : Z) | VsRemoving (n k : Z).

Definition viewStep (v : ViewState) (sig : ModelSignal) : option ViewState :=
  match v, sig with
  | VsIdle n, BeginInsertRows a b => if (0 <=? a)%Z && (a <=? n)%Z && (a <=? b)%Z then Some (VsInserting n (b - a + 1)) else None
  | VsInserting n k, EndInsertRows => Some (VsIdle (n + k))
  | VsIdle n, BeginRemoveRows a b => if (0 <=? a)%Z && (a <=? b)%Z && (b <? n)%Z then Some (VsRemoving n (b - a + 1)) else None
  | VsRemoving n k, EndRemoveRows => Some (VsIdle (n - k))
  | VsIdle n, ModelDataChanged a b c d _ =>
      if (0 <=? a)%Z && (a <=? b)%Z && (b <? n)%Z && (0 <=? c)%Z && (c <=? d)%Z && (d <? Z.of_nat (length columns))%Z then Some v else None
  | _, _ => None
  end.
Definition view (v : option ViewState) (sigs : list ModelSignal) : option ViewState := foldl (fun v s => v ← v; viewStep v s) v sigs.

Lemma view_app v a b : view v (a ++ b) = view (view v a) b.
Proof. apply foldl_app. Qed.
Lemma view_cons v s sigs : view (Some v) (s :: sigs) = view (viewStep v s) sigs.
Proof. done. Qed.

Definition viewOf (st : AdapterState) : ViewState :=
  match st with AdIdle n => VsIdle n | AdInserting n k => VsInserting n k | AdRemoving n k => VsRemoving n k end.
Definition countOf (st : AdapterState) : Z := match st with AdIdle n | AdInserting n _ | AdRemoving n _ => n end.
Definition openOf (st : AdapterState) : Z := match st with AdIdle _ => 0 | AdInserting _ k => k | AdRemoving _ k => - k end.

Lemma view_repaint n roles : view (Some (VsIdle n)) (repaint n roles) = Some (VsIdle n).
Proof.
  unfold repaint. destruct (Z.ltb_spec 0 n); [|done]. cbn [view foldl mbind option_bind viewStep]. unfold lastConnColumn.
  rewrite (proj2 (Z.leb_le 0 (n - 1))), (proj2 (Z.ltb_lt (n - 1) n)) by lia. reflexivity.
Qed.

Lemma connSignals_view st sigs st' : adapter st sigs = Some st' -> view (Some (viewOf st)) (connSignals (countOf st) (openOf st) sigs) = Some (viewOf st').
Proof.
  revert st. induction sigs as [|sig sigs IH]; intros st; [by intros [= <-]|]. cbn [adapter].
  destruct (adapterStep st sig) as [st1|] eqn:Es; [|done]. intros Hr. specialize (IH st1 Hr). revert Es IH.
  destruct st as [n|n k|n k], sig as [a b| |a b| |a b| |addr|r|r]; cbn [adapterStep connSignals countOf openOf viewOf]; try discriminate; try (by intros [= <-]).
  - destruct (_ && _) eqn:E; [|discriminate]. intros [= <-] IH. rewrite view_cons. cbn [viewStep]. by rewrite E.
  - destruct (_ && _) eqn:E; [|discriminate]. intros [= <-] IH. rewrite view_cons. cbn [viewStep]. by rewrite E.
  - destruct (_ && _) eqn:E; [|discriminate]. intros [= <-] IH. rewrite view_cons. cbn [viewStep]. by rewrite E.
  - intros [= <-] IH. rewrite view_app. change (if (0 <? n)%Z then _ else []) with (repaint n []). by rewrite view_repaint.
Qed.

Section Protocol.
Context `{QtAddrText, QHashOrderLaws}.

Definition connModel_ok (m : ConnectionModel) : Prop := agg_ok (cm_agg m).

Lemma connModelStep_ok m e :
  connModel_ok m -> let '(m', sigs) := connModelStep m e in
  connModel_ok m' /\ view (Some (VsIdle (connRowCount m))) sigs = Some (VsIdle (connRowCount m')).
Proof.
  intros Hm. destruct e as [ev|v|v|v]; cbn [connModelStep].
  - pose proof (agg_step_ok (cm_agg m) ev Hm) as [Hok Ha]. destruct (agg_step (cm_agg m) ev) as [a sigs]. cbn [fst snd] in *.
    split; [done|]. by apply (connSignals_view (AdIdle _) sigs (AdIdle _)).
  - unfold setTintRowByDirection. destruct (Bool.eqb _ _); [done|]. split; [done|apply view_repaint].
  - unfold setThroughputGaugeEnabled. destruct (Bool.eqb _ _); [done|]. split; [done|apply view_repaint].
  - done.
Qed.

(** C28. However the flow model is driven (snapshots, patches, animation ticks, DNS
    answers, settings of the aggregator and of the display), a view that
    follows its signals from an empty table never sees a bracket out of place
    or a row or column out of range, and ends with the model's row count. *)
Theorem conn_model_protocol range es :
  let '(m, sigs) := connModelRun (newConnModel range) es in
  connModel_ok m /\ view (Some (VsIdle 0)) sigs = Some (VsIdle (connRowCount m)).
Proof.
  assert (Hrun : forall es m, connModel_ok m ->
    let '(m', sigs) := connModelRun m es in connModel_ok m' /\ view (Some (VsIdle (connRowCount m))) sigs = Some (VsIdle (connRowCount m'))).
  { clear es. induction es as [|e es IH]; intros m Hm; [done|]. cbn [connModelRun]. pose proof (connModelStep_ok m e Hm) as Hs.
    destruct (connModelStep m e) as [m1 o1]. destruct Hs as [Hm1 Hv1]. pose proof (IH m1 Hm1) as Hr. destruct (connModelRun m1 es) as [m2 o2].
    destruct Hr as [Hm2 Hv2]. split; [done|]. by rewrite view_app, Hv1. }
  apply (Hrun es (newConnModel range)). apply newAggregator_ok.
Qed.
End Protocol.

(* ------------------------------------------------------------------ *)
(** ** Tooltips keep their markup *)

Definition markup (s : QString) : QString := filter (fun c => c = 60%Z \/ c = 62%Z) s.

Lemma markup_app a b : markup (a ++ b) = markup a ++ markup b.
Proof. apply filter_app. Qed.

Definition rawPiece (p : piece) : QString := match p with PLit c => [c] | PMark _ raw => raw end.
Definition plainRaw (p : piece) : Prop := match p with PLit _ => True | PMark _ raw => markup raw = [] end.

Lemma isDigit_plain d : isDigit d = true -> markup [d] = [].
Proof. unfold isDigit, markup. intros Hd. rewrite filter_cons_False; [done|lia]. Qed.

Lemma arg_pieces_raw s : List.flat_map rawPiece (arg_pieces s) = s /\ Forall plainRaw (arg_pieces s).
Proof.
  induction s as [s IH] using (induction_ltof1 _ (@length Z)). unfold ltof in IH. destruct s as [|c r]; [done|].
  assert (Hrec : forall t, length t < length (c :: r) -> List.flat_map rawPiece (arg_pieces t) = t /\ Forall plainRaw (arg_pieces t)) by (intros; by apply IH).
  cbn [arg_pieces]. destruct (Z.eqb_spec c 37) as [->|_].
  2: { destruct (Hrec r) as [Hr Hf]; [cbn; lia|]. split; [cbn; by rewrite Hr|by constructor]. }
  destruct r as [|x1 r1]; [split; [done|by repeat constructor]|]. destruct (isDigit x1) eqn:E1.
  2: { destruct (Hrec (x1 :: r1)) as [Hr Hf]; [cbn; lia|]. split; [cbn [List.flat_map rawPiece app]; by rewrite Hr|by constructor]. }
  destruct r1 as [|x2 r2].
  { split; [done|]. apply Forall_singleton. cbn [plainRaw]. change [37%Z; x1] with ([37%Z] ++ [x1]). by rewrite markup_app, (isDigit_plain x1). }
  destruct (isDigit x2) eqn:E2.
  - destruct (Hrec r2) as [Hr Hf]; [cbn; lia|]. split; [cbn [List.flat_map rawPiece app]; by rewrite Hr|]. constructor; [|done].
    cbn [plainRaw]. change [37%Z; x1; x2] with ([37%Z] ++ [x1] ++ [x2]). by rewrite !markup_app, (isDigit_plain x1), (isDigit_plain x2).
  - destruct (Hrec (x2 :: r2)) as [Hr Hf]; [cbn; lia|]. split; [cbn [List.flat_map rawPiece app]; by rewrite Hr|]. constructor; [|done].
    cbn [plainRaw]. change [37%Z; x1] with ([37%Z] ++ [x1]). by rewrite markup_app, (isDigit_plain x1).
Qed.

Lemma markup_render (f : piece -> QString) s :
  (forall p, plainRaw p -> markup (f p) = markup (rawPiece p)) -> markup (List.flat_map f (arg_pieces s)) = markup s.
Proof.
  intros Hf. destruct (arg_pieces_raw s) as [Hs Hp]. rewrite <- Hs at 2. clear Hs. induction Hp as [|p ps Hp _ IH]; [done|].
  cbn [List.flat_map]. by rewrite !markup_app, IH, Hf.
Qed.

(** Putting plain text into a template leaves its markup as it is. *)
Lemma markup_qarg s x : markup x = [] -> markup (qarg s x) = markup s.
Proof.
  intros Hx. unfold qarg. destruct (min_marker _); [|done]. apply markup_render. intros [c|n raw] Hp; [done|]. cbn [plainRaw render_piece rawPiece] in *.
  destruct (_ =? _)%Z; congruence.
Qed.

Lemma markup_qargs s xs : Forall (fun x => markup x = []) xs -> markup (qargs s xs) = markup s.
Proof.
  intros Hx. apply markup_render. intros [c|n raw] Hp; [done|]. cbn [plainRaw rawPiece] in *. destruct (xs !! _) as [x|] eqn:E; cbn [default]; [|done].
  rewrite Hp. by eapply (Forall_lookup_1 _ _ _ _ Hx).
Qed.

Lemma markup_escaped s : markup (htmlEscaped s) = [].
Proof.
  induction s as [|c s IH]; [done|]. cbn [htmlEscaped]. rewrite markup_app, IH, app_nil_r.
  repeat match goal with |- context [(?a =? ?b)%Z] => destruct (Z.eqb_spec a b); [done|] end.
  unfold markup. rewrite filter_cons_False; [done|]. intros [?|?]; congruence.
Qed.

Lemma markup_number z : (0 <= z)%Z -> markup (number z) = [].
Proof.
  intros Hz. pose proof (number_digits z Hz) as Hd. induction Hd as [|d s Hd _ IH]; [done|]. change (d :: s) with ([d] ++ s).
  by rewrite markup_app, IH, isDigit_plain.
Qed.

Lemma markup_orQuery s : markup (orQuery s) = [].
Proof. unfold orQuery. destruct (isEmpty s); [done|apply markup_escaped]. Qed.

Lemma markup_chain l : markup (concat (map chainLine l)) = concat (map (fun _ => markup (qs "<br>")) l).
Proof.
  induction l as [|ci l IH]; [done|]. cbn [map concat]. rewrite markup_app, IH. f_equal. unfold chainLine.
  rewrite markup_qargs by (repeat constructor; [apply markup_orQuery|apply markup_escaped]). by vm_compute.
Qed.

Definition containerMarkup (showChain : bool) (c : Connection) : QString :=
  markup (qs "<qt><br><br>")
  ++ (if (2 <=? length (c_containerChain c)) && showChain
      then markup (qs "<br><br>") ++ concat (map (fun _ => markup (qs "<br>")) (c_containerChain c)) else [])
  ++ markup (qs "</qt>").

(** Process and container names cannot bring markup of their own into a
    tooltip: its tags are those of the template, which depends only on whether
    the flow has a process, whether it is in a container, and on the length of
    its chain. *)
Theorem cell_tooltip_markup c showChain :
  (0 <= pi_uid (c_process c))%Z ->
  markup (processToolTip c) = (if (pi_pid (c_process c) <=? 0)%Z then [] else markup (qs "<qt><br><br><br><br></qt>")) /\
  markup (containerToolTip showChain c) = (if hostContainer (c_container c) then [] else containerMarkup showChain c).
Proof.
  intros Hu. split.
  - unfold processToolTip. destruct (Z.leb_spec (pi_pid (c_process c)) 0); [by destruct (c_reason c)|].
    rewrite !markup_qarg by (apply markup_orQuery || (apply markup_number; lia)). by vm_compute.
  - unfold containerToolTip. destruct (hostContainer _); [done|].
    assert (Hq : forall t, qarg (qs "<qt>%1</qt>") t = qs "<qt>" ++ t ++ qs "</qt>") by reflexivity.
    rewrite Hq, !markup_app. unfold containerMarkup.
    assert (Ht : markup (qargs (qs "runtime: %1<br>id: %2<br>name: %3")
      [orQuery (ci_runtime (c_container c)); orQuery (ci_id (c_container c)); orQuery (ci_name (c_container c))]) = markup (qs "<br><br>")).
    { rewrite markup_qargs; [by vm_compute|]. repeat constructor; apply markup_orQuery. }
    destruct (_ && _); rewrite ?markup_app, Ht; [|done]. rewrite markup_chain. by vm_compute (markup _).
Qed.

(* ------------------------------------------------------------------ *)
(** ** Filtering *)

Section FilterProofs.
Context `{QtUnicode, QtAddrText, QtRegex, QtToDouble, QtNumberText} (dnsCachedName : nat -> QHostAddress -> QString).

(** Whether a filter lets a row of the aggregator through. *)
Definition rowAccepted (f : ConnectionFilterProxy) (s : AggSettings) (r : Row) : bool :=
  let c := r_current r in
  (cf_showIPv6 f || negb (isIPv6 (c_local c) || isIPv6 (c_remote c)))
  && (cf_showTcp f || negb (bool_decide (c_proto c = Tcp)))
  && (cf_showUdp f || negb (bool_decide (c_proto c = Udp)))
  && (bool_decide (cf_visibleIfaces f = ∅) || bool_decide (c_iface c ∈ cf_visibleIfaces f))
  && filterMatches (cf_expr f)
       (mkFContext c (ch_rate (r_rx r)) (ch_rate (r_tx r)) (cachedHostname dnsCachedName s (ep_address (c_local c)))
          (cachedHostname dnsCachedName s (ep_address (c_remote c)))).

Lemma protoInt_is p q : (protoInt p =? protoInt q)%Z = bool_decide (p = q).
Proof. destruct p, q; by vm_compute. Qed.

(** Through the variants of the model, the filter decides as it would on the
    row itself. *)
Theorem filter_sees_rows f p m r :
  connAccepts f (fun role => default VInvalid (rowData dnsCachedName p m r 0 role)) = rowAccepted f (ag_settings (cm_agg m)) r.
Proof.
  unfold connAccepts, rowAccepted. cbn [rowData from_option vToInt vToBool vToString vToDouble vToConnection]. unfold id. cbn [vToInt vToBool vToString vToDouble vToConnection]. rewrite !protoInt_is.
  destruct (cf_showIPv6 f), (isIPv6 (c_local (r_current r)) || isIPv6 (c_remote (r_current r))),
    (cf_showTcp f), (bool_decide (c_proto (r_current r) = Tcp)), (cf_showUdp f), (bool_decide (c_proto (r_current r) = Udp)),
    (bool_decide (cf_visibleIfaces f = ∅)), (bool_decide (c_iface (r_current r) ∈ cf_visibleIfaces f)); cbn [negb andb orb]; try done;
    by destruct (cf_expr f).
Qed.

Inductive FilterEvent := FeIPv6 (b : bool) | FeTcp (b : bool) | FeUdp (b : bool) | FeIfaces (s : gset QString) | FeExpression (e : QString).

Definition filterStep (f : ConnectionFilterProxy) (e : FilterEvent) : ConnectionFilterProxy * bool :=
  match e with
  | FeIPv6 b => setShowIPv6 b f
  | FeTcp b => setShowTcp b f
  | FeUdp b => setShowUdp b f
  | FeIfaces s => setVisibleIfaces s f
  | FeExpression e => fst (setFilterExpression e f)
  end.

(** The setters without their guards. *)
Definition assign (f : ConnectionFilterProxy) (e : FilterEvent) : ConnectionFilterProxy :=
  match e with
  | FeIPv6 b => mkConnFilter b (cf_showTcp f) (cf_showUdp f) (cf_visibleIfaces f) (cf_exprText f) (cf_exprError f) (cf_expr f)
  | FeTcp b => mkConnFilter (cf_showIPv6 f) b (cf_showUdp f) (cf_visibleIfaces f) (cf_exprText f) (cf_exprError f) (cf_expr f)
  | FeUdp b => mkConnFilter (cf_showIPv6 f) (cf_showTcp f) b (cf_visibleIfaces f) (cf_exprText f) (cf_exprError f) (cf_expr f)
  | FeIfaces s => mkConnFilter (cf_showIPv6 f) (cf_showTcp f) (cf_showUdp f) s (cf_exprText f) (cf_exprError f) (cf_expr f)
  | FeExpression e =>
      let res := parse (trimmed e) in
      mkConnFilter (cf_showIPv6 f) (cf_showTcp f) (cf_showUdp f) (cf_visibleIfaces f) e (res_error res) (res_expr res)
  end.

Definition filter_ok (f : ConnectionFilterProxy) : Prop :=
  cf_expr f = res_expr (parse (trimmed (cf_exprText f))) /\ cf_exprError f = res_error (parse (trimmed (cf_exprText f))).

Lemma parse_error_none e : res_error (parse e) <> [] -> res_expr (parse e) = None.
Proof.
  unfold parse. destruct (tokIs _ _); [done|]. destruct (parseOr _ _) as [t st]. destruct (negb (isEmpty _)); [done|]. by destruct (negb _).
Qed.

Lemma filterStep_assign f e : filter_ok f -> fst (filterStep f e) = assign f e /\ filter_ok (assign f e) /\ (snd (filterStep f e) = false -> assign f e = f).
Proof.
  intros Hf. assert (Hi : snd (filterStep f e) = false -> fst (filterStep f e) = f).
  { destruct e; cbn [filterStep]; unfold setShowIPv6, setShowTcp, setShowUdp, setVisibleIfaces, setFilterExpression.
    all: match goal with |- context [if ?b then _ else _] => by destruct b end. }
  assert (Ha : fst (filterStep f e) = assign f e).
  { destruct e as [b|b|b|s|e]; cbn [filterStep assign]; unfold setShowIPv6, setShowTcp, setShowUdp, setVisibleIfaces, setFilterExpression.
    - destruct (Bool.eqb (cf_showIPv6 f) b) eqn:E; [|done]. apply Bool.eqb_prop in E as <-. by destruct f.
    - destruct (Bool.eqb (cf_showTcp f) b) eqn:E; [|done]. apply Bool.eqb_prop in E as <-. by destruct f.
    - destruct (Bool.eqb (cf_showUdp f) b) eqn:E; [|done]. apply Bool.eqb_prop in E as <-. by destruct f.
    - case_bool_decide as E; [|done]. subst s. by destruct f.
    - unfold qeqb. case_bool_decide as E; [|done]. subst e. destruct Hf as [He Hr]. rewrite <- He, <- Hr. by destruct f. }
  split; [done|]. split; [|by rewrite <- Ha]. by destruct e.
Qed.

(** After any sequence of calls the filter is the one of the last values
    given, its expression the parse of the last text; text that does not
    parse filters nothing; and a call that asks for no new filtering changed
    nothing. *)
Theorem filter_run_ok es :
  let f := foldl (fun f e => fst (filterStep f e)) newConnFilter es in
  f = foldl assign newConnFilter es /\
  cf_expr f = res_expr (parse (trimmed (cf_exprText f))) /\ (cf_exprError f <> [] -> cf_expr f = None) /\
  forall e, snd (filterStep f e) = false -> fst (filterStep f e) = f.
Proof.
  assert (Hrun : forall f0, filter_ok f0 ->
    foldl (fun f e => fst (filterStep f e)) f0 es = foldl assign f0 es /\ filter_ok (foldl assign f0 es)).
  { induction es as [|e es IH]; intros f0 Hf0; [done|]. cbn [foldl]. destruct (filterStep_assign f0 e Hf0) as (-> & Hok & _). by apply IH. }
  cbv zeta. destruct (Hrun newConnFilter) as [-> [Hx He]]; [by split|]. set (f := foldl assign newConnFilter es) in *.
  split; [done|]. split; [done|]. split; [rewrite Hx, He; apply parse_error_none|].
  intros e Hf. destruct (filterStep_assign f e (conj Hx He)) as (-> & _ & Hs). by apply Hs.
Qed.
End FilterProofs.

(* ------------------------------------------------------------------ *)
(** ** Gauges *)

Lemma dlt_not_nan a b : dlt a b = true -> disnan a = false /\ disnan b = false.
Proof. rewrite !disnan_spec. intros Hl. split; intros ->; [done|by destruct a]. Qed.

Lemma dle_of_dlt a b : dlt a b = true -> dle a b = true.
Proof.
  unfold dlt, dle, SFltb, SFleb. destruct (SFcompare a b) as [[]|]; done.
Qed.

(** [qBound] is within its bounds whatever the value, no number included. *)
Lemma qBound_bounds lo v hi : dle lo hi = true -> dle lo lo = true -> dle hi hi = true ->
  dle lo (qBound lo v hi) = true /\ dle (qBound lo v hi) hi = true.
Proof.
  intros Hlh Hl Hh. unfold qBound. destruct (dlt hi v) eqn:Eh.
  - destruct (dlt lo hi) eqn:El; [|by split]. split; [by apply dle_of_dlt|done].
  - destruct (dlt lo v) eqn:El; [|by split]. split; [by apply dle_of_dlt|]. pose proof (dlt_not_nan _ _ El) as [_ Hv].
    apply dle_of_not_dlt; [|done|done]. apply disnan_spec. intros ->. by destruct lo.
Qed.

(** The fraction of a row's gauge is between 0 and 1 for every row, whatever
    its rates, its history and the mode of the reference. *)
Theorem row_gauge_unit s r : dle dzero (rowGauge s r) = true /\ dle (rowGauge s r) (dofZ 1) = true.
Proof.
  unfold rowGauge. destruct (_ <? _)%Z; [done|]. destruct (dle _ dzero); [done|]. by apply qBound_bounds.
Qed.

(** The filled part of a cell, in pixels from its left edge. *)
Definition darkAt (dark : QVariant) (width i : Z) (fills : list Fill) : Prop :=
  exists f, f ∈ fills /\ match f with FillCell c => c = dark /\ (i < width)%Z | FillLeft w c => c = dark /\ (i < w)%Z end.

(** The pixel of the view up to which a row is filled. *)
Definition gaugeBoundary (h : Header) (fraction : QVariant) : option Z :=
  if negb (vIsValid fraction) || dle (paintedFraction fraction) dzero || (hd_length h <=? 0)%Z then Some 0%Z
  else qRound (dmul (paintedFraction fraction) (dofZ (hd_length h))).

Lemma darkAt_base dark background width i :
  background <> dark -> ~ darkAt dark width i (if vIsValid background then [FillCell background] else []).
Proof.
  intros Hne (f & Hf & Hc). destruct (vIsValid background); [|by apply elem_of_nil in Hf]. apply list_elem_of_singleton in Hf. subst f. by destruct Hc.
Qed.

(** All cells of a row agree on one boundary: the row is filled up to one
    pixel of the view, whichever cell draws it. *)
Theorem gauge_one_boundary h col background fraction dark i fills painted b :
  background <> dark -> dark <> VInvalid -> gaugeBoundary h fraction = Some b ->
  paintGaugeBackground false (Some h) col background fraction dark = Some (fills, painted) ->
  (0 <= i < sectionSize h col)%Z -> (0 <= sectionViewportPosition h col + i)%Z ->
  darkAt dark (sectionSize h col) i fills <-> (sectionViewportPosition h col + i < b)%Z.
Proof.
  intros Hbg Hdark Hb Hp Hi Hx. pose proof (darkAt_base dark background (sectionSize h col) i Hbg) as Hbase.
  unfold paintGaugeBackground in Hp. unfold gaugeBoundary in Hb. destruct (negb (vIsValid fraction)); [injection Hb as <-; injection Hp as <- _; split; [done|lia]|].
  cbn [orb] in Hb. destruct (dle _ dzero); [injection Hb as <-; injection Hp as <- _; split; [done|lia]|]. cbn [orb] in Hb.
  replace (negb (vIsValid dark)) with false in Hp by (by destruct dark). destruct (hd_length h <=? 0)%Z; [injection Hb as <-; injection Hp as <- _; split; [done|lia]|].
  rewrite Hb in Hp. cbn [mbind option_bind] in Hp. destruct (Z.leb_spec (b - sectionViewportPosition h col) 0); [injection Hp as <- _; split; [done|lia]|].
  injection Hp as <- _. split.
  - intros (f & Hf & Hc). apply elem_of_app in Hf as [Hf|Hf]; [destruct Hbase; by exists f|]. apply list_elem_of_singleton in Hf. subst f.
    destruct (Z.ltb_spec (b - sectionViewportPosition h col) (sectionSize h col)); destruct Hc; lia.
  - intros Hlt. eexists. split; [apply elem_of_app; right; by apply list_elem_of_singleton|].
    destruct (Z.ltb_spec (b - sectionViewportPosition h col) (sectionSize h col)); split; [done|lia|done|lia].
Qed.

(* ------------------------------------------------------------------ *)
(** ** Where the display does less than it says *)

Definition scrolledHeader : Header := mkHeader 1000 200 [(0, 500); (500, 500)]%Z.
Definition greyBar : QVariant := VColor 90 90 90.

(** [boundaryRow] counts from the left edge of the row, the sections' viewport
    positions from the left edge of the view.  Half a bar on a row 1000 pixels
    long, scrolled by 200: the pixel 100 of the second section, 600 of the
    row, is filled. *)
Theorem gauge_drifts_when_scrolled :
  exists fills painted,
    paintGaugeBackground false (Some scrolledHeader) 1 VInvalid (VDouble dhalf) greyBar = Some (fills, painted) /\
    gaugeBoundary scrolledHeader (VDouble dhalf) = Some 500%Z /\
    darkAt greyBar (sectionSize scrolledHeader 1) 100 fills /\ (500 < 500 + 100)%Z.
Proof.
  exists [FillLeft 200 greyBar], true. split; [by vm_compute|]. split; [by vm_compute|]. split; [|lia].
  exists (FillLeft 200 greyBar). split; [by apply list_elem_of_singleton|by split].
Qed.

Definition renamed (comm : QString) (pid uid : Z) : Connection :=
  set_process (mkProcessInfo pid comm [] [] uid) emptyConnection.

Lemma number_noPct z : (0 <= z)%Z -> noPct (number z).
Proof. intros Hz. by apply number_no_char. Qed.

(** The name of a process is put into the text before the pid and the user: a
    process called %1 is shown with its pid for a name and without a pid, and
    its tooltip with the user's number for a name and without a user. *)
Theorem comm_marker_misread pid uid :
  (0 < pid)%Z -> (0 <= uid)%Z ->
  processText (renamed (qs "%1") pid uid) = number pid ++ qs "  [%2]" /\
  processToolTip (renamed (qs "%1") pid uid) =
    qs "<qt>pid: " ++ number pid ++ qs "<br>comm: " ++ number uid ++ qs "<br>uid: %3<br><br>Right-click " ++ [8594%Z] ++ qs " Details for cmdline / exe / cwd</qt>".
Proof.
  intros Hp Hu. pose proof (number_noPct pid ltac:(lia)) as Hn. split.
  - unfold processText, renamed. cbn [c_process set_process pi_pid pi_comm]. destruct (Z.ltb_spec 0 pid); [|lia]. reflexivity.
  - unfold processToolTip, renamed. cbn [c_process set_process pi_pid pi_comm pi_uid]. destruct (Z.leb_spec pid 0); [lia|].
    change (qarg (qs "<qt>pid: %1<br>comm: %2<br>uid: %3<br><br>Right-click " ++ [8594%Z] ++ qs " Details for cmdline / exe / cwd</qt>") (number pid))
      with (qs "<qt>pid: " ++ number pid ++ qs "<br>comm: %2<br>uid: %3<br><br>Right-click " ++ [8594%Z] ++ qs " Details for cmdline / exe / cwd</qt>").
    change (orQuery (qs "%1")) with (qs "%1"). rewrite !app_assoc.
    assert (Hpre : noPct (qs "<qt>pid: " ++ number pid)) by (apply noPct_app; [unfold noPct; vm_compute (qs _); set_solver|done]).
    rewrite <- !app_assoc. rewrite (app_assoc (qs "<qt>pid: ")). rewrite !qarg_prefix by done. rewrite <- !app_assoc. reflexivity.
Qed.

(* ------------------------------------------------------------------ *)
(** ** Witnesses *)

Definition modelLife : list ConnModelEvent :=
  [CmAggregator (AgUpdate 1000 [sampleTcp]); CmSetThroughputGaugeEnabled true; CmSetTintRowByDirection true; CmAggregator (AgUpdate 2000 [])].

Lemma conn_model_protocol_witness :
  let '(m, sigs) := connModelRun (newConnModel (32768, 60999)%Z) modelLife in
  view (Some (VsIdle 0)) sigs = Some (VsIdle (connRowCount m)) /\ length sigs = 5.
Proof.
  pose proof (conn_model_protocol (32768, 60999)%Z modelLife) as Hv.
  assert (Hl : length (snd (connModelRun (newConnModel (32768, 60999)%Z) modelLife)) = 5) by (by vm_compute).
  destruct (connModelRun _ _) as [m sigs]. split; [exact (proj2 Hv)|exact Hl].
Defined.

Definition hostileFlow : Connection :=
  set_container (mkContainerInfo (qs "docker") [] (qs "<img src=x>")) (renamed (qs "<b>sh</b>") 42 1000).
Lemma cell_tooltip_markup_witness :
  markup (processToolTip hostileFlow) = markup (qs "<qt><br><br><br><br></qt>") /\
  markup (containerToolTip true hostileFlow) = markup (qs "<qt><br><br></qt>").
Proof.
  destruct (cell_tooltip_markup hostileFlow true) as [Hp Hc]; [cbn; lia|]. rewrite Hp, Hc. by vm_compute.
Defined.

Lemma gauge_one_boundary_witness :
  exists fills painted,
    paintGaugeBackground false (Some scrolledHeader) 0 VInvalid (VDouble dhalf) greyBar = Some (fills, painted) /\
    (darkAt greyBar 500 250 fills <-> (0 - 200 + 250 < 500)%Z).
Proof.
  destruct (paintGaugeBackground false (Some scrolledHeader) 0 VInvalid (VDouble dhalf) greyBar) as [[fills painted]|] eqn:Ep; [|by vm_compute in Ep].
  exists fills, painted. split; [done|].
  apply (gauge_one_boundary scrolledHeader 0 VInvalid (VDouble dhalf) greyBar 250 fills painted 500); [done|done|by vm_compute|exact Ep|cbn; lia|cbn; lia].
Defined.

Lemma comm_marker_misread_witness : processText (renamed (qs "%1") 42 1000) = qs "42  [%2]".
Proof. destruct (comm_marker_misread 42 1000) as [Hp _]; [lia|lia|]. rewrite Hp. by vm_compute. Defined.
