(* ===== verification/Escalator.v ===== *)
(** * Privilege escalation: [src/util/PrivilegeEscalator.{h,cpp}]

    Which helper is tried in which order, with which arguments and which
    environment.

    The process's environment, [QStandardPaths::findExecutable], the upper
    case of a text and whether a process starts are the environment.  [env(1)]
    and the quoting of a POSIX shell, which the arguments are written for, are
    modelled to say what they make of them. *)

From S2P Require Import Prelude Qt CheckTool.

Notation Env := (gmap QString QString).

Definition envAllowlist : list QString :=
  map qs ["DISPLAY"; "WAYLAND_DISPLAY"; "XAUTHORITY"; "XDG_SESSION_TYPE"; "XDG_RUNTIME_DIR"; "XDG_CURRENT_DESKTOP";
          "DBUS_SESSION_BUS_ADDRESS"; "LANG"; "LANGUAGE"; "LC_ALL"; "LC_CTYPE"; "LC_NUMERIC"; "LC_TIME"; "LC_COLLATE";
          "LC_MONETARY"; "LC_MESSAGES"; "LC_PAPER"; "LC_NAME"; "LC_ADDRESS"; "LC_TELEPHONE"; "LC_MEASUREMENT"; "LC_IDENTIFICATION";
          "HOME"; "PWD"; "QT_STYLE_OVERRIDE"; "QT_QPA_PLATFORMTHEME"; "QT_SCALE_FACTOR"; "QT_AUTO_SCREEN_SCALE_FACTOR"]%string.

Definition filterEnv (e : Env) : Env := filter (fun kv => fst kv ∈ envAllowlist /\ snd kv <> []) e.

Definition kSafePath : QString := qs "/usr/sbin:/usr/bin:/sbin:/bin".
Definition kHandoffSocket : QString := qs "QIFTOP_HANDOFF_SOCKET".
Definition kHandoffNonceFile : QString := qs "QIFTOP_HANDOFF_NONCE_FILE".
Definition kPath : QString := qs "PATH".

Definition scrubbedHelperEnv (e : Env) : Env := <[kPath := kSafePath]> (filterEnv e).

Definition assignment (k v : QString) : QString := qargs (qs "%1=%2") [k; v].

(** [qEnvironmentVariable(name)], appended unless it is empty. *)
Definition passVariable (e : Env) (name : QString) : list QString :=
  let v := default [] (e !! name) in if isEmpty v then [] else [qarg (name ++ qs "=%1") v].

Definition helperSearchPaths : list QString := map qs ["/usr/sbin"; "/usr/bin"; "/sbin"; "/bin"]%string.

Inductive DesktopEnv := DeUnknown | DeKDE | DeGNOME | DeXFCE | DeMATE | DeCinnamon | DeLXQt | DeOther.
Inductive Strategy := StPkexec | StKdesu | StGksu | StLxqtSu | StBeesu | StTermSu.
#[global] Instance Strategy_eq_dec : EqDecision Strategy. Proof. solve_decision. Defined.

Definition strategyId (s : Strategy) : QString :=
  match s with
  | StPkexec => qs "pkexec" | StKdesu => qs "kdesu" | StGksu => qs "gksudo"
  | StLxqtSu => qs "lxqt-sudo" | StBeesu => qs "beesu" | StTermSu => qs "x-terminal+sudo"
  end.

(** A process to start. *)
Record Launch := mkLaunch { la_program : QString; la_args : list QString; la_env : Env }.

Record EscWorld := mkEscWorld {
  wo_env : Env;
  wo_findExecutable : QString -> list QString -> QString;
  wo_starts : Launch -> bool;
}.

Definition shellQuote (p : QString) : QString :=
  qarg (qs "'%1'") (List.flat_map (fun c => if (c =? 39)%Z then qs "'\''" else [c]) p).

Section Escalator.
Context `{QHashOrder} (toUpper : QString -> QString) (w : EscWorld).

Definition sessionEnv : list QString :=
  map (fun kv => assignment (fst kv) (snd kv)) (hash_iter (filterEnv (wo_env w)))
  ++ [qs "PATH=/usr/sbin:/usr/bin:/sbin:/bin"]
  ++ passVariable (wo_env w) kHandoffSocket
  ++ passVariable (wo_env w) kHandoffNonceFile.

Definition findHelper (name : QString) : QString := wo_findExecutable w name helperSearchPaths.

(** [Qt::SkipEmptyParts]. *)
Definition desktopTokens : list QString :=
  filter (fun t => t <> []) (qsplit 58 (default [] (wo_env w !! qs "XDG_CURRENT_DESKTOP"))).

Definition desktopOf (t : QString) : option DesktopEnv :=
  if infixb (qs "KDE") t then Some DeKDE
  else if infixb (qs "GNOME") t then Some DeGNOME
  else if infixb (qs "XFCE") t then Some DeXFCE
  else if infixb (qs "MATE") t then Some DeMATE
  else if infixb (qs "CINNAMON") t then Some DeCinnamon
  else if infixb (qs "LXQT") t then Some DeLXQt
  else None.

Definition detectDesktop : DesktopEnv :=
  match omap (fun raw => desktopOf (toUpper raw)) desktopTokens with
  | d :: _ => d
  | [] => if isEmpty desktopTokens then DeUnknown else DeOther
  end.

Definition orderedStrategies : list Strategy :=
  match detectDesktop with
  | DeKDE => [StKdesu; StPkexec; StGksu; StLxqtSu; StBeesu; StTermSu]
  | DeLXQt => [StLxqtSu; StPkexec; StKdesu; StGksu; StBeesu; StTermSu]
  | _ => [StPkexec; StGksu; StKdesu; StLxqtSu; StBeesu; StTermSu]
  end.

Definition plannedStrategies : list QString := map strategyId orderedStrategies.

(** [launchAttached]: the helper with the scrubbed environment. *)
Definition launchOf (program : QString) (args : list QString) : Launch := mkLaunch program args (scrubbedHelperEnv (wo_env w)).

(** What a strategy launches; [None] when its helper is not installed. *)
Definition runPkexec (program : QString) (args : list QString) : option Launch :=
  let path := findHelper (qs "pkexec") in
  if isEmpty path then None else Some (launchOf path ([qs "env"] ++ sessionEnv ++ [program] ++ args)).

Definition firstHelper (a b : string) : QString :=
  let path := findHelper (qs a) in if isEmpty path then findHelper (qs b) else path.

Definition runKdesu (program : QString) (args : list QString) : option Launch :=
  let path := firstHelper "kdesu" "kdesudo" in
  if isEmpty path then None else Some (launchOf path [qs "-c"; qjoin [32%Z] (map shellQuote (program :: args))]).

Definition runGksu (id program : QString) (args : list QString) : option Launch :=
  let path := findHelper id in
  if isEmpty path then None else Some (launchOf path (program :: args)).

Definition runTermSudo (program : QString) (args : list QString) : option Launch :=
  let term := firstHelper "x-terminal-emulator" "xterm" in
  if isEmpty term then None
  else
    let sudo := findHelper (qs "sudo") in
    if isEmpty sudo then None else Some (launchOf term ([qs "-e"; sudo; program] ++ args)).

Definition runStrategy (s : Strategy) (program : QString) (args : list QString) : option Launch :=
  match s with
  | StPkexec => runPkexec program args
  | StKdesu => runKdesu program args
  | StGksu => runGksu (qs "gksudo") program args
  | StLxqtSu => runGksu (qs "lxqt-sudo") program args
  | StBeesu => runGksu (qs "beesu") program args
  | StTermSu => runTermSudo program args
  end.

Definition tryMessage (s : Strategy) : QString := qarg (qs "Trying %1" ++ [8230%Z]) (strategyId s).

(** [relaunch]: the strategy that worked, the processes that were started or
    failed to, the status messages. *)
Fixpoint relaunchWith (ss : list Strategy) (program : QString) (args : list QString) : option Strategy * list Launch * list QString :=
  match ss with
  | [] => (None, [], [qs "No privilege helper succeeded."])
  | s :: ss =>
      let attempt := runStrategy s program args in
      let tried := match attempt with Some l => [l] | None => [] end in
      if match attempt with Some l => wo_starts w l | None => false end
      then (Some s, tried, [tryMessage s; qarg (qs "Launched via %1.") (strategyId s)])
      else let '(used, ls, msgs) := relaunchWith ss program args in (used, tried ++ ls, tryMessage s :: msgs)
  end.
Definition relaunch (program : QString) (args : list QString) := relaunchWith orderedStrategies program args.
End Escalator.

(* ------------------------------------------------------------------ *)
(** ** What the helpers make of their arguments *)

(** [env NAME=VALUE... COMMAND ARG...]: operands with an equals sign are
    assignments, the first one without is the command. *)
Fixpoint splitAssign (s : QString) : option (QString * QString) :=
  match s with
  | [] => None
  | c :: r => if (c =? 61)%Z then Some ([], r) else (fun kv => (c :: fst kv, snd kv)) <$> splitAssign r
  end.
Fixpoint envCommand (args : list QString) : list (QString * QString) * list QString :=
  match args with
  | [] => ([], [])
  | a :: rest =>
      match splitAssign a with
      | Some kv => let '(kvs, cmd) := envCommand rest in (kv :: kvs, cmd)
      | None => ([], args)
      end
  end.

(** Words of a POSIX shell, for text made of plain characters, quotes and
    backslashes; anything else outside quotes would be interpreted: [None]. *)
Definition shellPlain (c : QChar) : bool :=
  isDigit c || ((65 <=? c) && (c <=? 90) || (97 <=? c) && (c <=? 122))%Z || existsb (Z.eqb c) (qs "/._-+,:@%=").
Fixpoint shellWords (quoted : bool) (word : option QString) (s : QString) : option (list QString) :=
  match s with
  | [] => if quoted then None else Some (match word with Some w => [w] | None => [] end)
  | c :: r =>
      if quoted then
        if (c =? 39)%Z then shellWords false word r else shellWords true (Some (default [] word ++ [c])) r
      else if (c =? 32)%Z then
        rest ← shellWords false None r; Some (match word with Some w => w :: rest | None => rest end)
      else if (c =? 39)%Z then shellWords true (Some (default [] word)) r
      else if (c =? 92)%Z then
        match r with [] => None | d :: r => shellWords false (Some (default [] word ++ [d])) r end
      else if shellPlain c then shellWords false (Some (default [] word ++ [c])) r
      else None
  end.

Definition quotedBody (p : QString) : QString := List.flat_map (fun c => if (c =? 39)%Z then qs "'\''" else [c]) p.

Lemma shellQuote_eq p : shellQuote p = 39%Z :: quotedBody p ++ [39%Z].
Proof. reflexivity. Qed.

Lemma shellWords_body p acc rest : shellWords true (Some acc) (quotedBody p ++ 39%Z :: rest) = shellWords false (Some (acc ++ p)) rest.
Proof.
  revert acc. induction p as [|c p IH]; intros acc; [by rewrite app_nil_r|]. cbn [quotedBody List.flat_map]. fold (quotedBody p).
  destruct (Z.eqb_spec c 39) as [->|Hc].
  - change (qs "'\''") with [39; 92; 39; 39]%Z. cbn [app shellWords Z.eqb Pos.eqb default]. rewrite IH. cbn [from_option id]. by rewrite <- (app_assoc acc).
  - cbn [app shellWords]. destruct (Z.eqb_spec c 39); [done|]. cbn [default]. rewrite IH. by rewrite <- app_assoc.
Qed.

Lemma shellWords_quoted p rest : shellWords false None (shellQuote p ++ rest) = shellWords false (Some p) rest.
Proof. rewrite shellQuote_eq. cbn [app shellWords Z.eqb Pos.eqb default]. rewrite <- app_assoc. cbn [app]. by rewrite shellWords_body. Qed.

Lemma shellWords_join parts : shellWords false None (qjoin [32%Z] (map shellQuote parts)) = Some parts.
Proof.
  destruct parts as [|p ps]; [done|]. revert p. induction ps as [|q ps IH]; intros p.
  - cbn [map qjoin]. rewrite <- (app_nil_r (shellQuote p)). by rewrite shellWords_quoted.
  - cbn [map]. change (qjoin [32%Z] (shellQuote p :: shellQuote q :: map shellQuote ps)) with (shellQuote p ++ [32%Z] ++ qjoin [32%Z] (map shellQuote (q :: ps))).
    rewrite shellWords_quoted. cbn [app shellWords Z.eqb Pos.eqb]. by rewrite IH.
Qed.

Lemma splitAssign_app k v : 61%Z ∉ k -> splitAssign (k ++ 61%Z :: v) = Some (k, v).
Proof.
  induction k as [|c k IH]; [done|]. intros [Hc Hk]%not_elem_of_cons. cbn [app splitAssign]. destruct (Z.eqb_spec c 61); [congruence|]. by rewrite IH.
Qed.

Lemma splitAssign_none s : 61%Z ∉ s -> splitAssign s = None.
Proof. induction s as [|c s IH]; [done|]. intros [Hc Hs]%not_elem_of_cons. cbn. destruct (Z.eqb_spec c 61); [congruence|]. by rewrite IH. Qed.

Lemma assignment_eq k v : assignment k v = k ++ 61%Z :: v.
Proof. unfold assignment. transitivity (k ++ qs "=" ++ v ++ []); [reflexivity|]. by rewrite app_nil_r. Qed.

Lemma allowlist_names k : k ∈ envAllowlist -> 61%Z ∉ k.
Proof.
  assert (Hall : forallb (fun k => negb (existsb (Z.eqb 61) k)) envAllowlist = true) by (vm_compute; reflexivity).
  rewrite forallb_forall in Hall. intros Hk Hin. apply list_elem_of_In, Hall in Hk. apply negb_true_iff in Hk.
  assert (existsb (Z.eqb 61) k = true); [|congruence]. apply existsb_exists. exists 61%Z. split; [by apply list_elem_of_In|reflexivity].
Qed.

Lemma filterEnv_lookup e k v : filterEnv e !! k = Some v <-> k ∈ envAllowlist /\ e !! k = Some v /\ v <> [].
Proof. unfold filterEnv. rewrite map_lookup_filter_Some. cbn [fst snd]. tauto. Qed.

Lemma kPath_not_allowed : kPath ∉ envAllowlist.
Proof. rewrite list_elem_of_In. vm_compute. naive_solver. Qed.
Lemma handoff_not_allowed k : k = kHandoffSocket \/ k = kHandoffNonceFile -> k ∉ envAllowlist /\ k <> kPath.
Proof. intros [-> | ->]; (split; [rewrite list_elem_of_In; vm_compute; naive_solver|vm_compute; congruence]). Qed.

Lemma scrubbedHelperEnv_lookup e k v :
  scrubbedHelperEnv e !! k = Some v <-> (k = kPath /\ v = kSafePath) \/ (k ∈ envAllowlist /\ e !! k = Some v /\ v <> []).
Proof.
  unfold scrubbedHelperEnv. rewrite lookup_insert_Some, filterEnv_lookup. pose proof kPath_not_allowed. split; [naive_solver|].
  intros [[-> ->]|Hk]; [by left|]. right. split; [|exact Hk]. intros <-. tauto.
Qed.

Lemma scrubbedHelperEnv_handoff e k x : k = kHandoffSocket \/ k = kHandoffNonceFile -> scrubbedHelperEnv (<[k := x]> e) = scrubbedHelperEnv e.
Proof.
  intros [Hk _]%handoff_not_allowed. apply map_eq. intros j. apply option_eq. intros v. rewrite !scrubbedHelperEnv_lookup, lookup_insert_Some.
  split; [naive_solver|]. intros [Hp|(Hj & He & Hv)]; [by left|]. right. split_and!; [done| |done]. right. split; [|done]. intros ->. tauto.
Qed.

Lemma envCommand_assignments l tail :
  Forall (fun kv : QString * QString => 61%Z ∉ fst kv) l ->
  envCommand (map (fun kv => assignment (fst kv) (snd kv)) l ++ tail) = let '(kvs, cmd) := envCommand tail in (l ++ kvs, cmd).
Proof.
  induction 1 as [|[k v] l Hk _ IH]; cbn [map app]; [by destruct (envCommand tail)|]. cbn [envCommand fst snd].
  rewrite assignment_eq, splitAssign_app by done. rewrite IH. by destruct (envCommand tail).
Qed.

Definition passedVariable (e : Env) (name : QString) : list (QString * QString) :=
  match e !! name with Some (c :: v) => [(name, c :: v)] | _ => [] end.

Lemma passVariable_eq e k : k = kHandoffSocket \/ k = kHandoffNonceFile ->
  passVariable e k = map (fun kv => assignment (fst kv) (snd kv)) (passedVariable e k).
Proof.
  intros Hk. unfold passVariable, passedVariable. destruct (e !! k) as [[|c v]|]; [done| |done]. cbn [from_option id isEmpty map fst snd]. f_equal.
  rewrite assignment_eq. destruct Hk as [-> | ->].
  - transitivity (kHandoffSocket ++ 61%Z :: (c :: v) ++ []); [reflexivity|]. by rewrite app_nil_r.
  - transitivity (kHandoffNonceFile ++ 61%Z :: (c :: v) ++ []); [reflexivity|]. by rewrite app_nil_r.
Qed.

Lemma passedVariable_elem e name k v : (k, v) ∈ passedVariable e name <-> k = name /\ e !! name = Some v /\ v <> [].
Proof.
  unfold passedVariable. destruct (e !! name) as [[|c u]|].
  - rewrite elem_of_nil. naive_solver.
  - rewrite list_elem_of_singleton. split; [|naive_solver]. intros [= -> ->]. by split_and!.
  - rewrite elem_of_nil. naive_solver.
Qed.

Section Safety.
Context `{QHashOrderLaws} (w : EscWorld).

Definition rootEnv : list (QString * QString) :=
  hash_iter (filterEnv (wo_env w)) ++ [(kPath, kSafePath)] ++ passedVariable (wo_env w) kHandoffSocket ++ passedVariable (wo_env w) kHandoffNonceFile.

Lemma sessionEnv_eq : sessionEnv w = map (fun kv => assignment (fst kv) (snd kv)) rootEnv.
Proof.
  unfold sessionEnv, rootEnv. rewrite !map_app, !passVariable_eq by tauto. reflexivity.
Qed.

Lemma rootEnv_elem k v :
  (k, v) ∈ rootEnv <->
  (k ∈ envAllowlist /\ wo_env w !! k = Some v /\ v <> []) \/ (k = kPath /\ v = kSafePath)
  \/ ((k = kHandoffSocket \/ k = kHandoffNonceFile) /\ wo_env w !! k = Some v /\ v <> []).
Proof.
  unfold rootEnv. rewrite !elem_of_app, elem_of_hash_iter, filterEnv_lookup, list_elem_of_singleton, !passedVariable_elem. naive_solver.
Qed.

Lemma rootEnv_names : Forall (fun kv : QString * QString => 61%Z ∉ fst kv) rootEnv.
Proof.
  apply Forall_forall. intros [k v] Hin. apply rootEnv_elem in Hin. cbn [fst].
  destruct Hin as [(Hk & _)|[[-> _]|[[-> | ->] _]]]; [by apply allowlist_names| | |]; rewrite list_elem_of_In; vm_compute; naive_solver.
Qed.

(** The command that runs as root under pkexec is the program with its
    arguments, under an environment of exactly these variables: the
    allow-listed ones with the user's values, the fixed search path and the two
    hand-off variables.  The user's own PATH, LD_PRELOAD or plug-in paths never
    reach it. *)
Theorem pkexec_runs_program program args l :
  runPkexec w program args = Some l -> 61%Z ∉ program ->
  exists kvs, la_args l = qs "env" :: (sessionEnv w ++ program :: args) /\
    envCommand (sessionEnv w ++ program :: args) = (kvs, program :: args) /\
    forall k v, (k, v) ∈ kvs <->
      (k ∈ envAllowlist /\ wo_env w !! k = Some v /\ v <> []) \/ (k = kPath /\ v = kSafePath)
      \/ ((k = kHandoffSocket \/ k = kHandoffNonceFile) /\ wo_env w !! k = Some v /\ v <> []).
Proof.
  unfold runPkexec. destruct (isEmpty _); [discriminate|]. intros [= <-] Hp. exists rootEnv. split; [done|]. split; [|apply rootEnv_elem].
  rewrite sessionEnv_eq, envCommand_assignments by apply rootEnv_names. cbn [envCommand]. rewrite splitAssign_none by done. by rewrite app_nil_r.
Qed.

(** A program whose path holds an equals sign is read as one more assignment:
    its first argument would be run instead, or nothing at all. *)
Theorem pkexec_program_misread k v :
  61%Z ∉ k -> exists kvs, envCommand (sessionEnv w ++ [k ++ 61%Z :: v]) = (kvs, []) /\ (k, v) ∈ kvs.
Proof.
  intros Hk. exists (rootEnv ++ [(k, v)]). split; [|apply elem_of_app; right; by apply list_elem_of_singleton].
  rewrite sessionEnv_eq, envCommand_assignments by apply rootEnv_names. cbn [envCommand]. by rewrite splitAssign_app.
Qed.

Definition helperNames : list QString :=
  map qs ["pkexec"; "kdesu"; "kdesudo"; "gksudo"; "lxqt-sudo"; "beesu"; "x-terminal-emulator"; "xterm"]%string.

Lemma firstHelper_cases a b : firstHelper w a b = findHelper w (qs a) \/ firstHelper w a b = findHelper w (qs b).
Proof. unfold firstHelper. destruct (isEmpty _); tauto. Qed.

Lemma helperNames_elem x : existsb (fun y => bool_decide (x = y)) helperNames = true -> x ∈ helperNames.
Proof. rewrite existsb_exists. intros (y & Hy & ->%bool_decide_eq_true). by apply list_elem_of_In. Qed.

Lemma runStrategy_shape s program args l :
  runStrategy w s program args = Some l ->
  (exists name, name ∈ helperNames /\ la_program l = findHelper w name) /\ la_program l <> [] /\ la_env l = scrubbedHelperEnv (wo_env w).
Proof.
  assert (Hone : forall name a, name ∈ helperNames -> (if isEmpty (findHelper w name) then None else Some (launchOf w (findHelper w name) a)) = Some l ->
    (exists name, name ∈ helperNames /\ la_program l = findHelper w name) /\ la_program l <> [] /\ la_env l = scrubbedHelperEnv (wo_env w)).
  { intros name a Hn. destruct (findHelper w name) as [|c p] eqn:Hf; [discriminate|]. cbn [isEmpty]. intros [= <-]. cbn [la_program la_env launchOf].
    split_and!; [|discriminate|done]. exists name. by rewrite Hf. }
  destruct s; cbn [runStrategy]; unfold runPkexec, runKdesu, runGksu, runTermSudo.
  - apply Hone, helperNames_elem. reflexivity.
  - destruct (firstHelper_cases "kdesu" "kdesudo") as [-> | ->]; apply Hone, helperNames_elem; reflexivity.
  - apply Hone, helperNames_elem. reflexivity.
  - apply Hone, helperNames_elem. reflexivity.
  - apply Hone, helperNames_elem. reflexivity.
  - intros Hr. destruct (isEmpty (findHelper w (qs "sudo"))); [by destruct (isEmpty (firstHelper _ _ _))|]. revert Hr.
    destruct (firstHelper_cases "x-terminal-emulator" "xterm") as [-> | ->]; apply Hone, helperNames_elem; reflexivity.
Qed.

Lemma relaunchWith_split ss program args :
  let '(used, tried, _) := relaunchWith w ss program args in
  exists pre post, ss = pre ++ post
    /\ (forall s l, s ∈ pre -> runStrategy w s program args = Some l -> wo_starts w l = false)
    /\ match used with
       | None => post = [] /\ tried = omap (fun s => runStrategy w s program args) ss
       | Some s => exists l post', post = s :: post' /\ runStrategy w s program args = Some l /\ wo_starts w l = true
           /\ tried = omap (fun s => runStrategy w s program args) (pre ++ [s])
       end.
Proof.
  induction ss as [|s ss IH]; cbn [relaunchWith].
  { exists [], []. split_and!; [done| |done|done]. intros s l []%elem_of_nil. }
  destruct (match runStrategy w s program args with Some l => wo_starts w l | None => false end) eqn:Hs.
  - destruct (runStrategy w s program args) as [l|] eqn:Hl; [|discriminate]. exists [], (s :: ss). split_and!; [done|intros ?? []%elem_of_nil|].
    exists l, ss. split_and!; [done..|]. cbn [omap list_omap app]. by rewrite Hl.
  - destruct (relaunchWith w ss program args) as [[used tried] msgs]. destruct IH as (pre & post & -> & Hpre & Hu). exists (s :: pre), post. split; [done|]. split.
    { intros s' l [-> |Hin]%elem_of_cons Hl; [by rewrite Hl in Hs|eauto]. }
    destruct used as [u|].
    + destruct Hu as (l & post' & Hpost & Hl & Hst & ->). exists l, post'. split_and!; [done..|]. cbn [app omap list_omap]. by destruct (runStrategy w s program args).
    + destruct Hu as [-> ->]. split; [done|]. cbn [app omap list_omap]. by destruct (runStrategy w s program args).
Qed.

(** Only pkexec passes the hand-off on: what every other helper is started with
    is the same whatever the hand-off variables hold, so the privileged copy
    it starts never learns where to connect. *)
Theorem handoff_lost s program args k x :
  s <> StPkexec -> k = kHandoffSocket \/ k = kHandoffNonceFile ->
  runStrategy (mkEscWorld (<[k := x]> (wo_env w)) (wo_findExecutable w) (wo_starts w)) s program args = runStrategy w s program args.
Proof.
  intros Hs Hk.
  assert (Hlaunch : forall p a, launchOf (mkEscWorld (<[k := x]> (wo_env w)) (wo_findExecutable w) (wo_starts w)) p a = launchOf w p a).
  { intros p a. unfold launchOf. cbn [wo_env]. by rewrite scrubbedHelperEnv_handoff. }
  destruct s; [done| | | | |]; cbn [runStrategy]; unfold runKdesu, runGksu, runTermSudo, firstHelper, findHelper; cbn [wo_findExecutable]; by rewrite !Hlaunch.
Qed.

(** However the program is called and whatever its arguments hold, the shell
    behind kdesu reads back exactly that program and these arguments: nothing
    of them is interpreted. *)
Theorem kdesu_words program args l :
  runKdesu w program args = Some l -> exists cmd, la_args l = [qs "-c"; cmd] /\ shellWords false None cmd = Some (program :: args).
Proof.
  unfold runKdesu. destruct (isEmpty _); [discriminate|]. intros [= <-]. exists (qjoin [32%Z] (map shellQuote (program :: args))). split; [reflexivity|]. apply shellWords_join.
Qed.

Context (toUpper : QString -> QString).

Lemma orderedStrategies_perm : orderedStrategies toUpper w ≡ₚ [StPkexec; StKdesu; StGksu; StLxqtSu; StBeesu; StTermSu].
Proof. unfold orderedStrategies. destruct (detectDesktop toUpper w); solve_Permutation || (apply NoDup_Permutation; [apply (bool_decide_unpack _); vm_compute; exact I..|]; intros []; rewrite !list_elem_of_In; cbn; tauto). Qed.

(** The strategies are tried in the planned order, each of the six once, until
    the first whose helper starts: that one is reported, nothing is started
    after it, and what was started before it failed. *)
Theorem relaunch_first_success program args :
  let '(used, tried, _) := relaunch toUpper w program args in
  (orderedStrategies toUpper w ≡ₚ [StPkexec; StKdesu; StGksu; StLxqtSu; StBeesu; StTermSu]) /\
  exists pre post, orderedStrategies toUpper w = pre ++ post
    /\ (forall s l, s ∈ pre -> runStrategy w s program args = Some l -> wo_starts w l = false)
    /\ match used with
       | None => post = [] /\ tried = omap (fun s => runStrategy w s program args) (orderedStrategies toUpper w)
       | Some s => exists l post', post = s :: post' /\ runStrategy w s program args = Some l /\ wo_starts w l = true
           /\ tried = omap (fun s => runStrategy w s program args) (pre ++ [s])
       end.
Proof.
  unfold relaunch. pose proof (relaunchWith_split (orderedStrategies toUpper w) program args) as Hs.
  destruct (relaunchWith w _ program args) as [[used tried] msgs]. split; [apply orderedStrategies_perm|exact Hs].
Qed.

Lemma relaunch_tried program args l : l ∈ snd (fst (relaunch toUpper w program args)) -> exists s, runStrategy w s program args = Some l.
Proof.
  unfold relaunch. pose proof (relaunchWith_split (orderedStrategies toUpper w) program args) as Hs.
  destruct (relaunchWith w _ program args) as [[used tried] msgs]. cbn [fst snd]. destruct Hs as (pre & post & _ & _ & Hu).
  destruct used; [destruct Hu as (? & ? & _ & _ & _ & ->)|destruct Hu as [_ ->]]; intros (s' & _ & Hs)%list_elem_of_omap; eauto.
Qed.

(** C32. Whatever the environment the program was started with, every process an
    escalation starts is a helper found in the four system directories, and
    sees only allow-listed variables beside the fixed search path. *)
Theorem escalation_env_safe program args l :
  l ∈ snd (fst (relaunch toUpper w program args)) ->
  (exists name, name ∈ helperNames /\ la_program l = wo_findExecutable w name helperSearchPaths) /\ la_program l <> [] /\
  forall k v, la_env l !! k = Some v <-> (k = kPath /\ v = kSafePath) \/ (k ∈ envAllowlist /\ wo_env w !! k = Some v /\ v <> []).
Proof.
  intros (s & Hl)%relaunch_tried. destruct (runStrategy_shape s program args l Hl) as (Hn & Hne & He). split_and!; [exact Hn|exact Hne|].
  intros k v. rewrite He. apply scrubbedHelperEnv_lookup.
Qed.

End Safety.

(* ------------------------------------------------------------------ *)
(** ** Examples *)

Definition exampleWorld : EscWorld := mkEscWorld
  (list_to_map [(qs "DISPLAY", qs ":0"); (qs "PATH", qs "/tmp/evil"); (qs "LD_PRELOAD", qs "/tmp/x.so");
                (kHandoffSocket, qs "/run/user/1000/h.sock"); (qs "XDG_CURRENT_DESKTOP", qs "ubuntu:GNOME")])
  (fun name dirs => if decide (name = qs "pkexec") then default [] (dirs !! 1%nat) ++ qs "/pkexec"
                    else if decide (name = qs "kdesu") then qs "/usr/bin/kdesu" else [])
  (fun _ => true).

Definition exampleLaunch : Launch :=
  default (mkLaunch [] [] ∅) (runPkexec (H := listHashOrder) exampleWorld (qs "/usr/bin/qiftop") [qs "-v"]).

Lemma pkexec_runs_program_witness :
  runPkexec exampleWorld (qs "/usr/bin/qiftop") [qs "-v"] = Some exampleLaunch
  /\ exists kvs, envCommand (sessionEnv exampleWorld ++ qs "/usr/bin/qiftop" :: [qs "-v"]) = (kvs, [qs "/usr/bin/qiftop"; qs "-v"])
      /\ (kPath, kSafePath) ∈ kvs.
Proof.
  assert (Hr : runPkexec exampleWorld (qs "/usr/bin/qiftop") [qs "-v"] = Some exampleLaunch) by (vm_compute; reflexivity).
  split; [exact Hr|].
  destruct (pkexec_runs_program exampleWorld (qs "/usr/bin/qiftop") [qs "-v"] exampleLaunch Hr) as (kvs & _ & He & Hk).
  { rewrite list_elem_of_In. vm_compute. intuition discriminate. }
  exists kvs. split; [exact He|]. apply Hk. right; left. split; reflexivity.
Defined.

Lemma pkexec_program_misread_witness :
  exists kvs, envCommand (sessionEnv exampleWorld ++ [qs "/opt/a" ++ 61%Z :: qs "b/qiftop"]) = (kvs, []) /\ (qs "/opt/a", qs "b/qiftop") ∈ kvs.
Proof. apply (pkexec_program_misread exampleWorld (qs "/opt/a") (qs "b/qiftop")). rewrite list_elem_of_In. vm_compute. intuition discriminate. Defined.

Lemma escalation_env_safe_witness :
  la_program exampleLaunch = qs "/usr/bin/pkexec" /\ la_env exampleLaunch !! qs "LD_PRELOAD" = None /\ la_env exampleLaunch !! kPath = Some kSafePath.
Proof.
  split; [vm_compute; reflexivity|]. split; [vm_compute; reflexivity|].
  apply (escalation_env_safe exampleWorld id (qs "/usr/bin/qiftop") [qs "-v"] exampleLaunch); [|by left].
  assert (Ht : snd (fst (relaunch id exampleWorld (qs "/usr/bin/qiftop") [qs "-v"])) = [exampleLaunch]) by (vm_compute; reflexivity).
  rewrite Ht. by apply list_elem_of_singleton.
Defined.

Lemma handoff_lost_witness :
  runStrategy (mkEscWorld (<[kHandoffSocket := qs "/tmp/s"]> (wo_env exampleWorld)) (wo_findExecutable exampleWorld) (wo_starts exampleWorld))
    StKdesu (qs "/usr/bin/qiftop") [] = runStrategy exampleWorld StKdesu (qs "/usr/bin/qiftop") []
  /\ runStrategy exampleWorld StKdesu (qs "/usr/bin/qiftop") [] <> None.
Proof.
  split; [apply (handoff_lost exampleWorld StKdesu (qs "/usr/bin/qiftop") [] kHandoffSocket (qs "/tmp/s")); [discriminate|by left]|].
  vm_compute. discriminate.
Defined.

Lemma kdesu_words_witness :
  exists l cmd, runKdesu exampleWorld (qs "/opt/it's/qiftop") [qs "--filter"; qs "$(reboot); x"] = Some l
    /\ la_args l = [qs "-c"; cmd] /\ shellWords false None cmd = Some [qs "/opt/it's/qiftop"; qs "--filter"; qs "$(reboot); x"].
Proof.
  assert (Hr : exists l, runKdesu exampleWorld (qs "/opt/it's/qiftop") [qs "--filter"; qs "$(reboot); x"] = Some l) by (vm_compute; eexists; reflexivity).
  destruct Hr as [l Hr]. destruct (kdesu_words exampleWorld _ _ l Hr) as (cmd & Hc). exists l, cmd. split; [exact Hr|exact Hc].
Defined.

(** Nothing of the plan says which helpers are installed. *)
Example planned_ignores_installed :
  plannedStrategies id (mkEscWorld ∅ (fun _ _ => []) (fun _ => false)) = map strategyId [StPkexec; StGksu; StKdesu; StLxqtSu; StBeesu; StTermSu]
  /\ forall s, runStrategy (mkEscWorld ∅ (fun _ _ => []) (fun _ => false)) s (qs "/usr/bin/qiftop") [] = None.
Proof. split; [vm_compute; reflexivity|]. intros []; vm_compute; reflexivity. Qed.
