(* ===== verification/Platform.v ===== *)
(** * Platform probes and the autostart entry:
      [src/backend/PlatformInfo.cpp], [src/util/Autostart.cpp]

    [getifaddrs], the user and group databases, [stat], Qt's address class and
    the file system are the environment.  [getpwuid_r] and [getgrnam_r] answer
    into a buffer and refuse when the entry does not fit, as POSIX has them;
    reading an INI file back is a class with the law for plain lines. *)

From S2P Require Import Prelude Qt.
From stdpp Require Import fin_sets.

(* ------------------------------------------------------------------ *)
(** ** Addresses *)

Section Addresses.
Context {SockAddr : Type} (sa_family : SockAddr -> Z) (setAddress : SockAddr -> QHostAddress) (isLoopback : QHostAddress -> bool).

Definition AF_INET : Z := 2.
Definition AF_INET6 : Z := 10.

Definition ifaddrOf (ifa : option SockAddr) : option QHostAddress :=
  match ifa with
  | None => None
  | Some sa =>
      if negb (sa_family sa =? AF_INET)%Z && negb (sa_family sa =? AF_INET6)%Z then None
      else let addr := setAddress sa in if addrIsNull addr then None else Some addr
  end.

Definition gatherStep (acc : gset QHostAddress * gset QHostAddress) (ifa : option SockAddr) : gset QHostAddress * gset QHostAddress :=
  match ifaddrOf ifa with
  | None => acc
  | Some addr => if isLoopback addr then (fst acc, {[addr]} ∪ snd acc) else ({[addr]} ∪ fst acc, snd acc)
  end.

(** [None]: the call failed. *)
Definition gatherIfaddrs (head : option (list (option SockAddr))) : gset QHostAddress * gset QHostAddress :=
  match head with None => (∅, ∅) | Some l => foldl gatherStep (∅, ∅) l end.

Definition localAddresses (head : option (list (option SockAddr))) : gset QHostAddress := fst (gatherIfaddrs head).
Definition loopbackAddresses (head : option (list (option SockAddr))) : gset QHostAddress := snd (gatherIfaddrs head).
End Addresses.

(* ------------------------------------------------------------------ *)
(** ** Ephemeral ports *)

(** [QString::toUShort]. *)
Class QtUShortText := ushortOfText : QString -> option Z.
Class QtUShortTextLaws `{QtUShortText} : Prop := {
  ushort_range : forall s z, ushortOfText s = Some z -> (0 <= z <= 65535)%Z;
  ushort_number : forall z, (0 <= z <= 65535)%Z -> ushortOfText (number z) = Some z;
}.

#[global] Instance decimalUShortText : QtUShortText := fun s =>
  z ← parseDec s; if (z <=? 65535)%Z then Some z else None.

(** The parts between runs of white space, the empty ones left out. *)
Fixpoint spaceParts (s : QString) : list QString :=
  match s with
  | [] => [[]]
  | c :: r =>
      if ascii_isSpace c then [] :: spaceParts r
      else match spaceParts r with [] => [[c]] | p :: ps => (c :: p) :: ps end
  end.
Definition splitSpaces (s : QString) : list QString := filter (fun p => p <> []) (spaceParts s).

Definition kIanaEphemeralLow : Z := 49152.
Definition kIanaEphemeralHigh : Z := 65535.

Definition ephemeralPortRange `{QtUShortText} (file : option QString) : Z * Z :=
  match file with
  | None => (kIanaEphemeralLow, kIanaEphemeralHigh)
  | Some text =>
      match splitSpaces text with
      | p0 :: p1 :: _ =>
          match ushortOfText p0, ushortOfText p1 with
          | Some lo, Some hi =>
              if (lo <? hi)%Z && (1024 <=? lo)%Z then (lo, hi) else (kIanaEphemeralLow, kIanaEphemeralHigh)
          | _, _ => (kIanaEphemeralLow, kIanaEphemeralHigh)
          end
      | _ => (kIanaEphemeralLow, kIanaEphemeralHigh)
      end
  end.

(* ------------------------------------------------------------------ *)
(** ** Users and groups *)

(** An entry and the room its strings take. *)
Record Passwd := mkPasswd { pw_name : option QString; pw_gid : Z; pw_room : Z }.
Record GroupEntry := mkGroupEntry { gr_gid : Z; gr_mem : list QString; gr_room : Z }.
Record UserDb := mkUserDb {
  db_passwd : Z -> option Passwd;
  db_group : QString -> option GroupEntry;
  (** [sysconf(_SC_GETPW_R_SIZE_MAX)] and its like for groups; not positive
      when there is no suggestion. *)
  db_pwSize : Z;
  db_grSize : Z;
}.

Definition bufferFor (suggested : Z) : Z := if (suggested <=? 0)%Z then 16384 else suggested.

(** The entry when it exists and fits the buffer. *)
Definition getpwuid_r (db : UserDb) (uid buf : Z) : option Passwd :=
  pw ← db_passwd db uid; if (pw_room pw <=? buf)%Z then Some pw else None.
Definition getgrnam_r (db : UserDb) (name : QString) (buf : Z) : option GroupEntry :=
  gr ← db_group db name; if (gr_room gr <=? buf)%Z then Some gr else None.

Definition kUserCacheMaxItems : Z := 4096.

Definition probeUser (db : UserDb) (uid : Z) : QString :=
  match getpwuid_r db uid (bufferFor (db_pwSize db)) with
  | Some pw => default [] (pw_name pw)
  | None => []
  end.

(** The two critical sections of [userNameForUid]. *)
Definition cachedUserName (uid : Z) (cache : gmap Z QString) : option QString := cache !! uid.
Definition rememberName (uid : Z) (name : QString) (cache : gmap Z QString) : gmap Z QString :=
  <[uid := name]> (if (kUserCacheMaxItems <=? Z.of_nat (size cache))%Z then ∅ else cache).

(** One undisturbed call. *)
Definition userNameForUid (db : UserDb) (uid : Z) (cache : gmap Z QString) : QString * gmap Z QString :=
  match cachedUserName uid cache with
  | Some name => (name, cache)
  | None => let name := probeUser db uid in (name, rememberName uid name cache)
  end.

(** Calls from several threads: a call looks the uid up under the read lock
    and, when it is missing, probes outside the lock and inserts under the
    write lock. *)
Record UserCalls := mkUserCalls { uc_cache : gmap Z QString; uc_probing : list Z; uc_returned : list (Z * QString) }.

Inductive user_step (db : UserDb) : UserCalls -> UserCalls -> Prop :=
| us_hit uid name cache ps rs :
    cachedUserName uid cache = Some name ->
    user_step db (mkUserCalls cache ps rs) (mkUserCalls cache ps ((uid, name) :: rs))
| us_miss uid cache ps rs :
    cachedUserName uid cache = None ->
    user_step db (mkUserCalls cache ps rs) (mkUserCalls cache (uid :: ps) rs)
| us_insert uid cache ps ps' rs :
    ps ≡ₚ uid :: ps' ->
    user_step db (mkUserCalls cache ps rs)
      (mkUserCalls (rememberName uid (probeUser db uid) cache) ps' ((uid, probeUser db uid) :: rs)).

Definition noCalls : UserCalls := mkUserCalls ∅ [] [].

Definition userInGroup (db : UserDb) (uid : Z) (groupName : QString) : bool :=
  if isEmpty groupName then false
  else match getpwuid_r db uid (bufferFor (db_pwSize db)) with
       | None => false
       | Some pw =>
           let loginName := default [] (pw_name pw) in
           match getgrnam_r db groupName (bufferFor (db_grSize db)) with
           | None => false
           | Some gr => (gr_gid gr =? pw_gid pw)%Z || existsb (qeqb loginName) (gr_mem gr)
           end
       end.

(* ------------------------------------------------------------------ *)
(** ** Writing settings into another user's home *)

(** [QFileInfo::path]: what is before the last slash, the root for a slash at
    the front, a dot without one. *)
Fixpoint lastSlash (s : QString) : option QString :=
  match s with
  | [] => None
  | c :: r => match lastSlash r with
              | Some p => Some (c :: p)
              | None => if (c =? 47)%Z then Some [] else None
              end
  end.
Definition fileInfoPath (p : QString) : QString :=
  match lastSlash p with None => qs "." | Some [] => qs "/" | Some d => d end.

Section Escalates.
Context (statUid : QString -> option Z).

Fixpoint ownerWalk (fuel : nat) (p : QString) : bool :=
  match fuel with
  | O => false
  | S fuel =>
      if isEmpty p then false
      else match statUid p with
           | Some uid => negb (uid =? 0)%Z
           | None => let parent := fileInfoPath p in if qeqb parent p then false else ownerWalk fuel parent
           end
  end.

(** A step shortens the path, but for the one from a bare name to the dot. *)
Definition walkFuel (p : QString) : nat := length p + 2.

Definition settingsWriteWouldEscalate (euid : Z) (cfgRoot : QString) : bool :=
  if negb (euid =? 0)%Z then false
  else if isEmpty cfgRoot then false
  else ownerWalk (walkFuel cfgRoot) cfgRoot.
End Escalates.

(* ------------------------------------------------------------------ *)
(** ** The autostart entry *)

(** [QSettings] over an INI text: the value of a key in a group. *)
Class IniReader := iniValue : QString -> QString -> QString -> option QString.

Definition iniLine (kv : QString * QString) : QString := fst kv ++ 61%Z :: snd kv.
Definition iniText (group : QString) (kvs : list (QString * QString)) : QString :=
  List.flat_map (fun l => l ++ [10%Z]) ((91%Z :: group ++ [93%Z]) :: map iniLine kvs).

(** A value that stands for itself: no line break, quote, escape, list or
    comment character in it. *)
Definition iniPlain (s : QString) : Prop := forall c, c ∈ s -> c ∉ [10; 13; 34; 92; 44; 59; 64]%Z.

(** What stays on its line, and a key. *)
Definition iniInLine (s : QString) : Prop := forall c, c ∈ s -> c ∉ [10; 13; 34; 92]%Z.
Definition iniKey (s : QString) : Prop := forall c, c ∈ s -> c ∉ [10; 13; 34; 92; 61; 91; 93; 59; 37]%Z.

Class IniReaderLaws `{IniReader} : Prop :=
  ini_reads : forall group kvs k v,
    10%Z ∉ group -> NoDup kvs.*1 -> (forall k v, (k, v) ∈ kvs -> iniKey k /\ iniInLine v) ->
    (k, v) ∈ kvs -> iniPlain v -> iniValue (iniText group kvs) group k = Some v.

(** [QVariant::toBool] of a text from the file. *)
Definition boolText `{QtUnicode} (s : QString) : bool :=
  let l := toLower s in negb (isEmpty l || qeqb l (qs "0") || qeqb l (qs "false")).

Definition autostartDir (configLocation : QString) : QString := configLocation ++ qs "/autostart".
Definition entryPath (configLocation : QString) : QString := autostartDir configLocation ++ [47%Z] ++ qs "qiftop.desktop".
Definition execPath (applied : QString) (isExecutable : bool) : QString :=
  if negb (isEmpty applied) && isExecutable then applied else qs "/usr/bin/qiftop".

Definition desktopTemplate : QString := qs "[Desktop Entry]
Type=Application
Name=qiftop
Comment=Qt6 iftop-style network monitor
Exec=%1 --tray
Icon=qiftop
Terminal=false
Categories=Network;Monitor;
X-GNOME-Autostart-enabled=true
Hidden=false
".
Definition desktopBody (exec : QString) : QString := qarg desktopTemplate exec.

(** What the file system does with the calls of one [setEnabled]. *)
Record FsAnswers := mkFsAnswers { fs_mkpath : bool; fs_open : bool; fs_written : nat; fs_remove : bool }.

Definition isEnabled `{QtUnicode, IniReader} (cfg : QString) (fs : gmap QString QString) : bool :=
  match fs !! entryPath cfg with
  | None => false
  | Some text =>
      if boolText (default (qs "false") (iniValue text (qs "Desktop Entry") (qs "Hidden"))) then false
      else boolText (default (qs "true") (iniValue text (qs "Desktop Entry") (qs "X-GNOME-Autostart-enabled")))
  end.

Definition setEnabled (cfg exec : QString) (a : FsAnswers) (enabled : bool) (fs : gmap QString QString) : bool * gmap QString QString :=
  let path := entryPath cfg in
  if negb enabled then
    match fs !! path with
    | None => (true, fs)
    | Some _ => if fs_remove a then (true, delete path fs) else (false, fs)
    end
  else if negb (fs_mkpath a) then (false, fs)
  else if negb (fs_open a) then (false, fs)
  else (true, <[path := take (fs_written a) (desktopBody exec)]> fs).

(** The words of an Exec line whose characters stand for themselves. *)
Definition execWords (exec : QString) : list QString := filter (fun p => p <> []) (qsplit 32 exec).

(* ------------------------------------------------------------------ *)
(** ** Addresses: what the two sets hold *)

Section AddressesProofs.
Context {SockAddr : Type} (sa_family : SockAddr -> Z) (setAddress : SockAddr -> QHostAddress) (isLoopback : QHostAddress -> bool).

Lemma gather_elem l acc a :
  (a ∈ fst (foldl (gatherStep sa_family setAddress isLoopback) acc l) <->
     a ∈ fst acc \/ isLoopback a = false /\ Some a ∈ map (ifaddrOf sa_family setAddress) l) /\
  (a ∈ snd (foldl (gatherStep sa_family setAddress isLoopback) acc l) <->
     a ∈ snd acc \/ isLoopback a = true /\ Some a ∈ map (ifaddrOf sa_family setAddress) l).
Proof.
  revert acc. induction l as [|x l IH]; intros acc; cbn [foldl map]; [set_solver|]. destruct (IH (gatherStep sa_family setAddress isLoopback acc x)) as [-> ->].
  unfold gatherStep. rewrite !elem_of_cons. destruct (ifaddrOf sa_family setAddress x) as [b|].
  - assert (Hb : Some a = Some b <-> a = b) by (split; congruence). rewrite Hb.
    destruct (isLoopback b) eqn:Eb; cbn [fst snd]; rewrite elem_of_union, elem_of_singleton; split; split; intuition (subst; congruence || auto).
  - assert (Hb : Some a = None <-> False) by (split; [discriminate|tauto]). rewrite Hb. tauto.
Qed.

(** The two sets are disjoint, and together they hold exactly the Internet
    addresses of the interfaces; a failing call gives none. *)
Theorem addresses_partition head a :
  (a ∈ localAddresses sa_family setAddress isLoopback head <->
     isLoopback a = false /\ exists l sa, head = Some l /\ Some sa ∈ l /\ setAddress sa = a /\ a <> AddrNull /\ (sa_family sa = AF_INET \/ sa_family sa = AF_INET6)) /\
  (a ∈ loopbackAddresses sa_family setAddress isLoopback head <->
     isLoopback a = true /\ exists l sa, head = Some l /\ Some sa ∈ l /\ setAddress sa = a /\ a <> AddrNull /\ (sa_family sa = AF_INET \/ sa_family sa = AF_INET6)) /\
  localAddresses sa_family setAddress isLoopback head ## loopbackAddresses sa_family setAddress isLoopback head.
Proof.
  assert (Hin : forall l, Some a ∈ map (ifaddrOf sa_family setAddress) l <->
    exists sa, Some sa ∈ l /\ setAddress sa = a /\ a <> AddrNull /\ (sa_family sa = AF_INET \/ sa_family sa = AF_INET6)).
  { intros l. rewrite list_elem_of_fmap. unfold ifaddrOf. split.
    - intros ([sa|] & Hs & Hl); [|done]. exists sa. split; [done|].
      destruct (negb (sa_family sa =? AF_INET)%Z && negb (sa_family sa =? AF_INET6)%Z) eqn:Ef; [done|].
      assert (Hf : sa_family sa = AF_INET \/ sa_family sa = AF_INET6).
      { apply andb_false_iff in Ef as [Ef|Ef]; apply negb_false_iff, Z.eqb_eq in Ef; tauto. }
      destruct (setAddress sa) eqn:Ea; cbn in Hs; [done|injection Hs as ->..]; (split_and!; [done|discriminate|exact Hf]).
    - intros (sa & Hl & <- & Hn & Hf). exists (Some sa). split; [|done].
      assert (Ef : negb (sa_family sa =? AF_INET)%Z && negb (sa_family sa =? AF_INET6)%Z = false).
      { apply andb_false_iff. destruct Hf as [-> | ->]; [by left|by right]. }
      rewrite Ef. by destruct (setAddress sa). }
  unfold localAddresses, loopbackAddresses, gatherIfaddrs. destruct head as [l|]; cbn [fst snd].
  - split_and!; [| |intros b Hb Hb'].
    + destruct (gather_elem l (∅, ∅) a) as [-> _]. cbn [fst]. rewrite Hin, elem_of_empty. split.
      * intros [[]|[Hlo (sa & Hsa)]]. split; [done|]. by exists l, sa.
      * intros [Hlo (l' & sa & [= <-] & Hsa)]. right. split; [done|]. by exists sa.
    + destruct (gather_elem l (∅, ∅) a) as [_ ->]. cbn [snd]. rewrite Hin, elem_of_empty. split.
      * intros [[]|[Hlo (sa & Hsa)]]. split; [done|]. by exists l, sa.
      * intros [Hlo (l' & sa & [= <-] & Hsa)]. right. split; [done|]. by exists sa.
    + destruct (gather_elem l (∅, ∅) b) as [Hl Hr]. apply Hl in Hb as [Hb|[Hb _]]; apply Hr in Hb' as [Hb'|[Hb' _]];
        solve [by apply elem_of_empty in Hb|by apply elem_of_empty in Hb'|congruence].
  - split_and!; [rewrite elem_of_empty; split; [done|by intros (_ & ? & ? & [=] & _)]..|]. apply disjoint_empty_l.
Qed.
End AddressesProofs.

(* ------------------------------------------------------------------ *)
(** ** Ephemeral ports: a valid range from any file *)

#[global] Instance decimalUShortText_laws : @QtUShortTextLaws decimalUShortText.
Proof.
  split.
  - intros s z. unfold ushortOfText, decimalUShortText, parseDec. destruct s as [|c s]; [done|].
    destruct (uint_of_digits (c :: s)) as [d|]; [|done]. cbn. destruct (Z.leb_spec (Z.of_N (N.of_uint d)) 65535); [|done]. intros [= <-]. lia.
  - intros z Hz. unfold ushortOfText, decimalUShortText. rewrite parseDec_number by lia. cbn. destruct (Z.leb_spec z 65535); [done|lia].
Qed.

Lemma spaceParts_word w s : Forall (fun c => ascii_isSpace c = false) w ->
  spaceParts (w ++ s) = match spaceParts s with [] => [w] | p :: ps => (w ++ p) :: ps end.
Proof.
  assert (Hne : forall s, spaceParts s <> []). { intros [|c r]; cbn; [done|]. destruct (ascii_isSpace c); [done|]. by destruct (spaceParts r). }
  induction 1 as [|c w Hc _ IH]; cbn [app spaceParts]; [specialize (Hne s); by destruct (spaceParts s)|].
  rewrite Hc, IH. by destruct (spaceParts s).
Qed.

Lemma number_no_space z : (0 <= z)%Z -> Forall (fun c => ascii_isSpace c = false) (number z).
Proof.
  intros Hz. eapply Forall_impl; [apply number_digits, Hz|]. intros c Hc. unfold isDigit in Hc. unfold ascii_isSpace. 
  destruct (Z.leb_spec 48 c), (Z.leb_spec c 57); try discriminate Hc. destruct (Z.leb_spec 9 c), (Z.leb_spec c 13), (Z.eqb_spec c 32); cbn; lia.
Qed.

Lemma number_text_nonempty z : (0 <= z)%Z -> number z <> [].
Proof. intros Hz He. pose proof (parseDec_number z Hz) as Hp. rewrite He in Hp. discriminate Hp. Qed.

Section Range.
Context `{QtUShortTextLaws}.

(** Whatever the file holds, or when there is none, the range is one the
    header promises: not empty, above the reserved ports and within 16 bits;
    a range the kernel publishes is the one returned. *)
Theorem ephemeral_range_valid file :
  (1024 <= fst (ephemeralPortRange file))%Z /\ (fst (ephemeralPortRange file) < snd (ephemeralPortRange file) <= 65535)%Z /\
  forall lo hi, (1024 <= lo < hi)%Z -> (hi <= 65535)%Z -> ephemeralPortRange (Some (number lo ++ [9%Z] ++ number hi ++ [10%Z])) = (lo, hi).
Proof.
  assert (Hv : (1024 <= fst (ephemeralPortRange file) < snd (ephemeralPortRange file) /\ snd (ephemeralPortRange file) <= 65535)%Z).
  { unfold ephemeralPortRange, kIanaEphemeralLow, kIanaEphemeralHigh. destruct file as [t|]; [|cbn [fst snd]; lia].
    destruct (splitSpaces t) as [|p0 [|p1 ps]]; [cbn [fst snd]; lia..|].
    destruct (ushortOfText p0) as [lo|] eqn:E0; [|cbn [fst snd]; lia]. destruct (ushortOfText p1) as [hi|] eqn:E1; [|cbn [fst snd]; lia].
    apply ushort_range in E0, E1. destruct (Z.ltb_spec lo hi), (Z.leb_spec 1024 lo); cbn [andb fst snd]; lia. }
  split_and!; [lia..|].
  - intros lo hi Hlo Hhi. unfold ephemeralPortRange. assert (Hs : splitSpaces (number lo ++ [9%Z] ++ number hi ++ [10%Z]) = [number lo; number hi]).
    { unfold splitSpaces. rewrite spaceParts_word by (apply number_no_space; lia). cbn [app spaceParts]. change (ascii_isSpace 9) with true. cbn [ascii_isSpace].
      rewrite spaceParts_word by (apply number_no_space; lia). cbn [spaceParts]. change (ascii_isSpace 10) with true. rewrite !app_nil_r.
      rewrite filter_cons_True by (apply number_text_nonempty; lia). rewrite filter_cons_True by (apply number_text_nonempty; lia). done. }
    rewrite Hs, !ushort_number by lia. destruct (Z.ltb_spec lo hi), (Z.leb_spec 1024 lo); [done|lia..].
Qed.
End Range.

(* ------------------------------------------------------------------ *)
(** ** Users: the cache is bounded and right under any interleaving *)

Lemma rememberName_size uid name cache : (Z.of_nat (size cache) <= kUserCacheMaxItems)%Z -> (Z.of_nat (size (rememberName uid name cache)) <= kUserCacheMaxItems)%Z.
Proof.
  intros Hc. unfold rememberName. destruct (Z.leb_spec kUserCacheMaxItems (Z.of_nat (size cache))) as [_|Hl].
  - rewrite map_size_insert, lookup_empty, map_size_empty. unfold kUserCacheMaxItems. lia.
  - rewrite map_size_insert. destruct (cache !! uid); cbn; lia.
Qed.

Lemma rememberName_lookup uid name cache k v : rememberName uid name cache !! k = Some v -> k = uid /\ v = name \/ cache !! k = Some v.
Proof.
  unfold rememberName. rewrite lookup_insert_Some. intros [[<- <-]|[_ Hk]]; [by left|right].
  destruct (kUserCacheMaxItems <=? Z.of_nat (size cache))%Z; [by rewrite lookup_empty in Hk|done].
Qed.

Definition users_ok (db : UserDb) (c : UserCalls) : Prop :=
  (Z.of_nat (size (uc_cache c)) <= kUserCacheMaxItems)%Z /\
  (forall k v, uc_cache c !! k = Some v -> v = probeUser db k) /\
  (forall k v, (k, v) ∈ uc_returned c -> v = probeUser db k).

Lemma user_step_ok db c c' : users_ok db c -> user_step db c c' -> users_ok db c'.
Proof.
  intros (Hs & Hc & Hr) Hstep. destruct Hstep as [uid name cache ps rs Hhit|uid cache ps rs Hmiss|uid cache ps ps' rs Hp];
    cbn [uc_cache uc_returned uc_probing] in *.
  - split_and!; [done..|]. intros k v [[= -> ->]|Hin]%elem_of_cons; [by apply Hc|by apply Hr].
  - by split_and!.
  - split_and!; [by apply rememberName_size| |].
    + intros k v [[-> ->]|Hk]%rememberName_lookup; [done|by apply Hc].
    + intros k v [[= -> ->]|Hin]%elem_of_cons; [done|by apply Hr].
Qed.

(** However the calls of several threads interleave, the cache never exceeds
    its bound and every call returns what the user database says. *)
Theorem user_names_right db c :
  rtc (user_step db) noCalls c ->
  (Z.of_nat (size (uc_cache c)) <= 4096)%Z /\ (forall uid name, (uid, name) ∈ uc_returned c -> name = probeUser db uid).
Proof.
  intros Hrun. assert (Hok : users_ok db c); [|destruct Hok as (? & _ & ?); split; assumption].
  cut (users_ok db noCalls); [|split_and!; [vm_compute; discriminate|intros k v Hk; discriminate Hk|intros k v []%elem_of_nil]].
  revert Hrun. generalize noCalls. intros c0 Hrun. induction Hrun as [|? ? ? Hst _ IH]; [done|]. intros H0. apply IH. by eapply user_step_ok.
Qed.

(** Membership is exactly a primary or supplementary one of a user and a group
    whose entries fit the buffers. *)
Theorem userInGroup_exact db uid groupName :
  userInGroup db uid groupName = true <->
  groupName <> [] /\ exists pw gr, db_passwd db uid = Some pw /\ db_group db groupName = Some gr
    /\ (pw_room pw <= bufferFor (db_pwSize db))%Z /\ (gr_room gr <= bufferFor (db_grSize db))%Z
    /\ (gr_gid gr = pw_gid pw \/ default [] (pw_name pw) ∈ gr_mem gr).
Proof.
  unfold userInGroup. destruct groupName as [|c g]; [cbn [isEmpty]; split; [done|by intros [[] _]]|]. cbn [isEmpty]. unfold getpwuid_r, getgrnam_r.
  destruct (db_passwd db uid) as [pw|]; cbn; [|split; [done|by intros (_ & ? & ? & [=] & _)]].
  destruct (Z.leb_spec (pw_room pw) (bufferFor (db_pwSize db))); [|split; [done|intros (_ & ? & ? & [= <-] & _ & ? & _); lia]].
  destruct (db_group db (c :: g)) as [gr|]; cbn; [|split; [done|by intros (_ & ? & ? & _ & [=] & _)]].
  destruct (Z.leb_spec (gr_room gr) (bufferFor (db_grSize db))); [|split; [done|intros (_ & ? & ? & _ & [= <-] & _ & ? & _); lia]].
  rewrite orb_true_iff, Z.eqb_eq, existsb_exists. split.
  - intros Hm. split; [done|]. exists pw, gr. split_and!; [done..|]. destruct Hm as [Hm|(m & Hm & He)]; [by left|right].
    apply qeqb_eq in He as ->. by apply list_elem_of_In.
  - intros (_ & pw' & gr' & [= <-] & [= <-] & _ & _ & Hm). destruct Hm as [Hm|Hm]; [by left|right].
    exists (default [] (pw_name pw)). split; [by apply list_elem_of_In|by apply qeqb_eq].
Qed.

(** A member of a group whose entry is larger than the suggested buffer is
    taken for a stranger. *)
Theorem large_group_refused db uid groupName gr :
  db_group db groupName = Some gr -> (bufferFor (db_grSize db) < gr_room gr)%Z -> userInGroup db uid groupName = false.
Proof.
  intros Hg Hr. destruct (userInGroup db uid groupName) eqn:E; [|done]. apply userInGroup_exact in E as (_ & pw & gr' & _ & Hg' & _ & Hroom & _).
  rewrite Hg in Hg'. injection Hg' as <-. lia.
Qed.

(* ------------------------------------------------------------------ *)
(** ** The walk to the nearest existing directory *)

Lemma lastSlash_length s p : lastSlash s = Some p -> (length p < length s)%nat.
Proof.
  revert p. induction s as [|c s IH]; intros p; cbn [lastSlash]; [done|]. destruct (lastSlash s) as [q|].
  - intros [= <-]. cbn [length]. specialize (IH q eq_refl). lia.
  - destruct (c =? 47)%Z; [|done]. intros [= <-]. cbn [length]. lia.
Qed.

(** How many steps are left at most: a name without a slash takes one more. *)
Definition walkMeasure (p : QString) : nat := length p + if lastSlash p then 1%nat else if qeqb p (qs ".") then 0%nat else 1%nat.

Lemma fileInfoPath_measure p : p <> [] -> fileInfoPath p <> p -> (walkMeasure (fileInfoPath p) < walkMeasure p)%nat.
Proof.
  intros Hne Hp. unfold fileInfoPath in *.
  assert (Hroot : walkMeasure (qs "/") = 2%nat) by reflexivity. assert (Hdot : walkMeasure (qs ".") = 1%nat) by reflexivity.
  destruct (lastSlash p) as [[|c d]|] eqn:El.
  - rewrite Hroot. unfold walkMeasure. rewrite El. destruct p as [|a [|b p]]; [done| |cbn [length]; lia].
    cbn in El. destruct (Z.eqb_spec a 47) as [->|]; [|done]. by destruct Hp.
  - apply lastSlash_length in El as Hl. unfold walkMeasure at 2. rewrite El. unfold walkMeasure. destruct (lastSlash (c :: d)), (qeqb (c :: d) (qs ".")); lia.
  - rewrite Hdot. unfold walkMeasure. rewrite El. apply not_eq_sym, qeqb_neq in Hp. rewrite Hp. destruct p; cbn [length]; [done|lia].
Qed.

Lemma walkMeasure_fuel p : (walkMeasure p < walkFuel p)%nat.
Proof. unfold walkMeasure, walkFuel. destruct (lastSlash p), (qeqb p (qs ".")); lia. Qed.

Section Walk.
Context (statUid : QString -> option Z).

(** The nearest existing ancestor of a path, itself included. *)
Inductive NearestOwner : QString -> Z -> Prop :=
| no_here p uid : p <> [] -> statUid p = Some uid -> NearestOwner p uid
| no_parent p uid : p <> [] -> statUid p = None -> fileInfoPath p <> p -> NearestOwner (fileInfoPath p) uid -> NearestOwner p uid.

Lemma ownerWalk_exact fuel p : (walkMeasure p < fuel)%nat -> ownerWalk statUid fuel p = true <-> exists uid, NearestOwner p uid /\ uid <> 0%Z.
Proof.
  revert p. induction fuel as [|fuel IH]; intros p Hf; [lia|]. cbn [ownerWalk]. destruct p as [|c p]; [cbn [isEmpty]; split; [done|intros (uid & Hn & _); by inversion Hn]|].
  cbn [isEmpty]. destruct (statUid (c :: p)) as [uid|] eqn:Es.
  - rewrite negb_true_iff, Z.eqb_neq. split; [intros Hu; exists uid; split; [by constructor|done]|].
    intros (u & Hn & Hu). inversion Hn as [? ? _ Hs|? ? _ Hs _ _]; congruence.
  - destruct (qeqb (fileInfoPath (c :: p)) (c :: p)) eqn:Ep.
    + apply qeqb_eq in Ep. split; [done|]. intros (u & Hn & Hu). inversion Hn as [? ? _ Hs|? ? _ _ Hd _]; congruence.
    + apply qeqb_neq in Ep. rewrite IH by (pose proof (fileInfoPath_measure (c :: p) ltac:(done) Ep); lia). split; intros (u & Hn & Hu); exists u; (split; [|done]).
      * by apply no_parent.
      * inversion Hn as [? ? _ Hs|? ? _ _ _ Hd]; [congruence|done].
Qed.

End Walk.

(* ------------------------------------------------------------------ *)
(** ** The autostart entry *)

(** A reader of INI text: the first line of the group with the key. *)
Fixpoint splitKey (l : QString) : option (QString * QString) :=
  match l with
  | [] => None
  | c :: r => if (c =? 61)%Z then Some ([], r) else (fun kv => (c :: fst kv, snd kv)) <$> splitKey r
  end.
Fixpoint firstKey (k : QString) (ls : list QString) : option QString :=
  match ls with
  | [] => None
  | l :: ls => match splitKey l with
               | Some (k', v) => if qeqb k' k then Some v else firstKey k ls
               | None => firstKey k ls
               end
  end.
#[global] Instance simpleIni : IniReader := fun text group k =>
  match qsplit 10 text with
  | l :: ls => if qeqb l (91%Z :: group ++ [93%Z]) then firstKey k ls else None
  | [] => None
  end.

Lemma qsplit_lines ls : Forall (fun l => 10%Z ∉ l) ls -> qsplit 10 (List.flat_map (fun l => l ++ [10%Z]) ls) = ls ++ [[]].
Proof. induction 1 as [|l ls Hl _ IH]; [done|]. cbn [List.flat_map app]. rewrite <- app_assoc. cbn [app]. by rewrite qsplit_app, IH. Qed.

Lemma splitKey_line k v : 61%Z ∉ k -> splitKey (iniLine (k, v)) = Some (k, v).
Proof.
  unfold iniLine. cbn [fst snd]. induction k as [|c k IH]; [done|]. intros [Hc Hk]%not_elem_of_cons. cbn [app splitKey].
  destruct (Z.eqb_spec c 61); [congruence|]. by rewrite IH.
Qed.

Lemma firstKey_lines kvs tail k v :
  NoDup kvs.*1 -> (forall k v, (k, v) ∈ kvs -> 61%Z ∉ k) -> (k, v) ∈ kvs -> firstKey k (map iniLine kvs ++ tail) = Some v.
Proof.
  induction kvs as [|[k' v'] kvs IH]; [by intros _ _ ?%elem_of_nil|]. cbn [fmap list_fmap map app fst]. intros [Hn Hd]%NoDup_cons Hk Hin.
  cbn [firstKey]. rewrite splitKey_line by (eapply Hk, elem_of_cons; by left). destruct (qeqb k' k) eqn:E.
  - apply qeqb_eq in E as ->. apply elem_of_cons in Hin as [[= ->]|Hin]; [done|]. destruct Hn. apply list_elem_of_fmap. by exists (k, v).
  - apply elem_of_cons in Hin as [Hin|Hin]; [injection Hin as -> ->; by rewrite (proj2 (qeqb_eq k' k')) in E|].
    apply IH; [done| |done]. intros ? ? Hin'. eapply Hk, elem_of_cons. by right.
Qed.

#[global] Instance simpleIni_laws : @IniReaderLaws simpleIni.
Proof.
  intros group kvs k v Hg Hnd Hkv Hin _. unfold iniValue, simpleIni, iniText. rewrite qsplit_lines.
  - cbn [app]. rewrite (proj2 (qeqb_eq _ _)) by done. apply firstKey_lines; [done| |done].
    intros k' v' Hin'. destruct (Hkv _ _ Hin') as [Hk _]. intros Hc. apply (Hk _ Hc), list_elem_of_In. cbn. tauto.
  - apply Forall_cons. split.
    + intros Hc. apply elem_of_cons in Hc as [Hc|Hc]; [done|]. apply elem_of_app in Hc as [Hc|Hc]; [done|]. by apply list_elem_of_singleton in Hc.
    + apply Forall_forall. intros l ([k' v'] & -> & Hin')%list_elem_of_fmap. destruct (Hkv _ _ Hin') as [Hk Hv]. unfold iniLine. cbn [fst snd].
      intros Hc. apply elem_of_app in Hc as [Hc|Hc]; [apply (Hk _ Hc), list_elem_of_In; cbn; tauto|].
      apply elem_of_cons in Hc as [Hc|Hc]; [done|]. apply (Hv _ Hc), list_elem_of_In. cbn. tauto.
Qed.

Definition desktopKeys (exec : QString) : list (QString * QString) :=
  [(qs "Type", qs "Application"); (qs "Name", qs "qiftop"); (qs "Comment", qs "Qt6 iftop-style network monitor");
   (qs "Exec", exec ++ qs " --tray"); (qs "Icon", qs "qiftop"); (qs "Terminal", qs "false"); (qs "Categories", qs "Network;Monitor;");
   (qs "X-GNOME-Autostart-enabled", qs "true"); (qs "Hidden", qs "false")].

Lemma iniText_split g l1 k v t l2 :
  iniText g (l1 ++ (k, v ++ t) :: l2) = (iniText g l1 ++ k ++ [61%Z]) ++ v ++ (t ++ 10%Z :: List.flat_map (fun l => l ++ [10%Z]) (map iniLine l2)).
Proof.
  unfold iniText. rewrite map_app. cbn [List.flat_map map]. rewrite flat_map_app. cbn [List.flat_map map]. unfold iniLine at 2. cbn [fst snd].
  repeat (rewrite <- app_assoc; cbn [app]). reflexivity.
Qed.

Lemma desktopBody_ini exec : desktopBody exec = iniText (qs "Desktop Entry") (desktopKeys exec).
Proof.
  unfold desktopKeys.
  transitivity ((iniText (qs "Desktop Entry") (take 3 (desktopKeys [])) ++ qs "Exec" ++ [61%Z]) ++ exec ++ (qs " --tray" ++ 10%Z :: List.flat_map (fun l => l ++ [10%Z]) (map iniLine (drop 4 (desktopKeys []))))).
  - reflexivity.
  - exact (eq_sym (iniText_split (qs "Desktop Entry") (take 3 (desktopKeys [])) (qs "Exec") exec (qs " --tray") (drop 4 (desktopKeys [])))).
Qed.

Lemma desktopKeys_line exec k v : iniInLine exec -> (k, v) ∈ desktopKeys exec -> iniKey k /\ iniInLine v.
Proof.
  intros He Hin.
  assert (Hall : forall l, forallb (fun c => negb (existsb (Z.eqb c) [10; 13; 34; 92]%Z)) l = true -> iniInLine l).
  { intros l Hl c Hc Hb. rewrite forallb_forall in Hl. apply list_elem_of_In, Hl, negb_true_iff in Hc.
    assert (existsb (Z.eqb c) [10; 13; 34; 92]%Z = true); [|congruence]. apply existsb_exists. exists c. split; [by apply list_elem_of_In|by apply Z.eqb_eq]. }
  assert (Hkey : forall l, forallb (fun c => negb (existsb (Z.eqb c) [10; 13; 34; 92; 61; 91; 93; 59; 37]%Z)) l = true -> iniKey l).
  { intros l Hl c Hc Hb. rewrite forallb_forall in Hl. apply list_elem_of_In, Hl, negb_true_iff in Hc.
    assert (existsb (Z.eqb c) [10; 13; 34; 92; 61; 91; 93; 59; 37]%Z = true); [|congruence]. apply existsb_exists. exists c. split; [by apply list_elem_of_In|by apply Z.eqb_eq]. }
  unfold desktopKeys in Hin. apply list_elem_of_In in Hin. cbn [In] in Hin.
  decompose [or] Hin; clear Hin; try contradiction;
    match goal with Heq : (_, _) = (_, _) |- _ => injection Heq as <- <- end; (split; [apply Hkey; reflexivity|]); try (apply Hall; reflexivity).
  intros c [Hc|Hc]%elem_of_app; [by apply He|]. apply (Hall (qs " --tray")); [reflexivity|done].
Qed.

Section Entry.
Context `{QtUnicodeLaws, IniReaderLaws}.

Lemma boolText_false : boolText (qs "false") = false.
Proof. unfold boolText. rewrite toLower_ascii by (repeat constructor; unfold isAscii; lia). reflexivity. Qed.
Lemma boolText_true : boolText (qs "true") = true.
Proof. unfold boolText. rewrite toLower_ascii by (repeat constructor; unfold isAscii; lia). reflexivity. Qed.

Lemma desktop_value exec k v : iniInLine exec -> (k, v) ∈ desktopKeys exec -> iniPlain v -> iniValue (desktopBody exec) (qs "Desktop Entry") k = Some v.
Proof.
  intros He Hin Hp. rewrite desktopBody_ini. apply ini_reads; [| | |done|done].
  - rewrite list_elem_of_In. vm_compute. intuition discriminate.
  - apply (bool_decide_unpack _). vm_compute. exact I.
  - intros k' v'. by apply desktopKeys_line.
Qed.

(** When the calls on the file system succeed, the state asked for is the state
    found afterwards; when one is reported to fail, nothing has changed; and no
    other file is ever touched. *)
Theorem autostart_roundtrip cfg exec a enabled fs :
  iniInLine exec -> (length (desktopBody exec) <= fs_written a)%nat ->
  let '(ok, fs') := setEnabled cfg exec a enabled fs in
  (if ok then isEnabled cfg fs' = enabled else fs' = fs) /\ delete (entryPath cfg) fs' = delete (entryPath cfg) fs.
Proof.
  intros He Hw. unfold setEnabled. destruct enabled; cbn [negb].
  - destruct (fs_mkpath a), (fs_open a); cbn [negb]; [|done..]. split; [|apply delete_insert_eq]. unfold isEnabled.
    rewrite lookup_insert_eq, take_ge by done. rewrite (desktop_value exec (qs "Hidden") (qs "false")); [|done|apply list_elem_of_In; unfold desktopKeys; cbn [In]; tauto|].
    2: { intros c Hc Hb. apply list_elem_of_In in Hc, Hb. vm_compute in Hc, Hb. intuition congruence. }
    cbn [from_option id]. rewrite boolText_false.
    rewrite (desktop_value exec (qs "X-GNOME-Autostart-enabled") (qs "true")); [|done|apply list_elem_of_In; unfold desktopKeys; cbn [In]; tauto|].
    2: { intros c Hc Hb. apply list_elem_of_In in Hc, Hb. vm_compute in Hc, Hb. intuition congruence. }
    apply boolText_true.
  - destruct (fs !! entryPath cfg) as [t|] eqn:Et; [|split; [|done]; unfold isEnabled; by rewrite Et]. destruct (fs_remove a); [|done].
    split; [unfold isEnabled; by rewrite lookup_delete_eq|by rewrite delete_delete_eq].
Qed.

(** What the write leaves behind is never looked at: with nothing written the
    call still succeeds. *)
Theorem autostart_write_unchecked cfg exec fs :
  setEnabled cfg exec (mkFsAnswers true true 0 true) true fs = (true, <[entryPath cfg := []]> fs).
Proof. unfold setEnabled. cbn [negb fs_mkpath fs_open fs_written]. by rewrite take_0. Qed.
End Entry.

(** A program path with a space is cut at it by a launcher: another program is
    started, with the rest of the path for an argument. *)
Theorem exec_path_cut a b : a <> [] -> 32%Z ∉ a -> head (execWords (execPath (a ++ 32%Z :: b) true ++ qs " --tray")) = Some a.
Proof.
  intros Ha Hs. unfold execPath. destruct a as [|c a]; [done|]. cbn [isEmpty app negb andb]. unfold execWords.
  change ((c :: a ++ 32%Z :: b) ++ qs " --tray") with (((c :: a) ++ 32%Z :: b) ++ qs " --tray"). rewrite <- app_assoc. cbn [app].
  change (c :: a ++ 32%Z :: b ++ qs " --tray") with ((c :: a) ++ 32%Z :: (b ++ qs " --tray")). rewrite qsplit_app by done. by rewrite filter_cons_True.
Qed.

(* ------------------------------------------------------------------ *)
(** ** Examples *)

Definition smallDb : UserDb := mkUserDb
  (fun uid => if (uid =? 1000)%Z then Some (mkPasswd (Some (qs "ines")) 1000 60) else None)
  (fun g => if qeqb g (qs "wheel") then Some (mkGroupEntry 10 [qs "root"; qs "ines"] 40)
            else if qeqb g (qs "staff") then Some (mkGroupEntry 20 [qs "ines"] 5000) else None)
  1024 1024.

Lemma user_names_right_witness :
  exists c, rtc (user_step smallDb) noCalls c /\ (1000%Z, qs "ines") ∈ uc_returned c /\ (Z.of_nat (size (uc_cache c)) <= 4096)%Z.
Proof.
  assert (Hrun : rtc (user_step smallDb) noCalls (mkUserCalls (rememberName 1000 (probeUser smallDb 1000) ∅) [] [(1000%Z, probeUser smallDb 1000)])).
  { eapply rtc_l; [apply (us_miss smallDb 1000); reflexivity|]. eapply rtc_l; [apply (us_insert smallDb 1000 ∅ [1000%Z] []); reflexivity|]. apply rtc_refl. }
  eexists. split; [exact Hrun|]. split; [apply list_elem_of_In; vm_compute; tauto|]. exact (proj1 (user_names_right smallDb _ Hrun)).
Defined.

Lemma large_group_refused_witness :
  qs "ines" ∈ gr_mem (mkGroupEntry 20 [qs "ines"] 5000) /\ userInGroup smallDb 1000 (qs "staff") = false /\ userInGroup smallDb 1000 (qs "wheel") = true.
Proof.
  split; [by apply list_elem_of_singleton|]. split; [|vm_compute; reflexivity].
  apply (large_group_refused smallDb 1000 (qs "staff") (mkGroupEntry 20 [qs "ines"] 5000)); [reflexivity|vm_compute; reflexivity].
Defined.

Lemma ephemeral_range_valid_witness : ephemeralPortRange (Some (qs "32768	60999")) = (32768, 60999)%Z /\ (1024 <= fst (ephemeralPortRange (Some (qs "7 5"))))%Z.
Proof. split; [vm_compute; reflexivity|]. apply (ephemeral_range_valid (Some (qs "7 5"))). Defined.

Lemma autostart_roundtrip_witness :
  isEnabled (qs "/home/u/.config") (snd (setEnabled (qs "/home/u/.config") (qs "/usr/bin/qiftop") (mkFsAnswers true true 1000 true) true ∅)) = true.
Proof.
  assert (He : iniInLine (qs "/usr/bin/qiftop")). { intros c Hc Hb. apply list_elem_of_In in Hc, Hb. vm_compute in Hc, Hb. intuition congruence. }
  pose proof (autostart_roundtrip (qs "/home/u/.config") (qs "/usr/bin/qiftop") (mkFsAnswers true true 1000 true) true ∅ He) as Hr.
  apply Hr. vm_compute. repeat constructor.
Defined.

Lemma exec_path_cut_witness : head (execWords (execPath (qs "/opt/my" ++ 32%Z :: qs "apps/qiftop") true ++ qs " --tray")) = Some (qs "/opt/my").
Proof. apply (exec_path_cut (qs "/opt/my") (qs "apps/qiftop")); [discriminate|]. rewrite list_elem_of_In. vm_compute. intuition discriminate. Defined.
