(* ===== verification/GuiSettings.v ===== *)
(** * Preferences of the graphical frontend: [src/config/Settings.{h,cpp}]

    The members by kind, the constructor with [load] and its migration, every
    setter, and what is found at the next start.

    [QSettings] keeps variants in memory and writes them to a file; reading
    them back at the next start and the conversions of [QVariant] are a class
    with the documented round trips.  A preference is named by its kind and a
    constructor; each setter of the source is an instance of its kind's. *)

From S2P Require Import Prelude Qt Platform.

(* ------------------------------------------------------------------ *)
(** ** Stored values *)

Inductive SetVal := SvInt (z : Z) | SvBool (b : bool) | SvStr (s : QString) | SvList (l : list QString).
#[global] Instance SetVal_eq_dec : EqDecision SetVal. Proof. solve_decision. Defined.

Class QtSettings := {
  svInt : SetVal -> Z;
  svBool : SetVal -> bool;
  svStr : SetVal -> QString;
  svList : SetVal -> list QString;
  (** the variant found at the next start for one written now *)
  reread : SetVal -> SetVal;
}.

Definition int32 (z : Z) : Prop := (- 2147483648 <= z <= 2147483647)%Z.

Class QtSettingsLaws `{QtSettings} : Prop := {
  svInt_int32 : forall v, int32 (svInt v);
  reread_int : forall z, int32 z -> svInt (reread (SvInt z)) = z;
  reread_bool : forall b, svBool (reread (SvBool b)) = b;
  reread_str : forall s, svStr (reread (SvStr s)) = s;
  reread_list : forall l, svList (reread (SvList l)) = l;
  reread_file : forall v, reread (reread v) = reread v;
}.

Notation SetStore := (gmap QString SetVal).

(* ------------------------------------------------------------------ *)
(** ** Preferences *)

Inductive BoolPref :=
| PfShowLoopback | PfShowDown | PfIpv6Enabled | PfResolveHostnames | PfCloseToTray | PfUdpAggregateByPeer
| PfResolveIfaceAddrsAsLocalhost | PfColorCodeConnectionFlow | PfTintRowByDirection | PfShowTcp | PfShowUdp
| PfThroughputGaugeEnabled | PfInterfaceGaugeEnabled | PfShowStatusInTitle | PfShowProcessColumn
| PfShowContainerColumn | PfShowContainerChainInTooltip | PfShowGroupHeaderDetails | PfSortWithinGroups.
Inductive IntPref := PfPollIntervalMs | PfStaleRetentionSecs | PfStaleRetentionSecsUdp | PfThroughputWindowSecs | PfRateSmoothingMs.
Inductive StrPref := PfConnFilterExpr | PfGuiThemeName | PfAttributionEagerness.
Inductive ListPref := PfTrayInterfaces | PfConnVisibleIfaces.
Inductive ColorPref := PfChipPrimary | PfChipUser | PfChipId | PfChipDetail.
Inductive ThroughputMaxMode := MmWindowed | MmCumulativeAverage.
Inductive ConnectionViewMode := VmFlat | VmByInterface | VmByContainer | VmByProcess.

#[global] Instance BoolPref_eq_dec : EqDecision BoolPref. Proof. solve_decision. Defined.
#[global] Instance IntPref_eq_dec : EqDecision IntPref. Proof. solve_decision. Defined.
#[global] Instance StrPref_eq_dec : EqDecision StrPref. Proof. solve_decision. Defined.
#[global] Instance ListPref_eq_dec : EqDecision ListPref. Proof. solve_decision. Defined.
#[global] Instance ColorPref_eq_dec : EqDecision ColorPref. Proof. solve_decision. Defined.
#[global] Instance ConnectionViewMode_eq_dec : EqDecision ConnectionViewMode. Proof. solve_decision. Defined.

Definition boolKey (p : BoolPref) : QString := qs match p with
  | PfShowLoopback => "display/showLoopback" | PfShowDown => "display/showDown" | PfIpv6Enabled => "network/ipv6Enabled"
  | PfResolveHostnames => "dns/resolveHostnames" | PfCloseToTray => "tray/closeToTray"
  | PfUdpAggregateByPeer => "connections/udpAggregateByPeer" | PfResolveIfaceAddrsAsLocalhost => "dns/resolveIfaceAddrsAsLocalhost"
  | PfColorCodeConnectionFlow => "display/colorCodeConnectionFlow" | PfTintRowByDirection => "display/tintRowByDirection"
  | PfShowTcp => "display/showTcp" | PfShowUdp => "display/showUdp" | PfThroughputGaugeEnabled => "display/throughputGaugeEnabled"
  | PfInterfaceGaugeEnabled => "display/interfaceGaugeEnabled" | PfShowStatusInTitle => "display/showStatusInTitle"
  | PfShowProcessColumn => "connections/showProcessColumn" | PfShowContainerColumn => "connections/showContainerColumn"
  | PfShowContainerChainInTooltip => "connections/showContainerChainInTooltip"
  | PfShowGroupHeaderDetails => "connections/showGroupHeaderDetails" | PfSortWithinGroups => "connections/sortWithinGroups"
  end%string.
Definition intKey (p : IntPref) : QString := qs match p with
  | PfPollIntervalMs => "monitor/pollIntervalMs" | PfStaleRetentionSecs => "connections/staleRetentionSecs"
  | PfStaleRetentionSecsUdp => "connections/staleRetentionSecsUdp" | PfThroughputWindowSecs => "display/throughputWindowSecs"
  | PfRateSmoothingMs => "display/rateSmoothingMs"
  end%string.
Definition strKey (p : StrPref) : QString := qs match p with
  | PfConnFilterExpr => "connections/filterExpr" | PfGuiThemeName => "display/guiTheme" | PfAttributionEagerness => "monitoring/attributionEagerness"
  end%string.
Definition listKey (p : ListPref) : QString := qs match p with
  | PfTrayInterfaces => "tray/interfaces" | PfConnVisibleIfaces => "connections/visibleIfaces"
  end%string.
Definition colorKey (p : ColorPref) : QString := qs match p with
  | PfChipPrimary => "connections/chipColorPrimary" | PfChipUser => "connections/chipColorUser"
  | PfChipId => "connections/chipColorId" | PfChipDetail => "connections/chipColorDetail"
  end%string.
Definition kThroughputMaxMode : QString := qs "display/throughputMaxMode".
Definition kConnectionViewMode : QString := qs "connections/viewMode".
Definition kRateSmoothingSecsLegacy : QString := qs "display/rateSmoothingSecs".

(** The member initialisers. *)
Definition boolDefault (p : BoolPref) : bool :=
  match p with
  | PfShowLoopback | PfResolveHostnames | PfTintRowByDirection | PfThroughputGaugeEnabled | PfShowStatusInTitle => false
  | _ => true
  end.
Definition intDefault (p : IntPref) : Z :=
  match p with
  | PfPollIntervalMs => 1000 | PfStaleRetentionSecs => 15 | PfStaleRetentionSecsUdp => 60 | PfThroughputWindowSecs => 30 | PfRateSmoothingMs => 0
  end.
Definition strDefault (p : StrPref) : QString := match p with PfGuiThemeName => qs "System" | _ => [] end.
Definition listDefault (p : ListPref) : list QString := [].
Definition colorDefault (p : ColorPref) : QString := qs match p with
  | PfChipPrimary => "#b58bff" | PfChipUser => "#5fd0c5" | PfChipId => "#e08ab8" | PfChipDetail => "#9aa0a6"
  end%string.

Definition maxModeCode (m : ThroughputMaxMode) : Z := match m with MmWindowed => 0 | MmCumulativeAverage => 1 end.
Definition viewModeCode (m : ConnectionViewMode) : Z := match m with VmFlat => 0 | VmByInterface => 1 | VmByContainer => 2 | VmByProcess => 3 end.
Definition viewModeOf (z : Z) : ConnectionViewMode :=
  if (z =? 1)%Z then VmByInterface else if (z =? 2)%Z then VmByContainer else if (z =? 3)%Z then VmByProcess else VmFlat.

(** The members; the mode of the gauge is whatever number was cast to it. *)
Record Prefs := mkPrefs {
  pr_bool : BoolPref -> bool;
  pr_int : IntPref -> Z;
  pr_str : StrPref -> QString;
  pr_list : ListPref -> list QString;
  pr_color : ColorPref -> QString;
  pr_maxMode : Z;
  pr_viewMode : ConnectionViewMode;
}.
Record Settings := mkSettings { st_persist : bool; st_store : SetStore; st_prefs : Prefs }.

(** ^#([0-9a-fA-F]{3}|[0-9a-fA-F]{6}|[0-9a-fA-F]{8})$: the dollar sign also
    matches before a line break at the end. *)
Definition isHexDigit (c : QChar) : bool := isDigit c || ((97 <=? c) && (c <=? 102) || (65 <=? c) && (c <=? 70))%Z.
Definition dropFinalNewline (s : QString) : QString :=
  match reverse s with c :: r => if (c =? 10)%Z then reverse r else s | [] => s end.
Definition hexBody (s : QString) : bool :=
  forallb isHexDigit s && (bool_decide (length s = 3%nat) || bool_decide (length s = 6%nat) || bool_decide (length s = 8%nat)).
Definition isHexColor (s : QString) : bool :=
  match s with c :: r => (c =? 35)%Z && (hexBody r || hexBody (dropFinalNewline r)) | [] => false end.

(* ------------------------------------------------------------------ *)
(** ** Loading *)

Section Load.
Context `{QtSettings}.

Definition boolValue (s : SetStore) (p : BoolPref) : bool := match s !! boolKey p with Some v => svBool v | None => boolDefault p end.
Definition intValue (s : SetStore) (p : IntPref) : Z := match s !! intKey p with Some v => svInt v | None => intDefault p end.
Definition strValue (s : SetStore) (p : StrPref) : QString := match s !! strKey p with Some v => svStr v | None => strDefault p end.
Definition listValue (s : SetStore) (p : ListPref) : list QString := match s !! listKey p with Some v => svList v | None => listDefault p end.
Definition loadColor (s : SetStore) (p : ColorPref) : QString :=
  let c := match s !! colorKey p with Some v => svStr v | None => colorDefault p end in
  if isHexColor c then c else colorDefault p.
Definition maxModeValue (s : SetStore) : Z := match s !! kThroughputMaxMode with Some v => svInt v | None => 0%Z end.
Definition viewModeValue (s : SetStore) : ConnectionViewMode :=
  let mode := match s !! kConnectionViewMode with Some v => svInt v | None => viewModeCode VmFlat end in
  if ((0 <=? mode) && (mode <=? 3))%Z then viewModeOf mode else VmFlat.

(** The migration of the smoothing given in whole seconds; [None] when the
    product leaves the range of an int. *)
Definition migrateSmoothing (persist : bool) (ms : Z) (s : SetStore) : option (Z * SetStore) :=
  match s !! kRateSmoothingSecsLegacy with
  | Some v =>
      if (ms =? 0)%Z then
        let legacy := svInt v in
        let dropped s := if persist then delete kRateSmoothingSecsLegacy s else s in
        if (0 <? legacy)%Z then
          if (2147483647 <? legacy * 1000)%Z then None
          else let s := if persist then <[intKey PfRateSmoothingMs := SvInt (legacy * 1000)]> s else s in
               Some ((legacy * 1000)%Z, dropped s)
        else Some (ms, dropped s)
      else Some (ms, s)
  | None => Some (ms, s)
  end.

(** All members, [m_rateSmoothingMs] as given. *)
Definition readPrefs (rateSmoothingMs : Z) (s : SetStore) : Prefs :=
  mkPrefs (boolValue s) (fun p => match p with PfRateSmoothingMs => rateSmoothingMs | _ => intValue s p end)
    (strValue s) (listValue s) (loadColor s) (maxModeValue s) (viewModeValue s).

Definition load (persist : bool) (s : SetStore) : option Settings :=
  '(ms, s') ← migrateSmoothing persist (intValue s PfRateSmoothingMs) s;
  Some (mkSettings persist s' (readPrefs ms s')).

(** The constructor. *)
Definition newSettings (statUid : QString -> option Z) (euid : Z) (cfgRoot : QString) (s : SetStore) : option Settings :=
  load (negb (settingsWriteWouldEscalate statUid euid cfgRoot)) s.
End Load.

(* ------------------------------------------------------------------ *)
(** ** Setters: the new state and whether [changed] is emitted *)

Definition store (key : QString) (v : SetVal) (st : Settings) : Settings :=
  if st_persist st then mkSettings (st_persist st) (<[key := v]> (st_store st)) (st_prefs st) else st.
Definition set_prefs (f : Prefs -> Prefs) (st : Settings) : Settings := mkSettings (st_persist st) (st_store st) (f (st_prefs st)).

Definition upd {A B} `{EqDecision A} (a : A) (b : B) (f : A -> B) : A -> B := fun x => if decide (x = a) then b else f x.

Definition set_pr_bool p v (r : Prefs) := mkPrefs (upd p v (pr_bool r)) (pr_int r) (pr_str r) (pr_list r) (pr_color r) (pr_maxMode r) (pr_viewMode r).
Definition set_pr_int p v (r : Prefs) := mkPrefs (pr_bool r) (upd p v (pr_int r)) (pr_str r) (pr_list r) (pr_color r) (pr_maxMode r) (pr_viewMode r).
Definition set_pr_str p v (r : Prefs) := mkPrefs (pr_bool r) (pr_int r) (upd p v (pr_str r)) (pr_list r) (pr_color r) (pr_maxMode r) (pr_viewMode r).
Definition set_pr_list p v (r : Prefs) := mkPrefs (pr_bool r) (pr_int r) (pr_str r) (upd p v (pr_list r)) (pr_color r) (pr_maxMode r) (pr_viewMode r).
Definition set_pr_color p v (r : Prefs) := mkPrefs (pr_bool r) (pr_int r) (pr_str r) (pr_list r) (upd p v (pr_color r)) (pr_maxMode r) (pr_viewMode r).
Definition set_pr_maxMode v (r : Prefs) := mkPrefs (pr_bool r) (pr_int r) (pr_str r) (pr_list r) (pr_color r) v (pr_viewMode r).
Definition set_pr_viewMode v (r : Prefs) := mkPrefs (pr_bool r) (pr_int r) (pr_str r) (pr_list r) (pr_color r) (pr_maxMode r) v.

Definition clamp (lo z hi : Z) : Z := Z.max lo (Z.min hi z).
Definition intBounds (p : IntPref) : Z * Z :=
  match p with
  | PfPollIntervalMs => (100, 60000)
  | PfStaleRetentionSecs | PfStaleRetentionSecsUdp => (0, 600)
  | PfThroughputWindowSecs => (2, 3600)
  | PfRateSmoothingMs => (0, 60000)
  end%Z.

Definition setBool (p : BoolPref) (v : bool) (st : Settings) : Settings * bool :=
  if decide (v = pr_bool (st_prefs st) p) then (st, false)
  else (store (boolKey p) (SvBool v) (set_prefs (set_pr_bool p v) st), true).
Definition setInt (p : IntPref) (z : Z) (st : Settings) : Settings * bool :=
  let z := clamp (fst (intBounds p)) z (snd (intBounds p)) in
  if decide (z = pr_int (st_prefs st) p) then (st, false)
  else (store (intKey p) (SvInt z) (set_prefs (set_pr_int p z) st), true).
Definition setStr (p : StrPref) (s : QString) (st : Settings) : Settings * bool :=
  if decide (s = pr_str (st_prefs st) p) then (st, false)
  else (store (strKey p) (SvStr s) (set_prefs (set_pr_str p s) st), true).
Definition setList (p : ListPref) (l : list QString) (st : Settings) : Settings * bool :=
  if decide (l = pr_list (st_prefs st) p) then (st, false)
  else (store (listKey p) (SvList l) (set_prefs (set_pr_list p l) st), true).
Definition setColor (p : ColorPref) (hex : QString) (st : Settings) : Settings * bool :=
  if negb (isHexColor hex) then (st, false)
  else if decide (hex = pr_color (st_prefs st) p) then (st, false)
  else (store (colorKey p) (SvStr hex) (set_prefs (set_pr_color p hex) st), true).

Definition setPollIntervalMs := setInt PfPollIntervalMs.
Definition setShowLoopback := setBool PfShowLoopback.
Definition setShowDown := setBool PfShowDown.
Definition setIpv6Enabled := setBool PfIpv6Enabled.
Definition setResolveHostnames := setBool PfResolveHostnames.
Definition setCloseToTray := setBool PfCloseToTray.
Definition setTrayInterfaces := setList PfTrayInterfaces.
Definition setConnectionVisibleIfaces := setList PfConnVisibleIfaces.
Definition setConnectionVisibleIfacesTransient (l : list QString) (st : Settings) : Settings * bool :=
  if decide (l = pr_list (st_prefs st) PfConnVisibleIfaces) then (st, false)
  else (set_prefs (set_pr_list PfConnVisibleIfaces l) st, true).
Definition setConnectionStaleRetentionSecs := setInt PfStaleRetentionSecs.
Definition setConnectionStaleRetentionSecsUdp := setInt PfStaleRetentionSecsUdp.
Definition setUdpAggregateByPeer := setBool PfUdpAggregateByPeer.
Definition setResolveIfaceAddrsAsLocalhost := setBool PfResolveIfaceAddrsAsLocalhost.
Definition setColorCodeConnectionFlow := setBool PfColorCodeConnectionFlow.
Definition setTintRowByDirection := setBool PfTintRowByDirection.
Definition setShowTcp := setBool PfShowTcp.
Definition setShowUdp := setBool PfShowUdp.
Definition setThroughputGaugeEnabled := setBool PfThroughputGaugeEnabled.
Definition setInterfaceGaugeEnabled := setBool PfInterfaceGaugeEnabled.
Definition setThroughputMaxMode (m : ThroughputMaxMode) (st : Settings) : Settings * bool :=
  if decide (maxModeCode m = pr_maxMode (st_prefs st)) then (st, false)
  else (store kThroughputMaxMode (SvInt (maxModeCode m)) (set_prefs (set_pr_maxMode (maxModeCode m)) st), true).
Definition setThroughputWindowSecs := setInt PfThroughputWindowSecs.
Definition setRateSmoothingMs := setInt PfRateSmoothingMs.
Definition setShowStatusInTitle := setBool PfShowStatusInTitle.
Definition setConnectionFilterExpr := setStr PfConnFilterExpr.
Definition setGuiThemeName := setStr PfGuiThemeName.
Definition setAttributionEagerness := setStr PfAttributionEagerness.
Definition setConnectionViewMode (m : ConnectionViewMode) (st : Settings) : Settings * bool :=
  if decide (m = pr_viewMode (st_prefs st)) then (st, false)
  else (store kConnectionViewMode (SvInt (viewModeCode m)) (set_prefs (set_pr_viewMode m) st), true).
Definition setShowProcessColumn := setBool PfShowProcessColumn.
Definition setShowContainerColumn := setBool PfShowContainerColumn.
Definition setShowContainerChainInTooltip := setBool PfShowContainerChainInTooltip.
Definition setShowGroupHeaderDetails := setBool PfShowGroupHeaderDetails.
Definition setSortWithinGroups := setBool PfSortWithinGroups.
Definition setChipColorPrimary := setColor PfChipPrimary.
Definition setChipColorUser := setColor PfChipUser.
Definition setChipColorId := setColor PfChipId.
Definition setChipColorDetail := setColor PfChipDetail.
Definition resetOne (st : Settings) (p : ColorPref) : Settings := store (colorKey p) (SvStr (colorDefault p)) st.
Definition resetChipColors (st : Settings) : Settings * bool :=
  let st := set_prefs (fun r => mkPrefs (pr_bool r) (pr_int r) (pr_str r) (pr_list r) colorDefault (pr_maxMode r) (pr_viewMode r)) st in
  (foldl resetOne st [PfChipPrimary; PfChipUser; PfChipId; PfChipDetail], true).

(** The autostart file, not the store. *)
Definition setStartOnLogin `{QtUnicode, IniReader} (cfg exec : QString) (a : FsAnswers) (v : bool) (fs : gmap QString QString) : bool * gmap QString QString :=
  if Bool.eqb (isEnabled cfg fs) v then (false, fs) else setEnabled cfg exec a v fs.

(** Any call of a setter that works on the store. *)
Inductive Call :=
| CBool (p : BoolPref) (v : bool) | CInt (p : IntPref) (z : Z) | CStr (p : StrPref) (s : QString) | CList (p : ListPref) (l : list QString)
| CTransient (l : list QString) | CMaxMode (m : ThroughputMaxMode) | CViewMode (m : ConnectionViewMode) | CColor (p : ColorPref) (s : QString)
| CReset.
Definition applyCall (c : Call) (st : Settings) : Settings * bool :=
  match c with
  | CBool p v => setBool p v st | CInt p z => setInt p z st | CStr p s => setStr p s st | CList p l => setList p l st
  | CTransient l => setConnectionVisibleIfacesTransient l st | CMaxMode m => setThroughputMaxMode m st
  | CViewMode m => setConnectionViewMode m st | CColor p s => setColor p s st | CReset => resetChipColors st
  end.
Definition runCalls (cs : list Call) (st : Settings) : Settings := foldl (fun st c => fst (applyCall c st)) st cs.

(* ------------------------------------------------------------------ *)
(** ** All preferences as one family *)

Inductive Pref := PBool (p : BoolPref) | PInt (p : IntPref) | PStr (p : StrPref) | PList (p : ListPref) | PColor (p : ColorPref) | PMaxMode | PViewMode.
#[global] Instance Pref_eq_dec : EqDecision Pref. Proof. solve_decision. Defined.

Definition prefKey (p : Pref) : QString :=
  match p with
  | PBool p => boolKey p | PInt p => intKey p | PStr p => strKey p | PList p => listKey p | PColor p => colorKey p
  | PMaxMode => kThroughputMaxMode | PViewMode => kConnectionViewMode
  end.

(** The value a member would be written with. *)
Definition valueOf (r : Prefs) (p : Pref) : SetVal :=
  match p with
  | PBool p => SvBool (pr_bool r p) | PInt p => SvInt (pr_int r p) | PStr p => SvStr (pr_str r p) | PList p => SvList (pr_list r p)
  | PColor p => SvStr (pr_color r p) | PMaxMode => SvInt (pr_maxMode r) | PViewMode => SvInt (viewModeCode (pr_viewMode r))
  end.

(** Members agree when all their values do. *)
#[global] Instance Prefs_equiv : Equiv Prefs := fun a b => forall p, valueOf a p = valueOf b p.
#[global] Instance Prefs_equivalence : Equivalence (≡@{Prefs}).
Proof.
  split; [intros a p; done|intros a b Hab p; symmetry; apply Hab|]. intros a b c Hab Hbc p. transitivity (valueOf b p); [apply Hab|apply Hbc].
Qed.

Definition allPrefs : list Pref :=
  map PBool [PfShowLoopback; PfShowDown; PfIpv6Enabled; PfResolveHostnames; PfCloseToTray; PfUdpAggregateByPeer;
    PfResolveIfaceAddrsAsLocalhost; PfColorCodeConnectionFlow; PfTintRowByDirection; PfShowTcp; PfShowUdp; PfThroughputGaugeEnabled;
    PfInterfaceGaugeEnabled; PfShowStatusInTitle; PfShowProcessColumn; PfShowContainerColumn; PfShowContainerChainInTooltip;
    PfShowGroupHeaderDetails; PfSortWithinGroups]
  ++ map PInt [PfPollIntervalMs; PfStaleRetentionSecs; PfStaleRetentionSecsUdp; PfThroughputWindowSecs; PfRateSmoothingMs]
  ++ map PStr [PfConnFilterExpr; PfGuiThemeName; PfAttributionEagerness] ++ map PList [PfTrayInterfaces; PfConnVisibleIfaces]
  ++ map PColor [PfChipPrimary; PfChipUser; PfChipId; PfChipDetail] ++ [PMaxMode; PViewMode].

Lemma allPrefs_all p : p ∈ allPrefs.
Proof. apply list_elem_of_In. destruct p as [[]|[]|[]|[]|[]| |]; cbn; tauto. Qed.

Lemma map_NoDup_inj {A B} (f : A -> B) l x y : NoDup (map f l) -> x ∈ l -> y ∈ l -> f x = f y -> x = y.
Proof.
  induction l as [|a l IH]; [by intros _ ?%elem_of_nil|]. cbn [map]. intros [Hn Hd]%NoDup_cons Hx Hy Hf.
  apply elem_of_cons in Hx as [->|Hx]; apply elem_of_cons in Hy as [->|Hy]; [done| | |by apply IH].
  - destruct Hn. apply list_elem_of_fmap. by exists y.
  - destruct Hn. apply list_elem_of_fmap. by exists x.
Qed.

(** No two preferences share a key, the legacy key included. *)
Lemma prefKey_NoDup : NoDup (kRateSmoothingSecsLegacy :: map prefKey allPrefs).
Proof. apply (bool_decide_unpack _). vm_compute. exact I. Qed.
Lemma prefKey_inj p q : prefKey p = prefKey q -> p = q.
Proof. apply (map_NoDup_inj prefKey allPrefs); [|apply allPrefs_all..]. pose proof prefKey_NoDup as Hn. by apply NoDup_cons in Hn as [_ Hn]. Qed.
Lemma prefKey_legacy p : prefKey p <> kRateSmoothingSecsLegacy.
Proof.
  pose proof prefKey_NoDup as Hn. apply NoDup_cons in Hn as [Hn _]. intros He. apply Hn. rewrite <- He. apply list_elem_of_fmap. exists p. split; [done|apply allPrefs_all].
Qed.

(** A call is a list of assignments: which members it gives which values. *)
Definition writes (c : Call) (r : Prefs) : list (Pref * SetVal) :=
  match c with
  | CBool p v => [(PBool p, SvBool v)]
  | CInt p z => [(PInt p, SvInt (clamp (fst (intBounds p)) z (snd (intBounds p))))]
  | CStr p s => [(PStr p, SvStr s)]
  | CList p l => [(PList p, SvList l)]
  | CTransient l => [(PList PfConnVisibleIfaces, SvList l)]
  | CMaxMode m => [(PMaxMode, SvInt (maxModeCode m))]
  | CViewMode m => [(PViewMode, SvInt (viewModeCode m))]
  | CColor p s => if isHexColor s then [(PColor p, SvStr s)] else []
  | CReset => map (fun p => (PColor p, SvStr (colorDefault p))) [PfChipPrimary; PfChipUser; PfChipId; PfChipDetail]
  end.

Lemma isReset (c : Call) : {c = CReset} + {c <> CReset}.
Proof. destruct c; (by left) || (by right). Qed.

Definition isTransient (c : Call) : bool := match c with CTransient _ => true | _ => false end.

Lemma viewModeCode_inj a b : viewModeCode a = viewModeCode b -> a = b.
Proof. by destruct a, b. Qed.

(** What one assignment that is not idle does. *)
Definition assigned (p : Pref) (v : SetVal) (persisted : bool) (st st' : Settings) : Prop :=
  st_persist st' = st_persist st /\ valueOf (st_prefs st') p = v /\ (forall q, q <> p -> valueOf (st_prefs st') q = valueOf (st_prefs st) q) /\
  st_store st' = if st_persist st && persisted then <[prefKey p := v]> (st_store st) else st_store st.

Lemma store_prefs k v st : st_prefs (store k v st) = st_prefs st.
Proof. unfold store. by destruct (st_persist st). Qed.
Lemma store_persist k v st : st_persist (store k v st) = st_persist st.
Proof. unfold store. by destruct (st_persist st) eqn:E. Qed.
Lemma store_store k v st : st_store (store k v st) = if st_persist st then <[k := v]> (st_store st) else st_store st.
Proof. unfold store. by destruct (st_persist st). Qed.

(** A setter of one preference: it answers no and does nothing when the value
    is refused or already there, else it assigns exactly that preference and
    answers yes. *)
Lemma applyCall_one c st : c <> CReset ->
  let '(st', emitted) := applyCall c st in
  match writes c (st_prefs st) with
  | [] => st' = st /\ emitted = false
  | (p, v) :: _ =>
      if decide (v = valueOf (st_prefs st) p) then st' = st /\ emitted = false
      else assigned p v (negb (isTransient c)) st st' /\ emitted = true
  end.
Proof.
  intros Hc.
  assert (Hupd : forall f p k v (Hk : k = prefKey p), valueOf (f (st_prefs st)) p = v -> (forall q, q <> p -> valueOf (f (st_prefs st)) q = valueOf (st_prefs st) q) ->
    assigned p v true st (store k v (set_prefs f st))).
  { intros f p k v -> Hv Hq. unfold assigned. rewrite store_persist, store_prefs, store_store. cbn [set_prefs st_persist st_store st_prefs].
    split_and!; [done..|]. by destruct (st_persist st). }
  destruct c as [p v|p z|p s|p l|l|m|m|p s|]; [..|done]; cbn [applyCall writes isTransient negb];
    unfold setBool, setInt, setStr, setList, setConnectionVisibleIfacesTransient, setThroughputMaxMode, setConnectionViewMode, setColor; cbv zeta.
  5: { cbn [valueOf]. repeat case_decide; [by split|congruence|congruence|]. split; [|done].
       unfold assigned. cbn [set_prefs st_persist st_store st_prefs]. rewrite andb_false_r. split_and!; [done|cbn; unfold upd; by rewrite decide_True| |done].
       intros [[]|[]|[]|[]|[]| |] Hq; cbn [valueOf set_pr_list pr_bool pr_int pr_str pr_list pr_color pr_maxMode pr_viewMode]; try done. }
  all: try destruct (isHexColor s); cbn [negb]; [..|done || idtac].
  all: cbn [valueOf]; repeat case_decide; try (by split); try congruence; try (exfalso; naive_solver congruence).
  all: try (exfalso; match goal with Hn : _ <> ?m, He : SvInt _ = SvInt _ |- _ => injection He as He; apply viewModeCode_inj in He; congruence end).
  all: split; [|done]; apply Hupd; [done|cbn; unfold upd; try rewrite decide_True by done; done|].
  all: intros q Hq; destruct q; cbn; unfold upd; try done; rewrite decide_False by congruence; done.
Qed.

(* ------------------------------------------------------------------ *)
(** ** The store keeps up with the members *)

Section Store.
Context `{QtSettingsLaws}.

(** What [load] makes of a stored value. *)
Definition decode (p : Pref) (ov : option SetVal) : SetVal :=
  match p with
  | PBool p => SvBool (match ov with Some v => svBool v | None => boolDefault p end)
  | PInt p => SvInt (match ov with Some v => svInt v | None => intDefault p end)
  | PStr p => SvStr (match ov with Some v => svStr v | None => strDefault p end)
  | PList p => SvList (match ov with Some v => svList v | None => listDefault p end)
  | PColor p => let c := match ov with Some v => svStr v | None => colorDefault p end in SvStr (if isHexColor c then c else colorDefault p)
  | PMaxMode => SvInt (match ov with Some v => svInt v | None => 0%Z end)
  | PViewMode =>
      let mode := match ov with Some v => svInt v | None => 0%Z end in
      SvInt (viewModeCode (if ((0 <=? mode) && (mode <=? 3))%Z then viewModeOf mode else VmFlat))
  end.

Lemma readPrefs_value ms s p :
  valueOf (readPrefs ms s) p = if decide (p = PInt PfRateSmoothingMs) then SvInt ms else decode p (s !! prefKey p).
Proof. by destruct p as [[]|[]|[]|[]|[]| |]. Qed.

Lemma clamp_range lo z hi : (lo <= hi)%Z -> (lo <= clamp lo z hi <= hi)%Z.
Proof. unfold clamp. lia. Qed.
Lemma intBounds_ok p : (0 <= fst (intBounds p) <= snd (intBounds p))%Z /\ (snd (intBounds p) <= 60000)%Z.
Proof. destruct p; cbn; lia. Qed.
Lemma clamp_int32 p z : int32 (clamp (fst (intBounds p)) z (snd (intBounds p))).
Proof. destruct (intBounds_ok p) as [Hb Hm]. pose proof (clamp_range (fst (intBounds p)) z (snd (intBounds p)) (proj2 Hb)). unfold int32. lia. Qed.
Lemma colorDefault_hex p : isHexColor (colorDefault p) = true.
Proof. by destruct p. Qed.

(** A value a setter writes is found again. *)
Lemma writes_canonical c r p v : (p, v) ∈ writes c r -> decode p (Some (reread v)) = v.
Proof.
  destruct c as [b v'|i z|s v'|l v'|l|m|m|k s|]; cbn [writes].
  8: destruct (isHexColor s) eqn:Es; [|by intros ?%elem_of_nil].
  9: { intros (q & Hq & _)%list_elem_of_fmap. injection Hq as -> ->. cbn [decode].
       rewrite reread_str. by rewrite colorDefault_hex. }
  all: intros Hin; apply list_elem_of_singleton in Hin; injection Hin as -> ->; cbn [decode].
  - by rewrite reread_bool.
  - by rewrite reread_int by apply clamp_int32.
  - by rewrite reread_str.
  - by rewrite reread_list.
  - by rewrite reread_list.
  - rewrite reread_int by (destruct m; unfold int32; cbn; lia). done.
  - rewrite reread_int by (destruct m; unfold int32; cbn; lia). by destruct m.
  - rewrite reread_str. by rewrite Es.
Qed.

Definition agreesWith (r : Prefs) (s : SetStore) : Prop := forall p, decode p (reread <$> s !! prefKey p) = valueOf r p.

Lemma agrees_insert r r' s p v :
  agreesWith r s -> decode p (Some (reread v)) = v -> valueOf r' p = v -> (forall q, q <> p -> valueOf r' q = valueOf r q) -> agreesWith r' (<[prefKey p := v]> s).
Proof.
  intros Ha Hc Hv Hq q. destruct (decide (q = p)) as [->|Hne].
  - rewrite lookup_insert_eq. cbn [fmap option_fmap option_map]. congruence.
  - rewrite lookup_insert_ne by (intros He%prefKey_inj; congruence). rewrite Hq by done. apply Ha.
Qed.

Lemma resetOne_fold ps st r :
  st_persist st = true -> (forall q, (exists p, p ∈ ps /\ q = PColor p) \/ decode q (reread <$> st_store st !! prefKey q) = valueOf r q) ->
  (forall p, valueOf r (PColor p) = SvStr (colorDefault p)) -> agreesWith r (st_store (foldl resetOne st ps)).
Proof.
  intros Hp Ha Hr. revert st Hp Ha. induction ps as [|c ps IH]; intros st Hp Ha; cbn [foldl].
  - intros q. destruct (Ha q) as [(p & []%elem_of_nil & _)|Hq]. exact Hq.
  - apply IH; [unfold resetOne; by rewrite store_persist|]. intros q. unfold resetOne. rewrite store_store, Hp.
    destruct (decide (q = PColor c)) as [->|Hne].
    + right. cbn [prefKey]. rewrite lookup_insert_eq. cbn [fmap option_fmap option_map decode]. rewrite reread_str, colorDefault_hex. by rewrite Hr.
    + destruct (Ha q) as [(p & [->|Hin]%elem_of_cons & ->)|Hq]; [done|left; by exists p|right].
      change (colorKey c) with (prefKey (PColor c)). rewrite lookup_insert_ne by (intros He%prefKey_inj; congruence). exact Hq.
Qed.

Lemma reset_persist st : st_persist (fst (resetChipColors st)) = st_persist st.
Proof. unfold resetChipColors, resetOne. cbn [fst foldl]. by rewrite !store_persist. Qed.
Lemma reset_prefs st : st_prefs (fst (resetChipColors st)) =
  mkPrefs (pr_bool (st_prefs st)) (pr_int (st_prefs st)) (pr_str (st_prefs st)) (pr_list (st_prefs st)) colorDefault (pr_maxMode (st_prefs st)) (pr_viewMode (st_prefs st)).
Proof. unfold resetChipColors, resetOne. cbn [fst foldl]. by rewrite !store_prefs. Qed.

Lemma applyCall_agrees c st :
  isTransient c = false -> st_persist st = true -> agreesWith (st_prefs st) (st_store st) ->
  let st' := fst (applyCall c st) in st_persist st' = true /\ agreesWith (st_prefs st') (st_store st').
Proof.
  intros Ht Hp Ha. destruct (isReset c) as [->|Hc].
  - cbn [applyCall]. rewrite reset_persist. split; [done|]. rewrite reset_prefs. unfold resetChipColors. cbn [fst].
    apply resetOne_fold; [done| |done]. intros q. destruct q as [b|i|s|l|k| |].
    5: left; exists k; split; [apply list_elem_of_In; destruct k; cbn; tauto|done].
    all: right; cbn [set_prefs st_store]; apply Ha.
  - pose proof (applyCall_one c st Hc) as H1. destruct (applyCall c st) as [st' e]. cbn [fst].
    destruct (writes c (st_prefs st)) as [|[p v] ws] eqn:Ew; [destruct H1 as [-> _]; done|].
    case_decide; [destruct H1 as [-> _]; done|]. destruct H1 as [(Hp' & Hv & Hq & Hs) _]. rewrite Ht, Hp in Hs. cbn in Hs. split; [congruence|]. rewrite Hs.
    apply (agrees_insert (st_prefs st)); [done| |done|done]. apply (writes_canonical c (st_prefs st)). rewrite Ew. apply elem_of_cons. by left.
Qed.

Lemma applyCall_legacy c st : st_store (fst (applyCall c st)) !! kRateSmoothingSecsLegacy = st_store st !! kRateSmoothingSecsLegacy.
Proof.
  destruct (isReset c) as [->|Hc].
  - cbn [applyCall]. unfold resetChipColors, resetOne. cbn [fst foldl]. rewrite !store_store, !store_persist.
    cbn [set_prefs st_persist st_store]. destruct (st_persist st); [|done]. by rewrite !lookup_insert_ne by apply (prefKey_legacy (PColor _)).
  - pose proof (applyCall_one c st Hc) as H1. destruct (applyCall c st) as [st' e]. cbn [fst].
    destruct (writes c (st_prefs st)) as [|[p v] ws]; [by destruct H1 as [-> _]|]. case_decide; [by destruct H1 as [-> _]|].
    destruct H1 as [(_ & _ & _ & ->) _]. destruct (st_persist st && negb (isTransient c)); [|done]. by rewrite lookup_insert_ne by apply prefKey_legacy.
Qed.

Lemma runCalls_agrees cs st :
  Forall (fun c => isTransient c = false) cs -> st_persist st = true -> agreesWith (st_prefs st) (st_store st) ->
  agreesWith (st_prefs (runCalls cs st)) (st_store (runCalls cs st)).
Proof.
  intros Hcs. revert st. induction Hcs as [|c cs Hc _ IH]; intros st Hp Ha; [done|]. unfold runCalls. cbn [foldl].
  destruct (applyCall_agrees c st Hc Hp Ha) as [Hp' Ha']. by apply IH.
Qed.

Lemma runCalls_legacy cs st : st_store (runCalls cs st) !! kRateSmoothingSecsLegacy = st_store st !! kRateSmoothingSecsLegacy.
Proof. revert st. induction cs as [|c cs IH]; intros st; [done|]. unfold runCalls. cbn [foldl]. etransitivity; [apply IH|apply applyCall_legacy]. Qed.

(** The store a start finds. *)
Definition atStart (s : SetStore) : SetStore := reread <$> s.

Lemma atStart_again (s : SetStore) k : reread <$> atStart s !! k = atStart s !! k.
Proof. unfold atStart. rewrite lookup_fmap. destruct (s !! k) as [v|]; [|done]. cbn. by rewrite reread_file. Qed.

Lemma load_agrees s st : load true (atStart s) = Some st -> agreesWith (st_prefs st) (st_store st).
Proof.
  assert (Hread : forall ms s', (forall p, p <> PInt PfRateSmoothingMs -> s' !! prefKey p = atStart s !! prefKey p) ->
      decode (PInt PfRateSmoothingMs) (reread <$> s' !! prefKey (PInt PfRateSmoothingMs)) = SvInt ms -> agreesWith (readPrefs ms s') s').
  { intros ms s' Hs Hms p. rewrite readPrefs_value. case_decide as Hd; [by rewrite Hd|]. by rewrite Hs, atStart_again by done. }
  assert (Hsame : decode (PInt PfRateSmoothingMs) (reread <$> atStart s !! prefKey (PInt PfRateSmoothingMs)) = SvInt (intValue (atStart s) PfRateSmoothingMs)).
  { by rewrite atStart_again. }
  unfold load, migrateSmoothing. destruct (atStart s !! kRateSmoothingSecsLegacy) as [v|]; cbn [mbind option_bind].
  2: { intros [= <-]. by apply Hread. }
  destruct (Z.eqb_spec (intValue (atStart s) PfRateSmoothingMs) 0) as [Hz|Hz]; cbn [mbind option_bind].
  2: { intros [= <-]. by apply Hread. }
  destruct (Z.ltb_spec 0 (svInt v)) as [Hl|Hl].
  - destruct (Z.ltb_spec 2147483647 (svInt v * 1000)); cbn [mbind option_bind]; [done|]. intros [= <-]. cbn [st_prefs st_store]. cbv beta zeta iota. apply Hread.
    + intros p Hp. rewrite lookup_delete_ne by (intros He; symmetry in He; revert He; apply prefKey_legacy).
      change (intKey PfRateSmoothingMs) with (prefKey (PInt PfRateSmoothingMs)). rewrite lookup_insert_ne; [done|]. intros He%prefKey_inj. congruence.
    + rewrite lookup_delete_ne by (intros He; symmetry in He; revert He; apply prefKey_legacy). cbn [prefKey]. rewrite lookup_insert_eq.
      cbn [fmap option_fmap option_map decode]. by rewrite reread_int by (unfold int32; lia).
  - intros [= <-]. cbn [st_prefs st_store]. cbv beta zeta iota. apply Hread.
    + intros p Hp. by rewrite lookup_delete_ne by (intros He; symmetry in He; revert He; apply prefKey_legacy).
    + rewrite lookup_delete_ne by (intros He; symmetry in He; revert He; apply prefKey_legacy). exact Hsame.
Qed.

Lemma load_defined persist s : (forall v, s !! kRateSmoothingSecsLegacy = Some v -> (svInt v <= 2147483)%Z) -> is_Some (load persist s).
Proof.
  intros Hv. unfold load, migrateSmoothing. destruct (s !! kRateSmoothingSecsLegacy) as [v|]; [|by eexists]. specialize (Hv v eq_refl).
  destruct (_ =? 0)%Z; [|by eexists]. destruct (0 <? svInt v)%Z; [|by eexists]. destruct (Z.ltb_spec 2147483647 (svInt v * 1000)); [lia|by eexists].
Qed.

Lemma load_legacy s st :
  load true s = Some st -> intValue s PfRateSmoothingMs = 0%Z -> st_store st !! kRateSmoothingSecsLegacy = None.
Proof.
  unfold load, migrateSmoothing. intros Hl Hz. rewrite Hz in Hl. destruct (s !! kRateSmoothingSecsLegacy) as [v|] eqn:Ev.
  - cbn [Z.eqb] in Hl. destruct (0 <? svInt v)%Z; [destruct (_ <? _)%Z; [discriminate Hl|]|];
      cbn [mbind option_bind] in Hl; injection Hl as <-; apply lookup_delete_eq.
  - cbn [mbind option_bind] in Hl. injection Hl as <-. exact Ev.
Qed.

(** C31. Whatever the file held at the start, after any calls of the persisting
    setters every preference has the same value again at the next start; the
    legacy key must be gone. *)
Theorem gui_settings_roundtrip s st cs :
  load true (atStart s) = Some st -> st_store st !! kRateSmoothingSecsLegacy = None -> Forall (fun c => isTransient c = false) cs ->
  exists st', load true (atStart (st_store (runCalls cs st))) = Some st' /\ st_prefs st' ≡ st_prefs (runCalls cs st)
    /\ st_store st' = atStart (st_store (runCalls cs st)).
Proof.
  intros Hl Hleg Hcs. assert (Hp : st_persist st = true).
  { revert Hl. unfold load. destruct (migrateSmoothing _ _ _) as [[ms s']|]; cbn; [|done]. by intros [= <-]. }
  pose proof (runCalls_agrees cs st Hcs Hp (load_agrees s st Hl)) as Ha. set (st1 := runCalls cs st) in *.
  assert (Hleg1 : atStart (st_store st1) !! kRateSmoothingSecsLegacy = None).
  { unfold atStart. rewrite lookup_fmap. unfold st1. by rewrite runCalls_legacy, Hleg. }
  unfold load, migrateSmoothing. rewrite Hleg1. cbn [mbind option_bind]. eexists. split; [reflexivity|]. split; [|done].
  intros p. cbn [st_prefs]. rewrite readPrefs_value. specialize (Ha p). unfold atStart. rewrite <- Ha. case_decide as Hd; [|by rewrite lookup_fmap].
  subst p. cbn [decode prefKey]. unfold intValue. by rewrite lookup_fmap.
Qed.
End Store.

(* ------------------------------------------------------------------ *)
(** ** Properties of every run *)

(** A call that announces no change has made none; one that announces a change
    has made exactly the one asked for: that preference alone differs from
    before, and only its key is written. *)
Theorem changed_is_true c st :
  let '(st', emitted) := applyCall c st in
  if emitted then
    st_persist st' = st_persist st
    /\ (forall p, (forall v, (p, v) ∉ writes c (st_prefs st)) -> valueOf (st_prefs st') p = valueOf (st_prefs st) p /\ st_store st' !! prefKey p = st_store st !! prefKey p)
    /\ (forall p v, (p, v) ∈ writes c (st_prefs st) -> valueOf (st_prefs st') p = v)
    /\ (c <> CReset -> ~ st_prefs st' ≡ st_prefs st)
  else st' = st.
Proof.
  destruct (isReset c) as [->|Hc].
  - pose proof (reset_persist st) as Hper. pose proof (reset_prefs st) as Hpr. cbn [applyCall] in *. destruct (resetChipColors st) as [st' e] eqn:Er.
    assert (e = true) as -> by (unfold resetChipColors in Er; congruence). cbn [fst] in *. split_and!; [done| | |done].
    + intros p Hno. assert (Hcol : forall k, p <> PColor k).
      { intros k ->. apply (Hno (SvStr (colorDefault k))). cbn [writes]. apply list_elem_of_In. destruct k; cbn; tauto. }
      split; [rewrite Hpr; destruct p; try done; by destruct (Hcol p)|].
      assert (Hst : st' = fst (resetChipColors st)) by (by rewrite Er). rewrite Hst. unfold resetChipColors, resetOne. cbn [fst foldl].
      rewrite !store_store, !store_persist. cbn [set_prefs st_persist st_store]. destruct (st_persist st); [|done].
      rewrite !lookup_insert_ne; [done|..]; intros He; symmetry in He; apply (prefKey_inj p (PColor _)) in He; by apply Hcol in He.
    + intros p v (q & [= -> ->] & _)%list_elem_of_fmap. by rewrite Hpr.
  - pose proof (applyCall_one c st Hc) as H1. destruct (applyCall c st) as [st' e].
    destruct (writes c (st_prefs st)) as [|[p v] ws] eqn:Ew; [destruct H1 as [-> ->]; done|].
    assert (ws = []) as -> by (destruct c; cbn [writes] in Ew; try (destruct (isHexColor _)); congruence).
    case_decide as Hd; [destruct H1 as [-> ->]; done|]. destruct H1 as [(Hp & Hv & Hq & Hs) ->]. split_and!; [done| | |].
    + intros q Hno. assert (Hqp : q <> p) by (intros ->; apply (Hno v), elem_of_cons; by left). split; [by apply Hq|]. rewrite Hs.
      destruct (st_persist st && negb (isTransient c)); [|done]. rewrite lookup_insert_ne; [done|]. intros He%prefKey_inj. congruence.
    + intros q u Hin. apply list_elem_of_singleton in Hin. by injection Hin as -> ->.
    + intros _ He. apply Hd. rewrite <- (He p). congruence.
Qed.

Section Runs.
Context `{QtSettingsLaws}.

Lemma applyCall_quiet c st : st_persist st = false -> st_persist (fst (applyCall c st)) = false /\ st_store (fst (applyCall c st)) = st_store st.
Proof.
  intros Hp. destruct (isReset c) as [->|Hc].
  - cbn [applyCall]. rewrite reset_persist. split; [done|]. unfold resetChipColors, resetOne. cbn [fst foldl].
    rewrite !store_store, !store_persist. cbn [set_prefs st_persist st_store]. by rewrite Hp.
  - pose proof (applyCall_one c st Hc) as H1. destruct (applyCall c st) as [st' e]. cbn [fst].
    destruct (writes c (st_prefs st)) as [|[p v] ws]; [by destruct H1 as [-> _]|]. case_decide; [by destruct H1 as [-> _]|].
    destruct H1 as [(Hp' & _ & _ & Hs) _]. rewrite Hp in Hp', Hs. done.
Qed.

(** A root process whose configuration belongs to another user never writes:
    neither the start with its migration nor any call changes the store. *)
Theorem foreign_store_untouched statUid euid cfgRoot s st cs :
  settingsWriteWouldEscalate statUid euid cfgRoot = true -> newSettings statUid euid cfgRoot s = Some st -> st_store (runCalls cs st) = s.
Proof.
  unfold newSettings. intros ->. cbn [negb]. intros Hl. assert (Hst : st_persist st = false /\ st_store st = s).
  { revert Hl. unfold load, migrateSmoothing. destruct (s !! kRateSmoothingSecsLegacy); [|by intros [= <-]].
    destruct (_ =? 0)%Z; [|by intros [= <-]]. destruct (0 <? _)%Z; [|by intros [= <-]]. destruct (_ <? _)%Z; [done|by intros [= <-]]. }
  destruct Hst as [Hp <-]. clear Hl. revert st Hp. induction cs as [|c cs IH]; intros st Hp; [done|]. unfold runCalls. cbn [foldl].
  destruct (applyCall_quiet c st Hp) as [Hp' Hs]. rewrite <- Hs. by apply IH.
Qed.

Definition colors_ok (st : Settings) : Prop := forall p, isHexColor (pr_color (st_prefs st) p) = true.

Lemma load_colors persist s st : load persist s = Some st -> colors_ok st.
Proof.
  unfold load. destruct (migrateSmoothing _ _ _) as [[ms s']|]; cbn; [|done]. intros [= <-] p. cbn. unfold loadColor.
  match goal with |- isHexColor (if isHexColor ?x then _ else _) = true => destruct (isHexColor x) eqn:E end; [exact E|apply colorDefault_hex].
Qed.

Lemma writes_color c r p v : (PColor p, v) ∈ writes c r -> exists s, v = SvStr s /\ isHexColor s = true.
Proof.
  destruct c; cbn [writes]; try (intros Hin; apply list_elem_of_singleton in Hin; discriminate Hin).
  - destruct (isHexColor s) eqn:E; [|by intros ?%elem_of_nil]. intros Hin. apply list_elem_of_singleton in Hin. injection Hin as -> ->. eauto.
  - intros (q & [= -> ->] & _)%list_elem_of_fmap. eauto using colorDefault_hex.
Qed.

Lemma writes_int c r p v : (PInt p, v) ∈ writes c r -> exists z, v = SvInt z /\ (fst (intBounds p) <= z <= snd (intBounds p))%Z.
Proof.
  destruct c; cbn [writes]; try (intros Hin; apply list_elem_of_singleton in Hin; first [discriminate Hin|injection Hin as -> ->]).
  - eexists. split; [done|]. apply clamp_range. destruct (intBounds_ok p0). lia.
  - destruct (isHexColor s); [|by intros ?%elem_of_nil]. intros Hin. apply list_elem_of_singleton in Hin. discriminate Hin.
  - by intros (q & [=] & _)%list_elem_of_fmap.
Qed.

(** A member after a call: one of the values written, or the one before. *)
Lemma applyCall_value c st p :
  (exists v, (p, v) ∈ writes c (st_prefs st) /\ valueOf (st_prefs (fst (applyCall c st))) p = v) \/
  valueOf (st_prefs (fst (applyCall c st))) p = valueOf (st_prefs st) p.
Proof.
  pose proof (changed_is_true c st) as Hch. destruct (applyCall c st) as [st' e]. cbn [fst]. destruct e; [|subst st'; by right].
  destruct Hch as (_ & Hsame & Hnew & _). destruct (decide (p ∈ (writes c (st_prefs st)).*1)) as [Hin|Hno].
  - apply list_elem_of_fmap in Hin as ([q v] & -> & Hin). left. exists v. split; [done|]. by apply Hnew.
  - right. apply Hsame. intros v Hin. apply Hno, list_elem_of_fmap. by exists (p, v).
Qed.

(** After any calls the four colours are colours, and every number is within
    its setter's bounds unless it is still the one found in the file. *)
Theorem gui_settings_valid persist s st cs :
  load persist s = Some st ->
  colors_ok (runCalls cs st) /\
  forall p, pr_int (st_prefs (runCalls cs st)) p = pr_int (st_prefs st) p \/
    (fst (intBounds p) <= pr_int (st_prefs (runCalls cs st)) p <= snd (intBounds p))%Z.
Proof.
  intros Hl. apply load_colors in Hl.
  assert (Hgen : forall st0, colors_ok st0 -> (forall p, pr_int (st_prefs st0) p = pr_int (st_prefs st) p \/ (fst (intBounds p) <= pr_int (st_prefs st0) p <= snd (intBounds p))%Z) ->
    colors_ok (runCalls cs st0) /\ forall p, pr_int (st_prefs (runCalls cs st0)) p = pr_int (st_prefs st) p \/
      (fst (intBounds p) <= pr_int (st_prefs (runCalls cs st0)) p <= snd (intBounds p))%Z); [|apply Hgen; [done|by left]].
  induction cs as [|c cs IH]; intros st0 Hcol Hint; [done|]. unfold runCalls. cbn [foldl]. apply IH.
  - intros p. destruct (applyCall_value c st0 (PColor p)) as [(v & Hin & Hv)|Hv]; cbn [valueOf] in Hv.
    + apply writes_color in Hin as (s' & -> & Hs). injection Hv as ->. exact Hs.
    + injection Hv as ->. apply Hcol.
  - intros p. destruct (applyCall_value c st0 (PInt p)) as [(v & Hin & Hv)|Hv]; cbn [valueOf] in Hv.
    + apply writes_int in Hin as (z & -> & Hz). injection Hv as ->. by right.
    + injection Hv as ->. apply Hint.
Qed.

(** What the file holds is taken without the setter's bounds: a polling
    interval of 0 or below is used as it is. *)
Theorem load_unclamped persist z : int32 z ->
  exists st, load persist (atStart {[intKey PfPollIntervalMs := SvInt z]}) = Some st /\ pr_int (st_prefs st) PfPollIntervalMs = z.
Proof.
  intros Hz. unfold load, migrateSmoothing, atStart. rewrite map_fmap_singleton. rewrite lookup_singleton_ne by (apply (prefKey_legacy (PInt PfPollIntervalMs))).
  cbn [mbind option_bind]. eexists. split; [reflexivity|]. cbn [st_prefs readPrefs pr_int]. unfold intValue. rewrite lookup_singleton_eq. by apply reread_int.
Qed.

(** A legacy smoothing above 2147483 seconds overflows an int. *)
Theorem legacy_overflows persist z : (2147483 < z <= 2147483647)%Z -> load persist (atStart {[kRateSmoothingSecsLegacy := SvInt z]}) = None.
Proof.
  intros Hz. unfold load, migrateSmoothing, atStart. rewrite map_fmap_singleton, lookup_singleton_eq. unfold intValue.
  rewrite lookup_singleton_ne by (intros He; symmetry in He; revert He; apply (prefKey_legacy (PInt PfRateSmoothingMs))). cbn [intDefault Z.eqb].
  rewrite reread_int by (unfold int32; lia). destruct (Z.ltb_spec 0 z); [|lia]. destruct (Z.ltb_spec 2147483647 (z * 1000)); [done|lia].
Qed.

(** With both keys in the file the legacy one is kept: smoothing switched off
    by the user is back at the next start, with the legacy value. *)
Theorem legacy_resurrects ms legacy :
  (0 < ms <= 60000)%Z -> (0 < legacy <= 2147483)%Z ->
  exists st st', load true (atStart (<[intKey PfRateSmoothingMs := SvInt ms]> {[kRateSmoothingSecsLegacy := SvInt legacy]})) = Some st
    /\ pr_int (st_prefs (runCalls [CInt PfRateSmoothingMs 0] st)) PfRateSmoothingMs = 0%Z
    /\ load true (atStart (st_store (runCalls [CInt PfRateSmoothingMs 0] st))) = Some st'
    /\ pr_int (st_prefs st') PfRateSmoothingMs = (legacy * 1000)%Z.
Proof.
  intros Hms Hleg. set (s := <[intKey PfRateSmoothingMs := SvInt ms]> {[kRateSmoothingSecsLegacy := SvInt legacy]} : SetStore).
  assert (Hk : intKey PfRateSmoothingMs <> kRateSmoothingSecsLegacy) by (apply (prefKey_legacy (PInt PfRateSmoothingMs))).
  assert (H1 : load true (atStart s) = Some (mkSettings true (atStart s) (readPrefs ms (atStart s)))).
  { assert (Hl : atStart s !! kRateSmoothingSecsLegacy = Some (reread (SvInt legacy))).
    { unfold atStart, s. by rewrite lookup_fmap, lookup_insert_ne, lookup_singleton_eq. }
    assert (Hr : atStart s !! intKey PfRateSmoothingMs = Some (reread (SvInt ms))).
    { unfold atStart, s. by rewrite lookup_fmap, lookup_insert_eq. }
    unfold load, migrateSmoothing, intValue. rewrite Hl, Hr, reread_int by (unfold int32; lia). destruct (Z.eqb_spec ms 0); [lia|done]. }
  eexists. exists (mkSettings true (delete kRateSmoothingSecsLegacy (<[intKey PfRateSmoothingMs := SvInt (legacy * 1000)]> (atStart (<[intKey PfRateSmoothingMs := SvInt 0]> (atStart s)))))
    (readPrefs (legacy * 1000) (delete kRateSmoothingSecsLegacy (<[intKey PfRateSmoothingMs := SvInt (legacy * 1000)]> (atStart (<[intKey PfRateSmoothingMs := SvInt 0]> (atStart s))))))).
  split; [exact H1|].
  assert (Hrun : runCalls [CInt PfRateSmoothingMs 0] (mkSettings true (atStart s) (readPrefs ms (atStart s))) =
    mkSettings true (<[intKey PfRateSmoothingMs := SvInt 0]> (atStart s)) (set_pr_int PfRateSmoothingMs 0 (readPrefs ms (atStart s)))).
  { unfold runCalls. cbn [foldl applyCall]. unfold setInt. change (clamp _ 0 _) with 0%Z. cbn [st_prefs readPrefs pr_int]. rewrite decide_False by lia. reflexivity. }
  rewrite Hrun. cbn [st_prefs st_store]. split; [done|]. split; [|done].
  set (s2 := <[intKey PfRateSmoothingMs := SvInt 0]> (atStart s)).
  assert (Hl : atStart s2 !! kRateSmoothingSecsLegacy = Some (reread (SvInt legacy))).
  { unfold s2. unfold atStart at 1. rewrite lookup_fmap, lookup_insert_ne by done. rewrite atStart_again. unfold atStart, s. by rewrite lookup_fmap, lookup_insert_ne, lookup_singleton_eq. }
  assert (Hr : atStart s2 !! intKey PfRateSmoothingMs = Some (reread (SvInt 0))).
  { unfold s2. unfold atStart at 1. by rewrite lookup_fmap, lookup_insert_eq. }
  unfold load, migrateSmoothing, intValue. rewrite Hl, Hr, !reread_int by (unfold int32; lia).
  cbn [Z.eqb]. destruct (Z.ltb_spec 0 legacy); [|lia]. destruct (Z.ltb_spec 2147483647 (legacy * 1000)); [lia|]. reflexivity.
Qed.
End Runs.

(** A colour with a line break at its end is taken for a colour. *)
Theorem color_newline_accepted s : isHexColor (35%Z :: s) = true -> 10%Z ∉ s -> isHexColor (35%Z :: s ++ [10%Z]) = true.
Proof.
  unfold isHexColor. cbn [Z.eqb Pos.eqb andb]. intros Hs Hn. apply orb_true_iff. right.
  assert (Hd : dropFinalNewline (s ++ [10%Z]) = s) by (unfold dropFinalNewline; rewrite reverse_app; cbn; apply reverse_involutive). rewrite Hd.
  apply orb_true_iff in Hs as [Hs|Hs]; [done|]. unfold dropFinalNewline in Hs. destruct (reverse s) as [|c r] eqn:Er; [done|].
  destruct (Z.eqb_spec c 10) as [->|]; [|done]. destruct Hn. rewrite <- (reverse_involutive s), Er. apply elem_of_reverse, elem_of_cons. by left.
Qed.

(* ------------------------------------------------------------------ *)
(** ** Examples: a store that keeps text *)

Definition signedText (s : QString) : Z :=
  match s with
  | c :: r => if (c =? 45)%Z then (- default 0 (parseDec r))%Z else default 0%Z (parseDec s)
  | [] => 0%Z
  end.
Definition intoInt32 (z : Z) : Z := if ((- 2147483648 <=? z) && (z <=? 2147483647))%Z then z else 0%Z.

#[global] Instance textSettings : QtSettings := {|
  svInt v := intoInt32 match v with SvInt z => z | SvBool b => if b then 1 else 0 | SvStr s => signedText s | SvList _ => 0 end;
  svBool v := match v with
              | SvInt z => negb (z =? 0)%Z | SvBool b => b
              | SvStr s => negb (isEmpty s || qeqb s (qs "0") || qeqb s (qs "false")) | SvList _ => false
              end;
  svStr v := match v with SvInt z => number z | SvBool b => if b then qs "true" else qs "false" | SvStr s => s | SvList _ => [] end;
  svList v := match v with SvList l => l | SvStr s => [s] | _ => [] end;
  reread v := match v with SvInt z => SvStr (number z) | SvBool b => SvStr (if b then qs "true" else qs "false") | v => v end;
|}.

Lemma signedText_number z : signedText (number z) = z.
Proof.
  assert (Hpos : forall z, (0 <= z)%Z -> signedText (number z) = z).
  { intros y Hy. pose proof (parseDec_number y Hy) as Hp. pose proof (number_digits y Hy) as Hd. unfold signedText.
    destruct (number y) as [|c r]; [discriminate Hp|]. apply Forall_cons in Hd as [Hc _]. destruct (Z.eqb_spec c 45) as [->|]; [discriminate Hc|]. by rewrite Hp. }
  destruct (Z.le_gt_cases 0 z) as [Hz|Hz]; [by apply Hpos|].
  assert (He : number z = 45%Z :: number (- z)).
  { unfold number. destruct (Z.ltb_spec z 0); [|lia]. destruct (Z.ltb_spec (- z) 0); [lia|done]. }
  rewrite He. unfold signedText. cbn [Z.eqb Pos.eqb]. rewrite parseDec_number by lia. cbn. lia.
Qed.

#[global] Instance textSettings_laws : @QtSettingsLaws textSettings.
Proof.
  split; cbn; try done.
  - intros v. unfold intoInt32, int32. destruct (_ && _)%Z eqn:E; [|lia]. apply andb_true_iff in E as [?%Z.leb_le ?%Z.leb_le]. lia.
  - intros z Hz. rewrite signedText_number. unfold intoInt32, int32 in *. destruct (Z.leb_spec (- 2147483648) z), (Z.leb_spec z 2147483647); cbn; lia.
  - by intros [].
  - by intros [].
Qed.

Definition someCalls : list Call :=
  [CInt PfPollIntervalMs 10; CBool PfShowTcp false; CList PfTrayInterfaces [qs "eth0"; qs "wlan0"]; CColor PfChipUser (qs "#zz"); CViewMode VmByProcess; CReset].

Lemma legacy_two_loads persist : exists st, load persist (atStart {[kRateSmoothingSecsLegacy := SvInt 2]}) = Some st.
Proof.
  apply load_defined. intros v. unfold atStart. rewrite map_fmap_singleton, lookup_singleton_eq. intros [= <-]. vm_compute. discriminate.
Defined.

Lemma gui_settings_roundtrip_witness :
  exists st st', load true (atStart {[kRateSmoothingSecsLegacy := SvInt 2]}) = Some st
    /\ load true (atStart (st_store (runCalls someCalls st))) = Some st' /\ st_prefs st' ≡ st_prefs (runCalls someCalls st).
Proof.
  destruct (legacy_two_loads true) as [st Hl].
  destruct (gui_settings_roundtrip {[kRateSmoothingSecsLegacy := SvInt 2]} st someCalls Hl) as (st' & Hl' & He & _).
  - apply (load_legacy _ _ Hl). unfold intValue, atStart. rewrite map_fmap_singleton, lookup_singleton_ne; [reflexivity|].
    intros He. symmetry in He. revert He. apply (prefKey_legacy (PInt PfRateSmoothingMs)).
  - unfold someCalls. repeat (apply Forall_cons; split; [reflexivity|]). apply Forall_nil. exact I.
  - exists st, st'. split; [exact Hl|]. split; [exact Hl'|exact He].
Defined.

Lemma foreign_store_untouched_witness :
  exists st, newSettings (fun p => if qeqb p (qs "/home/u") then Some 1000%Z else None) 0 (qs "/home/u/.config") (atStart {[kRateSmoothingSecsLegacy := SvInt 2]}) = Some st
    /\ st_store (runCalls someCalls st) = atStart {[kRateSmoothingSecsLegacy := SvInt 2]}.
Proof.
  assert (He : settingsWriteWouldEscalate (fun p => if qeqb p (qs "/home/u") then Some 1000%Z else None) 0 (qs "/home/u/.config") = true) by (vm_compute; reflexivity).
  destruct (legacy_two_loads false) as [st Hl]. exists st. assert (Hn : newSettings (fun p => if qeqb p (qs "/home/u") then Some 1000%Z else None) 0 (qs "/home/u/.config") (atStart {[kRateSmoothingSecsLegacy := SvInt 2]}) = Some st).
  { unfold newSettings. rewrite He. exact Hl. }
  split; [exact Hn|]. exact (foreign_store_untouched _ 0 _ _ st someCalls He Hn).
Defined.

Lemma gui_settings_valid_witness : exists st, load true (atStart {[kRateSmoothingSecsLegacy := SvInt 2]}) = Some st /\ colors_ok (runCalls someCalls st).
Proof. destruct (legacy_two_loads true) as [st Hl]. exists st. split; [exact Hl|]. exact (proj1 (gui_settings_valid true _ st someCalls Hl)). Defined.

Lemma load_unclamped_witness : exists st, load true (atStart {[intKey PfPollIntervalMs := SvInt 0]}) = Some st /\ pr_int (st_prefs st) PfPollIntervalMs = 0%Z.
Proof. apply (load_unclamped true 0). unfold int32. lia. Defined.

Lemma legacy_overflows_witness : load true (atStart {[kRateSmoothingSecsLegacy := SvInt 3000000]}) = None.
Proof. apply (legacy_overflows true 3000000). lia. Defined.

Lemma legacy_resurrects_witness :
  exists st st', load true (atStart (<[intKey PfRateSmoothingMs := SvInt 500]> {[kRateSmoothingSecsLegacy := SvInt 2]})) = Some st
    /\ pr_int (st_prefs (runCalls [CInt PfRateSmoothingMs 0] st)) PfRateSmoothingMs = 0%Z
    /\ load true (atStart (st_store (runCalls [CInt PfRateSmoothingMs 0] st))) = Some st'
    /\ pr_int (st_prefs st') PfRateSmoothingMs = 2000%Z.
Proof. apply (legacy_resurrects 500 2); lia. Defined.

Lemma color_newline_accepted_witness : isHexColor (35%Z :: qs "5fd0c5" ++ [10%Z]) = true.
Proof. apply (color_newline_accepted (qs "5fd0c5")); [reflexivity|]. rewrite list_elem_of_In. vm_compute. intuition discriminate. Defined.
