(* ===== verification/WindowText.v ===== *)
(** * The main window's texts, menus and small tables: [src/ui/MainWindow.cpp]

    The filter clauses its context menu writes, the interface filter menu, the
    column menu of the headers, the labels of the status bar and the title,
    and the cache of process details.

    Texts pass through [tr] untranslated.  A header is the list of its logical
    columns in visual order with the hidden ones. *)

From S2P Require Import Prelude Qt StdAlgo Conn DbusTypes Filter FilterEval FilterParse FilterPrint Units UdpAgg Aggregator.
From S2P Require Import IfaceAgg GroupProxy CheckTool GuiModel GuiSettings.

(* ------------------------------------------------------------------ *)
(** ** Filter clauses of the context menu *)

(** The template of a percent marker between double quotes. *)
Definition quotedMarker : QString := [34; 37; 49; 34]%Z.

(** [QString::replace] of one character. *)
Definition replaceChar (c : QChar) (by_ : QString) (s : QString) : QString := List.flat_map (fun x => if (x =? c)%Z then by_ else [x]) s.

Definition quoteForFilter (raw : QString) : QString :=
  qarg quotedMarker (replaceChar 34 [92; 34]%Z (replaceChar 92 [92; 92]%Z raw)).

Definition peerClause (exclude : bool) (peer : QString) : QString :=
  qarg ((if exclude then qs "not host=" else qs "host=") ++ quotedMarker) peer.
Definition commClause (comm : QString) : QString := qarg (qs "comm=%1") (quoteForFilter comm).
Definition pidClause (pid : Z) : QString := qarg (qs "pid=%1") (number pid).
Definition containerToken (ci : ContainerInfo) : QString :=
  if negb (isEmpty (ci_name ci)) then ci_name ci else if negb (isEmpty (ci_id ci)) then ci_id ci else ci_runtime ci.
Definition containerClause (ci : ContainerInfo) : QString := qarg (qs "container:%1") (quoteForFilter (containerToken ci)).
Definition runtimeClause (rt : QString) : QString := qarg (qs "runtime=%1") (quoteForFilter rt).

Definition processInfoText (comm : QString) (pid : Z) : QString :=
  qarg (qarg (qs "%1 [pid %2]") (if isEmpty comm then qs "?" else comm)) (number pid).
Definition containerInfoText (ci : ContainerInfo) : QString :=
  qjoin [32%Z] ((if isEmpty (ci_runtime ci) then [] else [ci_runtime ci]) ++ (if isEmpty (ci_name ci) then [] else [ci_name ci])
                ++ (if isEmpty (ci_id ci) then [] else [ci_id ci])).

(** What the menu of a flow offers: the texts to copy and the filters. *)
Record FlowMenu := mkFlowMenu {
  fm_source : QString; fm_destination : QString; fm_line : QString;
  fm_peer : option QString;                 (* the peer named in its two entries *)
  fm_process : option (QString * QString);  (* filter clause, text to copy *)
  fm_container : option (QString * QString);
  fm_runtime : option QString;
}.

Section Menu.
Context `{QtAddrText} (dnsCachedName : nat -> QHostAddress -> QString).

Definition flowMenu (a : Aggregator) (row : Z) : option FlowMenu :=
  match rowAt a row with
  | None => None
  | Some r =>
      let p := c_process (r_current r) in let ci := c_container (r_current r) in
      let peer := peerAddressText a row in
      let hasProcess := (0 <? pi_pid p)%Z || negb (isEmpty (pi_comm p)) in
      let hasContainer := negb (isEmpty (ci_runtime ci)) || negb (isEmpty (ci_id ci)) || negb (isEmpty (ci_name ci)) in
      Some (mkFlowMenu (copyTextForEndpoint dnsCachedName a row FlowSource)
              (copyTextForEndpoint dnsCachedName a row FlowDestination) (copyTextForFlow dnsCachedName a row)
              (if isEmpty peer then None else Some peer)
              (if hasProcess then Some (if isEmpty (pi_comm p) then pidClause (pi_pid p) else commClause (pi_comm p), processInfoText (pi_comm p) (pi_pid p)) else None)
              (if hasContainer then Some (containerClause ci, containerInfoText ci) else None)
              (if hasContainer && negb (isEmpty (ci_runtime ci)) then Some (runtimeClause (ci_runtime ci)) else None))
  end.

(** [filterByConnectionRow]: the row under the point when the entry is chosen;
    [None]: a group header, or no row. *)
Definition filterByConnectionRow (a : Aggregator) (rowNow : option Z) (exclude : bool) : option QString :=
  row ← rowNow; let peer := peerAddressText a row in if isEmpty peer then None else Some (peerClause exclude peer).

(** [copyTableSelectionToClipboard] for the flows; group headers are [None]. *)
Definition copyFlows (a : Aggregator) (selected : list (option Z)) : option QString :=
  match omap id selected with
  | [] => None
  | rows => Some (qjoin [10%Z] (map (copyTextForFlow dnsCachedName a) rows))
  end.
End Menu.

(* ------------------------------------------------------------------ *)
(** ** The interface filter *)

Fixpoint sortInsert (x : QString) (l : list QString) : list QString :=
  match l with [] => [x] | y :: r => if qlt y x then y :: sortInsert x r else x :: l end.
Definition sortStrings (l : list QString) : list QString := foldr sortInsert [] l.

(** Names in the menu. *)
Definition menuNames (stats : list InterfaceStats) : list QString :=
  sortStrings (elements (list_to_set (filter (fun n => n <> []) (map if_name stats)) : gset QString)).
(** An entry's check mark, with the one for all interfaces. *)
Definition allChecked (visible : list QString) : bool := bool_decide ((list_to_set visible : gset QString) = ∅).
Definition itemChecked (visible : list QString) (value : QString) : bool := bool_decide (value ∈ (list_to_set visible : gset QString)).
Definition toggleIface (value : QString) (checked : bool) (cur : list QString) : list QString :=
  let set := list_to_set cur : gset QString in
  sortStrings (elements (if checked then {[value]} ∪ set else set ∖ {[value]})).
Definition toggleTray (ifname : QString) (inSummary : bool) (l : list QString) : list QString :=
  if inSummary then filter (fun x => x <> ifname) l else if bool_decide (ifname ∈ l) then l else l ++ [ifname].
Definition ifaceButton (visible : list QString) : QString :=
  match elements (list_to_set visible : gset QString) with
  | [] => qs "All interfaces"
  | [n] => n
  | l => number (Z.of_nat (length l)) ++ qs " interface(s)"
  end.

(* ------------------------------------------------------------------ *)
(** ** Columns *)

Record HeaderState := mkHeaderState { hs_visual : list nat; hs_hidden : gset nat }.

Definition moveSection (from to : nat) (l : list nat) : list nat :=
  match l !! from with
  | Some x => let l' := delete from l in take to l' ++ x :: drop to l'
  | None => l
  end.
Definition visualIndex (logical : nat) (l : list nat) : nat := match list_find (fun x => x = logical) l with Some (i, _) => i | None => 0 end.
Definition restoreStep (l : list nat) (logical : nat) : list nat :=
  let visual := visualIndex logical l in if decide (visual = logical) then l else moveSection visual logical l.

(** An entry is a column with its check mark and whether it can be chosen. *)
Definition headerEntries (cols : nat) (h : HeaderState) : list (bool * bool) :=
  let visibleCount := length (filter (fun i => i ∉ hs_hidden h) (seq 0 cols)) in
  map (fun i => let checked := bool_decide (i ∉ hs_hidden h) in (checked, negb (checked && (visibleCount <=? 1)%nat))) (seq 0 cols).

(** Toggling; [intercept] takes the columns that are preferences. *)
Definition toggleColumn (intercept : nat -> bool -> option Call) (col : nat) (checked : bool) (h : HeaderState) : HeaderState * list Call :=
  match intercept col checked with
  | Some c => (h, [c])
  | None => (mkHeaderState (hs_visual h) (if checked then hs_hidden h ∖ {[col]} else {[col]} ∪ hs_hidden h), [])
  end.
Definition resetHidden (intercept : nat -> bool -> option Call) (alwaysHidden : gset nat) (cols : nat) (h : HeaderState) : HeaderState * list Call :=
  foldl (fun acc i => let '(h, cs) := acc in let '(h', c) := toggleColumn intercept i (bool_decide (i ∉ alwaysHidden)) h in (h', cs ++ c)) (h, []) (seq 0 cols).
Definition resetColumns (intercept : nat -> bool -> option Call) (alwaysHidden : gset nat) (cols : nat) (h : HeaderState) : HeaderState * list Call :=
  let '(h, cs) := resetHidden intercept alwaysHidden cols h in
  (mkHeaderState (foldl restoreStep (hs_visual h) (seq 0 cols)) (hs_hidden h), cs).

(** Logical columns of the flows table. *)
Definition colRxMax : nat := 6.
Definition colTxMax : nat := 7.
Definition colProcess : nat := 8.
Definition colContainer : nat := 9.
Definition connAlwaysHidden : gset nat := {[colRxMax; colTxMax; colProcess; colContainer]}.
Definition connIntercept (col : nat) (checked : bool) : option Call :=
  if decide (col = colProcess) then Some (CBool PfShowProcessColumn checked)
  else if decide (col = colContainer) then Some (CBool PfShowContainerColumn checked)
  else None.

(* ------------------------------------------------------------------ *)
(** ** Labels *)

Definition emDashSep : QString := [32; 8212; 32]%Z.
Definition titleBase : QString := qs "qiftop" ++ emDashSep ++ qs "Network Monitor".

Section Labels.
Context `{QtNumberText}.

Definition cadencePart (ms : Z) : QString :=
  if (ms <? 1000)%Z then number ms ++ qs "ms"
  else if (Z.rem ms 1000 =? 0)%Z then number (Z.quot ms 1000) ++ qs "s"
  else fixedText (ddiv (dofZ ms) (dofZ 1000)) 1 ++ qs "s".

Definition titleParts (r : Prefs) : list QString :=
  let ifaces := pr_list r PfConnVisibleIfaces in
  let tcp := pr_bool r PfShowTcp in let udp := pr_bool r PfShowUdp in
  [cadencePart (pr_int r PfPollIntervalMs)]
  ++ (if isEmpty ifaces then [] else [qjoin [44%Z] (map (fun s => if isEmpty s then [8212%Z] else s) ifaces)])
  ++ (match tcp, udp with false, false => [qs "no protocols"] | true, false => [qs "TCP"] | false, true => [qs "UDP"] | true, true => [] end)
  ++ (if pr_bool r PfIpv6Enabled then [] else [qs "IPv4-only"])
  ++ (if ((pr_int r PfStaleRetentionSecs =? 0) && (pr_int r PfStaleRetentionSecsUdp =? 0))%Z then [qs "no linger"] else []).

Definition windowTitle (r : Prefs) : QString :=
  if negb (pr_bool r PfShowStatusInTitle) then titleBase
  else match titleParts r with
       | [] => titleBase
       | parts => qargs (qs "%1" ++ emDashSep ++ qs "%2") [titleBase; qjoin [32; 183; 32]%Z parts]
       end.

(** Sums of [quint64]s wrap. *)
Definition statusTotals (stats : list InterfaceStats) : Z * Z * Z :=
  foldl (fun acc s => let '(n, rx, tx) := acc in
           if if_isLoopback s then acc else ((n + 1)%Z, u64 (rx + if_rxBytes s), u64 (tx + if_txBytes s))) (0, 0, 0)%Z stats.
End Labels.

Definition interfacesLabel (stats : list InterfaceStats) : QString := number (fst (fst (statusTotals stats))) ++ qs " interface(s)".
Definition connectionsLabel (n : Z) : QString := number n ++ qs " connection(s)".

Definition backendLabel (usingAgent : bool) (version : QString) : QString :=
  if usingAgent then qarg (qs "agent %1") (if isEmpty version then qs "(legacy)" else version) else qs "in-process".

Inductive CadenceTint := TintPaused | TintSlowed | TintNone.
Definition cadenceTint (intervalMs : Z) : CadenceTint :=
  if (intervalMs <=? 0)%Z then TintPaused else if (1500 <? intervalMs)%Z then TintSlowed else TintNone.
Definition cadenceSuffix (intervalMs : Z) : QString :=
  match cadenceTint intervalMs with
  | TintPaused => emDashSep ++ qs "paused"
  | TintSlowed => qarg (emDashSep ++ qs "slowed (%1 ms)") (number intervalMs)
  | TintNone => []
  end.
(** [indexOf], the position of the first occurrence. *)
Fixpoint indexOf (n h : QString) : option nat :=
  if prefixb n h then Some O else match h with [] => None | _ :: r => S <$> indexOf n r end.
Definition notifyAgentCadence (intervalMs : Z) (text : QString) : QString :=
  (match indexOf emDashSep text with Some (S i) => take (S i) text | _ => text end) ++ cadenceSuffix intervalMs.

(** This host's addresses, from the interfaces' CIDR texts; [left(-1)] is the
    whole text. *)
Definition cidrAddress (cidr : QString) : QString := match indexOf [47%Z] cidr with Some i => take i cidr | None => cidr end.
Definition localsOf `{QtAddrText} (stats : list InterfaceStats) : gset QHostAddress :=
  list_to_set (filter (fun a => addrIsNull a = false) (map (fun t => addrOfString (cidrAddress t)) (mjoin (map if_addresses stats)))).

(* ------------------------------------------------------------------ *)
(** ** The details cache *)

Definition kProcDetailsCacheMax : Z := 1024.

Definition rememberDetails (d : CachedDetails) (cache : gmap Z CachedDetails) : gmap Z CachedDetails :=
  if (cd_pid d <=? 0)%Z then cache
  else
    let cache := if ((kProcDetailsCacheMax <=? Z.of_nat (size cache))%Z && negb (bool_decide (is_Some (cache !! cd_pid d)))) then ∅ else cache in
    <[cd_pid d := d]> cache.

(** A group is expanded: the pid it stands for, the name its first flow shows
    now; the pid to ask the agent about. *)
Definition groupExpanded (pid : Z) (liveComm : QString) (cache : gmap Z CachedDetails) : gmap Z CachedDetails * option Z :=
  if (pid <=? 0)%Z then (cache, None)
  else match cache !! pid with
       | None => (cache, Some pid)
       | Some d =>
           if negb (isEmpty liveComm) && negb (isEmpty (cd_comm d)) && negb (qeqb (cd_comm d) liveComm)
           then (delete pid cache, Some pid) else (cache, None)
       end.

(* ------------------------------------------------------------------ *)
(** ** A clause means what its menu entry says *)

Lemma replace_escape s : replaceChar 34 [92; 34]%Z (replaceChar 92 [92; 92]%Z s) = escapeText s.
Proof.
  unfold replaceChar. induction s as [|c s IH]; [done|]. cbn [List.flat_map escapeText]. rewrite flat_map_app, IH.
  destruct (Z.eqb_spec c 92) as [->|Hb]; [reflexivity|]. cbn [List.flat_map]. destruct (Z.eqb_spec c 34) as [->|Hq]; [reflexivity|].
  cbn [app orb]. by destruct (Z.eqb_spec c 92).
Qed.

Lemma quoteForFilter_eq raw : quoteForFilter raw = quoteText raw.
Proof. unfold quoteForFilter. rewrite replace_escape. reflexivity. Qed.

Lemma escapeText_plain s : 34%Z ∉ s -> 92%Z ∉ s -> escapeText s = s.
Proof.
  induction s as [|c s IH]; [done|]. intros [Hq Hs]%not_elem_of_cons [Hb Hs']%not_elem_of_cons. cbn [escapeText].
  destruct (Z.eqb_spec c 34), (Z.eqb_spec c 92); try congruence. cbn [orb]. by rewrite IH.
Qed.

Definition textPred (f : Field) (op : Op) (v : QString) : Predicate := mkPredicate f op v dzero false [].

Lemma commClause_eq comm : commClause comm = printExpr (EPred (textPred FComm OpEquals comm)).
Proof. unfold commClause. rewrite quoteForFilter_eq. transitivity (qs "comm=" ++ quoteText comm ++ []); [reflexivity|]. by rewrite app_nil_r. Qed.
Lemma runtimeClause_eq rt : runtimeClause rt = printExpr (EPred (textPred FRuntime OpEquals rt)).
Proof. unfold runtimeClause. rewrite quoteForFilter_eq. transitivity (qs "runtime=" ++ quoteText rt ++ []); [reflexivity|]. by rewrite app_nil_r. Qed.
Lemma containerClause_eq ci : containerClause ci = printExpr (EPred (textPred FContainer OpContains (containerToken ci))).
Proof. unfold containerClause. rewrite quoteForFilter_eq. transitivity (qs "container:" ++ quoteText (containerToken ci) ++ []); [reflexivity|]. by rewrite app_nil_r. Qed.
Lemma peerClause_eq exclude peer : 34%Z ∉ peer -> 92%Z ∉ peer ->
  peerClause exclude peer = (if exclude then qs "not " else []) ++ printExpr (EPred (textPred FHost OpEquals peer)).
Proof.
  intros Hq Hb. cbn [printExpr textPred p_field p_op p_textValue]. unfold quoteText. rewrite escapeText_plain by done. unfold peerClause. by destruct exclude.
Qed.

Section Clauses.
Context `{QtUnicode, QtAddrText, QtRegex, QtToDouble, !QtUnicodeLaws}.

Lemma trimmed_solid c m d : isSpace c = false -> isSpace d = false -> trimmed (c :: m ++ [d]) = c :: m ++ [d].
Proof.
  intros Hc Hd. unfold trimmed. cbn [dropSpaces]. rewrite Hc. rewrite reverse_cons, reverse_app. cbn [reverse app].
  change (reverse [d]) with [d]. cbn [app dropSpaces]. rewrite Hd. change (d :: reverse m ++ [c]) with ([d] ++ (reverse m ++ [c])).
  rewrite !reverse_app, reverse_involutive. done.
Qed.

Lemma trimmed_pred pre p : (pre = [] \/ pre = qs "not ") -> trimmed (pre ++ printExpr (EPred p)) = pre ++ printExpr (EPred p).
Proof.
  intros Hpre. assert (Hsp : isSpace 34 = false) by (by rewrite isSpace_ascii by (unfold isAscii; lia)).
  assert (Hf : exists c m, fieldName (p_field p) = c :: m /\ isSpace c = false).
  { destruct (fieldName (p_field p)) as [|c m] eqn:Ef; [by destruct (p_field p)|]. exists c, m. split; [done|].
    destruct (p_field p); injection Ef as <- <-; rewrite isSpace_ascii by (unfold isAscii; lia); reflexivity. }
  destruct Hf as (c & m & Hf & Hc). cbn [printExpr]. rewrite Hf. unfold quoteText.
  destruct Hpre as [-> | ->].
  - cbn [app]. rewrite !app_comm_cons, !app_assoc. rewrite <- !app_comm_cons. by apply trimmed_solid.
  - change (qs "not ") with (110%Z :: qs "ot "). cbn [app]. rewrite !app_comm_cons, !app_assoc. rewrite <- !app_comm_cons.
    apply trimmed_solid; [by rewrite isSpace_ascii by (unfold isAscii; lia)|done].
Qed.

Lemma textPred_ok f op v : isNumericField f = false -> isOrderOp op = false -> op <> OpRegex -> pred_ok (textPred f op v).
Proof. intros Hf Ho Hr. split; cbn; try done; [by rewrite Ho|by destruct op]. Qed.

Lemma parse_pred p : pred_ok p -> parse (printExpr (EPred p)) = mkParseResult (Some (EPred p)) [] (-1).
Proof. intros Hp. apply parse_printed; [exact Hp|]. apply Nat.leb_le. vm_compute. reflexivity. Qed.

Lemma stAt_space N s : stAt N (32%Z :: s) = stAt N s.
Proof.
  assert (Hsp : isSpace 32 = true) by (by rewrite isSpace_ascii by (unfold isAscii; lia)).
  assert (Hlen : forall t, (length (skipWs t) <= length t)%nat). { induction t as [|c t IH]; cbn; [lia|]. destruct (isSpace c); cbn; lia. }
  assert (Hlex : lexNext (lexAt N (32%Z :: s)) = lexNext (lexAt N s)).
  { unfold lexNext, lexAt. cbn [l_rest l_pos skipWs]. rewrite Hsp. specialize (Hlen s).
    assert (Hstart : (N - Z.of_nat (length (32%Z :: s)) + Z.of_nat (length (32%Z :: s) - length (skipWs s)) =
                      N - Z.of_nat (length s) + Z.of_nat (length s - length (skipWs s)))%Z) by (cbn [length]; lia).
    by rewrite Hstart. }
  unfold stAt, stateAt. unfold lexAt in Hlex. by rewrite Hlex.
Qed.

Lemma lexes_notword N r : lexes N (qs "not" ++ 32%Z :: r) TokNot (qs "not") (32%Z :: r).
Proof.
  apply (lexes_front N 110 (qs "ot" ++ 32%Z :: r) TokNot (qs "not") 3); [unfold isAscii; lia|done|cbn; lia|].
  intros start lx Hs. unfold lexNext. rewrite Hs. cbn [length]. rewrite Nat.sub_diag.
  assert (Hw : scanWord (110%Z :: qs "ot" ++ 32%Z :: r) = (qs "not", 32%Z :: r)).
  { cbn [app qs]. change (110%Z :: qs "ot" ++ 32%Z :: r) with (110%Z :: 111%Z :: 116%Z :: 32%Z :: r). cbn [scanWord].
    rewrite !wordStop_ascii by (unfold isAscii; lia). reflexivity. }
  cbn [head]. rewrite Hw. rewrite toLower_ascii by (repeat constructor; unfold isAscii; lia). reflexivity.
Qed.

Lemma parse_not_pred p : pred_ok p -> parse (qs "not " ++ printExpr (EPred p)) = mkParseResult (Some (ENot (Some (EPred p)))) [] (-1).
Proof.
  intros Hp. set (s := qs "not " ++ printExpr (EPred p)). set (N := Z.of_nat (length s)).
  assert (Hs : s = qs "not" ++ 32%Z :: printExpr (EPred p)) by reflexivity.
  assert (Hst : stateAt s 0 = stAt N s) by (unfold stAt, N; by rewrite Z.sub_diag).
  pose proof (lexes_notword N (printExpr (EPred p))) as Hl. rewrite <- Hs in Hl.
  destruct (lexes_state _ _ _ _ _ Hl) as (_ & _ & _ & Hadv).
  pose proof (lexes_field N (p_field p) (p_op p) (quoteText (p_textValue p))) as Hf. change (fieldName (p_field p) ++ opText (p_op p) ++ quoteText (p_textValue p)) with (printExpr (EPred p)) in Hf.
  assert (Hno : parseNot 62 (stAt N s) = (Some (ENot (Some (EPred p))), stAt N [])).
  { rewrite parseNot_S, (proj2 (tokIs_lexes _ _ _ TokNot _ _ Hl)) by done. rewrite Hadv, stAt_space.
    rewrite parseNot_S, (tokIs_lexes_ne _ _ _ _ _ _ Hf) by done. rewrite parseAtom_S, (tokIs_lexes_ne _ _ _ _ _ _ Hf) by done.
    pose proof (parsePredicate_print N p [] Hp) as Hpp. rewrite app_nil_r in Hpp. by rewrite Hpp. }
  assert (Hor : parseOr kMaxExprDepth (stAt N s) = (Some (ENot (Some (EPred p))), stAt N [])).
  { change kMaxExprDepth with 64%nat. apply parseOr_of_and; [apply parseAnd_of_not|]; [exact Hno|apply stAt_stops; [by left|done|done]..]. }
  unfold parse. rewrite Hst, (tokIs_lexes_ne _ _ _ _ _ _ Hl) by done. rewrite Hor. reflexivity.
Qed.

Lemma infixb_refl s : infixb s s = true.
Proof. apply infixb_spec. exists [], []. by rewrite app_nil_r. Qed.

Lemma match_pred p ctx : filterMatches (Some (EPred p)) ctx = evalPredicate p ctx.
Proof. reflexivity. Qed.
Lemma match_not_pred p ctx : filterMatches (Some (ENot (Some (EPred p)))) ctx = negb (evalPredicate p ctx).
Proof. reflexivity. Qed.

(** Choosing a process or a runtime selects exactly the flows of that name,
    whatever characters it holds. *)
Theorem name_filters_exact name ctx :
  parse (trimmed (commClause name)) = mkParseResult (Some (EPred (textPred FComm OpEquals name))) [] (-1) /\
  filterMatches (Some (EPred (textPred FComm OpEquals name))) ctx = equalsCI (pi_comm (c_process (x_c ctx))) name /\
  parse (trimmed (runtimeClause name)) = mkParseResult (Some (EPred (textPred FRuntime OpEquals name))) [] (-1) /\
  filterMatches (Some (EPred (textPred FRuntime OpEquals name))) ctx = equalsCI (ci_runtime (c_container (x_c ctx))) name.
Proof.
  rewrite commClause_eq, runtimeClause_eq.
  pose proof (trimmed_pred [] (textPred FComm OpEquals name) (or_introl eq_refl)) as Ht1. pose proof (trimmed_pred [] (textPred FRuntime OpEquals name) (or_introl eq_refl)) as Ht2.
  cbn [app] in Ht1, Ht2. rewrite Ht1, Ht2. split_and!; [by apply parse_pred, textPred_ok|reflexivity|by apply parse_pred, textPred_ok|reflexivity].
Qed.

Lemma qsplit_nl l : l <> [] -> Forall (fun p => 10%Z ∉ p) l -> qsplit 10 (qjoin nl l) = l.
Proof. apply qsplit_join. Qed.

(** The two entries for a peer: the first keeps exactly the flows with that
    address or name at an end, the second exactly the others; the row they
    were opened on is shown by the first and hidden by the second. *)
Theorem peer_filters_exact peer ctx :
  peer <> [] -> 34%Z ∉ peer -> 92%Z ∉ peer ->
  Forall (fun s => 10%Z ∉ s) [addrToString (ep_address (c_local (x_c ctx))); addrToString (ep_address (c_remote (x_c ctx))); x_hostnameLocal ctx; x_hostnameRemote ctx] ->
  exists e, parse (trimmed (peerClause false peer)) = mkParseResult (Some e) [] (-1) /\
    parse (trimmed (peerClause true peer)) = mkParseResult (Some (ENot (Some e))) [] (-1) /\
    filterMatches (Some (ENot (Some e))) ctx = negb (filterMatches (Some e) ctx) /\
    filterMatches (Some e) ctx =
      existsb (fun h => negb (isEmpty h) && equalsCI h peer) [addrToString (ep_address (c_local (x_c ctx))); addrToString (ep_address (c_remote (x_c ctx))); x_hostnameLocal ctx; x_hostnameRemote ctx].
Proof.
  intros Hne Hq Hb Hnl. exists (EPred (textPred FHost OpEquals peer)). rewrite !peerClause_eq by done.
  rewrite !trimmed_pred by tauto. cbn [app]. split_and!.
  - by apply parse_pred, textPred_ok.
  - by apply parse_not_pred, textPred_ok.
  - reflexivity.
  - rewrite match_pred. unfold evalPredicate. cbn [textPred p_op p_field p_hasNumeric p_textValue isNumericField isMultiLineField andb].
    assert (Hx : extractText FHost ctx = qjoin nl [addrToString (ep_address (c_local (x_c ctx))); addrToString (ep_address (c_remote (x_c ctx))); x_hostnameLocal ctx; x_hostnameRemote ctx]) by reflexivity.
    rewrite Hx, qsplit_nl by (done || exact Hnl). clear. induction [addrToString (ep_address (c_local (x_c ctx))); addrToString (ep_address (c_remote (x_c ctx))); x_hostnameLocal ctx; x_hostnameRemote ctx] as [|h l IH]; [done|].
    cbn [List.filter existsb]. destruct (isEmpty h); cbn [negb andb orb]; [exact IH|]. cbn [existsb]. by rewrite IH.
Qed.

(** Choosing the container of a row keeps that row. *)
Theorem container_filter_keeps ctx :
  let ci := c_container (x_c ctx) in
  containerToken ci <> [] -> Forall (fun s => 10%Z ∉ s) [ci_runtime ci; ci_id ci; ci_name ci] ->
  exists e, parse (trimmed (containerClause ci)) = mkParseResult (Some e) [] (-1) /\ filterMatches (Some e) ctx = true.
Proof.
  intros ci Hne Hnl. exists (EPred (textPred FContainer OpContains (containerToken ci))). rewrite containerClause_eq.
  pose proof (trimmed_pred [] (textPred FContainer OpContains (containerToken ci)) (or_introl eq_refl)) as Ht. cbn [app] in Ht. rewrite Ht.
  split; [by apply parse_pred, textPred_ok|]. rewrite match_pred. unfold evalPredicate. cbn [textPred p_op p_field p_hasNumeric p_textValue isNumericField isMultiLineField andb].
  assert (Hin : containerToken ci ∈ [ci_runtime ci; ci_id ci; ci_name ci]).
  { apply list_elem_of_In. unfold containerToken. destruct (isEmpty (ci_name ci)), (isEmpty (ci_id ci)); cbn; tauto. }
  assert (Hx : extractText FContainer ctx = qjoin nl [ci_runtime ci; ci_id ci; ci_name ci]).
  { cbn [extractText]. fold ci. destruct (isEmpty (ci_runtime ci) && isEmpty (ci_id ci) && isEmpty (ci_name ci)) eqn:E; [|reflexivity].
    apply andb_true_iff in E as [[E1 E2]%andb_true_iff E3]. exfalso. apply Hne. unfold containerToken. rewrite E3, E2. cbn [negb].
    by destruct (ci_runtime ci). }
  rewrite Hx, qsplit_nl by (done || exact Hnl). apply existsb_exists. exists (containerToken ci). split.
  - apply filter_In. split; [by apply list_elem_of_In|]. by destruct (containerToken ci).
  - unfold cmpLine, containsCI. apply infixb_refl.
Qed.
End Clauses.

(** For a flow that came in, the address the menu calls the peer is this
    host's own end, not the remote one. *)
Theorem inbound_peer_is_local `{QtAddrText} a row r :
  rowAt a row = Some r -> c_direction (r_current r) = Inbound -> ep_address (c_local (r_current r)) <> AddrNull ->
  peerAddressText a row = addrToString (ep_address (c_local (r_current r))).
Proof.
  intros Hr Hd Ha. unfold peerAddressText. rewrite Hr, Hd. cbn. rewrite bool_decide_eq_true_2 by done. by destruct (ep_address (c_local (r_current r))).
Qed.

(** The peer an entry names is taken when the menu opens, the filter from the
    row that lies under the point when it is chosen: with other rows there by
    then, another peer is filtered. *)
Theorem chosen_row_moved `{QtAddrText} dns a a' rowThen rowNow r exclude :
  let named := peerAddressText a rowThen in let there := peerAddressText a' rowNow in
  rowAt a rowThen = Some r -> named <> [] -> there <> [] -> there <> named ->
  Forall (fun s => 34%Z ∉ s /\ 92%Z ∉ s) [named; there] ->
  (exists m, flowMenu dns a rowThen = Some m /\ fm_peer m = Some named) /\
  filterByConnectionRow a' (Some rowNow) exclude = Some (peerClause exclude there) /\ peerClause exclude there <> peerClause exclude named.
Proof.
  intros named there Hr Hn Ht Hd Hqs. apply Forall_cons in Hqs as [[Hq Hb] Hqs]. apply Forall_cons in Hqs as [[Hq' Hb'] _]. split_and!.
  - unfold flowMenu. rewrite Hr. eexists. split; [reflexivity|]. cbn [fm_peer]. fold named. by destruct named.
  - unfold filterByConnectionRow. cbn [mbind option_bind]. fold there. by destruct there.
  - intros He. apply Hd. rewrite !peerClause_eq in He by done. apply app_inv_head in He. cbn [printExpr textPred p_field p_op p_textValue] in He.
    apply app_inv_head, app_inv_head in He. unfold quoteText in He. rewrite !escapeText_plain in He by done. injection He as He.
    by apply app_inj_tail in He as [He _].
Qed.

(* ------------------------------------------------------------------ *)
(** ** The interface filter is a set *)

Lemma sortInsert_perm x l : sortInsert x l ≡ₚ x :: l.
Proof. induction l as [|y l IH]; [done|]. cbn [sortInsert]. destruct (qlt y x); [|done]. rewrite IH. apply perm_swap. Qed.
Lemma sortStrings_perm l : sortStrings l ≡ₚ l.
Proof. unfold sortStrings. induction l as [|x l IH]; [done|]. cbn [foldr]. by rewrite sortInsert_perm, IH. Qed.

Lemma toggleIface_set value checked cur :
  (list_to_set (toggleIface value checked cur) : gset QString) = (if checked then {[value]} ∪ list_to_set cur else list_to_set cur ∖ {[value]}) /\ NoDup (toggleIface value checked cur).
Proof.
  unfold toggleIface. split.
  - apply set_eq. intros x. rewrite elem_of_list_to_set, sortStrings_perm, elem_of_elements. done.
  - rewrite sortStrings_perm. apply NoDup_elements.
Qed.

Lemma list_to_set_nil (l : list QString) : (list_to_set l : gset QString) = ∅ -> l = [].
Proof. destruct l as [|x l]; [done|]. intros He. exfalso. apply (not_elem_of_empty (C := gset QString) x). rewrite <- He. apply elem_of_list_to_set, elem_of_cons. by left. Qed.

(** Choosing an entry changes that interface's mark and no other; choosing it
    twice restores the selection; unchecking the last one is all interfaces
    again. *)
Theorem iface_menu_toggles value checked cur :
  (forall v, itemChecked (toggleIface value checked cur) v = if decide (v = value) then checked else itemChecked cur v) /\
  (itemChecked cur value = negb checked ->
     (list_to_set (toggleIface value (negb checked) (toggleIface value checked cur)) : gset QString) = list_to_set cur) /\
  (allChecked (toggleIface value false [value]) = true /\ toggleIface value false [value] = []).
Proof.
  assert (Hmark : forall l v, itemChecked l v = true <-> v ∈ l) by (intros l v; unfold itemChecked; by rewrite bool_decide_eq_true, elem_of_list_to_set).
  split_and!.
  - intros v. apply eq_true_iff_eq. rewrite Hmark, <- (elem_of_list_to_set (C := gset QString)), (proj1 (toggleIface_set _ _ _)).
    destruct checked, (decide (v = value)) as [->|Hv]; rewrite ?Hmark;
      rewrite ?elem_of_union, ?elem_of_difference, ?elem_of_singleton, ?elem_of_list_to_set; split; try tauto; try discriminate.
  - intros Hc. rewrite !(proj1 (toggleIface_set _ _ _)). destruct checked; cbn [negb] in *.
    + assert (Hin : value ∉ cur) by (rewrite <- Hmark; congruence). apply set_eq. intros x.
      rewrite elem_of_difference, elem_of_union, elem_of_singleton, elem_of_list_to_set. split; [tauto|]. intros Hx. split; [tauto|]. intros ->. tauto.
    + assert (Hin : value ∈ cur) by (by rewrite <- Hmark). apply set_eq. intros x.
      rewrite elem_of_union, elem_of_difference, elem_of_singleton, elem_of_list_to_set. destruct (decide (x = value)) as [->|]; tauto.
  - unfold allChecked. rewrite (proj1 (toggleIface_set value false [value])). apply bool_decide_eq_true_2. apply set_eq. intros x.
    rewrite elem_of_difference, elem_of_list_to_set, list_elem_of_singleton, elem_of_singleton, elem_of_empty. tauto.
  - apply list_to_set_nil. rewrite (proj1 (toggleIface_set value false [value])). apply set_eq. intros x.
    rewrite elem_of_difference, elem_of_list_to_set, list_elem_of_singleton, elem_of_singleton, elem_of_empty. tauto.
Qed.

(* ------------------------------------------------------------------ *)
(** ** Resetting the columns restores their order *)

Lemma moveSection_perm from to l : moveSection from to l ≡ₚ l.
Proof.
  unfold moveSection. destruct (l !! from) as [x|] eqn:E; [|done].
  rewrite <- Permutation_middle, take_drop. symmetry. by apply delete_Permutation.
Qed.

Lemma visualIndex_lookup k l : k ∈ l -> l !! visualIndex k l = Some k.
Proof.
  intros Hin. unfold visualIndex. destruct (list_find_elem_of (fun x => x = k) l k Hin eq_refl) as [[i y] Hf]. rewrite Hf.
  by apply list_find_Some in Hf as (Hi & -> & _).
Qed.

Lemma restoreStep_prefix n k l : l ≡ₚ seq 0 n -> (k < n)%nat -> take k l = seq 0 k -> take (S k) (restoreStep l k) = seq 0 (S k) /\ restoreStep l k ≡ₚ seq 0 n.
Proof.
  intros Hp Hk Ht. assert (Hlen : length l = n) by (rewrite Hp; apply length_seq).
  assert (Hin : k ∈ l) by (rewrite Hp; apply elem_of_seq; lia). pose proof (visualIndex_lookup k l Hin) as Hv.
  assert (Hge : (k <= visualIndex k l)%nat).
  { apply Nat.nlt_ge. intros Hlt. pose proof (lookup_take_lt l k _ Hlt) as Hl. rewrite Ht, Hv in Hl. apply lookup_seq in Hl as [Hl Hl']. lia. }
  rewrite seq_S. cbn [Nat.add]. unfold restoreStep. case_decide as Hd.
  - split; [|done]. rewrite Hd in Hv. by rewrite (take_S_r _ _ _ Hv), Ht.
  - split; [|by rewrite moveSection_perm]. unfold moveSection. rewrite Hv.
    assert (Htk : take k (delete (visualIndex k l) l) = seq 0 k). { rewrite delete_take_drop, take_app_le by (rewrite length_take; lia). rewrite take_take, Nat.min_l by lia. exact Ht. }
    rewrite Htk. rewrite take_app, length_seq. rewrite take_ge by (rewrite length_seq; lia). replace (S k - k)%nat with 1%nat by lia. cbn [take]. by rewrite take_0.
Qed.

(** Whatever order the columns were dragged into, a reset puts every column
    back into its own place. *)
Theorem reset_restores_order intercept always cols h :
  hs_visual h ≡ₚ seq 0 cols -> hs_visual (fst (resetColumns intercept always cols h)) = seq 0 cols.
Proof.
  intros Hp. unfold resetColumns. assert (Hv : hs_visual (fst (resetHidden intercept always cols h)) = hs_visual h).
  { unfold resetHidden. assert (Hg : forall l acc, hs_visual (fst (foldl (fun acc i => let '(h, cs) := acc in
        let '(h', c) := toggleColumn intercept i (bool_decide (i ∉ always)) h in (h', cs ++ c)) acc l)) = hs_visual (fst acc)); [|apply Hg].
    induction l as [|i l IH]; intros [h0 cs]; [done|]. cbn [foldl]. destruct (toggleColumn intercept i (bool_decide (i ∉ always)) h0) as [h' c] eqn:Et. rewrite IH. cbn [fst].
    revert Et. unfold toggleColumn. destruct (intercept _ _); intros [= <- _]; done. }
  destruct (resetHidden intercept always cols h) as [h1 cs]. cbn [fst] in *. rewrite Hv. clear Hv.
  assert (Hg : forall j k l, (k + j = cols)%nat -> l ≡ₚ seq 0 cols -> take k l = seq 0 k -> foldl restoreStep l (seq k j) = seq 0 cols).
  { induction j as [|j IH]; intros k l Hkj Hpl Ht; cbn [seq foldl].
    - replace k with cols in Ht by lia. rewrite take_ge in Ht by (rewrite Hpl, length_seq; lia). exact Ht.
    - destruct (restoreStep_prefix cols k l Hpl ltac:(lia) Ht) as [Ht' Hp']. apply IH; [lia|done|done]. }
  apply (Hg cols 0%nat); [lia|done|by rewrite take_0].
Qed.

(** The last visible column cannot be unchecked. *)
Theorem last_column_kept cols h i :
  (i < cols)%nat -> headerEntries cols h !! i = Some (true, true) -> exists j, (j < cols)%nat /\ j <> i /\ j ∉ hs_hidden h.
Proof.
  intros Hi He. unfold headerEntries in He. rewrite list_lookup_fmap, lookup_seq_lt in He by done. cbn [fmap option_fmap option_map Nat.add] in He. injection He as Hc He.
  apply bool_decide_eq_true in Hc. rewrite bool_decide_eq_true_2 in He by done. cbn [andb] in He. apply negb_true_iff, Nat.leb_gt in He.
  set (l := filter (fun i => i ∉ hs_hidden h) (seq 0 cols)) in *. assert (Hnd : NoDup l) by apply NoDup_filter, NoDup_seq.
  assert (Hmem : forall x, x ∈ l <-> x ∉ hs_hidden h /\ (x < cols)%nat). { intros x. unfold l. rewrite list_elem_of_filter, elem_of_seq. intuition lia. }
  destruct l as [|a [|b r]] eqn:El; cbn [length] in He; [lia|lia|].
  apply NoDup_cons in Hnd as [Hab _]. destruct (decide (a = i)) as [->|Hai].
  - exists b. destruct (proj1 (Hmem b)) as [Hb Hlt]; [apply elem_of_cons; right; apply elem_of_cons; by left|]. split_and!; [done| |done]. intros ->. apply Hab, elem_of_cons. by left.
  - exists a. destruct (proj1 (Hmem a)) as [Hb Hlt]; [apply elem_of_cons; by left|]. by split_and!.
Qed.

(** A reset of the flows table switches the two attribution columns off, which
    are on by default. *)
Theorem reset_hides_attribution h :
  snd (resetColumns connIntercept connAlwaysHidden 10 h) = [CBool PfShowProcessColumn false; CBool PfShowContainerColumn false]
  /\ boolDefault PfShowProcessColumn = true /\ boolDefault PfShowContainerColumn = true.
Proof. split; [|done]. reflexivity. Qed.

(* ------------------------------------------------------------------ *)
(** ** The backend label *)

Lemma indexOf_dash base t : 8212%Z ∉ base -> indexOf emDashSep (base ++ emDashSep ++ t) = Some (length base).
Proof.
  induction base as [|c b IH]; intros Hn; [reflexivity|]. apply not_elem_of_cons in Hn as [Hc Hb]. cbn [app indexOf length].
  assert (Hp : prefixb emDashSep (c :: b ++ emDashSep ++ t) = false).
  { unfold emDashSep. cbn [prefixb]. destruct (32 =? c)%Z; [|done]. cbn [andb]. destruct b as [|d b]; cbn [app prefixb]; [done|].
    apply not_elem_of_cons in Hb as [Hd _]. destruct (Z.eqb_spec 8212 d); [congruence|done]. }
  rewrite Hp. cbn [app]. rewrite IH by done. reflexivity.
Qed.

Lemma indexOf_no_dash base : 8212%Z ∉ base -> indexOf emDashSep base = None.
Proof.
  induction base as [|c b IH]; intros Hn; [reflexivity|]. apply not_elem_of_cons in Hn as [Hc Hb]. cbn [indexOf].
  assert (Hp : prefixb emDashSep (c :: b) = false).
  { unfold emDashSep. cbn [prefixb]. destruct (32 =? c)%Z; [|done]. cbn [andb]. destruct b as [|d b]; cbn [prefixb]; [done|].
    apply not_elem_of_cons in Hb as [Hd _]. destruct (Z.eqb_spec 8212 d); [congruence|done]. }
  rewrite Hp. by rewrite IH.
Qed.

Lemma cadenceSuffix_shape ms : cadenceSuffix ms = [] \/ exists t, cadenceSuffix ms = emDashSep ++ t.
Proof.
  unfold cadenceSuffix. destruct (cadenceTint ms); [right; eexists; reflexivity| |by left]. right.
  exists (qs "slowed (" ++ number ms ++ qs " ms)"). transitivity (emDashSep ++ qs "slowed (" ++ number ms ++ qs " ms)" ++ []); [reflexivity|]. by rewrite app_nil_r.
Qed.

Lemma notify_base base ms ms' : base <> [] -> 8212%Z ∉ base -> notifyAgentCadence ms (base ++ cadenceSuffix ms') = base ++ cadenceSuffix ms.
Proof.
  intros Hne Hn. unfold notifyAgentCadence. f_equal. destruct (cadenceSuffix_shape ms') as [->|[t ->]].
  - rewrite app_nil_r. by rewrite indexOf_no_dash.
  - rewrite indexOf_dash by done. destruct base as [|c b]; [done|]. cbn [length]. rewrite take_app_le by (cbn [length]; lia). by rewrite take_ge.
Qed.

(** However often the agent changes its pace, the label is the backend's text
    with the note of the last change only. *)
Theorem cadence_label_last usingAgent version changes ms :
  8212%Z ∉ version ->
  foldl (fun t ms => notifyAgentCadence ms t) (backendLabel usingAgent version) (changes ++ [ms]) = backendLabel usingAgent version ++ cadenceSuffix ms.
Proof.
  intros Hv. assert (Hb : backendLabel usingAgent version <> [] /\ 8212%Z ∉ backendLabel usingAgent version).
  { unfold backendLabel. destruct usingAgent.
    - set (v := if isEmpty version then qs "(legacy)" else version).
      assert (Hvn : 8212%Z ∉ v) by (unfold v; destruct (isEmpty version); [rewrite list_elem_of_In; vm_compute; intuition discriminate|done]).
      assert (He : qarg (qs "agent %1") v = qs "agent " ++ v) by (transitivity (qs "agent " ++ v ++ []); [reflexivity|by rewrite app_nil_r]).
      rewrite He. split; [done|]. apply not_elem_of_app. split; [rewrite list_elem_of_In; vm_compute; intuition discriminate|done].
    - split; [done|]. rewrite list_elem_of_In. vm_compute. intuition discriminate. }
  destruct Hb as [Hne Hn]. rewrite foldl_app. cbn [foldl].
  assert (Hg : exists ms', foldl (fun t ms => notifyAgentCadence ms t) (backendLabel usingAgent version) changes = backendLabel usingAgent version ++ cadenceSuffix ms').
  { induction changes as [|x l IH] using rev_ind; [exists 1%Z; by rewrite app_nil_r|]. rewrite foldl_app. destruct IH as [ms' ->]. exists x. cbn [foldl]. by apply notify_base. }
  destruct Hg as [ms' ->]. by apply notify_base.
Qed.

(* ------------------------------------------------------------------ *)
(** ** The details cache *)

Inductive CacheEvent := CeDetails (d : CachedDetails) | CeExpand (pid : Z) (liveComm : QString).
Definition cacheStep (c : gmap Z CachedDetails) (e : CacheEvent) : gmap Z CachedDetails :=
  match e with CeDetails d => rememberDetails d c | CeExpand pid comm => fst (groupExpanded pid comm c) end.

Definition cache_ok (c : gmap Z CachedDetails) : Prop :=
  (Z.of_nat (size c) <= kProcDetailsCacheMax)%Z /\ forall pid d, c !! pid = Some d -> cd_pid d = pid /\ (0 < pid)%Z.

Lemma cacheStep_ok c e : cache_ok c -> cache_ok (cacheStep c e).
Proof.
  intros [Hs Hl]. destruct e as [d|pid comm]; cbn [cacheStep].
  - unfold rememberDetails. destruct (Z.leb_spec (cd_pid d) 0); [done|]. cbv zeta.
    destruct ((kProcDetailsCacheMax <=? Z.of_nat (size c))%Z && negb (bool_decide (is_Some (c !! cd_pid d)))) eqn:E.
    + split; [rewrite map_size_insert, lookup_empty, map_size_empty; unfold kProcDetailsCacheMax; lia|].
      intros pid d' [[<- <-]|[_ Hd]]%lookup_insert_Some; [done|]. by rewrite lookup_empty in Hd.
    + split.
      * rewrite map_size_insert. destruct (c !! cd_pid d) as [d'|] eqn:Ed; [cbn; lia|]. apply andb_false_iff in E as [E|E]; [apply Z.leb_gt in E; cbn; lia|].
        apply negb_false_iff, bool_decide_eq_true in E as [? E]. discriminate E.
      * intros pid d' [[<- <-]|[_ Hd]]%lookup_insert_Some; [done|by apply Hl].
  - unfold groupExpanded. destruct (pid <=? 0)%Z; [done|]. destruct (c !! pid) as [d|] eqn:Ed; [|done].
    destruct (negb (isEmpty comm) && negb (isEmpty (cd_comm d)) && negb (qeqb (cd_comm d) comm)); [|done]. cbn [fst]. split.
    + pose proof (map_size_delete pid c) as Hd. rewrite Ed in Hd. rewrite Hd. cbn. lia.
    + intros p d' [_ Hd]%lookup_delete_Some. by apply Hl.
Qed.

(** The cache never holds more than 1024 processes, each under its own pid; a
    group that is expanded is asked about exactly when nothing is known or when
    what is known carries another name than its flows now show. *)
Theorem details_cache_bounded events pid liveComm :
  let c := foldl cacheStep ∅ events in
  cache_ok c /\
  match groupExpanded pid liveComm c with
  | (c', Some p) => p = pid /\ (0 < pid)%Z /\ c' !! pid = None
  | (c', None) => c' = c /\ ((0 < pid)%Z -> exists d, c !! pid = Some d /\ (liveComm <> [] -> cd_comm d <> [] -> cd_comm d = liveComm))
  end.
Proof.
  intros c. split.
  - unfold c. induction events as [|e events IH] using rev_ind; [|rewrite foldl_app; by apply cacheStep_ok].
    split; [vm_compute; discriminate|]. intros p d Hd. discriminate Hd.
  - unfold groupExpanded. destruct (Z.leb_spec pid 0); [split; [done|lia]|]. destruct (c !! pid) as [d|] eqn:Ed; [|by split_and!].
    destruct (negb (isEmpty liveComm) && negb (isEmpty (cd_comm d)) && negb (qeqb (cd_comm d) liveComm)) eqn:E.
    + split_and!; [done|done|]. apply lookup_delete_eq.
    + split; [done|]. intros _. exists d. split; [done|]. intros H1 H2. destruct liveComm, (cd_comm d) as [|x y] eqn:Ec; try done. cbn [isEmpty negb andb] in E.
      apply negb_false_iff, qeqb_eq in E. by rewrite E.
Qed.

(* ------------------------------------------------------------------ *)
(** ** Examples *)

Definition inboundFlow : Connection :=
  set_direction Inbound (set_endpoints (mkEndpoint (AddrV4 3232235777) 22) (mkEndpoint (AddrV4 134744072) 50000) emptyConnection).
Definition outboundFlow : Connection :=
  set_direction Outbound (set_endpoints (mkEndpoint (AddrV4 3232235777) 50001) (mkEndpoint (AddrV4 16843009) 443) emptyConnection).
Definition tableOf (cs : list Connection) : Aggregator :=
  let a := newAggregator (32768, 60999)%Z in
  mkAgg (map (fun c => newRow c 0) cs) (ag_keyToIdx a) (ag_prev a) (ag_lastElapsedMs a) (ag_udpAgg a) (ag_settings a).
Definition flowContext : FContext := mkFContext inboundFlow dzero dzero [] (qs "dns.example").

Ltac absent := rewrite list_elem_of_In; vm_compute; intuition discriminate.

Lemma name_filters_exact_witness :
  parse (trimmed (commClause (92%Z :: qs "Web Content"))) = mkParseResult (Some (EPred (textPred FComm OpEquals (92%Z :: qs "Web Content")))) [] (-1).
Proof. apply (name_filters_exact (92%Z :: qs "Web Content") flowContext). Defined.

Lemma peer_filters_exact_witness :
  exists e, parse (trimmed (peerClause false (qs "134744072"))) = mkParseResult (Some e) [] (-1) /\ filterMatches (Some e) flowContext = true.
Proof.
  destruct (peer_filters_exact (qs "134744072") flowContext) as (e & Hp & _ & _ & Hm).
  - discriminate.
  - absent.
  - absent.
  - repeat (apply Forall_cons; split; [absent|]). apply Forall_nil. exact I.
  - exists e. split; [exact Hp|]. rewrite Hm. vm_compute. reflexivity.
Defined.

Definition containerContext : FContext :=
  mkFContext (set_container (mkContainerInfo (qs "docker") (qs "0123abcd") (qs "web")) inboundFlow) dzero dzero [] [].

Lemma container_filter_keeps_witness :
  exists e, parse (trimmed (containerClause (c_container (x_c containerContext)))) = mkParseResult (Some e) [] (-1) /\ filterMatches (Some e) containerContext = true.
Proof.
  apply (container_filter_keeps containerContext); [discriminate|]. repeat (apply Forall_cons; split; [absent|]). apply Forall_nil. exact I.
Defined.

Lemma inbound_peer_is_local_witness : peerAddressText (tableOf [inboundFlow]) 0 = addrToString (AddrV4 3232235777).
Proof. apply (inbound_peer_is_local (tableOf [inboundFlow]) 0 (newRow inboundFlow 0)); [reflexivity|reflexivity|discriminate]. Defined.

Lemma chosen_row_moved_witness :
  filterByConnectionRow (tableOf [outboundFlow; inboundFlow]) (Some 0%Z) true = Some (peerClause true (addrToString (AddrV4 16843009)))
  /\ peerAddressText (tableOf [inboundFlow; outboundFlow]) 0 = addrToString (AddrV4 3232235777).
Proof.
  split; [|vm_compute; reflexivity].
  apply (chosen_row_moved (fun _ _ => []) (tableOf [inboundFlow; outboundFlow]) (tableOf [outboundFlow; inboundFlow]) 0 0 (newRow inboundFlow 0) true).
  - reflexivity.
  - vm_compute. discriminate.
  - vm_compute. discriminate.
  - vm_compute. discriminate.
  - repeat (apply Forall_cons; split; [split; absent|]). apply Forall_nil. exact I.
Defined.

Lemma reset_restores_order_witness :
  hs_visual (fst (resetColumns connIntercept connAlwaysHidden 4 (mkHeaderState [2; 0; 3; 1]%nat ∅))) = [0; 1; 2; 3]%nat.
Proof.
  apply (reset_restores_order connIntercept connAlwaysHidden 4 (mkHeaderState [2; 0; 3; 1]%nat ∅)).
  apply NoDup_Permutation; [apply (bool_decide_unpack _); vm_compute; exact I..|]. intros x. rewrite !list_elem_of_In. cbn. tauto.
Defined.

Lemma last_column_kept_witness : exists j, (j < 3)%nat /\ j <> 0%nat /\ j ∉ hs_hidden (mkHeaderState [0; 1; 2]%nat {[2%nat]}).
Proof. apply (last_column_kept 3 (mkHeaderState [0; 1; 2]%nat {[2%nat]}) 0); [lia|vm_compute; reflexivity]. Defined.

Lemma cadence_label_last_witness :
  foldl (fun t ms => notifyAgentCadence ms t) (backendLabel true (qs "1.4.0")) [5000; 0; 2000]%Z = qs "agent 1.4.0" ++ emDashSep ++ qs "slowed (2000 ms)".
Proof. etransitivity; [apply (cadence_label_last true (qs "1.4.0") [5000; 0]%Z 2000); absent|vm_compute; reflexivity]. Defined.
