(* ===== verification/Window.v ===== *)
(** * The main window as a state machine: [src/ui/MainWindow.cpp]

    What the window pushes into its models and filters from the preferences,
    the agent's heartbeat, pausing, hiding to the tray, closing, the filter
    line and the mode in which it stands in for a privileged copy.

    The widgets are Qt's: the window is the values it gives them.  A preference
    that changes emits [changed], which is connected to [applySettingsToUi]
    directly, so that it runs inside the setter's call. *)

From S2P Require Import Prelude Qt StdAlgo Conn DbusTypes Filter FilterEval Units UdpAgg Aggregator IfaceAgg GroupProxy CheckTool GuiModel GuiSettings WindowText.

(** What the models, proxies and delegates were last told. *)
Record Pushed := mkPushed {
  pu_resolveHostnames : bool; pu_resolveIfaceAddrs : bool; pu_staleMs : Z; pu_staleUdpMs : Z; pu_udpAggregate : bool;
  pu_tint : bool; pu_connGauge : bool; pu_netGauge : bool; pu_maxMode : Z; pu_windowMs : Z; pu_smoothingMs : Z; pu_pollMs : Z;
  pu_chainTooltip : bool; pu_groupDetails : bool; pu_sortWithin : bool; pu_viewMode : ConnectionViewMode; pu_colorCode : bool;
  pu_chips : ColorPref -> QString;
}.

Record Window := mkWindow {
  wi_settings : Settings;
  wi_pushed : Pushed;
  wi_netProxy : InterfaceFilterProxy;
  wi_connProxy : ConnectionFilterProxy;
  wi_title : QString;
  wi_ifaceButton : QString;
  wi_hidden : gset nat;                (* hidden columns of the flows table *)
  wi_closeShown : bool;                (* File, Close to tray *)
  wi_eagerShown : bool;
  wi_eagerIndex : Z;
  wi_heartbeat : bool;                 (* m_agentHeartbeat runs *)
  wi_smoothingTick : option Z;         (* its interval while it runs *)
  wi_filterText : QString;             (* the line edit *)
  wi_visible : bool;
  wi_trayAvailable : bool;
  wi_paused : bool;
  wi_explicitQuit : bool;
  wi_proxyMode : bool;
  wi_usingAgent : bool;
  wi_version : QString;
  wi_caps : list QString;
  wi_backendText : QString;
  wi_banner : option QString;
  wi_details : gmap Z CachedDetails;
}.

(** Calls on the other objects. *)
Inductive WEffect :=
| WeNetInterval (ms : Z) | WeConnInterval (ms : Z) | WeEagerness (mode : QString)
| WeNetModel (stats : list InterfaceStats) | WeConnModel (conns : list Connection) | WePatch (patch : list Connection)
| WeTrayStats (stats : list InterfaceStats) | WeTrayPaused (b : bool) | WeLocals (locals : gset QHostAddress)
| WeStatus (interfaces : QString) (totalRx totalTx : Z) | WeConnCount (text : QString)
| WeIfaceMenu (all : bool) (entries : list (QString * bool))
| WeRequestDetails (pid : Z) | WeStopMonitors | WeWriteUi | WeQuit
| WeSendShow | WeSendPause (b : bool) | WeSendQuit.

Definition eagernessData : list QString := [[]; qs "off"; qs "balanced"; qs "eager"].
(** [findData], with the default for what is not there. *)
Definition eagernessIndex (mode : QString) : Z :=
  match list_find (fun m => m = mode) eagernessData with Some (i, _) => Z.of_nat i | None => 0 end.

Definition pushedOf (r : Prefs) : Pushed :=
  mkPushed (pr_bool r PfResolveHostnames) (pr_bool r PfResolveIfaceAddrsAsLocalhost) (pr_int r PfStaleRetentionSecs * 1000)
    (pr_int r PfStaleRetentionSecsUdp * 1000) (pr_bool r PfUdpAggregateByPeer)
    (pr_bool r PfColorCodeConnectionFlow && pr_bool r PfTintRowByDirection) (pr_bool r PfThroughputGaugeEnabled) (pr_bool r PfInterfaceGaugeEnabled)
    (pr_maxMode r) (pr_int r PfThroughputWindowSecs * 1000) (pr_int r PfRateSmoothingMs) (pr_int r PfPollIntervalMs)
    (pr_bool r PfShowContainerChainInTooltip) (pr_bool r PfShowGroupHeaderDetails) (pr_bool r PfSortWithinGroups) (pr_viewMode r)
    (pr_bool r PfColorCodeConnectionFlow) (pr_color r).

Definition showProcessCol (caps : list QString) (r : Prefs) : bool :=
  bool_decide (qs "process-attribution-wire" ∈ caps) && pr_bool r PfShowProcessColumn && negb (bool_decide (pr_viewMode r = VmByProcess)).
Definition showContainerCol (caps : list QString) (r : Prefs) : bool :=
  bool_decide (qs "container-attribution-wire" ∈ caps) && pr_bool r PfShowContainerColumn && negb (bool_decide (pr_viewMode r = VmByContainer)).
Definition setHidden (col : nat) (hide : bool) (s : gset nat) : gset nat := if hide then {[col]} ∪ s else s ∖ {[col]}.
Definition columnsFor (caps : list QString) (r : Prefs) (s : gset nat) : gset nat :=
  setHidden colContainer (negb (showContainerCol caps r))
    (setHidden colProcess (negb (showProcessCol caps r))
       (setHidden colTxMax (negb (pr_bool r PfThroughputGaugeEnabled)) (setHidden colRxMax (negb (pr_bool r PfThroughputGaugeEnabled)) s))).

Definition smoothingFor (r : Prefs) : option Z :=
  if (0 <? pr_int r PfRateSmoothingMs)%Z then Some (Z.max 100 (Z.quot (pr_int r PfPollIntervalMs) 4)) else None.

Definition assertHints (r : Prefs) : list WEffect :=
  [WeNetInterval (pr_int r PfPollIntervalMs); WeConnInterval (pr_int r PfPollIntervalMs)]
  ++ (if isEmpty (pr_str r PfAttributionEagerness) then [] else [WeEagerness (pr_str r PfAttributionEagerness)]).

(* ------------------------------------------------------------------ *)
(** ** Handlers *)

Section Handlers.
Context `{QtUnicode, QtAddrText, QtRegex, QtToDouble, QtNumberText}.

Definition prefsOf (w : Window) : Prefs := st_prefs (wi_settings w).

Definition with_settings st w := mkWindow st (wi_pushed w) (wi_netProxy w) (wi_connProxy w) (wi_title w) (wi_ifaceButton w) (wi_hidden w) (wi_closeShown w)
  (wi_eagerShown w) (wi_eagerIndex w) (wi_heartbeat w) (wi_smoothingTick w) (wi_filterText w) (wi_visible w) (wi_trayAvailable w) (wi_paused w) (wi_explicitQuit w)
  (wi_proxyMode w) (wi_usingAgent w) (wi_version w) (wi_caps w) (wi_backendText w) (wi_banner w) (wi_details w).
Definition with_heartbeat b w := mkWindow (wi_settings w) (wi_pushed w) (wi_netProxy w) (wi_connProxy w) (wi_title w) (wi_ifaceButton w) (wi_hidden w) (wi_closeShown w)
  (wi_eagerShown w) (wi_eagerIndex w) b (wi_smoothingTick w) (wi_filterText w) (wi_visible w) (wi_trayAvailable w) (wi_paused w) (wi_explicitQuit w)
  (wi_proxyMode w) (wi_usingAgent w) (wi_version w) (wi_caps w) (wi_backendText w) (wi_banner w) (wi_details w).
Definition with_filter t proxy w := mkWindow (wi_settings w) (wi_pushed w) (wi_netProxy w) proxy (wi_title w) (wi_ifaceButton w) (wi_hidden w) (wi_closeShown w)
  (wi_eagerShown w) (wi_eagerIndex w) (wi_heartbeat w) (wi_smoothingTick w) t (wi_visible w) (wi_trayAvailable w) (wi_paused w) (wi_explicitQuit w)
  (wi_proxyMode w) (wi_usingAgent w) (wi_version w) (wi_caps w) (wi_backendText w) (wi_banner w) (wi_details w).
Definition with_modes visible tray paused quit proxy w := mkWindow (wi_settings w) (wi_pushed w) (wi_netProxy w) (wi_connProxy w) (wi_title w) (wi_ifaceButton w) (wi_hidden w) (wi_closeShown w)
  (wi_eagerShown w) (wi_eagerIndex w) (wi_heartbeat w) (wi_smoothingTick w) (wi_filterText w) visible tray paused quit proxy
  (wi_usingAgent w) (wi_version w) (wi_caps w) (wi_backendText w) (wi_banner w) (wi_details w).
Definition with_backend agent version caps text w := mkWindow (wi_settings w) (wi_pushed w) (wi_netProxy w) (wi_connProxy w) (wi_title w) (wi_ifaceButton w) (wi_hidden w) (wi_closeShown w)
  (wi_eagerShown w) (wi_eagerIndex w) (wi_heartbeat w) (wi_smoothingTick w) (wi_filterText w) (wi_visible w) (wi_trayAvailable w) (wi_paused w) (wi_explicitQuit w)
  (wi_proxyMode w) agent version caps text (wi_banner w) (wi_details w).
Definition with_notes banner details w := mkWindow (wi_settings w) (wi_pushed w) (wi_netProxy w) (wi_connProxy w) (wi_title w) (wi_ifaceButton w) (wi_hidden w) (wi_closeShown w)
  (wi_eagerShown w) (wi_eagerIndex w) (wi_heartbeat w) (wi_smoothingTick w) (wi_filterText w) (wi_visible w) (wi_trayAvailable w) (wi_paused w) (wi_explicitQuit w)
  (wi_proxyMode w) (wi_usingAgent w) (wi_version w) (wi_caps w) (wi_backendText w) banner details.
Definition with_hidden hidden w := mkWindow (wi_settings w) (wi_pushed w) (wi_netProxy w) (wi_connProxy w) (wi_title w) (wi_ifaceButton w) hidden (wi_closeShown w)
  (wi_eagerShown w) (wi_eagerIndex w) (wi_heartbeat w) (wi_smoothingTick w) (wi_filterText w) (wi_visible w) (wi_trayAvailable w) (wi_paused w) (wi_explicitQuit w)
  (wi_proxyMode w) (wi_usingAgent w) (wi_version w) (wi_caps w) (wi_backendText w) (wi_banner w) (wi_details w).

Definition set_visible b w := with_modes b (wi_trayAvailable w) (wi_paused w) (wi_explicitQuit w) (wi_proxyMode w) w.
Definition set_tray b w := with_modes (wi_visible w) b (wi_paused w) (wi_explicitQuit w) (wi_proxyMode w) w.
Definition set_paused b w := with_modes (wi_visible w) (wi_trayAvailable w) b (wi_explicitQuit w) (wi_proxyMode w) w.
Definition set_quit b w := with_modes (wi_visible w) (wi_trayAvailable w) (wi_paused w) b (wi_proxyMode w) w.
Definition set_proxy b w := with_modes (wi_visible w) (wi_trayAvailable w) (wi_paused w) (wi_explicitQuit w) b w.

Definition refreshAgentHeartbeat (w : Window) : Window * list WEffect :=
  if negb (wi_visible w) then (with_heartbeat false w, []) else (with_heartbeat true w, assertHints (prefsOf w)).

(** The timer's shots. *)
Definition heartbeatShot (w : Window) : Window * list WEffect := (w, if wi_heartbeat w then assertHints (prefsOf w) else []).

(** [applyConnFilterExpr] up to the emission: true when [changed] is emitted. *)
Definition applyConnFilterExpr (w : Window) : Window * bool :=
  let text := wi_filterText w in
  let '(proxy, _, err) := setFilterExpression text (wi_connProxy w) in
  let w := with_filter text proxy w in
  if isEmpty err then let '(st, emitted) := setConnectionFilterExpr text (wi_settings w) in (with_settings st w, emitted) else (w, false).

(** The pushes of [applySettingsToUi] that depend on the preferences, the
    capabilities and the tray only. *)
Definition pushSettings (w : Window) : Window :=
  let r := prefsOf w in
  let net := fst (GuiModel.setShowDown (pr_bool r PfShowDown) (fst (GuiModel.setShowLoopback (pr_bool r PfShowLoopback) (wi_netProxy w)))) in
  let conn := fst (GuiModel.setShowUdp (pr_bool r PfShowUdp) (fst (GuiModel.setShowTcp (pr_bool r PfShowTcp) (fst (setShowIPv6 (pr_bool r PfIpv6Enabled) (wi_connProxy w)))))) in
  let conn := fst (setVisibleIfaces (list_to_set (pr_list r PfConnVisibleIfaces)) conn) in
  mkWindow (wi_settings w) (pushedOf r) net conn (windowTitle r) (ifaceButton (pr_list r PfConnVisibleIfaces)) (columnsFor (wi_caps w) r (wi_hidden w))
    (pr_bool r PfCloseToTray && wi_trayAvailable w) (bool_decide (qs "attribution-eagerness-hints" ∈ wi_caps w)) (eagernessIndex (pr_str r PfAttributionEagerness))
    (wi_heartbeat w) (smoothingFor r) (wi_filterText w) (wi_visible w) (wi_trayAvailable w) (wi_paused w) (wi_explicitQuit w)
    (wi_proxyMode w) (wi_usingAgent w) (wi_version w) (wi_caps w) (wi_backendText w) (wi_banner w) (wi_details w).

(** One run; a [changed] emitted by the filter line would start another one
    inside it. *)
Fixpoint applySettings (depth : nat) (w : Window) : Window * list WEffect :=
  match depth with
  | O => (w, [])
  | S depth =>
      let w := pushSettings w in
      let '(w, hints) := refreshAgentHeartbeat w in
      let w := with_filter (pr_str (prefsOf w) PfConnFilterExpr) (wi_connProxy w) w in
      let '(w, emitted) := applyConnFilterExpr w in
      if emitted then let '(w, es) := applySettings depth w in (w, hints ++ es) else (w, hints)
  end.
Definition applySettingsToUi (w : Window) : Window * list WEffect := applySettings 2 w.

(** A setter's call, with what its signal does. *)
Definition changeSetting (c : Call) (w : Window) : Window * list WEffect :=
  let '(st, emitted) := applyCall c (wi_settings w) in
  let w := with_settings st w in
  if emitted then applySettingsToUi w else (w, []).

(** The debounce timer of the filter line. *)
Definition filterShot (w : Window) : Window * list WEffect :=
  let '(w, emitted) := applyConnFilterExpr w in if emitted then applySettingsToUi w else (w, []).

Definition showEvent (w : Window) : Window * list WEffect := refreshAgentHeartbeat (set_visible true w).
Definition hideEvent (w : Window) : Window * list WEffect := refreshAgentHeartbeat (set_visible false w).

Definition togglePaused (paused : bool) (w : Window) : Window * list WEffect :=
  if Bool.eqb paused (wi_paused w) then (w, []) else (set_paused paused w, [WeTrayPaused paused]).

(** What the tray and the child ask for. *)
Definition quitFromTray (w : Window) : Window * list WEffect := (set_quit true w, [WeQuit]).
Definition trayShow (w : Window) : Window * list WEffect := if wi_proxyMode w then (w, [WeSendShow]) else showEvent w.
Definition trayPause (b : bool) (w : Window) : Window * list WEffect := if wi_proxyMode w then (w, [WeSendPause b]) else togglePaused b w.
Definition trayQuit (w : Window) : Window * list WEffect := if wi_proxyMode w then (w, [WeSendQuit]) else quitFromTray w.

Definition closeEvent (w : Window) : Window * list WEffect :=
  if negb (wi_explicitQuit w) && pr_bool (prefsOf w) PfCloseToTray && wi_trayAvailable w then hideEvent w
  else let '(w, es) := hideEvent w in (w, WeWriteUi :: es).
(** [aboutToQuit]. *)
Definition aboutToQuit (w : Window) : Window * list WEffect := (w, [WeWriteUi]).

(** The entries of the interface menu with their marks; the last one is for
    flows without an interface. *)
Definition rebuildConnIfaceFilterMenu (stats : list InterfaceStats) (visible : list QString) : WEffect :=
  WeIfaceMenu (allChecked visible) (map (fun n => (n, itemChecked visible n)) (menuNames stats ++ [[]])).
Definition updateStatusBar (stats : list InterfaceStats) : WEffect :=
  let '(_, rx, tx) := statusTotals stats in WeStatus (interfacesLabel stats) rx tx.
Definition onStatsUpdated (stats : list InterfaceStats) (w : Window) : Window * list WEffect :=
  if wi_proxyMode w then (w, [])
  else (w, (if wi_paused w then [] else [WeNetModel stats])
           ++ [updateStatusBar stats; WeTrayStats stats; rebuildConnIfaceFilterMenu stats (pr_list (prefsOf w) PfConnVisibleIfaces); WeLocals (localsOf stats)]).
Definition onConnectionsUpdated (conns : list Connection) (w : Window) : Window * list WEffect :=
  (w, (if wi_paused w then [] else [WeConnModel conns]) ++ [WeConnCount (connectionsLabel (Z.of_nat (length conns)))]).
Definition onConnectionsAttributionRefined (patch : list Connection) (w : Window) : Window * list WEffect := (w, if wi_paused w then [] else [WePatch patch]).

Definition setBackendInfo (usingAgent : bool) (version : QString) (caps : list QString) (w : Window) : Window * list WEffect :=
  applySettingsToUi (with_backend usingAgent version caps (backendLabel usingAgent version) w).
Definition onCadence (ms : Z) (w : Window) : Window * list WEffect :=
  (with_backend (wi_usingAgent w) (wi_version w) (wi_caps w) (notifyAgentCadence ms (wi_backendText w)) w, []).

Definition onPermissionDenied (detail : QString) (w : Window) : Window * list WEffect :=
  (with_notes (Some (qarg (qs "Cannot enumerate connections" ++ emDashSep ++ qs "%1. Per-flow data requires CAP_NET_ADMIN.") detail)) (wi_details w) w, []).
(** The guard asks whether the banner is on screen ([isVisible]): a widget of a
    hidden window, or of the tab that is not in front, is not. *)
Definition bannerVisible (onConnTab : bool) (w : Window) : bool := bool_decide (is_Some (wi_banner w)) && wi_visible w && onConnTab.
Definition accountingText (detail : QString) : QString :=
  qarg (qs "Per-flow byte/packet counters disabled" ++ emDashSep ++ qs "%1. Flows will appear but rates and totals will read 0.") detail.
Definition onAccountingUnavailable (onConnTab : bool) (detail : QString) (w : Window) : Window * list WEffect :=
  if bannerVisible onConnTab w then (w, []) else (with_notes (Some (accountingText detail)) (wi_details w) w, []).

Definition onDetails (d : CachedDetails) (w : Window) : Window * list WEffect := (with_notes (wi_banner w) (rememberDetails d (wi_details w)) w, []).
Definition onExpanded (pid : Z) (liveComm : QString) (w : Window) : Window * list WEffect :=
  let '(details, ask) := groupExpanded pid liveComm (wi_details w) in
  (with_notes (wi_banner w) details w, match ask with Some p => [WeRequestDetails p] | None => [] end).

(** The combo box: the hint is sent at once. *)
Definition chooseEagerness (i : nat) (w : Window) : Window * list WEffect :=
  match eagernessData !! i with
  | None => (w, [])
  | Some mode =>
      let '(w, es) := changeSetting (CStr PfAttributionEagerness mode) w in
      (w, es ++ [WeEagerness (if isEmpty mode then qs "default" else mode)])
  end.
Definition chooseViewMode (m : ConnectionViewMode) : Window -> Window * list WEffect := changeSetting (CViewMode m).
Definition chooseIface (value : QString) (checked : bool) (w : Window) : Window * list WEffect :=
  changeSetting (CList PfConnVisibleIfaces (toggleIface value checked (pr_list (prefsOf w) PfConnVisibleIfaces))) w.
Definition chooseAllIfaces : Window -> Window * list WEffect := changeSetting (CList PfConnVisibleIfaces []).

(** Standing in for a privileged copy. *)
Definition onChildReady (w : Window) : Window * list WEffect :=
  let '(w, es) := hideEvent (set_proxy true w) in (w, WeStopMonitors :: es).
Definition onChildStats (stats : list InterfaceStats) (w : Window) : Window * list WEffect := (w, if wi_proxyMode w then [WeTrayStats stats] else []).
Definition onChildPauseState (b : bool) (w : Window) : Window * list WEffect := (w, if wi_proxyMode w then [WeTrayPaused b] else []).
Definition onChildDisconnected (w : Window) : Window * list WEffect := if wi_proxyMode w then (set_quit true w, [WeQuit]) else (w, []).

(** The tray becomes available within the retries after the start; [EvTrayHost]
    is a host that comes or goes without the window noticing. *)
Definition onTrayAvailable (w : Window) : Window * list WEffect := applySettingsToUi (set_tray true w).

(** The constructor, before [readUiState]. *)
Definition newWindow (st : Settings) (tray : bool) : Window * list WEffect :=
  applySettingsToUi (mkWindow st (pushedOf (st_prefs st)) newIfaceFilter newConnFilter titleBase (qs "All interfaces") connAlwaysHidden false false 0 false None []
    false tray false false false false [] [] (qs "backend: unknown") None ∅).
End Handlers.

(* ------------------------------------------------------------------ *)
(** ** Runs *)

Inductive WEvent :=
| EvSetting (c : Call) | EvFilterText (t : QString) | EvFilterShot | EvShow | EvHide | EvHeartbeat | EvClose | EvAboutToQuit
| EvTrayShow | EvTrayPause (b : bool) | EvTrayQuit | EvPause (b : bool)
| EvStats (l : list InterfaceStats) | EvConns (l : list Connection) | EvRefined (l : list Connection)
| EvBackend (agent : bool) (version : QString) (caps : list QString) | EvCadence (ms : Z)
| EvDenied (detail : QString) | EvAccounting (onConnTab : bool) (detail : QString) | EvDetails (d : CachedDetails) | EvExpanded (pid : Z) (comm : QString)
| EvEagerness (i : nat) | EvViewMode (m : ConnectionViewMode) | EvIface (value : QString) (checked : bool) | EvAllIfaces
| EvColumns (hidden : gset nat) | EvTray | EvTrayHost (b : bool)
| EvChildReady | EvChildStats (l : list InterfaceStats) | EvChildPause (b : bool) | EvChildGone.

Section Runs.
Context `{QtUnicode, QtAddrText, QtRegex, QtToDouble, QtNumberText}.

Definition windowStep (e : WEvent) (w : Window) : Window * list WEffect :=
  match e with
  | EvSetting c => changeSetting c w
  | EvFilterText t => (with_filter t (wi_connProxy w) w, [])
  | EvFilterShot => filterShot w
  | EvShow => showEvent w
  | EvHide => hideEvent w
  | EvHeartbeat => heartbeatShot w
  | EvClose => closeEvent w
  | EvAboutToQuit => aboutToQuit w
  | EvTrayShow => trayShow w
  | EvTrayPause b => trayPause b w
  | EvTrayQuit => trayQuit w
  | EvPause b => togglePaused b w
  | EvStats l => onStatsUpdated l w
  | EvConns l => onConnectionsUpdated l w
  | EvRefined l => onConnectionsAttributionRefined l w
  | EvBackend a v c => setBackendInfo a v c w
  | EvCadence ms => onCadence ms w
  | EvDenied d => onPermissionDenied d w
  | EvAccounting tab d => onAccountingUnavailable tab d w
  | EvDetails d => onDetails d w
  | EvExpanded p c => onExpanded p c w
  | EvEagerness i => chooseEagerness i w
  | EvViewMode m => chooseViewMode m w
  | EvIface v c => chooseIface v c w
  | EvAllIfaces => chooseAllIfaces w
  | EvColumns h => (with_hidden h w, [])
  | EvTray => onTrayAvailable w
  | EvTrayHost b => (set_tray b w, [])
  | EvChildReady => onChildReady w
  | EvChildStats l => onChildStats l w
  | EvChildPause b => onChildPauseState b w
  | EvChildGone => onChildDisconnected w
  end.

Definition runWindow (es : list WEvent) (w : Window) : Window := foldl (fun w e => fst (windowStep e w)) w es.

(** Everything shown is what the preferences say, the heartbeat runs exactly
    while the window is visible, and a filter in force that parses is the one
    that is kept. *)
Record synced (w : Window) : Prop := {
  sy_pushed : wi_pushed w = pushedOf (prefsOf w);
  sy_net : wi_netProxy w = mkIfaceFilter (pr_bool (prefsOf w) PfShowLoopback) (pr_bool (prefsOf w) PfShowDown);
  sy_ipv6 : cf_showIPv6 (wi_connProxy w) = pr_bool (prefsOf w) PfIpv6Enabled;
  sy_tcp : cf_showTcp (wi_connProxy w) = pr_bool (prefsOf w) PfShowTcp;
  sy_udp : cf_showUdp (wi_connProxy w) = pr_bool (prefsOf w) PfShowUdp;
  sy_ifaces : cf_visibleIfaces (wi_connProxy w) = list_to_set (pr_list (prefsOf w) PfConnVisibleIfaces);
  sy_title : wi_title w = windowTitle (prefsOf w);
  sy_button : wi_ifaceButton w = ifaceButton (pr_list (prefsOf w) PfConnVisibleIfaces);
  sy_smoothing : wi_smoothingTick w = smoothingFor (prefsOf w);
  sy_eager : wi_eagerIndex w = eagernessIndex (pr_str (prefsOf w) PfAttributionEagerness);
  sy_heartbeat : wi_heartbeat w = wi_visible w;
  sy_filter : cf_exprError (wi_connProxy w) = [] -> cf_exprText (wi_connProxy w) = pr_str (prefsOf w) PfConnFilterExpr;
}.

Lemma setStr_same p st : setStr p (pr_str (st_prefs st) p) st = (st, false).
Proof. unfold setStr. by rewrite decide_True. Qed.

Lemma setStr_value p s st : pr_str (st_prefs (fst (setStr p s st))) p = s.
Proof.
  unfold setStr. case_decide as Hd; [by rewrite Hd|]. cbn [fst]. rewrite store_prefs. cbn. unfold upd. by rewrite decide_True.
Qed.

Lemma setFilterExpression_spec t f :
  let '(f', _, err) := setFilterExpression t f in
  cf_exprText f' = t /\ cf_exprError f' = err /\ cf_showIPv6 f' = cf_showIPv6 f /\ cf_showTcp f' = cf_showTcp f /\ cf_showUdp f' = cf_showUdp f /\ cf_visibleIfaces f' = cf_visibleIfaces f.
Proof. unfold setFilterExpression. destruct (qeqb t (cf_exprText f)) eqn:E; [apply qeqb_eq in E as ->|]; done. Qed.

(** A run of [applySettingsToUi] never starts another one inside it. *)
Lemma applySettings_flat d w :
  exists proxy,
    applySettings (S d) w =
      (with_filter (pr_str (prefsOf w) PfConnFilterExpr) proxy (with_heartbeat (wi_visible w) (pushSettings w)),
       if wi_visible w then assertHints (prefsOf w) else []) /\
    cf_exprText proxy = pr_str (prefsOf w) PfConnFilterExpr /\
    cf_showIPv6 proxy = cf_showIPv6 (wi_connProxy (pushSettings w)) /\ cf_showTcp proxy = cf_showTcp (wi_connProxy (pushSettings w)) /\
    cf_showUdp proxy = cf_showUdp (wi_connProxy (pushSettings w)) /\ cf_visibleIfaces proxy = cf_visibleIfaces (wi_connProxy (pushSettings w)).
Proof.
  cbn [applySettings]. assert (Hr : refreshAgentHeartbeat (pushSettings w) = (with_heartbeat (wi_visible w) (pushSettings w), if wi_visible w then assertHints (prefsOf w) else [])).
  { unfold refreshAgentHeartbeat. cbn [pushSettings wi_visible]. by destruct (wi_visible w). }
  rewrite Hr. unfold applyConnFilterExpr. cbn [with_filter wi_filterText wi_connProxy with_heartbeat].
  pose proof (setFilterExpression_spec (pr_str (prefsOf w) PfConnFilterExpr) (wi_connProxy (pushSettings w))) as Hs.
  change (prefsOf (with_heartbeat (wi_visible w) (pushSettings w))) with (prefsOf w).
  destruct (setFilterExpression (pr_str (prefsOf w) PfConnFilterExpr) (wi_connProxy (pushSettings w))) as [[proxy b] err].
  exists proxy. destruct Hs as (Ht & _ & Hrest). split; [|by split].
  destruct (isEmpty err); [|done]. cbn [with_filter wi_settings with_heartbeat pushSettings].
  unfold setConnectionFilterExpr. unfold prefsOf. rewrite setStr_same. done.
Qed.

Lemma eqb_eq a b : Bool.eqb a b = true -> a = b.
Proof. by destruct a, b. Qed.
Lemma fst_showIPv6 b f : fst (setShowIPv6 b f) = mkConnFilter b (cf_showTcp f) (cf_showUdp f) (cf_visibleIfaces f) (cf_exprText f) (cf_exprError f) (cf_expr f).
Proof. unfold setShowIPv6. destruct (Bool.eqb (cf_showIPv6 f) b) eqn:E; [|done]. apply eqb_eq in E as <-. by destruct f. Qed.
Lemma fst_showTcp b f : fst (GuiModel.setShowTcp b f) = mkConnFilter (cf_showIPv6 f) b (cf_showUdp f) (cf_visibleIfaces f) (cf_exprText f) (cf_exprError f) (cf_expr f).
Proof. unfold GuiModel.setShowTcp. destruct (Bool.eqb (cf_showTcp f) b) eqn:E; [|done]. apply eqb_eq in E as <-. by destruct f. Qed.
Lemma fst_showUdp b f : fst (GuiModel.setShowUdp b f) = mkConnFilter (cf_showIPv6 f) (cf_showTcp f) b (cf_visibleIfaces f) (cf_exprText f) (cf_exprError f) (cf_expr f).
Proof. unfold GuiModel.setShowUdp. destruct (Bool.eqb (cf_showUdp f) b) eqn:E; [|done]. apply eqb_eq in E as <-. by destruct f. Qed.
Lemma fst_visibleIfaces s f : fst (setVisibleIfaces s f) = mkConnFilter (cf_showIPv6 f) (cf_showTcp f) (cf_showUdp f) s (cf_exprText f) (cf_exprError f) (cf_expr f).
Proof. unfold setVisibleIfaces. destruct (bool_decide (cf_visibleIfaces f = s)) eqn:E; [|done]. apply bool_decide_eq_true in E as <-. by destruct f. Qed.
Lemma fst_showLoopback b f : fst (GuiModel.setShowLoopback b f) = mkIfaceFilter b (if_showDown f).
Proof. unfold GuiModel.setShowLoopback. destruct (Bool.eqb (if_showLoopback f) b) eqn:E; [|done]. apply eqb_eq in E as <-. by destruct f. Qed.
Lemma fst_showDown b f : fst (GuiModel.setShowDown b f) = mkIfaceFilter (if_showLoopback f) b.
Proof. unfold GuiModel.setShowDown. destruct (Bool.eqb (if_showDown f) b) eqn:E; [|done]. apply eqb_eq in E as <-. by destruct f. Qed.

Lemma pushSettings_proxies w :
  let r := prefsOf w in let c := wi_connProxy (pushSettings w) in
  wi_netProxy (pushSettings w) = mkIfaceFilter (pr_bool r PfShowLoopback) (pr_bool r PfShowDown) /\
  cf_showIPv6 c = pr_bool r PfIpv6Enabled /\ cf_showTcp c = pr_bool r PfShowTcp /\ cf_showUdp c = pr_bool r PfShowUdp /\
  cf_visibleIfaces c = list_to_set (pr_list r PfConnVisibleIfaces).
Proof.
  cbn [pushSettings wi_netProxy wi_connProxy]. rewrite fst_showDown, fst_showLoopback, fst_visibleIfaces, fst_showUdp, fst_showTcp, fst_showIPv6.
  cbn [if_showLoopback cf_showIPv6 cf_showTcp cf_showUdp cf_visibleIfaces]. split_and!; reflexivity.
Qed.

Lemma applySettings_synced w : synced (fst (applySettingsToUi w)).
Proof.
  unfold applySettingsToUi. destruct (applySettings_flat 1 w) as (proxy & -> & Ht & H6 & Htc & Hu & Hv). cbn [fst].
  destruct (pushSettings_proxies w) as (Hn & H6' & Htc' & Hu' & Hv').
  split; [reflexivity|exact Hn|transitivity (cf_showIPv6 proxy); [reflexivity|by rewrite H6, H6']|transitivity (cf_showTcp proxy); [reflexivity|by rewrite Htc, Htc']
    |transitivity (cf_showUdp proxy); [reflexivity|by rewrite Hu, Hu']|transitivity (cf_visibleIfaces proxy); [reflexivity|by rewrite Hv, Hv']|reflexivity..|].
  intros _. exact Ht.
Qed.

Lemma applyCall_idle c st : snd (applyCall c st) = false -> fst (applyCall c st) = st.
Proof.
  destruct (isReset c) as [->|Hc]; [by cbn|]. pose proof (applyCall_one c st Hc) as Ho. destruct (applyCall c st) as [st' e]. cbn [fst snd]. intros ->.
  destruct (writes c (st_prefs st)) as [|[p v] ws]; [by destruct Ho|]. case_decide; [by destruct Ho|]. by destruct Ho.
Qed.

Lemma with_settings_same w : with_settings (wi_settings w) w = w.
Proof. by destruct w. Qed.

Lemma changeSetting_synced c w : synced w -> synced (fst (changeSetting c w)).
Proof.
  intros Hs. unfold changeSetting. destruct (applyCall c (wi_settings w)) as [st e] eqn:Ec. destruct e; [apply applySettings_synced|].
  assert (Hst : st = wi_settings w). { pose proof (applyCall_idle c (wi_settings w)) as Hi. rewrite Ec in Hi. by apply Hi. }
  rewrite Hst, with_settings_same. exact Hs.
Qed.

Lemma filterShot_synced w : synced w -> synced (fst (filterShot w)).
Proof.
  intros Hs. unfold filterShot, applyConnFilterExpr. pose proof (setFilterExpression_spec (wi_filterText w) (wi_connProxy w)) as Hf.
  destruct (setFilterExpression (wi_filterText w) (wi_connProxy w)) as [[proxy b] err]. destruct Hf as (Ht & He & H6 & Htc & Hu & Hv).
  destruct Hs as [S1 S2 S3 S4 S5 S6 S7 S8 S9 S10 S11 S12]. destruct err as [|x err]; cbn [isEmpty].
  - cbn [with_filter wi_settings]. unfold setConnectionFilterExpr. destruct (setStr PfConnFilterExpr (wi_filterText w) (wi_settings w)) as [st e] eqn:Es. destruct e; [apply applySettings_synced|].
    assert (Hst : st = wi_settings w /\ wi_filterText w = pr_str (st_prefs (wi_settings w)) PfConnFilterExpr).
    { unfold setStr in Es. case_decide; [by injection Es as <-|discriminate Es]. }
    destruct Hst as [-> Htx]. split; cbn [fst with_settings with_filter wi_pushed wi_netProxy wi_connProxy wi_title wi_ifaceButton wi_smoothingTick wi_eagerIndex wi_heartbeat wi_visible];
      change (prefsOf (with_settings (wi_settings w) (with_filter (wi_filterText w) proxy w))) with (prefsOf w); try congruence.
    unfold prefsOf. congruence.
  - split; cbn [fst with_filter wi_pushed wi_netProxy wi_connProxy wi_title wi_ifaceButton wi_smoothingTick wi_eagerIndex wi_heartbeat wi_visible];
      change (prefsOf (with_filter (wi_filterText w) proxy w)) with (prefsOf w); try congruence.
Qed.

Lemma refresh_synced b w : synced w -> synced (fst (refreshAgentHeartbeat (set_visible b w))).
Proof. intros []. unfold refreshAgentHeartbeat. destruct b; cbn [set_visible with_modes wi_visible negb fst]; by split. Qed.

Lemma windowStep_synced e w : synced w -> synced (fst (windowStep e w)).
Proof.
  intros Hs. pose proof (changeSetting_synced) as Hch. destruct e; cbn [windowStep].
  1: by apply Hch.
  2: by apply filterShot_synced.
  2,3: by apply refresh_synced.
  all: try (destruct Hs; by split).
  all: try apply applySettings_synced.
  all: try (by apply Hch).
  - unfold closeEvent, hideEvent. pose proof (refresh_synced false w Hs) as Hr. destruct (negb (wi_explicitQuit w) && pr_bool (prefsOf w) PfCloseToTray && wi_trayAvailable w); [exact Hr|].
    destruct (refreshAgentHeartbeat (set_visible false w)). exact Hr.
  - unfold trayShow. destruct (wi_proxyMode w); [done|]. by apply refresh_synced.
  - unfold trayPause, togglePaused. destruct (wi_proxyMode w), (Bool.eqb b (wi_paused w)); try done; destruct Hs; by split.
  - unfold trayQuit, quitFromTray. destruct (wi_proxyMode w); [done|]; destruct Hs; by split.
  - unfold togglePaused. destruct (Bool.eqb b (wi_paused w)); [done|]; destruct Hs; by split.
  - unfold onStatsUpdated. by destruct (wi_proxyMode w).
  - unfold onAccountingUnavailable. destruct (bannerVisible onConnTab w); [done|]; destruct Hs; by split.
  - unfold onExpanded. destruct (groupExpanded pid comm (wi_details w)). destruct Hs; by split.
  - unfold chooseEagerness. destruct (eagernessData !! i) as [m|]; [|done]. specialize (Hch (CStr PfAttributionEagerness m) w Hs). destruct (changeSetting (CStr PfAttributionEagerness m) w). exact Hch.
  - unfold onChildDisconnected. destruct (wi_proxyMode w); [|done]. destruct Hs; by split.
Qed.

Lemma run_synced st tray es : synced (runWindow es (fst (newWindow st tray))).
Proof.
  assert (Hg : forall w, synced w -> synced (runWindow es w)); [|apply Hg, applySettings_synced].
  induction es as [|e es IH]; intros w Hw; [done|]. cbn [runWindow foldl]. apply IH, windowStep_synced, Hw.
Qed.


Definition isHint (x : WEffect) : bool := match x with WeNetInterval _ | WeConnInterval _ | WeEagerness _ => true | _ => false end.

Lemma applySettings_hidden w : wi_visible w = false -> snd (applySettingsToUi w) = [].
Proof. intros Hv. unfold applySettingsToUi. destruct (applySettings_flat 1 w) as (proxy & -> & _). cbn [snd]. by rewrite Hv. Qed.
Lemma changeSetting_hidden c w : wi_visible w = false -> snd (changeSetting c w) = [].
Proof. intros Hv. unfold changeSetting. destruct (applyCall c (wi_settings w)) as [st []]; [|done]. by apply applySettings_hidden. Qed.


(** While the window is visible every shot of the heartbeat, and showing it,
    tells both monitors the interval of the preferences and the eagerness they
    hold. *)
Theorem visible_asserts st tray es :
  let w := runWindow es (fst (newWindow st tray)) in
  (wi_visible w = true -> windowStep EvHeartbeat w = (w, assertHints (prefsOf w))) /\
  snd (windowStep EvShow w) = assertHints (prefsOf w) /\ wi_heartbeat (fst (windowStep EvShow w)) = true.
Proof.
  intros w. pose proof (run_synced st tray es) as Hsy. fold w in Hsy. clearbody w. split_and!; [|reflexivity|reflexivity].
  intros Hv. cbn [windowStep]. unfold heartbeatShot. by rewrite (sy_heartbeat w Hsy), Hv.
Qed.

Definition feedsModel (x : WEffect) : bool := match x with WeNetModel _ | WeConnModel _ | WePatch _ => true | _ => false end.

Lemma hints_no_feed r : Forall (fun x => feedsModel x = false) (assertHints r).
Proof. unfold assertHints. destruct (isEmpty _); by repeat constructor. Qed.
Lemma applySettings_no_feed w : Forall (fun x => feedsModel x = false) (snd (applySettingsToUi w)).
Proof. unfold applySettingsToUi. destruct (applySettings_flat 1 w) as (proxy & -> & _). cbn [snd]. destruct (wi_visible w); [apply hints_no_feed|done]. Qed.
Lemma changeSetting_no_feed c w : Forall (fun x => feedsModel x = false) (snd (changeSetting c w)).
Proof. unfold changeSetting. destruct (applyCall c (wi_settings w)) as [st []]; [apply applySettings_no_feed|done]. Qed.
Lemma refresh_no_feed w : Forall (fun x => feedsModel x = false) (snd (refreshAgentHeartbeat w)).
Proof. unfold refreshAgentHeartbeat. destruct (negb (wi_visible w)); [done|apply hints_no_feed]. Qed.

(** While updates are paused no table changes, whatever arrives; the tray is
    still told. *)
Theorem paused_is_frozen e w :
  wi_paused w = true ->
  Forall (fun x => feedsModel x = false) (snd (windowStep e w)) /\
  forall stats, wi_proxyMode w = false -> WeTrayStats stats ∈ snd (windowStep (EvStats stats) w).
Proof.
  intros Hp. split.
  2: { intros stats Hx. cbn [windowStep]. unfold onStatsUpdated. rewrite Hx, Hp. cbn [snd app]. apply elem_of_cons. right. apply elem_of_cons. by left. }
  pose proof applySettings_no_feed as Ha. pose proof changeSetting_no_feed as Hc. pose proof refresh_no_feed as Hr. destruct e; cbn [windowStep]; try done.
  all: try (apply Hc || apply Ha || apply Hr).
  - unfold filterShot, applyConnFilterExpr. destruct (setFilterExpression _ _) as [[proxy b] err]. destruct (isEmpty err); [|done].
    destruct (setConnectionFilterExpr _ _) as [st' []]; [apply Ha|done].
  - unfold heartbeatShot. cbn [snd]. destruct (wi_heartbeat w); [apply hints_no_feed|done].
  - unfold closeEvent, hideEvent. specialize (Hr (set_visible false w)). destruct (refreshAgentHeartbeat (set_visible false w)) as [w' es].
    destruct (negb (wi_explicitQuit w) && _ && _); [exact Hr|]. by apply Forall_cons.
  - by repeat constructor.
  - unfold trayShow. destruct (wi_proxyMode w); [by repeat constructor|apply Hr].
  - unfold trayPause, togglePaused. destruct (wi_proxyMode w), (Bool.eqb b (wi_paused w)); by repeat constructor.
  - unfold trayQuit, quitFromTray. destruct (wi_proxyMode w); by repeat constructor.
  - unfold togglePaused. destruct (Bool.eqb b (wi_paused w)); by repeat constructor.
  - unfold onStatsUpdated, updateStatusBar. rewrite Hp. destruct (wi_proxyMode w), (statusTotals l) as [[? ?] ?]; by repeat constructor.
  - unfold onConnectionsUpdated. rewrite Hp. by repeat constructor.
  - unfold onConnectionsAttributionRefined. by rewrite Hp.
  - unfold onAccountingUnavailable. destruct (bannerVisible onConnTab w); by repeat constructor.
  - unfold onExpanded. destruct (groupExpanded pid comm (wi_details w)) as [d []]; by repeat constructor.
  - unfold chooseEagerness. destruct (eagernessData !! i) as [m|]; [|done]. specialize (Hc (CStr PfAttributionEagerness m) w).
    destruct (changeSetting (CStr PfAttributionEagerness m) w) as [w' es]. cbn [snd] in *. apply Forall_app. split; [exact Hc|]. by repeat constructor.
  - unfold onChildReady, hideEvent. specialize (Hr (set_visible false (set_proxy true w))). destruct (refreshAgentHeartbeat _) as [w' es]. by apply Forall_cons.
  - unfold onChildStats. destruct (wi_proxyMode w); by repeat constructor.
  - unfold onChildPauseState. destruct (wi_proxyMode w); by repeat constructor.
  - unfold onChildDisconnected. destruct (wi_proxyMode w); by repeat constructor.
Qed.

(** Once the privileged copy has taken over, what the user does at the tray goes
    to it alone, its numbers are the ones shown there, the monitors' are not,
    and when it goes the window quits. *)
Theorem proxy_mode_routes w stats b :
  wi_proxyMode w = true ->
  windowStep EvTrayShow w = (w, [WeSendShow]) /\ windowStep (EvTrayPause b) w = (w, [WeSendPause b]) /\ windowStep EvTrayQuit w = (w, [WeSendQuit]) /\
  windowStep (EvStats stats) w = (w, []) /\ windowStep (EvChildStats stats) w = (w, [WeTrayStats stats]) /\
  snd (windowStep EvChildGone w) = [WeQuit] /\ wi_explicitQuit (fst (windowStep EvChildGone w)) = true.
Proof.
  intros Hx. cbn [windowStep]. unfold trayShow, trayPause, trayQuit, onStatsUpdated, onChildStats, onChildDisconnected. rewrite Hx. by split_and!.
Qed.

(** Any preference that changes overwrites the filter line with the filter that
    is kept: text that does not parse yet, or not for long enough, is gone. *)
Theorem filter_line_overwritten c w :
  snd (applyCall c (wi_settings w)) = true ->
  wi_filterText (fst (windowStep (EvSetting c) w)) = pr_str (st_prefs (fst (applyCall c (wi_settings w)))) PfConnFilterExpr.
Proof.
  intros He. cbn [windowStep]. unfold changeSetting. destruct (applyCall c (wi_settings w)) as [st e]. cbn [snd fst] in *. subst e.
  unfold applySettingsToUi. destruct (applySettings_flat 1 (with_settings st w)) as (proxy & -> & _). reflexivity.
Qed.

(** Closing the window, or quitting, writes the layout of the window to the
    user's settings even where the preferences must not be written. *)
Theorem layout_always_written w s r :
  wi_trayAvailable w = false ->
  WeWriteUi ∈ snd (windowStep EvClose (with_settings (mkSettings false s r) w)) /\ WeWriteUi ∈ snd (windowStep EvAboutToQuit (with_settings (mkSettings false s r) w)).
Proof.
  intros Ht. cbn [windowStep]. unfold closeEvent. cbn [with_settings wi_trayAvailable]. rewrite Ht, andb_false_r. destruct (hideEvent _) as [w' es]. split; apply elem_of_cons; by left.
Qed.

(** The close button hides to the tray only when the user wants that and the
    tray is there, and never when the user has asked to quit. *)
Theorem close_hides w :
  (pr_bool (prefsOf w) PfCloseToTray = true /\ wi_trayAvailable w = true /\ wi_explicitQuit w = false <-> WeWriteUi ∉ snd (windowStep EvClose w)) /\
  wi_visible (fst (windowStep EvClose w)) = false /\ wi_heartbeat (fst (windowStep EvClose w)) = false.
Proof.
  cbn [windowStep]. unfold closeEvent, hideEvent, refreshAgentHeartbeat. cbn [set_visible with_modes wi_visible negb].
  destruct (wi_explicitQuit w), (pr_bool (prefsOf w) PfCloseToTray), (wi_trayAvailable w); cbn [negb andb fst snd]; (split; [|done]);
    (split; [intros (? & ? & ?); first [discriminate|intros ?%elem_of_nil; done]|intros Hn; first [by split_and!|destruct Hn; apply elem_of_cons; by left]]).
Qed.

(** The note about missing counters leaves the graver one about missing rights
    alone only while that one is on screen: with another tab in front, or in
    the tray, it replaces it. *)
Theorem denial_banner_lost w onConnTab denial detail :
  let w' := fst (windowStep (EvDenied denial) w) in
  wi_banner (fst (windowStep (EvAccounting onConnTab detail) w')) = if wi_visible w && onConnTab then wi_banner w' else Some (accountingText detail).
Proof.
  cbn [windowStep]. unfold onPermissionDenied, onAccountingUnavailable, bannerVisible. cbn [fst with_notes wi_banner wi_visible].
  rewrite bool_decide_eq_true_2 by done. by destruct (wi_visible w), onConnTab.
Qed.
End Runs.

(* ------------------------------------------------------------------ *)
(** ** Examples *)

#[local] Instance truncatedText : QtNumberText := fun d _ => match dtrunc d with Some z => number z | None => qs "?" end.
#[local] Existing Instance substringRegex.
#[local] Existing Instance decimalToDouble.

Definition defaultPrefs : Prefs := mkPrefs boolDefault intDefault strDefault listDefault colorDefault 0 VmFlat.
Definition startWindow : Window := fst (newWindow (mkSettings true ∅ defaultPrefs) false).

Lemma shown_hidden w : wi_visible (runWindow [EvShow; EvHide] w) = false.
Proof. reflexivity. Qed.
Lemma shown_visible w : wi_visible (runWindow [EvShow] w) = true.
Proof. reflexivity. Qed.
Lemma shown_paused w : wi_paused (runWindow [EvShow; EvPause true] w) = true.
Proof. unfold runWindow. cbn [foldl windowStep]. unfold togglePaused. cbn [showEvent refreshAgentHeartbeat set_visible with_modes wi_visible negb fst with_heartbeat wi_paused]. by destruct (wi_paused w) eqn:E. Qed.


Lemma visible_asserts_witness :
  windowStep EvHeartbeat (runWindow [EvShow] startWindow) = (runWindow [EvShow] startWindow, assertHints (prefsOf (runWindow [EvShow] startWindow))).
Proof. exact (proj1 (visible_asserts (mkSettings true ∅ defaultPrefs) false [EvShow]) (shown_visible startWindow)). Defined.

Lemma paused_is_frozen_witness :
  Forall (fun x => feedsModel x = false) (snd (windowStep (EvConns [emptyConnection]) (runWindow [EvShow; EvPause true] startWindow))).
Proof. exact (proj1 (paused_is_frozen (EvConns [emptyConnection]) (runWindow [EvShow; EvPause true] startWindow) (shown_paused startWindow))). Defined.

Lemma child_ready_proxies w : wi_proxyMode (runWindow [EvShow; EvChildReady] w) = true.
Proof. reflexivity. Qed.

Lemma proxy_mode_routes_witness :
  windowStep EvTrayQuit (runWindow [EvShow; EvChildReady] startWindow) = (runWindow [EvShow; EvChildReady] startWindow, [WeSendQuit]).
Proof. exact (proj1 (proj2 (proj2 (proxy_mode_routes (runWindow [EvShow; EvChildReady] startWindow) [] true (child_ready_proxies startWindow))))). Defined.

(** Half a filter is lost when a box is ticked elsewhere. *)
Definition typingWindow : Window := with_filter (qs "proto:") newConnFilter (with_settings (mkSettings true ∅ defaultPrefs) startWindow).

Lemma filter_line_overwritten_witness :
  wi_filterText typingWindow = qs "proto:" /\ wi_filterText (fst (windowStep (EvSetting (CBool PfShowDown false)) typingWindow)) = [].
Proof.
  split; [reflexivity|]. etransitivity; [apply (filter_line_overwritten (CBool PfShowDown false) typingWindow); reflexivity|reflexivity].
Defined.

Lemma layout_always_written_witness :
  WeWriteUi ∈ snd (windowStep EvClose (with_settings (mkSettings false ∅ defaultPrefs) (set_tray false startWindow))).
Proof. exact (proj1 (layout_always_written (set_tray false startWindow) ∅ defaultPrefs eq_refl)). Defined.
