(* ===== verification/Tray.v ===== *)
(** * The tray icon: [src/ui/TrayManager.{h,cpp}]

    The tooltip with the rates of all interfaces and of the chosen ones, the
    sample they are computed from, and the check mark of the pause entry
    together with the window's own.

    The icon and its menu are Qt's; the elapsed timer is the time of an event.
    A rate that cannot be converted is the absence of a text. *)

From S2P Require Import Prelude Qt StdAlgo Conn DbusTypes Filter FilterEval Units IfaceAgg CheckTool GuiModel GuiSettings WindowText Window.

Record Tray := mkTray {
  tr_prev : gmap QString InterfaceStats;
  tr_lastMs : Z;
  tr_paused : bool;               (* the check mark of the pause entry *)
  tr_tooltip : option QString;
}.

Inductive TraySignal := TsShowWindow | TsPauseToggled (b : bool) | TsQuit.
(** [QSystemTrayIcon::ActivationReason]. *)
Inductive ActivationReason := ArUnknown | ArContext | ArDoubleClick | ArTrigger | ArMiddleClick.

Definition trayWaiting : QString := qs "qiftop" ++ emDashSep ++ qs "waiting for network statistics" ++ [8230%Z].
Definition newTray : Tray := mkTray ∅ 0 false (Some trayWaiting).

Definition setPaused (b : bool) (t : Tray) : Tray := mkTray (tr_prev t) (tr_lastMs t) b (tr_tooltip t).
Definition pauseText (t : Tray) : QString := if tr_paused t then qs "&Resume" else qs "&Pause".
(** The user's click on the entry; [toggled] is the tray's signal. *)
Definition clickPause (t : Tray) : Tray * list TraySignal := (setPaused (negb (tr_paused t)) t, [TsPauseToggled (negb (tr_paused t))]).
Definition onActivated (r : ActivationReason) : list TraySignal := match r with ArTrigger | ArDoubleClick => [TsShowWindow] | _ => [] end.

(** Seconds since the last sample. *)
Definition trayDt (nowMs : Z) (t : Tray) : double :=
  let deltaMs := (nowMs - tr_lastMs t)%Z in if (0 <? deltaMs)%Z then ddiv (dofZ deltaMs) (dofZ 1000) else dofZ 1.
(** Differences of [quint64]s wrap. *)
Definition trayRates (prev : gmap QString InterfaceStats) (dt : double) (s : InterfaceStats) : double * double :=
  match prev !! if_name s with
  | Some p => (ddiv (dofZ (u64 (if_rxBytes s - if_rxBytes p))) dt, ddiv (dofZ (u64 (if_txBytes s - if_txBytes p))) dt)
  | None => (dzero, dzero)
  end.

Section Tooltip.
Context `{QtNumberText}.

Definition trayLine (name : QString) (rates : double * double) : option QString :=
  rx ← formatByteRate (fst rates); tx ← formatByteRate (snd rates);
  Some (qargs (qs "%1: " ++ [8595; 32]%Z ++ qs "%2 " ++ [8593; 32]%Z ++ qs "%3") [name; rx; tx]).
Definition totalLine (rates : double * double) : option QString :=
  rx ← formatByteRate (fst rates); tx ← formatByteRate (snd rates);
  Some (qargs (qs "Total: " ++ [8595; 32]%Z ++ qs "%1   " ++ [8593; 32]%Z ++ qs "%2") [rx; tx]).

(** One turn of the loop: the sums and the lines so far. *)
Definition trayTurn (prev : gmap QString InterfaceStats) (dt : double) (selected : list QString)
    (acc : (double * double) * option (list QString)) (s : InterfaceStats) : (double * double) * option (list QString) :=
  let '((totalRx, totalTx), lines) := acc in
  let '(rx, tx) := trayRates prev dt s in
  (if if_isLoopback s then (totalRx, totalTx) else (dadd totalRx rx, dadd totalTx tx),
   if bool_decide (if_name s ∈ selected) then ls ← lines; l ← trayLine (if_name s) (rx, tx); Some (ls ++ [l]) else lines).

Definition trayLines (nowMs : Z) (stats : list InterfaceStats) (selected : list QString) (t : Tray) : option (list QString) :=
  let '(total, perIf) := foldl (trayTurn (tr_prev t) (trayDt nowMs t) selected) ((dzero, dzero), Some []) stats in
  ls ← perIf; l ← totalLine total; Some (l :: if isEmpty ls then [] else [] :: ls).

Definition rebuildTooltip (nowMs : Z) (stats : list InterfaceStats) (selected : list QString) (t : Tray) : Tray :=
  let tip := qjoin [10%Z] <$> trayLines nowMs stats selected t in
  if isEmpty stats then mkTray (tr_prev t) (tr_lastMs t) (tr_paused t) tip
  else mkTray (indexByName stats) nowMs (tr_paused t) tip.

Definition trayStats : Z -> list InterfaceStats -> list QString -> Tray -> Tray := rebuildTooltip.
(** [Settings::changed]. *)
Definition traySettingsChanged (nowMs : Z) (selected : list QString) (t : Tray) : Tray :=
  if bool_decide (tr_prev t = ∅) then t else rebuildTooltip nowMs [] selected t.

Inductive TrayEvent := TvStats (nowMs : Z) (stats : list InterfaceStats) (selected : list QString) | TvSettings (nowMs : Z) (selected : list QString) | TvPaused (b : bool) | TvClick.
Definition trayStep (e : TrayEvent) (t : Tray) : Tray :=
  match e with
  | TvStats now stats sel => trayStats now stats sel t
  | TvSettings now sel => traySettingsChanged now sel t
  | TvPaused b => setPaused b t
  | TvClick => fst (clickPause t)
  end.
Definition runTray (es : list TrayEvent) (t : Tray) : Tray := foldl (fun t e => trayStep e t) t es.

(** The samples among the events. *)
Definition samplesOf (es : list TrayEvent) : list (Z * list InterfaceStats) :=
  omap (fun e => match e with TvStats now stats _ => if isEmpty stats then None else Some (now, stats) | _ => None end) es.

(* ------------------------------------------------------------------ *)
(** ** The tooltip *)

Lemma trayStep_sample e t :
  match samplesOf [e] with
  | [] => tr_prev (trayStep e t) = tr_prev t /\ tr_lastMs (trayStep e t) = tr_lastMs t
  | (now, stats) :: _ => tr_prev (trayStep e t) = indexByName stats /\ tr_lastMs (trayStep e t) = now
  end.
Proof.
  destruct e as [now stats sel|now sel|b|]; try done.
  - cbn. unfold trayStats, rebuildTooltip. by destruct stats.
  - cbn. unfold traySettingsChanged, rebuildTooltip. case_bool_decide; done.
Qed.

(** Whatever happens in between, rates are computed against the last sample
    that named an interface, and over the time since that sample: a change of
    the preferences or an empty sample forgets nothing. *)
Theorem tray_keeps_sample es :
  let t := runTray es newTray in
  match last (samplesOf es) with
  | Some (now, stats) => tr_prev t = indexByName stats /\ tr_lastMs t = now
  | None => tr_prev t = ∅ /\ tr_lastMs t = 0%Z
  end.
Proof.
  cbv zeta. induction es as [|e es IH] using rev_ind; [done|]. unfold runTray, samplesOf in *. rewrite foldl_app, omap_app. cbn [foldl].
  set (t := foldl (fun t e => trayStep e t) newTray es) in *. pose proof (trayStep_sample e t) as He. unfold samplesOf in He.
  destruct (omap _ [e]) as [|[now stats] l] eqn:Eo.
  - rewrite app_nil_r. destruct He as [-> ->]. exact IH.
  - assert (l = []) as -> by (cbn in Eo; repeat case_match; congruence). rewrite last_snoc. exact He.
Qed.

Lemma trayTurn_lines prev dt sel stats total ls ls' :
  mapM (fun s => trayLine (if_name s) (trayRates prev dt s)) (filter (fun s => if_name s ∈ sel) stats) = Some ls' ->
  exists total', foldl (trayTurn prev dt sel) (total, Some ls) stats = (total', Some (ls ++ ls')).
Proof.
  revert total ls ls'. induction stats as [|s stats IH]; intros total ls ls' Hm.
  - cbn in Hm. injection Hm as <-. exists total. by rewrite app_nil_r.
  - rewrite filter_cons in Hm. cbn [foldl]. unfold trayTurn at 2. destruct total as [totalRx totalTx].
    destruct (trayRates prev dt s) as [rx tx] eqn:Er. case_decide as Hin.
    + rewrite bool_decide_eq_true_2 by done. apply mapM_Some_1 in Hm. inversion Hm as [|? l ? ls2 Hl Hrest]; subst. cbn beta in Hl. rewrite Er in Hl.
      cbn [mbind option_bind]. rewrite Hl. cbn [mbind option_bind]. apply mapM_Some_2 in Hrest.
      destruct (IH (if if_isLoopback s then (totalRx, totalTx) else (dadd totalRx rx, dadd totalTx tx)) (ls ++ [l]) ls2 Hrest) as [total' ->].
      exists total'. by rewrite <- app_assoc.
    + rewrite bool_decide_eq_false_2 by done. by apply IH.
Qed.

(** The tooltip lists exactly the chosen interfaces of the sample, in its
    order, each with its own rates, under the line of the totals. *)
Theorem tooltip_lists_chosen nowMs stats sel t lines :
  trayLines nowMs stats sel t = Some lines ->
  exists total ls, lines = total :: (if isEmpty ls then [] else [] :: ls) /\
    mapM (fun s => trayLine (if_name s) (trayRates (tr_prev t) (trayDt nowMs t) s)) (filter (fun s => if_name s ∈ sel) stats) = Some ls.
Proof.
  unfold trayLines. set (prev := tr_prev t). set (dt := trayDt nowMs t).
  assert (Hgo : forall total ls, match mapM (fun s => trayLine (if_name s) (trayRates prev dt s)) (filter (fun s => if_name s ∈ sel) stats) with
      | Some ls' => exists total', foldl (trayTurn prev dt sel) (total, Some ls) stats = (total', Some (ls ++ ls'))
      | None => exists total', foldl (trayTurn prev dt sel) (total, Some ls) stats = (total', None) end).
  { intros total ls. destruct (mapM _ _) as [ls'|] eqn:Em; [by apply trayTurn_lines|]. revert total ls Em.
    assert (Hnone : forall stats total, exists total', foldl (trayTurn prev dt sel) (total, None) stats = (total', None)).
    { intros st. induction st as [|s st IHs]; intros total; [by eexists|]. cbn [foldl]. unfold trayTurn at 2. destruct total, (trayRates prev dt s). case_bool_decide; apply IHs. }
    induction stats as [|s stats IH]; intros total ls Em; [done|]. rewrite filter_cons in Em. cbn [foldl]. unfold trayTurn at 2. destruct total as [a b].
    destruct (trayRates prev dt s) as [rx tx] eqn:Er. case_decide as Hin.
    - rewrite bool_decide_eq_true_2 by done. cbn [mapM] in Em. rewrite Er in Em. cbn [mbind option_bind].
      destruct (trayLine (if_name s) (rx, tx)) as [l|]; cbn [mbind option_bind] in *; [|apply Hnone].
      destruct (mapM _ _) eqn:Em2 in Em; [discriminate Em|]. by apply IH.
    - rewrite bool_decide_eq_false_2 by done. by apply IH. }
  specialize (Hgo (dzero, dzero) []). destruct (mapM _ _) as [ls'|]; destruct Hgo as [total' ->]; [|done].
  cbn [app mbind option_bind]. destruct (totalLine total') as [tl|]; [|done]. intros [= <-]. by exists tl, ls'.
Qed.

(** A change of the preferences rebuilds the tooltip from no sample at all:
    until the next one it says that nothing flows and names no interface,
    whichever are chosen. *)
Theorem settings_blank_tooltip nowMs sel t :
  tr_prev t <> ∅ ->
  tr_tooltip (traySettingsChanged nowMs sel t) = Some (qs "Total: " ++ [8595; 32]%Z ++ qs "0 B/s   " ++ [8593; 32]%Z ++ qs "0 B/s").
Proof.
  intros Hp. unfold traySettingsChanged. rewrite bool_decide_eq_false_2 by done. reflexivity.
Qed.
End Tooltip.

(* ------------------------------------------------------------------ *)
(** ** Against the interface table *)

Lemma u64_diff a b : in_u64 a -> in_u64 b -> (b <= a)%Z -> u64 (a - b) = (a - b)%Z.
Proof. intros Ha Hb Hle. apply u64_small. unfold in_u64 in *. lia. Qed.

Definition countersGrew (prev : gmap QString InterfaceStats) (s : InterfaceStats) : Prop :=
  forall p, prev !! if_name s = Some p ->
    in_u64 (if_rxBytes p) /\ in_u64 (if_rxBytes s) /\ (if_rxBytes p <= if_rxBytes s)%Z /\
    in_u64 (if_txBytes p) /\ in_u64 (if_txBytes s) /\ (if_txBytes p <= if_txBytes s)%Z.

Lemma trayRates_row prev dt s :
  countersGrew prev s -> trayRates prev dt s = (ir_rxRate (rateRow prev dt dzero dzero s), ir_txRate (rateRow prev dt dzero dzero s)).
Proof.
  intros Hg. unfold trayRates, rateRow. destruct (prev !! if_name s) as [p|] eqn:Ep; [|done]. destruct (Hg p Ep) as (? & ? & ? & ? & ? & ?).
  cbn [ir_rxRate ir_txRate]. unfold byteRate. rewrite !u64_diff by done. do 2 (destruct (Z.leb_spec (if_rxBytes p) (if_rxBytes s)); [|lia]).
  by destruct (Z.leb_spec (if_txBytes p) (if_txBytes s)); [|lia].
Qed.

Lemma indexByName_lookup l k s : NoDup (map if_name l) -> indexByName l !! k = Some s <-> s ∈ l /\ if_name s = k.
Proof.
  unfold indexByName. induction l as [|x l IH] using rev_ind; [intros _; split; [done|by intros [?%elem_of_nil _]]|].
  rewrite map_app, foldl_app. intros (Hl & Hd & _)%NoDup_app. cbn [foldl map] in *. rewrite elem_of_app, list_elem_of_singleton.
  assert (Hx : forall y, y ∈ l -> if_name y <> if_name x).
  { intros y Hy He. apply (Hd (if_name y)); [by apply list_elem_of_fmap_2|]. rewrite He. by apply list_elem_of_singleton. }
  destruct (decide (if_name x = k)) as [<-|Hne].
  - rewrite lookup_insert_eq. split; [intros [= <-]; auto|]. intros [[Hs| ->] He]; [by destruct (Hx s)|done].
  - rewrite lookup_insert_ne, IH by done. split; [naive_solver|]. intros [[Hs| ->] He]; done.
Qed.

Lemma indexByName_perm l l' : NoDup (map if_name l) -> l ≡ₚ l' -> indexByName l = indexByName l'.
Proof.
  intros Hn Hp. assert (Hn' : NoDup (map if_name l')) by (by rewrite <- Hp). apply map_eq. intros k. apply option_eq. intros s.
  rewrite !indexByName_lookup by done. by rewrite Hp.
Qed.

Section Agree.
Context `{QtNumberText, StdSortLaws}.

(** Both fed with the same samples. *)
Definition feedBoth (sel : list QString) (ta : Tray * InterfaceAggregator) (x : Z * list InterfaceStats) : Tray * InterfaceAggregator :=
  (trayStats (fst x) (snd x) sel (fst ta), fst (updateStats (fst x) (snd x) (snd ta))).

Definition inStepWith (t : Tray) (a : InterfaceAggregator) : Prop := iface_ok a /\ tr_prev t = ia_prev a /\ tr_lastMs t = ia_lastElapsedMs a.

Lemma feedBoth_step sel t a now stats :
  stats <> [] -> NoDup (map if_name stats) -> inStepWith t a -> inStepWith (fst (feedBoth sel (t, a) (now, stats))) (snd (feedBoth sel (t, a) (now, stats))).
Proof.
  intros Hne Hnd (Hok & Hp & Hl). pose proof (updateStats_exact now stats a Hok) as Hu. cbn [feedBoth fst snd]. unfold inStepWith.
  assert (Hlast : ia_lastElapsedMs (fst (updateStats now stats a)) = now) by (unfold updateStats; by destruct (structureChanged _ _)).
  destruct (updateStats now stats a) as [a' sigs]. destruct Hu as (Hok' & Hperm & _). cbn [fst] in *. unfold trayStats, rebuildTooltip. destruct stats as [|s0 stats]; [done|].
  cbn [isEmpty tr_prev tr_lastMs]. split_and!; [done| |done]. rewrite Hok'. symmetry in Hperm. by apply indexByName_perm.
Qed.

(** Fed with the same samples, the tray and the table show the same rates for
    every interface whose counters did not go back, after any history. *)
Theorem tray_agrees_with_table sel history now stats r :
  Forall (fun x => snd x <> [] /\ NoDup (map if_name (snd x))) history ->
  let '(t, a) := foldl (feedBoth sel) (newTray, newIfaceAgg) history in
  r ∈ ia_rows (fst (updateStats now stats a)) -> countersGrew (tr_prev t) (ir_current r) ->
  trayRates (tr_prev t) (trayDt now t) (ir_current r) = (ir_rxRate r, ir_txRate r).
Proof.
  intros Hh. assert (Hin : let ta := foldl (feedBoth sel) (newTray, newIfaceAgg) history in inStepWith (fst ta) (snd ta)).
  { cbv zeta. assert (Hgo : forall ta, inStepWith (fst ta) (snd ta) -> inStepWith (fst (foldl (feedBoth sel) ta history)) (snd (foldl (feedBoth sel) ta history))).
    { induction Hh as [|[n st] l [Hne Hnd] _ IH]; intros [t a] Hta; [done|]. cbn [foldl]. apply IH. by apply feedBoth_step. }
    by apply Hgo. }
  destruct (foldl (feedBoth sel) (newTray, newIfaceAgg) history) as [t a]. destruct Hin as (Hok & Hp & Hl). cbn [fst snd] in *. intros Hr Hg.
  pose proof (updateStats_exact now stats a Hok) as Hu. destruct (updateStats now stats a) as [a' sigs]. destruct Hu as (_ & _ & _ & Hrows & _).
  rewrite Forall_forall in Hrows. specialize (Hrows r Hr). rewrite trayRates_row by done. unfold trayDt. rewrite Hp, Hl. by rewrite <- Hrows.
Qed.
End Agree.

(** When a counter goes back (an interface that was taken down and made again),
    the table shows no rate and the tray one near 2^64 bytes. *)
Theorem tray_reset_spikes prev dt s p :
  prev !! if_name s = Some p -> in_u64 (if_rxBytes p) -> in_u64 (if_rxBytes s) -> (if_rxBytes s < if_rxBytes p)%Z ->
  fst (trayRates prev dt s) = ddiv (dofZ (two64 - (if_rxBytes p - if_rxBytes s))) dt /\ ir_rxRate (rateRow prev dt dzero dzero s) = dzero.
Proof.
  intros Hp H1 H2 Hlt. unfold trayRates, rateRow. rewrite Hp. cbn [fst ir_rxRate]. unfold byteRate. destruct (Z.leb_spec (if_rxBytes p) (if_rxBytes s)); [lia|]. split; [|done].
  f_equal. f_equal. unfold u64, in_u64 in *. rewrite <- (Z_mod_plus_full _ 1). rewrite Z.mod_small by lia. lia.
Qed.

(* ------------------------------------------------------------------ *)
(** ** The pause entry and the window *)

Definition trayPauses (es : list WEffect) : list bool := omap (fun x => match x with WeTrayPaused b => Some b | _ => None end) es.

Section Shell.
Context `{QtUnicode, QtAddrText, QtRegex, QtToDouble, QtNumberText}.

Record Shell := mkShell { sh_window : Window; sh_tray : Tray }.
(** What the window does, or a click on the tray's entry: the signal of the
    entry has no other origin. *)
Inductive ShellEvent := ShWindow (e : WEvent) | ShClickPause.

Definition told (es : list WEffect) (t : Tray) : Tray := foldl (fun t b => setPaused b t) t (trayPauses es).
Definition shellStep (e : ShellEvent) (s : Shell) : Shell :=
  match e with
  | ShWindow (EvTrayPause _) => s
  | ShWindow e => let '(w, es) := windowStep e (sh_window s) in mkShell w (told es (sh_tray s))
  | ShClickPause =>
      let '(t, sigs) := clickPause (sh_tray s) in
      foldl (fun s sig => match sig with
             | TsPauseToggled b => let '(w, es) := windowStep (EvTrayPause b) (sh_window s) in mkShell w (told es (sh_tray s))
             | _ => s end) (mkShell (sh_window s) t) sigs
  end.
Definition runShell (es : list ShellEvent) (s : Shell) : Shell := foldl (fun s e => shellStep e s) s es.

(** The tray is told nothing and nothing changes, or it is told the window's
    new state; the window never leaves the proxy mode. *)
Definition pauseStep (w : Window) (r : Window * list WEffect) : Prop :=
  wi_proxyMode (fst r) = false -> wi_proxyMode w = false /\
  (trayPauses (snd r) = [] /\ wi_paused (fst r) = wi_paused w \/ trayPauses (snd r) = [wi_paused (fst r)]).

Lemma hints_no_pause r : trayPauses (assertHints r) = [].
Proof. unfold assertHints. by destruct (isEmpty _). Qed.
Lemma apply_pauseStep w0 w : wi_proxyMode w = wi_proxyMode w0 -> wi_paused w = wi_paused w0 -> pauseStep w0 (applySettingsToUi w).
Proof.
  intros Hx Hp. unfold pauseStep, applySettingsToUi. destruct (applySettings_flat 1 w) as (proxy & -> & _). cbn [fst snd with_filter with_heartbeat pushSettings wi_proxyMode wi_paused].
  intros Hm. split; [congruence|left]. split; [|congruence]. destruct (wi_visible w); [apply hints_no_pause|done].
Qed.
Lemma change_pauseStep c w : pauseStep w (changeSetting c w).
Proof. unfold changeSetting. destruct (applyCall c (wi_settings w)) as [st []]; [by apply apply_pauseStep|]. split; [done|by left]. Qed.
Lemma refresh_pauseStep w0 w : wi_proxyMode w = wi_proxyMode w0 -> wi_paused w = wi_paused w0 -> pauseStep w0 (refreshAgentHeartbeat w).
Proof.
  intros Hx Hp. unfold pauseStep, refreshAgentHeartbeat. destruct (negb (wi_visible w)); cbn [fst snd with_heartbeat wi_proxyMode wi_paused]; intros; (split; [congruence|left]);
    (split; [done || apply hints_no_pause|done]).
Qed.
Lemma toggle_pauseStep b w : pauseStep w (togglePaused b w).
Proof. unfold togglePaused. destruct (Bool.eqb b (wi_paused w)) eqn:E; (split; [done|]); [by left|]. right. done. Qed.

Lemma windowStep_pause e w : pauseStep w (windowStep e w).
Proof.
  assert (Htriv : forall w' es, wi_proxyMode w' = wi_proxyMode w -> wi_paused w' = wi_paused w -> trayPauses es = [] -> pauseStep w (w', es)).
  { intros w' es Hx Hp He. unfold pauseStep. cbn [fst snd]. intros. split; [congruence|by left]. }
  destruct e; cbn [windowStep]; try (by apply Htriv); try (by apply change_pauseStep); try (by apply toggle_pauseStep); try (by apply refresh_pauseStep); try (by apply apply_pauseStep).
  - unfold filterShot, applyConnFilterExpr. destruct (setFilterExpression _ _) as [[proxy b] err]. destruct (isEmpty err); [|by apply Htriv].
    destruct (setConnectionFilterExpr _ _) as [st' []]; [by apply apply_pauseStep|by apply Htriv].
  - unfold heartbeatShot. apply Htriv; [done..|]. destruct (wi_heartbeat w); [apply hints_no_pause|done].
  - unfold closeEvent, hideEvent. pose proof (refresh_pauseStep w (set_visible false w) eq_refl eq_refl) as Hr. destruct (negb (wi_explicitQuit w) && _ && _); [exact Hr|].
    destruct (refreshAgentHeartbeat (set_visible false w)) as [w' es]. exact Hr.
  - unfold trayShow. destruct (wi_proxyMode w) eqn:Ex; [by apply Htriv|by apply refresh_pauseStep].
  - unfold trayPause. destruct (wi_proxyMode w) eqn:Ex; [by apply Htriv|apply toggle_pauseStep].
  - unfold trayQuit. destruct (wi_proxyMode w) eqn:Ex; by apply Htriv.
  - unfold onStatsUpdated. destruct (wi_proxyMode w) eqn:Ex; [by apply Htriv|]. apply Htriv; [done..|]. unfold updateStatusBar. destruct (statusTotals l) as [[? ?] ?]. by destruct (wi_paused w).
  - unfold onConnectionsUpdated. apply Htriv; [done..|]. by destruct (wi_paused w).
  - unfold onConnectionsAttributionRefined. apply Htriv; [done..|]. by destruct (wi_paused w).
  - unfold onAccountingUnavailable. destruct (bannerVisible onConnTab w); by apply Htriv.
  - unfold onExpanded. destruct (groupExpanded pid comm (wi_details w)) as [d []]; by apply Htriv.
  - unfold chooseEagerness. destruct (eagernessData !! i) as [m|]; [|by apply Htriv]. pose proof (change_pauseStep (CStr PfAttributionEagerness m) w) as Hc.
    destruct (changeSetting (CStr PfAttributionEagerness m) w) as [w' es]. unfold pauseStep in *. cbn [fst snd] in *. unfold trayPauses in *. rewrite omap_app. cbn. by rewrite app_nil_r.
  - unfold pauseStep, onChildReady, hideEvent, refreshAgentHeartbeat. cbn. done.
  - unfold onChildStats. apply Htriv; [done..|]. by destruct (wi_proxyMode w).
  - unfold onChildPauseState, pauseStep. cbn [fst snd]. intros ->. split; [done|by left].
  - unfold onChildDisconnected. destruct (wi_proxyMode w) eqn:Ex; by apply Htriv.
Qed.

Lemma told_spec w es t w' : pauseStep w (w', es) -> wi_proxyMode w' = false -> tr_paused t = wi_paused w -> wi_proxyMode w = false /\ tr_paused (told es t) = wi_paused w'.
Proof. intros Hs Hx Ht. destruct (Hs Hx) as [Hw [[He Hp]|He]]; cbn [fst snd] in *; (split; [done|]); unfold told; rewrite He; cbn; congruence. Qed.

(** Unless a privileged copy has taken over, the tray's pause entry is checked
    exactly when the window is paused, whichever of the two was used. *)
Theorem pause_in_step st tray es :
  let s := runShell es (mkShell (fst (newWindow st tray)) newTray) in
  wi_proxyMode (sh_window s) = false -> tr_paused (sh_tray s) = wi_paused (sh_window s).
Proof.
  assert (Hgo : forall s, (wi_proxyMode (sh_window s) = false -> tr_paused (sh_tray s) = wi_paused (sh_window s)) ->
    wi_proxyMode (sh_window (runShell es s)) = false -> tr_paused (sh_tray (runShell es s)) = wi_paused (sh_window (runShell es s))).
  { induction es as [|e es IH]; intros s Hs; [exact Hs|]. cbn [runShell foldl]. apply IH. clear IH.
    assert (Hw : forall e, wi_proxyMode (sh_window (let '(w, fx) := windowStep e (sh_window s) in mkShell w (told fx (sh_tray s)))) = false ->
      tr_paused (sh_tray (let '(w, fx) := windowStep e (sh_window s) in mkShell w (told fx (sh_tray s)))) = wi_paused (sh_window (let '(w, fx) := windowStep e (sh_window s) in mkShell w (told fx (sh_tray s))))).
    { intros e'. pose proof (windowStep_pause e' (sh_window s)) as Hp. destruct (windowStep e' (sh_window s)) as [w' fx]. cbn [sh_window sh_tray]. intros Hx.
      destruct (Hp Hx) as [Hw _]. by apply (told_spec _ _ _ _ Hp Hx (Hs Hw)). }
    destruct e as [e|].
    - destruct e; try apply Hw. exact Hs.
    - cbn [shellStep clickPause foldl sh_window sh_tray windowStep]. unfold trayPause. destruct (wi_proxyMode (sh_window s)) eqn:Ex.
      + cbn [sh_window sh_tray]. rewrite Ex. discriminate.
      + intros _. specialize (Hs eq_refl). unfold togglePaused. rewrite <- Hs. by destruct (tr_paused (sh_tray s)). }
  apply Hgo. intros _. unfold newWindow, applySettingsToUi. cbn [sh_window sh_tray]. match goal with |- context [applySettings 2 ?w] => destruct (applySettings_flat 1 w) as (proxy & -> & _) end. reflexivity.
Qed.
End Shell.

(* ------------------------------------------------------------------ *)
(** ** Examples *)

#[local] Instance wholeNumberText : QtNumberText := fun d _ => match dtrunc d with Some z => number z | None => qs "?" end.

Definition firstSample : list InterfaceStats := [sampleIface "eth0" 1000; sampleIface "wlan0" 0].
Definition afterSample : Tray := runTray [TvStats 1000 firstSample [qs "eth0"]] newTray.

Lemma tooltip_lists_chosen_witness :
  exists total ls, trayLines 2000 [sampleIface "eth0" 3000; sampleIface "wlan0" 0] [qs "eth0"] afterSample = Some (total :: [] :: ls) /\ length ls = 1%nat.
Proof.
  destruct (tooltip_lists_chosen 2000 [sampleIface "eth0" 3000; sampleIface "wlan0" 0] [qs "eth0"] afterSample
    (default [] (trayLines 2000 [sampleIface "eth0" 3000; sampleIface "wlan0" 0] [qs "eth0"] afterSample)) ltac:(vm_compute; reflexivity)) as (total & ls & Hl & Hm).
  assert (Hls : length ls = 1%nat) by (vm_compute in Hm; injection Hm as <-; reflexivity).
  exists total, ls. split; [|exact Hls]. destruct ls as [|l ls]; [discriminate Hls|]. cbn [isEmpty] in Hl. rewrite <- Hl. vm_compute. reflexivity.
Defined.

Lemma settings_blank_tooltip_witness :
  tr_tooltip (traySettingsChanged 1500 [qs "eth0"] afterSample) = Some (qs "Total: " ++ [8595; 32]%Z ++ qs "0 B/s   " ++ [8593; 32]%Z ++ qs "0 B/s").
Proof. apply settings_blank_tooltip. vm_compute. discriminate. Defined.

Lemma tray_agrees_with_table_witness :
  let '(t, a) := foldl (feedBoth []) (newTray, newIfaceAgg) [(1000%Z, firstSample)] in
  exists r, r ∈ ia_rows (fst (updateStats 2000 [sampleIface "eth0" 3000] a)) /\
    trayRates (tr_prev t) (trayDt 2000 t) (ir_current r) = (ir_rxRate r, ir_txRate r) /\ ir_rxRate r = dofZ 2000.
Proof.
  pose proof (fun r => tray_agrees_with_table [] [(1000%Z, firstSample)] 2000 [sampleIface "eth0" 3000] r) as Ht.
  assert (Hh : Forall (fun x : Z * list InterfaceStats => snd x <> [] /\ NoDup (map if_name (snd x))) [(1000%Z, firstSample)]).
  { apply Forall_singleton. split; [done|]. apply (bool_decide_unpack _). vm_compute. exact I. }
  set (r := default (mkIfaceRow (sampleIface "eth0" 3000) dzero dzero)
    (head (ia_rows (fst (updateStats 2000 [sampleIface "eth0" 3000] (snd (foldl (feedBoth []) (newTray, newIfaceAgg) [(1000%Z, firstSample)]))))))).
  specialize (Ht r Hh). destruct (foldl (feedBoth []) (newTray, newIfaceAgg) [(1000%Z, firstSample)]) as [t a] eqn:E. exists r.
  vm_compute in E. injection E as <- <-. assert (Hr : r ∈ ia_rows (fst (updateStats 2000 [sampleIface "eth0" 3000] (mkIfaceAgg (map (fun s => mkIfaceRow s dzero dzero) firstSample) (indexByName firstSample) 1000)))).
  { apply list_elem_of_In. vm_compute. by left. }
  split_and!; [exact Hr| |vm_compute; reflexivity]. apply Ht; [exact Hr|].
  intros p Hp. vm_compute in Hp. injection Hp as <-. vm_compute. by split_and!.
Defined.

Lemma tray_reset_spikes_witness :
  fst (trayRates (indexByName firstSample) (dofZ 1) (sampleIface "eth0" 0)) = ddiv (dofZ (two64 - (1000 - 0))) (dofZ 1).
Proof.
  apply (tray_reset_spikes (indexByName firstSample) (dofZ 1) (sampleIface "eth0" 0) (sampleIface "eth0" 1000)); [vm_compute; reflexivity|unfold in_u64, two64; cbn; lia..].
Defined.

Lemma pause_in_step_witness :
  let s := runShell [ShWindow EvShow; ShClickPause] (mkShell (fst (newWindow (mkSettings true ∅ defaultPrefs) true)) newTray) in tr_paused (sh_tray s) = wi_paused (sh_window s).
Proof. exact (pause_in_step (mkSettings true ∅ defaultPrefs) true [ShWindow EvShow; ShClickPause] eq_refl). Defined.
