(* ===== verification/GuiTheme.v ===== *)
(** * Colour themes of the graphical frontend: [src/ui/GuiTheme.{h,cpp}]

    The built-in themes with their colours, the palette made from them, the
    lookup by name, and the switch between themes over the look the system
    had.

    [QColor::lighter] and [darker], the style factory and the application's
    style and palette are Qt's: the first are parameters, the look is the name
    of the style in force with its palette. *)

From S2P Require Import Prelude Qt.

(** A colour as 0xRRGGBB. *)
Abbreviation Rgb := Z (only parsing).

Record ThemeColors := mkThemeColors {
  tc_window : Rgb; tc_windowText : Rgb; tc_base : Rgb; tc_alternate : Rgb; tc_text : Rgb; tc_button : Rgb; tc_buttonText : Rgb; tc_brightText : Rgb;
  tc_highlight : Rgb; tc_highlightText : Rgb; tc_tooltipBase : Rgb; tc_tooltipText : Rgb; tc_placeholder : Rgb; tc_link : Rgb; tc_disabledText : Rgb;
}.

Inductive PaletteRole :=
| RoleWindow | RoleWindowText | RoleBase | RoleAlternateBase | RoleText | RoleButton | RoleButtonText | RoleBrightText | RoleHighlight | RoleHighlightedText | RoleToolTipBase | RoleToolTipText
| RolePlaceholderText | RoleLink | RoleLight | RoleMidlight | RoleMid | RoleDark | RoleShadow.
#[global] Instance PaletteRole_eq_dec : EqDecision PaletteRole. Proof. solve_decision. Defined.
Inductive ColorGroup := GroupActive | GroupInactive | GroupDisabled.
#[global] Instance ColorGroup_eq_dec : EqDecision ColorGroup. Proof. solve_decision. Defined.

(** A palette is what was assigned, in order; [None] stands for all groups. *)
Abbreviation Palette := (list (option ColorGroup * PaletteRole * Rgb)).
Definition paletteColor (p : Palette) (g : ColorGroup) (r : PaletteRole) : option Rgb :=
  foldl (fun acc x => let '(og, r', c) := x in if decide (r' = r /\ (og = None \/ og = Some g)) then Some c else acc) None p.

Class QtShades := { lighter : Rgb -> Z -> Rgb; darker : Rgb -> Z -> Rgb }.

Section Palette.
Context `{QtShades}.

Definition buildPalette (c : ThemeColors) : Palette :=
  [(None, RoleWindow, tc_window c); (None, RoleWindowText, tc_windowText c); (None, RoleBase, tc_base c); (None, RoleAlternateBase, tc_alternate c); (None, RoleText, tc_text c);
   (None, RoleButton, tc_button c); (None, RoleButtonText, tc_buttonText c); (None, RoleBrightText, tc_brightText c); (None, RoleHighlight, tc_highlight c);
   (None, RoleHighlightedText, tc_highlightText c); (None, RoleToolTipBase, tc_tooltipBase c); (None, RoleToolTipText, tc_tooltipText c);
   (None, RolePlaceholderText, tc_placeholder c); (None, RoleLink, tc_link c);
   (None, RoleLight, lighter (tc_button c) 140); (None, RoleMidlight, lighter (tc_button c) 115); (None, RoleMid, darker (tc_button c) 130);
   (None, RoleDark, darker (tc_button c) 160); (None, RoleShadow, darker (tc_button c) 220);
   (Some GroupDisabled, RoleText, tc_disabledText c); (Some GroupDisabled, RoleWindowText, tc_disabledText c); (Some GroupDisabled, RoleButtonText, tc_disabledText c);
   (Some GroupDisabled, RoleHighlightedText, tc_disabledText c); (Some GroupDisabled, RoleHighlight, darker (tc_highlight c) 150); (Some GroupDisabled, RoleBase, tc_base c);
   (Some GroupDisabled, RoleWindow, tc_window c); (Some GroupDisabled, RolePlaceholderText, tc_disabledText c)].

(** The default palette and invalid accents are what [GuiTheme t;] leaves. *)
Record GuiTheme := mkGuiTheme { gt_name : QString; gt_followSystem : bool; gt_palette : Palette; gt_flowSource : option Rgb; gt_flowDest : option Rgb }.

Definition named (name : string) (c : ThemeColors) (source dest : Rgb) : GuiTheme := mkGuiTheme (qs name) false (buildPalette c) (Some source) (Some dest).

Definition systemTheme : GuiTheme := mkGuiTheme (qs "System") true [] None None.
Definition darkColors : ThemeColors := mkThemeColors 0x2b2b2b 0xe6e6e6 0x1e1e1e 0x262626 0xe6e6e6 0x353535 0xe6e6e6 0xffffff 0x3d6fb5 0xffffff 0x353535 0xe6e6e6 0x9aa0a6 0x6cb6ff 0x6b6b6b.
Definition lightColors : ThemeColors := mkThemeColors 0xf0f0f0 0x202020 0xffffff 0xf5f5f5 0x202020 0xe6e6e6 0x202020 0xffffff 0x2d6fb5 0xffffff 0xffffdc 0x202020 0x6b7178 0x0b5fa5 0xa0a0a0.
Definition nordColors : ThemeColors := mkThemeColors 0x2e3440 0xeceff4 0x272c36 0x3b4252 0xe5e9f0 0x3b4252 0xeceff4 0xffffff 0x5e81ac 0xeceff4 0x3b4252 0xeceff4 0x8a93a5 0x88c0d0 0x616a7d.
Definition solarizedDarkColors : ThemeColors := mkThemeColors 0x002b36 0x93a1a1 0x073642 0x0a3a47 0x93a1a1 0x073642 0x93a1a1 0xfdf6e3 0x268bd2 0xfdf6e3 0x073642 0x93a1a1 0x586e75 0x268bd2 0x4a5d63.
Definition solarizedLightColors : ThemeColors := mkThemeColors 0xeee8d5 0x586e75 0xfdf6e3 0xeee8d5 0x586e75 0xeee8d5 0x586e75 0x002b36 0x268bd2 0xfdf6e3 0xfdf6e3 0x586e75 0x93a1a1 0x268bd2 0xb5ad95.
Definition gruvboxDarkColors : ThemeColors := mkThemeColors 0x282828 0xebdbb2 0x1d2021 0x32302f 0xebdbb2 0x3c3836 0xebdbb2 0xfbf1c7 0x458588 0xfbf1c7 0x3c3836 0xebdbb2 0x928374 0x83a598 0x665c54.

Definition builtinGuiThemes : list GuiTheme :=
  [systemTheme; named "Dark" darkColors 0x6CB6FF 0xF0B86E; named "Light" lightColors 0x0B5FA5 0xA0521B; named "Nord" nordColors 0x88C0D0 0xD08770;
   named "Solarized Dark" solarizedDarkColors 0x268BD2 0xCB4B16; named "Solarized Light" solarizedLightColors 0x268BD2 0xCB4B16;
   named "Gruvbox Dark" gruvboxDarkColors 0x83A598 0xFE8019].
End Palette.

(** Position of a name, without regard to case; -1 when there is none. *)
Fixpoint guiThemeIndexByName `{QtUnicode} (themes : list GuiTheme) (name : QString) : Z :=
  match themes with
  | [] => -1
  | t :: r => if qeqb (foldCase (gt_name t)) (foldCase name) then 0 else let i := guiThemeIndexByName r name in if (i <? 0)%Z then -1 else (i + 1)%Z
  end.
(** [std::max(idx, 0)], as every caller does. *)
Definition chosenTheme `{QtUnicode} (themes : list GuiTheme) (name : QString) : Z := Z.max (guiThemeIndexByName themes name) 0.

(* ------------------------------------------------------------------ *)
(** ** Switching *)

Record Look := mkLook { lk_style : QString; lk_palette : Palette }.
Record ThemeState := mkThemeState { ts_look : Look; ts_snapshot : option Look }.

Section Apply.
Context (creates : QString -> bool).     (* QStyleFactory::create *)

Definition captureSystemTheme (s : ThemeState) : ThemeState :=
  match ts_snapshot s with Some _ => s | None => mkThemeState (ts_look s) (Some (ts_look s)) end.
Definition setStyle (name : QString) (l : Look) : Look := if creates name then mkLook name (lk_palette l) else l.
Definition setPalette (p : Palette) (l : Look) : Look := mkLook (lk_style l) p.
Definition applyGuiTheme (t : GuiTheme) (s : ThemeState) : ThemeState :=
  let s := captureSystemTheme s in
  let snap := default (ts_look s) (ts_snapshot s) in
  let look :=
    if gt_followSystem t
    then setPalette (lk_palette snap) (if isEmpty (lk_style snap) then ts_look s else setStyle (lk_style snap) (ts_look s))
    else setPalette (gt_palette t) (setStyle (qs "Fusion") (ts_look s)) in
  mkThemeState look (ts_snapshot s).

(** The window applies a theme only when its name is another than the last. *)
Definition applyNamed (t : GuiTheme) (a : ThemeState * QString) : ThemeState * QString :=
  if qeqb (gt_name t) (snd a) then a else (applyGuiTheme t (fst a), gt_name t).

(* ------------------------------------------------------------------ *)
(** ** Correctness *)

Lemma applyGuiTheme_snapshot look s t : default (ts_look s) (ts_snapshot s) = look -> ts_snapshot (applyGuiTheme t s) = Some look.
Proof. unfold applyGuiTheme, captureSystemTheme. destruct s as [l [sn|]]; cbn; by intros ->. Qed.

Lemma themes_snapshot look ts s :
  default (ts_look s) (ts_snapshot s) = look -> let s' := foldl (fun s t => applyGuiTheme t s) s ts in default (ts_look s') (ts_snapshot s') = look.
Proof.
  revert s. induction ts as [|t ts IH]; intros s Hs; [done|]. cbn [foldl]. apply IH. by rewrite (applyGuiTheme_snapshot look).
Qed.

(** Whatever themes were tried, going back to the system's restores the style
    and the palette the application started with. *)
Theorem system_theme_restores `{QtShades} look ts :
  lk_style look <> [] -> creates (lk_style look) = true ->
  ts_look (foldl (fun s t => applyGuiTheme t s) (mkThemeState look None) (ts ++ [systemTheme])) = look.
Proof.
  intros Hn Hc. rewrite foldl_app. cbn [foldl]. pose proof (themes_snapshot look ts (mkThemeState look None) eq_refl) as Hs. cbv zeta in Hs.
  destruct (foldl _ _ ts) as [l sn]. unfold applyGuiTheme, captureSystemTheme. cbn [ts_look ts_snapshot] in *.
  destruct look as [style pal]. cbn [lk_style lk_palette] in *. destruct style as [|c style]; [done|].
  destruct sn as [x|]; cbn [default from_option id] in Hs; subst; cbn [ts_snapshot ts_look default from_option id gt_followSystem systemTheme lk_style lk_palette isEmpty]; unfold setStyle; by rewrite Hc.
Qed.

(** A theme that is in force already is not applied again. *)
Lemma applyNamed_twice t a : applyNamed t (applyNamed t a) = applyNamed t a.
Proof. unfold applyNamed. destruct (qeqb (gt_name t) (snd a)) eqn:E; [by rewrite E|]. cbn [snd]. assert (Hr : qeqb (gt_name t) (gt_name t) = true) by (by apply qeqb_eq). by rewrite Hr. Qed.
End Apply.

Definition isTextRole (r : PaletteRole) : bool := match r with RoleText | RoleWindowText | RoleButtonText | RoleHighlightedText | RolePlaceholderText => true | _ => false end.

(** In every palette made from colours every role has a colour in every group;
    text on a disabled widget is the grey one in each of its roles, and no
    other group has it. *)
Theorem palette_complete `{QtShades} c g r :
  is_Some (paletteColor (buildPalette c) g r) /\
  (isTextRole r = true -> paletteColor (buildPalette c) GroupDisabled r = Some (tc_disabledText c)) /\
  (g <> GroupDisabled -> paletteColor (buildPalette c) g r = paletteColor (buildPalette c) GroupActive r) /\
  (r <> RoleHighlight -> isTextRole r = false -> paletteColor (buildPalette c) g r = paletteColor (buildPalette c) GroupActive r).
Proof. destruct g, r; cbn; split_and!; by try eexists. Qed.

Lemma theme_found `{QtShades, QtUnicodeLaws} i t name :
  builtinGuiThemes !! i = Some t -> Forall isAscii name -> List.map ascii_lower name = List.map ascii_lower (gt_name t) ->
  chosenTheme builtinGuiThemes name = Z.of_nat i.
Proof.
  intros Hi Ha He. assert (Hfold : foldCase name = List.map ascii_lower name) by (by apply foldCase_ascii).
  unfold chosenTheme. assert (Hg : guiThemeIndexByName builtinGuiThemes name = Z.of_nat i); [|rewrite Hg; lia].
  cbn [guiThemeIndexByName builtinGuiThemes named gt_name systemTheme]. rewrite Hfold, He.
  rewrite !foldCase_ascii by (apply (bool_decide_unpack _); vm_compute; exact I).
  do 7 (destruct i as [|i]; [injection Hi as <-; vm_compute; reflexivity|]). done.
Qed.

(** Every built-in theme is found again by its name in any case, at its own
    place. *)
Theorem theme_names_found `{QtShades, QtUnicodeLaws} i t name :
  builtinGuiThemes !! i = Some t -> Forall isAscii name -> List.map ascii_lower name = List.map ascii_lower (gt_name t) ->
  chosenTheme builtinGuiThemes name = Z.of_nat i.
Proof. apply theme_found. Qed.

Lemma unknown_theme_system `{QtUnicode} themes name : (forall t, t ∈ themes -> foldCase (gt_name t) <> foldCase name) -> chosenTheme themes name = 0%Z.
Proof.
  intros Hn. unfold chosenTheme. assert (Hg : guiThemeIndexByName themes name = (-1)%Z); [|rewrite Hg; done].
  induction themes as [|t themes IH]; [done|]. cbn [guiThemeIndexByName]. destruct (qeqb _ _) eqn:E.
  - apply qeqb_eq in E. exfalso. apply (Hn t); [by left|done].
  - rewrite IH; [done|]. intros t' Ht'. apply Hn. by right.
Qed.

(* ------------------------------------------------------------------ *)
(** ** Examples *)

#[local] Instance plainShades : QtShades := {| lighter := fun c _ => c; darker := fun c _ => c |}.

Lemma system_theme_restores_witness :
  ts_look (foldl (fun s t => applyGuiTheme (fun _ => true) t s) (mkThemeState (mkLook (qs "Breeze") []) None) ([named "Dark" darkColors 0x6CB6FF 0xF0B86E] ++ [systemTheme])) = mkLook (qs "Breeze") [].
Proof. exact (system_theme_restores (fun _ => true) (mkLook (qs "Breeze") []) [named "Dark" darkColors 0x6CB6FF 0xF0B86E] ltac:(discriminate) eq_refl). Defined.

Lemma theme_names_found_witness : chosenTheme builtinGuiThemes (qs "nord") = 3%Z.
Proof.
  apply (theme_names_found 3 (named "Nord" nordColors 0x88C0D0 0xD08770)); [reflexivity| |reflexivity]. apply (bool_decide_unpack _). vm_compute. exact I.
Defined.

Lemma palette_complete_witness : paletteColor (buildPalette nordColors) GroupDisabled RoleText = Some 0x616a7d%Z.
Proof. exact (proj1 (proj2 (palette_complete nordColors GroupDisabled RoleText)) eq_refl). Defined.
