(* ===== verification/SettingsDialog.v ===== *)
(** * The preferences dialog: [src/ui/SettingsDialog.{h,cpp}]

    The working copy the dialog takes when it opens, what the user can edit in
    it, and the setters it calls when it is applied.

    The editors are Qt's: an integer spin box keeps its value within its range;
    the one for the smoothing time keeps two decimals, which is a class with
    what Qt documents of it.  A colour is what [QColor] makes of the forms the
    preferences admit. *)

From S2P Require Import Prelude Qt Units GuiModel Platform GuiSettings GuiTheme.

(* ------------------------------------------------------------------ *)
(** ** Colours *)

Definition hexValue (c : QChar) : Z := if isDigit c then (c - 48)%Z else if ((97 <=? c) && (c <=? 102))%Z then (c - 87)%Z else (c - 55)%Z.
Definition hexChar (v : Z) : QChar := if (v <? 10)%Z then (v + 48)%Z else (v + 87)%Z.
Definition hexPair (a b : QChar) : Z := (16 * hexValue a + hexValue b)%Z.

(** [QColor(name)]: #rgb, #rrggbb and #aarrggbb; [None] is no colour. *)
Definition colorOf (s : QString) : option (Z * Z * Z) :=
  match s with
  | h :: body =>
      if (h =? 35)%Z && forallb isHexDigit body then
        match body with
        | [r; g; b] => Some (hexPair r r, hexPair g g, hexPair b b)
        | [r1; r2; g1; g2; b1; b2] | [_; _; r1; r2; g1; g2; b1; b2] => Some (hexPair r1 r2, hexPair g1 g2, hexPair b1 b2)
        | _ => None
        end
      else None
  | [] => None
  end.
(** [name()]: six digits; what is no colour is black. *)
Definition byteHex (v : Z) : QString := [hexChar (Z.quot v 16); hexChar (Z.rem v 16)].
Definition colorName (c : option (Z * Z * Z)) : QString :=
  let '(r, g, b) := default (0, 0, 0)%Z c in 35%Z :: byteHex r ++ byteHex g ++ byteHex b.

(* ------------------------------------------------------------------ *)
(** ** The working copy *)

(** [k] hundredths. *)
Definition centi (k : Z) : double := ddiv (dofZ (10 * k)) (dofZ 1000).

Class QtSpinRound := spinRound : double -> double.
(** What the spin box for 0 to 60 seconds with two decimals holds. *)
Class QtSpinRoundLaws `{QtSpinRound} : Prop := {
  spin_keeps : forall k, (0 <= k <= 6000)%Z -> spinRound (centi k) = centi k;
  spin_hundredths : forall ms, int32 ms -> exists k, (0 <= k <= 6000)%Z /\ spinRound (ddiv (dofZ ms) (dofZ 1000)) = centi k;
}.

Inductive SpinPref := SpPoll | SpStale | SpStaleUdp | SpWindow.
#[global] Instance SpinPref_eq_dec : EqDecision SpinPref. Proof. solve_decision. Defined.
Definition spinPref (p : SpinPref) : IntPref := match p with SpPoll => PfPollIntervalMs | SpStale => PfStaleRetentionSecs | SpStaleUdp => PfStaleRetentionSecsUdp | SpWindow => PfThroughputWindowSecs end.
(** [setRange]. *)
Definition spinRange (p : SpinPref) : Z * Z := match p with SpPoll => (100, 60000) | SpStale | SpStaleUdp => (0, 600) | SpWindow => (2, 3600) end%Z.

Record Dialog := mkDialog {
  dl_bool : BoolPref -> bool;
  dl_spin : SpinPref -> Z;
  dl_smoothing : double;
  dl_mode : nat;               (* index of the combo box *)
  dl_theme : nat;
  dl_color : ColorPref -> option (Z * Z * Z);
}.

Section Dialogs.
Context `{QtUnicode, QtSpinRound, QtShades}.

Definition modeOf (i : nat) : ThroughputMaxMode := if decide (i = 1%nat) then MmCumulativeAverage else MmWindowed.

Definition openDialog (r : Prefs) : Dialog :=
  mkDialog (pr_bool r) (fun p => clamp (fst (spinRange p)) (pr_int r (spinPref p)) (snd (spinRange p)))
    (spinRound (ddiv (dofZ (pr_int r PfRateSmoothingMs)) (dofZ 1000)))
    (if (pr_maxMode r =? 1)%Z then 1%nat else 0%nat)
    (Z.to_nat (chosenTheme builtinGuiThemes (pr_str r PfGuiThemeName)))
    (fun p => colorOf (pr_color r p)).

(** An edit; the boxes and editors that are disabled take none. *)
Inductive DialogEdit :=
| EdBox (p : BoolPref) (b : bool) | EdSpin (p : SpinPref) (z : Z) | EdSmoothing (hundredths : Z) | EdMode (i : nat) | EdTheme (i : nat)
| EdColor (p : ColorPref) (c : Z * Z * Z) | EdResetColors.

Definition boxEnabled (caps : list QString) (d : Dialog) (p : BoolPref) : bool :=
  match p with
  | PfTintRowByDirection => dl_bool d PfColorCodeConnectionFlow
  | PfShowProcessColumn => bool_decide (qs "process-attribution-wire" ∈ caps)
  | PfShowContainerColumn => bool_decide (qs "container-attribution-wire" ∈ caps)
  | PfShowContainerChainInTooltip => bool_decide (qs "container-chain-wire" ∈ caps)
  | _ => true
  end.
Definition modeEnabled (d : Dialog) : bool := dl_bool d PfThroughputGaugeEnabled.
Definition spinEnabled (d : Dialog) (p : SpinPref) : bool :=
  match p with SpWindow => modeEnabled d && match modeOf (dl_mode d) with MmWindowed => true | MmCumulativeAverage => false end | _ => true end.

Definition dialogEdit (caps : list QString) (e : DialogEdit) (d : Dialog) : Dialog :=
  match e with
  | EdBox p b => if boxEnabled caps d p then mkDialog (upd p b (dl_bool d)) (dl_spin d) (dl_smoothing d) (dl_mode d) (dl_theme d) (dl_color d) else d
  | EdSpin p z =>
      if spinEnabled d p
      then mkDialog (dl_bool d) (upd p (clamp (fst (spinRange p)) z (snd (spinRange p))) (dl_spin d)) (dl_smoothing d) (dl_mode d) (dl_theme d) (dl_color d) else d
  | EdSmoothing k => mkDialog (dl_bool d) (dl_spin d) (centi (clamp 0 k 6000)) (dl_mode d) (dl_theme d) (dl_color d)
  | EdMode i => if modeEnabled d then mkDialog (dl_bool d) (dl_spin d) (dl_smoothing d) (Nat.min i 1) (dl_theme d) (dl_color d) else d
  | EdTheme i => mkDialog (dl_bool d) (dl_spin d) (dl_smoothing d) (dl_mode d) (Nat.min i (length builtinGuiThemes - 1)) (dl_color d)
  | EdColor p c => mkDialog (dl_bool d) (dl_spin d) (dl_smoothing d) (dl_mode d) (dl_theme d) (upd p (Some c) (dl_color d))
  | EdResetColors => mkDialog (dl_bool d) (dl_spin d) (dl_smoothing d) (dl_mode d) (dl_theme d) (fun p => colorOf (colorDefault p))
  end.

Definition themeText (d : Dialog) : QString := match builtinGuiThemes !! dl_theme d with Some t => gt_name t | None => [] end.

(** [apply], before the autostart entry: the calls in their order.  The number
    of milliseconds is always there (proved below). *)
Definition dialogCalls (d : Dialog) : option (list Call) :=
  ms ← qRound (dmul (dl_smoothing d) (dofZ 1000));
  let box p := CBool p (dl_bool d p) in
  let spin p := CInt (spinPref p) (dl_spin d p) in
  let chip p := CColor p (colorName (dl_color d p)) in
  Some [spin SpPoll; spin SpStale; spin SpStaleUdp; box PfUdpAggregateByPeer; box PfShowLoopback; box PfShowDown; box PfIpv6Enabled; box PfShowTcp;
        box PfShowUdp; box PfResolveHostnames; box PfResolveIfaceAddrsAsLocalhost; box PfColorCodeConnectionFlow; box PfTintRowByDirection;
        box PfThroughputGaugeEnabled; box PfInterfaceGaugeEnabled; CMaxMode (modeOf (dl_mode d)); spin SpWindow; CInt PfRateSmoothingMs ms;
        box PfShowStatusInTitle; box PfShowProcessColumn; box PfShowContainerColumn; box PfShowContainerChainInTooltip; box PfShowGroupHeaderDetails;
        box PfSortWithinGroups; chip PfChipPrimary; chip PfChipUser; chip PfChipId; chip PfChipDetail; CStr PfGuiThemeName (themeText d); box PfCloseToTray].

Definition applyDialog (d : Dialog) (st : Settings) : option Settings := (fun cs => runCalls cs st) <$> dialogCalls d.

(** All of [apply]: the box Start on login is no preference but the autostart
    file, written last. *)
Definition acceptDialog `{IniReader} (cfg exec : QString) (a : FsAnswers) (startOnLogin : bool) (d : Dialog) (st : Settings) (fs : gmap QString QString)
    : option (Settings * gmap QString QString) :=
  st' ← applyDialog d st; Some (st', snd (setStartOnLogin cfg exec a startOnLogin fs)).

(** Open, edit, and accept. *)
Definition dialogRun (caps : list QString) (es : list DialogEdit) (st : Settings) : option Settings :=
  applyDialog (foldl (fun d e => dialogEdit caps e d) (openDialog (st_prefs st)) es) st.
End Dialogs.

(* ------------------------------------------------------------------ *)
(** ** Runs of calls *)

Definition assocLast (p : Pref) (ws : list (Pref * SetVal)) : option SetVal := foldl (fun acc w => if decide (fst w = p) then Some (snd w) else acc) None ws.

Lemma assocLast_snoc p ws w : assocLast p (ws ++ [w]) = if decide (fst w = p) then Some (snd w) else assocLast p ws.
Proof. unfold assocLast. by rewrite foldl_app. Qed.

Lemma writes_any c r r' : writes c r = writes c r'.
Proof. by destruct c. Qed.

Lemma writes_short c r : c <> CReset -> writes c r = [] \/ exists p v, writes c r = [(p, v)].
Proof. intros Hc. destruct c as [| | | | | | |p s|]; cbn [writes]; [right; by do 2 eexists..| |done]. destruct (isHexColor s); [right; by do 2 eexists|by left]. Qed.

(** What a preference is after calls of single setters: the last value asked
    for, or what it was. *)
Lemma runCalls_values cs st r p : CReset ∉ cs ->
  valueOf (st_prefs (runCalls cs st)) p = default (valueOf (st_prefs st) p) (assocLast p (flat_map (fun c => writes c r) cs)).
Proof.
  unfold runCalls. induction cs as [|c cs IH] using rev_ind; intros Hn; [done|]. rewrite foldl_app, flat_map_app. cbn [foldl flat_map]. rewrite app_nil_r.
  assert (Hc : c <> CReset) by (intros ->; apply Hn, elem_of_app; right; by apply list_elem_of_singleton).
  specialize (IH ltac:(intros Hin; apply Hn, elem_of_app; by left)). set (st1 := foldl _ st cs) in *.
  pose proof (applyCall_one c st1 Hc) as H1. destruct (applyCall c st1) as [st' e]. cbn [fst]. rewrite (writes_any c _ r) in H1.
  destruct (writes_short c r Hc) as [Hw|(q & v & Hw)]; rewrite Hw in *.
  - rewrite app_nil_r. destruct H1 as [-> _]. exact IH.
  - rewrite assocLast_snoc. cbn [fst snd]. destruct (decide (v = valueOf (st_prefs st1) q)) as [Hv|Hv]; [destruct H1 as [-> _]|destruct H1 as [(_ & Hnew & Hold & _) _]].
    + case_decide as Hq; [subst q; cbn; congruence|exact IH].
    + case_decide as Hq; [subst q; cbn; congruence|]. rewrite Hold by congruence. exact IH.
Qed.

Lemma applyCall_unchanged c st : c <> CReset -> (forall p v, (p, v) ∈ writes c (st_prefs st) -> v = valueOf (st_prefs st) p) -> applyCall c st = (st, false).
Proof.
  intros Hc Hw. pose proof (applyCall_one c st Hc) as H1. destruct (applyCall c st) as [st' e]. destruct (writes_short c (st_prefs st) Hc) as [He|(p & v & He)]; rewrite He in *.
  - by destruct H1 as [-> ->].
  - rewrite decide_True in H1 by (apply Hw, elem_of_cons; by left). by destruct H1 as [-> ->].
Qed.

Lemma runCalls_idle cs st : Forall (fun c => applyCall c st = (st, false)) cs -> runCalls cs st = st.
Proof. unfold runCalls. induction 1 as [|c cs Hc _ IH]; [done|]. cbn [foldl]. by rewrite Hc. Qed.

(* ------------------------------------------------------------------ *)
(** ** Colours *)

Definition is_byte (v : Z) : Prop := (0 <= v < 256)%Z.
Definition lowerHexDigit (c : QChar) : bool := isDigit c || ((97 <=? c) && (c <=? 102))%Z.
(** The form [name()] gives. *)
Definition plainColor (s : QString) : bool := match s with h :: body => (h =? 35)%Z && forallb lowerHexDigit body && (length body =? 6)%nat | [] => false end.

Lemma hexChar_digit v : (0 <= v < 16)%Z -> lowerHexDigit (hexChar v) = true /\ isHexDigit (hexChar v) = true.
Proof.
  intros Hv. unfold lowerHexDigit, isHexDigit, hexChar, isDigit. destruct (Z.ltb_spec v 10).
  - destruct (Z.leb_spec 48 (v + 48)), (Z.leb_spec (v + 48) 57); try lia; done.
  - destruct (Z.leb_spec 97 (v + 87)), (Z.leb_spec (v + 87) 102); try lia; cbn [andb orb]; by rewrite ?orb_true_r.
Qed.
Lemma hexValue_char c : lowerHexDigit c = true -> hexChar (hexValue c) = c /\ (0 <= hexValue c < 16)%Z.
Proof.
  unfold lowerHexDigit, hexValue, hexChar, isDigit. destruct (Z.leb_spec 48 c), (Z.leb_spec c 57); cbn [andb orb].
  1: intros _; destruct (Z.ltb_spec (c - 48) 10); lia.
  all: destruct (Z.leb_spec 97 c), (Z.leb_spec c 102); cbn [andb]; intros; try done; destruct (Z.ltb_spec (c - 87) 10); lia.
Qed.
Lemma lower_is_hex c : lowerHexDigit c = true -> isHexDigit c = true.
Proof. unfold lowerHexDigit, isHexDigit. destruct (isDigit c), ((97 <=? c) && (c <=? 102))%Z; by cbn. Qed.
Lemma byteHex_pair a b : lowerHexDigit a = true -> lowerHexDigit b = true -> byteHex (hexPair a b) = [a; b].
Proof.
  intros Ha Hb. destruct (hexValue_char a Ha) as [Hca Hra], (hexValue_char b Hb) as [Hcb Hrb]. unfold byteHex, hexPair.
  rewrite Z.quot_div_nonneg, Z.rem_mod_nonneg by lia. rewrite <- (Z.div_unique (16 * hexValue a + hexValue b) 16 (hexValue a) (hexValue b)) by lia.
  rewrite <- (Z.mod_unique (16 * hexValue a + hexValue b) 16 (hexValue a) (hexValue b)) by lia. by rewrite Hca, Hcb.
Qed.

Lemma colorName_plain s : plainColor s = true -> colorName (colorOf s) = s.
Proof.
  destruct s as [|h body]; [done|]. unfold plainColor. rewrite !andb_true_iff, Z.eqb_eq, Nat.eqb_eq. intros [[-> Hd] Hl].
  do 6 (destruct body as [|? body]; [discriminate Hl|]). destruct body; [|discriminate Hl]. unfold colorOf. rewrite Z.eqb_refl.
  cbn [forallb] in *. rewrite !andb_true_iff in Hd. destruct Hd as (? & ? & ? & ? & ? & ? & _). rewrite !lower_is_hex by done. cbn [andb].
  unfold colorName. cbn [default from_option id]. by rewrite !byteHex_pair.
Qed.

Lemma byteHex_digits v : is_byte v -> forallb isHexDigit (byteHex v) = true /\ length (byteHex v) = 2%nat.
Proof.
  intros Hv. unfold is_byte in Hv. unfold byteHex. rewrite Z.quot_div_nonneg, Z.rem_mod_nonneg by lia. cbn [forallb].
  assert (0 <= v / 16 < 16)%Z by (split; [apply Z.div_pos; lia|apply Z.div_lt_upper_bound; lia]). pose proof (Z.mod_pos_bound v 16 ltac:(lia)).
  destruct (hexChar_digit (v / 16)) as [_ ->]; [done|]. by destruct (hexChar_digit (v mod 16)) as [_ ->].
Qed.

Definition color_bytes (c : option (Z * Z * Z)) : Prop := match c with Some (r, g, b) => is_byte r /\ is_byte g /\ is_byte b | None => True end.

Lemma colorName_hex c : color_bytes c -> isHexColor (colorName c) = true /\ length (colorName c) = 7%nat.
Proof.
  assert (Hz : is_byte 0) by (unfold is_byte; lia). intros Hc. unfold colorName. assert (Hrgb : let '(r, g, b) := default (0, 0, 0)%Z c in is_byte r /\ is_byte g /\ is_byte b).
  { destruct c as [[[r g] b]|]; [exact Hc|by cbn]. }
  destruct (default (0, 0, 0)%Z c) as [[r g] b]. destruct Hrgb as (Hr & Hg & Hb). apply byteHex_digits in Hr as [Hr Lr], Hg as [Hg Lg], Hb as [Hb Lb].
  assert (Hlen : length (byteHex r ++ byteHex g ++ byteHex b) = 6%nat) by (rewrite !length_app; lia). split; [|cbn [length]; lia].
  unfold isHexColor. rewrite Z.eqb_refl. cbn [andb]. apply orb_true_iff. left. unfold hexBody. rewrite !forallb_app, Hr, Hg, Hb. cbn [andb].
  rewrite (bool_decide_eq_true_2 (length _ = 6%nat)) by exact Hlen. by rewrite orb_true_r.
Qed.

Lemma hexValue_range c : isHexDigit c = true -> (0 <= hexValue c < 16)%Z.
Proof.
  unfold isHexDigit, hexValue, isDigit. destruct (Z.leb_spec 48 c), (Z.leb_spec c 57); cbn [andb orb]; [lia|..];
    destruct (Z.leb_spec 97 c), (Z.leb_spec c 102); cbn [andb orb]; try lia; destruct (Z.leb_spec 65 c), (Z.leb_spec c 70); cbn [andb]; try done; lia.
Qed.
Lemma hexPair_byte a b : isHexDigit a = true -> isHexDigit b = true -> is_byte (hexPair a b).
Proof. intros Ha%hexValue_range Hb%hexValue_range. unfold is_byte, hexPair. lia. Qed.
Lemma colorOf_bytes s : color_bytes (colorOf s).
Proof.
  destruct s as [|h body]; [done|]. unfold colorOf. destruct ((h =? 35)%Z && forallb isHexDigit body) eqn:E; [|done].
  apply andb_true_iff in E as [_ Hd]. destruct body as [|c1 [|c2 [|c3 [|c4 [|c5 [|c6 [|c7 [|c8 [|c9 body]]]]]]]]]; try done;
    cbn [forallb] in Hd; rewrite !andb_true_iff in Hd; destruct_and?; cbn; split_and!; by apply hexPair_byte.
Qed.

(* ------------------------------------------------------------------ *)
(** ** The dialog *)

(** A value of the smoothing editor as milliseconds, for all it can hold. *)
Definition centiMs (k : Z) : option Z := qRound (dmul (centi k) (dofZ 1000)).
Lemma centiMs_all : forallb (fun k => bool_decide (centiMs k = Some (10 * k)%Z)) (seqZ 0 6001) = true.
Proof. vm_compute. reflexivity. Qed.
Lemma centi_ms k : (0 <= k <= 6000)%Z -> centiMs k = Some (10 * k)%Z.
Proof.
  intros Hk. pose proof (proj1 (forallb_forall _ _) centiMs_all k) as Ha. apply (bool_decide_eq_true_1 _). apply Ha, list_elem_of_In, elem_of_seqZ. lia.
Qed.

Lemma clamp_id lo z hi : (lo <= z <= hi)%Z -> clamp lo z hi = z.
Proof. unfold clamp. lia. Qed.
Lemma spinRange_bounds p : spinRange p = intBounds (spinPref p).
Proof. by destruct p. Qed.

Section Proofs.
Context `{QtUnicodeLaws, QtSpinRoundLaws, QtShades}.

Record dialog_ok (d : Dialog) : Prop := {
  do_spin : forall p, (fst (spinRange p) <= dl_spin d p <= snd (spinRange p))%Z;
  do_smoothing : exists k, (0 <= k <= 6000)%Z /\ dl_smoothing d = centi k;
  do_theme : (dl_theme d < length builtinGuiThemes)%nat;
  do_color : forall p, color_bytes (dl_color d p);
}.
Definition edit_ok (e : DialogEdit) : Prop := match e with EdColor _ c => color_bytes (Some c) | _ => True end.

Lemma chosenTheme_range name : (0 <= chosenTheme builtinGuiThemes name < 7)%Z.
Proof.
  unfold chosenTheme. assert (Hg : forall ts n, (-1 <= guiThemeIndexByName ts n < Z.max 0 (Z.of_nat (length ts)))%Z \/ guiThemeIndexByName ts n = (-1)%Z).
  { intros ts n. induction ts as [|t ts IH]; [by right|]. cbn [guiThemeIndexByName]. destruct (qeqb _ _); [left; cbn [length]; lia|].
    destruct (Z.ltb_spec (guiThemeIndexByName ts n) 0); [by right|]. left. cbn [length]. lia. }
  destruct (Hg builtinGuiThemes name) as [Hr|Hr]; cbn [builtinGuiThemes length] in Hr; lia.
Qed.

Lemma openDialog_ok r : int32 (pr_int r PfRateSmoothingMs) -> dialog_ok (openDialog r).
Proof.
  intros Hms. split; cbn [openDialog dl_spin dl_smoothing dl_theme dl_color].
  - intros p. apply clamp_range. destruct p; cbn; lia.
  - destruct (spin_hundredths _ Hms) as (k & Hk & ->). by exists k.
  - pose proof (chosenTheme_range (pr_str r PfGuiThemeName)). cbn [builtinGuiThemes length]. lia.
  - intros p. apply colorOf_bytes.
Qed.

Lemma dialogEdit_ok caps e d : edit_ok e -> dialog_ok d -> dialog_ok (dialogEdit caps e d).
Proof.
  intros He [Hs Hm Ht Hc]. destruct e as [p b|p z|k|i|i|p c|]; cbn [dialogEdit].
  - destruct (boxEnabled caps d p); by split.
  - destruct (spinEnabled d p); [|by split]. split; cbn [dl_spin dl_smoothing dl_theme dl_color]; [|done..]. intros q. unfold upd. case_decide as Hq; [subst q|done].
    apply clamp_range. destruct p; cbn; lia.
  - split; cbn [dl_spin dl_smoothing dl_theme dl_color]; [done| |done..]. exists (clamp 0 k 6000). split; [apply clamp_range; lia|done].
  - destruct (modeEnabled d); by split.
  - split; cbn [dl_spin dl_smoothing dl_theme dl_color]; [done..| |done]. cbn [builtinGuiThemes length]. lia.
  - split; cbn [dl_spin dl_smoothing dl_theme dl_color]; [done..|]. intros q. unfold upd. by case_decide.
  - split; cbn [dl_spin dl_smoothing dl_theme dl_color]; [done..|]. intros q. apply colorOf_bytes.
Qed.

Lemma edits_ok caps es d : Forall edit_ok es -> dialog_ok d -> dialog_ok (foldl (fun d e => dialogEdit caps e d) d es).
Proof. intros He. revert d. induction He as [|e es Hone _ IH]; intros d Hd; [done|]. cbn [foldl]. by apply IH, dialogEdit_ok. Qed.

(** What the dialog shows of a preference; [None] for those it does not have. *)
Definition shown (d : Dialog) (ms : Z) (p : Pref) : option SetVal :=
  match p with
  | PBool p => Some (SvBool (dl_bool d p))
  | PInt PfPollIntervalMs => Some (SvInt (dl_spin d SpPoll))
  | PInt PfStaleRetentionSecs => Some (SvInt (dl_spin d SpStale))
  | PInt PfStaleRetentionSecsUdp => Some (SvInt (dl_spin d SpStaleUdp))
  | PInt PfThroughputWindowSecs => Some (SvInt (dl_spin d SpWindow))
  | PInt PfRateSmoothingMs => Some (SvInt ms)
  | PStr PfGuiThemeName => Some (SvStr (themeText d))
  | PColor p => Some (SvStr (colorName (dl_color d p)))
  | PMaxMode => Some (SvInt (maxModeCode (modeOf (dl_mode d))))
  | PStr _ | PList _ | PViewMode => None
  end.

Lemma applyDialog_values d st : dialog_ok d ->
  exists k st', (0 <= k <= 6000)%Z /\ dl_smoothing d = centi k /\ applyDialog d st = Some st' /\
    forall p, valueOf (st_prefs st') p = default (valueOf (st_prefs st) p) (shown d (10 * k) p).
Proof.
  intros [Hs (k & Hk & Hm) Ht Hc]. exists k. unfold applyDialog, dialogCalls. rewrite Hm. fold (centiMs k). rewrite centi_ms by done. cbn [mbind option_bind fmap option_fmap option_map].
  eexists. split_and!; [lia|lia|done|reflexivity|]. intros p. rewrite (runCalls_values _ st (st_prefs st)).
  2: { intros Hin. apply list_elem_of_In in Hin. cbn in Hin. destruct_or?; done. }
  f_equal. cbn [flat_map writes app]. rewrite !(proj1 (colorName_hex _ (Hc _))). cbn [app].
  rewrite !clamp_id by (rewrite <- ?spinRange_bounds; first [apply Hs|cbn; lia]).
  destruct p as [[]|[]|[]|[]|[]| |]; reflexivity.
Qed.

Lemma dialogRun_values caps es st : int32 (pr_int (st_prefs st) PfRateSmoothingMs) -> Forall edit_ok es ->
  let d := foldl (fun d e => dialogEdit caps e d) (openDialog (st_prefs st)) es in
  exists k st', (0 <= k <= 6000)%Z /\ dl_smoothing d = centi k /\ dialogRun caps es st = Some st' /\
    forall p, valueOf (st_prefs st') p = default (valueOf (st_prefs st) p) (shown d (10 * k) p).
Proof. intros Hms He d. apply applyDialog_values, edits_ok; [exact He|by apply openDialog_ok]. Qed.

(** C36. Whatever was stored and whatever is edited, accepting the dialog succeeds
    and gives every preference it shows exactly the value shown, rounding and
    the setters' bounds taking nothing away; the others are as before. *)
Theorem dialog_stores_what_it_shows caps es st : int32 (pr_int (st_prefs st) PfRateSmoothingMs) -> Forall edit_ok es ->
  let d := foldl (fun d e => dialogEdit caps e d) (openDialog (st_prefs st)) es in
  exists k st', dl_smoothing d = centi k /\ dialogRun caps es st = Some st' /\
    forall p, valueOf (st_prefs st') p = default (valueOf (st_prefs st) p) (shown d (10 * k) p).
Proof. intros Hms He d. destruct (dialogRun_values caps es st Hms He) as (k & st' & _ & Hk & Hr & Hv). by exists k, st'. Qed.

(** Preferences the dialog can show as they are. *)
Record showable (r : Prefs) : Prop := {
  sw_spin : forall p, (fst (spinRange p) <= pr_int r (spinPref p) <= snd (spinRange p))%Z;
  sw_smoothing : exists k, (0 <= k <= 6000)%Z /\ pr_int r PfRateSmoothingMs = (10 * k)%Z;
  sw_mode : exists m, pr_maxMode r = maxModeCode m;
  sw_theme : exists i t, builtinGuiThemes !! i = Some t /\ pr_str r PfGuiThemeName = gt_name t;
  sw_color : forall p, plainColor (pr_color r p) = true;
}.

Lemma open_shows r : showable r -> forall p v, shown (openDialog r) (pr_int r PfRateSmoothingMs) p = Some v -> v = valueOf r p.
Proof.
  intros [Hs _ [m Hm] (i & t & Hi & Ht) Hc] p v. destruct p as [b|n|q|l|c| |]; cbn [shown valueOf].
  - by intros [= <-].
  - destruct n; cbn [openDialog dl_spin]; intros [= <-]; f_equal; try done; apply clamp_id; [apply (Hs SpPoll)|apply (Hs SpStale)|apply (Hs SpStaleUdp)|apply (Hs SpWindow)].
  - destruct q; [done| |done]. intros [= <-]. f_equal. unfold themeText. cbn [openDialog dl_theme]. rewrite Ht.
    assert (Hin : Forall isAscii (gt_name t)).
    { clear Ht. do 7 (destruct i as [|i]; [injection Hi as <-; apply (bool_decide_unpack _); vm_compute; exact I|]). done. }
    unfold chosenTheme. assert (Hx : chosenTheme builtinGuiThemes (gt_name t) = Z.of_nat i) by (by apply (theme_found i t)).
    unfold chosenTheme in Hx. by rewrite Hx, Nat2Z.id, Hi.
  - done.
  - intros [= <-]. f_equal. by apply colorName_plain.
  - intros [= <-]. cbn [openDialog dl_mode]. rewrite Hm. by destruct m.
  - done.
Qed.

(** Opening the dialog and accepting it without an edit changes nothing and
    announces nothing, for preferences it can show as they are; the autostart
    file is not written either. *)
Theorem dialog_unedited_is_idle `{IniReader} caps st cfg exec a fs : showable (st_prefs st) ->
  dialogRun caps [] st = Some st /\
  acceptDialog cfg exec a (isEnabled cfg fs) (openDialog (st_prefs st)) st fs = Some (st, fs) /\
  exists cs, dialogCalls (openDialog (st_prefs st)) = Some cs /\ Forall (fun c => applyCall c st = (st, false)) cs.
Proof.
  intros Hw. pose proof (open_shows (st_prefs st) Hw) as Hsh. destruct (sw_smoothing _ Hw) as (k & Hk & Hms).
  assert (Hsm : dl_smoothing (openDialog (st_prefs st)) = centi k) by (cbn [openDialog dl_smoothing]; rewrite Hms; by apply spin_keeps).
  assert (Hcs : exists cs, dialogCalls (openDialog (st_prefs st)) = Some cs /\ Forall (fun c => applyCall c st = (st, false)) cs).
  { unfold dialogCalls. rewrite Hsm. fold (centiMs k). rewrite centi_ms by done. cbn [mbind option_bind]. eexists. split; [reflexivity|]. rewrite <- Hms.
    assert (Hclamp : forall q z, (fst (intBounds q) <= z <= snd (intBounds q))%Z -> shown (openDialog (st_prefs st)) (pr_int (st_prefs st) PfRateSmoothingMs) (PInt q) = Some (SvInt z) -> applyCall (CInt q z) st = (st, false)).
    { intros q z Hb Hq. apply applyCall_unchanged; [done|]. cbn [writes]. intros p v [= -> ->]%list_elem_of_singleton. rewrite clamp_id by done. by apply Hsh. }
    assert (Hplain : forall c p v, writes c (st_prefs st) = [(p, v)] -> c <> CReset -> shown (openDialog (st_prefs st)) (pr_int (st_prefs st) PfRateSmoothingMs) p = Some v -> applyCall c st = (st, false)).
    { intros c p v Hc Hn Hq. apply applyCall_unchanged; [done|]. rewrite Hc. intros p' v' [= -> ->]%list_elem_of_singleton. by apply Hsh. }
    assert (Hchip : forall p, applyCall (CColor p (colorName (dl_color (openDialog (st_prefs st)) p))) st = (st, false)).
    { intros q. apply applyCall_unchanged; [done|]. cbn [writes]. destruct (isHexColor _); [|by intros p v ?%elem_of_nil]. intros p v [= -> ->]%list_elem_of_singleton. by apply Hsh. }
    repeat apply Forall_cons_2; try apply Forall_nil_2; try apply Hchip;
      first [apply Hclamp; [|reflexivity]; rewrite <- ?spinRange_bounds; first [apply clamp_range; cbn; lia|cbn; lia]|by eapply Hplain]. }
  assert (Ha : applyDialog (openDialog (st_prefs st)) st = Some st) by (destruct Hcs as (cs & Hc & Hf); unfold applyDialog; rewrite Hc; cbn; f_equal; by apply runCalls_idle).
  split_and!; [exact Ha| |exact Hcs]. unfold acceptDialog, setStartOnLogin. rewrite Ha. cbn. by rewrite Bool.eqb_reflx.
Qed.

(** The smoothing time is kept to hundredths of a second: a stored time that is
    no multiple of 10 ms is changed by accepting the dialog without touching
    it. *)
Theorem dialog_rounds_smoothing caps st : int32 (pr_int (st_prefs st) PfRateSmoothingMs) ->
  (pr_int (st_prefs st) PfRateSmoothingMs mod 10 <> 0)%Z ->
  exists st', dialogRun caps [] st = Some st' /\ pr_int (st_prefs st') PfRateSmoothingMs <> pr_int (st_prefs st) PfRateSmoothingMs.
Proof.
  intros Hms Hr. destruct (dialogRun_values caps [] st Hms (Forall_nil_2 _)) as (k & st' & _ & _ & Hd & Hv). exists st'. split; [done|].
  specialize (Hv (PInt PfRateSmoothingMs)). cbn in Hv. injection Hv as ->. intros He. apply Hr. rewrite <- He, Z.mul_comm. apply Z_mod_mult.
Qed.

(** Colours leave the dialog with six digits: one stored with an opacity, in
    the short form or with a line break is changed by accepting it untouched,
    and what is no colour becomes black. *)
Theorem dialog_rewrites_colors caps st p : int32 (pr_int (st_prefs st) PfRateSmoothingMs) ->
  exists st', dialogRun caps [] st = Some st' /\ pr_color (st_prefs st') p = colorName (colorOf (pr_color (st_prefs st) p)) /\
    (length (pr_color (st_prefs st) p) <> 7%nat -> pr_color (st_prefs st') p <> pr_color (st_prefs st) p) /\
    (colorOf (pr_color (st_prefs st) p) = None -> pr_color (st_prefs st') p = qs "#000000").
Proof.
  intros Hms. destruct (dialogRun_values caps [] st Hms (Forall_nil_2 _)) as (k & st' & _ & _ & Hd & Hv). exists st'. split; [done|].
  specialize (Hv (PColor p)). cbn [shown valueOf foldl openDialog dl_color default from_option id] in Hv. injection Hv as ->. split_and!; [done| |by intros ->].
  intros Hl He. apply Hl. rewrite <- He. apply colorName_hex, colorOf_bytes.
Qed.

Definition gatedBy (p : BoolPref) : option QString :=
  match p with
  | PfShowProcessColumn => Some (qs "process-attribution-wire") | PfShowContainerColumn => Some (qs "container-attribution-wire")
  | PfShowContainerChainInTooltip => Some (qs "container-chain-wire") | _ => None
  end.

(** A toggle the backend does not support keeps its stored value through any
    edits of the dialog. *)
Theorem gated_toggles_kept caps es st p cap : int32 (pr_int (st_prefs st) PfRateSmoothingMs) -> Forall edit_ok es ->
  gatedBy p = Some cap -> cap ∉ caps ->
  exists st', dialogRun caps es st = Some st' /\ pr_bool (st_prefs st') p = pr_bool (st_prefs st) p.
Proof.
  intros Hms He Hg Hcap. destruct (dialogRun_values caps es st Hms He) as (k & st' & _ & _ & Hd & Hv). exists st'. split; [done|].
  specialize (Hv (PBool p)). cbn in Hv. injection Hv as ->. change (pr_bool (st_prefs st) p) with (dl_bool (openDialog (st_prefs st)) p).
  generalize (openDialog (st_prefs st)). clear He Hd. induction es as [|e es IH]; intros d; [done|]. cbn [foldl]. rewrite IH.
  assert (Hoff : boxEnabled caps d p = false) by (destruct p; try discriminate Hg; injection Hg as <-; by apply bool_decide_eq_false_2).
  destruct e as [q b|q z|h|i|i|q c|]; cbn [dialogEdit]; try done; [|by destruct (spinEnabled d q)|by destruct (modeEnabled d)].
  destruct (decide (q = p)) as [->|Hq]; [by rewrite Hoff|]. destruct (boxEnabled caps d q); [|done]. cbn [dl_bool]. unfold upd. by rewrite decide_False by done.
Qed.
End Proofs.

(* ------------------------------------------------------------------ *)
(** ** Examples *)

(** Rounding half up on the product with 100. *)
#[local] Instance nearestHundredth : QtSpinRound :=
  fun d => centi (clamp 0 (default 0%Z (dtrunc (dadd (dmul d (dofZ 100)) dhalf))) 6000).

Lemma nearest_all : forallb (fun k => bool_decide (spinRound (centi k) = centi k)) (seqZ 0 6001) = true.
Proof. vm_compute. reflexivity. Qed.

#[local] Instance nearestHundredth_laws : QtSpinRoundLaws.
Proof.
  split.
  - intros k Hk. pose proof (proj1 (forallb_forall _ _) nearest_all k) as Ha. apply (bool_decide_eq_true_1 _), Ha, list_elem_of_In, elem_of_seqZ. lia.
  - intros ms _. eexists. split; [|reflexivity]. apply clamp_range. lia.
Qed.

#[local] Instance sameShades : QtShades := {| lighter := fun c _ => c; darker := fun c _ => c |}.

Definition freshPrefs : Prefs := mkPrefs boolDefault intDefault strDefault listDefault colorDefault 0 VmFlat.
Definition freshSettings : Settings := mkSettings true ∅ freshPrefs.
(** A smoothing of 305 ms, a half transparent colour. *)
Definition oddSettings : Settings :=
  mkSettings true ∅ (set_pr_color PfChipUser (qs "#805fd0c5") (set_pr_int PfRateSmoothingMs 305 freshPrefs)).
Definition someEdits : list DialogEdit := [EdSpin SpPoll 20; EdBox PfShowProcessColumn false; EdTheme 3; EdColor PfChipId (255, 0, 16)%Z; EdSmoothing 25].

Lemma someEdits_ok : Forall edit_ok someEdits.
Proof. repeat first [apply Forall_nil_2|apply Forall_cons_2]; cbn; unfold is_byte; try lia; done. Qed.

Lemma dialog_stores_what_it_shows_witness : exists st', dialogRun [] someEdits freshSettings = Some st' /\ pr_int (st_prefs st') PfPollIntervalMs = 100%Z.
Proof.
  destruct (dialog_stores_what_it_shows [] someEdits freshSettings ltac:(cbn; unfold int32; lia) someEdits_ok) as (k & st' & _ & Hr & Hv).
  exists st'. split; [exact Hr|]. specialize (Hv (PInt PfPollIntervalMs)). cbn in Hv. by injection Hv.
Defined.

Lemma fresh_showable : showable freshPrefs.
Proof.
  split.
  - intros []; cbn; lia.
  - by exists 0%Z.
  - by exists MmWindowed.
  - by exists 0%nat, systemTheme.
  - by intros [].
Qed.

Lemma dialog_unedited_is_idle_witness : dialogRun [] [] freshSettings = Some freshSettings.
Proof. exact (proj1 (dialog_unedited_is_idle [] freshSettings [] [] (mkFsAnswers true true 1000 true) ∅ fresh_showable)). Defined.

Lemma odd_int32 : int32 (pr_int (st_prefs oddSettings) PfRateSmoothingMs).
Proof. vm_compute. by split. Qed.

Lemma dialog_rounds_smoothing_witness : exists st', dialogRun [] [] oddSettings = Some st' /\ pr_int (st_prefs st') PfRateSmoothingMs <> 305%Z.
Proof. exact (dialog_rounds_smoothing [] oddSettings odd_int32 ltac:(vm_compute; discriminate)). Defined.

Lemma dialog_rewrites_colors_witness : exists st', dialogRun [] [] oddSettings = Some st' /\ pr_color (st_prefs st') PfChipUser = qs "#5fd0c5".
Proof.
  destruct (dialog_rewrites_colors [] oddSettings PfChipUser odd_int32) as (st' & Hr & Hc & _). exists st'. split; [exact Hr|]. rewrite Hc. reflexivity.
Defined.

Lemma gated_toggles_kept_witness : exists st', dialogRun [] someEdits freshSettings = Some st' /\ pr_bool (st_prefs st') PfShowProcessColumn = true.
Proof.
  exact (gated_toggles_kept [] someEdits freshSettings PfShowProcessColumn (qs "process-attribution-wire") ltac:(cbn; unfold int32; lia) someEdits_ok eq_refl (not_elem_of_nil _)).
Defined.
