(* ===== verification/Delegates.v ===== *)
(** * What the table cells show: [src/ui/ConnectionFlowDelegate.cpp],
      [src/ui/ConnectionAttributionDelegate.cpp],
      [src/ui/InterfaceNameDelegate.cpp]

    The rich text of the flow, group and interface cells, the two texts of an
    attribution cell and where they are drawn.

    Laying out and painting a document is Qt's; what a reader sees of one is
    its text content, the characters outside its tags with the entities
    resolved.  A colour is its four bytes. *)

From S2P Require Import Prelude Qt Conn DbusTypes CheckTool GroupProxy GuiModel SettingsDialog.

(* ------------------------------------------------------------------ *)
(** ** Colours *)

Record Argb := mkArgb { co_a : Z; co_r : Z; co_g : Z; co_b : Z }.
(** [name(QColor::HexArgb)]. *)
Definition argbName (c : Argb) : QString := 35%Z :: byteHex (co_a c) ++ byteHex (co_r c) ++ byteHex (co_g c) ++ byteHex (co_b c).
Definition opaque (r g b : Z) : Argb := mkArgb 255 r g b.

(** The colours of the view's palette a delegate asks for. *)
Record CellPalette := mkCellPalette {
  cp_highlightedText : Argb; cp_disabledHighlightedText : Argb; cp_placeholder : Argb; cp_text : Argb; cp_baseLightness : Z }.

Record FlowColors := mkFlowColors { fc_muted : QString; fc_src : QString; fc_dst : QString }.
Definition pickFlowColors (p : CellPalette) (selected : bool) (injectedSrc injectedDst : option Argb) : FlowColors :=
  if selected then mkFlowColors (argbName (cp_disabledHighlightedText p)) (argbName (cp_highlightedText p)) (argbName (cp_highlightedText p))
  else
    let dark := (cp_baseLightness p <? 128)%Z in
    mkFlowColors (argbName (cp_placeholder p))
      (argbName (default (if dark then opaque 0x6C 0xB6 0xFF else opaque 0x0B 0x5F 0xA5) injectedSrc))
      (argbName (default (if dark then opaque 0xF0 0xB8 0x6E else opaque 0xA0 0x52 0x1B) injectedDst)).

Record ChipPalette := mkChipPalette { ch_primary : option Argb; ch_user : option Argb; ch_id : option Argb; ch_detail : option Argb }.
Definition leading (kind : QString) : bool := qeqb kind (qs "process") || qeqb kind (qs "container") || qeqb kind (qs "iface").
Definition chipColor (p : CellPalette) (selected : bool) (kind : QString) (pal : ChipPalette) : QString :=
  if selected then argbName (cp_highlightedText p)
  else
    let pick c := argbName (default (cp_placeholder p) c) in
    if leading kind then pick (ch_primary pal)
    else if qeqb kind (qs "user") then pick (ch_user pal)
    else if qeqb kind (qs "id") then pick (ch_id pal)
    else pick (ch_detail pal).

(* ------------------------------------------------------------------ *)
(** ** Documents *)

(** A double quote. *)
Definition dq : QString := [34%Z].
Definition chipSpan (p : CellPalette) (selected : bool) (pal : ChipPalette) (chip : QString * QString) : QString :=
  qargs (qs "<span style=" ++ dq ++ qs "color:%1;%2" ++ dq ++ qs ">%3</span>")
    [chipColor p selected (snd chip) pal; if leading (snd chip) then qs "font-weight:bold;" else []; htmlEscaped (fst chip)].
Definition buildGroupDoc (p : CellPalette) (selected : bool) (pal : ChipPalette) (chips : list (QString * QString)) : QString :=
  qjoin (qarg (qs " <span style=" ++ dq ++ qs "color:%1;" ++ dq ++ qs ">" ++ [183%Z] ++ qs "</span> ") (argbName (cp_placeholder p)))
    (map (chipSpan p selected pal) chips).

Definition protoSpan (muted proto : QString) : QString :=
  qargs (qs "<span style=" ++ dq ++ qs "color:%1; font-style:normal;" ++ dq ++ qs ">[%2]</span>") [muted; proto].
(** [direction]: the role's value, [None] when the model has none. *)
Definition buildDoc (p : CellPalette) (selected colorCode : bool) (injectedSrc injectedDst : option Argb) (direction : option Direction)
    (proto local remote : QString) : QString :=
  let c := pickFlowColors p selected injectedSrc injectedDst in
  let srcIsLocal := negb (bool_decide (direction = Some Inbound)) in
  let srcText := htmlEscaped (if srcIsLocal then local else remote) in
  let dstText := htmlEscaped (if srcIsLocal then remote else local) in
  let tag := protoSpan (fc_muted c) (htmlEscaped proto) in
  if colorCode
  then qargs (qs "%1 <b style=" ++ dq ++ qs "color:%2;" ++ dq ++ qs ">%3</b> <span style=" ++ dq ++ qs "color:%4;" ++ dq ++ qs ">" ++ [8594%Z]
              ++ qs "</span> <b style=" ++ dq ++ qs "color:%5;" ++ dq ++ qs ">%6</b>") [tag; fc_src c; srcText; fc_muted c; fc_dst c; dstText]
  else qargs (qs "%1 <b>%2</b> <span style=" ++ dq ++ qs "color:%3;" ++ dq ++ qs ">" ++ [8594%Z] ++ qs "</span> <b>%4</b>") [tag; srcText; fc_muted c; dstText].

(** [chooseDoc]. *)
Definition chooseDoc (p : CellPalette) (selected colorCode : bool) (pal : ChipPalette) (injectedSrc injectedDst : option Argb)
    (chips : list (QString * QString)) (direction : option Direction) (proto local remote : QString) : QString :=
  if negb (isEmpty chips) then buildGroupDoc p selected pal chips else buildDoc p selected colorCode injectedSrc injectedDst direction proto local remote.

Definition buildIfaceDoc (p : CellPalette) (selected : bool) (trayInterfaces : list QString) (name details : QString) : QString :=
  let muted := argbName (if selected then cp_highlightedText p else cp_placeholder p) in
  qarg (qs "<b>%1</b>") (htmlEscaped name)
  ++ (if isEmpty details then [] else qargs (qs " <span style=" ++ dq ++ qs "color:%1;" ++ dq ++ qs ">(%2)</span>") [muted; htmlEscaped details])
  ++ (if bool_decide (name ∈ trayInterfaces) then qarg (qs " <span style=" ++ dq ++ qs "color:%1;" ++ dq ++ qs ">&#x1F441;</span>") muted else []).

(** [sizeHint]: the width the document is measured at. *)
Definition measureWidth (columnWidth : Z) : Z := if (8 <? columnWidth)%Z then (columnWidth - 6)%Z else (-1)%Z.

(* ------------------------------------------------------------------ *)
(** ** Attribution cells *)

Record AttributionCell := mkAttributionCell { at_primary : QString; at_anno : QString; at_attributed : bool; at_italic : bool }.

Definition processCell (p : ProcessInfo) : AttributionCell :=
  let attributed := (0 <? pi_pid p)%Z in
  if attributed
  then mkAttributionCell (if isEmpty (pi_comm p) then qarg (qs "pid %1") (number (pi_pid p)) else pi_comm p) (qarg (qs "[%1]") (number (pi_pid p))) attributed (negb attributed)
  else mkAttributionCell emDash [] attributed (negb attributed).
Definition containerCell (ci : ContainerInfo) (chain : list ContainerInfo) : AttributionCell :=
  if hostContainer ci then mkAttributionCell (qs "(host)") [] false true
  else mkAttributionCell (containerShort ci)
         (if 2 <=? length chain then qarg ([9656; 32]%Z ++ qs "%1" ++ [215%Z]) (number (Z.of_nat (length chain))) else []) true false.

(** [paint]: what it draws itself; [None] where it leaves the model's text to
    the base class, for other columns and for rows that have children. *)
Inductive AttributionColumn := AcProcess | AcContainer | AcOther.
Definition attributionPaint (col : AttributionColumn) (hasChildren : bool) (c : Connection) : option AttributionCell :=
  if hasChildren then None
  else match col with
       | AcProcess => Some (processCell (c_process c))
       | AcContainer => Some (containerCell (c_container c) (c_containerChain c))
       | AcOther => None
       end.

(** Where the texts go, given the cell's text rectangle and the advance of the
    annotation; edges are inclusive, as [QRect]'s. *)
Definition annoWidth (anno : QString) (advance : Z) : Z := if isEmpty anno then 0%Z else (advance + 6)%Z.
Definition primaryMaxWidth (left right : Z) (anno : QString) (advance : Z) : Z := Z.max 0 (right - left + 1 - annoWidth anno advance).
Definition primaryRect (left right : Z) (anno : QString) (advance : Z) : Z * Z := (left, (right - annoWidth anno advance)%Z).
Definition annoRect (left right : Z) (anno : QString) (advance : Z) : Z * Z := ((right - annoWidth anno advance + 4)%Z, right).

(* ------------------------------------------------------------------ *)
(** ** Text content *)

Inductive HtmlMode := MText | MTag | MEntity (acc : QString).

Definition entity (name : QString) : QString :=
  if qeqb name (qs "lt") then [60%Z] else if qeqb name (qs "gt") then [62%Z] else if qeqb name (qs "amp") then [38%Z]
  else if qeqb name (qs "quot") then [34%Z] else if qeqb name (qs "#x1F441") then [55357; 56385]%Z else 38%Z :: name ++ [59%Z].

Fixpoint content (m : HtmlMode) (s : QString) : QString :=
  match s with
  | [] => match m with MEntity acc => 38%Z :: acc | _ => [] end
  | c :: r =>
      match m with
      | MTag => content (if (c =? 62)%Z then MText else MTag) r
      | MText => if (c =? 60)%Z then content MTag r else if (c =? 38)%Z then content (MEntity []) r else c :: content MText r
      | MEntity acc => if (c =? 59)%Z then entity acc ++ content MText r else content (MEntity (acc ++ [c])) r
      end
  end.
Definition htmlText (s : QString) : QString := content MText s.

(** What is escaped is read as it was. *)
Lemma content_escaped s r : content MText (htmlEscaped s ++ r) = s ++ content MText r.
Proof.
  induction s as [|c s IH]; [done|]. cbn [htmlEscaped]. rewrite <- app_assoc.
  destruct (Z.eqb_spec c 60) as [->|H60]; [cbn; by rewrite IH|]. destruct (Z.eqb_spec c 62) as [->|H62]; [cbn; by rewrite IH|].
  destruct (Z.eqb_spec c 38) as [->|H38]; [cbn; by rewrite IH|]. destruct (Z.eqb_spec c 34) as [->|H34]; [cbn; by rewrite IH|].
  cbn [app content]. destruct (Z.eqb_spec c 60), (Z.eqb_spec c 38); try done. by rewrite IH.
Qed.

Lemma content_tag x r : 62%Z ∉ x -> content MTag (x ++ r) = content MTag r.
Proof.
  induction x as [|c x IH]; [done|]. intros [Hc Hx]%not_elem_of_cons. cbn [app content]. destruct (Z.eqb_spec c 62); [by destruct Hc|]. by apply IH.
Qed.

Lemma hexChar_not_gt v : hexChar v <> 62%Z.
Proof. unfold hexChar. destruct (Z.ltb_spec v 10); lia. Qed.
Lemma argbName_not_gt c : 62%Z ∉ argbName c.
Proof.
  unfold argbName, byteHex. rewrite !not_elem_of_cons, !not_elem_of_app, !not_elem_of_cons. assert (Hn : forall v, 62%Z <> hexChar v) by (intros v Hv; by apply (hexChar_not_gt v)).
  split_and!; first [apply Hn|apply not_elem_of_nil|done].
Qed.
#[local] Hint Resolve argbName_not_gt not_elem_of_nil : core.
Lemma pickFlowColors_not_gt p sel a b : let c := pickFlowColors p sel a b in 62%Z ∉ fc_muted c /\ 62%Z ∉ fc_src c /\ 62%Z ∉ fc_dst c.
Proof. unfold pickFlowColors. destruct sel; cbn; auto. Qed.
Lemma chipColor_not_gt p sel k pal : 62%Z ∉ chipColor p sel k pal.
Proof. unfold chipColor. destruct sel, (leading k), (qeqb k (qs "user")), (qeqb k (qs "id")); auto. Qed.

(** Reading a closed piece of a template: what it shows and how it leaves the
    reader. *)
Fixpoint contentRun (m : HtmlMode) (s : QString) : QString * HtmlMode :=
  match s with
  | [] => ([], m)
  | c :: r =>
      match m with
      | MTag => contentRun (if (c =? 62)%Z then MText else MTag) r
      | MText => if (c =? 60)%Z then contentRun MTag r else if (c =? 38)%Z then contentRun (MEntity []) r
                 else let '(o, m') := contentRun MText r in (c :: o, m')
      | MEntity acc => if (c =? 59)%Z then let '(o, m') := contentRun MText r in (entity acc ++ o, m') else contentRun (MEntity (acc ++ [c])) r
      end
  end.
Lemma content_run m x r : content m (x ++ r) = fst (contentRun m x) ++ content (snd (contentRun m x)) r.
Proof.
  revert m. induction x as [|c x IH]; intros m; [done|]. cbn [app content contentRun]. destruct m as [| |acc].
  - destruct (c =? 60)%Z; [apply IH|]. destruct (c =? 38)%Z; [apply IH|]. rewrite IH. by destruct (contentRun MText x).
  - apply IH.
  - destruct (c =? 59)%Z; [|apply IH]. rewrite IH. destruct (contentRun MText x). cbn. by rewrite app_assoc.
Qed.

(** Reads a document left to right. *)
Ltac read_closed x := rewrite (content_run _ x); match goal with |- context [contentRun ?m x] => let v := eval vm_compute in (contentRun m x) in change (contentRun m x) with v end; cbn [fst snd].
Ltac read_html :=
  repeat (rewrite <- ?app_assoc;
    match goal with
    | |- context [content MText (htmlEscaped _ ++ _)] => rewrite content_escaped
    | |- context [content _ (qs ?x ++ _)] => read_closed (qs x)
    | |- context [content _ (dq ++ _)] => read_closed dq
    | |- context [content _ ([8594%Z] ++ _)] => read_closed [8594%Z]
    | |- context [content _ ([183%Z] ++ _)] => read_closed [183%Z]
    | |- context [content MTag (_ ++ _)] => rewrite content_tag by auto
    end); cbn [content]; rewrite ?app_nil_r.

(* ------------------------------------------------------------------ *)
(** ** Correctness *)

(** Whatever the names hold, a flow's cell reads as protocol, source, arrow and
    destination, the remote end being the source of an inbound flow. *)
Theorem flow_cell_reads p selected colorCode isrc idst direction proto local remote :
  let src := if bool_decide (direction = Some Inbound) then remote else local in
  let dst := if bool_decide (direction = Some Inbound) then local else remote in
  htmlText (buildDoc p selected colorCode isrc idst direction proto local remote) = qs "[" ++ proto ++ qs "] " ++ src ++ [32; 8594; 32]%Z ++ dst.
Proof.
  cbv zeta. unfold buildDoc, htmlText. destruct (pickFlowColors_not_gt p selected isrc idst) as (Hm & Hs & Hd). set (c := pickFlowColors p selected isrc idst) in *. clearbody c.
  set (src := if negb (bool_decide (direction = Some Inbound)) then local else remote). set (dst := if negb (bool_decide (direction = Some Inbound)) then remote else local).
  replace (if bool_decide (direction = Some Inbound) then remote else local) with src by (unfold src; by destruct (bool_decide _)).
  replace (if bool_decide (direction = Some Inbound) then local else remote) with dst by (unfold dst; by destruct (bool_decide _)). clearbody src dst. destruct c as [muted csrc cdst]. cbn [fc_muted fc_src fc_dst] in *.
  assert (Htag : protoSpan muted (htmlEscaped proto) = qs "<span style=" ++ dq ++ qs "color:" ++ muted ++ qs "; font-style:normal;" ++ dq ++ qs ">[" ++ htmlEscaped proto ++ qs "]</span>") by reflexivity.
  destruct colorCode; cbv zeta.
  - match goal with |- content MText ?d = _ => assert (Hdoc : d = protoSpan muted (htmlEscaped proto) ++ qs " <b style=" ++ dq ++ qs "color:" ++ csrc ++ qs ";" ++ dq ++ qs ">" ++ htmlEscaped src
        ++ qs "</b> <span style=" ++ dq ++ qs "color:" ++ muted ++ qs ";" ++ dq ++ qs ">" ++ [8594%Z] ++ qs "</span> <b style=" ++ dq ++ qs "color:" ++ cdst ++ qs ";" ++ dq ++ qs ">" ++ htmlEscaped dst ++ qs "</b>") by reflexivity end.
    rewrite Hdoc, Htag. rewrite <- (app_nil_r (qs "</b>")). read_html. reflexivity.
  - match goal with |- content MText ?d = _ => assert (Hdoc : d = protoSpan muted (htmlEscaped proto) ++ qs " <b>" ++ htmlEscaped src
        ++ qs "</b> <span style=" ++ dq ++ qs "color:" ++ muted ++ qs ";" ++ dq ++ qs ">" ++ [8594%Z] ++ qs "</span> <b>" ++ htmlEscaped dst ++ qs "</b>") by reflexivity end.
    rewrite Hdoc, Htag. rewrite <- (app_nil_r (qs "</b>")). read_html. reflexivity.
Qed.

Lemma chipSpan_eq p selected pal chip :
  chipSpan p selected pal chip = qs "<span style=" ++ dq ++ qs "color:" ++ chipColor p selected (snd chip) pal ++ qs ";" ++ (if leading (snd chip) then qs "font-weight:bold;" else [])
    ++ dq ++ qs ">" ++ htmlEscaped (fst chip) ++ qs "</span>".
Proof. reflexivity. Qed.

Lemma chipSpan_reads p selected pal chip r : content MText (chipSpan p selected pal chip ++ r) = fst chip ++ content MText r.
Proof.
  rewrite chipSpan_eq. pose proof (chipColor_not_gt p selected (snd chip) pal). set (b := if leading (snd chip) then qs "font-weight:bold;" else []).
  assert (62%Z ∉ b) by (unfold b; destruct (leading (snd chip)); [apply (bool_decide_unpack _); vm_compute; exact I|apply not_elem_of_nil]).
  clearbody b. read_html. reflexivity.
Qed.

(** A group's cell reads as its chips, all of them in order, between middle
    dots. *)
Theorem group_cell_reads p selected pal users details showDetails m src g :
  htmlText (buildGroupDoc p selected pal (groupChips users details showDetails m src g)) = qjoin [32; 183; 32]%Z (map fst (groupChips users details showDetails m src g)).
Proof.
  unfold htmlText, buildGroupDoc. generalize (groupChips users details showDetails m src g). intros chips.
  match goal with |- content MText (qjoin ?s _) = _ => set (sep := s) end.
  assert (Hsep : forall r, content MText (sep ++ r) = [32; 183; 32]%Z ++ content MText r).
  { intros r. assert (He : sep = qs " <span style=" ++ dq ++ qs "color:" ++ argbName (cp_placeholder p) ++ qs ";" ++ dq ++ qs ">" ++ [183%Z] ++ qs "</span> ") by reflexivity.
    rewrite He. read_html. reflexivity. }
  clearbody sep. induction chips as [|c chips IH]; [done|]. destruct chips as [|c' chips].
  - cbn [map qjoin]. rewrite <- (app_nil_r (chipSpan _ _ _ _)), chipSpan_reads. cbn [content]. apply app_nil_r.
  - cbn [map] in *. cbn [qjoin] in *. rewrite chipSpan_reads, Hsep. do 2 f_equal. exact IH.
Qed.

(** An interface's cell reads as its name, its details in parentheses and the
    mark of the tray summary. *)
Theorem iface_cell_reads p selected tray name details :
  htmlText (buildIfaceDoc p selected tray name details) =
    name ++ (if isEmpty details then [] else qs " (" ++ details ++ qs ")") ++ (if bool_decide (name ∈ tray) then [32; 55357; 56385]%Z else []).
Proof.
  unfold htmlText, buildIfaceDoc. set (muted := argbName (if selected then _ else _)). assert (Hm : 62%Z ∉ muted) by (unfold muted; auto). clearbody muted.
  assert (Hn : qarg (qs "<b>%1</b>") (htmlEscaped name) = qs "<b>" ++ htmlEscaped name ++ qs "</b>") by reflexivity. rewrite Hn.
  assert (Hd : qargs (qs " <span style=" ++ dq ++ qs "color:%1;" ++ dq ++ qs ">(%2)</span>") [muted; htmlEscaped details]
     = qs " <span style=" ++ dq ++ qs "color:" ++ muted ++ qs ";" ++ dq ++ qs ">(" ++ htmlEscaped details ++ qs ")</span>") by reflexivity. rewrite Hd.
  assert (Ht : qarg (qs " <span style=" ++ dq ++ qs "color:%1;" ++ dq ++ qs ">&#x1F441;</span>") muted
     = qs " <span style=" ++ dq ++ qs "color:" ++ muted ++ qs ";" ++ dq ++ qs ">&#x1F441;</span>") by reflexivity. rewrite Ht.
  destruct details as [|c details]; cbn [isEmpty]; destruct (bool_decide (name ∈ tray)); cbn [app]; rewrite ?app_nil_r;
    rewrite <- (app_nil_r (_ ++ _)); read_html; cbn [app]; rewrite <- ?app_assoc; reflexivity.
Qed.

(** *** Attribution cells *)

(** A flow without a process shows a bare dash: the reason the model gives in
    its text for exactly this column is painted in no case. *)
Theorem reason_never_painted c :
  (pi_pid (c_process c) <= 0)%Z -> c_reason c <> Resolved ->
  attributionPaint AcProcess false c = Some (mkAttributionCell emDash [] false true) /\ processText c <> emDash.
Proof.
  intros Hp Hr. unfold attributionPaint, processCell, processText. destruct (Z.ltb_spec 0 (pi_pid (c_process c))); [lia|]. split_and!; [done..|]. by destruct (c_reason c).
Qed.

(** Otherwise the cell shows what the model's text says, as two parts. *)
Theorem attribution_cell_agrees c :
  (0 < pi_pid (c_process c))%Z -> 37%Z ∉ pi_comm (c_process c) ->
  processText c = at_primary (processCell (c_process c)) ++ [32; 32]%Z ++ at_anno (processCell (c_process c)) /\
  at_primary (containerCell (c_container c) (c_containerChain c)) = (if hostContainer (c_container c) then qs "(host)" else containerShort (c_container c)) /\
  (at_anno (containerCell (c_container c) (c_containerChain c)) = [] <-> containerText c = at_primary (containerCell (c_container c) (c_containerChain c))).
Proof.
  intros Hp Hn. split_and!.
  - unfold processText, processCell. destruct (Z.ltb_spec 0 (pi_pid (c_process c))); [|lia]. set (name := if isEmpty (pi_comm (c_process c)) then _ else _).
    assert (Hpid : qarg (qs "pid %1") (number (pi_pid (c_process c))) = qs "pid " ++ number (pi_pid (c_process c)) ++ []) by reflexivity.
    assert (Hname : noPct name).
    { unfold name. destruct (isEmpty _); [|done]. rewrite Hpid, app_nil_r. apply noPct_app; [apply (bool_decide_unpack _); vm_compute; exact I|apply noPct_number; lia]. }
    clearbody name.
    assert (Hin : qarg (qs "%1  [%2]") name = name ++ qs "  [%2]") by reflexivity. rewrite Hin, qarg_prefix by done. reflexivity.
  - unfold containerCell. by destruct (hostContainer _).
  - unfold containerCell, containerText. destruct (hostContainer _); [done|]. cbn [at_anno at_primary]. destruct (2 <=? length _)%nat; [|done]. split.
    + intros Ha. exfalso. revert Ha. apply qarg_nonempty. reflexivity.
    + intros He. exfalso. apply (f_equal length) in He.
      assert (Hx : qarg (qs "%1  " ++ [9656%Z]) (containerShort (c_container c)) = containerShort (c_container c) ++ qs "  " ++ [9656%Z]) by reflexivity.
      rewrite Hx, length_app in He. cbn in He. lia.
Qed.

(** The two texts never overlap; the annotation stays inside the cell exactly
    when it fits, else it begins left of it, over the column before. *)
Theorem anno_placement left right anno advance :
  (0 <= advance)%Z -> (left <= right)%Z ->
  (snd (primaryRect left right anno advance) < fst (annoRect left right anno advance))%Z /\ snd (annoRect left right anno advance) = right /\
  (primaryMaxWidth left right anno advance <= right - left + 1)%Z /\
  (anno <> [] -> (left <= fst (annoRect left right anno advance))%Z <-> (advance + 2 <= right - left)%Z).
Proof.
  intros Ha Hl. unfold primaryRect, annoRect, primaryMaxWidth, annoWidth. cbn [fst snd]. destruct anno as [|x anno]; cbn [isEmpty]; split_and!; try lia; done || (intros; split; lia).
Qed.

(* ------------------------------------------------------------------ *)
(** ** Examples *)

Definition forwardedFlow : Connection := set_reason Forwarded emptyConnection.
Definition curlFlow : Connection := set_process (mkProcessInfo 4242 (qs "curl") [] [] 1000) emptyConnection.

Lemma reason_never_painted_witness : attributionPaint AcProcess false forwardedFlow = Some (mkAttributionCell emDash [] false true) /\ processText forwardedFlow <> emDash.
Proof. exact (reason_never_painted forwardedFlow ltac:(cbn; lia) ltac:(discriminate)). Defined.

Lemma attribution_cell_agrees_witness : processText curlFlow = qs "curl" ++ [32; 32]%Z ++ qs "[4242]".
Proof.
  refine (proj1 (attribution_cell_agrees curlFlow _ _)); [cbn; lia|]. apply (bool_decide_unpack _). vm_compute. exact I.
Defined.

Lemma anno_placement_witness : (fst (annoRect 104 120 (qs "[4242]") 40) < 104)%Z.
Proof.
  destruct (anno_placement 104 120 (qs "[4242]") 40 ltac:(lia) ltac:(lia)) as (_ & _ & _ & Hl). specialize (Hl ltac:(discriminate)). lia.
Defined.
