(* ===== verification/AgentProbe.v ===== *)
(** * Looking for the agent: [probeAgent] of [src/main.cpp] and
      [src/tui/main.cpp], the choice of the data source, and the exit codes of
      [src/agent/main.cpp]

    The bus is what it answers; a probe is its result with the requests it
    made, in order. *)

From S2P Require Import Prelude Qt Resolver Agent.

(** The value inside a property's reply; [BvNone]: no variant, or an invalid
    one. *)
Inductive BusValue := BvNone | BvStr (s : QString) | BvList (l : list QString).
Definition valueString (v : BusValue) : QString := match v with BvStr s => s | BvList [s] => s | _ => [] end.
Definition valueList (v : BusValue) : list QString := match v with BvStr s => [s] | BvList l => l | BvNone => [] end.
Definition valueValid (v : BusValue) : bool := match v with BvNone => false | _ => true end.

Record Bus := mkBus {
  bus_connected : bool;
  bus_interface : bool;
  bus_registered : bool;                          (* isServiceRegistered *)
  bus_activates : bool;                           (* startService succeeds *)
  bus_answers : bool;                             (* GetInterfaces is no error *)
  bus_property : QString -> option (list BusValue);  (* None: an error reply *)
}.

Inductive BusRequest := RqIsRegistered | RqStartService | RqGetInterfaces | RqProperty (name : QString).
#[global] Instance BusRequest_eq_dec : EqDecision BusRequest. Proof. solve_decision. Defined.

Record AgentProbe := mkAgentProbe { pb_reachable : bool; pb_version : QString; pb_capabilities : list QString }.
Definition noAgent : AgentProbe := mkAgentProbe false [] [].

Definition propGet (b : Bus) (name : QString) : BusValue := match bus_property b name with Some (v :: _) => v | _ => BvNone end.

Definition probeAgent (b : Bus) : AgentProbe * list BusRequest :=
  if negb (bus_connected b) then (noAgent, [])
  else if negb (bus_interface b) then (noAgent, [])
  else
    let asked := RqIsRegistered :: (if bus_registered b then [] else [RqStartService]) in
    if negb (bus_registered b) && negb (bus_activates b) then (noAgent, asked)
    else if negb (bus_answers b) then (noAgent, asked ++ [RqGetInterfaces])
    else
      let v := propGet b (qs "Version") in
      let c := propGet b (qs "Capabilities") in
      (mkAgentProbe true (if valueValid v then valueString v else []) (if valueValid c then valueList c else []),
       asked ++ [RqGetInterfaces; RqProperty (qs "Version"); RqProperty (qs "Capabilities")]).

(** The sources and what they deliver; [netCaps] and [connCaps] are what the
    monitors of the in-process backend report.  The agent's list rides on the
    network proxy, the connection proxy reports nothing. *)
Record Source := mkSource { so_agent : bool; so_version : QString; so_caps : list QString }.
Definition chooseSource (skipAgent : bool) (b : Bus) (netCaps connCaps : list QString) : Source :=
  let probe := if skipAgent then noAgent else fst (probeAgent b) in
  mkSource (pb_reachable probe) (pb_version probe)
    (if pb_reachable probe then mergeCapabilities (pb_capabilities probe) [] else mergeCapabilities netCaps connCaps).

(** [main] of the agent, before its event loop. *)
Definition agentMain (connected starts : bool) : option Z := if negb connected then Some 2%Z else if negb starts then Some 3%Z else None.

(* ------------------------------------------------------------------ *)
(** ** Correctness *)

Definition usable (b : Bus) : Prop :=
  bus_connected b = true /\ bus_interface b = true /\ (bus_registered b = true \/ bus_activates b = true) /\ bus_answers b = true.

Lemma probe_spec b :
  let '(info, rqs) := probeAgent b in
  (pb_reachable info = true <-> usable b) /\
  (pb_reachable info = false -> info = noAgent /\ forall n, RqProperty n ∉ rqs) /\
  (RqStartService ∈ rqs <-> bus_connected b = true /\ bus_interface b = true /\ bus_registered b = false) /\
  (RqGetInterfaces ∈ rqs -> bus_registered b = true \/ bus_activates b = true).
Proof.
  assert (Hin : forall (x : BusRequest) l, x ∈ l <-> In x l) by (intros; apply list_elem_of_In).
  unfold probeAgent, usable. destruct b as [con ifc reg act ans prop]; cbn [bus_connected bus_interface bus_registered bus_activates bus_answers].
  destruct con, ifc, reg, act, ans; cbn [negb andb app]; cbn [pb_reachable noAgent];
    (split_and!; [naive_solver| |rewrite Hin; cbn; naive_solver|rewrite Hin; cbn; naive_solver]);
    try done; intros _; (split; [done|]); intros n; rewrite Hin; cbn; naive_solver.
Qed.

(** The agent counts as reachable exactly when a real call to it was answered;
    nothing is called before somebody owns its name, it is started only when
    nobody does, and an agent that cannot be used leaves no trace in what is
    shown. *)
Theorem probe_exact b :
  let '(info, rqs) := probeAgent b in
  (pb_reachable info = true <-> usable b) /\
  (pb_reachable info = false -> info = noAgent /\ forall n, RqProperty n ∉ rqs) /\
  (RqStartService ∈ rqs <-> bus_connected b = true /\ bus_interface b = true /\ bus_registered b = false) /\
  (RqGetInterfaces ∈ rqs -> bus_registered b = true \/ bus_activates b = true).
Proof. apply probe_spec. Qed.

(** What is offered to the user is what the source in use delivers: the agent's
    tokens when it can be used and was not refused, else those of the two
    monitors of this process, each once. *)
Theorem source_capabilities skip b netCaps connCaps tok :
  let s := chooseSource skip b netCaps connCaps in
  (so_agent s = true <-> skip = false /\ usable b) /\ NoDup (so_caps s) /\
  (tok ∈ so_caps s <-> if so_agent s then tok ∈ pb_capabilities (fst (probeAgent b)) else tok ∈ netCaps \/ tok ∈ connCaps).
Proof.
  assert (Hm : forall x y, NoDup (mergeCapabilities x y) /\ forall t, t ∈ mergeCapabilities x y <-> t ∈ x \/ t ∈ y).
  { intros x y. unfold mergeCapabilities. split; [apply addToken_spec, NoDup_nil_2|]. intros t. rewrite addToken_all_spec, elem_of_app. set_solver. }
  cbv zeta. unfold chooseSource. pose proof (probe_spec b) as Hp. destruct (probeAgent b) as [info rqs]. destruct Hp as (Hr & _).
  destruct skip; cbn [so_agent so_caps fst noAgent pb_reachable].
  - split_and!; [naive_solver|apply Hm|apply Hm].
  - destruct (pb_reachable info) eqn:Ei; cbn [so_agent].
    + split_and!; [naive_solver|apply Hm|]. rewrite (proj2 (Hm _ _)). set_solver.
    + split_and!; [naive_solver|apply Hm|apply Hm].
Qed.

(* ------------------------------------------------------------------ *)
(** ** Examples *)

Definition agentBus : Bus := mkBus true true false true true (fun n => if qeqb n (qs "Version") then Some [BvStr (qs "0.4")] else Some [BvList [qs "tcp-state"]]).
(** A caller outside the group: the name is there, every call is refused. *)
Definition refusingBus : Bus := mkBus true true true true false (fun _ => None).

Example agent_is_activated : probeAgent agentBus =
  (mkAgentProbe true (qs "0.4") [qs "tcp-state"], [RqIsRegistered; RqStartService; RqGetInterfaces; RqProperty (qs "Version"); RqProperty (qs "Capabilities")]).
Proof. reflexivity. Qed.
Example refused_falls_back : chooseSource false refusingBus [qs "ifindex"] [qs "tcp-state"; qs "ifindex"] = mkSource false [] [qs "ifindex"; qs "tcp-state"].
Proof. reflexivity. Qed.
