(* ===== verification/TuiStart.v ===== *)
(** * Terminal frontend, the program: [main] of [src/tui/main.cpp]

    The controller of [TuiControl] with the two aggregators, the monitors it
    pushes its settings to, the input and signal notifiers and the heartbeat.
    The monitors are behind their interface: what they are told is the list of
    calls a step makes.  An effect of the controller is carried out after the
    handler that asked for it; the aggregators answer with nothing but a
    request to redraw, which the handler cannot see. *)

From S2P Require Import Prelude StdAlgo Qt Conn DbusTypes Filter UdpAgg Aggregator AggregatorProofs AggregatorRun IfaceAgg Units Export WindowText.
From S2P Require Import TuiFormat TuiScreen TuiState TuiControl TuiFrame TuiPrefs TuiProofs TuiRun TuiSamples.
Local Open Scope step_scope.

Inductive MainCall :=
| NetPoll (ms : Z)
| ConnPoll (ms : Z)
| NetDesired (ms : Z)
| ConnDesired (ms : Z)
| ConnEager (mode : QString)
| ConnDetails (pid : Z)
| NetStart
| ConnStart
| DnsResolve (addr : QHostAddress)
| ResizeTerm (rows cols : Z)
| DrawFrame (f : Frame)
| OtherEffect (e : TuiEffect).       (* the theme, files, the flash timer, the tween's period *)

Record TuiMain := mkTuiMain {
  tm_iface : InterfaceAggregator;
  tm_agg : Aggregator;
  tm_app : TuiApp;
  tm_inbuf : list Z;       (* Screen: bytes of an unfinished key *)
  tm_stdin : bool;         (* stdinNotifier is enabled *)
  tm_redraw : bool;        (* the redraw timer is armed *)
  tm_smooth : bool;        (* the tween timer runs *)
  tm_screen : bool;        (* ncurses owns the terminal *)
  tm_quit : bool;
}.

Definition with_iface (x : InterfaceAggregator) (m : TuiMain) : TuiMain :=
  mkTuiMain x (tm_agg m) (tm_app m) (tm_inbuf m) (tm_stdin m) (tm_redraw m) (tm_smooth m) (tm_screen m) (tm_quit m).
Definition with_agg (x : Aggregator) (m : TuiMain) : TuiMain :=
  mkTuiMain (tm_iface m) x (tm_app m) (tm_inbuf m) (tm_stdin m) (tm_redraw m) (tm_smooth m) (tm_screen m) (tm_quit m).
Definition with_app (x : TuiApp) (m : TuiMain) : TuiMain :=
  mkTuiMain (tm_iface m) (tm_agg m) x (tm_inbuf m) (tm_stdin m) (tm_redraw m) (tm_smooth m) (tm_screen m) (tm_quit m).
Definition with_input (buf : list Z) (on : bool) (m : TuiMain) : TuiMain :=
  mkTuiMain (tm_iface m) (tm_agg m) (tm_app m) buf on (tm_redraw m) (tm_smooth m) (tm_screen m) (tm_quit m).
Definition with_timers (redraw smooth : bool) (m : TuiMain) : TuiMain :=
  mkTuiMain (tm_iface m) (tm_agg m) (tm_app m) (tm_inbuf m) (tm_stdin m) redraw smooth (tm_screen m) (tm_quit m).
Definition with_exit (screen quit : bool) (m : TuiMain) : TuiMain :=
  mkTuiMain (tm_iface m) (tm_agg m) (tm_app m) (tm_inbuf m) (tm_stdin m) (tm_redraw m) (tm_smooth m) screen quit.

(** A slot of the controller connected to a signal of an aggregator. *)
Definition dataChanged (m : TuiMain) : TuiMain :=
  let '(app, es) := onDataChanged (tm_app m) in
  with_timers (tm_redraw m || negb (isEmpty es)) (tm_smooth m) (with_app app m).
Definition aggSignal (m : TuiMain) (s : AggSignal) : TuiMain :=
  match s with rowsInserted | rowsRemoved | rowsUpdated _ _ | viewDataChanged => dataChanged m | _ => m end.
Definition resolves (sigs : list AggSignal) : list MainCall := omap (fun s => match s with resolveCall a => Some (DnsResolve a) | _ => None end) sigs.

Definition aggOp (op : AggOp) (a : Aggregator) : Aggregator * list AggSignal :=
  match op with
  | AggUdpByPeer b => (setUdpAggregateByPeer b a, [])
  | AggSmoothing ms => (setRateSmoothingMs ms a, [])
  | AggHostnames b => setHostnameResolutionEnabled b a
  | AggPollInterval ms => (setPollIntervalMs ms a, [])
  end.

Definition applyPoll (ms : Z) : list MainCall := [NetPoll ms; ConnPoll ms; NetDesired ms; ConnDesired ms].

Definition execute (e : TuiEffect) (m : TuiMain) : TuiMain * list MainCall :=
  match e with
  | CallAggregator op => let '(a, sigs) := aggOp op (tm_agg m) in (foldl aggSignal (with_agg a m) sigs, resolves sigs)
  | ApplyPollMs ms => (m, applyPoll ms)
  | RequestDetails pid => (m, [ConnDetails pid])
  | RequestEagerness mode => (m, [ConnEager mode])
  | StartRedrawTimer => (with_timers true (tm_smooth m) m, [])
  | StartSmoothTimer => (with_timers (tm_redraw m) true m, [])
  | StopSmoothTimer => (with_timers (tm_redraw m) false m, [])
  | ShutdownScreen => (with_exit false (tm_quit m) m, [])
  | QuitApp => (with_exit (tm_screen m) true m, [])
  | _ => (m, [OtherEffect e])
  end.
Definition thenDo {A} (f : A -> TuiMain -> TuiMain * list MainCall) (r : TuiMain * list MainCall) (x : A) : TuiMain * list MainCall :=
  let '(m, cs) := f x (fst r) in (m, snd r ++ cs).
Definition executeAll (es : list TuiEffect) (m : TuiMain) : TuiMain * list MainCall := foldl (thenDo execute) (m, []) es.
Definition perform (f : Step) (m : TuiMain) : TuiMain * list MainCall := let '(app, es) := f (tm_app m) in executeAll es (with_app app m).

(** The aggregators a handler reads are the program's own. *)
Definition seenBy (w : TuiEnv) (m : TuiMain) : TuiEnv :=
  mkTuiEnv (tm_iface m) (tm_agg m) (te_rows w) (te_stampMs w) (te_stamp w) (te_exists w) (te_absolute w) (te_dirSize w) (te_save w) (te_escalates w).

Inductive ReadResult := RdBytes (data : list Z) | RdTransient | RdGone.   (* n > 0; EINTR or EAGAIN; end of file or another error *)
Definition SIGWINCH : Z := 28.

Inductive MainEvent :=
| MnStats (nowMs : Z) (stats : list InterfaceStats)
| MnFlows (nowMs : Z) (conns : list Connection)
| MnPatch (patch : list Connection)
| MnResolved (addr : QHostAddress)
| MnTween (nowMs : Z)
| MnDetails (d : ProcessDetailsDto)
| MnInput (w : nat -> TuiEnv) (r : ReadResult)
| MnSignals (sigs : list (Z * option (Z * Z)))      (* with the window size at that moment *)
| MnRedraw (w : TuiEnv) (about : AboutInfo)
| MnFlashOver
| MnHeartbeat
| MnAboutToQuit (w : TuiEnv).

Section Main.
Context `{QtNumberText, QtUnicode, QtAddrText, QtRegex, QtToDouble, StdStableSort, StdSort, CMath, QHashOrder, QtIntText}.
Context (dnsCachedName : nat -> QHostAddress -> QString) (undefinedRate : QString).

Definition refreshLocalAddrs (m : TuiMain) : TuiMain :=
  let '(a, sigs) := setLocalAddresses (localsOf (ir_current <$> ia_rows (tm_iface m))) (tm_agg m) in foldl aggSignal (with_agg a m) sigs.
Definition ifaceSignal (m : TuiMain) (s : IfaceSignal) : TuiMain :=
  match s with didReset | rowsChanged _ _ => dataChanged (refreshLocalAddrs m) | aboutToReset => m end.
Definition statsArrived (nowMs : Z) (stats : list InterfaceStats) (m : TuiMain) : TuiMain :=
  let '(ia, sigs) := updateStats nowMs stats (tm_iface m) in foldl ifaceSignal (with_iface ia m) sigs.
Definition flowsArrived (ev : AggEvent) (m : TuiMain) : TuiMain * list MainCall :=
  let '(a, sigs) := agg_step (tm_agg m) ev in (foldl aggSignal (with_agg a m) sigs, resolves sigs).

(** The keys of one read, each in the world as it is when its turn comes. *)
Fixpoint handleKeys (w : nat -> TuiEnv) (ks : list Z) (m : TuiMain) : TuiMain * list MainCall :=
  match ks with
  | [] => (m, [])
  | k :: ks =>
      let '(m1, c1) := perform (handleKey dnsCachedName (seenBy (w 0) m) k) m in
      let '(m2, c2) := handleKeys (fun i => w (S i)) ks m1 in (m2, c1 ++ c2)
  end.
Definition stdinActivated (w : nat -> TuiEnv) (r : ReadResult) (m : TuiMain) : TuiMain * list MainCall :=
  match r with
  | RdBytes data => let '(ks, buf) := readKeys data (tm_inbuf m) in handleKeys w ks (with_input buf (tm_stdin m) m)
  | RdTransient => (m, [])
  | RdGone => (with_exit (tm_screen m) true (with_input (tm_inbuf m) false m), [])
  end.

Definition signalByte (b : Z * option (Z * Z)) (m : TuiMain) : TuiMain * list MainCall :=
  if (fst b =? SIGWINCH)%Z then
    let resize := match snd b with Some (r, c) => if negb (r =? 0)%Z && negb (c =? 0)%Z then [ResizeTerm r c] else [] | None => [] end in
    let '(m, cs) := perform requestRedraw m in (m, resize ++ cs)
  else (with_exit false true m, []).

Definition warm (m : TuiMain) : list MainCall :=
  let p := ta_prefs (tm_app m) in
  [NetDesired (pf_pollMs p); ConnDesired (pf_pollMs p)] ++ (if isEmpty (pf_eagerness p) then [] else [ConnEager (pf_eagerness p)]).

Definition redrawNow (w : TuiEnv) (about : AboutInfo) (m : TuiMain) : TuiMain * list MainCall :=
  let '(f, app) := doRedraw dnsCachedName undefinedRate (seenBy w m) about (tm_app m) in
  (with_timers false (tm_smooth m) (with_app app m), [DrawFrame f]).

Definition mainStep (e : MainEvent) (m : TuiMain) : TuiMain * list MainCall :=
  match e with
  | MnStats nowMs stats => (statsArrived nowMs stats m, [])
  | MnFlows nowMs conns => flowsArrived (AgUpdate nowMs conns) m
  | MnPatch patch => flowsArrived (AgPatch patch) m
  | MnResolved addr => flowsArrived (AgResolved addr) m
  | MnTween nowMs => if tm_smooth m then flowsArrived (AgSmooth nowMs) m else (m, [])
  | MnDetails d => perform (onProcessDetails d) m
  | MnInput w r => if tm_stdin m then stdinActivated w r m else (m, [])
  | MnSignals sigs => foldl (thenDo signalByte) (m, []) sigs
  | MnRedraw w about => if tm_redraw m then redrawNow w about m else (m, [])
  | MnFlashOver => perform (update (set_ta_flashMsg []) >>> requestRedraw) m
  | MnHeartbeat => (m, warm m)
  | MnAboutToQuit w => perform (saveSettings w) (with_exit false (tm_quit m) m)
  end.

(** [main] up to the event loop. *)
Definition mainPollMs (given : option QString) : Z := match given with Some _ => cliPollMs given | None => 1000%Z end.
Definition mainStart (s : gmap QString SVal) (theme view group : QString) (given : option QString) (label : QString)
    (caps : list QString) (ports : Z * Z) (locals : gset QHostAddress) : TuiMain * list MainCall :=
  let a := setPollIntervalMs (mainPollMs given) (setRateSmoothingMs 300 (newAggregator ports)) in
  let a := fst (setLocalAddresses locals (fst (setDnsResolver (Some 0) a))) in
  let '(app, es) := startApp s (mkCli theme (cliPollMs given) view group) label in
  let '(m, c1) := executeAll es (mkTuiMain newIfaceAgg a app [] true false false true false) in
  let '(m, c2) := perform (setBackendInfo caps) m in
  let '(m, c3) := perform setPollApplier m in
  let '(m, c4) := perform (update (set_ta_askDetails true) >>> update (set_ta_askEagerness true)) m in
  (m, c1 ++ c2 ++ c3 ++ c4 ++ warm m ++ [NetStart; ConnStart]).

Fixpoint mainRun (es : list MainEvent) (m : TuiMain) : TuiMain * list MainCall :=
  match es with
  | [] => (m, [])
  | e :: es => let '(m1, c1) := mainStep e m in let '(m2, c2) := mainRun es m1 in (m2, c1 ++ c2)
  end.
End Main.

(* ------------------------------------------------------------------ *)
(** ** What the handlers owe the rest of the program

    A handler changes preferences and asks for effects; [Shadow] is what the
    effects leave outside the controller, [shadowOf] what it should be. *)

Definition wireMode (eager : QString) : QString := if isEmpty eager then qs "default" else eager.

Record Shadow := mkShadow {
  sh_netPoll : Z; sh_connPoll : Z; sh_netWant : Z; sh_connWant : Z;
  sh_eager : QString;
  sh_udp : bool; sh_smoothing : Z; sh_dns : bool; sh_poll : Z;
  sh_redraw : bool; sh_tween : bool;
}.

(** The clamp of the aggregator's setters. *)
Definition atLeast0 (ms : Z) : Z := if (ms <? 0)%Z then 0 else ms.

Definition shadowOf (st : TuiApp) : Shadow :=
  let p := ta_prefs st in
  mkShadow (pf_pollMs p) (pf_pollMs p) (pf_pollMs p) (pf_pollMs p) (wireMode (pf_eagerness p))
    (pf_udpAggregate p) (atLeast0 (if pf_smoothing p then 300 else 0)) (pf_dns p) (atLeast0 (pf_pollMs p)) (ta_redrawPending st) (negb (ta_paused st)).

Definition shadowStep (s : Shadow) (e : TuiEffect) : Shadow :=
  let '(mkShadow np cp nw cw ea ud sm dn po re tw) := s in
  match e with
  | ApplyPollMs ms => mkShadow ms ms ms ms ea ud sm dn po re tw
  | RequestEagerness mode => mkShadow np cp nw cw mode ud sm dn po re tw
  | CallAggregator (AggUdpByPeer b) => mkShadow np cp nw cw ea b sm dn po re tw
  | CallAggregator (AggSmoothing ms) => mkShadow np cp nw cw ea ud (atLeast0 ms) dn po re tw
  | CallAggregator (AggHostnames b) => mkShadow np cp nw cw ea ud sm b po re tw
  | CallAggregator (AggPollInterval ms) => mkShadow np cp nw cw ea ud sm dn (atLeast0 ms) re tw
  | StartRedrawTimer => mkShadow np cp nw cw ea ud sm dn po true tw
  | StartSmoothTimer => mkShadow np cp nw cw ea ud sm dn po re true
  | StopSmoothTimer => mkShadow np cp nw cw ea ud sm dn po re false
  | _ => s
  end.

Definition installed (st : TuiApp) : bool := ta_applyPoll st && ta_askEagerness st.

Definition honest (f : Step) : Prop := forall st, installed st = true ->
  installed (fst (f st)) = true /\ foldl shadowStep (shadowOf st) (snd (f st)) = shadowOf (fst (f st)).

Lemma honest_andThen f g : honest f -> honest g -> honest (f >>> g).
Proof.
  intros Hf Hg st Hi. unfold andThen. destruct (Hf st Hi) as [Hi1 Hs1]. destruct (f st) as [st1 e1]. cbn [fst snd] in *.
  destruct (Hg st1 Hi1) as [Hi2 Hs2]. destruct (g st1) as [st2 e2]. cbn [fst snd] in *. split; [done|]. by rewrite foldl_app, Hs1.
Qed.
Lemma honest_skip : honest skip.
Proof. by intros st. Qed.
Lemma honest_when b f g : honest f -> honest g -> honest (when b f g).
Proof. intros Hf Hg st Hi. unfold when. destruct (b st); auto. Qed.
(** Updates that touch nothing of the shadow. *)
Definition apart (f : TuiApp -> TuiApp) : Prop := forall st, installed (f st) = installed st /\ shadowOf (f st) = shadowOf st.
Lemma honest_update f : apart f -> honest (update f).
Proof. intros Hf st Hi. destruct (Hf st) as [Hf1 Hf2]. cbn. by rewrite Hf1, Hf2. Qed.
Lemma apart_onNav f : apart (onNav f).
Proof. by intros st. Qed.
Lemma apart_onDetail f : apart (onDetail f).
Proof. by intros st. Qed.
Lemma apart_onEdit f : apart (onEdit f).
Proof. by intros st. Qed.
Lemma apart_compose f g : apart f -> apart g -> apart (fun st => f (g st)).
Proof. intros Hf Hg st. destruct (Hf (g st)) as [-> ->]. apply Hg. Qed.
Lemma honest_redraw : honest requestRedraw.
Proof. intros st Hi. unfold requestRedraw. by destruct (ta_redrawPending st) eqn:E; cbn [fst snd foldl]. Qed.
Lemma honest_emit es : (forall s, foldl shadowStep s es = s) -> honest (emit es).
Proof. intros He st Hi. cbn. by rewrite He. Qed.
#[local] Hint Resolve honest_andThen honest_skip honest_when honest_redraw honest_update honest_emit : honest.

(** Handlers that look at the state before they choose. *)
Lemma honest_pick {A} (c : TuiApp -> A) (f : A -> Step) : (forall x, honest (f x)) -> honest (fun st => f (c st) st).
Proof. intros Hf st. apply Hf. Qed.

Lemma apart_flip : apart flipSortDesc.
Proof. intros st. unfold flipSortDesc, onPrefs, installed, shadowOf. cbn. by case_bool_decide. Qed.
Lemma apart_sortField id : apart (setCurrentSortField id).
Proof. intros st. unfold setCurrentSortField, onPrefs, installed, shadowOf. cbn. by case_bool_decide. Qed.
#[local] Hint Resolve apart_flip apart_sortField : honest.

Ltac apart_solve := intros ?; repeat (case_match || case_bool_decide); by repeat split.
Ltac honest_step := first
  [ solve [auto 2 with honest] | apply honest_andThen | apply honest_skip | apply honest_redraw | apply honest_when
  | apply honest_update; apart_solve | apply honest_emit; by intros []
  | case_match | case_bool_decide ].
Ltac honest_solve := repeat honest_step; auto with honest.

Lemma honest_flash msg : honest (flashMessage msg).
Proof. unfold flashMessage. honest_solve. Qed.
Lemma honest_move d : honest (moveCursor d).
Proof. unfold moveCursor, setCurrentCursor. honest_solve. Qed.
#[local] Hint Resolve honest_flash honest_move : honest.
Lemma honest_collapse : honest collapseAtCursor.
Proof. intros st. unfold collapseAtCursor. repeat case_match; try by intros Hi. apply honest_andThen; honest_solve. Qed.
Lemma honest_expand : honest expandAtCursor.
Proof. intros st. unfold expandAtCursor. repeat case_match; try by intros Hi. apply honest_andThen; honest_solve. Qed.
Lemma honest_toggle : honest toggleCollapseAtCursor.
Proof. intros st. unfold toggleCollapseAtCursor. repeat case_match; try by intros Hi. all: apply honest_andThen; honest_solve. Qed.
Lemma honest_ensure pid : honest (ensureProcessDetails pid).
Proof. intros st Hi. unfold ensureProcessDetails. repeat case_match; done. Qed.
Lemma honest_details d : honest (onProcessDetails d).
Proof. intros st. unfold onProcessDetails. case_match; [by intros Hi|]. apply honest_andThen; honest_solve. Qed.
#[local] Hint Resolve honest_collapse honest_expand honest_toggle honest_ensure : honest.
Lemma honest_warmPid r : honest (warmPid r).
Proof. unfold warmPid. honest_solve. Qed.
#[local] Hint Resolve honest_warmPid : honest.
Lemma honest_openDetail `{QtAddrText} env : honest (openDetail env).
Proof.
  intros st. unfold openDetail. case_match; [|by intros Hi]. case_match; [by intros Hi|].
  apply honest_andThen; [honest_solve|]. apply honest_andThen; [honest_solve|]. apply honest_andThen; [|honest_solve]. case_match; auto with honest.
Qed.
Lemma honest_openGroup `{QtAddrText} env : honest (openGroupDetail env).
Proof.
  intros st. unfold openGroupDetail. case_match; [by intros Hi|]. case_match; [|by intros Hi]. case_match; [by intros Hi|].
  apply honest_andThen; [honest_solve|]. apply honest_andThen; [honest_solve|]. apply honest_andThen; [|honest_solve]. case_match; auto with honest.
Qed.
#[local] Hint Resolve honest_openDetail honest_openGroup : honest.
Lemma honest_detailKey key : honest (handleDetailKey key).
Proof. unfold handleDetailKey, retarget. honest_solve. Qed.
Lemma honest_infoKey key : honest (handleInfoKey key).
Proof. unfold handleInfoKey. honest_solve. Qed.
Lemma honest_filterKey `{QtUnicode, QtAddrText, QtRegex, QtToDouble} key : honest (handleFilterKey key).
Proof. unfold handleFilterKey, commitFilter. honest_solve. Qed.
Lemma honest_save env : honest (saveSettings env).
Proof. intros st Hi. unfold saveSettings. by case_match. Qed.
Lemma honest_aggSettings : honest applyAggregatorSettings.
Proof. by intros st Hi. Qed.
Lemma honest_settingsKey key : honest (handleSettingsKey key).
Proof.
  assert (Ha : forall dir, honest (activate dir)).
  { intros dir st Hi. pose proof Hi as [Hp He]%andb_prop. unfold activate. cbv beta delta [andThen]. set (sel := if (0 <=? ta_settingsSel st)%Z then _ else _). clearbody sel. destruct sel as [s|]; [|split; [cbn; done|cbn; reflexivity]].
    destruct s; unfold adjustSetting, toggleOptionalColumn, andThen, update, applyPollInterval, requestRedraw; cbn; try done; [by rewrite Hp|..].
    all: unfold shadowOf; destruct (ta_redrawPending st) eqn:Er; cbn; by rewrite ?Er. }
  unfold handleSettingsKey. honest_solve.
Qed.
Lemma honest_at st st' f : installed st = true -> installed st' = installed st -> shadowOf st' = shadowOf st -> honest f ->
  installed (fst (f st')) = true /\ foldl shadowStep (shadowOf st) (snd (f st')) = shadowOf (fst (f st')).
Proof. intros Hi Hi' <- Hf. apply Hf. congruence. Qed.
Lemma honest_fieldsKey key : honest (handleFieldsKey key).
Proof.
  intros st. unfold handleFieldsKey. case_match; [apply honest_andThen; honest_solve|]. intros Hi.
  case_match; [|done]. apply (honest_at st); [done..|]. unfold toggleOptionalColumn. honest_solve.
Qed.
Lemma andThen_assoc f g h st : (f >>> g >>> h) st = ((f >>> g) >>> h) st.
Proof. unfold andThen. destruct (f st) as [s1 e1], (g s1) as [s2 e2], (h s2) as [s3 e3]. by rewrite app_assoc. Qed.
Lemma honest_cycle env : honest (cycleAttributionEagerness env).
Proof.
  intros st Hi. unfold cycleAttributionEagerness. case_match; [by apply honest_flash|]. rewrite andThen_assoc.
  assert (Hn : honest (flashMessage (qarg (qs "Attribution eagerness: %1") (wireMode (default [] (eagernessOrder !! (S (match list_find
    (fun s => s = pf_eagerness (ta_prefs st)) eagernessOrder with Some (i, _) => i | None => 0 end) mod 4))))) >>> saveSettings env >>> requestRedraw))
    by auto using honest_andThen, honest_flash, honest_save, honest_redraw.
  set (value := default [] _) in *. clearbody value. fold (wireMode value).
  set (g := flashMessage _ >>> _) in *. clearbody g. pose proof Hi as [Hp He]%andb_prop. rewrite He.
  set (st1 := onPrefs (set_pf_eagerness value) st). destruct (Hn st1 Hi) as [Hi1 Hs1].
  unfold andThen, update, emit. fold st1. destruct (g st1) as [st2 es2]. cbn [fst snd app foldl] in *. split; [done|]. rewrite <- Hs1. reflexivity.
Qed.
Lemma honest_pause env : honest (togglePause env).
Proof. intros st Hi. unfold togglePause. destruct (ta_paused st) eqn:Ep; split; try done; unfold shadowOf; cbn; by rewrite ?Ep. Qed.
#[local] Hint Resolve honest_detailKey honest_infoKey honest_filterKey honest_save honest_settingsKey honest_fieldsKey honest_cycle honest_pause : honest.

Section Handlers.
Context `{QtNumberText, QtUnicode, QtAddrText, QtRegex, QtToDouble, StdStableSort, StdSort, CMath, QHashOrder, QtIntText}.
Context (dnsCachedName : nat -> QHostAddress -> QString) (undefinedRate : QString).

Lemma honest_export env path : honest (exportCurrentView dnsCachedName env path).
Proof. intros st. unfold exportCurrentView. cbv zeta. destruct (if isEmpty path then _ else _); [|by intros Hi]. apply honest_andThen; honest_solve. Qed.
Lemma honest_prompt env : honest (promptExportFilename env).
Proof. unfold promptExportFilename. honest_solve. Qed.
#[local] Hint Resolve honest_export honest_prompt : honest.
Lemma honest_exportKey env key : honest (handleExportKey dnsCachedName env key).
Proof.
  assert (Hd : honest (fun st => let draft := trimmed (ed_exportDraft (ta_edit st)) in
    if isEmpty draft then (st, []) else exportCurrentView dnsCachedName env draft st)).
  { intros st. cbv zeta. destruct (isEmpty _); [by intros Hi|apply honest_export]. }
  unfold handleExportKey. honest_solve.
Qed.
Lemma honest_themeNote : honest (fun st => (st, [SetTheme (pf_themeIdx (ta_prefs st))])).
Proof. by intros st. Qed.
#[local] Hint Resolve honest_exportKey honest_themeNote : honest.
Lemma apart_cycleSort : apart cycleSortField.
Proof. intros st. unfold cycleSortField. repeat case_match; try done. apply apart_sortField. Qed.
#[local] Hint Resolve apart_cycleSort : honest.
Lemma honest_mainKey env key : honest (mainKey dnsCachedName env key).
Proof. unfold mainKey, openFields, cycleGroup, clearFilter. cbv zeta. honest_solve. Qed.
Lemma honest_handleKey env key : honest (handleKey dnsCachedName env key).
Proof. intros st. unfold handleKey. repeat case_match; auto using honest_mainKey with honest; by (apply honest_settingsKey || apply honest_fieldsKey || apply honest_infoKey || apply honest_detailKey || apply honest_filterKey || apply honest_exportKey || apply honest_mainKey). Qed.

Lemma saveSettings_ok env : keeps tui_ok (saveSettings env).
Proof. intros st Hok. unfold saveSettings. by case_match. Qed.

(* ------------------------------------------------------------------ *)
(** ** Carrying the effects out *)

(** What the monitors were told last. *)
Record Heard := mkHeard { h_netPoll : Z; h_connPoll : Z; h_netWant : Z; h_connWant : Z; h_eager : QString }.
Definition hear (h : Heard) (c : MainCall) : Heard :=
  let '(mkHeard np cp nw cw ea) := h in
  match c with
  | NetPoll ms => mkHeard ms cp nw cw ea
  | ConnPoll ms => mkHeard np ms nw cw ea
  | NetDesired ms => mkHeard np cp ms cw ea
  | ConnDesired ms => mkHeard np cp nw ms ea
  | ConnEager mode => mkHeard np cp nw cw mode
  | _ => h
  end.

Definition shadowNow (h : Heard) (m : TuiMain) : Shadow :=
  let s := ag_settings (tm_agg m) in
  mkShadow (h_netPoll h) (h_connPoll h) (h_netWant h) (h_connWant h) (h_eager h)
    (as_udpAggregateByPeer s) (as_rateSmoothingMs s) (as_resolveEnabled s) (as_pollIntervalMs s) (tm_redraw m) (tm_smooth m).

(** With the effects [es] still to be carried out, the program will be in step
    with the controller. *)
Record following (h : Heard) (es : list TuiEffect) (m : TuiMain) : Prop := {
  fo_installed : installed (tm_app m) = true;
  fo_ok : tui_ok (tm_app m);
  fo_shadow : foldl shadowStep (shadowNow h m) es = shadowOf (tm_app m);
}.

Definition raise (s : Shadow) : Shadow :=
  let '(mkShadow np cp nw cw ea ud sm dn po re tw) := s in mkShadow np cp nw cw ea ud sm dn po true tw.
Lemma raise_foldl es s : foldl shadowStep (raise s) es = raise (foldl shadowStep s es).
Proof.
  revert s. induction es as [|e es IH]; intros s; [done|]. cbn [foldl]. rewrite <- IH. f_equal. destruct s, e; try done. by destruct op.
Qed.

Lemma following_dataChanged h es m : following h es m -> following h es (dataChanged m).
Proof.
  intros [Hi Hok Hs]. unfold dataChanged, onDataChanged, when, requestRedraw.
  destruct (ta_paused (tm_app m)); cbn [skip]; [split; try done; unfold shadowNow; cbn; by rewrite orb_false_r|].
  destruct (ta_redrawPending (tm_app m)) eqn:Er; [split; try done; unfold shadowNow; cbn; by rewrite orb_false_r|].
  split; [done|by destruct Hok; split|].
  transitivity (foldl shadowStep (raise (shadowNow h m)) es); [f_equal; unfold shadowNow; cbn; by rewrite orb_true_r|]. by rewrite raise_foldl, Hs.
Qed.
Lemma following_aggSignals h es sigs m : following h es m -> following h es (foldl aggSignal m sigs).
Proof. revert m. induction sigs as [|s sigs IH]; intros m Hm; [done|]. apply IH. destruct s; cbn; auto using following_dataChanged. Qed.

(** Neither the interfaces nor the known addresses are touched. *)
Definition localsKept (m m' : TuiMain) : Prop :=
  tm_iface m' = tm_iface m /\ as_localAddrs (ag_settings (tm_agg m')) = as_localAddrs (ag_settings (tm_agg m)).
#[local] Instance localsKept_preorder : PreOrder localsKept.
Proof. split; [done|]. intros m1 m2 m3 [? ?] [? ?]. split; congruence. Qed.
Lemma aggSignals_agg sigs m : tm_iface (foldl aggSignal m sigs) = tm_iface m /\ tm_agg (foldl aggSignal m sigs) = tm_agg m.
Proof.
  revert m. induction sigs as [|s sigs IH]; intros m; [done|]. cbn [foldl]. destruct (IH (aggSignal m s)) as [-> ->].
  destruct s; cbn; try done; unfold dataChanged; by destruct (onDataChanged (tm_app m)).
Qed.

Lemma hear_resolves h sigs : foldl hear h (resolves sigs) = h.
Proof.
  revert h. induction sigs as [|s sigs IH]; intros h; [done|]. unfold resolves in *. destruct s; cbn; try apply IH. rewrite IH. by destruct h.
Qed.

Lemma aggOp_settings op a : let s := ag_settings a in let s' := ag_settings (fst (aggOp op a)) in
  as_localAddrs s' = as_localAddrs s /\
  as_udpAggregateByPeer s' = (if op is AggUdpByPeer b then b else as_udpAggregateByPeer s) /\
  as_rateSmoothingMs s' = (if op is AggSmoothing ms then atLeast0 ms else as_rateSmoothingMs s) /\
  as_resolveEnabled s' = (if op is AggHostnames b then b else as_resolveEnabled s) /\
  as_pollIntervalMs s' = (if op is AggPollInterval ms then atLeast0 ms else as_pollIntervalMs s).
Proof.
  destruct op as [b|ms|b|ms]; cbn; try done. unfold setHostnameResolutionEnabled.
  destruct (Bool.eqb (as_resolveEnabled (ag_settings a)) b) eqn:E; cbn; [|done]. apply Bool.eqb_prop in E. by rewrite E.
Qed.

Lemma following_execute h e es m : following h (e :: es) m ->
  let '(m', cs) := execute e m in following (foldl hear h cs) es m' /\ localsKept m m'.
Proof.
  intros [Hi Hok Hs]. cbn [foldl] in Hs.
  destruct e; cbn [execute]; try (split; [split; try done; rewrite <- Hs; unfold shadowNow; by destruct h|done]).
  pose proof (aggOp_settings op (tm_agg m)) as Ha. destruct (aggOp op (tm_agg m)) as [a sigs]. cbn [fst] in Ha. destruct Ha as (Hl & Hu & Hm & Hr & Hp).
  rewrite hear_resolves. split.
  - apply following_aggSignals. split; try done. transitivity (shadowOf (tm_app m)); [|done]. rewrite <- Hs. f_equal. unfold shadowNow. cbn. rewrite Hu, Hm, Hr, Hp. by destruct op.
  - destruct (aggSignals_agg sigs (with_agg a m)) as [Hif Hag]. split; rewrite ?Hif, ?Hag; done.
Qed.

Lemma thenDo_acc {A} (f : A -> TuiMain -> TuiMain * list MainCall) xs m cs :
  foldl (thenDo f) (m, cs) xs = let '(m', cs') := foldl (thenDo f) (m, []) xs in (m', cs ++ cs').
Proof.
  revert m cs. induction xs as [|x xs IH]; intros m cs; cbn [foldl]; [by rewrite app_nil_r|].
  unfold thenDo at 2 4. cbn [fst snd]. destruct (f x m) as [m1 c1]. rewrite IH, (IH _ ([] ++ c1)).
  destruct (foldl (thenDo f) (m1, []) xs) as [m2 c2]. cbn. by rewrite app_assoc.
Qed.
Lemma thenDo_cons {A} (f : A -> TuiMain -> TuiMain * list MainCall) x xs m :
  foldl (thenDo f) (m, []) (x :: xs) = let '(m1, c1) := f x m in let '(m2, c2) := foldl (thenDo f) (m1, []) xs in (m2, c1 ++ c2).
Proof. cbn [foldl]. unfold thenDo at 2. cbn [fst snd app]. destruct (f x m) as [m1 c1]. apply thenDo_acc. Qed.

Lemma following_executeAll h es m : following h es m ->
  let '(m', cs) := executeAll es m in following (foldl hear h cs) [] m' /\ localsKept m m'.
Proof.
  unfold executeAll. revert h m. induction es as [|e es IH]; intros h m Hm; [done|]. rewrite thenDo_cons.
  pose proof (following_execute h e es m Hm) as He. destruct (execute e m) as [m1 c1]. destruct He as [Hf1 Hk1].
  specialize (IH _ _ Hf1). destruct (foldl (thenDo execute) (m1, []) es) as [m2 c2]. destruct IH as [Hf2 Hk2].
  rewrite foldl_app. split; [done|]. by transitivity m1.
Qed.
Lemma following_perform h f m : honest f -> keeps tui_ok f -> following h [] m ->
  let '(m', cs) := perform f m in following (foldl hear h cs) [] m' /\ localsKept m m'.
Proof.
  intros Hf Hk [Hi Hok Hs]. unfold perform. destruct (Hf _ Hi) as [Hi' Hs']. specialize (Hk _ Hok). destruct (f (tm_app m)) as [app es]. cbn [fst snd] in *.
  pose proof (following_executeAll h es (with_app app m)) as He. destruct (executeAll es (with_app app m)) as [m' cs].
  apply He. split; try done. cbn [foldl] in Hs. change (foldl shadowStep (shadowNow h m) es = shadowOf app). by rewrite Hs.
Qed.

Definition ownAddrs (l : gset QHostAddress) : gset QHostAddress := l ∖ {[ LocalHost ]} ∖ {[ LocalHostIPv6 ]}.
(** The addresses flows are judged by are those of the interfaces shown, or
    what the platform said at the start while there are none. *)
Definition localsRight (seeds : gset QHostAddress) (m : TuiMain) : Prop :=
  let known := as_localAddrs (ag_settings (tm_agg m)) in
  let rows := ia_rows (tm_iface m) in
  known = ownAddrs (localsOf (ir_current <$> rows)) \/ (rows = [] /\ known = ownAddrs seeds).
Lemma localsRight_kept seeds m m' : localsKept m m' -> localsRight seeds m -> localsRight seeds m'.
Proof. intros [Hi Hl]. unfold localsRight. by rewrite Hi, Hl. Qed.

Record inStep (seeds : gset QHostAddress) (h : Heard) (m : TuiMain) : Prop := {
  is_following : following h [] m;
  is_locals : localsRight seeds m;
}.

Lemma inStep_perform seeds h f m : honest f -> keeps tui_ok f -> inStep seeds h m ->
  let '(m', cs) := perform f m in inStep seeds (foldl hear h cs) m'.
Proof.
  intros Hf Hk [Hm Hl]. pose proof (following_perform h f m Hf Hk Hm) as Hp. destruct (perform f m) as [m' cs]. destruct Hp as [Hp Hk'].
  split; [done|by eapply localsRight_kept].
Qed.

(** Flows, patches, names and the tween leave the settings alone. *)
Definition dataEvent (ev : AggEvent) : bool := match ev with AgUpdate _ _ | AgPatch _ | AgSmooth _ | AgResolved _ => true | _ => false end.
Lemma data_settings a ev : dataEvent ev = true -> ag_settings (fst (agg_step a ev)) = ag_settings a.
Proof.
  destruct ev; try done; intros _; cbn [agg_step].
  - unfold updateConnections. destruct (prepareSnapshot _ _ _ _), (rowPass _ _ _ _), (pruneRows _ _ _ _), (appendRows _ _ _ _ _) as [[? ?] ?]. done.
  - unfold applyAttributionPatch. by destruct (foldl _ _ _).
  - unfold advanceSmoothing. case_match; [done|]. by destruct (rowPass _ _ _ _).
  - unfold onResolved. case_match; [done|]. by destruct (rowPass _ _ _ _).
Qed.
Lemma inStep_flows seeds h ev m : dataEvent ev = true -> inStep seeds h m ->
  let '(m', cs) := flowsArrived ev m in inStep seeds (foldl hear h cs) m'.
Proof.
  intros Hd [[Hi Hok Hs] Hl]. unfold flowsArrived. pose proof (data_settings (tm_agg m) ev Hd) as Ha. destruct (agg_step (tm_agg m) ev) as [a sigs]. cbn [fst] in Ha.
  rewrite hear_resolves. split.
  - apply following_aggSignals. split; try done. cbn [foldl] in *. rewrite (eq_sym Hs : shadowOf (tm_app (with_agg a m)) = _). unfold shadowNow. cbn. by rewrite Ha.
  - apply (localsRight_kept _ m); [|done]. destruct (aggSignals_agg sigs (with_agg a m)) as [H1' H2']. split; rewrite ?H1', ?H2'; cbn; by rewrite ?Ha.
Qed.

Lemma setLocal_settings addrs a : let s := ag_settings a in let s' := ag_settings (fst (setLocalAddresses addrs a)) in
  as_localAddrs s' = ownAddrs addrs /\ as_udpAggregateByPeer s' = as_udpAggregateByPeer s /\
  as_rateSmoothingMs s' = as_rateSmoothingMs s /\ as_resolveEnabled s' = as_resolveEnabled s /\ as_pollIntervalMs s' = as_pollIntervalMs s.
Proof. unfold setLocalAddresses, ownAddrs. case_bool_decide as Hd; cbn; by rewrite ?Hd. Qed.
Lemma refresh_spec h es m : following h es m -> let m' := refreshLocalAddrs m in
  following h es m' /\ tm_iface m' = tm_iface m /\
  as_localAddrs (ag_settings (tm_agg m')) = ownAddrs (localsOf (ir_current <$> ia_rows (tm_iface m))).
Proof.
  intros [Hi Hok Hs]. unfold refreshLocalAddrs. pose proof (setLocal_settings (localsOf (ir_current <$> ia_rows (tm_iface m))) (tm_agg m)) as Ha.
  destruct (setLocalAddresses _ _) as [a sigs]. cbn [fst] in Ha. destruct Ha as (Hl & Hu & Hm & Hr & Hp).
  cbv zeta. destruct (aggSignals_agg sigs (with_agg a m)) as [H1' H2']. rewrite H1', H2'. split_and!; try done.
  apply following_aggSignals. split; try done. rewrite (eq_sym Hs : shadowOf (tm_app (with_agg a m)) = _). unfold shadowNow. cbn. by rewrite Hu, Hm, Hr, Hp.
Qed.
Lemma dataChanged_kept m : localsKept m (dataChanged m).
Proof. unfold dataChanged. by destruct (onDataChanged (tm_app m)). Qed.

Lemma inStep_refreshed seeds h m : following h [] m -> inStep seeds h (dataChanged (refreshLocalAddrs m)).
Proof.
  intros Hf. pose proof (refresh_spec h [] m Hf) as (Hr1 & Hr2 & Hr3). pose proof (dataChanged_kept (refreshLocalAddrs m)) as [Hd1 Hd2].
  split; [by apply following_dataChanged|]. left. by rewrite Hd2, Hd1, Hr2.
Qed.
Lemma inStep_stats seeds h nowMs stats m : inStep seeds h m -> inStep seeds h (statsArrived nowMs stats m).
Proof.
  intros [[Hi Hok Hs] Hl]. assert (Hf : forall ia, following h [] (with_iface ia m)) by (intros ia; by split).
  unfold statsArrived, updateStats. cbv zeta. destruct (structureChanged _ _); [by apply inStep_refreshed|].
  destruct (ia_rows (tm_iface m)) as [|r rows] eqn:Er; [|by apply inStep_refreshed].
  split; [apply Hf|]. revert Hl. unfold localsRight. cbn. rewrite Er. by destruct (sortByName stats).
Qed.

Lemma inStep_keys seeds h w ks m : inStep seeds h m ->
  let '(m', cs) := handleKeys dnsCachedName w ks m in inStep seeds (foldl hear h cs) m'.
Proof.
  revert h w m. induction ks as [|k ks IH]; intros h w m Hm; [done|]. cbn [handleKeys].
  pose proof (inStep_perform seeds h _ m (honest_handleKey (seenBy (w 0) m) k) (handleKey_ok dnsCachedName (seenBy (w 0) m) k) Hm) as Hp.
  destruct (perform _ m) as [m1 c1]. specialize (IH _ (fun i => w (S i)) _ Hp). destruct (handleKeys _ _ _ m1) as [m2 c2]. by rewrite foldl_app.
Qed.
Lemma inStep_exit seeds h m screen quit buf on : inStep seeds h m -> inStep seeds h (with_exit screen quit (with_input buf on m)).
Proof. intros [[Hi Hok Hs] Hl]. by split. Qed.
Lemma inStep_signals seeds h sigs m : inStep seeds h m ->
  let '(m', cs) := foldl (thenDo signalByte) (m, []) sigs in inStep seeds (foldl hear h cs) m'.
Proof.
  revert h m. induction sigs as [|b sigs IH]; intros h m Hm; [done|]. rewrite thenDo_cons.
  assert (Hb : let '(m1, c1) := signalByte b m in inStep seeds (foldl hear h c1) m1).
  { unfold signalByte. destruct (_ =? _)%Z; [|by apply (inStep_exit _ _ m false true (tm_inbuf m) (tm_stdin m))].
    set (resize := match snd b with Some _ => _ | None => _ end). assert (Hr : foldl hear h resize = h).
    { unfold resize. destruct (snd b) as [[r c]|]; [|done]. case_match; [|done]. by destruct h. }
    clearbody resize. pose proof (inStep_perform seeds h _ m honest_redraw ok_redraw Hm) as Hp. destruct (perform requestRedraw m) as [m1 c1].
    by rewrite foldl_app, Hr. }
  destruct (signalByte b m) as [m1 c1]. specialize (IH _ _ Hb). destruct (foldl (thenDo signalByte) (m1, []) sigs) as [m2 c2]. by rewrite foldl_app.
Qed.
Lemma shadow_redraw_done h m app : following h [] m -> tui_ok app -> installed app = installed (tm_app m) ->
  shadowOf app = shadowOf (set_ta_redrawPending false (tm_app m)) -> following h [] (with_timers false (tm_smooth m) (with_app app m)).
Proof.
  intros [Hi Hok Hs] Ha Hia Hsa. split; [by rewrite <- Hi|done|]. cbn in *. rewrite Hsa. unfold shadowNow, shadowOf in *. cbn. injection Hs as -> -> -> -> -> -> -> -> -> _ ->. done.
Qed.
Lemma buildFrame_apart env about st : let app := snd (buildFrame dnsCachedName undefinedRate env about st) in
  installed app = installed st /\ shadowOf app = shadowOf st.
Proof.
  unfold buildFrame. destruct (placeCursor _ _ _ _ _) as [[c s] shown]. destruct (footerOf st). cbn [snd].
  unfold setCurrentScroll, setCurrentCursor. by repeat case_match.
Qed.
Lemma warm_same h m : following h [] m -> foldl hear h (warm m) = h.
Proof.
  intros [_ _ Hs]. cbn in Hs. destruct h as [np cp nw cw ea]. unfold shadowNow, shadowOf in Hs. cbn in Hs. injection Hs as -> -> -> -> Hea _ _ _ _ _ _.
  unfold warm. cbn. destruct (pf_eagerness (ta_prefs (tm_app m))) eqn:Ee; [done|]. cbn. by rewrite Hea.
Qed.

Lemma inStep_step seeds h e m : inStep seeds h m ->
  let '(m', cs) := mainStep dnsCachedName undefinedRate e m in inStep seeds (foldl hear h cs) m'.
Proof.
  intros Hm. destruct e; cbn [mainStep].
  - by apply inStep_stats.
  - by apply inStep_flows.
  - by apply inStep_flows.
  - by apply inStep_flows.
  - destruct (tm_smooth m); [by apply inStep_flows|done].
  - apply inStep_perform; [apply honest_details| |done]. intros st Hst. by apply (tui_step_ok dnsCachedName undefinedRate (seenBy (mkTuiEnv newIfaceAgg (tm_agg m) 0 [] [] (fun _ => false) id 0 (fun _ => None) false) m) (mkAbout [] [] [] [] [] [] [] [] 0 0 false false) (TuiDetails d)).
  - destruct (tm_stdin m); [|done]. destruct r as [data| |]; cbn [stdinActivated]; [|done|by apply (inStep_exit seeds h)].
    destruct (readKeys data (tm_inbuf m)) as [ks buf]. apply inStep_keys. by apply (inStep_exit seeds h m (tm_screen m) (tm_quit m)).
  - by apply inStep_signals.
  - destruct (tm_redraw m); [|done]. unfold redrawNow, doRedraw. destruct Hm as [Hf Hl].
    pose proof (buildFrame_ok dnsCachedName undefinedRate (seenBy w m) about (set_ta_redrawPending false (tm_app m))) as Hok.
    pose proof (buildFrame_apart (seenBy w m) about (set_ta_redrawPending false (tm_app m))) as [Hi Hs].
    destruct (buildFrame _ _ _ _ _) as [f app]. cbn [snd] in *. assert (Hh : foldl hear h [DrawFrame f] = h) by (by destruct h). rewrite Hh.
    split; [|done]. apply shadow_redraw_done; try done. apply Hok. by destruct Hf as [_ [] _]; split.
  - apply inStep_perform; [honest_solve| |done]. apply keeps_andThen; [|apply ok_redraw]. apply keeps_update. intros st []; by split.
  - split; [|by destruct Hm]. rewrite warm_same by by destruct Hm. by destruct Hm.
  - apply inStep_perform; [apply honest_save|apply saveSettings_ok|]. by apply (inStep_exit seeds h m false (tm_quit m) (tm_inbuf m) (tm_stdin m)).
Qed.
Lemma inStep_run seeds h es m : inStep seeds h m -> let '(m', cs) := mainRun dnsCachedName undefinedRate es m in inStep seeds (foldl hear h cs) m'.
Proof.
  revert h m. induction es as [|e es IH]; intros h m Hm; [done|]. cbn [mainRun]. pose proof (inStep_step seeds h e m Hm) as Hs.
  destruct (mainStep _ _ e m) as [m1 c1]. specialize (IH _ _ Hs). destruct (mainRun _ _ es m1) as [m2 c2]. by rewrite foldl_app.
Qed.

Definition startEffects (p : Prefs) : list TuiEffect :=
  [SetTheme (pf_themeIdx p); CallAggregator (AggUdpByPeer (pf_udpAggregate p)); CallAggregator (AggSmoothing (if pf_smoothing p then 300 else 0));
   CallAggregator (AggHostnames (pf_dns p)); SetSmoothInterval (Z.max 100 (Z.quot (pf_pollMs p) 4)); StartSmoothTimer; StartRedrawTimer].
Lemma startApp_shape s o label : exists p, startApp s o label =
  (set_ta_redrawPending true (set_ta_prefs p (newTuiApp label)),
   startEffects p).
Proof. eexists. reflexivity. Qed.

(** An aggregator without rows answers a setter with silence. *)
Lemma aggOp_quiet op a : ag_rows a = [] -> snd (aggOp op a) = [] /\ ag_rows (fst (aggOp op a)) = [].
Proof.
  intros Hr. destruct op; cbn; try done. unfold setHostnameResolutionEnabled, hasRows. case_match; [done|]. cbn. rewrite Hr. cbn. by case_match.
Qed.
Lemma execute_quiet op m : ag_rows (tm_agg m) = [] -> execute (CallAggregator op) m = (with_agg (fst (aggOp op (tm_agg m))) m, []).
Proof. intros Hr. cbn [execute]. destruct (aggOp_quiet op (tm_agg m) Hr) as [He _]. destruct (aggOp op (tm_agg m)) as [a sigs]. cbn in *. by subst. Qed.

(** The controller's settings are in the aggregator, its timers run. *)
Record primed (seeds : gset QHostAddress) (m : TuiMain) : Prop := {
  pr_ok : tui_ok (tm_app m);
  pr_idle : ta_redrawPending (tm_app m) = true /\ ta_paused (tm_app m) = false /\ tm_redraw m = true /\ tm_smooth m = true;
  pr_rows : ag_rows (tm_agg m) = [] /\ ia_rows (tm_iface m) = [];
  pr_settings : let s := ag_settings (tm_agg m) in let p := ta_prefs (tm_app m) in
    as_localAddrs s = ownAddrs seeds /\ as_udpAggregateByPeer s = pf_udpAggregate p /\
    as_rateSmoothingMs s = atLeast0 (if pf_smoothing p then 300 else 0) /\ as_resolveEnabled s = pf_dns p;
}.

Lemma start_primed seeds h a s o label : ag_rows a = [] -> as_localAddrs (ag_settings a) = ownAddrs seeds ->
  let '(app, es) := startApp s o label in
  let '(m, cs) := executeAll es (mkTuiMain newIfaceAgg a app [] true false false true false) in primed seeds m /\ foldl hear h cs = h.
Proof.
  intros Hrows Hloc. pose proof (startApp_ok s o label) as Hok. destruct (startApp_shape s o label) as [p Hp]. rewrite Hp in *. cbn [fst] in Hok. clear Hp.
  set (app := set_ta_redrawPending true (set_ta_prefs p (newTuiApp label))) in *. unfold executeAll.
  assert (Hq : forall op b, ag_rows b = [] -> ag_rows (fst (aggOp op b)) = []) by (intros op b Hb; by apply aggOp_quiet).
  unfold startEffects. rewrite thenDo_cons. cbn [execute]. rewrite thenDo_cons, execute_quiet by done. rewrite thenDo_cons, execute_quiet by (by apply Hq).
  rewrite thenDo_cons, execute_quiet by (cbn [tm_agg with_agg]; by apply Hq, Hq). cbn [foldl thenDo execute fst snd with_agg with_timers tm_agg tm_iface tm_app tm_inbuf tm_stdin tm_redraw tm_smooth tm_screen tm_quit app].
  split; [|by destruct h].
  pose proof (aggOp_settings (AggUdpByPeer (pf_udpAggregate p)) a) as (L1 & U1 & M1 & D1 & _). set (b := fst (aggOp (AggUdpByPeer _) a)) in *.
  pose proof (aggOp_settings (AggSmoothing (if pf_smoothing p then 300 else 0)) b) as (L2 & U2 & M2 & D2 & _). set (c := fst (aggOp (AggSmoothing _) b)) in *.
  pose proof (aggOp_settings (AggHostnames (pf_dns p)) c) as (L3 & U3 & M3 & D3 & _).
  split; [done|done|split; [by apply Hq, Hq, Hq|done]|]. cbn [tm_agg tm_app with_timers with_agg]. change (ta_prefs app) with p. cbv zeta. rewrite L3, L2, L1, U3, U2, U1, M3, M2, D3. done.
Qed.

Lemma wired_inStep seeds h caps m : h_eager h = qs "default" -> primed seeds m ->
  let '(m, c2) := perform (setBackendInfo caps) m in
  let '(m, c3) := perform setPollApplier m in
  let '(m, c4) := perform (update (set_ta_askDetails true) >>> update (set_ta_askEagerness true)) m in
  inStep seeds (foldl hear h (c2 ++ c3 ++ c4 ++ warm m ++ [NetStart; ConnStart])) m.
Proof.
  intros Hh [Hok (Hre & Hpa & Hmr & Hms) [Hr Hi] (Hl & Hu & Hm & Hd)].
  pose proof (tui_step_ok dnsCachedName undefinedRate (mkTuiEnv newIfaceAgg (tm_agg m) 0 [] [] (fun _ => false) id 0 (fun _ => None) false)
    (mkAbout [] [] [] [] [] [] [] [] 0 0 false false) (TuiBackend caps) _ Hok) as Hok1. cbn [tui_step] in Hok1.
  assert (Hb : perform (setBackendInfo caps) m = (with_app (fst (setBackendInfo caps (tm_app m))) m, []) /\
    ta_prefs (fst (setBackendInfo caps (tm_app m))) = ta_prefs (tm_app m) /\ ta_redrawPending (fst (setBackendInfo caps (tm_app m))) = true /\
    ta_paused (fst (setBackendInfo caps (tm_app m))) = false).
  { unfold perform, setBackendInfo, andThen, update, requestRedraw. cbn. by rewrite Hre. }
  destruct Hb as (-> & Hp1 & Hre1 & Hpa1). set (app := fst (setBackendInfo caps (tm_app m))) in *. clearbody app.
  destruct m as [ia a app0 ib si re sm sc qu]. cbn [tm_agg tm_app tm_iface tm_redraw tm_smooth] in *. subst.
  unfold perform, setPollApplier, applyPollInterval, andThen, update. cbn -[aggOp qs].
  destruct h as [np cp nw cw ea]. cbn [h_eager] in Hh. subst ea.
  split; [split|].
  - done.
  - by destruct Hok1; split.
  - destruct (pf_eagerness (ta_prefs app)) eqn:Ee; unfold shadowNow, shadowOf; cbn -[qs]; rewrite ?Ee, ?Hp1, ?Hu, ?Hm, ?Hd, ?Hre1, ?Hpa1; done.
  - unfold localsRight. cbn. by right.
Qed.

Lemma inStep_start s theme view group given label caps ports seeds h : h_eager h = qs "default" ->
  let '(m, cs) := mainStart s theme view group given label caps ports seeds in inStep seeds (foldl hear h cs) m.
Proof.
  intros Hh. unfold mainStart.
  set (a := fst (setLocalAddresses seeds _)).
  assert (Ha : ag_rows a = [] /\ as_localAddrs (ag_settings a) = ownAddrs seeds).
  { split; [|apply setLocal_settings]. unfold a, setLocalAddresses. by case_bool_decide. }
  clearbody a. destruct Ha as [Hrows Hloc].
  pose proof (start_primed seeds h a s (mkCli theme (cliPollMs given) view group) label Hrows Hloc) as Hp.
  destruct (startApp s _ label) as [app es]. destruct (executeAll es _) as [m c1]. destruct Hp as [Hp Hc1].
  pose proof (wired_inStep seeds h caps m Hh Hp) as Hw.
  destruct (perform (setBackendInfo caps) m) as [m2 c2]. destruct (perform setPollApplier m2) as [m3 c3]. destruct (perform _ m3) as [m4 c4].
  by rewrite foldl_app, Hc1.
Qed.

(** Whatever the settings file, the command line, the keys, the data and their
    order: everything outside the controller agrees with its preferences as
    they are then.  The monitors were told its interval and its eagerness, the
    flow table has its settings and judges flows by the addresses of the
    interfaces shown, a redraw is armed exactly while one is due and the tween
    runs exactly while updates are not paused.  [h] is what the monitors
    assumed before. *)
Theorem tui_main_in_step s theme view group given label caps ports seeds h es :
  h_eager h = qs "default" ->
  let '(m0, c0) := mainStart s theme view group given label caps ports seeds in
  let '(m, cs) := mainRun dnsCachedName undefinedRate es m0 in
  let p := ta_prefs (tm_app m) in
  let a := ag_settings (tm_agg m) in
  (100 <= pf_pollMs p <= 10000)%Z /\
  foldl hear h (c0 ++ cs) = mkHeard (pf_pollMs p) (pf_pollMs p) (pf_pollMs p) (pf_pollMs p) (wireMode (pf_eagerness p)) /\
  as_udpAggregateByPeer a = pf_udpAggregate p /\ as_rateSmoothingMs a = (if pf_smoothing p then 300 else 0)%Z /\
  as_resolveEnabled a = pf_dns p /\ as_pollIntervalMs a = pf_pollMs p /\
  tm_redraw m = ta_redrawPending (tm_app m) /\ tm_smooth m = negb (ta_paused (tm_app m)) /\ localsRight seeds m.
Proof.
  intros Hh. pose proof (inStep_start s theme view group given label caps ports seeds h Hh) as Hs.
  destruct (mainStart _ _ _ _ _ _ _ _ _) as [m0 c0]. pose proof (inStep_run seeds _ es m0 Hs) as Hr. destruct (mainRun _ _ es m0) as [m cs].
  rewrite foldl_app. set (h1 := foldl hear _ cs) in *. clearbody h1. destruct Hr as [[_ Hok Hf] Hl]. destruct h1 as [np cp nw cw ea].
  assert (Hp : (100 <= pf_pollMs (ta_prefs (tm_app m)) <= 10000)%Z) by (by destruct Hok as [[]]).
  cbn [foldl] in Hf. unfold shadowNow, shadowOf in Hf. cbn in Hf. injection Hf as -> -> -> -> -> Hu Hm Hd Hpo Hre Htw.
  assert (Hat : forall z, (0 <= z)%Z -> atLeast0 z = z) by (intros z Hz; unfold atLeast0; destruct (Z.ltb_spec z 0); [lia|done]).
  split; [done|]. split_and!; try done; [rewrite Hm|rewrite Hpo]; apply Hat; [by destruct (pf_smoothing _)|lia].
Qed.

(** Nothing re-enables the input or takes a quit back. *)
Definition noReturn (m m' : TuiMain) : Prop := (tm_quit m = true -> tm_quit m' = true) /\ (tm_stdin m = false -> tm_stdin m' = false).
#[local] Instance noReturn_preorder : PreOrder noReturn.
Proof. split; [by split|]. intros m1 m2 m3 [? ?] [? ?]. split; auto. Qed.
Lemma noReturn_dataChanged m : noReturn m (dataChanged m).
Proof. unfold dataChanged. by destruct (onDataChanged (tm_app m)). Qed.
Lemma noReturn_aggSignals sigs m : noReturn m (foldl aggSignal m sigs).
Proof. revert m. induction sigs as [|s sigs IH]; intros m; [done|]. cbn [foldl]. etrans; [|apply IH]. destruct s; cbn; try done; apply noReturn_dataChanged. Qed.
Lemma noReturn_fold {A} (f : A -> TuiMain -> TuiMain * list MainCall) xs m : (forall x m, noReturn m (fst (f x m))) -> noReturn m (fst (foldl (thenDo f) (m, []) xs)).
Proof.
  intros Hf. revert m. induction xs as [|x xs IH]; intros m; [done|]. rewrite thenDo_cons. specialize (Hf x m). destruct (f x m) as [m1 c1].
  specialize (IH m1). destruct (foldl (thenDo f) (m1, []) xs). by etrans.
Qed.
Lemma noReturn_perform f m : noReturn m (fst (perform f m)).
Proof.
  unfold perform. destruct (f (tm_app m)) as [app es]. etrans; [|apply noReturn_fold]; [done|]. clear. intros e m. destruct e; cbn [execute]; try done.
  destruct (aggOp op (tm_agg m)) as [a sigs]. etrans; [|apply noReturn_aggSignals]. done.
Qed.
Lemma noReturn_keys w ks m : noReturn m (fst (handleKeys dnsCachedName w ks m)).
Proof.
  revert w m. induction ks as [|k ks IH]; intros w m; [done|]. cbn [handleKeys]. pose proof (noReturn_perform (handleKey dnsCachedName (seenBy (w 0) m) k) m) as Hp.
  destruct (perform _ m) as [m1 c1]. specialize (IH (fun i => w (S i)) m1). destruct (handleKeys _ _ ks m1). by etrans.
Qed.
Lemma noReturn_refresh m : noReturn m (refreshLocalAddrs m).
Proof. unfold refreshLocalAddrs. destruct (setLocalAddresses _ _) as [a sigs]. etrans; [|apply noReturn_aggSignals]. done. Qed.
Lemma noReturn_flows ev m : noReturn m (fst (flowsArrived ev m)).
Proof. unfold flowsArrived. destruct (agg_step _ _) as [a sigs]. etrans; [|apply noReturn_aggSignals]. done. Qed.
Lemma noReturn_stats nowMs stats m : noReturn m (statsArrived nowMs stats m).
Proof.
  unfold statsArrived. destruct (updateStats _ _ _) as [ia sigs]. transitivity (with_iface ia m); [done|].
  generalize (with_iface ia m). induction sigs as [|s sigs IH]; intros m'; [done|]. cbn [foldl]. etrans; [|apply IH].
  destruct s; cbn; try done; (etrans; [apply noReturn_refresh|apply noReturn_dataChanged]).
Qed.
Lemma noReturn_step e m : noReturn m (fst (mainStep dnsCachedName undefinedRate e m)).
Proof.
  destruct e; cbn [mainStep]; try done; try apply noReturn_flows; try apply noReturn_perform.
  - apply noReturn_stats.
  - destruct (tm_smooth m); [apply noReturn_flows|done].
  - destruct (tm_stdin m) eqn:Es; [|done]. destruct r; cbn [stdinActivated]; [|done|split; [done|by rewrite Es]].
    destruct (readKeys data (tm_inbuf m)) as [ks buf]. etrans; [|apply noReturn_keys]. by split.
  - apply noReturn_fold. intros b m'. unfold signalByte. destruct (_ =? _)%Z; [|done]. pose proof (noReturn_perform requestRedraw m') as Hp. by destruct (perform requestRedraw m').
  - destruct (tm_redraw m); [|done]. unfold redrawNow. by destruct (doRedraw _ _ _ _ _).
  - etrans; [|apply noReturn_perform]. done.
Qed.
Lemma noReturn_run es m : noReturn m (fst (mainRun dnsCachedName undefinedRate es m)).
Proof.
  revert m. induction es as [|e es IH]; intros m; [done|]. cbn [mainRun]. pose proof (noReturn_step e m) as Hs. destruct (mainStep _ _ e m) as [m1 c1].
  specialize (IH m1). destruct (mainRun _ _ es m1). by etrans.
Qed.

(** The end of the input is seen once: whatever happens afterwards the program
    keeps wanting to quit and never looks at the dead descriptor again, so the
    notifier cannot spin on it. *)
Theorem input_end_is_final w es m :
  tm_stdin m = true ->
  let m' := fst (mainRun dnsCachedName undefinedRate es (fst (mainStep dnsCachedName undefinedRate (MnInput w RdGone) m))) in
  tm_quit m' = true /\ forall w' r, mainStep dnsCachedName undefinedRate (MnInput w' r) m' = (m', []).
Proof.
  intros Hs m'. unfold m'. cbn [mainStep]. rewrite Hs. cbn [stdinActivated fst]. set (m1 := with_exit _ _ _).
  destruct (noReturn_run es m1) as [Hq Hd]. split; [by apply Hq|]. intros w' r. by rewrite Hd.
Qed.
End Handlers.

(* ------------------------------------------------------------------ *)
(** ** Examples *)

#[local] Existing Instances wholeText wholeMath.

Definition addressed : InterfaceStats := mkInterfaceStats (qs "eth0") [] 1500 [qs "167772162/8"] 5 0 0 0 true false 1 0 0 0 0 0.
(** Data, then S, two steps down, a longer interval, back, and e. *)
Definition session : list MainEvent :=
  [MnStats 1000 [addressed]; MnInput (fun _ => tuiEnv) (RdBytes [83; 106; 106; 108; 113; 101; 112]%Z); MnHeartbeat; MnRedraw tuiEnv tuiAbout;
   MnSignals [(28, Some (50, 132)); (28, None)]%Z].
Definition untold : Heard := mkHeard 0 0 0 0 (qs "default").
Definition started : TuiMain * list MainCall :=
  mainStart ∅ [] [] [] None (qs "agent") [qs "attribution-eagerness-hints"] (32768, 60999)%Z {[ AddrV4 1 ]}.
Definition sessionRun : TuiMain * list MainCall := mainRun noNames [] session (fst started).

Example session_end : let m := fst sessionRun in let cs := snd sessionRun in
  foldl hear untold (snd started ++ cs) = mkHeard 1250 1250 1250 1250 (qs "off") /\
  as_localAddrs (ag_settings (tm_agg m)) = {[ AddrV4 167772162 ]} /\ tm_smooth m = false /\ ResizeTerm 50 132 ∈ cs.
Proof. cbv zeta. split_and!; [vm_compute; reflexivity|vm_compute; reflexivity|vm_compute; reflexivity|]. rewrite list_elem_of_In. vm_compute. tauto. Qed.

Lemma tui_main_in_step_witness :
  pf_pollMs (ta_prefs (tm_app (fst sessionRun))) = 1250%Z /\ as_pollIntervalMs (ag_settings (tm_agg (fst sessionRun))) = pf_pollMs (ta_prefs (tm_app (fst sessionRun))).
Proof.
  split; [vm_compute; reflexivity|].
  pose proof (tui_main_in_step noNames [] ∅ [] [] [] None (qs "agent") [qs "attribution-eagerness-hints"] (32768, 60999)%Z {[ AddrV4 1 ]} untold session eq_refl) as Hw.
  unfold sessionRun, started. destruct (mainStart _ _ _ _ _ _ _ _ _) as [m0 c0]. cbn [fst]. destruct (mainRun noNames [] session m0) as [m cs]. cbn [fst]. by destruct Hw as (_ & _ & _ & _ & _ & Hp & _).
Defined.
Lemma input_end_is_final_witness :
  tm_stdin (fst started) = true /\
  tm_quit (fst (mainRun noNames [] session (fst (mainStep noNames [] (MnInput (fun _ => tuiEnv) RdGone) (fst started))))) = true.
Proof. split; [vm_compute; reflexivity|]. apply (input_end_is_final noNames [] (fun _ => tuiEnv) session (fst started)). vm_compute. reflexivity. Defined.
