(* ===== verification/GuiStart.v ===== *)
(** * The graphical program: [main] of [src/main.cpp] and the two ends of the
      takeover, [MainWindow::attachHandoffClient] and [prepareProxyMode]

    The start puts the pieces of the other files together in the order of
    [main]; the privileged copy is a window whose commands come over the
    handoff channel. *)

From S2P Require Import Prelude Qt StdAlgo Conn DbusTypes Filter FilterEval Units IfaceAgg Resolver Agent AgentProbe Handoff.
From S2P Require Import CheckTool GuiModel GuiSettings WindowText Window Tray.

Section Start.
Context `{QtUnicode, QtAddrText, QtRegex, QtToDouble, QtNumberText}.

(** [QStringList::removeDuplicates]: the first of each stays. *)
Fixpoint removeDuplicates (l : list QString) : list QString :=
  match l with
  | [] => []
  | x :: l => x :: filter (fun y => y <> x) (removeDuplicates l)
  end.

Record GuiOptions := mkGuiOptions { go_noAgent : bool; go_ifaces : list QString; go_tray : bool }.

(** The window, what the monitors and the tray were told, and whether the
    Connections tab was brought to the front. *)
Record GuiStart := mkGuiStart { gs_window : Window; gs_effects : list WEffect; gs_connTab : bool }.

Definition guiStart (st : Settings) (tray : bool) (o : GuiOptions) (b : Bus) (netCaps connCaps : list QString) : GuiStart :=
  let src := chooseSource (go_noAgent o) b netCaps connCaps in
  let '(w, e1) := newWindow st tray in
  let '(w, e2) := setBackendInfo (so_agent src) (so_version src) (so_caps src) w in
  let '(w, e3) := if go_tray o then (w, []) else showEvent w in
  let '(w, e4) := if isEmpty (go_ifaces o) then (w, []) else changeSetting (CTransient (removeDuplicates (go_ifaces o))) w in
  mkGuiStart w (e1 ++ e2 ++ e3 ++ e4) (negb (isEmpty (go_ifaces o))).

(* ------------------------------------------------------------------ *)
(** ** The privileged copy *)

Context `{QJson}.

Record ChildSide := mkChildSide { cs_window : Window; cs_client : HandoffClient }.

(** The signals of the window the client listens to: [toggled] only when the
    state changes. *)
Definition echo (before : Window) (e : WEvent) (after : Window) (c : HandoffClient) : list CAct :=
  match e with EvStats l => sendMsg (MStats l) c | _ => [] end
  ++ (if Bool.eqb (wi_paused before) (wi_paused after) then [] else sendMsg (MPaused (wi_paused after)) c).
Definition childEvent (e : WEvent) (s : ChildSide) : ChildSide * list CAct :=
  let '(w, _) := windowStep e (cs_window s) in (mkChildSide w (cs_client s), echo (cs_window s) e w (cs_client s)).

(** The parent's commands: [showNormal], [QAction::setChecked], [quitFromTray]. *)
Definition childCommand (s : ChildSide) (a : CAct) : ChildSide * list CAct :=
  match a with
  | CShowRequested => childEvent EvShow s
  | CPauseCommand b => childEvent (EvPause b) s
  | CQuitCommand => (mkChildSide (fst (quitFromTray (cs_window s))) (cs_client s), [])
  | _ => (s, [])
  end.
Fixpoint childCommands (acts : list CAct) (s : ChildSide) : ChildSide * list CAct :=
  match acts with
  | [] => (s, [])
  | a :: acts => let '(s1, o1) := childCommand s a in let '(s2, o2) := childCommands acts s1 in (s2, o1 ++ o2)
  end.
Definition childRead (data : bytes) (s : ChildSide) : ChildSide * list CAct :=
  let '(c, acts) := client_handleReadyRead data (cs_client s) in childCommands acts (mkChildSide (cs_window s) c).

(** What the parent writes to its child. *)
Definition wire (acts : list Act) : bytes := concat (omap (fun a => match a with Write _ d => Some d | _ => None end) acts).

(* ------------------------------------------------------------------ *)
(** ** Correctness *)

Lemma elem_of_removeDuplicates x l : x ∈ removeDuplicates l <-> x ∈ l.
Proof.
  induction l as [|y l IH]; [done|]. cbn [removeDuplicates]. rewrite !elem_of_cons, list_elem_of_filter, IH. destruct (decide (x = y)); naive_solver.
Qed.

(** What [applySettingsToUi] leaves alone. *)
Definition steady (w w' : Window) : Prop :=
  wi_settings w' = wi_settings w /\ wi_visible w' = wi_visible w /\ wi_paused w' = wi_paused w /\ wi_proxyMode w' = wi_proxyMode w /\
  wi_usingAgent w' = wi_usingAgent w /\ wi_caps w' = wi_caps w.
Lemma applySettings_steady w : steady w (fst (applySettingsToUi w)).
Proof. unfold applySettingsToUi. destruct (applySettings_flat 1 w) as (proxy & -> & _). done. Qed.

Lemma transient_keeps l w : synced w -> let w' := fst (changeSetting (CTransient l) w) in
  st_store (wi_settings w') = st_store (wi_settings w) /\ pr_list (prefsOf w') PfConnVisibleIfaces = l /\
  wi_visible w' = wi_visible w /\ wi_paused w' = wi_paused w /\ wi_usingAgent w' = wi_usingAgent w /\ wi_caps w' = wi_caps w.
Proof.
  intros Hs. unfold changeSetting. cbn [applyCall]. unfold setConnectionVisibleIfacesTransient.
  case_decide as Hd; cbn [fst]; [by subst l|].
  set (w1 := with_settings _ w). destruct (applySettings_steady w1) as (Hst & Hv & Hp & _ & Hu & Hc). cbv zeta. rewrite Hv, Hp, Hu, Hc. unfold prefsOf. rewrite Hst.
  by split_and!.
Qed.

Lemma gui_started_spec st tray o b netCaps connCaps :
  let g := guiStart st tray o b netCaps connCaps in
  let src := chooseSource (go_noAgent o) b netCaps connCaps in
  synced (gs_window g) /\ wi_visible (gs_window g) = negb (go_tray o) /\ wi_paused (gs_window g) = false /\
  wi_usingAgent (gs_window g) = so_agent src /\ wi_caps (gs_window g) = so_caps src /\
  st_store (wi_settings (gs_window g)) = st_store st /\
  (go_tray o = true -> gs_effects g = []) /\
  cf_visibleIfaces (wi_connProxy (gs_window g)) =
    list_to_set (if isEmpty (go_ifaces o) then pr_list (st_prefs st) PfConnVisibleIfaces else go_ifaces o).
Proof.
  cbv zeta. unfold guiStart. set (src := chooseSource _ _ _ _).
  unfold newWindow, setBackendInfo. set (w0 := mkWindow st _ _ _ _ _ _ _ _ _ _ _ _ _ _ _ _ _ _ _ _ _ _ _).
  pose proof (applySettings_steady w0) as S0. pose proof (applySettings_hidden w0 eq_refl) as E0. destruct (applySettingsToUi w0) as [w1 e1]. cbn [fst snd] in *.
  set (w2 := with_backend _ _ _ _ w1). pose proof (applySettings_steady w2) as S2. pose proof (applySettings_synced w2) as Y2.
  assert (V1 : wi_visible w1 = false) by apply S0. pose proof (applySettings_hidden w2 V1) as E2.
  destruct (applySettingsToUi w2) as [w3 e2]. cbn [fst snd] in *.
  assert (S3 : wi_settings w3 = st /\ wi_visible w3 = false /\ wi_paused w3 = false /\ wi_usingAgent w3 = so_agent src /\ wi_caps w3 = so_caps src).
  { destruct S0 as (A1 & A2 & A3 & _), S2 as (B1 & B2 & B3 & _ & B5 & B6). split_and!; [by rewrite B1|by rewrite B2|by rewrite B3|by rewrite B5|by rewrite B6]. }
  clear S0 S2 V1. subst e1 e2. destruct S3 as (A1 & A2 & A3 & A4 & A5).
  assert (Hshow : exists w4 e3, (if go_tray o then (w3, []) else showEvent w3) = (w4, e3) /\ synced w4 /\ wi_visible w4 = negb (go_tray o) /\ (go_tray o = true -> e3 = []) /\
    wi_settings w4 = st /\ wi_paused w4 = false /\ wi_usingAgent w4 = so_agent src /\ wi_caps w4 = so_caps src).
  { destruct (go_tray o); [by exists w3, []|]. pose proof (refresh_synced true w3 Y2) as Y4. unfold showEvent.
    destruct (refreshAgentHeartbeat (set_visible true w3)) as [w4 e3] eqn:E4. exists w4, e3. injection E4 as <- <-. by split_and!. }
  destruct Hshow as (w4 & e3 & -> & Y4 & V4 & E3 & S4 & P4 & U4 & C4).
  destruct (isEmpty (go_ifaces o)); cbn [gs_window gs_effects].
  - split_and!; try done; [by rewrite S4|intros Ht; by rewrite E3|]. rewrite sy_ifaces by done. unfold prefsOf. by rewrite S4.
  - pose proof (changeSetting_synced (CTransient (removeDuplicates (go_ifaces o))) w4 Y4) as Y5.
    pose proof (transient_keeps (removeDuplicates (go_ifaces o)) w4 Y4) as (T1 & T2 & T3 & T4 & T5 & T6).
    pose proof (changeSetting_hidden (CTransient (removeDuplicates (go_ifaces o))) w4) as E5.
    destruct (changeSetting _ w4) as [w5 e4]. cbn [fst snd gs_window gs_effects] in *. split_and!; try congruence.
    + intros Ht. rewrite (E3 Ht), E5; [done|]. by rewrite V4, Ht.
    + rewrite sy_ifaces by done. rewrite T2. apply set_eq. intros x. by rewrite !elem_of_list_to_set, elem_of_removeDuplicates.
Qed.

(** Started from any preferences with any options: everything shown agrees with
    the preferences, the window is on screen unless it was to start in the
    tray (and then nothing wakes the agent), it knows the source in use and
    what that delivers, the flows are those of the named interfaces alone, and
    the settings file is as it was. *)
Theorem gui_started st tray o b netCaps connCaps :
  let g := guiStart st tray o b netCaps connCaps in
  let src := chooseSource (go_noAgent o) b netCaps connCaps in
  synced (gs_window g) /\ wi_visible (gs_window g) = negb (go_tray o) /\ wi_paused (gs_window g) = false /\
  wi_usingAgent (gs_window g) = so_agent src /\ wi_caps (gs_window g) = so_caps src /\
  st_store (wi_settings (gs_window g)) = st_store st /\
  (go_tray o = true -> gs_effects g = []) /\
  cf_visibleIfaces (wi_connProxy (gs_window g)) =
    list_to_set (if isEmpty (go_ifaces o) then pr_list (st_prefs st) PfConnVisibleIfaces else go_ifaces o).
Proof. apply gui_started_spec. Qed.

(** ** The takeover *)

(** A child that has read everything so far, and the socket of an
    authenticated session. *)
Definition listening (c : HandoffClient) : Prop := hc_sock c = Some true /\ hc_readBuf c = [].
Definition session (st : HandoffServer) : Prop := is_Some (hs_client st) /\ hs_authenticated st = true.

Lemma read_line c line : listening c -> 10%Z ∉ line -> client_handleReadyRead (line ++ [10%Z]) c = (c, cdispatch line).
Proof.
  intros [Hs Hb] Hn. unfold client_handleReadyRead. rewrite Hs, Hb. cbn [app].
  assert (Hc : cutAt 10 (line ++ [10%Z]) = Some (line, [])).
  { clear -Hn. induction line as [|x line IH]; [done|]. cbn. destruct (Z.eqb_spec x 10) as [->|]; [by destruct Hn; left|]. rewrite IH; [done|]. intros Hin. apply Hn. by right. }
  assert (Hl : forall n, clientLoop n [] = ([], [])) by (by intros []).
  cbn [clientLoop]. rewrite Hc, Hl, app_nil_r. destruct c; cbn in *; by subst.
Qed.
Lemma wire_hsend st line : session st -> wire (hsend line st) = line ++ [10%Z].
Proof. intros [[s Hs] Ha]. unfold hsend. rewrite Hs, Ha. unfold wire. done. Qed.

Definition pausedLine (b : bool) : bytes := qs "PAUSED" ++ [9%Z] ++ pauseFlag b.

Lemma child_paused st c w b : session st -> listening c ->
  childRead (wire (sendPause b st)) (mkChildSide w c) =
  (mkChildSide (fst (togglePaused b w)) c, if Bool.eqb b (wi_paused w) then [] else [CWrite (pausedLine b); CWrite [10%Z]]).
Proof.
  intros Hst Hc. unfold childRead, sendPause. cbn [cs_client]. rewrite wire_hsend by done.
  assert (Hn : 10%Z ∉ qs "PAUSE" ++ [9%Z] ++ pauseFlag b) by (rewrite list_elem_of_In; destruct b; vm_compute; intuition discriminate).
  rewrite read_line by done. assert (Hd : cdispatch (qs "PAUSE" ++ [9%Z] ++ pauseFlag b) = [CPauseCommand b]) by (by destruct b). rewrite Hd.
  cbn [childCommands childCommand]. unfold childEvent. cbn [windowStep cs_window cs_client]. unfold togglePaused, echo.
  destruct (Bool.eqb b (wi_paused w)) eqn:E; cbn [fst].
  - by rewrite Bool.eqb_reflx.
  - cbn [set_paused with_modes wi_paused]. assert (Hx : Bool.eqb (wi_paused w) b = false) by (by destruct b, (wi_paused w)). rewrite Hx. cbn [app].
    unfold sendMsg, csend. destruct Hc as [-> _]. done.
Qed.
Lemma toggle_paused b w : wi_paused (fst (togglePaused b w)) = b.
Proof. unfold togglePaused. destruct (Bool.eqb b (wi_paused w)) eqn:E; [|done]. by apply eqb_eq in E. Qed.

(** C35. The tray of the parent commands the child: what it writes for a click makes
    the child's window take the state the entry shows, and the child confirms
    exactly the changes, with the line the parent's tray takes the state from. *)
Theorem takeover_obeyed st c w b cl parent :
  session st -> listening c ->
  let '(s, acts) := childRead (wire (sendPause b st)) (mkChildSide w c) in
  wi_paused (cs_window s) = b /\ listening (cs_client s) /\
  acts = (if Bool.eqb b (wi_paused w) then [] else [CWrite (pausedLine b); CWrite [10%Z]]) /\
  dispatch cl (pausedLine b) st = (st, [Emit (ChildPauseState b)]) /\
  (wi_proxyMode parent = true -> snd (windowStep (EvChildPause b) parent) = [WeTrayPaused b]).
Proof.
  intros Hst Hc. rewrite child_paused by done. split_and!; [apply toggle_paused|done|done|by destruct b|].
  intros Hp. cbn [windowStep]. unfold onChildPauseState. by rewrite Hp.
Qed.

(** The two other entries of the tray. *)
Theorem takeover_shows_and_quits st c w :
  session st -> listening c ->
  wi_visible (cs_window (fst (childRead (wire (sendShow st)) (mkChildSide w c)))) = true /\
  wi_explicitQuit (cs_window (fst (childRead (wire (sendQuit st)) (mkChildSide w c)))) = true.
Proof.
  intros Hst Hc. assert (Hn : 10%Z ∉ qs "SHOW" /\ 10%Z ∉ qs "QUIT") by (rewrite !list_elem_of_In; vm_compute; intuition discriminate).
  unfold childRead, sendShow, sendQuit. cbn [cs_client]. rewrite !wire_hsend by done. rewrite !read_line by (done || apply Hn). split; done.
Qed.

(** The child starts with updates running and says nothing about it.  A parent
    that was paused keeps its tray entry checked when the child takes over;
    the next click only unchecks it: the command it sends changes nothing and
    is not answered. *)
Theorem takeover_pause_stale st c p prefs tray o b netCaps connCaps :
  session st -> listening c -> tr_paused (sh_tray p) = true ->
  let child := gs_window (guiStart prefs tray o b netCaps connCaps) in
  let p1 := shellStep (ShWindow EvChildReady) p in
  let p2 := shellStep ShClickPause p1 in
  tr_paused (sh_tray p1) = true /\ wi_paused child = false /\
  windowStep (EvTrayPause false) (sh_window p1) = (sh_window p1, [WeSendPause false]) /\ tr_paused (sh_tray p2) = false /\
  childRead (wire (sendPause false st)) (mkChildSide child c) = (mkChildSide child c, []).
Proof.
  intros Hst Hc Hp child p1 p2. pose proof (gui_started_spec prefs tray o b netCaps connCaps) as (_ & _ & Hpa & _). fold child in Hpa.
  assert (H1' : tr_paused (sh_tray p1) = true /\ wi_proxyMode (sh_window p1) = true) by done.
  destruct H1' as [Ht Hx]. split_and!; [done|done|cbn [windowStep]; unfold trayPause; by rewrite Hx| |].
  - unfold p2, shellStep, clickPause. rewrite Ht. cbn [foldl windowStep negb]. unfold trayPause. cbn [sh_window sh_tray]. rewrite Hx. done.
  - rewrite child_paused by done. rewrite Hpa. cbn. unfold togglePaused. by rewrite Hpa.
Qed.
End Start.

(* ------------------------------------------------------------------ *)
(** ** Examples *)

#[local] Existing Instances truncatedText sampleJson.

Definition plainStart (tray : bool) (ifaces : list QString) : GuiStart :=
  guiStart (mkSettings true ∅ defaultPrefs) true (mkGuiOptions false ifaces tray) agentBus [] [].

Example start_in_tray : gs_effects (plainStart true [qs "eth0"; qs "eth0"]) = [] /\ pr_list (prefsOf (gs_window (plainStart true [qs "eth0"; qs "eth0"]))) PfConnVisibleIfaces = [qs "eth0"].
Proof. vm_compute. done. Qed.

Definition liveServer : HandoffServer := setSession (Some 3) [] true newServer.
Definition liveClient : HandoffClient := mkClient (Some true) [].
Definition childWindow : Window := gs_window (plainStart false []).
Definition pausedParent : Shell := runShell [ShWindow EvShow; ShClickPause] (mkShell (fst (newWindow (mkSettings true ∅ defaultPrefs) true)) newTray).

Lemma takeover_obeyed_witness :
  let r := childRead (wire (sendPause true liveServer)) (mkChildSide childWindow liveClient) in
  wi_paused (cs_window (fst r)) = true /\ snd r = [CWrite (pausedLine true); CWrite [10%Z]].
Proof.
  assert (Hw : wi_paused childWindow = false) by (vm_compute; reflexivity).
  assert (Hs : session liveServer) by (split; [by exists 3|reflexivity]). assert (Hl : listening liveClient) by (by split).
  pose proof (takeover_obeyed liveServer liveClient childWindow true true childWindow Hs Hl) as Ht.
  destruct (childRead _ _) as [s acts]. destruct Ht as (Hp & _ & Ha & _). cbn [fst snd]. rewrite Hw in Ha. split; [exact Hp|exact Ha].
Defined.
Lemma takeover_shows_and_quits_witness : wi_explicitQuit (cs_window (fst (childRead (wire (sendQuit liveServer)) (mkChildSide childWindow liveClient)))) = true.
Proof. apply (takeover_shows_and_quits liveServer liveClient childWindow); [split; [by exists 3|reflexivity]|by split]. Defined.
Lemma takeover_pause_stale_witness : tr_paused (sh_tray (shellStep (ShWindow EvChildReady) pausedParent)) = true /\ wi_paused childWindow = false.
Proof.
  assert (Hs : session liveServer) by (split; [by exists 3|reflexivity]). assert (Hl : listening liveClient) by (by split).
  pose proof (takeover_pause_stale liveServer liveClient pausedParent (mkSettings true ∅ defaultPrefs) true (mkGuiOptions false [] false) agentBus [] [] Hs Hl ltac:(vm_compute; reflexivity)) as (Ht & Hc & _).
  split; [exact Ht|exact Hc].
Defined.
