(* ===== verification/Metrics.v ===== *)
(** * The Prometheus exporter: [examples/prometheus-exporter/main.cpp]

    The text of /metrics from the two aggregators, the buckets per container
    and per process, the answer to a request and the options.

    The reader of a label value is the exposition format's.  Encoding the text
    is Qt's; one [readyRead] delivers what has arrived. *)

From S2P Require Import Prelude Qt Conn DbusTypes UdpAgg Aggregator IfaceAgg Units CheckTool TuiPrefs.

Definition quote : QString := [34%Z].
Definition newline : QString := [10%Z].

Definition escapeChar (c : QChar) : QString :=
  if (c =? 92)%Z then [92; 92]%Z else if (c =? 34)%Z then [92; 34]%Z else if (c =? 10)%Z then [92; 110]%Z else [c].
Definition escapeLabel (v : QString) : QString := List.flat_map escapeChar v.

(** The families in the order of the text. *)
Inductive IfaceMetric := ImRxTotal | ImTxTotal | ImRxRate | ImTxRate | ImUp.
Inductive PairMetric := PmContainerRx | PmContainerTx | PmContainerFlows | PmProcessRx | PmProcessTx.

Definition ifaceMetricName (m : IfaceMetric) : QString :=
  qs match m with
     | ImRxTotal => "qiftop_interface_rx_bytes_total" | ImTxTotal => "qiftop_interface_tx_bytes_total"
     | ImRxRate => "qiftop_interface_rx_rate_bytes" | ImTxRate => "qiftop_interface_tx_rate_bytes" | ImUp => "qiftop_interface_up"
     end.
Definition pairMetricName (m : PairMetric) : QString :=
  qs match m with
     | PmContainerRx => "qiftop_container_rx_rate_bytes" | PmContainerTx => "qiftop_container_tx_rate_bytes"
     | PmContainerFlows => "qiftop_container_active_flows"
     | PmProcessRx => "qiftop_process_rx_rate_bytes" | PmProcessTx => "qiftop_process_tx_rate_bytes"
     end.
Definition pairLabels (m : PairMetric) : QString * QString :=
  match m with
  | PmContainerRx | PmContainerTx | PmContainerFlows => (qs "runtime", qs "container")
  | PmProcessRx | PmProcessTx => (qs "comm", qs "uid")
  end.

Definition emitHeader (name type help : QString) : QString :=
  qargs (qs "# HELP %1 %2" ++ newline) [name; help] ++ qargs (qs "# TYPE %1 %2" ++ newline) [name; type].
Definition ifaceHeader (m : IfaceMetric) : QString :=
  emitHeader (ifaceMetricName m) (qs match m with ImRxTotal | ImTxTotal => "counter" | _ => "gauge" end)
    (qs match m with
        | ImRxTotal => "Total bytes received on the interface (kernel counter)."
        | ImTxTotal => "Total bytes transmitted on the interface (kernel counter)."
        | ImRxRate => "Current receive rate on the interface (bytes/sec)."
        | ImTxRate => "Current transmit rate on the interface (bytes/sec)."
        | ImUp => "1 if the interface is administratively up, else 0."
        end).
Definition pairHeader (m : PairMetric) : QString :=
  emitHeader (pairMetricName m) (qs "gauge")
    (qs match m with
        | PmContainerRx => "Aggregated receive rate for the container (bytes/sec)."
        | PmContainerTx => "Aggregated transmit rate for the container (bytes/sec)."
        | PmContainerFlows => "Number of active flows attributed to the container."
        | PmProcessRx => "Aggregated receive rate for the process (bytes/sec)."
        | PmProcessTx => "Aggregated transmit rate for the process (bytes/sec)."
        end).

(** One sample: [arg] once per value for an interface, the two labels in one
    [arg] and the value in another for a bucket. *)
Definition ifaceLine (m : IfaceMetric) (iface value : QString) : QString :=
  qarg (qarg (ifaceMetricName m ++ qs "{iface=" ++ quote ++ qs "%1" ++ quote ++ qs "} %2" ++ newline) (escapeLabel iface)) value.
Definition pairLine (m : PairMetric) (l1 l2 value : QString) : QString :=
  qarg (qargs (pairMetricName m ++ qs "{" ++ fst (pairLabels m) ++ qs "=" ++ quote ++ qs "%1" ++ quote ++ qs "," ++ snd (pairLabels m) ++ qs "=" ++ quote
               ++ qs "%2" ++ quote ++ qs "} %3" ++ newline) [escapeLabel l1; escapeLabel l2]) value.

Record Bucket := mkBucket { bk_rxRate : double; bk_txRate : double; bk_flows : Z; bk_l1 : QString; bk_l2 : QString }.
Definition emptyBucket : Bucket := mkBucket dzero dzero 0 [] [].

Definition rawRx (r : Row) : double := ch_raw (r_rx r).
Definition rawTx (r : Row) : double := ch_raw (r_tx r).
Definition bucketAdd (l1 l2 : QString) (r : Row) (b : Bucket) : Bucket :=
  mkBucket (dadd (bk_rxRate b) (rawRx r)) (dadd (bk_txRate b) (rawTx r)) (u64 (bk_flows b + 1)) l1 l2.

(** The bucket of a row with its labels; [None]: not attributed. *)
Definition containerBucket (c : Connection) : option (QString * QString * QString) :=
  let k := c_container c in
  if containerValid k then Some (ci_runtime k ++ [47%Z] ++ ci_id k, ci_runtime k, if isEmpty (ci_name k) then ci_id k else ci_name k) else None.
Definition processBucket (c : Connection) : option (QString * QString * QString) :=
  let p := c_process c in
  if processValid p then Some (pi_comm p ++ [47%Z] ++ number (pi_uid p), pi_comm p, number (pi_uid p)) else None.

Definition countRow (place : Connection -> option (QString * QString * QString)) (m : gmap QString Bucket) (r : Row) : gmap QString Bucket :=
  match place (r_current r) with
  | Some (k, l1, l2) => <[k := bucketAdd l1 l2 r (default emptyBucket (m !! k))]> m
  | None => m
  end.
Definition buckets (place : Connection -> option (QString * QString * QString)) (rows : list Row) : gmap QString Bucket := foldl (countRow place) ∅ rows.

Section Text.
Context `{QtNumberText, QHashOrder}.

Definition ifaceValue (m : IfaceMetric) (r : IfaceRow) : QString :=
  match m with
  | ImRxTotal => number (if_rxBytes (ir_current r)) | ImTxTotal => number (if_txBytes (ir_current r))
  | ImRxRate => fixedText (ir_rxRate r) 0 | ImTxRate => fixedText (ir_txRate r) 0
  | ImUp => number (if if_isUp (ir_current r) then 1 else 0)
  end.
Definition ifaceFamily (rows : list IfaceRow) (m : IfaceMetric) : QString :=
  ifaceHeader m ++ List.flat_map (fun r => ifaceLine m (if_name (ir_current r)) (ifaceValue m r)) rows.
Definition pairValue (m : PairMetric) (b : Bucket) : QString :=
  match m with
  | PmContainerRx | PmProcessRx => fixedText (bk_rxRate b) 0 | PmContainerTx | PmProcessTx => fixedText (bk_txRate b) 0
  | PmContainerFlows => number (bk_flows b)
  end.
Definition pairFamily (bs : gmap QString Bucket) (m : PairMetric) : QString :=
  pairHeader m ++ List.flat_map (fun kb => pairLine m (bk_l1 (snd kb)) (bk_l2 (snd kb)) (pairValue m (snd kb))) (hash_iter bs).

Definition buildMetrics (ia : InterfaceAggregator) (agg : Aggregator) : QString :=
  let byContainer := buckets containerBucket (ag_rows agg) in
  let byProcess := buckets processBucket (ag_rows agg) in
  List.flat_map (ifaceFamily (ia_rows ia)) [ImRxTotal; ImTxTotal; ImRxRate; ImTxRate; ImUp]
  ++ List.flat_map (pairFamily byContainer) [PmContainerRx; PmContainerTx; PmContainerFlows]
  ++ List.flat_map (pairFamily byProcess) [PmProcessRx; PmProcessTx].

(* ------------------------------------------------------------------ *)
(** ** The server *)

Context (toUtf8 : QString -> list Z).

Inductive Answer := AnMetrics | AnHealth | AnNotFound.
Definition route (req : list Z) : Answer :=
  if prefixb (qs "GET /metrics") req then AnMetrics
  else if prefixb (qs "GET /healthz") req || prefixb (qs "GET / ") req then AnHealth
  else AnNotFound.
Definition crlf : list Z := [13; 10]%Z.
Definition respond (req : list Z) (ia : InterfaceAggregator) (agg : Aggregator) : list Z :=
  let '(status, body) := match route req with
                         | AnMetrics => (qs "200 OK", toUtf8 (buildMetrics ia agg))
                         | AnHealth => (qs "200 OK", qs "ok" ++ newline)
                         | AnNotFound => (qs "404 Not Found", qs "not found" ++ newline)
                         end in
  qs "HTTP/1.1 " ++ status ++ crlf ++ qs "Content-Type: text/plain; version=0.0.4; charset=utf-8" ++ crlf
  ++ qs "Content-Length: " ++ number (Z.of_nat (length body)) ++ crlf ++ qs "Connection: close" ++ crlf ++ crlf ++ body.
End Text.

(* ------------------------------------------------------------------ *)
(** ** Options *)

Section Options.
Context `{QtIntText}.

(** What follows the first occurrence of a flag. *)
Fixpoint afterFlag (flag : QString) (args : list QString) : option QString :=
  match args with
  | [] => None
  | a :: rest => if qeqb a flag then head rest else afterFlag flag rest
  end.
Definition argStr (args : list QString) (flag dflt : QString) : QString := default dflt (afterFlag flag args).
Definition argValue (args : list QString) (flag : QString) (dflt : Z) : Z :=
  match afterFlag flag args with Some t => default dflt (intOfText t) | None => dflt end.
(** [static_cast<quint16>]. *)
Definition listenPort (args : list QString) : Z := (argValue args (qs "--port") 9617 mod 65536)%Z.
End Options.

(* ------------------------------------------------------------------ *)
(** ** Correctness *)

(** The value of a label as a scraper reads it, up to its closing quote. *)
Fixpoint readLabel (s : QString) : option (QString * QString) :=
  match s with
  | [] => None
  | c :: r =>
      if (c =? 34)%Z then Some ([], r)
      else if (c =? 10)%Z then None
      else if (c =? 92)%Z then
        match r with
        | e :: r' =>
            v ← (if (e =? 92)%Z then Some 92%Z else if (e =? 34)%Z then Some 34%Z else if (e =? 110)%Z then Some 10%Z else None);
            '(t, rest) ← readLabel r'; Some (v :: t, rest)
        | [] => None
        end
      else '(t, rest) ← readLabel r; Some (c :: t, rest)
  end.

Lemma read_escaped v rest : readLabel (escapeLabel v ++ quote ++ rest) = Some (v, rest).
Proof.
  assert (Hq : readLabel (quote ++ rest) = Some ([], rest)) by done. revert Hq. generalize (quote ++ rest). intros tl Hq.
  induction v as [|c v IH]; [done|]. unfold escapeLabel in *. cbn [List.flat_map]. rewrite <- app_assoc. unfold escapeChar at 1.
  destruct (Z.eqb_spec c 92) as [->|H92]; [cbn; by rewrite IH|]. destruct (Z.eqb_spec c 34) as [->|H34]; [cbn; by rewrite IH|].
  destruct (Z.eqb_spec c 10) as [->|H10]; [cbn; by rewrite IH|]. cbn.
  apply Z.eqb_neq in H92, H34, H10. by rewrite H92, H34, H10, IH.
Qed.

Lemma escape_noPct v : noPct v -> noPct (escapeLabel v).
Proof.
  unfold noPct. rewrite !list_elem_of_In. intros Hv Hin. apply in_flat_map in Hin as (c & Hc & Hx). unfold escapeChar in Hx.
  repeat case_match; cbn in Hx; intuition (subst; try discriminate; done).
Qed.

Lemma pairTemplate m a b :
  qargs (pairMetricName m ++ qs "{" ++ fst (pairLabels m) ++ qs "=" ++ quote ++ qs "%1" ++ quote ++ qs "," ++ snd (pairLabels m) ++ qs "=" ++ quote
         ++ qs "%2" ++ quote ++ qs "} %3" ++ newline) [a; b]
  = (pairMetricName m ++ qs "{" ++ fst (pairLabels m) ++ qs "=" ++ quote) ++ a ++ (quote ++ qs "," ++ snd (pairLabels m) ++ qs "=" ++ quote)
    ++ b ++ (quote ++ qs "} %3" ++ newline).
Proof. destruct m; reflexivity. Qed.
Lemma pairHead_noPct m : noPct (pairMetricName m ++ qs "{" ++ fst (pairLabels m) ++ qs "=" ++ quote) /\ noPct (quote ++ qs "," ++ snd (pairLabels m) ++ qs "=" ++ quote).
Proof. unfold noPct. rewrite !list_elem_of_In. destruct m; vm_compute; intuition discriminate. Qed.

Lemma pairLine_shape m l1 l2 x : noPct (escapeLabel l1) -> noPct (escapeLabel l2) ->
  pairLine m l1 l2 x = (pairMetricName m ++ qs "{" ++ fst (pairLabels m) ++ qs "=" ++ quote) ++ escapeLabel l1
    ++ (quote ++ qs "," ++ snd (pairLabels m) ++ qs "=" ++ quote) ++ escapeLabel l2 ++ quote ++ qs "} " ++ x ++ newline.
Proof.
  intros H1 H2. destruct (pairHead_noPct m) as [Ha Hb]. unfold pairLine. rewrite pairTemplate.
  rewrite (qarg_prefix _ _ _ Ha), (qarg_prefix _ _ _ H1), (qarg_prefix _ _ _ Hb), (qarg_prefix _ _ _ H2). reflexivity.
Qed.

(** Between the name and the value of a sample stand the two labels of its
    bucket, as a scraper reads them, whatever characters they hold except the
    percent sign: a quote, a backslash or a line break in a name starts no
    other label and no other sample. *)
Theorem sample_reads m l1 l2 x :
  noPct l1 -> noPct l2 ->
  exists rest, pairLine m l1 l2 x = pairMetricName m ++ qs "{" ++ fst (pairLabels m) ++ qs "=" ++ quote ++ rest /\
  exists rest2, readLabel rest = Some (l1, qs "," ++ snd (pairLabels m) ++ qs "=" ++ quote ++ rest2) /\
  readLabel rest2 = Some (l2, qs "} " ++ x ++ newline).
Proof.
  intros H1%escape_noPct H2%escape_noPct. rewrite pairLine_shape by done.
  eexists. split; [rewrite <- !app_assoc; reflexivity|]. eexists. split; [rewrite <- ?app_assoc; apply read_escaped|]. apply read_escaped.
Qed.

Lemma qarg_both mid x : noPct mid ->
  qarg (qs "%3" ++ quote ++ mid ++ qs "} %3" ++ newline) x = x ++ quote ++ mid ++ qs "} " ++ x ++ newline.
Proof.
  intros Hm. unfold qarg.
  assert (Hp : arg_pieces (qs "%3" ++ quote ++ mid ++ qs "} %3" ++ newline) = PMark 3 (qs "%3") :: PLit 34 :: map PLit mid ++ arg_pieces (qs "} %3" ++ newline)).
  { rewrite <- arg_pieces_prefix by done. reflexivity. }
  rewrite Hp. set (tail := arg_pieces (qs "} %3" ++ newline)).
  assert (Hn : min_marker (PMark 3 (qs "%3") :: PLit 34 :: map PLit mid ++ tail) = Some 3%Z).
  { unfold min_marker. cbn [foldr]. rewrite foldr_app. assert (Hl : forall acc, foldr (fun p acc => match p, acc with PMark n _, Some m => Some (Z.min n m) | PMark n _, None => Some n | PLit _, _ => acc end) acc (map PLit mid) = acc)
      by (intros acc; clear; induction mid; by cbn). rewrite Hl. reflexivity. }
  rewrite Hn. cbn [List.flat_map render_piece Z.eqb Pos.eqb]. rewrite List.flat_map_app.
  assert (Hl : List.flat_map (render_piece 3 x) (map PLit mid) = mid) by (clear; induction mid as [|c mid IH]; [done|]; cbn; by rewrite IH).
  rewrite Hl. reflexivity.
Qed.

(** The name of a process is its own choice, and the value is put in by a
    second [arg]: a process called %3 is exported with its rate for a name, so
    that its series changes its identity from scrape to scrape. *)
Theorem metric_marker_misread m l2 x : m = PmProcessRx \/ m = PmProcessTx -> noPct l2 ->
  pairLine m (qs "%3") l2 x = pairMetricName m ++ qs "{comm=" ++ quote ++ x ++ quote ++ qs ",uid=" ++ quote ++ escapeLabel l2 ++ quote ++ qs "} " ++ x ++ newline.
Proof.
  intros Hm H2%escape_noPct. unfold pairLine. rewrite pairTemplate. destruct (pairHead_noPct m) as [Ha Hb]. rewrite (qarg_prefix _ _ _ Ha).
  assert (He : fst (pairLabels m) = qs "comm" /\ snd (pairLabels m) = qs "uid") by (by destruct Hm as [->| ->]). destruct He as [-> ->].
  assert (Hmid : noPct (qs ",uid=" ++ quote ++ escapeLabel l2 ++ quote)).
  { unfold noPct in *. rewrite !elem_of_app. rewrite !list_elem_of_In. intros [Hin|[Hin|[Hin|Hin]]]; [vm_compute in Hin; intuition discriminate|vm_compute in Hin; intuition discriminate| |vm_compute in Hin; intuition discriminate].
    by apply H2, list_elem_of_In. }
  pose proof (qarg_both _ x Hmid) as Hq. rewrite <- !app_assoc in Hq. rewrite <- !app_assoc. f_equal.
  transitivity (qs "{comm=" ++ quote ++ qarg (qs "%3" ++ quote ++ qs ",uid=" ++ quote ++ escapeLabel l2 ++ quote ++ qs "} %3" ++ newline) x); [reflexivity|]. by rewrite Hq.
Qed.

(** The rows of a bucket, in their order. *)
Definition bucketKey (place : Connection -> option (QString * QString * QString)) (r : Row) : option QString := fst ∘ fst <$> place (r_current r).
Definition rowsIn (place : Connection -> option (QString * QString * QString)) (k : QString) (rows : list Row) : list Row := filter (fun r => bucketKey place r = Some k) rows.
Definition bucketOf (place : Connection -> option (QString * QString * QString)) (rows : list Row) : option Bucket :=
  foldl (fun b r => match place (r_current r) with Some (_, l1, l2) => Some (bucketAdd l1 l2 r (default emptyBucket b)) | None => b end) None rows.

Lemma buckets_lookup place rows k : buckets place rows !! k = bucketOf place (rowsIn place k rows).
Proof.
  unfold buckets, bucketOf, rowsIn. induction rows as [|r rows IH] using rev_ind; [done|].
  rewrite foldl_app, filter_app, foldl_app. cbn [foldl]. rewrite <- IH. unfold countRow at 1. rewrite filter_cons, filter_nil. unfold bucketKey.
  destruct (place (r_current r)) as [[[k' l1] l2]|] eqn:E; cbn.
  - destruct (decide (k' = k)) as [->|Hne].
    + rewrite lookup_insert_eq, decide_True by done. cbn. by rewrite E.
    + rewrite lookup_insert_ne by done. by rewrite decide_False by congruence.
  - by rewrite decide_False.
Qed.

Lemma bucketOf_flows place rows : Forall (fun r => is_Some (place (r_current r))) rows -> (Z.of_nat (length rows) < two64)%Z ->
  match bucketOf place rows with Some b => bk_flows b = Z.of_nat (length rows) | None => rows = [] end.
Proof.
  unfold bucketOf. induction rows as [|r rows IH] using rev_ind; intros Hf Hl; [done|]. apply Forall_app in Hf as [Hf Hr]. rewrite length_app in *. cbn in Hl.
  specialize (IH Hf ltac:(cbn; lia)). rewrite foldl_app. cbn [foldl]. apply Forall_cons in Hr as [[[[k l1] l2] Hp] _]. rewrite Hp. cbn [bucketAdd bk_flows].
  assert (Hu : forall z, (0 <= z < two64)%Z -> u64 z = z) by (intros z Hz; unfold u64; by apply Z.mod_small).
  destruct (foldl _ None rows) as [b|]; cbn [default from_option id].
  - rewrite IH, Hu; cbn; lia.
  - subst rows. cbn. rewrite Hu; [done|]. unfold two64. lia.
Qed.

(** What is exported per container and per process is the table grouped: a
    bucket for every container (and every process name and user) with flows,
    its flows counted and their rates added up in the order of the table, and
    every attributed flow in exactly one bucket. *)
Theorem buckets_exact place rows :
  (Z.of_nat (length rows) < two64)%Z ->
  (forall k, buckets place rows !! k = bucketOf place (rowsIn place k rows)) /\
  (forall k b, buckets place rows !! k = Some b -> bk_flows b = Z.of_nat (length (rowsIn place k rows))) /\
  (forall r, r ∈ rows -> forall k l1 l2, place (r_current r) = Some (k, l1, l2) -> is_Some (buckets place rows !! k)).
Proof.
  intros Hl.
  assert (Hf : forall k, Forall (fun r => is_Some (place (r_current r))) (rowsIn place k rows)).
  { intros k. apply Forall_forall. intros r [Hk _]%list_elem_of_filter. unfold bucketKey in Hk. by destruct (place (r_current r)). }
  assert (Hb : forall k, match bucketOf place (rowsIn place k rows) with Some b => bk_flows b = Z.of_nat (length (rowsIn place k rows)) | None => rowsIn place k rows = [] end).
  { intros k. apply bucketOf_flows; [done|]. pose proof (length_filter (fun r => bucketKey place r = Some k) rows). unfold rowsIn. lia. }
  split_and!; [apply buckets_lookup| |].
  - intros k b Hk. rewrite buckets_lookup in Hk. specialize (Hb k). by rewrite Hk in Hb.
  - intros r Hr k l1 l2 Hp. rewrite buckets_lookup. specialize (Hb k). destruct (bucketOf _ _); [done|].
    exfalso. assert (Hin : r ∈ rowsIn place k rows) by (apply list_elem_of_filter; split; [unfold bucketKey; by rewrite Hp|done]). rewrite Hb in Hin. by apply not_elem_of_nil in Hin.
Qed.

(** Containers are told apart by their ids but labelled with their names: two
    of one runtime with the same name, as every pod's containers have, give
    two samples of one series, which a scraper refuses. *)
Theorem duplicate_series r1 r2 :
  let c1 := c_container (r_current r1) in let c2 := c_container (r_current r2) in
  containerValid c1 = true -> containerValid c2 = true -> ci_runtime c1 = ci_runtime c2 -> ci_name c1 = ci_name c2 -> ci_name c1 <> [] -> ci_id c1 <> ci_id c2 ->
  exists k1 k2 b1 b2, k1 <> k2 /\ buckets containerBucket [r1; r2] !! k1 = Some b1 /\ buckets containerBucket [r1; r2] !! k2 = Some b2 /\ bk_l1 b1 = bk_l1 b2 /\ bk_l2 b1 = bk_l2 b2.
Proof.
  intros c1 c2 V1 V2 Hr Hn Hne Hid.
  set (k1 := ci_runtime c1 ++ [47%Z] ++ ci_id c1). set (k2 := ci_runtime c2 ++ [47%Z] ++ ci_id c2).
  assert (Hk : k1 <> k2). { unfold k1, k2. rewrite Hr. intros He. apply app_inv_head in He. by injection He. }
  assert (P1 : containerBucket (r_current r1) = Some (k1, ci_runtime c1, ci_name c1)).
  { unfold containerBucket. fold c1. rewrite V1. by destruct (ci_name c1). }
  assert (P2 : containerBucket (r_current r2) = Some (k2, ci_runtime c1, ci_name c1)).
  { unfold containerBucket, k2. fold c2. rewrite V2, <- Hn, <- Hr. by destruct (ci_name c1). }
  unfold buckets. cbn [foldl]. unfold countRow. rewrite P1, P2. exists k1, k2. do 2 eexists.
  split_and!; [done|rewrite lookup_insert_ne by congruence; rewrite lookup_insert_eq; reflexivity|rewrite lookup_insert_eq; reflexivity|reflexivity|reflexivity].
Qed.

(** A request is routed by what the first read delivers: while the path is
    incomplete the answer is that there is no such page. *)
Theorem split_request_refused n rest : n < length (qs "GET /metrics") -> route (take n (qs "GET /metrics" ++ rest)) = AnNotFound.
Proof.
  intros Hn. rewrite take_app_le by lia. do 12 (destruct n as [|n]; [reflexivity|]). cbn in Hn. lia.
Qed.

(* ------------------------------------------------------------------ *)
(** ** Examples *)

Definition flowIn (name id : string) (comm : string) : Row :=
  newRow (mkConnection (mkEndpoint (AddrV4 1) 40000) (mkEndpoint (AddrV4 2) 443) Tcp 0 0 0 0 (qs "eth0") 2 Outbound Established Resolved
    (mkProcessInfo 42 (qs comm) [] [] 1000) (mkContainerInfo (qs "docker") (qs id) (qs name)) []) 0.

Lemma sample_reads_witness : exists rest rest2,
  pairLine PmProcessRx [97; 34; 10]%Z (qs "1000") (qs "7") = qs "qiftop_process_rx_rate_bytes" ++ qs "{" ++ qs "comm" ++ qs "=" ++ quote ++ rest /\
  readLabel rest = Some ([97; 34; 10]%Z, qs "," ++ qs "uid" ++ qs "=" ++ quote ++ rest2).
Proof.
  assert (H1 : noPct [97; 34; 10]%Z) by (apply (bool_decide_unpack _); vm_compute; exact I).
  assert (H2 : noPct (qs "1000")) by (apply (bool_decide_unpack _); vm_compute; exact I).
  destruct (sample_reads PmProcessRx [97; 34; 10]%Z (qs "1000") (qs "7") H1 H2) as (rest & He & rest2 & Hr & _). exists rest, rest2. split; [exact He|exact Hr].
Defined.
Lemma metric_marker_misread_witness : exists rest, pairLine PmProcessTx (qs "%3") (qs "0") (qs "512") = qs "qiftop_process_tx_rate_bytes{comm=" ++ quote ++ qs "512" ++ rest.
Proof.
  assert (H2 : noPct (qs "0")) by (apply (bool_decide_unpack _); vm_compute; exact I).
  eexists. rewrite (metric_marker_misread PmProcessTx (qs "0") (qs "512") (or_intror eq_refl) H2). reflexivity.
Defined.
Lemma buckets_exact_witness : bk_flows <$> buckets processBucket [flowIn "a" "1" "curl"; flowIn "b" "2" "curl"] !! qs "curl/1000" = Some 2%Z.
Proof.
  destruct (buckets_exact processBucket [flowIn "a" "1" "curl"; flowIn "b" "2" "curl"] ltac:(by vm_compute)) as (Hk & _). rewrite Hk. vm_compute. reflexivity.
Defined.
Lemma duplicate_series_witness : exists k1 k2 b1 b2, k1 <> k2 /\
  buckets containerBucket [flowIn "proxy" "1a" "curl"; flowIn "proxy" "2b" "curl"] !! k1 = Some b1 /\ buckets containerBucket [flowIn "proxy" "1a" "curl"; flowIn "proxy" "2b" "curl"] !! k2 = Some b2 /\
  bk_l1 b1 = bk_l1 b2 /\ bk_l2 b1 = bk_l2 b2.
Proof. apply duplicate_series; vm_compute; try reflexivity; discriminate. Defined.
Lemma split_request_refused_witness : route (qs "GET /met") = AnNotFound.
Proof. apply (split_request_refused 8 []). vm_compute. lia. Defined.
Example port_wraps : listenPort [qs "x"; qs "--port"; qs "70000"] = 4464%Z.
Proof. reflexivity. Qed.
