(* ===== verification/Snapshot.v ===== *)
(** * The one-shot exporter: [examples/snapshot-export/main.cpp]

    A table of flows as CSV or JSON, on the standard output or in a file.  The
    settle time is the wait before the rows are taken; the agent's stream and
    the flow table are those of [DbusClient] and [Aggregator]. *)

From S2P Require Import Prelude Qt Conn DbusTypes Filter UdpAgg Aggregator Export TuiFormat TuiScreen TuiState TuiControl TuiPrefs Metrics.

Section Snapshot.
Context `{QtUnicode, QtAddrText, VariantText, QtIntText}.
(** [QJsonDocument::toJson], and UTF-8. *)
Context (jsonText : Exportable -> list Z) (toUtf8 : QString -> list Z).

Definition endpoint (e : Endpoint) : QString :=
  let host := addrToString (ep_address e) in
  if isIPv6 e then qarg (qarg (qs "[%1]:%2") host) (number (ep_port e)) else qarg (qarg (qs "%1:%2") host) (number (ep_port e)).

Definition snapshotHeaders : list QString :=
  map qs ["proto"; "local"; "remote"; "iface"; "rx_rate"; "tx_rate"; "rx_bytes"; "tx_bytes"; "comm"; "pid"; "uid"; "container_runtime"; "container"]%string.
Definition snapshotRow (r : Row) : list ExportValue :=
  let c := r_current r in
  let k := c_container c in
  let container := if containerValid k then (if isEmpty (ci_name k) then ci_id k else ci_name k) else [] in
  [EvStr (l4ProtoToString (c_proto c)); EvStr (endpoint (c_local c)); EvStr (endpoint (c_remote c)); EvStr (c_iface c); EvDouble (rawRx r); EvDouble (rawTx r);
   EvULongLong (c_rxBytes c); EvULongLong (c_txBytes c); EvStr (if processValid (c_process c) then pi_comm (c_process c) else []);
   EvInt (if processValid (c_process c) then pi_pid (c_process c) else 0); EvInt (if processValid (c_process c) then pi_uid (c_process c) else 0);
   EvStr (ci_runtime k); EvStr container].
Definition flowSnapshot (rows : list Row) : Exportable := mkExportable snapshotHeaders (map snapshotRow rows).

Record SnapshotOptions := mkSnapshotOptions { sn_session : bool; sn_format : QString; sn_output : QString; sn_waitMs : Z }.
Definition snapshotOptions (args : list QString) : SnapshotOptions :=
  mkSnapshotOptions (bool_decide (qs "--session" ∈ args)) (toLower (argStr args (qs "--format") (qs "csv"))) (argStr args (qs "--output") [])
    (argValue args (qs "--wait-ms") 2500).

Definition snapshotData (o : SnapshotOptions) (rows : list Row) : list Z :=
  if qeqb (sn_format o) (qs "json") then jsonText (flowSnapshot rows) else toUtf8 (toCsv (flowSnapshot rows)).

(** The shot: what goes to the standard output, the file and the exit code. *)
Definition takeSnapshot (o : SnapshotOptions) (fault : option SaveFault) (old : option (list Z)) (rows : list Row) : list Z * option (list Z) * Z :=
  if isEmpty (sn_output o) then (snapshotData o rows, old, 0%Z)
  else let '(ok, file) := save fault old (snapshotData o rows) in ([], file, if ok then 0%Z else 1%Z).

(* ------------------------------------------------------------------ *)
(** ** Correctness *)

(** The tool and the terminal frontend export the same table. *)
Theorem snapshot_is_terminal_export rows : flowSnapshot rows = connRowsExportable rows.
Proof.
  unfold flowSnapshot, connRowsExportable. f_equal. apply map_ext. intros r. unfold snapshotRow, connExportRow, endpoint, tuiEndpointText, rawRx, rawTx.
  destruct (isIPv6 (c_local (r_current r))), (isIPv6 (c_remote (r_current r))); reflexivity.
Qed.

(** The exit code says whether the file holds the snapshot; a file that could
    not be written is what it was.  Without a file the output is the snapshot
    and no file is touched. *)
Theorem snapshot_exit_exact o fault old rows :
  let '(out, file, rc) := takeSnapshot o fault old rows in
  (sn_output o = [] -> out = snapshotData o rows /\ file = old /\ rc = 0%Z) /\
  (sn_output o <> [] -> out = [] /\ (rc = 0%Z /\ file = Some (snapshotData o rows) \/ rc = 1%Z /\ file = old)).
Proof.
  unfold takeSnapshot. destruct (sn_output o) as [|c l]; cbn [isEmpty]; [done|].
  destruct fault as [[]|]; cbn [save]; (split; [done|intros _; split; [done|]]); naive_solver.
Qed.

(** Every cell of the CSV reads back as the text of its value, and none can be
    taken for a formula, whatever the hosts and processes are called. *)
Theorem snapshot_csv_reads rows :
  let cells := csvRead AtStart [] [] (toCsv (flowSnapshot rows)) in
  length cells = S (length rows) /\ Forall (fun row => length row = 13) cells /\
  cells = map (map csvSanitise) (csvFields (flowSnapshot rows)) /\ Forall (Forall (fun f => startsFormula f = false)) cells.
Proof.
  intros cells.
  assert (Hc : cells = map (map csvSanitise) (csvFields (flowSnapshot rows))).
  { apply read_rows; [|done]. constructor; [done|]. apply Forall_fmap, Forall_fmap, Forall_forall. by intros r _. }
  rewrite Hc. split_and!.
  - unfold csvFields. rewrite length_map. cbn. by rewrite !length_map.
  - apply Forall_fmap. constructor; [done|]. apply Forall_fmap, Forall_fmap, Forall_forall. by intros r _.
  - done.
  - apply Forall_fmap, Forall_forall. intros row _. cbn. apply Forall_fmap, Forall_forall. intros f _. apply sanitise_safe.
Qed.
End Snapshot.

#[local] Instance noText : VariantText := fun _ => [].

Example json_to_file :
  let o := snapshotOptions (map qs ["snap"; "--format"; "JSON"; "--output"; "f.json"]%string) in
  takeSnapshot (fun _ => qs "[]") id o None None [] = ([], Some (qs "[]"), 0%Z) /\ takeSnapshot (fun _ => qs "[]") id o (Some CommitFails) (Some [1%Z]) [] = ([], Some [1%Z], 1%Z).
Proof. done. Qed.
