(* ===== verification/WindowActions.v ===== *)
(** * What the main window's menus start: [src/ui/MainWindow.cpp]

    Relaunching with privileges, exporting a table, copying interface rows,
    the tray entry of an interface's menu, the About box, waiting for the tray
    and the layout that is kept between two runs.

    Widgets, the file dialog and the bytes in which Qt saves a geometry or a
    header are Qt's: the first are answers, the second a class with the
    documented round trip.  Environment variables are texts. *)

From S2P Require Import Prelude Qt Conn DbusTypes Units UdpAgg Aggregator IfaceAgg GroupProxy Export CheckTool GuiModel Handoff Escalator GuiSettings WindowText.

Definition nl2 : QString := [10; 10]%Z.

(* ------------------------------------------------------------------ *)
(** ** Relaunching with privileges *)

Record Relaunch := mkRelaunch {
  rl_env : Env;                        (* the process's environment afterwards *)
  rl_server : option HandoffServer;
  rl_used : option Strategy;
  rl_launches : list Launch;
  rl_banner : list QString;            (* texts the banner went through *)
  rl_warning : option QString;
}.

Section Relaunching.
Context `{QHashOrder} (toUpper : QString -> QString) (findExecutable : QString -> list QString -> QString) (starts : Launch -> bool).

Definition launchingText (used : Strategy) : QString :=
  qarg (qs "Privileged instance launching via %1. This window will minimise to the tray once it is ready.") (strategyId used).
Definition relaunchFailedText (planned : list QString) (self : QString) : QString :=
  qargs (qs "No graphical privilege helper succeeded (tried: %1)." ++ nl2 ++ qs "Restart qiftop manually with sudo, or grant the capability once with:" ++ nl2
         ++ qs "    sudo setcap cap_net_admin+eip %2") [qjoin (qs ", ") planned; self].

(** The environment [esc.relaunch] sees. *)
Definition handoffEnv (sock : QString) (srv : HandoffServer) (env : Env) : Env :=
  if isEmpty sock then env else <[kHandoffNonceFile := hs_nonceFilePath srv]> (<[kHandoffSocket := sock]> env).

Definition relaunchAsAdmin (le : ListenEnv) (env : Env) (self : QString) (tail : list QString) : Relaunch :=
  let '(sock, srv) := listen le newServer in
  let handoff := if isEmpty sock then None else Some srv in
  let env1 := handoffEnv sock srv env in
  let w := mkEscWorld env1 findExecutable starts in
  let '(used, launches, msgs) := relaunch toUpper w self tail in
  let env2 := delete kHandoffNonceFile (delete kHandoffSocket env1) in
  match used with
  | Some s => mkRelaunch env2 handoff used launches (msgs ++ [launchingText s]) None
  | None => mkRelaunch env2 None used launches msgs (Some (relaunchFailedText (plannedStrategies toUpper w) self))
  end.

(** Whatever happened, nothing of the hand-off stays in the environment of the
    process, and nothing else of it changed; there is a server to connect to
    only when a helper was started, and a warning exactly when none was. *)
Theorem relaunch_cleans_up le env self tail :
  let r := relaunchAsAdmin le env self tail in
  rl_env r = delete kHandoffNonceFile (delete kHandoffSocket env) /\
  (rl_warning r = None <-> is_Some (rl_used r)) /\
  rl_server r = match rl_used r with Some _ => if isEmpty (fst (listen le newServer)) then None else Some (snd (listen le newServer)) | None => None end /\
  match rl_used r with Some _ => Forall (fun l => starts l = false) (removelast (rl_launches r)) | None => Forall (fun l => starts l = false) (rl_launches r) end.
Proof.
  unfold relaunchAsAdmin. destruct (listen le newServer) as [sock srv]. cbn [fst snd].
  set (w := mkEscWorld (handoffEnv sock srv env) findExecutable starts).
  assert (He : delete kHandoffNonceFile (delete kHandoffSocket (handoffEnv sock srv env)) = delete kHandoffNonceFile (delete kHandoffSocket env)).
  { unfold handoffEnv. destruct (isEmpty sock); [done|]. apply map_eq. intros k.
    destruct (decide (k = kHandoffNonceFile)) as [->|Hn]; [by rewrite !lookup_delete_eq|]. rewrite !(lookup_delete_ne _ kHandoffNonceFile) by done.
    destruct (decide (k = kHandoffSocket)) as [->|Hs]; [by rewrite !lookup_delete_eq|]. by rewrite !lookup_delete_ne, !lookup_insert_ne by done. }
  pose proof (relaunchWith_split w (orderedStrategies toUpper w) self tail) as Hs. unfold relaunch.
  destruct (relaunchWith w (orderedStrategies toUpper w) self tail) as [[used launches] msgs]. destruct Hs as (pre & post & Ho & Hf & Hu).
  assert (Hno : forall s, s ∈ pre -> forall l, runStrategy w s self tail = Some l -> starts l = false) by (intros s Hin l Hl; exact (Hf s l Hin Hl)).
  destruct used as [s|]; cbn [rl_env rl_warning rl_used rl_server rl_launches].
  - split_and!; [exact He|split; [by eexists|done]|done|]. destruct Hu as (l & post' & _ & Hl & _ & ->).
    rewrite omap_app. cbn [omap list_omap]. rewrite Hl. rewrite removelast_last. apply Forall_forall. intros x (s' & Hin & Hx)%list_elem_of_omap. exact (Hno s' Hin x Hx).
  - split_and!; [exact He|split; [done|by intros [? ?]]|done|]. destruct Hu as [-> ->]. rewrite app_nil_r in Ho. rewrite Ho. apply Forall_forall.
    intros x (s' & Hin & Hx)%list_elem_of_omap. exact (Hno s' Hin x Hx).
Qed.

Definition withWords (ws : list Z) (le : ListenEnv) : ListenEnv :=
  mkListenEnv (le_runtime le) (le_runtimeExists le) (le_cache le) (le_tempDir le) (le_uuid1 le) (le_uuid2 le) ws (le_nonceOpen le) (le_nonceCommit le) (le_euid le) (le_listen le).

Lemma listen_words le ws : fst (listen (withWords ws le) newServer) = fst (listen le newServer) /\
  hs_nonceFilePath (snd (listen (withWords ws le) newServer)) = hs_nonceFilePath (snd (listen le newServer)).
Proof.
  unfold listen. cbn [newServer hs_listening]. change (pickRuntimeDir (withWords ws le)) with (pickRuntimeDir le). destruct (pickRuntimeDir le) as [dir err].
  cbn [withWords le_runtime le_uuid1 le_uuid2 le_nonceOpen le_nonceCommit le_listen le_euid le_words]. destruct (isEmpty dir); [done|].
  destruct (le_nonceOpen le), (le_nonceCommit le), (le_listen le); done.
Qed.


Lemma listen_server le p srv : listen le newServer = (p, srv) -> p <> [] -> hs_socketPath srv = p /\ hs_nonceFilePath srv <> [] /\ hs_listening srv = true.
Proof.
  unfold listen. cbn [newServer hs_listening]. destruct (pickRuntimeDir le) as [dir err]. destruct (isEmpty dir); [naive_solver|].
  destruct (le_nonceOpen le), (le_nonceCommit le), (le_listen le); try naive_solver. intros [= <- <-] _. cbn [hs_socketPath hs_nonceFilePath hs_listening]. split_and!; [done| |done].
  unfold filePath. intros He. destruct (reverse dir) as [|c r]; [|destruct (decide (c = 47%Z)) as [->|]]; [by apply app_nil in He as [_ ?]|apply app_nil in He as [Hd Hq]|].
  - revert Hq. unfold qarg. discriminate.
  - assert (dir ++ qs "/" ++ qarg (qs "qiftop-handoff-%1.nonce") (le_uuid2 le) = []) by (revert He; repeat case_match; try done; congruence).
    by apply app_nil in H0 as [_ ?].
Qed.

End Relaunching.

(* ------------------------------------------------------------------ *)
(** ** Exporting a table *)

Inductive ExportFormat := EfJson | EfCsv.
Inductive ExportSink := EsFile | EsClipboard.

Record Exported := mkExported {
  xp_clipboard : option QString;       (* a new content *)
  xp_suggested : option QString;       (* what the file dialog proposed *)
  xp_file : option (list Z);           (* the chosen file afterwards *)
  xp_status : option QString;
  xp_warning : option QString;
}.

Section Exporting.
(** [chosen] is the dialog's answer, empty when it was cancelled. *)
Context `{VariantText} (jsonText : Exportable -> list Z) (toUtf8 : QString -> list Z) (fromUtf8 : list Z -> QString) (errText : SaveFault -> QString).

Definition exportData (src : Exportable) (fmt : ExportFormat) : list Z := match fmt with EfJson => jsonText src | EfCsv => toUtf8 (toCsv src) end.
Definition runExport (src : Exportable) (fmt : ExportFormat) (sink : ExportSink) (baseName chosen : QString) (fault : option SaveFault) (old : option (list Z)) : Exported :=
  let data := exportData src fmt in
  match sink with
  | EsClipboard =>
      mkExported (Some (fromUtf8 data)) None old (Some (qargs (qs "Copied %1 %2 to clipboard") [baseName; qs match fmt with EfJson => "(JSON)" | EfCsv => "(CSV)" end])) None
  | EsFile =>
      let suggested := Some (qargs (qs "%1.%2") [baseName; qs match fmt with EfJson => "json" | EfCsv => "csv" end]) in
      if isEmpty chosen then mkExported None suggested old None None
      else let '(ok, file) := save fault old data in
           if ok then mkExported None suggested file (Some (qarg (qs "Exported to %1") chosen)) None
           else mkExported None suggested file None
                  (Some (qargs (qs "Could not write %1:" ++ [10%Z] ++ qs "%2") [chosen; match fault with Some f => errText f | None => [] end]))
  end.

(** The eight entries of the two menus. *)
Record ExportAction := mkExportAction { ea_connections : bool; ea_format : ExportFormat; ea_sink : ExportSink }.
Definition exportActions : list ExportAction :=
  c ← [false; true]; s ← [EsFile; EsClipboard]; f ← [EfJson; EfCsv]; [mkExportAction c f s].
Definition triggerExport (ifaces conns : Exportable) (a : ExportAction) : QString -> option SaveFault -> option (list Z) -> Exported :=
  runExport (if ea_connections a then conns else ifaces) (ea_format a) (ea_sink a) (qs (if ea_connections a then "connections" else "interfaces")).

(** An export says it is done exactly when the whole table is where the user
    wanted it; a failed one warns and leaves the file as it was, a cancelled
    one does nothing at all; only the clipboard entries touch the clipboard. *)
Theorem export_exact ifaces conns a chosen fault old :
  let src := if ea_connections a then conns else ifaces in
  let r := triggerExport ifaces conns a chosen fault old in
  match ea_sink a with
  | EsClipboard => xp_clipboard r = Some (fromUtf8 (exportData src (ea_format a))) /\ xp_file r = old /\ is_Some (xp_status r) /\ xp_warning r = None
  | EsFile =>
      xp_clipboard r = None /\
      (chosen = [] -> xp_file r = old /\ xp_status r = None /\ xp_warning r = None) /\
      (chosen <> [] -> (is_Some (xp_status r) <-> fault = None) /\ (xp_warning r = None <-> fault = None) /\
         xp_file r = match fault with None => Some (exportData src (ea_format a)) | Some _ => old end)
  end.
Proof.
  unfold triggerExport, runExport. destruct (ea_sink a); [|by split_and!].
  destruct chosen as [|c ch]; cbn [isEmpty]; [by split_and!|]. destruct fault as [f|]; cbn [save xp_clipboard xp_file xp_status xp_warning]; (split; [done|split; [done|intros _]]);
    (split_and!; [split; [try by intros [? ?]|]; try done; by eexists|by split|done]).
Qed.
End Exporting.

(* ------------------------------------------------------------------ *)
(** ** Copying interface rows *)

Section Copying.
Context `{QtNumberText}.

(** One line per selected row; a row that maps to no source row is [None]. *)
Definition interfaceLine (r : IfaceRow) : option QString := qjoin [9%Z] <$> mapM (netDisplay r) netColumns.
Definition copyInterfaces (rows : list IfaceRow) (selected : list (option nat)) : option (option QString) :=
  lines ← mapM interfaceLine (omap (fun o => i ← o; rows !! i) selected);
  Some (if isEmpty lines then None else Some (qjoin [10%Z] lines)).

Lemma qjoin_avoids c sep l : c ∉ sep -> Forall (fun p => c ∉ p) l -> c ∉ qjoin sep l.
Proof.
  intros Hs. induction 1 as [|p [|q l] Hp Hl IH]; [apply not_elem_of_nil|done|]. change (qjoin sep (p :: q :: l)) with (p ++ sep ++ qjoin sep (q :: l)).
  rewrite !not_elem_of_app. by split_and!.
Qed.

Lemma interfaceLine_reads r line :
  interfaceLine r = Some line -> (forall col t, netDisplay r col = Some t -> 9%Z ∉ t /\ 10%Z ∉ t) ->
  mapM (netDisplay r) netColumns = Some (qsplit 9 line) /\ 10%Z ∉ line.
Proof.
  unfold interfaceLine. destruct (mapM (netDisplay r) netColumns) as [cells|] eqn:E; [|done]. intros [= <-] Hc. apply mapM_Some in E.
  assert (Hf : Forall (fun t => 9%Z ∉ t /\ 10%Z ∉ t) cells). { induction E as [|col t cols cells Ht _ IH]; constructor; eauto. }
  apply Forall_and in Hf as [H9 H10]. split.
  - rewrite qsplit_join; [done| |done]. apply Forall2_length in E. by destruct cells.
  - apply qjoin_avoids; [by apply not_elem_of_cons; split; [|apply not_elem_of_nil]|done].
Qed.

(** What is pasted is a table: a line per selected row, a column per column of
    the view, each cell what the view shows. *)
Theorem copied_rows_read rows selected text :
  copyInterfaces rows selected = Some (Some text) ->
  (forall r col t, r ∈ rows -> netDisplay r col = Some t -> 9%Z ∉ t /\ 10%Z ∉ t) ->
  mapM (fun r => mapM (netDisplay r) netColumns) (omap (fun o => i ← o; rows !! i) selected) = Some (map (qsplit 9) (qsplit 10 text)).
Proof.
  unfold copyInterfaces. set (chosen := omap _ selected). intros Hc Hcell.
  assert (Hin : Forall (fun r => r ∈ rows) chosen).
  { apply Forall_forall. intros r (o & _ & Ho)%list_elem_of_omap. destruct o as [i|]; [|done]. cbn in Ho. by apply list_elem_of_lookup_2 in Ho. }
  destruct (mapM interfaceLine chosen) as [lines|] eqn:El; [|done]. cbn [mbind option_bind] in Hc. destruct (isEmpty lines) eqn:Ee; [done|]. injection Hc as <-.
  apply mapM_Some in El.
  assert (Hl : Forall2 (fun r line => mapM (netDisplay r) netColumns = Some (qsplit 9 line) /\ 10%Z ∉ line) chosen lines).
  { clear Ee. induction El as [|r line rs ls Hr _ IH]; [constructor|]. apply Forall_cons in Hin as [Hr' Hin]. constructor; [apply interfaceLine_reads; eauto|by apply IH]. }
  rewrite qsplit_join; [|by destruct lines|eapply Forall2_Forall_r; [exact Hl|]; apply Forall_forall; naive_solver].
  apply mapM_Some. clear El Ee Hin. induction Hl as [|r line rs ls [Hr _] _ IH]; constructor; done.
Qed.
End Copying.

(* ------------------------------------------------------------------ *)
(** ** The tray entry of an interface *)

Record TrayEntry := mkTrayEntry { te_text : QString; te_enabled : bool; te_call : list QString -> Call }.
Definition quotedName : QString := [8220; 37; 49; 8221]%Z.
(** [showInterfaceContextMenu] on a row; [te_call] is what choosing it does to
    the list as it is then. *)
Definition trayEntry (ifname : QString) (trayThere : bool) (summary : list QString) : option TrayEntry :=
  if isEmpty ifname then None
  else let inSummary := bool_decide (ifname ∈ summary) in
       Some (mkTrayEntry (qarg (if inSummary then qs "Remove " ++ quotedName ++ qs " from tray summary" else qs "Add " ++ quotedName ++ qs " to tray summary") ifname)
               trayThere (fun list => CList PfTrayInterfaces (toggleTray ifname inSummary list))).

(** The entry does what it says to the interface it names and to no other; the
    order of the others stays, and an interface that was added and removed
    again leaves the list as it was. *)
Theorem tray_entry_exact ifname trayThere st e :
  let before := pr_list (st_prefs st) PfTrayInterfaces in
  trayEntry ifname trayThere before = Some e ->
  let after := pr_list (st_prefs (fst (applyCall (te_call e before) st))) PfTrayInterfaces in
  (ifname ∈ after <-> ifname ∉ before) /\ filter (fun x => x <> ifname) after = filter (fun x => x <> ifname) before /\
  (ifname ∉ before -> toggleTray ifname true after = before).
Proof.
  intros before. unfold trayEntry. destruct (isEmpty ifname); [done|]. intros [= <-]. cbn [te_call].
  set (l := toggleTray ifname _ before).
  assert (Ha : pr_list (st_prefs (fst (applyCall (CList PfTrayInterfaces l) st))) PfTrayInterfaces = l).
  { cbn [applyCall]. unfold setList. destruct (decide _) as [Hd|Hd]; [by symmetry|]. cbn [fst]. rewrite store_prefs. cbn. unfold upd. by rewrite decide_True. }
  cbv zeta. rewrite Ha. subst l. unfold toggleTray. case_bool_decide as Hin.
  - split_and!; [rewrite list_elem_of_filter; tauto| |done]. clear. induction before as [|x l IH]; [done|]. rewrite !filter_cons.
    destruct (decide (x <> ifname)); [|done]. rewrite filter_cons, decide_True by done. by rewrite IH.
  - assert (Hf : filter (fun x => x <> ifname) before = before).
    { clear Ha. induction before as [|x l IH]; [done|]. apply not_elem_of_cons in Hin as [Hx Hl]. rewrite filter_cons, decide_True by congruence. by rewrite IH. }
    assert (Hs : filter (fun x => x <> ifname) (before ++ [ifname]) = before).
    { rewrite filter_app, Hf, filter_cons, decide_False by (intros Hx; by apply Hx). by rewrite filter_nil, app_nil_r. }
    rewrite Hs, Hf. split_and!; [|done|done]. rewrite elem_of_app, list_elem_of_singleton. tauto.
Qed.

(* ------------------------------------------------------------------ *)
(** ** Waiting for the tray *)

(** The constructor tries once; when there is no tray a timer tries again. *)
Record TrayWait := mkTrayWait { tw_shown : bool; tw_running : bool; tw_attempt : Z }.
Definition startTray (available : bool) : TrayWait := mkTrayWait available (negb available) 0.
Definition trayTick (available : bool) (t : TrayWait) : TrayWait :=
  if negb (tw_running t) then t
  else if available then mkTrayWait true false (tw_attempt t)
  else mkTrayWait (tw_shown t) (negb (30 <=? tw_attempt t + 1)%Z) (tw_attempt t + 1).

Lemma wait_shape answers n :
  (n < 30)%nat -> foldl (fun t a => trayTick a t) (mkTrayWait false true (Z.of_nat n)) answers =
  match list_find (fun a => a = true) (take (30 - n) answers) with
  | Some (i, _) => mkTrayWait true false (Z.of_nat (n + i))
  | None => mkTrayWait false (bool_decide (n + length answers < 30)%nat) (Z.of_nat (Nat.min 30 (n + length answers)))
  end.
Proof.
  assert (Hstop : forall l s k, foldl (fun t a => trayTick a t) (mkTrayWait s false k) l = mkTrayWait s false k) by (induction l; intros; cbn; auto).
  revert n. induction answers as [|a answers IH]; intros n Hn.
  - rewrite take_nil. cbn [foldl list_find length]. rewrite Nat.add_0_r, bool_decide_eq_true_2 by done. by rewrite Nat.min_r by lia.
  - replace (30 - n)%nat with (S (29 - n))%nat by lia. cbn [take list_find foldl]. unfold trayTick at 2. cbn [tw_running negb tw_attempt tw_shown]. destruct a.
    + rewrite Hstop, decide_True by done. cbn [fmap option_fmap option_map]. by rewrite Nat.add_0_r.
    + destruct (Z.leb_spec 30 (Z.of_nat n + 1)) as [Hl|Hl]; cbn [negb].
      * rewrite Hstop. replace (29 - n)%nat with 0%nat by lia. rewrite decide_False by done. cbn [take list_find fmap option_fmap option_map length]. rewrite bool_decide_eq_false_2 by lia. f_equal. lia.
      * replace (Z.of_nat n + 1)%Z with (Z.of_nat (S n)) by lia. rewrite IH by lia. replace (29 - n)%nat with (30 - S n)%nat by lia.
        rewrite (decide_False (P := false = true)) by done.
        destruct (list_find _ (take (30 - S n) answers)) as [[i b]|]; cbn [fmap option_fmap option_map prod_map length]; [f_equal; cbn; lia|].
        f_equal; [|lia]. apply bool_decide_ext. lia.
Qed.

(** The tray is shown exactly when it is there at the start or at one of the
    first thirty tries after it, and from then on, at the latest after the
    thirtieth, nothing is tried any more. *)
Theorem tray_wait_ends available answers :
  let t := foldl (fun t a => trayTick a t) (startTray available) answers in
  (tw_shown t = true <-> available = true \/ true ∈ take 30 answers) /\
  (tw_shown t = true \/ (30 <= length answers)%nat -> tw_running t = false).
Proof.
  cbv zeta. unfold startTray. destruct available; cbn [negb].
  - assert (Hstop : forall l, foldl (fun t a => trayTick a t) (mkTrayWait true false 0) l = mkTrayWait true false 0) by (induction l; cbn; auto).
    rewrite Hstop. cbn. naive_solver.
  - pose proof (wait_shape answers 0 ltac:(lia)) as Hw. change (Z.of_nat 0) with 0%Z in Hw. rewrite Hw. change (30 - 0)%nat with 30%nat. destruct (list_find _ (take 30 answers)) as [[i b]|] eqn:E; cbn [tw_shown tw_running].
    + apply list_find_Some in E as (Hi & -> & _). split; [|done]. split; [intros _; right; by apply list_elem_of_lookup_2 in Hi|done].
    + apply list_find_None in E. rewrite Forall_forall in E. split; [|intros [?|?]; [done|apply bool_decide_eq_false_2; cbn; lia]].
      split; [done|intros [?|Ht]; [done|]]. by destruct (E true Ht).
Qed.

(* ------------------------------------------------------------------ *)
(** ** The About box *)

Definition aboutBackend (usingAgent : bool) (version : QString) : QString :=
  if usingAgent then qarg (qs "Backend: <b>qiftop-agent %1</b> over DBus") (htmlEscaped (if isEmpty version then qs "(legacy, pre-Version)" else version))
  else qs "Backend: <b>in-process</b> (Netlink / conntrack, self-elevated)".
Definition aboutCaps (caps : list QString) : QString :=
  if isEmpty caps then []
  else qarg (qs "<p>Backend capabilities:<br><code style=" ++ [34%Z] ++ qs "font-size:small" ++ [34%Z] ++ qs ">%1</code></p>") (qjoin (qs ", ") (map htmlEscaped caps)).
Definition aboutTemplate : QString :=
  qs "<h3>qiftop %1</h3><p>An iftop-style network monitor for Qt 6 on Linux.</p><p>%2<br>Qt runtime: %3</p>%4<p><a href=" ++ [34%Z]
  ++ qs "https://github.com/TheCleaners/qiftop" ++ [34%Z] ++ qs ">github.com/TheCleaners/qiftop</a></p><p style=" ++ [34%Z] ++ qs "color:gray;font-size:small" ++ [34%Z]
  ++ qs ">Licensed under the GNU General Public License v2 or later.</p>".
Definition aboutBody (appVer qtVer : QString) (usingAgent : bool) (version : QString) (caps : list QString) : QString :=
  qargs aboutTemplate [htmlEscaped appVer; aboutBackend usingAgent version; htmlEscaped qtVer; aboutCaps caps].

Lemma markup_join l : Forall (fun x => markup x = []) l -> markup (qjoin (qs ", ") l) = [].
Proof.
  induction 1 as [|x [|y l] Hx Hl IH]; [done|exact Hx|]. change (qjoin (qs ", ") (x :: y :: l)) with (x ++ qs ", " ++ qjoin (qs ", ") (y :: l)).
  rewrite !markup_app, Hx, IH. reflexivity.
Qed.

Lemma about_markup_backend usingAgent version : markup (aboutBackend usingAgent version) = markup (qs "<b></b>").
Proof. unfold aboutBackend. destruct usingAgent; [rewrite markup_qarg by apply markup_escaped|]; by vm_compute. Qed.
Lemma about_markup_caps caps : markup (aboutCaps caps) = if isEmpty caps then [] else markup (qs "<p><br><code></code></p>").
Proof.
  unfold aboutCaps. destruct (isEmpty caps); [done|]. rewrite markup_qarg; [by vm_compute|]. apply markup_join, Forall_fmap, Forall_forall. intros t _. apply markup_escaped.
Qed.

(** What an agent answers to the questions for its version and capabilities is
    shown as text: the markup of the box is the program's own whatever the
    agent says. *)
Theorem about_markup_fixed appVer qtVer usingAgent version caps :
  markup (aboutBody appVer qtVer usingAgent version caps) =
  markup (qs "<h3></h3><p></p><p><b></b><br></p>") ++ (if isEmpty caps then [] else markup (qs "<p><br><code></code></p>")) ++ markup (qs "<p><a></a></p><p></p>").
Proof.
  assert (Hq : forall a b c d, qargs aboutTemplate [a; b; c; d] =
    qs "<h3>qiftop " ++ a ++ qs "</h3><p>An iftop-style network monitor for Qt 6 on Linux.</p><p>" ++ b ++ qs "<br>Qt runtime: " ++ c ++ qs "</p>" ++ d
    ++ (qs "<p><a href=" ++ [34%Z] ++ qs "https://github.com/TheCleaners/qiftop" ++ [34%Z] ++ qs ">github.com/TheCleaners/qiftop</a></p><p style=" ++ [34%Z] ++ qs "color:gray;font-size:small" ++ [34%Z]
    ++ qs ">Licensed under the GNU General Public License v2 or later.</p>")) by (intros; reflexivity).
  unfold aboutBody. rewrite Hq, !markup_app, !markup_escaped, about_markup_backend, about_markup_caps. by destruct (isEmpty caps); vm_compute.
Qed.

(* ------------------------------------------------------------------ *)
(** ** The layout between two runs *)

(** What Qt saves of a window and of a header: bytes that restore it, never
    empty; a header's bytes hold its sort column and order.  [bytesVal] is the
    variant that holds bytes. *)
Class QtLayout := {
  Geometry : Type; DockState : Type; HeaderBytes : Type;
  saveGeometry : Geometry -> list Z; restoreGeometry : list Z -> Geometry -> Geometry;
  saveState : DockState -> list Z; restoreState : list Z -> DockState -> DockState;
  saveHeader : HeaderBytes -> list Z; restoreHeader : list Z -> HeaderBytes -> HeaderBytes;
  sortByColumn : Z -> Z -> HeaderBytes -> HeaderBytes;
  sortIndicatorSection : HeaderBytes -> Z; sortIndicatorOrder : HeaderBytes -> Z;
  bytesVal : list Z -> SetVal; svBytes : SetVal -> list Z;
}.
Class QtLayoutLaws `{QtSettings, QtLayout} : Prop := {
  geometry_back : forall g g', saveGeometry g <> [] /\ restoreGeometry (saveGeometry g) g' = g;
  docks_back : forall d d', saveState d <> [] /\ restoreState (saveState d) d' = d;
  header_back : forall h h', saveHeader h <> [] /\ restoreHeader (saveHeader h) h' = h;
  bytes_back : forall b, svBytes (reread (bytesVal b)) = b;
}.

Definition kUiGeometry : QString := qs "ui/geometry".
Definition kUiWindowState : QString := qs "ui/windowState".
Definition kUiCurrentTab : QString := qs "ui/currentTab".
Definition kUiNetSortColumn : QString := qs "ui/interfaces/sortColumn".
Definition kUiNetSortOrder : QString := qs "ui/interfaces/sortOrder".
Definition kUiConnSortColumn : QString := qs "ui/connections/sortColumn".
Definition kUiConnSortOrder : QString := qs "ui/connections/sortOrder".
Definition kUiNetHeaderState : QString := qs "ui/interfaces/headerState".
Definition kUiConnHeaderState : QString := qs "ui/connections/headerState".
Definition uiKeys : list QString :=
  [kUiGeometry; kUiWindowState; kUiCurrentTab; kUiNetSortColumn; kUiNetSortOrder; kUiConnSortColumn; kUiConnSortOrder; kUiNetHeaderState; kUiConnHeaderState].

Section Layout.
Context `{QtSettings, QtLayout}.

Record UiLayout := mkUiLayout { ul_geometry : Geometry; ul_docks : DockState; ul_tab : Z; ul_net : HeaderBytes; ul_conn : HeaderBytes }.

Definition uiEntries (u : UiLayout) : list (QString * SetVal) :=
  [(kUiGeometry, bytesVal (saveGeometry (ul_geometry u))); (kUiWindowState, bytesVal (saveState (ul_docks u))); (kUiCurrentTab, SvInt (ul_tab u));
   (kUiNetSortColumn, SvInt (sortIndicatorSection (ul_net u))); (kUiNetSortOrder, SvInt (sortIndicatorOrder (ul_net u)));
   (kUiConnSortColumn, SvInt (sortIndicatorSection (ul_conn u))); (kUiConnSortOrder, SvInt (sortIndicatorOrder (ul_conn u)));
   (kUiNetHeaderState, bytesVal (saveHeader (ul_net u))); (kUiConnHeaderState, bytesVal (saveHeader (ul_conn u)))].
Definition writeUiState (u : UiLayout) (s : SetStore) : SetStore := foldl (fun s kv => <[fst kv := snd kv]> s) s (uiEntries u).

Definition layoutBytes (s : SetStore) (k : QString) : list Z := default [] (svBytes <$> s !! k).
Definition layoutInt (s : SetStore) (k : QString) (d : Z) : Z := default d (svInt <$> s !! k).
Definition restored {A} (restore : list Z -> A -> A) (b : list Z) (a : A) : A := if isEmpty b then a else restore b a.
(** [QTabWidget::setCurrentIndex] with two tabs. *)
Definition setCurrentTab (i cur : Z) : Z := if (0 <=? i)%Z && (i <? 2)%Z then i else cur.

(** Columns by number: [NetworkModel::Column::Name], [ConnectionModel::Column::RxRate]. *)
Definition readUiState (s : SetStore) (u : UiLayout) : UiLayout :=
  let net := sortByColumn (layoutInt s kUiNetSortColumn 0) (layoutInt s kUiNetSortOrder 0) (ul_net u) in
  let conn := sortByColumn (layoutInt s kUiConnSortColumn 2) (layoutInt s kUiConnSortOrder 1) (ul_conn u) in
  mkUiLayout (restored restoreGeometry (layoutBytes s kUiGeometry) (ul_geometry u)) (restored restoreState (layoutBytes s kUiWindowState) (ul_docks u))
    (setCurrentTab (layoutInt s kUiCurrentTab 0) (ul_tab u))
    (restored restoreHeader (layoutBytes s kUiNetHeaderState) net) (restored restoreHeader (layoutBytes s kUiConnHeaderState) conn).

Lemma entries_other (l : list (QString * SetVal)) (s : SetStore) (k : QString) : k ∉ map fst l -> foldl (fun s kv => <[fst kv := snd kv]> s) s l !! k = s !! k.
Proof.
  revert s. induction l as [|[k' v] l IH]; intros s; [done|]. cbn [map fst]. intros [Hk Hl]%not_elem_of_cons. cbn [foldl]. rewrite IH by done. cbn [fst snd]. by rewrite lookup_insert_ne.
Qed.
Lemma entries_found (l : list (QString * SetVal)) (s : SetStore) k v : NoDup (map fst l) -> (k, v) ∈ l -> foldl (fun s kv => <[fst kv := snd kv]> s) s l !! k = Some v.
Proof.
  revert s. induction l as [|[k' v'] l IH]; intros s Hn Hin; [by apply not_elem_of_nil in Hin|]. cbn [map fst] in Hn. apply NoDup_cons in Hn as [Hk Hn].
  apply elem_of_cons in Hin as [[= -> ->]|Hin]; cbn [foldl fst snd].
  - rewrite entries_other by done. apply lookup_insert_eq.
  - by apply IH.
Qed.

Lemma uiKeys_NoDup : NoDup uiKeys.
Proof. apply (bool_decide_unpack _). vm_compute. exact I. Qed.
Lemma written_found u s k v : (k, v) ∈ uiEntries u -> atStart (writeUiState u s) !! k = Some (reread v).
Proof. intros Hin. unfold atStart, writeUiState. rewrite lookup_fmap, (entries_found _ _ k v); [done|exact uiKeys_NoDup|done]. Qed.

Lemma ui_not_pref p : prefKey p ∉ uiKeys /\ kRateSmoothingSecsLegacy ∉ uiKeys.
Proof.
  assert (Hall : forallb (fun k => negb (existsb (fun u => qeqb u k) uiKeys)) (kRateSmoothingSecsLegacy :: map prefKey allPrefs) = true) by (vm_compute; reflexivity).
  rewrite forallb_forall in Hall.
  assert (Hone : forall k, k ∈ kRateSmoothingSecsLegacy :: map prefKey allPrefs -> k ∉ uiKeys).
  { intros k Hk Hin. apply list_elem_of_In, Hall, negb_true_iff in Hk. rewrite <- not_true_iff_false in Hk. apply Hk. apply existsb_exists. exists k.
    split; [by apply list_elem_of_In|]. by apply qeqb_eq. }
  split; apply Hone; [|by left]. right. apply list_elem_of_fmap. exists p. split; [done|apply allPrefs_all].
Qed.

(** The window comes back as it was left, whatever it was built like before,
    and what is kept of it never touches a preference; with nothing kept it
    starts on the interfaces, sorted by name, and the flows by their incoming
    rate, the busiest first. *)
Theorem layout_comes_back `{!QtSettingsLaws, !QtLayoutLaws} u u0 s :
  (0 <= ul_tab u < 2)%Z ->
  readUiState (atStart (writeUiState u s)) u0 = u /\
  (forall p, writeUiState u s !! prefKey p = s !! prefKey p) /\ writeUiState u s !! kRateSmoothingSecsLegacy = s !! kRateSmoothingSecsLegacy /\
  readUiState ∅ u0 = mkUiLayout (ul_geometry u0) (ul_docks u0) 0 (sortByColumn 0 0 (ul_net u0)) (sortByColumn 2 1 (ul_conn u0)).
Proof.
  intros Ht.
  assert (Hb : forall k b, (k, bytesVal b) ∈ uiEntries u -> layoutBytes (atStart (writeUiState u s)) k = b).
  { intros k b Hk. unfold layoutBytes. rewrite (written_found u s k _ Hk). apply bytes_back. }
  assert (Hi : layoutInt (atStart (writeUiState u s)) kUiCurrentTab 0 = ul_tab u).
  { unfold layoutInt. rewrite (written_found u s _ (SvInt (ul_tab u))); [|do 2 right; by left]. cbn. apply reread_int. unfold int32. lia. }
  split_and!; [| | |reflexivity].
  - unfold readUiState. rewrite Hi. rewrite (Hb kUiGeometry (saveGeometry (ul_geometry u))) by by left. rewrite (Hb kUiWindowState (saveState (ul_docks u))) by (right; by left).
    rewrite (Hb kUiNetHeaderState (saveHeader (ul_net u))) by (do 7 right; by left). rewrite (Hb kUiConnHeaderState (saveHeader (ul_conn u))) by (do 8 right; by left).
    assert (Hr : forall (A : Type) (restore : list Z -> A -> A) b a a', b <> [] /\ restore b a' = a -> restored restore b a' = a).
    { intros A restore b a a' [Hne He]. unfold restored. by destruct b. }
    rewrite (Hr _ restoreGeometry _ (ul_geometry u)) by apply geometry_back. rewrite (Hr _ restoreState _ (ul_docks u)) by apply docks_back.
    rewrite (Hr _ restoreHeader _ (ul_net u)) by apply header_back. rewrite (Hr _ restoreHeader _ (ul_conn u)) by apply header_back.
    unfold setCurrentTab. destruct (Z.leb_spec 0 (ul_tab u)), (Z.ltb_spec (ul_tab u) 2); try lia. by destruct u.
  - intros p. apply entries_other, (ui_not_pref p).
  - apply entries_other, (ui_not_pref (PInt PfPollIntervalMs)).
Qed.
End Layout.

(* ------------------------------------------------------------------ *)
(** ** Examples *)

Definition exampleListen : ListenEnv :=
  mkListenEnv (qs "/run/user/1000") true (qs "/home/u/.cache") (inl []) (qs "u1") (qs "u2") [1; 2; 3; 4]%Z None None 1000 None.
Definition exampleRelaunch : Relaunch :=
  relaunchAsAdmin id (wo_findExecutable exampleWorld) (wo_starts exampleWorld) exampleListen (wo_env exampleWorld) (qs "/usr/bin/qiftop") [qs "-v"].


#[local] Instance wholeNumbers : QtNumberText := fun d _ => match dtrunc d with Some z => number z | None => qs "?" end.
Definition copiedIface : IfaceRow :=
  mkIfaceRow (mkInterfaceStats (qs "eth0") (qs "ethernet") 1500 [] 2048 1024 0 0 true false 2 6 0 0 0 0) dzero dzero.

Lemma copiedIface_plain r col t : r ∈ [copiedIface] -> netDisplay r col = Some t -> 9%Z ∉ t /\ 10%Z ∉ t.
Proof.
  intros ->%list_elem_of_singleton Ht.
  assert (Hb : Is_true match netDisplay copiedIface col with Some t => bool_decide (9%Z ∉ t /\ 10%Z ∉ t) | None => true end) by (destruct col; vm_compute; exact I).
  rewrite Ht in Hb. by apply bool_decide_unpack in Hb.
Qed.
Lemma copied_rows_read_witness : exists text, copyInterfaces [copiedIface] [Some 0%nat; None] = Some (Some text) /\ mapM (fun r => mapM (netDisplay r) netColumns) [copiedIface] = Some (map (qsplit 9) (qsplit 10 text)).
Proof.
  assert (Hc : exists text, copyInterfaces [copiedIface] [Some 0%nat; None] = Some (Some text)) by (vm_compute; eexists; reflexivity).
  destruct Hc as [text Hc]. exists text. split; [exact Hc|]. exact (copied_rows_read [copiedIface] [Some 0%nat; None] text Hc copiedIface_plain).
Defined.

Definition trayPrefs : Settings :=
  mkSettings true ∅ (mkPrefs boolDefault intDefault strDefault (fun _ => [qs "eth0"; qs "lo"; qs "wlan0"]) colorDefault 0 VmFlat).
Lemma tray_entry_exact_witness : exists e, trayEntry (qs "lo") true (pr_list (st_prefs trayPrefs) PfTrayInterfaces) = Some e /\ qs "lo" ∉ pr_list (st_prefs (fst (applyCall (te_call e (pr_list (st_prefs trayPrefs) PfTrayInterfaces)) trayPrefs))) PfTrayInterfaces.
Proof.
  eexists. split; [reflexivity|]. intros Hin. eapply (tray_entry_exact (qs "lo") true trayPrefs _ eq_refl) in Hin.
  apply Hin. right. left.
Defined.

#[local] Instance byteLayout : QtLayout := {|
  Geometry := list Z; DockState := list Z; HeaderBytes := Z * Z;
  saveGeometry := cons 1%Z; restoreGeometry b _ := drop 1 b; saveState := cons 1%Z; restoreState b _ := drop 1 b;
  saveHeader h := [1; fst h; snd h]%Z; restoreHeader b h := match b with [_; c; o] => (c, o) | _ => h end;
  sortByColumn c o _ := (c, o); sortIndicatorSection := fst; sortIndicatorOrder := snd;
  bytesVal := SvStr; svBytes v := match v with SvStr s => s | _ => [] end;
|}.
#[local] Instance byteLayout_laws : QtLayoutLaws.
Proof. split; cbn; try done. by intros [c o] h. Qed.

Definition layoutOf (g d : list Z) (tab : Z) (net conn : Z * Z) : UiLayout := @mkUiLayout byteLayout g d tab net conn.
Lemma layout_comes_back_witness :
  readUiState (atStart (writeUiState (layoutOf [7; 8]%Z [] 1 (3, 1)%Z (2, 0)%Z) ∅)) (layoutOf [] [] 0 (0, 0)%Z (0, 0)%Z) = layoutOf [7; 8]%Z [] 1 (3, 1)%Z (2, 0)%Z.
Proof. apply (layout_comes_back (layoutOf [7; 8]%Z [] 1 (3, 1)%Z (2, 0)%Z) (layoutOf [] [] 0 (0, 0)%Z (0, 0)%Z) ∅). cbn. lia. Defined.

Example eight_entries : length exportActions = 8%nat /\ NoDup (map (fun a => (ea_connections a, match ea_format a with EfJson => 0 | _ => 1 end, match ea_sink a with EsFile => 0 | _ => 1 end)%nat) exportActions).
Proof. split; [reflexivity|]. apply (bool_decide_unpack _). vm_compute. exact I. Qed.
