(* ===== verification/Cadence.v ===== *)
(** * A client's heartbeat and the agent's pace

    The frontends ask the agent for an interval and repeat it every four
    seconds ([MainWindow::refreshAgentHeartbeat], [tui/main.cpp], the
    Prometheus exporter); the agent slows down and pauses when nobody calls
    ([IdleManager], reached through the services).  This file puts the two
    together over the agent's event loop of [Agent]: what a client that keeps
    calling is given whatever else happens, and what one that asks once gets. *)

From S2P Require Import Prelude Qt StdAlgo Conn Heuristics Resolver Attribution DeepQueue DeepWorker HintTable IdleManager HintManager AgentConfig DbusTypes Service Agent.

(** [m_agentHeartbeat->start(4000)]. *)
Definition kHeartbeatMs : Z := 4000.

Section Cadence.
Context `{QtUnicode, QtAddrText, QHashOrder, StdSort}.
Context {S : Type} (resolver : option (Resolver S)) (startTimeOf : S -> Z -> Z).
Context (userNameForUid : Z -> QString) (userInGroup : Z -> QString -> bool).

#[local] Abbreviation event := (agent_event (S := S)).
#[local] Abbreviation step := (agentStep resolver startTimeOf userNameForUid userInGroup).
Definition runEvents (es : list event) (a : Agent S) : Agent S := foldl (fun a e => fst (step e a)) a es.
Definition idleOf (a : Agent S) : option IdleState := sv_idle (ag_conn a).

(* ------------------------------------------------------------------ *)
(** ** What the events do to the idle manager *)

Definition setInterval (sender : QString) (ms : Z) (i : IdleState) : IdleState :=
  let '(accepted, (j, _)) := setClientHint sender (toSigned32 ms) i in
  if accepted : bool then fst (noteActivity j) else j.
Definition later (ms : Z) (i : IdleState) : IdleState := mkIdle (i_cfg i) (i_now i + ms) (i_sinceStart i) (i_currentMs i) (i_hints i).

(** An accepted eagerness hint counts as activity. *)
Definition idleMoves (e : event) (i i' : IdleState) : Prop :=
  match e with
  | EvGetConnections | EvGetInterfaces | EvGetDetails _ _ _ => i' = fst (noteActivity i)
  | EvSetInterval caller ms => i' = setInterval (senderOf caller) ms i
  | EvSetEagerness _ _ => i' = i \/ i' = fst (noteActivity i)
  | EvIdleTimer => i' = fst (idleEvaluate i)
  | EvNameOwnerChanged name old new => i' = fst (idleNameOwnerChanged name old new i)
  | EvTime ms => i' = if (0 <=? ms)%Z then later ms i else i
  | _ => i' = i
  end.

Lemma withIdle_idle f (sv : Service S) i : sv_idle sv = Some i -> sv_idle (fst (withIdle f sv)) = Some (fst (f i)).
Proof. intros Hi. unfold withIdle. rewrite Hi. by destruct (f i). Qed.
Lemma eagerness_idle m (sv : Service S) : sv_idle (fst (onEffectiveEagernessChanged resolver m sv)) = sv_idle sv.
Proof. unfold onEffectiveEagernessChanged. destruct resolver, (sv_worker sv) eqn:E; cbn; rewrite ?E; done. Qed.
Lemma withHints_idle f (sv : Service S) : sv_idle (fst (withHints resolver f sv)) = sv_idle sv.
Proof.
  unfold withHints. destruct (sv_hints sv) as [h|]; [|done]. destruct (f h) as [h' modes].
  assert (Hgo : forall l (p : Service S * list Signal), sv_idle (fst (foldl (fun '(sv, es) m => let '(sv, fs) := onEffectiveEagernessChanged resolver m sv in (sv, es ++ fs)) p l)) = sv_idle (fst p)).
  { induction l as [|m l IH]; intros [sv' es]; [done|]. cbn [foldl]. rewrite IH. pose proof (eagerness_idle m sv') as He.
    destruct (onEffectiveEagernessChanged resolver m sv') as [sv2 fs]. exact He. }
  by rewrite Hgo.
Qed.
Lemma onDeepRefined_idle us (sv : Service S) : sv_idle (fst (onDeepRefined us sv)) = sv_idle sv.
Proof. unfold onDeepRefined. by destruct (foldl _ _ us) as [[? ?] ?]. Qed.

Lemma step_idle e a i : idleOf a = Some i -> exists i', idleOf (fst (step e a)) = Some i' /\ idleMoves e i i'.
Proof.
  intros Hi. unfold idleOf in *.
  destruct e as [ctx conns|stats|d| | | |caller ms|caller m|caller pid rd| | | |name old new|f|ms]; cbn [agentStep idleMoves]; rewrite ?onService_conn.
  - exists i. split; [|done]. unfold onConnectionsUpdated. destruct (attributeFlows _ _ _ _ _) as [kept s]. cbn [fst sv_set_resolver sv_set_rows sv_worker].
    destruct (sv_worker (ag_conn a)); [destruct (isEmpty _)|]; exact Hi.
  - by exists i.
  - by exists i.
  - exists i. split; [|done]. unfold onAccountingUnavailable. by destruct (sv_accountingEnabled _).
  - eexists. split; [|reflexivity]. unfold GetConnections. pose proof (withIdle_idle noteActivity _ i Hi) as Hw. by destruct (withIdle noteActivity (ag_conn a)).
  - eexists. split; [|reflexivity]. unfold GetInterfaces. pose proof (onService_conn (withIdle noteActivity) a) as He.
    destruct (onService (withIdle noteActivity) a) as [a' es]. cbn [fst] in *. rewrite He. by apply withIdle_idle.
  - eexists. split; [|reflexivity]. unfold SetDesiredIntervalMs, setInterval. rewrite Hi. destruct (setClientHint _ _ i) as [acc [j es]]. destruct acc; [|done].
    pose proof (withIdle_idle noteActivity (sv_set_idle (Some j) (ag_conn a)) j eq_refl) as Hw. by destruct (withIdle noteActivity (sv_set_idle (Some j) (ag_conn a))).
  - unfold SetDesiredAttributionEagerness. destruct (sv_hints (ag_conn a)) as [h|]; [|exists i; cbn; auto].
    set (choice := if _ || _ then _ else _).
    assert (Hc : sv_idle (fst (snd choice)) = Some i).
    { unfold choice. destruct (_ || _); cbn [snd]; [by rewrite withHints_idle|]. destruct (eagernessFromString _); cbn [snd]; [by rewrite withHints_idle|done]. }
    destruct choice as [acc [sv1 es]]. cbn [fst snd] in Hc. destruct acc; [|exists i; cbn; auto].
    pose proof (withIdle_idle noteActivity sv1 i Hc) as Hw. destruct (withIdle noteActivity sv1) as [sv2 fs]. eexists. split; [exact Hw|auto].
  - eexists. split; [|reflexivity]. unfold GetProcessDetails. pose proof (withIdle_idle noteActivity _ i Hi) as Hw. destruct (withIdle noteActivity (ag_conn a)) as [sv es].
    destruct (_ || _); [done|]. destruct (negb _); [done|]. by destruct (callerMaySeeProcessFields _ _ _ _ _).
  - eexists. split; [|reflexivity]. by apply withIdle_idle.
  - exists i. split; [|done]. by rewrite withHints_idle.
  - exists i. split; [|done]. unfold onWorkerTick. destruct (sv_worker (ag_conn a)) as [w|]; [|done]. destruct (process _ _ w _) as [[us w'] s].
    destruct (isEmpty us); [done|]. by rewrite onDeepRefined_idle.
  - eexists. split; [|reflexivity]. pose proof (withIdle_idle (idleNameOwnerChanged name old new) _ i Hi) as Hw.
    destruct (withIdle (idleNameOwnerChanged name old new) (ag_conn a)) as [sv es]. cbn [fst] in Hw.
    pose proof (withHints_idle (hintNameOwnerChanged name old new) sv) as Hh. destruct (withHints resolver (hintNameOwnerChanged name old new) sv). cbn [fst] in *. congruence.
  - by exists i.
  - destruct (0 <=? ms)%Z; [|by exists i]. eexists. split; [|reflexivity]. cbn. by rewrite Hi.
Qed.

(* ------------------------------------------------------------------ *)
(** ** A client that keeps calling *)

Context `{!QHashOrderLaws, !StdSortLaws}.

(** A configuration under which calls at most [T] apart are often enough. *)
Definition steady (cfg : IdleConfig) (T : Z) : Prop :=
  (0 < minIntervalMs cfg)%Z /\ (T < hintTtlMs cfg)%Z /\
  Forall (fun w => (w <= 0)%Z \/ (T < w)%Z) [idleTimeoutMs cfg; slow2WindowMs cfg; slow1WindowMs cfg; activeWindowMs cfg].

(** [c] calls with [ms] at most [T] apart, and stays on the bus; everybody else
    does what they like. *)
Fixpoint attended (c : QString) (ms T since : Z) (es : list event) : bool :=
  match es with
  | [] => true
  | e :: es =>
      match e with
      | EvTime d => let since := if (0 <=? d)%Z then (since + d)%Z else since in (since <=? T)%Z && attended c ms T since es
      | EvSetInterval caller ms' => if qeqb (senderOf caller) c then (ms' =? ms)%Z && attended c ms T 0 es else attended c ms T since es
      | EvNameOwnerChanged name old new => negb (qeqb name c && isEmpty new) && attended c ms T since es
      | _ => attended c ms T since es
      end
  end.

(** The client's hint is in force at [v] and was renewed [since] ago. *)
Record renewed (cfg : IdleConfig) (c : QString) (v since : Z) (i : IdleState) : Prop := {
  rn_cfg : i_cfg i = cfg;
  rn_hint : exists h, i_hints i !! c = Some h /\ h_value h = v /\ (i_now i + hintTtlMs cfg - since <= h_expiresAtMs h)%Z;
  rn_since : (i_now i - i_sinceStart i <= since)%Z;
}.
Definition kept (cfg : IdleConfig) (c : QString) (v since : Z) (i : IdleState) : Prop := renewed cfg c v since i /\ (0 < i_currentMs i <= v)%Z.

Lemma foldl_min_le l x acc : x ∈ l -> (foldl Z.min acc l <= x)%Z.
Proof.
  assert (Hacc : forall l0 acc, (foldl Z.min acc l0 <= acc)%Z) by (induction l0 as [|y l' IH]; intros acc'; cbn [foldl]; [lia|]; specialize (IH (acc' `min` y)%Z); lia).
  revert acc. induction l as [|y l IH]; intros acc Hin; [by apply not_elem_of_nil in Hin|]. apply elem_of_cons in Hin as [->|Hin]; cbn [foldl]; [|by apply IH].
  specialize (Hacc l (acc `min` y)%Z). lia.
Qed.

Lemma target_fast cfg T elapsed active : steady cfg T -> (elapsed <= T)%Z -> evaluateTarget cfg elapsed active = active.
Proof.
  intros (_ & _ & Hw) He. rewrite !Forall_cons in Hw. destruct Hw as (W1 & W2 & W3 & W4 & _). unfold evaluateTarget.
  assert (Hno : forall w, (w <= 0 \/ T < w)%Z -> (0 <? w)%Z && (w <=? elapsed)%Z = false) by (intros w Hw; destruct (Z.ltb_spec 0 w), (Z.leb_spec w elapsed); lia || done).
  by rewrite !Hno.
Qed.

Section Client.
Context (cfg : IdleConfig) (T : Z) (c : QString) (v : Z) (Hsteady : steady cfg T) (Hv : (minIntervalMs cfg <= v)%Z).

Lemma renewed_live since i : (since <= T)%Z -> renewed cfg c v since i ->
  (0 < activeOf cfg (liveValues (i_now i) (i_hints i)) <= v)%Z /\
  exists h, live (i_now i) (i_hints i) !! c = Some h /\ h_value h = v /\ (i_now i + hintTtlMs cfg - since <= h_expiresAtMs h)%Z.
Proof.
  intros Hs [Hc (h & Hh & Hhv & He) _]. destruct Hsteady as (Hmin & Httl & _).
  assert (Hx : expired (i_now i) h = false) by (unfold expired; apply Z.leb_gt; lia).
  split; [|exists h; split; [by apply live_lookup|done]]. unfold activeOf.
  assert (Hin : v ∈ liveValues (i_now i) (i_hints i)) by (apply elem_of_liveValues; eauto).
  pose proof (foldl_min_le _ _ (activeIntervalMs cfg) Hin). lia.
Qed.

Lemma evaluate_kept since i : (since <= T)%Z -> renewed cfg c v since i -> kept cfg c v since (fst (idleEvaluate i)).
Proof.
  intros Hs Hr. pose proof (renewed_live since i Hs Hr) as [Ha Hl]. destruct Hr as [Hc _ Hsi]. rewrite idleEvaluate_eq. cbn [fst].
  split; [split; cbn; [done|exact Hl|done]|]. cbn [i_currentMs]. unfold targetOf. rewrite Hc, (target_fast cfg T) by (done || lia). exact Ha.
Qed.
Lemma activity_kept since i : (0 <= since <= T)%Z -> renewed cfg c v since i -> kept cfg c v since (fst (noteActivity i)).
Proof.
  intros Hs Hr. pose proof (renewed_live since i ltac:(lia) Hr) as [Ha Hl]. destruct Hr as [Hc _ Hsi]. rewrite noteActivity_eq. cbn [fst].
  split; [split; cbn; [done|exact Hl|lia]|]. cbn [i_currentMs]. by rewrite Hc.
Qed.

Lemma hints_kept since i m : i_hints i !! c = m !! c -> renewed cfg c v since i -> renewed cfg c v since (with_hints m i).
Proof. intros Hm [Hc Hh Hs]. split; cbn; [done|by rewrite <- Hm|done]. Qed.

Lemma setClientHint_kept sender ms since i : (0 <= since <= T)%Z -> sender <> c -> kept cfg c v since i -> kept cfg c v since (fst (snd (setClientHint sender ms i))).
Proof.
  intros Hs Hne Hk. destruct Hk as [Hr Hp]. unfold setClientHint. destruct (isEmpty sender); [by split|]. destruct (ms <=? 0)%Z.
  - destruct (i_hints i !! sender); [|by split]. apply evaluate_kept; [lia|]. apply hints_kept; [by rewrite lookup_delete_ne|done].
  - destruct (tableFull sender (i_hints i)); [by split|]. apply evaluate_kept; [lia|]. apply hints_kept; [by rewrite lookup_insert_ne|done].
Qed.
Lemma setInterval_kept sender ms since i : (0 <= since <= T)%Z -> sender <> c -> kept cfg c v since i -> kept cfg c v since (setInterval sender ms i).
Proof.
  intros Hs Hne Hk. pose proof (setClientHint_kept sender (toSigned32 ms) since i Hs Hne Hk) as Hk'. unfold setInterval.
  destruct (setClientHint sender (toSigned32 ms) i) as [acc [j es]]. cbn [fst snd] in Hk'. destruct acc; [|done]. apply activity_kept; [lia|]. by destruct Hk'.
Qed.
Lemma owner_kept name old new since i : (0 <= since <= T)%Z -> qeqb name c && isEmpty new = false -> kept cfg c v since i -> kept cfg c v since (fst (idleNameOwnerChanged name old new i)).
Proof.
  intros Hs Hne [Hr Hp]. unfold idleNameOwnerChanged. destruct (isEmpty new); cbn [negb]; [|by split]. destruct (isEmpty old); [by split|].
  destruct (i_hints i !! name); [|by split]. rewrite andb_true_r in Hne.
  apply evaluate_kept; [lia|]. apply hints_kept; [|done]. rewrite lookup_delete_ne; [done|]. intros ->. rewrite (proj2 (qeqb_eq c c) eq_refl) in Hne. done.
Qed.
End Client.

Lemma own_call_kept cfg T c ms i : steady cfg T -> (0 <= T)%Z -> c <> [] -> (0 < ms <= int32_max)%Z -> i_cfg i = cfg -> tableFull c (i_hints i) = false ->
  kept cfg c (ms `max` minIntervalMs cfg) 0 (setInterval c ms i).
Proof.
  intros Hst HT Hc Hms Hcfg Hf. unfold setInterval, setClientHint, toSigned32. destruct (Z.leb_spec ms int32_max); [|lia].
  destruct c as [|x c']; [done|]. cbn [isEmpty]. destruct (Z.leb_spec ms 0); [lia|]. rewrite Hf, Hcfg.
  set (c := x :: c') in *. set (v := (ms `max` minIntervalMs cfg)%Z). destruct (idleEvaluate _) as [j es] eqn:Ej.
  assert (Hj : i_cfg j = cfg /\ i_hints j !! c = Some (mkHint v (i_now j + hintTtlMs cfg)%Z)).
  { pose proof (f_equal fst Ej) as He. rewrite idleEvaluate_eq in He. cbn in He. subst j. cbn. split; [done|]. apply live_lookup. rewrite lookup_insert_eq. split; [done|].
    unfold expired. cbn. apply Z.leb_gt. destruct Hst as (_ & ? & _). lia. }
  destruct Hj as [Hj1 Hj2]. rewrite noteActivity_eq. cbn [fst].
  assert (Hr : renewed cfg c v 0 (mkIdle cfg (i_now j) (i_now j) 0 (i_hints j))).
  { split; cbn; [done| |lia]. eexists. split; [exact Hj2|]. cbn. split; [done|lia]. }
  assert (Hle : (minIntervalMs cfg <= v)%Z) by lia.
  pose proof (renewed_live cfg T c v Hst Hle 0 _ HT Hr) as [Ha Hl]. cbn in Ha, Hl. rewrite Hj1. split; [split; cbn; [done|exact Hl|lia]|exact Ha].
Qed.

(** While the client's hint is in the table a further call is never refused. *)
Lemma kept_not_full cfg c v since i : kept cfg c v since i -> tableFull c (i_hints i) = false.
Proof. intros [[_ (h & Hh & _) _] _]. unfold tableFull. by rewrite Hh, bool_decide_eq_true_2. Qed.

Lemma step_kept cfg T c ms since e i i' : steady cfg T -> (0 <= since <= T)%Z -> c <> [] -> (0 < ms <= int32_max)%Z ->
  kept cfg c (ms `max` minIntervalMs cfg) since i -> idleMoves e i i' -> attended c ms T since [e] = true ->
  exists since', (0 <= since' <= T)%Z /\ kept cfg c (ms `max` minIntervalMs cfg) since' i' /\ forall es, attended c ms T since (e :: es) = attended c ms T since' es.
Proof.
  intros Hst Hs Hc Hms Hk Hm Ha. assert (Hle : (minIntervalMs cfg <= ms `max` minIntervalMs cfg)%Z) by lia. pose proof (proj1 Hk) as Hr.
  destruct e as [ctx conns|stats|d| | | |caller ms'|caller m|caller pid rd| | | |name old new|f|d]; cbn [idleMoves] in Hm; try (subst i'; exists since; split; [exact Hs|split; [exact Hk|done]]).
  - subst i'. exists since. split_and!; try done; try lia. by apply (activity_kept cfg T c _ Hst Hle).
  - subst i'. exists since. split_and!; try done; try lia. by apply (activity_kept cfg T c _ Hst Hle).
  - subst i'. cbn [attended] in Ha |- *. destruct (qeqb (senderOf caller) c) eqn:Eq.
    + apply qeqb_eq in Eq. rewrite Eq. apply andb_true_iff in Ha as [->%Z.eqb_eq _]. rewrite Z.eqb_refl. exists 0%Z. split_and!; [lia|lia| |done].
      apply (own_call_kept cfg T); try done; [lia|apply Hr|by eapply kept_not_full].
    + exists since. split_and!; [lia|lia| |done]. apply (setInterval_kept cfg T); try done; try lia. intros He. rewrite He in Eq. by rewrite (proj2 (qeqb_eq c c) eq_refl) in Eq.
  - exists since. split_and!; [lia|lia| |done]. destruct Hm as [->| ->]; [done|]. by apply (activity_kept cfg T c _ Hst Hle).
  - subst i'. exists since. split_and!; try done; try lia. by apply (activity_kept cfg T c _ Hst Hle).
  - subst i'. exists since. split_and!; try done; try lia. apply (evaluate_kept cfg T c _ Hst Hle); [lia|done].
  - subst i'. cbn [attended] in Ha |- *. rewrite andb_true_r in Ha. exists since. rewrite Ha. apply negb_true_iff in Ha. split_and!; [lia|lia| |done].
    by apply (owner_kept cfg T c _ Hst Hle).
  - subst i'. cbn [attended] in Ha |- *. rewrite andb_true_r in Ha. destruct (Z.leb_spec 0 d); [|exists since; rewrite Ha; split; [exact Hs|split; [exact Hk|done]]].
    exists (since + d)%Z. rewrite Ha. apply Z.leb_le in Ha. split_and!; [lia|lia| |done]. destruct Hk as [[Hcf (h & Hh & Hhv & He) Hsi] Hp].
    split; [split; cbn; [done|exists h; split_and!; [done|done|lia]|lia]|exact Hp].
Qed.

Lemma attended_first c ms T since e es : attended c ms T since (e :: es) = true -> attended c ms T since [e] = true.
Proof. cbn [attended]. destruct e; try done; repeat case_match; rewrite ?andb_true_r, ?andb_true_iff; naive_solver. Qed.

Lemma run_kept cfg T c ms es : steady cfg T -> c <> [] -> (0 < ms <= int32_max)%Z -> forall since a i, (0 <= since <= T)%Z ->
  idleOf a = Some i -> kept cfg c (ms `max` minIntervalMs cfg) since i -> attended c ms T since es = true ->
  exists i', idleOf (runEvents es a) = Some i' /\ (0 < i_currentMs i' <= ms `max` minIntervalMs cfg)%Z.
Proof.
  intros Hst Hc Hms. unfold runEvents. induction es as [|e es IH]; intros since a i Hs Hi Hk Ha; cbn [foldl]; [exists i; split; [done|apply Hk]|].
  destruct (step_idle e a i Hi) as (i2 & Hi2 & Hm).
  destruct (step_kept cfg T c ms since e i i2 Hst Hs Hc Hms Hk Hm (attended_first _ _ _ _ _ _ Ha)) as (since' & Hs' & Hk' & Heq). rewrite Heq in Ha. by apply (IH since' _ i2).
Qed.


(* ------------------------------------------------------------------ *)
(** ** A client that asks once *)

(** Nobody calls. *)
Definition silent (e : event) : bool :=
  match e with EvGetConnections | EvGetInterfaces | EvSetInterval _ _ | EvSetEagerness _ _ | EvGetDetails _ _ _ => false | _ => true end.
Definition passed (es : list event) : Z := foldr (fun e n => match e with EvTime d => (n + 0 `max` d)%Z | _ => n end) 0%Z es.

(** The configuration pauses after [W]. *)
Definition pausesAfter (cfg : IdleConfig) (W : Z) : Prop := (0 < idleTimeoutMs cfg <= W)%Z \/ (0 < slow2WindowMs cfg <= W)%Z.

Lemma target_paused cfg W elapsed active : pausesAfter cfg W -> (W <= elapsed)%Z -> evaluateTarget cfg elapsed active = 0%Z.
Proof.
  intros Hp He. unfold evaluateTarget. destruct Hp as [Hp|Hp].
  - destruct (Z.ltb_spec 0 (idleTimeoutMs cfg)), (Z.leb_spec (idleTimeoutMs cfg) elapsed); try lia. done.
  - destruct (Z.ltb_spec 0 (slow2WindowMs cfg)), (Z.leb_spec (slow2WindowMs cfg) elapsed); try lia. by rewrite orb_true_r.
Qed.

Definition idleFor (W : Z) (i : IdleState) : Prop := (W <= i_now i - i_sinceStart i)%Z.

Lemma evaluate_silent W cfg i : pausesAfter cfg W -> i_cfg i = cfg ->
  let i' := fst (idleEvaluate i) in
  i_cfg i' = cfg /\ i_sinceStart i' = i_sinceStart i /\ i_now i' = i_now i /\ (idleFor W i -> i_currentMs i' = 0%Z).
Proof.
  intros Hp Hc. rewrite idleEvaluate_eq. cbn. split_and!; [done|done|done|]. intros Hi. unfold targetOf. rewrite Hc. by apply (target_paused _ W).
Qed.

Lemma silent_step W cfg e i i' : pausesAfter cfg W -> i_cfg i = cfg -> silent e = true -> idleMoves e i i' ->
  i_cfg i' = cfg /\ (i_now i' - i_sinceStart i' = i_now i - i_sinceStart i + passed [e])%Z /\
  (idleFor W i -> i_currentMs i = 0%Z \/ e = EvIdleTimer -> i_currentMs i' = 0%Z).
Proof.
  intros Hp Hc Hs Hm. pose proof (fun j => evaluate_silent W cfg j Hp) as Hev.
  destruct e as [ctx conns|stats|d| | | |caller ms'|caller m|caller pid rd| | | |name old new|f|d]; try discriminate Hs; cbn [idleMoves passed foldr] in *;
    try (subst i'; split_and!; [done|lia|by intros _ [?|?]]).
  - destruct (Hev i Hc) as (H5 & H6 & H7 & H8). subst i'. rewrite H6, H7. split_and!; [done|lia|auto].
  - subst i'. unfold idleNameOwnerChanged. destruct (negb _); [split_and!; [done|cbn; lia|by intros _ [?|?]]|]. destruct (isEmpty old); [split_and!; [done|cbn; lia|by intros _ [?|?]]|].
    destruct (i_hints i !! name); [|split_and!; [done|cbn; lia|by intros _ [?|?]]]. destruct (Hev (with_hints (delete name (i_hints i)) i) Hc) as (H5 & H6 & H7 & H8).
    rewrite H6, H7. split_and!; [done|cbn; lia|]. intros Hi _. by apply H8.
  - subst i'. destruct (Z.leb_spec 0 d); (split_and!; [done|cbn; lia|by intros _ [?|?]]).
Qed.

Lemma passed_nonneg es : (0 <= passed es)%Z.
Proof. induction es as [|e es IH]; [done|]. cbn [passed foldr]. fold (passed es). destruct e; lia. Qed.
Lemma passed_cons e es : passed (e :: es) = (passed [e] + passed es)%Z.
Proof. cbn [passed foldr]. fold (passed es). destruct e; lia. Qed.

Lemma silent_run W cfg es a i : pausesAfter cfg W -> i_cfg i = cfg -> Forall (fun e => silent e = true) es -> idleOf a = Some i ->
  exists i', idleOf (runEvents es a) = Some i' /\ i_cfg i' = cfg /\ (i_now i' - i_sinceStart i' = i_now i - i_sinceStart i + passed es)%Z /\
    (idleFor W i -> i_currentMs i = 0%Z -> i_currentMs i' = 0%Z).
Proof.
  intros Hp Hc Hs. revert a i Hc. induction Hs as [|e es He Hs IH]; intros a i Hc Hi.
  - exists i. cbn. split_and!; [done|done|lia|done].
  - destruct (step_idle e a i Hi) as (i1 & Hi1 & Hm). destruct (silent_step W cfg e i i1 Hp Hc He Hm) as (Hc1 & Ht1 & Hz1).
    destruct (IH (fst (step e a)) i1 Hc1 Hi1) as (i' & Hi' & Hc' & Ht' & Hz'). exists i'. split; [exact Hi'|]. split; [done|]. rewrite passed_cons. split; [lia|].
    intros Hw H0'. apply Hz'; [unfold idleFor in *; pose proof (passed_nonneg [e]); lia|]. apply Hz1; [done|by left].
Qed.

(** Once nobody has called for as long as the configuration allows, the next
    tick of the idle timer pauses the agent whatever hint was set before, and
    it stays paused until somebody calls. *)
Theorem silence_pauses cfg mode pol s0 a sigs W es es' :
  agent_run resolver startTimeOf userNameForUid userInGroup cfg mode pol s0 a sigs -> pausesAfter cfg W ->
  Forall (fun e => silent e = true) (es ++ es') -> (W <= passed es)%Z ->
  exists i', idleOf (runEvents (es ++ EvIdleTimer :: es') a) = Some i' /\ i_currentMs i' = 0%Z.
Proof.
  intros Hrun Hp Hs Hw. apply Forall_app in Hs as [Hs Hs']. pose proof (agent_run_ok _ _ _ _ _ _ _ _ _ _ Hrun) as Hok. destruct (so_idle _ _ _ Hok) as (i & Hi & Hiok).
  destruct (silent_run W cfg es a i Hp (iok_cfg _ _ Hiok) Hs Hi) as (i1 & Hi1 & Hc1 & Ht1 & _).
  destruct (step_idle EvIdleTimer _ i1 Hi1) as (i2 & Hi2 & Hm). destruct (silent_step W cfg EvIdleTimer i1 i2 Hp Hc1 eq_refl Hm) as (Hc2 & Ht2 & Hz2).
  assert (Hf1 : idleFor W i1) by (unfold idleFor; pose proof (iok_since _ _ Hiok); lia).
  destruct (silent_run W cfg es' _ i2 Hp Hc2 Hs' Hi2) as (i3 & Hi3 & _ & _ & Hz3). exists i3. split.
  - unfold runEvents in *. rewrite foldl_app. exact Hi3.
  - apply Hz3; [unfold idleFor in *; cbn in Ht2; lia|]. apply Hz2; auto.
Qed.
End Cadence.

(* ------------------------------------------------------------------ *)
(** ** Examples *)

#[local] Abbreviation runC := (runEvents (Some constResolver) (fun _ _ => 7%Z) (fun _ => []) (fun _ _ => false)).
Definition freshAgent : Agent unit := fst (appStart (Some constResolver) defaultIdleConfig Balanced (mkPolicy PolicyOwner [] []) tt).
Definition somePeer : Caller := Peer (qs ":1.7") (Some 1000%Z).

(** The frontends' period is short enough for the shipped configuration. *)
Lemma heartbeat_steady : steady defaultIdleConfig kHeartbeatMs.
Proof. split_and!; [done|done|]. repeat constructor; right; done. Qed.


(** A minute after its only request a client gets nothing any more. *)
Lemma silence_pauses_witness :
  exists i', idleOf (runC [EvTime 60000; EvIdleTimer; EvHintTimer] (runC [EvSetInterval somePeer 500] freshAgent)) = Some i' /\ i_currentMs i' = 0%Z.
Proof.
  eapply (silence_pauses (Some constResolver) (fun _ _ => 7%Z) (fun _ => []) (fun _ _ => false) defaultIdleConfig Balanced (mkPolicy PolicyOwner [] []) tt
    (runC [EvSetInterval somePeer 500] freshAgent) _ 60000 [EvTime 60000] [EvHintTimer] (run_event _ _ _ _ _ _ _ _ (EvSetInterval somePeer 500) _ _ (run_start _ _ _ _ _ _ _ _)));
    [left; done|repeat constructor|done].
Defined.

(** A configuration may keep hints for less than the frontends' period: the
    pace asked for is lost between two calls. *)
Definition shortTtl : IdleConfig := mkIdleConfig 1000 2000 5000 30000 45000 60000 60000 100 3000.
Example short_ttl_lapses :
  let a0 := fst (appStart (Some constResolver) shortTtl Balanced (mkPolicy PolicyOwner [] []) tt) in
  i_currentMs <$> idleOf (runC [EvSetInterval somePeer 250] a0) = Some 250%Z /\ i_currentMs <$> idleOf (runC [EvSetInterval somePeer 250; EvTime 3000; EvIdleTimer] a0) = Some 1000%Z.
Proof. split; vm_compute; reflexivity. Qed.
